(* ===== verification/_CoqProject ===== *)
-Q . S2P
Prelude.v
Ring.v
Riscv.v
Core.v
Spinlock.v
Wp.v
Kstring.v
Asm.v
Kalloc.v
Vm.v
VmTree.v
VmUser.v
VmCopy.v
VmExample.v
VmFork.v
Sleeplock.v
Bio.v
BioAbs.v
Log.v
LogOps.v
Pipe.v
Fs.v
FsTx.v
FsBitmap.v
FsFile.v
FsIo.v
FsWrite.v
FsInode.v
FsDir.v
FsSpec.v
FsTrunc.v
FsPath.v
Uart.v
Virtio.v
VirtioSpec.v
Kst.v
KstExample.v
Sched.v
Printf.v
Console.v
File.v
Proc.v
ProcSpec.v
ConsoleSpec.v
Syscall.v
Sysproc.v
Sysfile.v
Trap.v
Keeps.v
FileRefs.v
Boot.v
User.v
Grep.v
Filters.v
Umalloc.v
Sh.v
ShParse.v
ShRun.v
Mkfs.v
MkfsSpec.v
FsBoot.v
Procs.v
Primes.v
Commands.v
CommandsSpec.v
Grind.v
Stress.v
Usertests.v
KernelRun.v
