(* ===== verification/Prelude.v ===== *)
(** * A verification of the xv6 kernel and its user programs

    ** The program

    src/kernel is xv6 for RISC-V: a kernel that multiplexes harts among
    processes, with paged virtual memory, a logged file system on a virtio
    disk, pipes and a console.  src/user holds the C library and the commands.
    The development translates the C and assembly code to Rocq functions and
    proves what the parts promise to each other.

    ** The model of C code

    Integers are [Z] kept in the range of their C type; conversions that can
    change a value are written ([u8], [u16], [u32], [u64], [s32], below).
    Kernel code is a function of the monad [M S A] of Core.v: it reads and
    writes the state [S] of its component (its C globals) and the [core], the
    hart that runs it with the locks of the kernel.  A run ends in one of
    - [Ok]: the function returned;
    - [Panic]: it called panic;
    - [Fault]: it accessed memory that it must not (a null pointer, an index
      outside an array);
    - [Spin]: it waits for ever for a spin lock that this hart cannot get;
    - [Blocked]: it gave up the cpu in sleep (or yielded, or exited);
    - [NoFuel]: the fuel of a loop was not enough.
    A component's code runs inside a larger state through a [lens].  Memory is
    a map from physical addresses to bytes ([mem], Kstring.v): page tables,
    the free list and trapframes are bytes in it, as for the hardware.
    Concurrency is modelled where it is the point of the code: the atomic
    steps of spin locks on several harts (Spinlock.SMP; holding() is one step
    there, since no other hart can change its answer), processes that share
    a sleep lock (Sleeplock.Threads), the two ends of a pipe (Pipe.Fifo), the
    operations that share the log (LogOps.Space), and crashes between disk
    writes (Log).  Elsewhere a function runs with the locks it takes; other
    harts cannot interfere with what the locks protect.

    ** The files

    Foundations.
    - Prelude.v: integers, bytes, lists, tactics and hints.
    - Ring.v: the queue in a circular buffer with free-running indices.
    - Riscv.v: riscv.h, memlayout.h, param.h, fcntl.h.
    - Core.v: the monad.  Wp.v: rules for runs that return.

    Kernel code and its proofs.
    - Spinlock.v: spinlock.c.  Sleeplock.v: sleeplock.c.
    - Kstring.v: string.c.  Asm.v: trampoline.S, swtch.S, kernelvec.S, entry.S.
    - Kalloc.v: kalloc.c.
    - Vm.v: vm.c.  VmTree.v: page tables as trees (walk, mappages, uvmunmap).
      VmUser.v: user address spaces (uvmalloc, uvmdealloc).  VmCopy.v:
      copyin, copyout, copyinstr.  VmFork.v: uvmcopy, and freeing an address
      space (uvmfree, freewalk).  VmExample.v: an address space at which the
      theorems are instantiated.
    - Bio.v: bio.c.  BioAbs.v: the cache as its clients see it.
    - Log.v: log.c, commit and recovery.  LogOps.v: begin_op, log_write,
      end_op and the space in the log.
    - Pipe.v: pipe.c.
    - Fs.v: fs.c.  FsTx.v: blocks inside a transaction.  FsBitmap.v: balloc,
      bfree.  FsFile.v: bmap.  FsIo.v, FsWrite.v, FsInode.v: readi, writei,
      iupdate.  FsDir.v: iget, dirlookup, dirlink.  FsSpec.v: what the file
      system promises.  FsTrunc.v: itrunc.  FsPath.v: inode locks and
      references, namex.
    - Uart.v: uart.c.  Virtio.v: virtio_disk.c.  VirtioSpec.v: the requests
      that the driver and the device exchange.
    - Kst.v: the remaining global state (proc.h, file.h, console.c).
      KstExample.v: a concrete kernel state.
    - Sched.v: sleep, wakeup, sched, yield and scheduler of proc.c.
    - Printf.v: printf.c.  Console.v: console.c, uartintr, procdump.
      ConsoleSpec.v: the line discipline.
    - File.v: file.c, pipealloc.  Proc.v: the rest of proc.c, kvmmake of vm.c.
      ProcSpec.v: what wakeup and kill do to the process table.
    - Syscall.v: the argument fetching of syscall.c, and exec.c.  Sysproc.v:
      sysproc.c.  Sysfile.v: sysfile.c.
    - Trap.v: the dispatch of syscall.c, trap.c, plic.c.  Boot.v: start.c and
      main.c.
    - Keeps.v: no component changes which process runs.  FileRefs.v: the
      reference counts of open files under all system calls and interrupts.

    User programs, over an environment that answers the system calls.
    - User.v: the environment, ulib.c and printf.c.  Grep.v: grep.c.
      Filters.v: cat.c, wc.c, echo.c.  Umalloc.v: umalloc.c.
    - Sh.v: sh.c.  ShParse.v: its parser against a grammar.  ShRun.v: what
      the processes of a command do.
    - Procs.v: user programs as trees of system calls, systems of processes
      that share pipes.  Primes.v: primes.c, pingpong.c.  Commands.v: find.c,
      init.c, kill.c, ln.c, ls.c, mkdir.c, rm.c, sleep.c, xargs.c, zombie.c.
      CommandsSpec.v: what find and xargs do.  Grind.v: the random numbers of
      grind.c.  Stress.v: forktest.c, stressfs.c and grind.c.  Usertests.v:
      the tests of usertests.c that use files, processes and pipes, and the
      code that runs them.  KernelRun.v: programs whose calls the modelled
      kernel answers, after booting from an image of mkfs.

    The host program that makes the disk image.
    - Mkfs.v: mkfs.c.  MkfsSpec.v: the image it writes, as the kernel reads it.
      FsBoot.v: booting from a disk, and reading from the image of mkfs.

    Definitions have the names of the C functions; where a name is taken the
    name of the component is prefixed ([proc_wakeup], [u_printf]), and the
    loop of a function [f] is [f_loop].

    ** What the theorems show

    - Storage: commit followed by crashes at any point, recovery included,
      gives the disk before or after the transaction ([Log.crash_safety]);
      the log never overflows under the accounting of begin_op when it has
      one block more than mkfs gives it ([LogOps.Space.log_space]); with what
      mkfs gives it three full operations panic, and with more the commit
      lacks buffers ([LogOps.log_size_one_short]); readi, writei, dirlookup, dirlink and
      itrunc implement files as byte strings and directories as lists of
      entries, and leave everything else alone (FsSpec, FsTrunc, FsBitmap);
      namex follows a path and keeps the references to inodes balanced
      (FsPath);
      every request of the disk driver is answered once, with the data of its
      block, in whatever order the device works, for a device that obeys the
      flags and lengths of the descriptors (VirtioSpec).
    - Memory: the allocator conserves pages (Kalloc); mappages, uvmalloc and
      uvmdealloc change exactly the mappings they should (VmUser); the
      page-wise copies equal byte-wise accesses of user memory (VmCopy);
      uvmcopy makes an equal address space that shares no page with the old
      one, and uvmfree gives back every page (VmFork).
    - Concurrency: mutual exclusion of spin locks and sleep locks, no lost
      wakeup of sleep locks; bytes go through a pipe in order, one being lost
      only when it cannot be stored for the reader, and who sleeps on a pipe
      has reason to, except for the killed writer (Pipe.Fifo).
    - Traps and switches: the assembly routines save and restore what they
      should and change no other memory (Asm).
    - Devices and console: uart output in order, consoleintr as a line
      editor that echoes, printint read back (Uart, ConsoleSpec, Printf).
    - Processes: what wakeup and kill do to the process table (ProcSpec).
    - The kernel as a whole: every trap, from user space (each system call,
      each interrupt) or from the kernel, keeps the reference counts of the
      file table equal to the number of descriptors and of references in
      flight, also where a call sleeps ([FileRefs.open_files_counted]).  As an
      example by evaluation, the kernel booted from an image of mkfs passes
      three of the tests of usertests.c ([KernelRun.usertests_pass]).
    - User programs: the matcher of grep against a declarative meaning of
      patterns, grep and wc against their inputs however the reads cut them;
      malloc and free against a list of blocks (Umalloc); the parser of the
      shell accepts the commands of a grammar and builds their trees
      (ShParse), and running a tree connects the processes as the command
      says (ShRun).
      Every schedule of the processes of primes ends with the same output, the
      two processes of pingpong never exchange a byte (Primes); find prints
      the files of a tree and xargs runs its command per line, within the
      limits that also have their theorems (CommandsSpec); forktest passes under
      every schedule, after at most 200 steps ([Stress.forktest_spec]).
    - The image: mkfs writes a file system whose super block, free-block map,
      inodes, root directory and files the kernel reads as they were meant
      (MkfsSpec), and a kernel that boots from it reads each file by its name
      ([FsBoot.mkfs_boot_read]); what happens at its limits ([mkfs_root_hole],
      [mkfs_too_many], [mkfs_big_endian]).

    ** Fuel and bounds

    Loops that are not over a list take fuel computed from the arguments of
    the call, so that it bounds the number of rounds: the byte count where
    each round moves at least one byte (readi, writei, copyin, copyout,
    pipes), the number of entries (dirlookup, dirlink), the pages of a range
    (mappages, uvmalloc), the three levels of a page table (freewalk), the
    pieces of input left (user programs), the digits of a 64-bit number
    (printint).  The loops of the commands that the environment can keep busy
    for ever (init, ls, find, xargs, primes) take their fuel as an argument,
    and their theorems say how much is enough.  The theorems state that the functions return, so they show
    that the fuel is enough on the states they speak of.  Numbers of blocks,
    inodes and buffers are those of param.h and fs.h.

    ** Outside the model

    - The hardware: the uart, the virtio device, the PLIC, the timer and the
      MMU.  Their answers are part of the state (arbitrary lists) or, for the
      disk, a map of blocks; instruction-level semantics is given only for the
      instructions that the assembly files use.
    - What the compiler and the linker decide: the address [end] of the
      kernel is a parameter of the state, C locals are values.
    - The resumption of a process after swtch: code that sleeps ends in
      [Blocked].  Where the rest matters (pipes, sleep locks, the disk driver)
      the functions are split at the sleep and composed as steps.
    - malloc in the shell and in xargs: its result is used unchecked, and is
      taken to be a fresh block.
    - The host that runs mkfs: which files it opens and what it reads from
      them are parameters; writing the image succeeds; messages are left out.
    - The tests of usertests.c that probe addresses (copyin to copyinstr3,
      rwsbrk, the sbrk tests, kernmem, MAXVAplus, validatetest, argptest,
      stacktest, pgbug, badwrite, badarg, execout, bsstest, mem) and preempt,
      whose children loop without a call: user programs are trees of system
      calls, without memory.
    - ramdisk.c: it is not part of the kernel that is built and refers to
      names that the sources do not have (RAMDISK, B_VALID, B_DIRTY, the field
      flags of struct buf).  The scripts.
*)

From Stdlib Require Import ZArith Lia.
From stdpp Require Import base gmap list numbers strings.
Local Open Scope Z_scope.

(** ** Machine integers

    A C integer is a [Z] kept in the range of its type; the conversions below
    are what the C implementation on RV64 does when a value is stored in a
    narrower (or differently signed) object. *)

Definition u8 (x : Z) : Z := x mod 2 ^ 8.
Definition u16 (x : Z) : Z := x mod 2 ^ 16.
Definition u32 (x : Z) : Z := x mod 2 ^ 32.
Definition u64 (x : Z) : Z := x mod 2 ^ 64.

(** The signed reading of the low [n] bits. *)
Definition sgn (n : Z) (x : Z) : Z :=
  let y := x mod 2 ^ n in if y <? 2 ^ (n - 1) then y else y - 2 ^ n.
Definition s8 : Z -> Z := sgn 8.
Definition s16 : Z -> Z := sgn 16.
Definition s32 : Z -> Z := sgn 32.

Definition uint_range (n x : Z) : Prop := 0 <= x < 2 ^ n.

Create HintDb xv6.
Create Rewrite HintDb xv6len.

(** Destruct every boolean comparison and conditional of the goal, keeping
    the arithmetic fact. *)
Ltac bdestruct_one :=
  match goal with
  | |- context [?a <? ?b] => destruct (Z.ltb_spec a b)
  | |- context [?a <=? ?b] => destruct (Z.leb_spec a b)
  | |- context [?a =? ?b] => destruct (Z.eqb_spec a b)
  | |- context [?a >=? ?b] => rewrite (Z.geb_leb a b)
  | |- context [?a >? ?b] => rewrite (Z.gtb_ltb a b)
  | H : context [?a <? ?b] |- _ => destruct (Z.ltb_spec a b)
  | H : context [?a <=? ?b] |- _ => destruct (Z.leb_spec a b)
  | H : context [?a =? ?b] |- _ => destruct (Z.eqb_spec a b)
  | H : context [?a >=? ?b] |- _ => rewrite (Z.geb_leb a b) in H
  | H : context [?a >? ?b] |- _ => rewrite (Z.gtb_ltb a b) in H
  end.
(** Rewrite a comparison to its value, proved by [lia]. *)
Ltac btrue e :=
  replace e with true by (symmetry; first [apply Z.ltb_lt | apply Z.leb_le | apply Z.eqb_eq]; lia).
Ltac bfalse e :=
  replace e with false by (symmetry; first [apply Z.ltb_ge | apply Z.leb_gt | apply Z.eqb_neq]; lia).
Ltac bdestruct_all := repeat (bdestruct_one; simpl in *; try lia).

Section ints.
Implicit Types x y : Z.

Lemma u8_range x : 0 <= u8 x < 256.
Proof. unfold u8. pose proof (Z.mod_pos_bound x (2^8)). lia. Qed.

Lemma u16_range x : 0 <= u16 x < 65536.
Proof. unfold u16. pose proof (Z.mod_pos_bound x (2^16)). lia. Qed.

Lemma u32_range x : 0 <= u32 x < 2 ^ 32.
Proof. unfold u32. pose proof (Z.mod_pos_bound x (2^32)). lia. Qed.

Lemma u64_range x : 0 <= u64 x < 2 ^ 64.
Proof. unfold u64. pose proof (Z.mod_pos_bound x (2^64)). lia. Qed.

Lemma u8_small x : 0 <= x < 256 -> u8 x = x.
Proof. intros. unfold u8. apply Z.mod_small. lia. Qed.

Lemma u32_small x : 0 <= x < 2 ^ 32 -> u32 x = x.
Proof. intros. unfold u32. apply Z.mod_small. lia. Qed.

Lemma u64_small x : 0 <= x < 2 ^ 64 -> u64 x = x.
Proof. intros. unfold u64. apply Z.mod_small. lia. Qed.

Lemma sgn_small n x : 0 < n -> 0 <= x < 2 ^ (n - 1) -> sgn n x = x.
Proof.
  intros Hn Hx. unfold sgn.
  assert (2 ^ n = 2 * 2 ^ (n - 1)) as E.
  { rewrite <- Z.pow_succ_r by lia. f_equal. lia. }
  rewrite Z.mod_small by lia. bdestruct_all.
Qed.

Lemma s32_small x : 0 <= x < 2 ^ 31 -> s32 x = x.
Proof. intros. apply sgn_small; simpl; lia. Qed.

Lemma s32_id x : - 2 ^ 31 <= x < 2 ^ 31 -> s32 x = x.
Proof.
  intros H. destruct (decide (0 <= x)); [apply s32_small; lia|].
  unfold s32, sgn.
  rewrite <- (Z.mod_unique x (2^32) (-1) (x + 2^32)) by lia.
  bdestruct_all.
Qed.

Lemma s32_range x : - 2 ^ 31 <= s32 x < 2 ^ 31.
Proof.
  unfold s32, sgn. pose proof (Z.mod_pos_bound x (2^32)). bdestruct_all.
Qed.

(** Adding modulo [2^n] where the true value fits. *)
Lemma u32_add_small x y : 0 <= x + y < 2 ^ 32 -> u32 (x + y) = x + y.
Proof. apply u32_small. Qed.

Lemma u32_u32_add x y : u32 (u32 x + y) = u32 (x + y).
Proof. unfold u32. apply Z.add_mod_idemp_l. lia. Qed.

(** A position in a ring buffer whose size divides [2^32] survives the
    wrap-around of the 32-bit counter. *)
Lemma u32_mod x n : 0 < n -> (n | 2 ^ 32) -> u32 x mod n = x mod n.
Proof.
  intros Hn Hd. unfold u32. by apply Z.mod_mod_divide.
Qed.
End ints.

#[export] Hint Resolve u8_range u16_range u32_range u64_range : xv6.

(** ** Little-endian words *)

Fixpoint le_bytes (n : nat) (z : Z) : list Z :=
  match n with
  | O => []
  | S n => (z mod 256) :: le_bytes n (z / 256)
  end.

Fixpoint le_val (l : list Z) : Z :=
  match l with
  | [] => 0
  | b :: l => b + 256 * le_val l
  end.

Definition is_byte (b : Z) : Prop := 0 <= b < 256.

Lemma le_bytes_length n z : length (le_bytes n z) = n.
Proof. revert z. induction n; intros; simpl; auto. Qed.

Lemma le_bytes_byte n z : Forall is_byte (le_bytes n z).
Proof.
  revert z. induction n; intros; simpl; constructor; auto.
  apply Z.mod_pos_bound. lia.
Qed.

Lemma le_val_bytes n z : le_val (le_bytes n z) = z mod 256 ^ Z.of_nat n.
Proof.
  revert z. induction n as [|n IH]; intros z; [by rewrite Z.mod_1_r|].
  cbn [le_bytes le_val]. rewrite IH.
  rewrite Nat2Z.inj_succ, Z.pow_succ_r by lia.
  rewrite Z.rem_mul_r by (pose proof (Z.pow_pos_nonneg 256 (Z.of_nat n)); lia).
  lia.
Qed.

Lemma le_val_range l : Forall is_byte l -> 0 <= le_val l < 256 ^ Z.of_nat (length l).
Proof.
  induction 1 as [|b l Hb _ IH]; simpl length; [cbn; lia|].
  rewrite Nat2Z.inj_succ, Z.pow_succ_r by lia. cbn [le_val]. unfold is_byte in Hb. lia.
Qed.

Lemma le_bytes_val l : Forall is_byte l -> le_bytes (length l) (le_val l) = l.
Proof.
  induction 1 as [|b l Hb _ IH]; [done|]. cbn [length le_bytes le_val].
  unfold is_byte in Hb.
  rewrite (Z.mul_comm 256), Z.mod_add, Z.mod_small by lia.
  rewrite Z.div_add, Z.div_small, Z.add_0_l by lia. by rewrite IH.
Qed.

#[export] Hint Resolve le_bytes_byte : xv6.
#[export] Hint Rewrite le_bytes_length : xv6len.

Lemma elem_of_rev {A} (x : A) l : x ∈ rev l <-> x ∈ l.
Proof. rewrite !list_elem_of_In. symmetry. apply in_rev. Qed.

Lemma obind_some {A B} (x : A) (f : A -> option B) : (Some x ≫= f) = f x.
Proof. done. Qed.

(** ** Fields in a block of bytes *)

Definition slice (off n : nat) (l : list Z) : list Z := take n (drop off l).
Definition splice (off : nat) (bs l : list Z) : list Z := take off l ++ bs ++ drop (off + length bs) l.

Lemma nth_Some (l : list Z) i : (i < length l)%nat -> l !! i = Some (nth i l 0).
Proof. intros H. destruct (lookup_lt_is_Some_2 l i H) as [x Hx]. by rewrite (nth_lookup_Some _ _ _ _ Hx). Qed.

(** 16- and 32-bit little-endian fields. *)
Definition ld16 (off : nat) (l : list Z) : Z := le_val (slice off 2 l).
Definition st16 (off : nat) (v : Z) (l : list Z) : list Z := splice off (le_bytes 2 v) l.
Definition ld32 (off : nat) (l : list Z) : Z := le_val (slice off 4 l).
Definition st32 (off : nat) (v : Z) (l : list Z) : list Z := splice off (le_bytes 4 v) l.

Section fields.
Implicit Types (l bs : list Z) (off n : nat).

Lemma length_splice off bs l : (off + length bs <= length l)%nat -> length (splice off bs l) = length l.
Proof. intros H. unfold splice. rewrite !length_app, length_take, length_drop. lia. Qed.

Lemma splice_byte off bs l : Forall is_byte bs -> Forall is_byte l -> Forall is_byte (splice off bs l).
Proof. intros. unfold splice. rewrite !Forall_app. split_and!; auto using Forall_take, Forall_drop. Qed.

Lemma splice_lookup off bs l i :
  (off + length bs <= length l)%nat ->
  splice off bs l !! i = if decide (off <= i < off + length bs)%nat then bs !! (i - off)%nat else l !! i.
Proof.
  intros H. unfold splice. assert (length (take off l) = off) as Ht by (rewrite length_take; lia).
  case_decide as Hd.
  - rewrite lookup_app_r by lia. rewrite Ht. apply lookup_app_l. lia.
  - destruct (decide (i < off)%nat).
    + rewrite lookup_app_l by lia. by apply lookup_take_lt.
    + rewrite lookup_app_r by lia. rewrite Ht, lookup_app_r by lia. rewrite lookup_drop. f_equal. lia.
Qed.

Lemma slice_lookup off n l i : slice off n l !! i = if decide (i < n)%nat then l !! (off + i)%nat else None.
Proof.
  unfold slice. case_decide.
  - rewrite lookup_take_lt by done. apply lookup_drop.
  - apply lookup_take_ge. lia.
Qed.

Lemma slice_length off n l : (off + n <= length l)%nat -> length (slice off n l) = n.
Proof. intros. unfold slice. rewrite length_take, length_drop. lia. Qed.

Lemma slice_byte off n l : Forall is_byte l -> Forall is_byte (slice off n l).
Proof. intros. unfold slice. auto using Forall_take, Forall_drop. Qed.

Lemma slice_splice off bs l : (off + length bs <= length l)%nat -> slice off (length bs) (splice off bs l) = bs.
Proof.
  intros H. apply list_eq. intros i. rewrite slice_lookup, splice_lookup by done.
  repeat case_decide; try lia.
  - f_equal. lia.
  - symmetry. apply lookup_ge_None_2. lia.
Qed.

Lemma slice_splice_ne off n off' bs l :
  (off' + length bs <= length l)%nat -> (off + n <= off' \/ off' + length bs <= off)%nat ->
  slice off n (splice off' bs l) = slice off n l.
Proof.
  intros H Hd. apply list_eq. intros i. rewrite !slice_lookup, splice_lookup by done.
  repeat case_decide; try done. lia.
Qed.

Lemma splice_splice off bs bs' l :
  length bs = length bs' -> (off + length bs <= length l)%nat -> splice off bs' (splice off bs l) = splice off bs' l.
Proof.
  intros E H. apply list_eq. intros i. rewrite !splice_lookup; rewrite ?length_splice; try lia. by repeat case_decide; try lia.
Qed.

Lemma splice_comm off bs off' bs' l :
  (off + length bs <= length l)%nat -> (off' + length bs' <= length l)%nat ->
  (off + length bs <= off' \/ off' + length bs' <= off)%nat ->
  splice off bs (splice off' bs' l) = splice off' bs' (splice off bs l).
Proof.
  intros H1 H2 Hd. apply list_eq. intros i. rewrite !splice_lookup; rewrite ?length_splice; try lia.
  repeat case_decide; try done; lia.
Qed.

Lemma ld32_st32 off v l : (off + 4 <= length l)%nat -> ld32 off (st32 off v l) = u32 v.
Proof.
  intros H. unfold ld32, st32. change 4%nat with (length (le_bytes 4 v)) at 1. rewrite slice_splice by (by rewrite le_bytes_length).
  rewrite le_val_bytes. done.
Qed.

Lemma ld32_st32_ne off off' v l :
  (off' + 4 <= length l)%nat -> (off + 4 <= off' \/ off' + 4 <= off)%nat -> ld32 off (st32 off' v l) = ld32 off l.
Proof. intros H Hd. unfold ld32, st32. by rewrite slice_splice_ne by (rewrite le_bytes_length; lia). Qed.

Lemma length_st32 off v l : (off + 4 <= length l)%nat -> length (st32 off v l) = length l.
Proof. intros. apply length_splice. rewrite le_bytes_length. lia. Qed.

Lemma st32_byte off v l : Forall is_byte l -> Forall is_byte (st32 off v l).
Proof. intros. apply splice_byte; [apply le_bytes_byte|done]. Qed.

Lemma ld16_st16 off v l : (off + 2 <= length l)%nat -> ld16 off (st16 off v l) = u16 v.
Proof.
  intros H. unfold ld16, st16. change 2%nat with (length (le_bytes 2 v)) at 1. rewrite slice_splice by (by rewrite le_bytes_length).
  rewrite le_val_bytes. done.
Qed.

Lemma ld16_st16_ne off off' v l :
  (off' + 2 <= length l)%nat -> (off + 2 <= off' \/ off' + 2 <= off)%nat -> ld16 off (st16 off' v l) = ld16 off l.
Proof. intros H Hd. unfold ld16, st16. by rewrite slice_splice_ne by (rewrite le_bytes_length; lia). Qed.
End fields.
