(* ===== verification/Ring.v ===== *)
(** * Circular buffers

    Pipes, the console and the UART keep bytes in an array indexed by free
    running counters: a byte is stored at [data[w++ % size]] and taken from
    [data[r++ % size]], where the counters wrap at [W], a multiple of [size].
    [rq] is the queue such a buffer holds. *)

From Stdlib Require Import ZArith Lia.
From stdpp Require Import base list numbers.
From S2P Require Import Prelude.
Local Open Scope Z_scope.

Section ring.
Context (W size : Z) (Hsize : 0 < size) (Hlt : size < W) (Hdiv : (size | W)).
Implicit Types (data : list Z) (r w : Z).

(** The distance from counter [r] to counter [w]. *)
Definition wsub w r : Z := (w - r) mod W.

Definition rq data r w : list Z :=
  (fun k : nat => nth (Z.to_nat ((r + Z.of_nat k) mod size)) data 0) <$> seq 0 (Z.to_nat (wsub w r)).

Definition rq_ok data r w : Prop :=
  length data = Z.to_nat size /\ 0 <= r < W /\ 0 <= w < W /\ wsub w r <= size.

Definition rq_store data w x : list Z := <[Z.to_nat (w mod size) := x]> data.
Definition rq_front data r : Z := nth (Z.to_nat (r mod size)) data 0.

Lemma wsub_range w r : 0 <= wsub w r < W.
Proof. apply Z.mod_pos_bound. lia. Qed.

Lemma wsub_succ w r : wsub w r < W - 1 -> wsub ((w + 1) mod W) r = wsub w r + 1.
Proof.
  intros H. pose proof (wsub_range w r). unfold wsub in *. rewrite Zminus_mod_idemp_l.
  replace (w + 1 - r) with (w - r + 1) by lia. rewrite <- Z.add_mod_idemp_l by lia. apply Z.mod_small. lia.
Qed.

Lemma wsub_pred w r : 0 < wsub w r -> wsub ((w - 1) mod W) r = wsub w r - 1.
Proof.
  intros H. pose proof (wsub_range w r). unfold wsub in *. rewrite Zminus_mod_idemp_l.
  replace (w - 1 - r) with (w - r - 1) by lia. rewrite <- (Zminus_mod_idemp_l (w - r)). apply Z.mod_small. lia.
Qed.

Lemma wsub_succ_r w r : 0 < wsub w r -> wsub w ((r + 1) mod W) = wsub w r - 1.
Proof.
  intros H. pose proof (wsub_range w r). unfold wsub in *. rewrite Zminus_mod_idemp_r.
  replace (w - (r + 1)) with (w - r - 1) by lia. rewrite <- (Zminus_mod_idemp_l (w - r)). apply Z.mod_small. lia.
Qed.

Lemma wsub_zero w r : 0 <= w < W -> 0 <= r < W -> wsub w r = 0 <-> w = r.
Proof.
  intros Hw Hr. unfold wsub. split; [|intros ->; by rewrite Z.sub_diag].
  intros H. destruct (Z.le_gt_cases r w).
  - rewrite Z.mod_small in H by lia. lia.
  - rewrite <- (Z.mod_unique (w - r) W (-1) (w - r + W)) in H by lia. lia.
Qed.

Lemma wsub_add r k : 0 <= k < W -> wsub ((r + k) mod W) r = k.
Proof.
  intros Hk. unfold wsub. rewrite Zminus_mod_idemp_l. replace (r + k - r) with k by lia. by apply Z.mod_small.
Qed.

Lemma wsub_inj w w' r : 0 <= w < W -> 0 <= w' < W -> wsub w r = wsub w' r -> w = w'.
Proof.
  intros Hw Hw' E. apply wsub_zero; [done|done|]. unfold wsub in *.
  replace (w - w') with ((w - r) - (w' - r)) by lia. by rewrite Zminus_mod, E, Z.sub_diag.
Qed.

(** Indices are taken modulo [size], which the wrap of the counter respects. *)
Lemma wrap_index x : (x mod W) mod size = x mod size.
Proof. symmetry. by apply Znumtheory.Zmod_div_mod; [lia|lia|]. Qed.

Lemma mod_add_inj r a b : 0 <= a < size -> 0 <= b < size -> (r + a) mod size = (r + b) mod size -> a = b.
Proof.
  intros Ha Hb E. assert (H : (a - b) mod size = 0).
  { replace (a - b) with ((r + a) - (r + b)) by lia. rewrite Zminus_mod, E, Z.sub_diag. done. }
  apply Z.mod_divide in H as [k Hk]; [|lia]. assert (k = 0) by nia. lia.
Qed.

Lemma rq_length data r w : length (rq data r w) = Z.to_nat (wsub w r).
Proof. unfold rq. by rewrite length_fmap, length_seq. Qed.

Lemma rq_lookup data r w (k : nat) :
  (k < Z.to_nat (wsub w r))%nat -> rq data r w !! k = Some (nth (Z.to_nat ((r + Z.of_nat k) mod size)) data 0).
Proof. intros Hk. unfold rq. by rewrite list_lookup_fmap, lookup_seq_lt. Qed.

(** The tests for a full and for an empty buffer. *)
Lemma rq_full data r w : rq_ok data r w ->
  (w =? (r + size) mod W) = (Z.of_nat (length (rq data r w)) =? size).
Proof.
  intros (_ & Hr & Hw & Hq). rewrite rq_length. pose proof (wsub_range w r).
  apply Bool.eq_iff_eq_true. rewrite !Z.eqb_eq, Z2Nat.id by lia. split.
  - intros ->. apply wsub_add. lia.
  - intros E. apply (wsub_inj _ _ r); [done|apply Z.mod_pos_bound; lia|]. rewrite wsub_add by lia. done.
Qed.

Lemma rq_empty data r w : rq_ok data r w -> (r =? w) = (Z.of_nat (length (rq data r w)) =? 0).
Proof.
  intros (_ & Hr & Hw & Hq). rewrite rq_length. pose proof (wsub_range w r).
  apply Bool.eq_iff_eq_true. rewrite !Z.eqb_eq, Z2Nat.id by lia. rewrite wsub_zero by done. done.
Qed.

Lemma rq_le data r w : rq_ok data r w -> Z.of_nat (length (rq data r w)) <= size.
Proof. clear Hlt Hdiv. intros (_ & _ & _ & H). rewrite rq_length. lia. Qed.

Lemma index_nat x : (Z.to_nat (x mod size) < Z.to_nat size)%nat.
Proof. pose proof (Z.mod_pos_bound x size Hsize). lia. Qed.

(** Storing at [w % size] appends. *)
Lemma rq_push data r w x :
  rq_ok data r w -> Z.of_nat (length (rq data r w)) <> size ->
  rq_ok (rq_store data w x) r ((w + 1) mod W) /\ rq (rq_store data w x) r ((w + 1) mod W) = rq data r w ++ [x].
Proof.
  intros (Hd & Hr & Hw & Hq) Hfull. rewrite rq_length in Hfull. pose proof (wsub_range w r) as Hn.
  assert (Hs : wsub ((w + 1) mod W) r = wsub w r + 1) by (apply wsub_succ; lia).
  split.
  { unfold rq_ok, rq_store. rewrite Hs, length_insert. split_and!; try lia; apply Z.mod_pos_bound; lia. }
  set (n := wsub w r) in *.
  assert (Hmod : (r + n) mod size = w mod size).
  { unfold n, wsub. rewrite <- Z.add_mod_idemp_r by lia. rewrite wrap_index, Z.add_mod_idemp_r by lia. f_equal. lia. }
  apply list_eq. intros k. destruct (decide (k < Z.to_nat n + 1)%nat) as [Hk|Hk].
  2:{ rewrite !lookup_ge_None_2; [done|rewrite length_app, rq_length; simpl; fold n; lia|rewrite rq_length, Hs; lia]. }
  rewrite rq_lookup by (rewrite Hs; lia). unfold rq_store.
  destruct (decide (k = Z.to_nat n)) as [->|Hne].
  - rewrite lookup_app_r, rq_length by (rewrite rq_length; fold n; lia). fold n. rewrite Nat.sub_diag, Z2Nat.id, Hmod by lia.
    f_equal. rewrite nth_lookup, list_lookup_insert_eq; [done|]. rewrite Hd. apply index_nat.
  - rewrite lookup_app_l, rq_lookup by (rewrite ?rq_length; fold n; lia). f_equal.
    rewrite !nth_lookup, list_lookup_insert_ne; [done|]. intros E.
    assert (Hc : (r + Z.of_nat k) mod size = (r + n) mod size).
    { pose proof (Z.mod_pos_bound w size). pose proof (Z.mod_pos_bound (r + Z.of_nat k) size). lia. }
    apply mod_add_inj in Hc; lia.
Qed.

(** Advancing [r] removes the first byte. *)
Lemma rq_pop data r w x q :
  rq_ok data r w -> rq data r w = x :: q ->
  rq_ok data ((r + 1) mod W) w /\ rq_front data r = x /\ rq data ((r + 1) mod W) w = q.
Proof.
  intros (Hd & Hr & Hw & Hq) E. pose proof (wsub_range w r) as Hn.
  assert (Hl : S (length q) = Z.to_nat (wsub w r)) by (rewrite <- rq_length with (data := data), E; done).
  assert (Hs : wsub w ((r + 1) mod W) = wsub w r - 1) by (apply wsub_succ_r; lia).
  split; [|split].
  - unfold rq_ok. rewrite Hs. split_and!; try lia; apply Z.mod_pos_bound; lia.
  - pose proof (rq_lookup data r w 0 ltac:(lia)) as H0. rewrite E in H0. injection H0 as ->.
    unfold rq_front. by rewrite Z.add_0_r.
  - apply list_eq. intros k. destruct (decide (k < length q)%nat) as [Hk|Hk].
    2:{ rewrite !lookup_ge_None_2; [done|lia|]. rewrite rq_length, Hs. lia. }
    rewrite rq_lookup by (rewrite Hs; lia). transitivity (rq data r w !! S k); [|by rewrite E].
    rewrite rq_lookup by lia. do 3 f_equal. rewrite <- Z.add_mod_idemp_l by lia.
    rewrite wrap_index, Z.add_mod_idemp_l by lia. f_equal. lia.
Qed.

(** A counter in between splits the queue. *)
Lemma rq_split data r w e :
  wsub e r = wsub w r + wsub e w -> rq data r e = rq data r w ++ rq data w e.
Proof.
  intros E. pose proof (wsub_range w r). pose proof (wsub_range e w).
  apply list_eq. intros k. destruct (decide (k < Z.to_nat (wsub w r))%nat) as [Hk|Hk].
  - rewrite lookup_app_l by (rewrite rq_length; lia). by rewrite !rq_lookup by lia.
  - rewrite lookup_app_r, rq_length by (rewrite rq_length; lia).
    destruct (decide (k < Z.to_nat (wsub e r))%nat) as [Hk'|Hk'].
    + rewrite !rq_lookup by lia. do 3 f_equal. rewrite Nat2Z.inj_sub, Z2Nat.id by lia.
      unfold wsub. pose proof (Z.div_mod (w - r) W ltac:(lia)) as Hdm. destruct Hdiv as [q Hq].
      replace (w + _) with (r + Z.of_nat k + ((w - r) / W * q) * size); [by rewrite Z.mod_add by lia|].
      rewrite <- Z.mul_assoc, <- Hq. lia.
    + rewrite !lookup_ge_None_2; [done|rewrite rq_length; lia|rewrite rq_length; lia].
Qed.

(** Retreating [w] removes the last byte. *)
Lemma rq_unpush data r w : rq_ok data r w -> w <> r ->
  rq_ok data r ((w - 1) mod W) /\ rq data r ((w - 1) mod W) = take (length (rq data r w) - 1) (rq data r w).
Proof.
  intros (Hd & Hr & Hw & Hq) Hne. pose proof (wsub_range w r) as Hn.
  assert (0 < wsub w r) by (destruct (Z.eq_dec (wsub w r) 0) as [E|]; [exfalso; apply Hne; by apply wsub_zero|lia]).
  pose proof (wsub_pred w r ltac:(done)) as Hs. split.
  - unfold rq_ok. rewrite Hs. split_and!; try lia; apply Z.mod_pos_bound; lia.
  - rewrite rq_length. apply list_eq. intros k.
    destruct (decide (k < Z.to_nat (wsub w r) - 1)%nat) as [Hk|Hk].
    + rewrite lookup_take_lt, !rq_lookup by lia. done.
    + rewrite lookup_take_ge by lia. rewrite lookup_ge_None_2; [done|]. rewrite rq_length, Hs. lia.
Qed.
End ring.
