(* ===== verification/Riscv.v ===== *)
(** * The machine: kernel/riscv.h, kernel/memlayout.h, kernel/param.h, kernel/fcntl.h

    The constants and the address arithmetic of the kernel headers.  The
    macros work on [uint64] values; where C arithmetic can wrap the wrap is
    written out with [u64]. *)

From Stdlib Require Import ZArith Lia.
From stdpp Require Import base list numbers.
From S2P Require Import Prelude.
Local Open Scope Z_scope.

(** ** param.h *)
Definition NPROC : Z := 64.
Definition NCPU : Z := 8.
Definition NOFILE : Z := 16.
Definition NFILE : Z := 100.
Definition NINODE : Z := 50.
Definition NDEV : Z := 10.
Definition ROOTDEV : Z := 1.
Definition MAXARG : Z := 32.
Definition MAXOPBLOCKS : Z := 10.
Definition LOGSIZE : Z := MAXOPBLOCKS * 3.
Definition NBUF : Z := MAXOPBLOCKS * 3.
Definition FSSIZE : Z := 1000.
Definition MAXPATH : Z := 128.

(** ** riscv.h: supervisor status and page tables *)
Definition SSTATUS_SPP : Z := Z.shiftl 1 8.
Definition SSTATUS_SPIE : Z := Z.shiftl 1 5.
Definition SSTATUS_SIE : Z := Z.shiftl 1 1.

Definition PGSIZE : Z := 4096.
Definition PGSHIFT : Z := 12.

Definition PGROUNDUP (sz : Z) : Z := Z.land (u64 (sz + PGSIZE - 1)) (Z.lnot (PGSIZE - 1)).
Definition PGROUNDDOWN (a : Z) : Z := Z.land a (Z.lnot (PGSIZE - 1)).

Definition PTE_V : Z := Z.shiftl 1 0.
Definition PTE_R : Z := Z.shiftl 1 1.
Definition PTE_W : Z := Z.shiftl 1 2.
Definition PTE_X : Z := Z.shiftl 1 3.
Definition PTE_U : Z := Z.shiftl 1 4.

Definition PA2PTE (pa : Z) : Z := u64 (Z.shiftl (Z.shiftr pa 12) 10).
Definition PTE2PA (pte : Z) : Z := u64 (Z.shiftl (Z.shiftr pte 10) 12).
Definition PTE_FLAGS (pte : Z) : Z := Z.land pte 0x3FF.

Definition PXMASK : Z := 0x1FF.
Definition PXSHIFT (level : Z) : Z := PGSHIFT + 9 * level.
Definition PX (level va : Z) : Z := Z.land (Z.shiftr va (PXSHIFT level)) PXMASK.

Definition MAXVA : Z := Z.shiftl 1 (9 + 9 + 9 + 12 - 1).

Definition SATP_SV39 : Z := Z.shiftl 8 60.
Definition MAKE_SATP (pagetable : Z) : Z := Z.lor SATP_SV39 (Z.shiftr pagetable 12).

(** ** memlayout.h *)
Definition UART0 : Z := 0x10000000.
Definition UART0_IRQ : Z := 10.
Definition VIRTIO0 : Z := 0x10001000.
Definition VIRTIO0_IRQ : Z := 1.
Definition CLINT : Z := 0x2000000.
Definition CLINT_MTIMECMP (hartid : Z) : Z := CLINT + 0x4000 + 8 * hartid.
Definition CLINT_MTIME : Z := CLINT + 0xBFF8.
Definition PLIC : Z := 0x0c000000.
Definition PLIC_SENABLE (hart : Z) : Z := PLIC + 0x2080 + hart * 0x100.
Definition PLIC_SPRIORITY (hart : Z) : Z := PLIC + 0x201000 + hart * 0x2000.
Definition PLIC_SCLAIM (hart : Z) : Z := PLIC + 0x201004 + hart * 0x2000.
Definition KERNBASE : Z := 0x80000000.
Definition PHYSTOP : Z := KERNBASE + 128 * 1024 * 1024.
Definition TRAMPOLINE : Z := MAXVA - PGSIZE.
Definition KSTACK (p : Z) : Z := TRAMPOLINE - (p + 1) * 2 * PGSIZE.
Definition TRAPFRAME : Z := TRAMPOLINE - PGSIZE.

(** ** fcntl.h *)
Definition O_RDONLY : Z := 0x000.
Definition O_WRONLY : Z := 0x001.
Definition O_RDWR : Z := 0x002.
Definition O_CREATE : Z := 0x200.
Definition O_TRUNC : Z := 0x400.

#[global] Arguments PGROUNDUP : simpl never.
#[global] Arguments PGROUNDDOWN : simpl never.
#[global] Arguments PX : simpl never.
#[global] Arguments PA2PTE : simpl never.
#[global] Arguments PTE2PA : simpl never.
#[global] Arguments PTE_FLAGS : simpl never.

(** ** Arithmetic of the macros *)

Definition page_aligned (a : Z) : Prop := a mod PGSIZE = 0.

Lemma PGROUNDDOWN_mod a : PGROUNDDOWN a = a - a mod PGSIZE.
Proof.
  unfold PGROUNDDOWN, PGSIZE. change (4096 - 1) with (Z.ones 12).
  rewrite <- Z.ldiff_land, Z.ldiff_ones_r by lia.
  rewrite Z.shiftr_div_pow2, Z.shiftl_mul_pow2 by lia.
  change (2 ^ 12) with 4096. pose proof (Z.div_mod a 4096). lia.
Qed.

Lemma PGROUNDDOWN_aligned a : page_aligned (PGROUNDDOWN a).
Proof.
  unfold page_aligned. rewrite PGROUNDDOWN_mod. unfold PGSIZE.
  rewrite Zminus_mod_idemp_r, Z.sub_diag. done.
Qed.

Lemma PGROUNDDOWN_id a : page_aligned a -> PGROUNDDOWN a = a.
Proof. unfold page_aligned. rewrite PGROUNDDOWN_mod. lia. Qed.

Lemma PGROUNDDOWN_bounds a : PGROUNDDOWN a <= a < PGROUNDDOWN a + PGSIZE.
Proof.
  rewrite PGROUNDDOWN_mod. unfold PGSIZE. pose proof (Z.mod_pos_bound a 4096). lia.
Qed.

Lemma PGROUNDUP_eq sz : 0 <= sz <= 2 ^ 64 - PGSIZE -> PGROUNDUP sz = PGROUNDDOWN (sz + PGSIZE - 1).
Proof.
  unfold PGROUNDUP, PGROUNDDOWN, PGSIZE. intros. rewrite u64_small by lia. done.
Qed.

Lemma PGROUNDUP_bounds sz : 0 <= sz <= 2 ^ 64 - PGSIZE -> sz <= PGROUNDUP sz < sz + PGSIZE.
Proof.
  intros H. rewrite PGROUNDUP_eq by done.
  pose proof (PGROUNDDOWN_bounds (sz + PGSIZE - 1)). lia.
Qed.

Lemma PGROUNDUP_aligned sz : page_aligned (PGROUNDUP sz).
Proof. apply PGROUNDDOWN_aligned. Qed.

Lemma PGROUNDUP_id a : 0 <= a <= 2 ^ 64 - PGSIZE -> page_aligned a -> PGROUNDUP a = a.
Proof.
  intros H Ha. pose proof (PGROUNDUP_bounds a H). pose proof (PGROUNDUP_aligned a) as Hb.
  unfold page_aligned, PGSIZE in *. pose proof (Z.div_mod a 4096). pose proof (Z.div_mod (PGROUNDUP a) 4096).
  nia.
Qed.

Lemma PX_div level va : 0 <= level -> PX level va = (va / 2 ^ (12 + 9 * level)) mod 512.
Proof.
  intros. unfold PX, PXMASK, PXSHIFT, PGSHIFT. change 0x1FF with (Z.ones 9).
  rewrite Z.land_ones, Z.shiftr_div_pow2 by lia. done.
Qed.

Lemma PX_range level va : 0 <= level -> 0 <= PX level va < 512.
Proof. intros. rewrite PX_div by done. apply Z.mod_pos_bound. lia. Qed.

(** The three indices and the page offset reassemble a Sv39 address. *)
Lemma PX_split va :
  0 <= va < 2 ^ 39 ->
  va = PX 2 va * 2 ^ 30 + PX 1 va * 2 ^ 21 + PX 0 va * 2 ^ 12 + va mod PGSIZE.
Proof.
  intros H. rewrite !PX_div by lia. unfold PGSIZE.
  change (12 + 9 * 2) with 30. change (12 + 9 * 1) with 21. change (12 + 9 * 0) with 12.
  rewrite (Z.mod_small (va / 2 ^ 30)) by (split; [apply Z.div_pos; lia | apply Z.div_lt_upper_bound; lia]).
  replace (va / 2 ^ 30) with (va / 2 ^ 21 / 512) by (rewrite Z.div_div by lia; done).
  replace (va / 2 ^ 21) with (va / 2 ^ 12 / 512) by (rewrite Z.div_div by lia; done).
  change 4096 with (2 ^ 12).
  pose proof (Z.div_mod va (2 ^ 12)). pose proof (Z.div_mod (va / 2 ^ 12) 512).
  pose proof (Z.div_mod (va / 2 ^ 12 / 512) 512). lia.
Qed.

(** Two page-aligned addresses with equal indices at all three levels are equal. *)
Lemma PX_inj va va' :
  0 <= va < 2 ^ 39 -> 0 <= va' < 2 ^ 39 -> page_aligned va -> page_aligned va' ->
  PX 2 va = PX 2 va' -> PX 1 va = PX 1 va' -> PX 0 va = PX 0 va' -> va = va'.
Proof.
  unfold page_aligned. intros H H' Ha Ha' E2 E1 E0.
  rewrite (PX_split va H), (PX_split va' H'), E2, E1, E0, Ha, Ha'. done.
Qed.

Lemma PX_PGROUNDDOWN level va : 0 <= level -> PX level (PGROUNDDOWN va) = PX level va.
Proof.
  intros. rewrite !PX_div by done. f_equal.
  rewrite PGROUNDDOWN_mod. unfold PGSIZE. change 4096 with (2 ^ 12).
  rewrite Z.pow_add_r, <- !Z.div_div by lia. f_equal.
  pose proof (Z.div_mod va (2 ^ 12)).
  replace (va - va mod 2 ^ 12) with ((va / 2 ^ 12) * 2 ^ 12) by lia.
  apply Z.div_mul. lia.
Qed.

(** ** Page-table entries *)

Lemma PA2PTE_eq pa : 0 <= pa < 2 ^ 56 -> page_aligned pa -> PA2PTE pa = pa / 4.
Proof.
  unfold page_aligned, PGSIZE. intros H Ha. unfold PA2PTE.
  rewrite Z.shiftr_div_pow2, Z.shiftl_mul_pow2 by lia.
  pose proof (Z.div_mod pa 4096).
  assert (pa / 4 = pa / 2 ^ 12 * 2 ^ 10) as ->.
  { change (2 ^ 12) with 4096. rewrite (Z.div_mod pa 4096) at 1 by lia. rewrite Ha, Z.add_0_r.
    replace (4096 * (pa / 4096)) with (pa / 4096 * 2 ^ 10 * 4) by lia. apply Z.div_mul. lia. }
  change (2 ^ 12) with 4096. apply u64_small. nia.
Qed.

Lemma PTE2PA_flags pa fl :
  0 <= pa < 2 ^ 54 -> page_aligned pa -> 0 <= fl < 1024 -> PTE2PA (pa / 4 + fl) = pa.
Proof.
  unfold page_aligned, PGSIZE. intros H Ha Hf. unfold PTE2PA.
  rewrite Z.shiftr_div_pow2, Z.shiftl_mul_pow2 by lia.
  pose proof (Z.div_mod pa 4096).
  assert (pa / 4 = pa / 4096 * 1024) as ->.
  { rewrite (Z.div_mod pa 4096) at 1 by lia. rewrite Ha, Z.add_0_r.
    replace (4096 * (pa / 4096)) with (pa / 4096 * 1024 * 4) by lia. apply Z.div_mul. lia. }
  change (2 ^ 10) with 1024. rewrite Z.div_add_l, (Z.div_small fl), Z.add_0_r by lia.
  change (2 ^ 12) with 4096. rewrite u64_small; lia.
Qed.

Lemma lor_PA2PTE pa fl :
  0 <= pa < 2 ^ 54 -> page_aligned pa -> 0 <= fl < 1024 ->
  Z.lor (PA2PTE pa) fl = pa / 4 + fl.
Proof.
  intros H Ha Hf. rewrite PA2PTE_eq by (done || lia).
  symmetry. apply Z.add_nocarry_lor.
  unfold page_aligned, PGSIZE in Ha. pose proof (Z.div_mod pa 4096).
  assert (pa / 4 = Z.shiftl (pa / 4096) 10) as ->.
  { rewrite Z.shiftl_mul_pow2 by lia.
    rewrite (Z.div_mod pa 4096) at 1 by lia. rewrite Ha, Z.add_0_r.
    replace (4096 * (pa / 4096)) with (pa / 4096 * 2 ^ 10 * 4) by lia. apply Z.div_mul. lia. }
  rewrite <- (Z.mod_small fl (2 ^ 10)) by lia. rewrite <- Z.land_ones by lia.
  apply Z.bits_inj'. intros n Hn. rewrite !Z.land_spec, Z.bits_0.
  destruct (decide (n < 10)).
  - rewrite Z.shiftl_spec_low by lia. done.
  - rewrite Z.ones_spec_high by lia. rewrite andb_false_r, andb_false_r. done.
Qed.

(** Encoding a page address with flags, as [PA2PTE(pa) | flags], loses
    neither the address nor the flags. *)
Lemma pte_encode_decode pa fl :
  0 <= pa < 2 ^ 54 -> page_aligned pa -> 0 <= fl < 1024 ->
  PTE2PA (Z.lor (PA2PTE pa) fl) = pa /\ PTE_FLAGS (Z.lor (PA2PTE pa) fl) = fl.
Proof.
  intros H Ha Hf. rewrite lor_PA2PTE by done. split; [by apply PTE2PA_flags|].
  unfold PTE_FLAGS. change 0x3FF with (Z.ones 10). rewrite Z.land_ones by lia.
  unfold page_aligned, PGSIZE in Ha. pose proof (Z.div_mod pa 4096).
  rewrite (Z.div_mod pa 4096) by lia. rewrite Ha, Z.add_0_r.
  replace (4096 * (pa / 4096)) with (pa / 4096 * 2 ^ 10 * 4) by lia.
  rewrite Z.div_mul, Z.add_comm, Z.mod_add, Z.mod_small by lia. done.
Qed.

#[export] Hint Resolve PGROUNDDOWN_aligned PGROUNDUP_aligned PX_range : xv6.
