(* ===== verification/Core.v ===== *)
(** * The execution model of kernel code

    Kernel C code is translated to functions of a state and error monad
    [M S A].  [S] is the state of the component the function belongs to (its
    C globals); next to it every function threads the [core]: the state of
    the hart that executes it (interrupt enable bit, [struct cpu]), the spin
    locks of the kernel and the wakeups issued so far.  Code of a component
    is run inside a larger state with [lift]. *)

From Stdlib Require Import ZArith Lia.
From stdpp Require Import base gmap list numbers strings.
From S2P Require Import Prelude Riscv.
Local Open Scope Z_scope.

(** ** Names of locks and sleep channels

    C uses addresses; distinct kernel objects have distinct addresses, so the
    model names the object. *)

Inductive slkid : Type :=
| SlBuf (i : nat)
| SlInode (i : nat).

Inductive lockid : Type :=
| LkKmem
| LkPid
| LkWait
| LkProc (i : nat)
| LkFtable
| LkItable
| LkBcache
| LkLog
| LkTicks
| LkCons
| LkUartTx
| LkPr
| LkVdisk
| LkPipe (pi : Z)
| LkSleep (l : slkid).

Inductive chan : Type :=
| ChPipeRead (pi : Z)
| ChPipeWrite (pi : Z)
| ChSleeplock (l : slkid)
| ChProc (i : nat)
| ChLog
| ChTicks
| ChConsR
| ChUartTxR
| ChVdiskFree
| ChBuf (i : nat)
| ChNone.                 (* no channel: gave up the cpu in yield() or exit() *)

#[export] Instance slkid_eq_dec : EqDecision slkid.
Proof. solve_decision. Defined.
#[export] Instance lockid_eq_dec : EqDecision lockid.
Proof. solve_decision. Defined.
#[export] Instance chan_eq_dec : EqDecision chan.
Proof. solve_decision. Defined.

Definition slkid_code (l : slkid) : Z * Z :=
  match l with SlBuf i => (0, Z.of_nat i) | SlInode i => (1, Z.of_nat i) end.

Definition slkid_decode (p : Z * Z) : slkid :=
  match p with (0, i) => SlBuf (Z.to_nat i) | (_, i) => SlInode (Z.to_nat i) end.

Definition lockid_code (l : lockid) : Z * (Z * Z) :=
  match l with
  | LkKmem => (0, (0, 0)) | LkPid => (1, (0, 0)) | LkWait => (2, (0, 0))
  | LkProc i => (3, (Z.of_nat i, 0)) | LkFtable => (4, (0, 0)) | LkItable => (5, (0, 0))
  | LkBcache => (6, (0, 0)) | LkLog => (7, (0, 0)) | LkTicks => (8, (0, 0))
  | LkCons => (9, (0, 0)) | LkUartTx => (10, (0, 0)) | LkPr => (11, (0, 0))
  | LkVdisk => (12, (0, 0)) | LkPipe pi => (13, (pi, 0)) | LkSleep l => (14, slkid_code l)
  end.

Definition lockid_decode (p : Z * (Z * Z)) : lockid :=
  match p with
  | (0, _) => LkKmem | (1, _) => LkPid | (2, _) => LkWait
  | (3, (i, _)) => LkProc (Z.to_nat i) | (4, _) => LkFtable | (5, _) => LkItable
  | (6, _) => LkBcache | (7, _) => LkLog | (8, _) => LkTicks
  | (9, _) => LkCons | (10, _) => LkUartTx | (11, _) => LkPr
  | (12, _) => LkVdisk | (13, (pi, _)) => LkPipe pi
  | (_, (0, i)) => LkSleep (SlBuf (Z.to_nat i))
  | (_, (_, i)) => LkSleep (SlInode (Z.to_nat i))
  end.

#[export] Program Instance slkid_countable : Countable slkid :=
  inj_countable' slkid_code slkid_decode _.
Next Obligation. intros [i|i]; simpl; by rewrite Nat2Z.id. Qed.
#[export] Program Instance lockid_countable : Countable lockid :=
  inj_countable' lockid_code lockid_decode _.
Next Obligation. intros [| | |i| | | | | | | | | |pi|[i|i]]; simpl; by rewrite ?Nat2Z.id. Qed.

(** ** [struct spinlock], [struct cpu] and the hart *)

Record spinlock : Type := mkSpinlock {
  lk_locked : Z;          (* Is the lock held? *)
  lk_name : string;       (* Name of lock. *)
  lk_cpu : option Z       (* The cpu holding the lock; None is the null pointer. *)
}.

(** [struct sleeplock]; its spin lock [lk] is [LkSleep] of its name. *)
Record sleeplock : Type := mkSleeplock {
  sl_locked : Z;          (* Is the lock held? *)
  sl_name : string;       (* Name of lock. *)
  sl_pid : Z              (* Process holding lock *)
}.

(** The fields of [struct proc] that code outside proc.c reads through
    [myproc()]. *)
Record curproc : Type := mkCurproc {
  cp_idx : nat;           (* position in proc[] *)
  cp_pid : Z;
  cp_killed : Z;
  cp_pagetable : Z;
  cp_sz : Z;
  cp_cwd : nat            (* entry of the inode table *)
}.

Record core : Type := mkCore {
  c_tp : Z;                          (* the hart id, kept in tp *)
  c_sstatus : Z;                     (* the sstatus register *)
  c_noff : Z;                        (* cpu->noff, depth of push_off() nesting *)
  c_intena : Z;                      (* cpu->intena *)
  c_proc : option curproc;           (* cpu->proc *)
  c_locks : gmap lockid spinlock;    (* every spin lock that was initialised *)
  c_woken : list chan;               (* wakeups issued, oldest first *)
  c_slocks : gmap slkid sleeplock    (* every sleep lock that was initialised *)
}.

Definition set_sstatus (x : Z) (c : core) : core :=
  mkCore (c_tp c) x (c_noff c) (c_intena c) (c_proc c) (c_locks c) (c_woken c) (c_slocks c).
Definition set_noff (x : Z) (c : core) : core :=
  mkCore (c_tp c) (c_sstatus c) x (c_intena c) (c_proc c) (c_locks c) (c_woken c) (c_slocks c).
Definition set_intena (x : Z) (c : core) : core :=
  mkCore (c_tp c) (c_sstatus c) (c_noff c) x (c_proc c) (c_locks c) (c_woken c) (c_slocks c).
Definition set_lock (lk : lockid) (l : spinlock) (c : core) : core :=
  mkCore (c_tp c) (c_sstatus c) (c_noff c) (c_intena c) (c_proc c) (<[lk := l]> (c_locks c)) (c_woken c) (c_slocks c).
Definition add_woken (ch : chan) (c : core) : core :=
  mkCore (c_tp c) (c_sstatus c) (c_noff c) (c_intena c) (c_proc c) (c_locks c) (c_woken c ++ [ch]) (c_slocks c).

Definition set_slock (lk : slkid) (l : sleeplock) (c : core) : core :=
  mkCore (c_tp c) (c_sstatus c) (c_noff c) (c_intena c) (c_proc c) (c_locks c) (c_woken c)
    (<[lk := l]> (c_slocks c)).
Definition set_proc (p : option curproc) (c : core) : core :=
  mkCore (c_tp c) (c_sstatus c) (c_noff c) (c_intena c) p (c_locks c) (c_woken c) (c_slocks c).

(** A lock that was never initialised is the zero of its memory. *)
Definition get_lock (lk : lockid) (c : core) : spinlock :=
  default (mkSpinlock 0 "" None) (c_locks c !! lk).

Definition get_slock (lk : slkid) (c : core) : sleeplock :=
  default (mkSleeplock 0 "" 0) (c_slocks c !! lk).

(** ** Outcomes and the monad *)

Inductive res (S A : Type) : Type :=
| Ok (a : A) (c : core) (s : S)
| Panic (msg : string)                       (* panic(msg): the kernel halts *)
| Fault (what : string)                      (* null dereference, index out of bounds *)
| Spin (lk : lockid)                         (* spins on a lock another hart holds *)
| Blocked (ch : chan) (c : core) (s : S)     (* gave up the cpu in sleep(ch, _) *)
| NoFuel.                                    (* the loop bound of the model was too small *)
Arguments Ok {S A} a c s.
Arguments Panic {S A} msg.
Arguments Fault {S A} what.
Arguments Spin {S A} lk.
Arguments Blocked {S A} ch c s.
Arguments NoFuel {S A}.

Definition M (S A : Type) : Type := core -> S -> res S A.

#[export] Instance M_ret S : MRet (M S) := fun A a c s => Ok a c s.
#[export] Instance M_bind S : MBind (M S) := fun A B f m c s =>
  match m c s with
  | Ok a c' s' => f a c' s'
  | Panic msg => Panic msg
  | Fault w => Fault w
  | Spin lk => Spin lk
  | Blocked ch c' s' => Blocked ch c' s'
  | NoFuel => NoFuel
  end.

Definition get {S} : M S S := fun c s => Ok s c s.
Definition put {S} (s : S) : M S unit := fun c _ => Ok tt c s.
Definition gets {S A} (f : S -> A) : M S A := fun c s => Ok (f s) c s.
Definition modify {S} (f : S -> S) : M S unit := fun c s => Ok tt c (f s).
Definition getc {S} : M S core := fun c s => Ok c c s.
Definition modifyc {S} (f : core -> core) : M S unit := fun c s => Ok tt (f c) s.
Definition panic {S A} (msg : string) : M S A := fun _ _ => Panic msg.
Definition fault {S A} (msg : string) : M S A := fun _ _ => Fault msg.
Definition nofuel {S A} : M S A := fun _ _ => NoFuel.
Definition blocked {S A} (ch : chan) : M S A := fun c s => Blocked ch c s.
Definition when {S} (b : bool) (m : M S unit) : M S unit := if b then m else mret tt.

(** [for(i = ...; i < ...; i++) body(i)] over an explicit list of indices. *)
Fixpoint forM {S X} (l : list X) (f : X -> M S unit) : M S unit :=
  match l with
  | [] => mret tt
  | x :: l => _ ← f x; forM l f
  end.

(** A component's state as a part of a larger one. *)
Record lens (S T : Type) : Type := mkLens {
  lens_get : T -> S;
  lens_set : S -> T -> T;
  lens_get_set : forall s t, lens_get (lens_set s t) = s;
  lens_set_get : forall t, lens_set (lens_get t) t = t;
  lens_set_set : forall s s' t, lens_set s (lens_set s' t) = lens_set s t
}.
Arguments mkLens {S T}.
Arguments lens_get {S T}.
Arguments lens_set {S T}.

Definition lift {S T A} (l : lens S T) (m : M S A) : M T A := fun c t =>
  match m c (lens_get l t) with
  | Ok a c' s' => Ok a c' (lens_set l s' t)
  | Panic msg => Panic msg
  | Fault w => Fault w
  | Spin lk => Spin lk
  | Blocked ch c' s' => Blocked ch c' (lens_set l s' t)
  | NoFuel => NoFuel
  end.

(** ** Equations of the monad *)

Section monad.
Context {S : Type}.
Implicit Types (c : core) (s : S).

Lemma bind_ok {A B} (m : M S A) (f : A -> M S B) c s a c' s' :
  m c s = Ok a c' s' -> (m ≫= f) c s = f a c' s'.
Proof. unfold mbind, M_bind. by intros ->. Qed.

Lemma bind_inv {A B} (m : M S A) (f : A -> M S B) c s b c' s' :
  (m ≫= f) c s = Ok b c' s' ->
  exists a c1 s1, m c s = Ok a c1 s1 /\ f a c1 s1 = Ok b c' s'.
Proof. unfold mbind, M_bind. destruct (m c s); try done. eauto. Qed.

Lemma bind_assoc {A B D} (m : M S A) (f : A -> M S B) (g : B -> M S D) c s :
  ((m ≫= f) ≫= g) c s = (m ≫= (fun a => f a ≫= g)) c s.
Proof. unfold mbind, M_bind. by destruct (m c s). Qed.

Lemma bind_get {B} (f : S -> M S B) c s : (get ≫= f) c s = f s c s.
Proof. done. Qed.

Lemma bind_gets {A B} (g : S -> A) (f : A -> M S B) c s : (gets g ≫= f) c s = f (g s) c s.
Proof. done. Qed.

Lemma bind_modify {B} (g : S -> S) (f : unit -> M S B) c s : (modify g ≫= f) c s = f tt c (g s).
Proof. done. Qed.

Lemma bind_put {B} s' (f : unit -> M S B) c s : (put s' ≫= f) c s = f tt c s'.
Proof. done. Qed.

Lemma bind_getc {B} (f : core -> M S B) c s : (getc ≫= f) c s = f c c s.
Proof. done. Qed.

Lemma bind_modifyc {B} (g : core -> core) (f : unit -> M S B) c s : (modifyc g ≫= f) c s = f tt (g c) s.
Proof. done. Qed.

Lemma bind_ret {A B} (a : A) (f : A -> M S B) c s : (mret a ≫= f) c s = f a c s.
Proof. done. Qed.

Lemma forM_app {X} (l1 l2 : list X) (f : X -> M S unit) c s :
  forM (l1 ++ l2) f c s = (forM l1 f ≫= fun _ => forM l2 f) c s.
Proof.
  revert c s. induction l1 as [|x l IH]; intros c s; [done|].
  cbn [app forM]. unfold mbind, M_bind in *. by destruct (f x c s).
Qed.

(** A loop with an invariant, indexed by the number of iterations done. *)
Lemma forM_seqZ (P : Z -> core -> S -> Prop) (body : Z -> M S unit) n c s :
  0 <= n -> P 0 c s ->
  (forall i c s, 0 <= i < n -> P i c s -> exists c' s', body i c s = Ok tt c' s' /\ P (i + 1) c' s') ->
  exists c' s', forM (seqZ 0 n) body c s = Ok tt c' s' /\ P n c' s'.
Proof.
  intros Hn H0 Hstep. destruct (Z_of_nat_complete n Hn) as [k ->]. clear Hn.
  induction k as [|k IH]; [by exists c, s|].
  destruct IH as (c1 & s1 & Hr & H1); [intros; apply Hstep; [lia|done]|].
  destruct (Hstep (Z.of_nat k) c1 s1) as (c2 & s2 & Hb & H2); [lia|done|].
  exists c2, s2. replace (Z.of_nat (Datatypes.S k)) with (Z.of_nat k + 1) in * by lia.
  rewrite seqZ_app by lia. split; [|done]. rewrite forM_app. erewrite bind_ok by exact Hr.
  rewrite seqZ_cons by lia. cbn [Z.pred Z.pos_sub Z.add seqZ fmap list_fmap seq Z.to_nat forM].
  rewrite Z.add_0_l. by erewrite bind_ok by exact Hb.
Qed.
End monad.

Lemma lift_ok {S T A} (l : lens S T) (m : M S A) c t a c' s' :
  m c (lens_get l t) = Ok a c' s' -> lift l m c t = Ok a c' (lens_set l s' t).
Proof. unfold lift. by intros ->. Qed.

(** Run the head of a monadic goal with an equation for it. *)
Ltac mstep H := erewrite bind_ok by (first [apply H | eapply H; eauto]).

(** Unfold the monad's primitives without reducing anything else. *)
Ltac mred :=
  unfold mbind, M_bind, getc, modifyc, get, put, gets, modify, mret, M_ret, panic, blocked;
  cbv beta iota.
