(* ===== verification/Spinlock.v ===== *)
(** * Spin locks: kernel/spinlock.c, and the interrupt helpers of riscv.h

    [acquire], [release], [holding], [push_off] and [pop_off] as functions of
    the [core].  The lemmas give the lock discipline every other component
    relies on: taking and releasing a free lock is possible, restores the
    hart exactly, and in between interrupts are off.  [Module SMP] breaks the
    same code into its atomic steps and runs it on any number of harts. *)

From Stdlib Require Import ZArith Lia.
From stdpp Require Import base gmap list numbers strings relations.
From S2P Require Import Prelude Riscv Core.
Local Open Scope Z_scope.

(** ** Interrupt enable bit (riscv.h) *)

Definition intr_on (c : core) : core := set_sstatus (Z.lor (c_sstatus c) SSTATUS_SIE) c.
Definition intr_off (c : core) : core := set_sstatus (Z.land (c_sstatus c) (Z.lnot SSTATUS_SIE)) c.
Definition intr_get (c : core) : bool := negb (Z.land (c_sstatus c) SSTATUS_SIE =? 0).

Definition cpuid (c : core) : Z := c_tp c.
(** [&cpus[cpuid()]], named by its index. *)
Definition mycpu (c : core) : option Z := Some (cpuid c).

(** ** The operations *)

Section ops.
Context {S : Type}.

Definition push_off_core (c : core) : core :=
  let old := intr_get c in
  let c := intr_off c in
  let c := if c_noff c =? 0 then set_intena (Z.b2z old) c else c in
  set_noff (c_noff c + 1) c.

Definition push_off : M S unit := modifyc push_off_core.

Definition pop_off : M S unit :=
  c ← getc;
  if intr_get c then panic "pop_off - interruptible" else
  if c_noff c <? 1 then panic "pop_off" else
  _ ← modifyc (set_noff (c_noff c - 1));
  c ← getc;
  if (c_noff c =? 0) && negb (c_intena c =? 0) then modifyc intr_on else mret tt.

Definition holding (lk : lockid) (c : core) : bool :=
  negb (lk_locked (get_lock lk c) =? 0) && bool_decide (lk_cpu (get_lock lk c) = mycpu c).

Definition initlock (lk : lockid) (name : string) : M S unit :=
  modifyc (set_lock lk (mkSpinlock 0 name None)).

Definition acquire (lk : lockid) : M S unit :=
  _ ← push_off;
  c ← getc;
  if holding lk c then panic "acquire" else
  let l := get_lock lk c in
  if negb (lk_locked l =? 0) then (fun _ _ => Spin lk) else
  modifyc (set_lock lk (mkSpinlock 1 (lk_name l) (mycpu c))).

Definition release (lk : lockid) : M S unit :=
  c ← getc;
  if negb (holding lk c) then panic "release" else
  let l := get_lock lk c in
  _ ← modifyc (set_lock lk (mkSpinlock (lk_locked l) (lk_name l) None));
  _ ← modifyc (set_lock lk (mkSpinlock 0 (lk_name l) None));
  pop_off.

(** [myproc()]: the process running on this cpu. *)
Definition myproc : M S (option curproc) :=
  _ ← push_off;
  c ← getc;
  let p := c_proc c in
  _ ← pop_off;
  mret p.

(** [sleep(chan, lk)] and [wakeup(chan)] as their callers see them; the
    process table's side of both is in the process component.  A sleeping
    thread has released [lk]. *)
Definition sleep {A} (ch : chan) (lk : lockid) : M S A :=
  _ ← release lk; blocked ch.
Definition wakeup (ch : chan) : M S unit := modifyc (add_woken ch).
End ops.

(** ** The state of a hart between lock operations *)

(** Interrupts are off while push_offs are outstanding, and [intena] is only
    meaningful then; with none outstanding its value is dead and the model
    fixes it to the current enable bit (see [acquire_settle]). *)
Definition core_wf (c : core) : Prop :=
  0 <= c_noff c /\
  (0 < c_noff c -> intr_get c = false) /\
  (c_noff c = 0 -> c_intena c = Z.b2z (intr_get c)).

Definition settle (c : core) : core :=
  if c_noff c =? 0 then set_intena (Z.b2z (intr_get c)) c else c.

Definition lock_free (lk : lockid) (c : core) : Prop :=
  exists name, c_locks c !! lk = Some (mkSpinlock 0 name None).

(** The core after [acquire lk] from [c]. *)
Definition hold (lk : lockid) (c : core) : core :=
  set_lock lk (mkSpinlock 1 (lk_name (get_lock lk c)) (mycpu c)) (push_off_core c).

#[global] Arguments push_off_core : simpl never.
#[global] Arguments intr_get : simpl never.
#[global] Arguments intr_on : simpl never.
#[global] Arguments intr_off : simpl never.
#[global] Arguments hold : simpl never.
#[global] Arguments get_lock : simpl never.

Section lemmas.
Implicit Types c : core.

Lemma intr_get_off c : intr_get (intr_off c) = false.
Proof.
  unfold intr_get, intr_off. simpl. rewrite <- Z.land_assoc.
  rewrite (Z.land_comm (Z.lnot _)), Z.land_lnot_diag, Z.land_0_r. done.
Qed.

Lemma intr_off_id c : intr_get c = false -> intr_off c = c.
Proof.
  unfold intr_get, intr_off. intros H. apply negb_false_iff, Z.eqb_eq in H.
  destruct c as [tp x]. simpl in *. unfold set_sstatus. simpl. f_equal.
  rewrite <- (Z.lor_0_r (Z.land x _)), <- H, <- Z.land_lor_distr_r.
  rewrite Z.lor_comm, Z.lor_lnot_diag, Z.land_m1_r. done.
Qed.

Lemma SIE_single x : Z.land x SSTATUS_SIE = 0 \/ Z.land x SSTATUS_SIE = SSTATUS_SIE.
Proof.
  destruct (Z.testbit x 1) eqn:E; [right|left]; apply Z.bits_inj'; intros n Hn;
    rewrite Z.land_spec; unfold SSTATUS_SIE; rewrite Z.shiftl_1_l, ?Z.bits_0, Z.pow2_bits_eqb by lia;
    destruct (Z.eqb_spec 1 n); subst; rewrite ?E, ?andb_true_r, ?andb_false_r; done.
Qed.

Lemma intr_on_off c : intr_get c = true -> intr_on (intr_off c) = c.
Proof.
  unfold intr_get, intr_off, intr_on. intros H. apply negb_true_iff, Z.eqb_neq in H.
  destruct c as [tp x]. simpl in *. unfold set_sstatus. simpl. f_equal.
  destruct (SIE_single x) as [E|E]; [done|].
  rewrite Z.lor_land_distr_l, (Z.lor_comm (Z.lnot _)), Z.lor_lnot_diag, Z.land_m1_r.
  rewrite <- E. rewrite Z.lor_comm, Z.land_comm. apply Z.bits_inj'. intros n Hn.
  rewrite Z.lor_spec, Z.land_spec. by destruct (Z.testbit x n), (Z.testbit SSTATUS_SIE n).
Qed.

Lemma intr_get_set_lock lk l c : intr_get (set_lock lk l c) = intr_get c.
Proof. done. Qed.

Lemma intr_get_push c : intr_get (push_off_core c) = false.
Proof. unfold push_off_core. case_match; apply intr_get_off. Qed.

Lemma push_noff c : c_noff (push_off_core c) = c_noff c + 1.
Proof. unfold push_off_core. by case_match. Qed.

Lemma push_locks c : c_locks (push_off_core c) = c_locks c.
Proof. unfold push_off_core. by case_match. Qed.

Lemma push_tp c : c_tp (push_off_core c) = c_tp c.
Proof. unfold push_off_core. by case_match. Qed.

Lemma push_proc c : c_proc (push_off_core c) = c_proc c.
Proof. unfold push_off_core. by case_match. Qed.

Lemma push_woken c : c_woken (push_off_core c) = c_woken c.
Proof. unfold push_off_core. by case_match. Qed.

(** What [push_off] does to [intena] is undone by the matching [pop_off]. *)
Lemma pop_push {S} c (s : S) : core_wf c -> pop_off (push_off_core c) s = Ok tt c s.
Proof.
  intros (H0 & Hoff & Hena). unfold pop_off. mred.
  rewrite intr_get_push, push_noff. bfalse (c_noff c + 1 <? 1).
  replace (c_noff c + 1 - 1) with (c_noff c) by lia.
  destruct (Z.eqb_spec (c_noff c) 0) as [E|E].
  - unfold push_off_core. simpl. rewrite E. simpl.
    destruct (intr_get c) eqn:Ei; simpl; f_equal.
    + trans (intr_on (intr_off c)); [|by apply intr_on_off]. destruct c; simpl in *.
      unfold intr_on, intr_off, set_sstatus, set_noff. simpl. by rewrite E, (Hena E).
    + trans (intr_off c); [|by apply intr_off_id]. destruct c; simpl in *.
      unfold intr_off, set_sstatus, set_noff. simpl. by rewrite E, (Hena E).
  - simpl. bfalse (c_noff c =? 0). simpl. f_equal.
    trans (intr_off c); [|apply intr_off_id, Hoff; lia].
    unfold push_off_core. simpl. bfalse (c_noff c =? 0).
    by destruct c.
Qed.

Lemma push_wf c : core_wf c -> core_wf (push_off_core c).
Proof.
  intros (H0 & _ & _). split_and!; rewrite push_noff; intros; try lia. apply intr_get_push.
Qed.

Lemma settle_wf c : 0 <= c_noff c -> (0 < c_noff c -> intr_get c = false) -> core_wf (settle c).
Proof.
  intros H1 H2. unfold settle. destruct (Z.eqb_spec (c_noff c) 0) as [E|E];
    split_and!; simpl; auto; intros; lia.
Qed.

Lemma get_lock_push lk c : get_lock lk (push_off_core c) = get_lock lk c.
Proof. unfold get_lock. by rewrite push_locks. Qed.

(** [intena] of a hart with no push_off outstanding does not influence [acquire]. *)
Lemma acquire_settle {S} lk c (s : S) : acquire lk (settle c) s = acquire lk c s.
Proof.
  unfold acquire, push_off, modifyc, mbind, M_bind.
  replace (push_off_core (settle c)) with (push_off_core c); [done|].
  unfold settle. destruct (Z.eqb_spec (c_noff c) 0) as [E|E]; [|done].
  unfold push_off_core. simpl. rewrite E. done.
Qed.

Lemma lock_free_get lk c : lock_free lk c -> lk_locked (get_lock lk c) = 0.
Proof. intros [nm H]. unfold get_lock. by rewrite H. Qed.

Lemma holding_free lk c : lock_free lk c -> holding lk c = false.
Proof. intros H. unfold holding. by rewrite lock_free_get. Qed.

Lemma acquire_free {S} lk c (s : S) : lock_free lk c -> acquire lk c s = Ok tt (hold lk c) s.
Proof.
  intros H. unfold acquire, push_off, modifyc, getc, mbind, M_bind. unfold holding.
  rewrite get_lock_push, (lock_free_get lk c H). simpl. unfold mycpu, cpuid, hold. by rewrite push_tp.
Qed.

Lemma get_lock_hold lk c :
  get_lock lk (hold lk c) = mkSpinlock 1 (lk_name (get_lock lk c)) (mycpu c).
Proof. unfold get_lock, hold. cbn [c_locks set_lock]. by rewrite lookup_insert_eq. Qed.

Lemma holding_hold lk c : holding lk (hold lk c) = true.
Proof.
  unfold holding. rewrite get_lock_hold. simpl. apply bool_decide_eq_true.
  unfold mycpu, cpuid, hold. cbn [c_tp set_lock]. by rewrite push_tp.
Qed.

Lemma release_hold {S} lk c (s : S) :
  core_wf c -> lock_free lk c -> release lk (hold lk c) s = Ok tt c s.
Proof.
  intros Hwf [nm Hf]. unfold release. mred. rewrite holding_hold. cbn [negb].
  rewrite get_lock_hold. cbn [lk_name lk_locked].
  match goal with |- pop_off ?c' _ = _ => replace c' with (push_off_core c) end.
  { by apply pop_push. }
  unfold hold, set_lock. cbn [c_tp c_sstatus c_noff c_intena c_proc c_locks c_woken].
  rewrite !insert_insert_eq.
  unfold get_lock. rewrite Hf. cbn [default lk_name]. rewrite insert_id by (by rewrite push_locks).
  by destruct (push_off_core c).
Qed.

Lemma hold_wf lk c : core_wf c -> core_wf (hold lk c).
Proof. intros H. apply push_wf in H. done. Qed.

Lemma lock_free_hold lk lk' c : lk <> lk' -> lock_free lk' (hold lk c) <-> lock_free lk' c.
Proof.
  intros H. unfold lock_free, hold. cbn [c_locks set_lock]. rewrite lookup_insert_ne, push_locks by done. done.
Qed.

Lemma push_add_woken ch c : push_off_core (add_woken ch c) = add_woken ch (push_off_core c).
Proof. unfold push_off_core. simpl. by case_match. Qed.

Lemma add_woken_hold ch lk c : add_woken ch (hold lk c) = hold lk (add_woken ch c).
Proof. unfold hold. by rewrite push_add_woken. Qed.

Lemma add_woken_wf ch c : core_wf (add_woken ch c) <-> core_wf c.
Proof. done. Qed.

Lemma lock_free_woken lk ch c : lock_free lk (add_woken ch c) <-> lock_free lk c.
Proof. done. Qed.

Lemma hold_proc lk c : c_proc (hold lk c) = c_proc c.
Proof. unfold hold. cbn [c_proc set_lock]. apply push_proc. Qed.

Lemma hold_woken lk c : c_woken (hold lk c) = c_woken c.
Proof. unfold hold. cbn [c_woken set_lock]. apply push_woken. Qed.

Lemma hold_set_slock lk k l c : set_slock k l (hold lk c) = hold lk (set_slock k l c).
Proof. unfold hold, push_off_core. simpl. by case_match. Qed.

Lemma hold_set_proc lk v c : set_proc v (hold lk c) = hold lk (set_proc v c).
Proof. unfold hold, push_off_core. simpl. by case_match. Qed.

Lemma hold_slock lk k c : get_slock k (hold lk c) = get_slock k c.
Proof. unfold hold, push_off_core, get_slock. by case_match. Qed.

Lemma set_slock_wf k l c : core_wf (set_slock k l c) <-> core_wf c.
Proof. done. Qed.

Lemma lock_free_slock lk k l c : lock_free lk (set_slock k l c) <-> lock_free lk c.
Proof. done. Qed.

Lemma myproc_ok {S} c (s : S) : core_wf c -> myproc c s = Ok (c_proc c) c s.
Proof.
  intros H. unfold myproc, push_off, modifyc, getc. unfold mbind, M_bind.
  rewrite pop_push by done. by rewrite push_proc.
Qed.

Lemma sleep_hold {S A} ch lk c (s : S) :
  core_wf c -> lock_free lk c -> sleep (A:=A) ch lk (hold lk c) s = Blocked ch c s.
Proof. intros H Hf. unfold sleep. erewrite bind_ok by (by apply release_hold). done. Qed.

(** Acquiring a lock that this hart already holds panics. *)
Lemma acquire_held_panics {S} lk c (s : S) : acquire lk (hold lk c) s = Panic "acquire".
Proof.
  unfold acquire, push_off, modifyc, getc, mbind, M_bind.
  assert (holding lk (push_off_core (hold lk c)) = holding lk (hold lk c)) as ->.
  { unfold holding, mycpu, cpuid. by rewrite get_lock_push, push_tp. }
  by rewrite holding_hold.
Qed.

Lemma release_free_panics {S} lk c (s : S) : lock_free lk c -> release lk c s = Panic "release".
Proof. intros H. unfold release, getc, mbind, M_bind. by rewrite holding_free. Qed.

(** Locks are taken and released in any order. *)
Lemma push_set_lock lk l c : push_off_core (set_lock lk l c) = set_lock lk l (push_off_core c).
Proof. unfold push_off_core. simpl. by case_match. Qed.

Lemma hold_comm lk lk' c : lk <> lk' -> hold lk (hold lk' c) = hold lk' (hold lk c).
Proof.
  intros H. unfold hold. rewrite !push_set_lock.
  unfold get_lock, mycpu, cpuid, set_lock. cbn [c_tp c_sstatus c_noff c_intena c_proc c_locks c_woken].
  rewrite !push_locks, !push_tp, !lookup_insert_ne by done. f_equal.
  by apply insert_insert_ne.
Qed.
End lemmas.

(** From here on the hart's side of the lock code is used through the lemmas. *)
#[global] Opaque push_off_core hold.

#[export] Hint Resolve hold_wf myproc_ok : xv6.

(** Side conditions of the lock lemmas. *)
Ltac locks :=
  repeat first
    [ done
    | apply hold_wf
    | apply add_woken_wf
    | apply lock_free_woken
    | apply set_slock_wf
    | apply lock_free_slock
    | apply lock_free_hold; [done|] ].

(** ** Many harts: the atomic steps of [acquire] and [release] *)

Module SMP.

(** Where a hart is inside [acquire(lk)] .. [release(lk)]. *)
Inductive pc : Type :=
| Idle        (* outside *)
| AcqHold     (* acquire: after push_off, before the holding() test *)
| AcqTas      (* acquire: at the test-and-set *)
| AcqCpu      (* acquire: got the lock, lk->cpu not yet written *)
| Crit        (* acquire returned *)
| RelCpu      (* release: after the holding() test *)
| RelLock     (* release: lk->cpu cleared *)
| RelPop      (* release: lk->locked cleared, before pop_off *)
| Dead.       (* panicked *)

Record hart : Type := mkHart { h_pc : pc; h_core : core }.
Record state : Type := mkState { sm_lock : spinlock; sm_harts : gmap Z hart }.

Definition set_locked (v : Z) (l : spinlock) : spinlock := mkSpinlock v (lk_name l) (lk_cpu l).
Definition set_cpu (v : option Z) (l : spinlock) : spinlock := mkSpinlock (lk_locked l) (lk_name l) v.

(** [holding(lk)] as hart [c] evaluates it when the shared lock is [l]. *)
Definition holds (l : spinlock) (c : core) : bool := holding LkKmem (set_lock LkKmem l c).

Inductive hstep (h : Z) : spinlock -> hart -> spinlock -> hart -> Prop :=
| st_intr l c x :
    c_noff c = 0 -> hstep h l (mkHart Idle c) l (mkHart Idle (settle (set_sstatus x c)))
| st_push l c : hstep h l (mkHart Idle c) l (mkHart AcqHold (push_off_core c))
| st_hold_panic l c : holds l c = true -> hstep h l (mkHart AcqHold c) l (mkHart Dead c)
| st_hold l c : holds l c = false -> hstep h l (mkHart AcqHold c) l (mkHart AcqTas c)
| st_tas_fail l c : lk_locked l <> 0 -> hstep h l (mkHart AcqTas c) (set_locked 1 l) (mkHart AcqTas c)
| st_tas l c : lk_locked l = 0 -> hstep h l (mkHart AcqTas c) (set_locked 1 l) (mkHart AcqCpu c)
| st_setcpu l c : hstep h l (mkHart AcqCpu c) (set_cpu (mycpu c) l) (mkHart Crit c)
| st_rel_panic l c : holds l c = false -> hstep h l (mkHart Crit c) l (mkHart Dead c)
| st_rel l c : holds l c = true -> hstep h l (mkHart Crit c) l (mkHart RelCpu c)
| st_clrcpu l c : hstep h l (mkHart RelCpu c) (set_cpu None l) (mkHart RelLock c)
| st_unlock l c : hstep h l (mkHart RelLock c) (set_locked 0 l) (mkHart RelPop c)
| st_pop l c c' : pop_off c tt = Ok tt c' tt -> hstep h l (mkHart RelPop c) l (mkHart Idle c')
| st_pop_panic l c m : pop_off c tt = Panic m -> hstep h l (mkHart RelPop c) l (mkHart Dead c).

Inductive step : state -> state -> Prop :=
| step_hart h l l' hs x x' :
    hs !! h = Some x -> hstep h l x l' x' ->
    step (mkState l hs) (mkState l' (<[h := x']> hs)).

(** Initially the lock is free and every hart is outside, with its id in tp. *)
Definition initial (st : state) : Prop :=
  lk_locked (sm_lock st) = 0 /\ lk_cpu (sm_lock st) = None /\
  forall h x, sm_harts st !! h = Some x -> h_pc x = Idle /\ core_wf (h_core x) /\ c_tp (h_core x) = h.

(** The pcs between the successful test-and-set and the unlocking store. *)
Definition owner (p : pc) : bool :=
  match p with AcqCpu | Crit | RelCpu | RelLock => true | _ => false end.
(** The pcs at which [lk->cpu] names this hart. *)
Definition named (p : pc) : bool := match p with Crit | RelCpu => true | _ => false end.

Definition hart_ok (h : Z) (x : hart) : Prop :=
  c_tp (h_core x) = h /\ h_pc x <> Dead /\
  (h_pc x = Idle -> core_wf (h_core x)) /\
  (h_pc x <> Idle -> exists c0, core_wf c0 /\ h_core x = push_off_core c0).

Definition inv (st : state) : Prop :=
  (forall h x, sm_harts st !! h = Some x -> hart_ok h x) /\
  (forall h x, sm_harts st !! h = Some x -> owner (h_pc x) = true -> lk_locked (sm_lock st) = 1) /\
  (forall h h' x x', sm_harts st !! h = Some x -> sm_harts st !! h' = Some x' ->
     owner (h_pc x) = true -> owner (h_pc x') = true -> h = h') /\
  (forall h x, sm_harts st !! h = Some x ->
     named (h_pc x) = true <-> lk_cpu (sm_lock st) = Some h).

Lemma holds_spec l c : holds l c = negb (lk_locked l =? 0) && bool_decide (lk_cpu l = Some (c_tp c)).
Proof. unfold holds, holding, get_lock. simpl. by rewrite lookup_insert_eq. Qed.

Lemma settle_tp x c : c_tp (settle (set_sstatus x c)) = c_tp c.
Proof. unfold settle. by case_match. Qed.

Lemma pop_off_tp c c' : pop_off c tt = Ok tt c' tt -> c_tp c' = c_tp c.
Proof. unfold pop_off. mred. repeat case_match; intros; simplify_eq; done. Qed.

Lemma pop_off_push_inv c0 c' : core_wf c0 -> pop_off (push_off_core c0) tt = Ok tt c' tt -> c' = c0.
Proof. intros H. rewrite pop_push by done. congruence. Qed.

Lemma hart_ok_move h p p' c :
  hart_ok h (mkHart p c) -> p <> Idle -> p' <> Idle -> p' <> Dead -> hart_ok h (mkHart p' c).
Proof. unfold hart_ok. simpl. intros (? & ? & ? & ?) ???. split_and!; auto; done. Qed.

(** A step of one hart keeps that hart well-formed: in particular the
    panics of acquire, release and pop_off are never reached. *)
Lemma hstep_hart_ok h l x l' x' hs :
  hs !! h = Some x -> inv (mkState l hs) -> hstep h l x l' x' -> hart_ok h x'.
Proof.
  intros Hx (Hok & Hlk & _ & Hnm) Hst. simpl in *.
  specialize (Hok _ _ Hx). specialize (Hlk _ _ Hx). specialize (Hnm _ _ Hx).
  destruct Hst; try (eapply hart_ok_move; [done|done|done|done]);
    destruct Hok as (Htp & _ & Hid & Hpush); simpl in *.
  - split_and!; simpl; rewrite ?settle_tp; try done. intros _. apply settle_wf; simpl; lia.
  - split_and!; simpl; rewrite ?push_tp; try done. eauto.
  - rewrite holds_spec in H. apply andb_prop in H as [_ H].
    apply bool_decide_eq_true in H. destruct Hnm as [_ Hnm]. rewrite Htp in H. by apply Hnm in H.
  - rewrite holds_spec, Hlk, (proj1 Hnm), bool_decide_eq_true_2 in H by congruence. done.
  - destruct Hpush as (c0 & Hc0 & ->); [done|]. rewrite (pop_off_push_inv _ _ Hc0 H).
    rewrite push_tp in Htp. split_and!; simpl; try done.
  - destruct Hpush as (c0 & Hc0 & ->); [done|]. by rewrite pop_push in H.
Qed.

(** The lock word and the owners before and after a step agree: ownership
    only appears with the test-and-set and only disappears with the unlock. *)
Lemma hstep_owner h l x l' x' :
  hstep h l x l' x' -> h_pc x' <> Dead ->
  (owner (h_pc x') = owner (h_pc x) /\ (lk_locked l = 1 -> lk_locked l' = 1)) \/
  (owner (h_pc x) = false /\ owner (h_pc x') = true /\ lk_locked l = 0 /\ lk_locked l' = 1) \/
  (owner (h_pc x) = true /\ owner (h_pc x') = false /\ lk_locked l' = 0).
Proof. destruct 1; simpl; intros; auto 10; done. Qed.

Lemma hstep_named h l x l' x' :
  hstep h l x l' x' -> h_pc x' <> Dead -> c_tp (h_core x) = h ->
  (named (h_pc x') = named (h_pc x) /\ lk_cpu l' = lk_cpu l) \/
  (named (h_pc x) = false /\ named (h_pc x') = true /\ owner (h_pc x) = true /\ lk_cpu l' = Some h) \/
  (named (h_pc x) = true /\ named (h_pc x') = false /\ lk_cpu l' = None).
Proof. destruct 1; simpl; intros; subst; auto 10; try done. Qed.

Lemma named_owner p : named p = true -> owner p = true.
Proof. by destruct p. Qed.

Lemma step_inv st st' : inv st -> step st st' -> inv st'.
Proof.
  intros Hinv Hs. revert Hinv. destruct Hs as [h l l' hs x x' Hx Hst]. intros Hinv.
  pose proof (hstep_hart_ok _ _ _ _ _ _ Hx Hinv Hst) as Hok'.
  destruct Hinv as (Hok & Hlk & Huniq & Hnm); simpl in *.
  destruct (Hok _ _ Hx) as (Htp & _). pose proof Hok' as (_ & Hd' & _).
  pose proof (hstep_owner _ _ _ _ _ Hst Hd') as Ho.
  pose proof (hstep_named _ _ _ _ _ Hst Hd' Htp) as Hn. clear Htp.
  split_and!; simpl.
  - intros k y. rewrite lookup_insert. case_decide; [|eauto]. by intros; simplify_eq.
  - intros k y. rewrite lookup_insert. case_decide; intros Hy Hoy; simplify_eq.
    + destruct Ho as [[E H]|[(_ & _ & _ & H)|(_ & E & _)]]; [|done|congruence].
      apply H. eapply Hlk; [exact Hx|congruence].
    + destruct Ho as [[_ H']|[(_ & _ & _ & H')|(Ex & _)]]; [by apply H', (Hlk k y)|done|].
      exfalso. by apply H, (Huniq h k x y).
  - intros k k' y y'. rewrite !lookup_insert.
    assert (forall j z, j <> h -> hs !! j = Some z -> owner (h_pc z) = true -> owner (h_pc x') = true -> False) as Hcl.
    { intros j z Hj Hz Hoz Hox'. destruct Ho as [[E H]|[(_ & _ & H & _)|(_ & E & _)]].
      - apply Hj. rewrite E in Hox'. by eapply Huniq.
      - pose proof (Hlk _ _ Hz Hoz). lia.
      - congruence. }
    repeat case_decide; intros; simplify_eq; try done; eauto; exfalso; eauto.
  - intros k y. rewrite lookup_insert. case_decide; intros Hy; simplify_eq.
    + destruct Hn as [[E1 E2]|[(_ & E & _ & ->)|(_ & E & ->)]].
      * rewrite E1, E2. by apply Hnm.
      * by rewrite E.
      * by rewrite E.
    + pose proof (Hnm _ _ Hy) as Hk. destruct Hn as [[E1 ->]|[(_ & _ & Ho1 & ->)|(E & _ & ->)]]; [done| |].
      * split; [|congruence]. intros Hny. exfalso. apply H. eapply Huniq; eauto using named_owner.
      * split; [|done]. intros Hny. exfalso. apply H. eapply Huniq; eauto using named_owner.
Qed.

Lemma initial_inv st : initial st -> inv st.
Proof.
  intros (H0 & Hn & Hs). split_and!.
  - intros h x Hx. destruct (Hs _ _ Hx) as (Hp & Hwf & Htp). unfold hart_ok. by rewrite Hp.
  - intros h x Hx. by destruct (Hs _ _ Hx) as (-> & _).
  - intros h h' x x' Hx. by destruct (Hs _ _ Hx) as (-> & _).
  - intros h x Hx. destruct (Hs _ _ Hx) as (-> & _). by rewrite Hn.
Qed.

Lemma reachable_inv st st' : initial st -> rtc step st st' -> inv st'.
Proof.
  intros Hi Hr. apply initial_inv in Hi. induction Hr; eauto using step_inv.
Qed.

(** C2: Mutual exclusion.  Whatever the interleaving of the harts' steps, two
    harts are never both between acquire and release, no hart runs into one of
    the panics of the lock code, and a hart that is inside has its interrupts
    off. *)
Theorem mutual_exclusion st st' :
  initial st -> rtc step st st' ->
  (forall h h' x x', sm_harts st' !! h = Some x -> sm_harts st' !! h' = Some x' ->
     h_pc x = Crit -> h_pc x' = Crit -> h = h') /\
  (forall h x, sm_harts st' !! h = Some x -> h_pc x <> Dead) /\
  (forall h x, sm_harts st' !! h = Some x -> h_pc x <> Idle -> intr_get (h_core x) = false) /\
  (forall h x, sm_harts st' !! h = Some x -> holds (sm_lock st') (h_core x) = named (h_pc x)).
Proof.
  intros Hi Hr. destruct (reachable_inv _ _ Hi Hr) as (Hok & Hlk & Huniq & Hnm). split_and!.
  - intros h h' x x' Hx Hx' E E'. eapply Huniq; eauto; by rewrite ?E, ?E'.
  - intros h x Hx. by destruct (Hok _ _ Hx) as (_ & ? & _).
  - intros h x Hx Hp. destruct (Hok _ _ Hx) as (_ & _ & _ & Hpush).
    destruct (Hpush Hp) as (c0 & _ & ->). apply intr_get_push.
  - intros h x Hx. destruct (Hok _ _ Hx) as (Htp & _). pose proof (Hnm _ _ Hx) as Hn.
    rewrite holds_spec, Htp. destruct (named (h_pc x)) eqn:E.
    + rewrite (Hlk _ _ Hx (named_owner _ E)), (proj1 Hn eq_refl). simpl. by apply bool_decide_eq_true_2.
    + rewrite (bool_decide_eq_false_2 (lk_cpu _ = _)), andb_false_r; [done|]. by rewrite <- Hn.
Qed.

(** Two harts; hart 0 takes the lock. *)
Definition ex_hart (h : Z) : hart := mkHart Idle (mkCore h SSTATUS_SIE 0 1 None ∅ [] ∅).
Definition ex_state : state := mkState (mkSpinlock 0 "lk" None) {[ 0 := ex_hart 0; 1 := ex_hart 1 ]}.

Lemma ex_harts_initial : initial ex_state.
Proof.
  split_and!; [done|done|]. intros h x Hx. cbn [ex_state sm_harts] in Hx.
  apply lookup_insert_Some in Hx as [[<- <-]|[_ Hx]]; [by split_and!|].
  apply lookup_singleton_Some in Hx as [<- <-]. by split_and!.
Qed.

Lemma mutual_exclusion_witness : exists st x,
  rtc step ex_state st /\ sm_harts st !! 0 = Some x /\ h_pc x = Crit /\ intr_get (h_core x) = false /\
  holds (sm_lock st) (h_core x) = true.
Proof.
  pose (c := push_off_core (h_core (ex_hart 0))).
  assert (rtc step ex_state (mkState (mkSpinlock 1 "lk" (Some 0))
    (<[0 := mkHart Crit c]> (<[0 := mkHart AcqCpu c]> (<[0 := mkHart AcqTas c]> (<[0 := mkHart AcqHold c]>
      {[ 0 := ex_hart 0; 1 := ex_hart 1 ]})))))) as Hr.
  { eapply rtc_l; [eapply step_hart; [apply lookup_insert_eq|apply st_push]|].
    eapply rtc_l; [eapply step_hart; [apply lookup_insert_eq|by apply st_hold]|].
    eapply rtc_l; [eapply step_hart; [apply lookup_insert_eq|by apply st_tas]|].
    eapply rtc_l; [eapply step_hart; [apply lookup_insert_eq|apply st_setcpu]|]. apply rtc_refl. }
  destruct (mutual_exclusion _ _ ex_harts_initial Hr) as (_ & _ & Hoff & Hh).
  eexists _, (mkHart Crit c). split; [exact Hr|]. split; [apply lookup_insert_eq|]. split; [reflexivity|]. split.
  - apply (Hoff 0); [apply lookup_insert_eq|discriminate].
  - rewrite (Hh 0) by apply lookup_insert_eq. reflexivity.
Defined.
End SMP.
