(* ===== verification/Wp.v ===== *)
(** * Runs that return

    [wp m c s Q]: the operation [m] started on the hart [c] in the state [s]
    returns, and its result satisfies [Q].  The rules follow the monad, so that
    a proof walks through a function in the order of its statements. *)

From Stdlib Require Import ZArith Lia.
From stdpp Require Import base gmap list numbers strings.
From S2P Require Import Prelude Core Spinlock.
Local Open Scope Z_scope.

Definition wp {S A} (m : M S A) (c : core) (s : S) (Q : A -> core -> S -> Prop) : Prop :=
  exists a c' s', m c s = Ok a c' s' /\ Q a c' s'.

Section wp.
Context {S : Type}.
Implicit Types (c : core) (s : S).

Lemma wp_bind {A B} (m : M S A) (k : A -> M S B) c s Q :
  wp m c s (fun a c' s' => wp (k a) c' s' Q) -> wp (m ≫= k) c s Q.
Proof.
  intros (a & c' & s' & Hm & b & c2 & s2 & Hk & HQ). exists b, c2, s2. split; [|done].
  by rewrite (bind_ok m k c s a c' s' Hm).
Qed.
Lemma wp_ret {A} (a : A) c s (Q : A -> core -> S -> Prop) : Q a c s -> wp (mret a) c s Q.
Proof. intros H. by exists a, c, s. Qed.
Lemma wp_gets {A} (f : S -> A) c s (Q : A -> core -> S -> Prop) : Q (f s) c s -> wp (gets f) c s Q.
Proof. intros H. by exists (f s), c, s. Qed.
Lemma wp_modify (f : S -> S) c s (Q : unit -> core -> S -> Prop) : Q tt c (f s) -> wp (modify f) c s Q.
Proof. intros H. by exists tt, c, (f s). Qed.
Lemma wp_mono {A} (m : M S A) c s (Q Q' : A -> core -> S -> Prop) :
  wp m c s Q -> (forall a c' s', Q a c' s' -> Q' a c' s') -> wp m c s Q'.
Proof. intros (a & c' & s' & Hm & HQ) H. exists a, c', s'. eauto. Qed.
Lemma wp_eq {A} (m m' : M S A) c s Q : m c s = m' c s -> wp m' c s Q -> wp m c s Q.
Proof. intros E (a & c' & s' & Hm & HQ). exists a, c', s'. by rewrite E. Qed.
End wp.

Ltac wbind := apply wp_bind.
(** Run the first operation with a rule, and name its result. *)
Tactic Notation "wrun" uconstr(H) := apply wp_bind; eapply wp_mono; [eapply H|].
Tactic Notation "wgets" := apply wp_bind, wp_gets.
Tactic Notation "wmod" := apply wp_bind, wp_modify.

(** A loop with an invariant. *)
Lemma wp_seqZ {S} (P : Z -> core -> S -> Prop) (body : Z -> M S unit) n c s :
  0 <= n -> P 0 c s ->
  (forall i c s, 0 <= i < n -> P i c s -> wp (body i) c s (fun _ c' s' => P (i + 1) c' s')) ->
  wp (forM (seqZ 0 n) body) c s (fun _ c' s' => P n c' s').
Proof.
  intros Hn H0 Hstep. destruct (forM_seqZ P body n c s Hn H0) as (c' & s' & Hr & HP).
  - intros i c1 s1 Hi H1. destruct (Hstep i c1 s1 Hi H1) as ([] & c2 & s2 & Hr & H2). eauto.
  - exists tt, c', s'. done.
Qed.

(** Running a component inside a larger state. *)
Lemma wp_lift {S T A} (l : lens S T) (m : M S A) c t (Q : A -> core -> T -> Prop) :
  wp m c (lens_get l t) (fun a c' s' => Q a c' (lens_set l s' t)) -> wp (lift l m) c t Q.
Proof. intros (a & c' & s' & Hm & HQ). exists a, c', (lens_set l s' t). split; [|done]. unfold lift. by rewrite Hm. Qed.

Lemma wp_acquire {S} lk c (s : S) (Q : unit -> core -> S -> Prop) : lock_free lk c -> Q tt (hold lk c) s -> wp (acquire lk) c s Q.
Proof. intros H HQ. exists tt, (hold lk c), s. split; [by apply acquire_free|done]. Qed.
Lemma wp_release {S} lk c (s : S) (Q : unit -> core -> S -> Prop) :
  core_wf c -> lock_free lk c -> Q tt c s -> wp (release lk) (hold lk c) s Q.
Proof. intros Hw H HQ. exists tt, c, s. split; [by apply release_hold|done]. Qed.
