(* ===== verification/Kstring.v ===== *)
(** * Physical memory and kernel/string.c

    Memory is a finite map from physical addresses to bytes; an address that
    was never written reads as zero.  The block operations [memset],
    [memmove] and [memcmp] work on it with the loops of string.c.  The string
    routines take a [const char *] argument as the function from offsets to
    bytes and return the bytes they store, so that they apply to memory and
    to arrays alike. *)

From Stdlib Require Import ZArith Lia.
From stdpp Require Import base gmap list numbers.
From S2P Require Import Prelude Riscv Core.
Local Open Scope Z_scope.

Abbreviation memory := (gmap Z Z).

Definition rd (m : memory) (a : Z) : Z := u8 (default 0 (m !! a)).
Definition wr (m : memory) (a v : Z) : memory := <[a := u8 v]> m.

(** [n] bytes at [a]. *)
Fixpoint rdn (m : memory) (a : Z) (n : nat) : list Z :=
  match n with O => [] | S n => rd m a :: rdn m (a + 1) n end.
Fixpoint wrl (m : memory) (a : Z) (l : list Z) : memory :=
  match l with [] => m | v :: l => wrl (wr m a v) (a + 1) l end.

(** A [uint64] in memory, little-endian. *)
Definition load64 (m : memory) (a : Z) : Z := le_val (rdn m a 8).
Definition store64 (m : memory) (a v : Z) : memory := wrl m a (le_bytes 8 v).

(** ** string.c on memory *)

Fixpoint memset_loop (m : memory) (dst c i : Z) (k : nat) : memory :=
  match k with
  | O => m
  | S k => memset_loop (wr m (dst + i) c) dst c (i + 1) k
  end.
Definition memset (m : memory) (dst c n : Z) : memory := memset_loop m dst c 0 (Z.to_nat n).

Fixpoint memmove_fwd (m : memory) (d s : Z) (k : nat) : memory :=
  match k with
  | O => m
  | S k => memmove_fwd (wr m d (rd m s)) (d + 1) (s + 1) k
  end.
Fixpoint memmove_bwd (m : memory) (d s : Z) (k : nat) : memory :=
  match k with
  | O => m
  | S k => memmove_bwd (wr m (d - 1) (rd m (s - 1))) (d - 1) (s - 1) k
  end.
Definition memmove (m : memory) (dst src n : Z) : memory :=
  if n =? 0 then m
  else if (src <? dst) && (src + n >? dst)
  then memmove_bwd m (dst + n) (src + n) (Z.to_nat n)
  else memmove_fwd m dst src (Z.to_nat n).

Definition memcpy (m : memory) (dst src n : Z) : memory := memmove m dst src n.

(** ** string.c on byte arrays *)

(** A [const char *]: the byte at each offset. *)
Abbreviation cptr := (nat -> Z).

Fixpoint memcmp (v1 v2 : cptr) (i n : nat) : Z :=
  match n with
  | O => 0
  | S n => if negb (v1 i =? v2 i) then v1 i - v2 i else memcmp v1 v2 (S i) n
  end.

Fixpoint strncmp (p q : cptr) (i n : nat) : Z :=
  match n with
  | O => 0
  | S n => if negb (p i =? 0) && (p i =? q i) then strncmp p q (S i) n else u8 (p i) - u8 (q i)
  end.

(** The bytes stored at [s]; the second loop pads with zeros. *)
Fixpoint strncpy (t : cptr) (i n : nat) : list Z :=
  match n with
  | O => []
  | S n => t i :: (if negb (t i =? 0) then strncpy t (S i) n else repeat 0 n)
  end.

(** [while(--n > 0 && ( *s++ = *t++ ) != 0); *s = 0]: the model's [n] is the
    count after the first decrement; a NUL copied by the loop is followed by
    the final store. *)
Fixpoint safestrcpy_loop (t : cptr) (i n : nat) : list Z :=
  match n with
  | O => [0]
  | S n => if negb (t i =? 0) then t i :: safestrcpy_loop t (S i) n else [t i; 0]
  end.
Definition safestrcpy (t : cptr) (n : Z) : list Z :=
  if n <=? 0 then [] else safestrcpy_loop t 0 (Z.to_nat (n - 1)).

Fixpoint strlen (s : cptr) (n : nat) (fuel : nat) : option nat :=
  match fuel with
  | O => None
  | S fuel => if s n =? 0 then Some n else strlen s (S n) fuel
  end.

#[global] Arguments rd : simpl never.
#[global] Arguments wr : simpl never.
#[global] Arguments load64 : simpl never.
#[global] Arguments store64 : simpl never.
#[global] Arguments memset : simpl never.
#[global] Arguments memmove : simpl never.

(** ** Memory lemmas *)

Section memory.
Implicit Types (m : memory) (a v dst src : Z).

Lemma rd_range m a : 0 <= rd m a < 256.
Proof. apply u8_range. Qed.

Lemma rd_wr m a v b : rd (wr m a v) b = if a =? b then u8 v else rd m b.
Proof.
  unfold rd, wr. destruct (Z.eqb_spec a b) as [->|H].
  - rewrite lookup_insert_eq. simpl. apply u8_small, u8_range.
  - by rewrite lookup_insert_ne.
Qed.

Lemma u8_rd m a : u8 (rd m a) = rd m a.
Proof. apply u8_small, rd_range. Qed.

Lemma rdn_S m a n : rdn m a (S n) = rd m a :: rdn m (a + 1) n.
Proof. done. Qed.

Lemma rdn_length m a n : length (rdn m a n) = n.
Proof. revert a. induction n; intros; simpl; auto. Qed.

Lemma rdn_byte m a n : Forall is_byte (rdn m a n).
Proof. revert a. induction n; intros; simpl; constructor; auto. apply rd_range. Qed.

Lemma rdn_ext m m' a n :
  (forall b, a <= b < a + Z.of_nat n -> rd m b = rd m' b) -> rdn m a n = rdn m' a n.
Proof.
  revert a. induction n as [|n IH]; intros a H; [done|]. cbn [rdn]. f_equal.
  - apply H. lia.
  - apply IH. intros. apply H. lia.
Qed.

Lemma rdn_lookup m a n i : (i < n)%nat -> rdn m a n !! i = Some (rd m (a + Z.of_nat i)).
Proof.
  revert a i. induction n as [|n IH]; intros a i Hi; [lia|]. destruct i as [|i]; simpl.
  - by rewrite Z.add_0_r.
  - rewrite IH by lia. do 2 f_equal. lia.
Qed.

Lemma rd_wrl m a l b :
  rd (wrl m a l) b =
    if (a <=? b) && (b <? a + Z.of_nat (length l)) then u8 (nth (Z.to_nat (b - a)) l 0) else rd m b.
Proof.
  revert m a. induction l as [|v l IH]; intros m a; cbn [wrl length].
  - bdestruct_all; done.
  - rewrite IH, rd_wr. destruct (Z.eqb_spec a b) as [->|H].
    + rewrite Z.sub_diag. bdestruct_all; done.
    + destruct (Z.leb_spec (a + 1) b), (Z.leb_spec a b); simpl; try lia; try done.
      replace (a + 1 + Z.of_nat (length l)) with (a + Z.of_nat (S (length l))) by lia.
      case_match; [|done]. replace (Z.to_nat (b - a)) with (S (Z.to_nat (b - (a + 1)))) by lia. done.
Qed.

Lemma rdn_wrl m a l : Forall is_byte l -> rdn (wrl m a l) a (length l) = l.
Proof.
  intros Hl. apply list_eq. intros i. destruct (decide (i < length l)%nat) as [Hi|Hi].
  - rewrite rdn_lookup by done. rewrite rd_wrl.
    btrue (a <=? a + Z.of_nat i).
    btrue (a + Z.of_nat i <? a + Z.of_nat (length l)). simpl.
    replace (Z.to_nat (a + Z.of_nat i - a)) with i by lia.
    destruct (lookup_lt_is_Some_2 l i Hi) as [x Hx]. rewrite Hx. f_equal.
    rewrite (nth_lookup_Some _ _ _ _ Hx). apply u8_small. by apply (Forall_lookup_1 _ _ _ _ Hl Hx).
  - rewrite !lookup_ge_None_2; rewrite ?rdn_length; (done || lia).
Qed.

Lemma load64_range m a : 0 <= load64 m a < 2 ^ 64.
Proof. pose proof (le_val_range _ (rdn_byte m a 8)) as H. rewrite rdn_length in H. done. Qed.

Lemma load64_store64 m a v : load64 (store64 m a v) a = u64 v.
Proof.
  unfold load64, store64. pose proof (rdn_wrl m a (le_bytes 8 v) (le_bytes_byte 8 v)) as H.
  rewrite le_bytes_length in H. rewrite H. apply le_val_bytes.
Qed.

Lemma rd_store64 m a v b : b < a \/ a + 8 <= b -> rd (store64 m a v) b = rd m b.
Proof.
  intros H. unfold store64. rewrite rd_wrl, le_bytes_length.
  destruct (Z.leb_spec a b), (Z.ltb_spec b (a + Z.of_nat 8)); simpl; done || lia.
Qed.

Lemma load64_ext m m' a :
  (forall b, a <= b < a + 8 -> rd m b = rd m' b) -> load64 m a = load64 m' a.
Proof. intros H. unfold load64. by rewrite (rdn_ext m m'). Qed.

Lemma load64_store64_ne m a v b : b + 8 <= a \/ a + 8 <= b -> load64 (store64 m a v) b = load64 m b.
Proof. intros H. apply load64_ext. intros x Hx. apply rd_store64. lia. Qed.

Lemma le_val_zeros l : Forall (fun b => b = 0) l -> le_val l = 0.
Proof. induction 1; simpl; lia. Qed.

Lemma load64_zero m a : (forall b, a <= b < a + 8 -> rd m b = 0) -> load64 m a = 0.
Proof.
  intros H. apply le_val_zeros, Forall_lookup. intros i x Hx.
  pose proof (lookup_lt_Some _ _ _ Hx) as Hi. rewrite rdn_length in Hi.
  rewrite rdn_lookup in Hx by done. simplify_eq. apply H. lia.
Qed.

(** [memset] sets exactly the [n] bytes at [dst]. *)
Lemma rd_memset m dst c n b :
  rd (memset m dst c n) b = if (dst <=? b) && (b <? dst + n) then u8 c else rd m b.
Proof.
  unfold memset.
  enough (forall k i, rd (memset_loop m dst c i k) b =
            if (dst + i <=? b) && (b <? dst + i + Z.of_nat k) then u8 c else rd m b) as E.
  { rewrite E, Z.add_0_r. destruct (Z.leb_spec dst b); simpl; [|done].
    destruct (Z.ltb_spec b (dst + n)), (Z.ltb_spec b (dst + Z.of_nat (Z.to_nat n))); (done || lia). }
  intros k. revert m. induction k as [|k IH]; intros m i; cbn [memset_loop].
  - destruct (Z.leb_spec (dst + i) b), (Z.ltb_spec b (dst + i + Z.of_nat 0)); simpl; done || lia.
  - rewrite IH, rd_wr. destruct (Z.eqb_spec (dst + i) b) as [E|E];
      bdestruct_all; done.
Qed.

Lemma rd_memmove_fwd m d s k b :
  ~ (s < d < s + Z.of_nat k) ->
  rd (memmove_fwd m d s k) b =
    if (d <=? b) && (b <? d + Z.of_nat k) then rd m (s + (b - d)) else rd m b.
Proof.
  revert m d s. induction k as [|k IH]; intros m d s Hov; cbn [memmove_fwd].
  - bdestruct_all; done.
  - rewrite IH by lia. rewrite !rd_wr, u8_rd.
    destruct (Z.leb_spec (d + 1) b), (Z.ltb_spec b (d + 1 + Z.of_nat k)); simpl.
    + btrue (d <=? b). btrue (b <? d + Z.of_nat (S k)). simpl.
      bfalse (d =? s + 1 + (b - (d + 1))). f_equal. lia.
    + bfalse (b <? d + Z.of_nat (S k)). rewrite andb_false_r.
      by bfalse (d =? b).
    + destruct (Z.eqb_spec d b) as [->|H2].
      * btrue (b <=? b). btrue (b <? b + Z.of_nat (S k)). simpl.
        f_equal. lia.
      * by bfalse (d <=? b).
    + lia.
Qed.

Lemma rd_memmove_bwd m d s k b :
  ~ (d < s < d + Z.of_nat k) ->
  rd (memmove_bwd m (d + Z.of_nat k) (s + Z.of_nat k) k) b =
    if (d <=? b) && (b <? d + Z.of_nat k) then rd m (s + (b - d)) else rd m b.
Proof.
  revert m. induction k as [|k IH]; intros m Hov; cbn [memmove_bwd].
  - bdestruct_all; done.
  - replace (d + Z.of_nat (S k) - 1) with (d + Z.of_nat k) by lia.
    replace (s + Z.of_nat (S k) - 1) with (s + Z.of_nat k) by lia.
    rewrite IH by lia. rewrite !rd_wr, u8_rd.
    destruct (Z.leb_spec d b); simpl; [|by bfalse (d + Z.of_nat k =? b)].
    destruct (Z.ltb_spec b (d + Z.of_nat k)).
    + btrue (b <? d + Z.of_nat (S k)).
      by bfalse (d + Z.of_nat k =? s + (b - d)).
    + destruct (Z.eqb_spec (d + Z.of_nat k) b) as [<-|H2].
      * btrue (d + Z.of_nat k <? d + Z.of_nat (S k)). f_equal. lia.
      * by bfalse (b <? d + Z.of_nat (S k)).
Qed.

(** [memmove] copies the old contents of the source, whatever the overlap,
    and changes nothing else. *)
Theorem memmove_spec m dst src n b :
  0 <= n ->
  rd (memmove m dst src n) b =
    if (dst <=? b) && (b <? dst + n) then rd m (src + (b - dst)) else rd m b.
Proof.
  intros Hn. unfold memmove. destruct (Z.eqb_spec n 0) as [->|Hn0].
  { bdestruct_all; done. }
  destruct (Z_of_nat_complete n Hn) as [k ->]. rewrite Nat2Z.id, Z.gtb_ltb.
  destruct (Z.ltb_spec src dst), (Z.ltb_spec dst (src + Z.of_nat k)); simpl;
    (rewrite rd_memmove_bwd || rewrite rd_memmove_fwd); done || lia.
Qed.
End memory.

(** ** What the string routines compute *)

(** The C string at [p], cut after [n] bytes: the bytes before the first NUL. *)
Fixpoint cstr (p : cptr) (i n : nat) : list Z :=
  match n with
  | O => []
  | S n => if p i =? 0 then [] else p i :: cstr p (S i) n
  end.

(** An array of bytes as a [char *]; reading past its end gives NUL. *)
Definition arr (l : list Z) : cptr := fun i => nth i l 0.

Section strings.
Implicit Types (p q t : cptr) (i n : nat).

Lemma cstr_S p n i : cstr p (S i) n = cstr (fun j => p (S j)) i n.
Proof. revert i. induction n as [|n IH]; intros; simpl; [done|]. by rewrite IH. Qed.

Lemma cstr_cons x l n : cstr (arr (x :: l)) 0 (S n) = if x =? 0 then [] else x :: cstr (arr l) 0 n.
Proof. cbn [cstr]. change (arr (x :: l) 0) with x. case_match; [done|]. by rewrite cstr_S. Qed.

Lemma cstr_zeros k n : cstr (arr (repeat 0 k)) 0 n = [].
Proof. destruct k, n; done. Qed.

Lemma cstr_length p i n : (length (cstr p i n) <= n)%nat.
Proof. revert i. induction n as [|n IH]; intros i; simpl; [lia|]. case_match; simpl; [lia|]. specialize (IH (S i)). lia. Qed.

(** [strncmp] returns zero exactly when the two strings, cut at [n], are equal. *)
Theorem strncmp_eq p q i n :
  (forall j, is_byte (p j)) -> (forall j, is_byte (q j)) ->
  strncmp p q i n = 0 <-> cstr p i n = cstr q i n.
Proof.
  intros Hp Hq. revert i. induction n as [|n IH]; intros i; [done|]. cbn [strncmp cstr].
  pose proof (Hp i) as Hpi. pose proof (Hq i) as Hqi. unfold is_byte in *.
  destruct (Z.eqb_spec (p i) 0) as [E|E], (Z.eqb_spec (p i) (q i)) as [E'|E']; simpl.
  - rewrite <- E', E. simpl. done.
  - bfalse (q i =? 0). rewrite E in *. rewrite !u8_small by lia. split; [lia|done].
  - bfalse (q i =? 0). rewrite IH. split; [congruence|]. by intros [=].
  - rewrite !u8_small by lia. split; [lia|]. case_match; congruence.
Qed.

(** [strncpy] always stores [n] bytes, and they hold the source cut at [n]. *)
Theorem strncpy_spec t i n :
  length (strncpy t i n) = n /\ cstr (arr (strncpy t i n)) 0 n = cstr t i n.
Proof.
  revert i. induction n as [|n IH]; intros i; [done|]. cbn [strncpy].
  split; [|rewrite cstr_cons; cbn [cstr]]; destruct (Z.eqb_spec (t i) 0) as [E|E]; simpl; try done.
  - by rewrite repeat_length.
  - by rewrite (proj1 (IH (S i))).
  - by rewrite (proj2 (IH (S i))).
Qed.

(** [safestrcpy] never stores more than [n] bytes, terminates the string, and
    keeps the first [n - 1] characters of the source. *)
Theorem safestrcpy_spec t (n : Z) :
  0 < n ->
  Z.of_nat (length (safestrcpy t n)) <= n /\
  list.last (safestrcpy t n) = Some 0 /\
  cstr (arr (safestrcpy t n)) 0 (Z.to_nat n) = cstr t 0 (Z.to_nat (n - 1)).
Proof.
  intros Hn. unfold safestrcpy. bfalse (n <=? 0).
  replace (Z.to_nat n) with (S (Z.to_nat (n - 1))) by lia.
  enough (forall k i, (length (safestrcpy_loop t i k) <= S k)%nat /\
            list.last (safestrcpy_loop t i k) = Some 0 /\
            cstr (arr (safestrcpy_loop t i k)) 0 (S k) = cstr t i k) as H.
  { destruct (H (Z.to_nat (n - 1)) 0%nat) as (H1 & H2 & H3). split_and!; [lia|done|done]. }
  induction k as [|k IH]; intros i; [done|]. cbn [safestrcpy_loop].
  destruct (IH (S i)) as (H1 & H2 & H3).
  destruct (Z.eqb_spec (t i) 0) as [E|E]; cbn [negb].
  - rewrite E. split_and!; [simpl; lia|done|]. cbn [cstr]. by rewrite E.
  - split_and!; [simpl; lia| |].
    + rewrite last_cons, H2. done.
    + rewrite cstr_cons, H3. cbn [cstr]. by bfalse (t i =? 0).
Qed.

(** [strlen] finds the first NUL when there is one within the fuel. *)
Theorem strlen_spec p k fuel :
  (forall j, (j < k)%nat -> p j <> 0) -> p k = 0 -> (k < fuel)%nat -> strlen p 0 fuel = Some k.
Proof.
  intros Hnz Hz Hf.
  enough (forall d i, (i + d = k)%nat -> (d < fuel - i)%nat -> strlen p i (fuel - i) = Some k) as H.
  { specialize (H k 0%nat). rewrite Nat.sub_0_r in H. apply H; lia. }
  induction d as [|d IH]; intros i Hi Hd; destruct (fuel - i)%nat as [|f] eqn:E; try lia; cbn [strlen].
  - replace i with k by lia. by rewrite Hz.
  - replace (p i =? 0) with false by (symmetry; apply Z.eqb_neq, Hnz; lia).
    replace f with (fuel - S i)%nat by lia. apply IH; lia.
Qed.
End strings.

(** *** Examples *)

(** An overlapping copy, where the destination starts inside the source. *)
Lemma memmove_spec_witness :
  rdn (memmove (wrl ∅ 100 [1; 2; 3; 4]) 101 100 3) 100 4 = [1; 1; 2; 3] /\
  rd (memmove (wrl ∅ 100 [1; 2; 3; 4]) 101 100 3) 103 = 3.
Proof. split; [vm_compute; reflexivity|]. rewrite memmove_spec by lia. vm_compute. reflexivity. Defined.

Lemma arr_byte l : Forall is_byte l -> forall j, is_byte (arr l j).
Proof.
  intros H j. unfold arr. rewrite nth_lookup. destruct (l !! j) as [x|] eqn:E; simpl; [|done].
  by eapply Forall_lookup_1.
Qed.

Lemma strncmp_eq_witness : strncmp (arr [97; 98; 0; 1]) (arr [97; 98; 0; 2]) 0 4 = 0.
Proof.
  apply (strncmp_eq (arr [97; 98; 0; 1]) (arr [97; 98; 0; 2]) 0 4);
    [apply arr_byte; by repeat constructor|apply arr_byte; by repeat constructor|reflexivity].
Defined.

Lemma safestrcpy_spec_witness :
  safestrcpy (arr [97; 98; 99]) 3 = [97; 98; 0] /\ list.last (safestrcpy (arr [97; 98; 99]) 3) = Some 0.
Proof. split; [reflexivity|]. apply (safestrcpy_spec (arr [97; 98; 99]) 3). lia. Defined.

Lemma strlen_spec_witness : strlen (arr [97; 98; 0]) 0 4096 = Some 2%nat.
Proof.
  apply (strlen_spec (arr [97; 98; 0]) 2 4096); [|reflexivity|lia].
  intros [|[|j]] Hj; [discriminate|discriminate|lia].
Defined.

(** Later files use memory through the lemmas above. *)
#[global] Opaque rd wr load64 store64 memset memmove wrl rdn.
