(* ===== verification/Asm.v ===== *)
(** * The assembly code of the kernel: trampoline.S, swtch.S, kernelvec.S, entry.S

    The instructions these files use, as functions of a hart's registers and
    of memory, and the routines as lists of instructions.  What a routine
    does at its end (a jump, a return, sret or mret) is said at its
    definition.  Loads and stores go through [mmu], the translation of a
    virtual address under a value of satp. *)

From Stdlib Require Import ZArith Lia.
From stdpp Require Import base gmap list numbers.
From S2P Require Import Prelude Riscv Kstring.
Local Open Scope Z_scope.

(** ** The machine *)

Inductive reg : Type :=
| Zero | Ra | Sp | Gp | Tp | T0 | T1 | T2 | S0 | S1
| A0 | A1 | A2 | A3 | A4 | A5 | A6 | A7
| S2 | S3 | S4 | S5 | S6 | S7 | S8 | S9 | S10 | S11
| T3 | T4 | T5 | T6.
#[export] Instance reg_eq_dec : EqDecision reg.
Proof. solve_decision. Defined.
Definition reg_num (r : reg) : nat :=
  match r with
  | Zero => 0 | Ra => 1 | Sp => 2 | Gp => 3 | Tp => 4 | T0 => 5 | T1 => 6 | T2 => 7 | S0 => 8 | S1 => 9
  | A0 => 10 | A1 => 11 | A2 => 12 | A3 => 13 | A4 => 14 | A5 => 15 | A6 => 16 | A7 => 17
  | S2 => 18 | S3 => 19 | S4 => 20 | S5 => 21 | S6 => 22 | S7 => 23 | S8 => 24 | S9 => 25 | S10 => 26 | S11 => 27
  | T3 => 28 | T4 => 29 | T5 => 30 | T6 => 31
  end.
Definition reg_eqb (r r' : reg) : bool := Nat.eqb (reg_num r) (reg_num r').
Lemma reg_eqb_spec r r' : reflect (r = r') (reg_eqb r r').
Proof.
  unfold reg_eqb. destruct (Nat.eqb_spec (reg_num r) (reg_num r')) as [H|H]; constructor; [|congruence].
  destruct r, r'; done.
Qed.

Inductive creg : Type := SATP | SSCRATCH | SIP | MSCRATCH | MHARTID.
Definition creg_num (c : creg) : nat :=
  match c with SATP => 0 | SSCRATCH => 1 | SIP => 2 | MSCRATCH => 3 | MHARTID => 4 end.
Definition creg_eqb (c c' : creg) : bool := Nat.eqb (creg_num c) (creg_num c').

Record mach : Type := mkMach { mr : reg -> Z; mc : creg -> Z; mm : memory }.

Definition put_reg (r : reg) (v : Z) (s : mach) : mach :=
  mkMach (fun r' => if reg_eqb r' r then (if reg_eqb r Zero then 0 else u64 v) else mr s r') (mc s) (mm s).
Definition put_creg (c : creg) (v : Z) (s : mach) : mach :=
  mkMach (mr s) (fun c' => if creg_eqb c' c then u64 v else mc s c') (mm s).
Definition put_mem (m : memory) (s : mach) : mach := mkMach (mr s) (mc s) m.

Inductive instr : Type :=
| SD (rs : reg) (off : Z) (base : reg)
| LD (rd : reg) (off : Z) (base : reg)
| ADDI (rd rs : reg) (imm : Z)
| ADD (rd rs1 rs2 : reg)
| MUL (rd rs1 rs2 : reg)
| LI (rd : reg) (imm : Z)
| CSRR (rd : reg) (c : creg)
| CSRW (c : creg) (rs : reg)
| CSRRW (rd : reg) (c : creg) (rs : reg)
| SFENCE_VMA.

Section exec.
Context (mmu : Z -> Z -> Z).

Definition ea (s : mach) (base : reg) (off : Z) : Z := mmu (mc s SATP) (u64 (mr s base + off)).

Definition exec1 (i : instr) (s : mach) : mach :=
  match i with
  | SD rs off base => put_mem (store64 (mm s) (ea s base off) (mr s rs)) s
  | LD rd off base => put_reg rd (load64 (mm s) (ea s base off)) s
  | ADDI rd rs imm => put_reg rd (mr s rs + imm) s
  | ADD rd a b => put_reg rd (mr s a + mr s b) s
  | MUL rd a b => put_reg rd (mr s a * mr s b) s
  | LI rd imm => put_reg rd imm s
  | CSRR rd c => put_reg rd (mc s c) s
  | CSRW c rs => put_creg c (mr s rs) s
  | CSRRW rd c rs => put_reg rd (mc s c) (put_creg c (mr s rs) s)
  | SFENCE_VMA => s
  end.

Definition run (l : list instr) (s : mach) : mach := foldl (fun s i => exec1 i s) s l.
End exec.

(** ** The routines *)

(** Ends with [jr t0]. *)
Definition uservec : list instr :=
  [CSRRW A0 SSCRATCH A0; SD Ra 40 A0; SD Sp 48 A0; SD Gp 56 A0; SD Tp 64 A0; SD T0 72 A0; SD T1 80 A0;
   SD T2 88 A0; SD S0 96 A0; SD S1 104 A0; SD A1 120 A0; SD A2 128 A0; SD A3 136 A0; SD A4 144 A0;
   SD A5 152 A0; SD A6 160 A0; SD A7 168 A0; SD S2 176 A0; SD S3 184 A0; SD S4 192 A0; SD S5 200 A0;
   SD S6 208 A0; SD S7 216 A0; SD S8 224 A0; SD S9 232 A0; SD S10 240 A0; SD S11 248 A0; SD T3 256 A0;
   SD T4 264 A0; SD T5 272 A0; SD T6 280 A0; CSRR T0 SSCRATCH; SD T0 112 A0; LD Sp 8 A0; LD Tp 32 A0;
   LD T0 16 A0; LD T1 0 A0; CSRW SATP T1; SFENCE_VMA].

(** Ends with [sret]. *)
Definition userret : list instr :=
  [CSRW SATP A1; SFENCE_VMA; LD T0 112 A0; CSRW SSCRATCH T0; LD Ra 40 A0; LD Sp 48 A0; LD Gp 56 A0;
   LD Tp 64 A0; LD T0 72 A0; LD T1 80 A0; LD T2 88 A0; LD S0 96 A0; LD S1 104 A0; LD A1 120 A0; LD A2 128 A0;
   LD A3 136 A0; LD A4 144 A0; LD A5 152 A0; LD A6 160 A0; LD A7 168 A0; LD S2 176 A0; LD S3 184 A0;
   LD S4 192 A0; LD S5 200 A0; LD S6 208 A0; LD S7 216 A0; LD S8 224 A0; LD S9 232 A0; LD S10 240 A0;
   LD S11 248 A0; LD T3 256 A0; LD T4 264 A0; LD T5 272 A0; LD T6 280 A0; CSRRW A0 SSCRATCH A0].

(** Ends with [ret], a jump to [ra]. *)
Definition swtch : list instr :=
  [SD Ra 0 A0; SD Sp 8 A0; SD S0 16 A0; SD S1 24 A0; SD S2 32 A0; SD S3 40 A0; SD S4 48 A0; SD S5 56 A0;
   SD S6 64 A0; SD S7 72 A0; SD S8 80 A0; SD S9 88 A0; SD S10 96 A0; SD S11 104 A0; LD Ra 0 A1; LD Sp 8 A1;
   LD S0 16 A1; LD S1 24 A1; LD S2 32 A1; LD S3 40 A1; LD S4 48 A1; LD S5 56 A1; LD S6 64 A1; LD S7 72 A1;
   LD S8 80 A1; LD S9 88 A1; LD S10 96 A1; LD S11 104 A1].

(** kernelvec up to [call kerneltrap], and from there to [sret]. *)
Definition kernelvec_in : list instr :=
  [ADDI Sp Sp (-256); SD Ra 0 Sp; SD Sp 8 Sp; SD Gp 16 Sp; SD Tp 24 Sp; SD T0 32 Sp; SD T1 40 Sp; SD T2 48 Sp;
   SD S0 56 Sp; SD S1 64 Sp; SD A0 72 Sp; SD A1 80 Sp; SD A2 88 Sp; SD A3 96 Sp; SD A4 104 Sp; SD A5 112 Sp;
   SD A6 120 Sp; SD A7 128 Sp; SD S2 136 Sp; SD S3 144 Sp; SD S4 152 Sp; SD S5 160 Sp; SD S6 168 Sp;
   SD S7 176 Sp; SD S8 184 Sp; SD S9 192 Sp; SD S10 200 Sp; SD S11 208 Sp; SD T3 216 Sp; SD T4 224 Sp;
   SD T5 232 Sp; SD T6 240 Sp].

Definition kernelvec_out : list instr :=
  [LD Ra 0 Sp; LD Sp 8 Sp; LD Gp 16 Sp; LD T0 32 Sp; LD T1 40 Sp; LD T2 48 Sp; LD S0 56 Sp; LD S1 64 Sp;
   LD A0 72 Sp; LD A1 80 Sp; LD A2 88 Sp; LD A3 96 Sp; LD A4 104 Sp; LD A5 112 Sp; LD A6 120 Sp; LD A7 128 Sp;
   LD S2 136 Sp; LD S3 144 Sp; LD S4 152 Sp; LD S5 160 Sp; LD S6 168 Sp; LD S7 176 Sp; LD S8 184 Sp;
   LD S9 192 Sp; LD S10 200 Sp; LD S11 208 Sp; LD T3 216 Sp; LD T4 224 Sp; LD T5 232 Sp; LD T6 240 Sp;
   ADDI Sp Sp 256].

(** Ends with [mret]. *)
Definition timervec : list instr :=
  [CSRRW A0 MSCRATCH A0; SD A1 0 A0; SD A2 8 A0; SD A3 16 A0; LD A1 24 A0; LD A2 32 A0; LD A3 0 A1;
   ADD A3 A3 A2; SD A3 0 A1; LI A1 2; CSRW SIP A1; LD A3 16 A0; LD A2 8 A0; LD A1 0 A0; CSRRW A0 MSCRATCH A0].

(** [stack0] is the address of the array; ends with [call start]. *)
Definition entry (stack0 : Z) : list instr :=
  [LI Sp stack0; LI A0 (1024 * 4); CSRR A1 MHARTID; ADDI A1 A1 1; MUL A0 A0 A1; ADD Sp Sp A0].

#[global] Arguments run : simpl never.

(** ** Saving and loading registers *)

Definition saves (base : reg) (l : list (reg * Z)) : list instr := (fun p => SD p.1 p.2 base) <$> l.
Definition loads (base : reg) (l : list (reg * Z)) : list instr := (fun p => LD p.1 p.2 base) <$> l.

(** Two words do not overlap; the offsets of a save area increase by words. *)
Definition apart (a b : Z) : Prop := a + 8 <= b \/ b + 8 <= a.
Fixpoint incr (o : Z) (l : list (reg * Z)) : bool :=
  match l with [] => true | p :: l => (o <=? p.2) && incr (p.2 + 8) l end.

Lemma incr_le o l p : incr o l = true -> p ∈ l -> o <= p.2.
Proof.
  revert o. induction l as [|q l IH]; intros o H Hp; [set_solver|]. simpl in H.
  apply andb_prop in H as [H1 H2]. apply Z.leb_le in H1.
  apply elem_of_cons in Hp as [->|Hp]; [done|]. specialize (IH _ H2 Hp). lia.
Qed.

Lemma run_app mmu l l' s : run mmu (l ++ l') s = run mmu l' (run mmu l s).
Proof. unfold run. by rewrite foldl_app. Qed.
Lemma run_cons mmu i l s : run mmu (i :: l) s = run mmu l (exec1 mmu i s).
Proof. done. Qed.

Lemma put_reg_eq r v s : r <> Zero -> mr (put_reg r v s) r = u64 v.
Proof. intros H. simpl. destruct (reg_eqb_spec r r); [|done]. by destruct (reg_eqb_spec r Zero). Qed.
Lemma put_reg_ne r v s r' : r' <> r -> mr (put_reg r v s) r' = mr s r'.
Proof. intros H. simpl. by destruct (reg_eqb_spec r' r). Qed.

Lemma run_saves mmu base l o tf s :
  incr o l = true -> (forall p, p ∈ l -> ea mmu s base p.2 = tf + p.2) ->
  let s' := run mmu (saves base l) s in
  mr s' = mr s /\ mc s' = mc s /\
  (forall a, (forall p, p ∈ l -> apart (tf + p.2) a) -> load64 (mm s') a = load64 (mm s) a) /\
  (forall r x, (r, x) ∈ l -> load64 (mm s') (tf + x) = u64 (mr s r)).
Proof.
  revert o s. induction l as [|p l IH]; intros o s Hi Hea.
  { split_and!; try done. intros r x Hx. by apply elem_of_nil in Hx. }
  simpl in Hi. apply andb_prop in Hi as [_ Hi].
  set (s1 := exec1 mmu (SD p.1 p.2 base) s).
  change (run mmu (saves base (p :: l)) s) with (run mmu (saves base l) s1).
  assert (Hm : mm s1 = store64 (mm s) (tf + p.2) (mr s p.1)).
  { unfold s1. simpl. by rewrite Hea by set_solver. }
  destruct (IH (p.2 + 8) s1 Hi) as (Hr & Hc & Ho & Hv).
  { intros q Hq. apply (Hea q). set_solver. }
  split_and!; [done|done| |].
  - intros a Ha. rewrite Ho by set_solver. rewrite Hm. apply load64_store64_ne.
    specialize (Ha p ltac:(set_solver)). unfold apart in Ha. lia.
  - intros r x Hx. apply elem_of_cons in Hx as [Hx|Hx]; [|by apply Hv].
    subst p. simpl in *. rewrite Ho, Hm; [apply load64_store64|].
    intros q Hq. pose proof (incr_le _ _ _ Hi Hq). unfold apart. lia.
Qed.

(** The saves store nowhere else. *)
Lemma run_saves_frame mmu base l tf lo hi s :
  (forall p, p ∈ l -> ea mmu s base p.2 = tf + p.2) -> (forall p, p ∈ l -> lo <= p.2 /\ p.2 + 8 <= hi) ->
  forall a, a < tf + lo \/ tf + hi <= a -> rd (mm (run mmu (saves base l) s)) a = rd (mm s) a.
Proof.
  revert s. induction l as [|p l IH]; intros s Hea Hl a Ha; [done|].
  change (run mmu (saves base (p :: l)) s) with (run mmu (saves base l) (exec1 mmu (SD p.1 p.2 base) s)).
  rewrite IH; [|intros q Hq; apply (Hea q); set_solver|set_solver|done]. cbn [exec1 put_mem mm].
  rewrite (Hea p) by set_solver. destruct (Hl p); [set_solver|]. apply rd_store64. lia.
Qed.

Lemma run_loads mmu base l tf s :
  NoDup l.*1 -> Zero ∉ l.*1 -> (forall p, p ∈ l -> ea mmu s base p.2 = tf + p.2) ->
  (forall x, (base, x) ∈ l -> load64 (mm s) (tf + x) = mr s base) ->
  let s' := run mmu (loads base l) s in
  mm s' = mm s /\ mc s' = mc s /\
  (forall r x, (r, x) ∈ l -> mr s' r = load64 (mm s) (tf + x)) /\
  (forall r, r ∉ l.*1 -> mr s' r = mr s r).
Proof.
  revert s. induction l as [|[r x] l IH]; intros s Hnd Hz Hea Hb.
  { split_and!; try done. intros r x Hx. by apply elem_of_nil in Hx. }
  rewrite fmap_cons in Hnd, Hz. apply list.NoDup_cons in Hnd as [Hr Hnd]. apply not_elem_of_cons in Hz as [Hz0 Hz].
  set (s1 := exec1 mmu (LD r x base) s).
  change (run mmu (loads base ((r, x) :: l)) s) with (run mmu (loads base l) s1).
  assert (Hx : mr s1 r = load64 (mm s) (tf + x)).
  { unfold s1, exec1. rewrite put_reg_eq by done.
    pose proof (Hea (r, x) ltac:(set_solver)) as Hx. simpl in Hx. rewrite Hx. apply u64_small, load64_range. }
  assert (Hne : forall r', r' <> r -> mr s1 r' = mr s r') by (intros; apply put_reg_ne; done).
  assert (Hbase : mr s1 base = mr s base).
  { destruct (decide (base = r)) as [->|]; [|by apply Hne]. rewrite Hx. apply Hb. set_solver. }
  destruct (IH s1 Hnd Hz) as (Hm & Hc & Hv & Ho).
  { intros p Hp. rewrite <-(Hea p) by set_solver. unfold ea. by rewrite Hbase. }
  { intros y Hy. rewrite Hbase. apply (Hb y). set_solver. }
  split_and!; [done|done| |].
  - intros r' y Hy. apply elem_of_cons in Hy as [[= -> ->]|Hy]; [|by apply Hv].
    rewrite Ho by done. done.
  - intros r' Hr'. apply not_elem_of_cons in Hr' as [Hr1 Hr2]. rewrite Ho by done. by apply Hne.
Qed.

(** ** The trampoline *)

(** The user registers but a0 and their words of the trapframe. *)
Definition user_regs : list (reg * Z) :=
  [(Ra, 40); (Sp, 48); (Gp, 56); (Tp, 64); (T0, 72); (T1, 80); (T2, 88); (S0, 96); (S1, 104);
   (A1, 120); (A2, 128); (A3, 136); (A4, 144); (A5, 152); (A6, 160); (A7, 168); (S2, 176); (S3, 184);
   (S4, 192); (S5, 200); (S6, 208); (S7, 216); (S8, 224); (S9, 232); (S10, 240); (S11, 248);
   (T3, 256); (T4, 264); (T5, 272); (T6, 280)].

(** [len] bytes from virtual address [va] on are the memory at [pa]. *)
Definition maps (mmu : Z -> Z -> Z) (satp va pa len : Z) : Prop :=
  forall o, 0 <= o < len -> mmu satp (u64 (va + o)) = pa + o.

Definition regs_ok (s : mach) : Prop := mr s Zero = 0 /\ forall r, 0 <= mr s r < 2 ^ 64.

Lemma maps_ea mmu s base pa len l :
  maps mmu (mc s SATP) (mr s base) pa len -> forallb (fun p : reg * Z => (0 <=? p.2) && (p.2 <? len)) l = true ->
  forall p, p ∈ l -> ea mmu s base p.2 = pa + p.2.
Proof.
  intros Hm Hl p Hp. rewrite forallb_forall in Hl. apply list_elem_of_In in Hp. apply Hl in Hp.
  apply andb_prop in Hp as [H1 H2]. unfold ea. apply Hm. lia.
Qed.

(** Every register but zero and a0 is among [user_regs]. *)
Lemma user_regs_all r : r <> Zero -> r <> A0 -> exists o, (r, o) ∈ user_regs.
Proof. intros Hz Ha. destruct r; try done; eexists; apply list_elem_of_In; simpl; eauto 40. Qed.

Lemma user_regs_off r o : (r, o) ∈ user_regs -> r <> Zero /\ r <> A0 /\ 40 <= o < 288 /\ apart (112) o.
Proof.
  intros H. apply list_elem_of_In in H. unfold apart.
  repeat (destruct H as [[= <- <-]|H]; [split_and!; (done || lia)|]). done.
Qed.

Lemma user_regs_in p : p ∈ user_regs -> 40 <= p.2 /\ p.2 + 8 <= 288.
Proof. intros H. apply list_elem_of_In in H. repeat (destruct H as [<-|H]; [cbn; lia|]). done. Qed.

(** What follows the saves in uservec. *)
Definition uservec_enter : list instr :=
  [CSRR T0 SSCRATCH; SD T0 112 A0; LD Sp 8 A0; LD Tp 32 A0; LD T0 16 A0; LD T1 0 A0; CSRW SATP T1; SFENCE_VMA].

Lemma uservec_split : uservec = [CSRRW A0 SSCRATCH A0] ++ saves A0 user_regs ++ uservec_enter.
Proof. done. Qed.

Lemma uservec_enter_spec mmu tf a0 s :
  (forall o, 0 <= o < 288 -> mmu (mc s SATP) (u64 (mr s A0 + o)) = tf + o) ->
  mc s SSCRATCH = a0 -> 0 <= a0 < 2 ^ 64 ->
  let s' := run mmu uservec_enter s in
  mm s' = store64 (mm s) (tf + 112) a0 /\
  mr s' Sp = load64 (mm s) (tf + 8) /\ mr s' Tp = load64 (mm s) (tf + 32) /\
  mr s' T0 = load64 (mm s) (tf + 16) /\ mc s' SATP = load64 (mm s) (tf + 0).
Proof.
  intros Hea Hs Ha. unfold uservec_enter, run. cbn -[load64 store64 u64 Z.add ea].
  unfold ea. cbn -[load64 store64 u64 Z.add].
  rewrite !Hs, !Hea, (u64_small a0), !load64_store64_ne, !u64_small by (apply load64_range || apply u64_range || lia).
  done.
Qed.

Lemma uservec_spec mmu tf s0 :
  mc s0 SSCRATCH = TRAPFRAME -> regs_ok s0 -> maps mmu (mc s0 SATP) TRAPFRAME tf 288 ->
  let s1 := run mmu uservec s0 in
  (forall r o, (r, o) ∈ user_regs -> load64 (mm s1) (tf + o) = mr s0 r) /\
  load64 (mm s1) (tf + 112) = mr s0 A0 /\
  mr s1 Sp = load64 (mm s0) (tf + 8) /\ mr s1 Tp = load64 (mm s0) (tf + 32) /\
  mr s1 T0 = load64 (mm s0) (tf + 16) /\ mc s1 SATP = load64 (mm s0) (tf + 0) /\
  (forall a, a < tf + 40 \/ tf + 288 <= a -> rd (mm s1) a = rd (mm s0) a).
Proof.
  intros Hss [_ Hr] Hm s1. set (sa := exec1 mmu (CSRRW A0 SSCRATCH A0) s0).
  set (sb := run mmu (saves A0 user_regs) sa).
  assert (Hsa : mc sa SATP = mc s0 SATP /\ mr sa A0 = TRAPFRAME /\ mc sa SSCRATCH = mr s0 A0 /\
                (forall r, r <> A0 -> mr sa r = mr s0 r) /\ mm sa = mm s0).
  { unfold sa. simpl. rewrite Hss, (u64_small (mr s0 A0)) by apply Hr.
    split_and!; try done. intros r Hne. by destruct (reg_eqb_spec r A0). }
  destruct Hsa as (Hc & Ha0 & Hsc & Hsr & Hsm).
  destruct (run_saves mmu A0 user_regs 40 tf sa) as (Hbr & Hbc & Hbo & Hbv); [done| |].
  { apply (maps_ea mmu sa A0 tf 288); [by rewrite Hc, Ha0 | done]. }
  pose proof (run_saves_frame mmu A0 user_regs tf 40 288 sa (maps_ea mmu sa A0 tf 288 user_regs ltac:(by rewrite Hc, Ha0) eq_refl)
    user_regs_in) as Hbf.
  fold sb in Hbr, Hbc, Hbo, Hbv, Hbf.
  assert (Hlow : forall o, 0 <= o <= 32 -> load64 (mm sb) (tf + o) = load64 (mm s0) (tf + o)).
  { intros o Ho. rewrite Hbo, Hsm; [done|]. intros p Hp.
    pose proof (incr_le 40 user_regs p eq_refl Hp). unfold apart. lia. }
  destruct (uservec_enter_spec mmu tf (mr s0 A0) sb) as (Hm1 & H1 & H2 & H3 & H4); [|by rewrite Hbc|apply Hr|].
  { intros o Ho. rewrite Hbr, Hbc, Ha0, Hc. by apply Hm. }
  assert (Hs1 : s1 = run mmu uservec_enter sb) by (unfold s1; by rewrite uservec_split, !run_app).
  rewrite Hs1, Hm1, H1, H2, H3, H4, !Hlow by lia.
  split_and!; try done; [|by rewrite load64_store64, u64_small by apply Hr|].
  2: { intros a Ha. rewrite rd_store64, Hbf, Hsm by lia. done. }
  intros r o Ho. pose proof (user_regs_off _ _ Ho) as (_ & Hra & _ & Hap). unfold apart in Hap.
  rewrite load64_store64_ne, (Hbv _ _ Ho), Hsr by (done || lia). apply u64_small, Hr.
Qed.

(** What precedes the loads in userret. *)
Definition userret_begin : list instr := [CSRW SATP A1; SFENCE_VMA; LD T0 112 A0; CSRW SSCRATCH T0].

Lemma userret_split : userret = userret_begin ++ loads A0 user_regs ++ [CSRRW A0 SSCRATCH A0].
Proof. done. Qed.

Lemma userret_begin_spec mmu tf s :
  mr s A0 = TRAPFRAME -> regs_ok s -> maps mmu (mr s A1) TRAPFRAME tf 288 ->
  let s' := run mmu userret_begin s in
  mc s' SATP = mr s A1 /\ mr s' A0 = TRAPFRAME /\ mc s' SSCRATCH = load64 (mm s) (tf + 112) /\
  mr s' Zero = mr s Zero /\ mm s' = mm s.
Proof.
  intros Ha0 [Hz Hr] Hm. unfold userret_begin, run. cbn -[load64 store64 u64 Z.add ea]. unfold ea.
  cbn -[load64 store64 u64 Z.add].
  rewrite !Ha0, !(u64_small (mr s A1)), !Hm, !u64_small
    by (apply load64_range || apply u64_range || apply Hr || lia). done.
Qed.

Lemma user_regs_nodup : NoDup user_regs.*1.
Proof. apply (bool_decide_unpack _). vm_compute. done. Qed.
Lemma user_regs_zero : Zero ∉ user_regs.*1.
Proof. intros ([r o] & Hr & H)%list_elem_of_fmap. apply user_regs_off in H as (? & _). by simpl in Hr. Qed.
Lemma user_regs_a0 : A0 ∉ user_regs.*1.
Proof. intros ([r o] & Hr & H)%list_elem_of_fmap. apply user_regs_off in H as (_ & ? & _). by simpl in Hr. Qed.

Lemma swap_a0 mmu s :
  let s' := run mmu [CSRRW A0 SSCRATCH A0] s in
  mr s' A0 = u64 (mc s SSCRATCH) /\ mc s' SSCRATCH = u64 (mr s A0) /\ mc s' SATP = mc s SATP /\ mm s' = mm s /\
  (forall r, r <> A0 -> mr s' r = mr s r).
Proof. intros s'. split_and!; try done. intros r Hr. apply (put_reg_ne A0 _ (put_creg SSCRATCH (mr s A0) s) r Hr). Qed.

Lemma userret_spec mmu tf s2 :
  mr s2 A0 = TRAPFRAME -> regs_ok s2 -> maps mmu (mr s2 A1) TRAPFRAME tf 288 ->
  let s3 := run mmu userret s2 in
  (forall r o, (r, o) ∈ user_regs -> mr s3 r = load64 (mm s2) (tf + o)) /\
  mr s3 A0 = load64 (mm s2) (tf + 112) /\ mr s3 Zero = mr s2 Zero /\
  mc s3 SATP = mr s2 A1 /\ mc s3 SSCRATCH = TRAPFRAME /\ mm s3 = mm s2.
Proof.
  intros Ha0 Hok Hm s3.
  destruct (userret_begin_spec mmu tf s2 Ha0 Hok Hm) as (Hc & Hb & Hsc & Hsz & Hsm).
  set (sa := run mmu userret_begin s2) in *.
  destruct (run_loads mmu A0 user_regs tf sa user_regs_nodup user_regs_zero) as (Hlm & Hlc & Hlv & Hlo).
  { apply (maps_ea mmu sa A0 tf 288); [by rewrite Hc, Hb | done]. }
  { intros x Hx. by apply user_regs_off in Hx as (_ & ? & _). }
  set (sb := run mmu (loads A0 user_regs) sa) in *.
  assert (Hs3 : s3 = run mmu [CSRRW A0 SSCRATCH A0] sb) by (unfold s3; by rewrite userret_split, !run_app).
  pose proof (Hlo A0 user_regs_a0) as HbA. pose proof (Hlo Zero user_regs_zero) as HbZ.
  destruct (swap_a0 mmu sb) as (Ha & Hs & Hsp & Hm' & Hr). rewrite <-Hs3 in Ha, Hs, Hsp, Hm', Hr.
  rewrite Ha, Hs, Hsp, Hm', Hlc, Hsc, Hc, Hlm, HbA, Hb, (Hr Zero), HbZ, Hsz, Hsm by done.
  split_and!; [|apply u64_small, load64_range|done|done| |done].
  - intros r o Ho. pose proof (user_regs_off _ _ Ho) as (_ & Hra & _ & _).
    by rewrite Hr, (Hlv _ _ Ho), Hsm by done.
  - apply u64_small. vm_compute. split; congruence.
Qed.

(** C26: A trap from user space and the return to it.  uservec enters the kernel
    on the process's kernel stack, with the hart id, the address of usertrap
    and the kernel page table from the trapframe; if the kernel then calls
    userret with the user page table and left the saved registers alone, but
    for the word of a0 (the result of a system call), the user program goes
    on with the registers it had and that a0.  Memory changes only where
    uservec saves the registers, in the trapframe. *)
Theorem trap_roundtrip mmu tf s0 s2 :
  mc s0 SSCRATCH = TRAPFRAME -> regs_ok s0 -> maps mmu (mc s0 SATP) TRAPFRAME tf 288 ->
  let s1 := run mmu uservec s0 in
  let s3 := run mmu userret s2 in
  mr s1 Sp = load64 (mm s0) (tf + 8) /\ mr s1 Tp = load64 (mm s0) (tf + 32) /\
  mr s1 T0 = load64 (mm s0) (tf + 16) /\ mc s1 SATP = load64 (mm s0) (tf + 0) /\
  load64 (mm s1) (tf + 112) = mr s0 A0 /\
  (forall a, a < tf + 40 \/ tf + 288 <= a -> rd (mm s1) a = rd (mm s0) a) /\
  (mr s2 A0 = TRAPFRAME -> mr s2 A1 = mc s0 SATP -> regs_ok s2 ->
   (forall o, 40 <= o < 288 -> apart 112 o -> load64 (mm s2) (tf + o) = load64 (mm s1) (tf + o)) ->
   (forall r, r <> A0 -> mr s3 r = mr s0 r) /\ mr s3 A0 = load64 (mm s2) (tf + 112) /\
   mc s3 SATP = mc s0 SATP /\ mc s3 SSCRATCH = TRAPFRAME /\ mm s3 = mm s2).
Proof.
  intros Hss Hok Hm s1 s3. destruct (uservec_spec mmu tf s0 Hss Hok Hm) as (Hv & Ha & H1 & H2 & H3 & H4 & H5).
  split_and!; try done. intros Ha0 Ha1 Hok2 Hkeep. rewrite <-Ha1 in Hm.
  destruct (userret_spec mmu tf s2 Ha0 Hok2 Hm) as (Hu & Hu0 & Hz & Hc & Hs & Hmm).
  split_and!; [|done|by unfold s3; rewrite Hc|done|done].
  intros r Hr. destruct (decide (r = Zero)) as [->|Hz0].
  { fold s3 in Hz. rewrite Hz. destruct Hok, Hok2; congruence. }
  destruct (user_regs_all r Hz0 Hr) as [o Ho]. pose proof (user_regs_off _ _ Ho) as (_ & _ & Hrng & Hap).
  unfold s3. rewrite (Hu _ _ Ho), Hkeep by done. by apply Hv.
Qed.

(** ** swtch *)

Definition ctx_regs : list (reg * Z) :=
  [(Ra, 0); (Sp, 8); (S0, 16); (S1, 24); (S2, 32); (S3, 40); (S4, 48); (S5, 56); (S6, 64); (S7, 72);
   (S8, 80); (S9, 88); (S10, 96); (S11, 104)].

Lemma swtch_split : swtch = saves A0 ctx_regs ++ loads A1 ctx_regs.
Proof. done. Qed.

Lemma ctx_regs_off r o : (r, o) ∈ ctx_regs -> r <> Zero /\ r <> A1 /\ 0 <= o <= 104.
Proof.
  intros H. apply list_elem_of_In in H.
  repeat (destruct H as [[= <- <-]|H]; [split_and!; (done || lia)|]). done.
Qed.
Lemma ctx_regs_nodup : NoDup ctx_regs.*1.
Proof. apply (bool_decide_unpack _). vm_compute. done. Qed.
Lemma ctx_regs_zero : Zero ∉ ctx_regs.*1.
Proof. intros ([r o] & Hr & H)%list_elem_of_fmap. apply ctx_regs_off in H as (? & _). by simpl in Hr. Qed.

(** The context of a process or scheduler, apart from the one switched to. *)
Definition contexts (mmu : Z -> Z -> Z) (s : mach) (po pn : Z) : Prop :=
  maps mmu (mc s SATP) (mr s A0) po 112 /\ maps mmu (mc s SATP) (mr s A1) pn 112 /\ (po + 112 <= pn \/ pn + 112 <= po).

Lemma swtch_spec mmu po pn s :
  regs_ok s -> contexts mmu s po pn ->
  let s' := run mmu swtch s in
  (forall r o, (r, o) ∈ ctx_regs -> mr s' r = load64 (mm s) (pn + o)) /\
  (forall r, r ∉ ctx_regs.*1 -> mr s' r = mr s r) /\ mc s' = mc s /\
  (forall r o, (r, o) ∈ ctx_regs -> load64 (mm s') (po + o) = mr s r) /\
  (forall a, a < po + 0 \/ po + 112 <= a -> rd (mm s') a = rd (mm s) a).
Proof.
  intros [_ Hr] (Ho & Hn & Hd) s'.
  destruct (run_saves mmu A0 ctx_regs 0 po s) as (Hsr & Hsc & Hso & Hsv); [done| |].
  { by apply (maps_ea mmu s A0 po 112). }
  assert (Hsf : forall a, a < po + 0 \/ po + 112 <= a -> rd (mm (run mmu (saves A0 ctx_regs) s)) a = rd (mm s) a).
  { apply run_saves_frame; [by apply (maps_ea mmu s A0 po 112)|]. intros [r o] Hp. apply ctx_regs_off in Hp as (_ & _ & ?). cbn. lia. }
  set (sa := run mmu (saves A0 ctx_regs) s) in *.
  destruct (run_loads mmu A1 ctx_regs pn sa ctx_regs_nodup ctx_regs_zero) as (Hlm & Hlc & Hlv & Hlo).
  { apply (maps_ea mmu sa A1 pn 112); [by rewrite Hsr, Hsc | done]. }
  { intros x Hx. by apply ctx_regs_off in Hx as (_ & ? & _). }
  assert (Hs' : s' = run mmu (loads A1 ctx_regs) sa) by (unfold s'; by rewrite swtch_split, run_app).
  rewrite <-Hs' in Hlm, Hlc, Hlv, Hlo. rewrite Hlm, Hlc, Hsc. split_and!; [|intros; by rewrite Hlo, Hsr|done| |done].
  - intros r o Hro. rewrite (Hlv _ _ Hro). apply Hso. intros [r' o'] Hp. simpl.
    apply ctx_regs_off in Hro as (_ & _ & ?), Hp as (_ & _ & ?). unfold apart. lia.
  - intros r o Hro. rewrite (Hsv _ _ Hro). apply u64_small, Hr.
Qed.

(** C27: A switch away and the switch back.  swtch continues at the return
    address, on the stack and with the callee-saved registers of the new
    context and changes no other register and no memory but the old context; when some later swtch switches
    back to the old context, which nobody changed in between, these registers
    are the ones of the call that switched away. *)
Theorem swtch_roundtrip mmu po pn qn s0 s2 :
  regs_ok s0 -> contexts mmu s0 po pn ->
  let s1 := run mmu swtch s0 in
  (forall r o, (r, o) ∈ ctx_regs -> mr s1 r = load64 (mm s0) (pn + o)) /\
  (forall r, r ∉ ctx_regs.*1 -> mr s1 r = mr s0 r) /\
  (forall a, a < po \/ po + 112 <= a -> rd (mm s1) a = rd (mm s0) a) /\
  (regs_ok s2 -> contexts mmu s2 qn po ->
   (forall o, 0 <= o <= 104 -> load64 (mm s2) (po + o) = load64 (mm s1) (po + o)) ->
   forall r, r ∈ ctx_regs.*1 -> mr (run mmu swtch s2) r = mr s0 r).
Proof.
  intros Hok Hc s1. destruct (swtch_spec mmu po pn s0 Hok Hc) as (H1 & H2 & _ & H4 & H6).
  split_and!; [done|done|intros a Ha; apply H6; lia|]. intros Hok2 Hc2 Hkeep r ([r' o] & -> & Hr)%list_elem_of_fmap. cbn [fst].
  destruct (swtch_spec mmu qn po s2 Hok2 Hc2) as (H5 & _). rewrite (H5 _ _ Hr).
  pose proof (ctx_regs_off _ _ Hr) as (_ & _ & Hro). rewrite Hkeep by done. by apply H4.
Qed.

(** ** kernelvec *)

Definition kv_saved : list (reg * Z) :=
  [(Ra, 0); (Sp, 8); (Gp, 16); (Tp, 24); (T0, 32); (T1, 40); (T2, 48); (S0, 56); (S1, 64); (A0, 72); (A1, 80);
   (A2, 88); (A3, 96); (A4, 104); (A5, 112); (A6, 120); (A7, 128); (S2, 136); (S3, 144); (S4, 152); (S5, 160);
   (S6, 168); (S7, 176); (S8, 184); (S9, 192); (S10, 200); (S11, 208); (T3, 216); (T4, 224); (T5, 232); (T6, 240)].
Definition kv_loaded : list (reg * Z) :=
  [(Ra, 0); (Sp, 8); (Gp, 16); (T0, 32); (T1, 40); (T2, 48); (S0, 56); (S1, 64); (A0, 72); (A1, 80);
   (A2, 88); (A3, 96); (A4, 104); (A5, 112); (A6, 120); (A7, 128); (S2, 136); (S3, 144); (S4, 152); (S5, 160);
   (S6, 168); (S7, 176); (S8, 184); (S9, 192); (S10, 200); (S11, 208); (T3, 216); (T4, 224); (T5, 232); (T6, 240)].

Lemma kernelvec_split :
  kernelvec_in = [ADDI Sp Sp (-256)] ++ saves Sp kv_saved /\ kernelvec_out = loads Sp kv_loaded ++ [ADDI Sp Sp 256].
Proof. done. Qed.

Lemma kv_loaded_off r o :
  (r, o) ∈ kv_loaded -> r <> Zero /\ r <> Tp /\ (r, o) ∈ kv_saved /\ 0 <= o < 256 /\ (r = Sp -> o = 8).
Proof.
  intros H. apply list_elem_of_In in H.
  repeat (destruct H as [[= <- <-]|H];
    [split_and!; [done|done|apply list_elem_of_In; simpl; eauto 40|lia|lia|done]|]). done.
Qed.
Lemma kv_loaded_all r : r <> Zero -> r <> Tp -> exists o, (r, o) ∈ kv_loaded.
Proof. intros Hz Ha. destruct r; try done; eexists; apply list_elem_of_In; simpl; eauto 40. Qed.
Lemma kv_loaded_nodup : NoDup kv_loaded.*1.
Proof. apply (bool_decide_unpack _). vm_compute. done. Qed.
Lemma kv_loaded_zero : Zero ∉ kv_loaded.*1.
Proof. intros ([r o] & Hr & H)%list_elem_of_fmap. apply kv_loaded_off in H as (? & _). by simpl in Hr. Qed.
Lemma kv_loaded_tp : Tp ∉ kv_loaded.*1.
Proof. intros ([r o] & Hr & H)%list_elem_of_fmap. apply kv_loaded_off in H as (_ & ? & _). by simpl in Hr. Qed.

Lemma addi_sp mmu k s :
  let s' := run mmu [ADDI Sp Sp k] s in
  mr s' Sp = u64 (mr s Sp + k) /\ mc s' = mc s /\ mm s' = mm s /\ (forall r, r <> Sp -> mr s' r = mr s r).
Proof. intros s'. split_and!; try done. intros r Hr. apply (put_reg_ne Sp _ s r Hr). Qed.

Lemma sp_back x : 0 <= x < 2 ^ 64 -> u64 (u64 (x - 256) + 256) = x.
Proof. intros H. unfold u64. rewrite Zplus_mod_idemp_l. replace (x - 256 + 256) with x by lia. by apply Z.mod_small. Qed.

Lemma kernelvec_in_spec mmu st s0 :
  regs_ok s0 -> maps mmu (mc s0 SATP) (u64 (mr s0 Sp - 256)) st 256 ->
  let s1 := run mmu kernelvec_in s0 in
  mr s1 Sp = u64 (mr s0 Sp - 256) /\ mc s1 = mc s0 /\
  (forall r o, (r, o) ∈ kv_saved -> load64 (mm s1) (st + o) = if reg_eqb r Sp then u64 (mr s0 Sp - 256) else mr s0 r).
Proof.
  intros [_ Hr] Hm s1. destruct (addi_sp mmu (-256) s0) as (Hsp & Hc & Hmm & Hne).
  set (sa := run mmu [ADDI Sp Sp (-256)] s0) in *.
  destruct (run_saves mmu Sp kv_saved 0 st sa) as (Hbr & Hbc & _ & Hbv); [done| |].
  { apply (maps_ea mmu sa Sp st 256); [by rewrite Hc, Hsp | done]. }
  assert (Hs1 : s1 = run mmu (saves Sp kv_saved) sa) by (unfold s1; by rewrite (proj1 kernelvec_split), run_app).
  rewrite <-Hs1 in Hbr, Hbc, Hbv. split_and!; [by rewrite Hbr|by rewrite Hbc|].
  intros r o Ho. rewrite (Hbv _ _ Ho). destruct (reg_eqb_spec r Sp) as [->|Hrs].
  - rewrite Hsp. apply u64_small, u64_range.
  - rewrite Hne by done. apply u64_small, Hr.
Qed.

(** An interrupt in the kernel leaves the interrupted code's registers as
    they were, but for tp: if kerneltrap returns with the stack pointer it was
    called with and did not write the frame, then every register but tp has
    the value it had at the interrupt, and tp stays the id of the hart that
    kerneltrap returned on. *)
Theorem kernelvec_roundtrip mmu st s0 s2 :
  regs_ok s0 -> maps mmu (mc s0 SATP) (u64 (mr s0 Sp - 256)) st 256 ->
  regs_ok s2 -> mr s2 Sp = mr (run mmu kernelvec_in s0) Sp -> maps mmu (mc s2 SATP) (mr s2 Sp) st 256 ->
  (forall o, 0 <= o < 256 -> load64 (mm s2) (st + o) = load64 (mm (run mmu kernelvec_in s0)) (st + o)) ->
  let s3 := run mmu kernelvec_out s2 in
  (forall r, r <> Tp -> mr s3 r = mr s0 r) /\ mr s3 Tp = mr s2 Tp /\ mm s3 = mm s2.
Proof.
  intros Hok0 Hm0 Hok2 Hsp2 Hm2 Hkeep s3.
  destruct (kernelvec_in_spec mmu st s0 Hok0 Hm0) as (Hsp & _ & Hv). rewrite Hsp in Hsp2.
  assert (Hld : forall r o, (r, o) ∈ kv_loaded ->
    load64 (mm s2) (st + o) = if reg_eqb r Sp then u64 (mr s0 Sp - 256) else mr s0 r).
  { intros r o Ho. apply kv_loaded_off in Ho as (_ & _ & Ho & Hrng & _). rewrite Hkeep by done. by apply Hv. }
  destruct (run_loads mmu Sp kv_loaded st s2 kv_loaded_nodup kv_loaded_zero) as (Hlm & Hlc & Hlv & Hlo).
  { by apply (maps_ea mmu s2 Sp st 256). }
  { intros x Hx. rewrite (Hld _ _ Hx). simpl. done. }
  set (sb := run mmu (loads Sp kv_loaded) s2) in *.
  assert (Hs3 : s3 = run mmu [ADDI Sp Sp 256] sb) by (unfold s3; by rewrite (proj2 kernelvec_split), run_app).
  destruct (addi_sp mmu 256 sb) as (H1 & _ & H3 & H4). rewrite <-Hs3 in H1, H3, H4.
  split_and!; [|rewrite H4 by done; apply Hlo, kv_loaded_tp|by rewrite H3, Hlm].
  intros r Hr. destruct (decide (r = Zero)) as [->|Hz].
  { rewrite H4, (Hlo Zero kv_loaded_zero) by done. destruct Hok0, Hok2; congruence. }
  destruct (kv_loaded_all r Hz Hr) as [o Ho]. pose proof (Hlv _ _ Ho) as Hl. rewrite (Hld _ _ Ho) in Hl.
  destruct (reg_eqb_spec r Sp) as [->|Hrs]; [|by rewrite H4].
  rewrite H1, Hl. apply sp_back, Hok0.
Qed.

(** ** timervec *)

(** In machine mode addresses are physical. *)
Definition phys (satp a : Z) : Z := a.

Definition tv_saved : list (reg * Z) := [(A1, 0); (A2, 8); (A3, 16)].
Definition tv_loaded : list (reg * Z) := [(A3, 16); (A2, 8); (A1, 0)].
Definition tv_body : list instr :=
  [LD A1 24 A0; LD A2 32 A0; LD A3 0 A1; ADD A3 A3 A2; SD A3 0 A1; LI A1 2; CSRW SIP A1].

Lemma timervec_split :
  timervec = [CSRRW A0 MSCRATCH A0] ++ saves A0 tv_saved ++ tv_body ++ loads A0 tv_loaded ++ [CSRRW A0 MSCRATCH A0].
Proof. done. Qed.

Lemma swap_mscratch mmu s :
  regs_ok s -> 0 <= mc s MSCRATCH < 2 ^ 64 ->
  let s' := run mmu [CSRRW A0 MSCRATCH A0] s in
  mr s' A0 = mc s MSCRATCH /\ mc s' MSCRATCH = mr s A0 /\ mc s' SATP = mc s SATP /\ mc s' SIP = mc s SIP /\
  mm s' = mm s /\ (forall r, r <> A0 -> mr s' r = mr s r).
Proof.
  intros [_ Hr] Hm s'. split_and!; try done; [by apply u64_small|by apply u64_small, Hr|].
  intros r Hne. apply (put_reg_ne A0 _ (put_creg MSCRATCH (mr s A0) s) r Hne).
Qed.

Lemma tv_body_spec s a cmp iv :
  mr s A0 = a -> 0 <= a -> a + 40 < 2 ^ 64 -> load64 (mm s) (a + 24) = cmp -> load64 (mm s) (a + 32) = iv ->
  let s' := run phys tv_body s in
  mm s' = store64 (mm s) cmp (u64 (load64 (mm s) cmp + iv)) /\ mc s' SIP = 2 /\
  mc s' MSCRATCH = mc s MSCRATCH /\ mc s' SATP = mc s SATP /\
  (forall r, r <> A1 -> r <> A2 -> r <> A3 -> mr s' r = mr s r).
Proof.
  intros Ha H0 H1 Hc Hi. assert (Hcr : 0 <= cmp < 2 ^ 64) by (rewrite <-Hc; apply load64_range).
  assert (Hir : 0 <= iv < 2 ^ 64) by (rewrite <-Hi; apply load64_range).
  unfold tv_body, run, phys. cbn -[load64 store64 u64 Z.add ea]. unfold ea. cbn -[load64 store64 u64 Z.add].
  rewrite !Ha, !(u64_small (a + _)), Hc, Hi, !(u64_small cmp), !Z.add_0_r, !(u64_small cmp), (u64_small iv),
    (u64_small (load64 _ _)) by (apply load64_range || lia).
  split_and!; try done. intros r N1 N2 N3.
  destruct (reg_eqb_spec r A1), (reg_eqb_spec r A2), (reg_eqb_spec r A3); done.
Qed.

Lemma phys_maps satp a : 0 <= a -> a + 40 < 2 ^ 64 -> maps phys satp a a 40.
Proof. intros H0 H1 o Ho. apply u64_small. lia. Qed.
Lemma tv_saved_off r o : (r, o) ∈ tv_saved -> 0 <= o <= 16 /\ r <> A0 /\ r <> Zero.
Proof.
  intros H. apply list_elem_of_In in H. repeat (destruct H as [[= <- <-]|H]; [split_and!; (done || lia)|]). done.
Qed.
Lemma tv_loaded_saved r o : (r, o) ∈ tv_loaded -> (r, o) ∈ tv_saved.
Proof. unfold tv_loaded, tv_saved. set_solver. Qed.
Lemma tv_reg r : (exists o, (r, o) ∈ tv_loaded) \/ r ∉ tv_loaded.*1 /\ r <> A1 /\ r <> A2 /\ r <> A3.
Proof.
  destruct (decide (r ∈ tv_loaded.*1)) as [([r' o] & -> & H)%list_elem_of_fmap|H]; [left; eauto|right].
  split; [done|]. split_and!; intros ->; apply H; apply (bool_decide_unpack _); vm_compute; done.
Qed.

Lemma timervec_inner s a cmp iv :
  regs_ok s -> mr s A0 = a -> 0 <= a -> a + 40 < 2 ^ 64 ->
  load64 (mm s) (a + 24) = cmp -> load64 (mm s) (a + 32) = iv -> cmp + 8 <= a \/ a + 40 <= cmp ->
  let s' := run phys (saves A0 tv_saved ++ tv_body ++ loads A0 tv_loaded) s in
  (forall r, mr s' r = mr s r) /\ mc s' MSCRATCH = mc s MSCRATCH /\ mc s' SIP = 2 /\ mc s' SATP = mc s SATP /\
  load64 (mm s') cmp = u64 (load64 (mm s) cmp + iv) /\
  load64 (mm s') (a + 24) = cmp /\ load64 (mm s') (a + 32) = iv.
Proof.
  intros [_ Hr] Ha Ha0 Ha1 Hcmp Hiv Hap s'. unfold s'. rewrite !run_app. clear s'.
  destruct (run_saves phys A0 tv_saved 0 a s) as (B1 & B2 & B3 & B4); [done| |].
  { apply (maps_ea phys s A0 a 40); [rewrite Ha; by apply phys_maps|done]. }
  set (s2 := run phys (saves A0 tv_saved) s) in *.
  assert (B5 : forall x, x + 8 <= a \/ a + 24 <= x -> load64 (mm s2) x = load64 (mm s) x).
  { intros x Hx. rewrite B3; [done|]. intros [r o] Hp%tv_saved_off. unfold apart. simpl. lia. }
  rewrite <-(B5 (a + 24)) in Hcmp by lia. rewrite <-(B5 (a + 32)) in Hiv by lia.
  destruct (tv_body_spec s2 a cmp iv) as (C1 & C2 & C3 & C4 & C5); [by rewrite B1|lia|lia|exact Hcmp|exact Hiv|].
  set (s3 := run phys tv_body s2) in *.
  assert (C6 : mr s3 A0 = a) by (rewrite C5, B1 by done; exact Ha).
  assert (C7 : forall r x, (r, x) ∈ tv_saved -> load64 (mm s3) (a + x) = mr s r).
  { intros r x Hx. rewrite C1, load64_store64_ne, (B4 _ _ Hx) by (apply tv_saved_off in Hx; lia).
    apply u64_small, Hr. }
  destruct (run_loads phys A0 tv_loaded a s3) as (D1 & D2 & D3 & D4).
  { apply (bool_decide_unpack _). vm_compute. done. }
  { apply (bool_decide_unpack _). vm_compute. done. }
  { apply (maps_ea phys s3 A0 a 40); [rewrite C6; by apply phys_maps|done]. }
  { intros x Hx%tv_loaded_saved%tv_saved_off. by destruct Hx as (_ & ? & _). }
  set (s4 := run phys (loads A0 tv_loaded) s3) in *. rewrite D1, D2, C1, C2, C3, C4, B2.
  split_and!; try reflexivity.
  - intros r. destruct (tv_reg r) as [[x Hx]|(Hx & N1 & N2 & N3)].
    + by rewrite (D3 _ _ Hx), (C7 _ _ (tv_loaded_saved _ _ Hx)).
    + by rewrite D4, C5, B1.
  - rewrite load64_store64, B5 by lia. apply u64_small, u64_range.
  - by rewrite load64_store64_ne by lia.
  - by rewrite load64_store64_ne by lia.
Qed.

(** The machine-mode handler, in which addresses are physical, leaves every
    register of the interrupted code and mscratch as they were, advances the
    compare register that scratch[3] names by the interval in scratch[4],
    keeps both words for the next time, and raises a supervisor software
    interrupt. *)
Theorem timervec_spec s a cmp iv :
  regs_ok s -> mc s MSCRATCH = a -> 0 <= a -> a + 40 < 2 ^ 64 ->
  load64 (mm s) (a + 24) = cmp -> load64 (mm s) (a + 32) = iv -> cmp + 8 <= a \/ a + 40 <= cmp ->
  let s' := run phys timervec s in
  (forall r, mr s' r = mr s r) /\ mc s' MSCRATCH = a /\ mc s' SIP = 2 /\ mc s' SATP = mc s SATP /\
  load64 (mm s') cmp = u64 (load64 (mm s) cmp + iv) /\
  load64 (mm s') (a + 24) = cmp /\ load64 (mm s') (a + 32) = iv.
Proof.
  intros Hok Ha Ha0 Ha1 Hcmp Hiv Hap s'. pose proof Hok as [Hz Hr].
  destruct (swap_mscratch phys s Hok ltac:(lia)) as (P1 & P2 & P3 & _ & P5 & P6). rewrite Ha in P1.
  set (s1 := run phys [CSRRW A0 MSCRATCH A0] s) in *.
  assert (Hok1 : regs_ok s1).
  { split; [by rewrite P6|]. intros r. destruct (decide (r = A0)) as [->|Hne]; [rewrite P1; lia|].
    rewrite P6 by done. apply Hr. }
  rewrite <-P5 in Hcmp, Hiv. rewrite <-P5.
  destruct (timervec_inner s1 a cmp iv Hok1 P1 Ha0 Ha1 Hcmp Hiv Hap) as (Q1 & Q2 & Q3 & Q4 & Q5 & Q6 & Q7).
  set (s2 := run phys (saves A0 tv_saved ++ tv_body ++ loads A0 tv_loaded) s1) in *.
  assert (Hs' : s' = run phys [CSRRW A0 MSCRATCH A0] s2).
  { unfold s', s2, s1. by rewrite timervec_split, !run_app. }
  assert (Hok2 : regs_ok s2) by (split; [by rewrite Q1; destruct Hok1|intros r; rewrite Q1; apply Hok1]).
  destruct (swap_mscratch phys s2 Hok2) as (R1 & R2 & R3 & R4 & R5 & R6); [rewrite Q2, P2; apply Hr|].
  rewrite <-Hs' in R1, R2, R3, R4, R5, R6. rewrite R2, R3, R4, R5, Q1, P1, Q3, Q4, P3.
  split_and!; [|reflexivity|reflexivity|reflexivity|exact Q5|exact Q6|exact Q7].
  intros r. destruct (decide (r = A0)) as [->|Hne]; [by rewrite R1, Q2|].
  by rewrite R6, Q1, P6.
Qed.

(** ** Examples *)

(** The trapframe page at 0x80200000; everything else is mapped to itself. *)
Definition ex_mmu (satp a : Z) : Z := if TRAPFRAME <=? a then a - TRAPFRAME + 0x80200000 else a.
Definition ex_user : mach :=
  mkMach (fun r => 3 * Z.of_nat (reg_num r))
    (fun c => match c with SSCRATCH => TRAPFRAME | SATP => 7 | MSCRATCH => 0x8000a000 | _ => 0 end)
    (store64 (store64 ∅ (0x8000a000 + 24) 0x2004000) (0x8000a000 + 32) 1000000).
Definition ex_back : mach :=
  mkMach (fun r => match r with A0 => TRAPFRAME | A1 => 7 | _ => 0 end) (fun c => 0)
    (store64 (mm (run ex_mmu uservec ex_user)) (0x80200000 + 112) 42).

Lemma ex_user_ok : regs_ok ex_user.
Proof. split; [done|]. intros r. destruct r; simpl; lia. Qed.
Lemma ex_back_ok : regs_ok ex_back.
Proof. split; [done|]. intros []; vm_compute; split; congruence. Qed.
Lemma ex_maps satp : maps ex_mmu satp TRAPFRAME 0x80200000 288.
Proof.
  intros o Ho. unfold ex_mmu. change TRAPFRAME with 0x3fffffe000 in *. rewrite u64_small by lia.
  destruct (Z.leb_spec 0x3fffffe000 (0x3fffffe000 + o)); lia.
Qed.

Lemma trap_roundtrip_witness : mr (run ex_mmu userret ex_back) S3 = 57 /\ mr (run ex_mmu userret ex_back) A0 = 42.
Proof.
  destruct (trap_roundtrip ex_mmu 0x80200000 ex_user ex_back eq_refl ex_user_ok (ex_maps 7)) as (_ & _ & _ & _ & _ & _ & H).
  destruct H as (Hr & Ha & _); [reflexivity|reflexivity|exact ex_back_ok| |].
  { intros o Ho Hap. unfold apart in Hap. apply load64_store64_ne. lia. }
  split; [rewrite Hr by done; reflexivity|]. rewrite Ha. apply load64_store64.
Defined.

Lemma mm_mk r c m : mm (mkMach r c m) = m.
Proof. done. Qed.

(** Two contexts in mapped-to-itself memory, before the switch and before the switch back. *)
Definition ex_sw : mach :=
  mkMach (fun r => match r with A0 => 0x1000 | A1 => 0x2000 | Zero => 0 | _ => 5 + Z.of_nat (reg_num r) end)
    (fun c => 0) (store64 ∅ 0x2000 0x80001234).
Definition ex_sw2 : mach :=
  mkMach (fun r => match r with A0 => 0x2000 | A1 => 0x1000 | _ => 0 end) (fun c => 0)
    (mm (run phys swtch ex_sw)).
Lemma ex_sw_ok : regs_ok ex_sw /\ regs_ok ex_sw2.
Proof. split; (split; [done|]); intros []; simpl; lia. Qed.
Lemma ex_contexts a b s : mr s A0 = a -> mr s A1 = b -> 0 <= a -> a + 112 <= 0x3000 -> 0 <= b -> b + 112 <= 0x3000 ->
  a + 112 <= b \/ b + 112 <= a -> contexts phys s a b.
Proof. intros Ha Hb ? ? ? ? ?. split_and!; [| |done]; intros o Ho; rewrite ?Ha, ?Hb; apply u64_small; lia. Qed.

Lemma swtch_roundtrip_witness :
  mr (run phys swtch ex_sw) Ra = 0x80001234 /\ mr (run phys swtch ex_sw2) S5 = 26.
Proof.
  destruct ex_sw_ok as [H1 H2].
  destruct (swtch_roundtrip phys 0x1000 0x2000 0x2000 ex_sw ex_sw2 H1) as (Ha & _ & _ & Hb).
  { apply ex_contexts; simpl; (done || lia). }
  split.
  - rewrite (Ha Ra 0) by (apply list_elem_of_In; simpl; eauto). rewrite Z.add_0_r. unfold ex_sw. cbn [mm].
    rewrite load64_store64. reflexivity.
  - rewrite Hb; [reflexivity|exact H2| | |].
    + apply ex_contexts; simpl; (done || lia).
    + intros o _. unfold ex_sw2. by rewrite mm_mk.
    + apply (bool_decide_unpack _). vm_compute. done.
Defined.

Definition ex_kern : mach := mkMach (fun r => match r with Zero => 0 | Sp => 0x8000 | _ => 100 + Z.of_nat (reg_num r) end) (fun c => 0) ∅.
Definition ex_kern2 : mach :=
  mkMach (fun r => match r with Sp => 0x7f00 | Tp => 1 | _ => 0 end) (fun c => 0) (mm (run phys kernelvec_in ex_kern)).

Lemma kernelvec_roundtrip_witness :
  mr (run phys kernelvec_out ex_kern2) Sp = 0x8000 /\ mr (run phys kernelvec_out ex_kern2) Tp = 1.
Proof.
  destruct (kernelvec_roundtrip phys 0x7f00 ex_kern ex_kern2) as (H & Ht & _).
  - split; [done|]. intros []; simpl; lia.
  - intros o Ho. apply u64_small. simpl. lia.
  - split; [done|]. intros []; simpl; lia.
  - vm_compute. reflexivity.
  - intros o Ho. apply u64_small. simpl. lia.
  - intros o _. unfold ex_kern2. by rewrite mm_mk.
  - split; [rewrite H by discriminate; reflexivity|rewrite Ht; reflexivity].
Defined.

Lemma timervec_spec_witness :
  mr (run phys timervec ex_user) A2 = 36 /\ load64 (mm (run phys timervec ex_user)) 0x2004000 = 1000000.
Proof.
  destruct (timervec_spec ex_user 0x8000a000 0x2004000 1000000 ex_user_ok) as (H & _ & _ & _ & Hc & _);
    [done|lia|lia|vm_compute; done|vm_compute; done|lia|].
  split; [rewrite H; reflexivity|]. rewrite Hc. vm_compute. reflexivity.
Defined.
