(* ===== verification/Kalloc.v ===== *)
(** * The physical page allocator: kernel/kalloc.c

    Free pages form a linked list threaded through their own first words
    ([struct run]).  The state is the list head and physical memory; the
    linker symbol [end] is part of it because kernel.ld defines it at build
    time.  [kmem_inv] relates the state to the abstract list of free pages,
    and the operations are specified on that list. *)

From Stdlib Require Import ZArith Lia.
From stdpp Require Import base gmap list numbers strings.
From S2P Require Import Prelude Riscv Core Spinlock Kstring.
Local Open Scope Z_scope.

Record kmem : Type := mkKmem {
  km_end : Z;            (* first address after the kernel *)
  km_freelist : Z;       (* struct run *freelist *)
  km_mem : memory
}.

Definition set_freelist (x : Z) (s : kmem) : kmem := mkKmem (km_end s) x (km_mem s).
Definition set_mem (m : memory) (s : kmem) : kmem := mkKmem (km_end s) (km_freelist s) m.
Definition upd_mem (f : memory -> memory) (s : kmem) : kmem := set_mem (f (km_mem s)) s.

(** ** Operations *)

Definition kfree (pa : Z) : M kmem unit :=
  s ← get;
  if negb (pa mod PGSIZE =? 0) || (pa <? km_end s) || (pa >=? PHYSTOP) then panic "kfree" else
  (* Fill with junk to catch dangling refs. *)
  _ ← modify (upd_mem (fun m => memset m pa 1 PGSIZE));
  _ ← acquire LkKmem;
  _ ← modify (fun s => upd_mem (fun m => store64 m pa (km_freelist s)) s);
  _ ← modify (set_freelist pa);
  release LkKmem.

Definition kalloc : M kmem Z :=
  _ ← acquire LkKmem;
  r ← gets km_freelist;
  _ ← (if negb (r =? 0)
       then modify (fun s => set_freelist (load64 (km_mem s) r) s)
       else mret tt);
  _ ← release LkKmem;
  _ ← (if negb (r =? 0)
       then modify (upd_mem (fun m => memset m r 5 PGSIZE))
       else mret tt);
  mret r.

Fixpoint freerange_loop (p pa_end : Z) (fuel : nat) : M kmem unit :=
  if p + PGSIZE <=? pa_end then
    match fuel with
    | O => nofuel
    | S fuel => _ ← kfree p; freerange_loop (p + PGSIZE) pa_end fuel
    end
  else mret tt.

(** The bound is the number of whole pages in the range. *)
Definition freerange (pa_start pa_end : Z) : M kmem unit :=
  let p := PGROUNDUP pa_start in
  freerange_loop p pa_end (Z.to_nat ((pa_end - p) / PGSIZE)).

Definition kinit : M kmem unit :=
  _ ← initlock LkKmem "kmem";
  e ← gets km_end;
  freerange e PHYSTOP.

(** ** The invariant *)

(** A page [kfree] accepts. *)
Definition page_ok (e x : Z) : Prop := page_aligned x /\ e <= x < PHYSTOP.

Definition in_page (x a : Z) : Prop := x <= a < x + PGSIZE.

(** The list that starts at [p] visits exactly the pages of [l]. *)
Fixpoint chain (m : memory) (p : Z) (l : list Z) : Prop :=
  match l with
  | [] => p = 0
  | x :: l => p = x /\ chain m (load64 m x) l
  end.

Definition kmem_inv (s : kmem) (l : list Z) : Prop :=
  0 < km_end s /\ chain (km_mem s) (km_freelist s) l /\ NoDup l /\ Forall (page_ok (km_end s)) l.

Section lemmas.
Implicit Types (s : kmem) (l : list Z) (m : memory).

Lemma page_disjoint x y a :
  page_aligned x -> page_aligned y -> x <> y -> in_page x a -> in_page y a -> False.
Proof.
  unfold page_aligned, in_page, PGSIZE. intros.
  pose proof (Z.div_mod x 4096). pose proof (Z.div_mod y 4096). nia.
Qed.

Lemma page_ok_top e x : page_ok e x -> x + PGSIZE <= PHYSTOP.
Proof.
  unfold page_ok, page_aligned, PHYSTOP, KERNBASE, PGSIZE. intros [H1 H2].
  pose proof (Z.div_mod x 4096). lia.
Qed.

Lemma chain_ext m m' p l :
  (forall x a, x ∈ l -> in_page x a -> rd m' a = rd m a) -> chain m p l -> chain m' p l.
Proof.
  revert p. induction l as [|x l IH]; intros p H; [done|]. intros [-> Hc]. split; [done|].
  rewrite (load64_ext m' m).
  - apply IH; [|done]. intros y a Hy. apply H. by right.
  - intros b Hb. apply (H x); [by left|]. unfold in_page, PGSIZE. lia.
Qed.

Lemma rd_memset_page m x v a :
  rd (memset m x v PGSIZE) a = if (x <=? a) && (a <? x + PGSIZE) then u8 v else rd m a.
Proof. apply rd_memset. Qed.

Lemma rd_memset_out m x v a : ~ in_page x a -> rd (memset m x v PGSIZE) a = rd m a.
Proof.
  intros H. rewrite rd_memset_page. unfold in_page in H.
  destruct (Z.leb_spec x a), (Z.ltb_spec a (x + PGSIZE)); simpl; done || lia.
Qed.

Lemma rd_memset_in m x v a : in_page x a -> rd (memset m x v PGSIZE) a = u8 v.
Proof. intros [H1 H2]. rewrite rd_memset_page. btrue (x <=? a). by btrue (a <? x + PGSIZE). Qed.

(** ** [kfree] *)

(** [kfree] of a page that is not free puts it at the head of the free list
    and touches no byte outside the page. *)
Lemma kfree_ok c s l pa :
  core_wf c -> lock_free LkKmem c -> kmem_inv s l -> page_ok (km_end s) pa -> pa ∉ l ->
  exists s', kfree pa c s = Ok tt c s' /\ kmem_inv s' (pa :: l) /\ km_end s' = km_end s /\
    (forall a, ~ in_page pa a -> rd (km_mem s') a = rd (km_mem s) a).
Proof.
  intros Hc Hf (He & Hch & Hnd & Hok) Hpa Hnin.
  set (m1 := memset (km_mem s) pa 1 PGSIZE).
  set (m2 := store64 m1 pa (km_freelist s)).
  assert (forall a, ~ in_page pa a -> rd m2 a = rd (km_mem s) a) as Hfr.
  { intros a Ha. unfold m2. rewrite rd_store64 by (unfold in_page, PGSIZE in *; lia).
    by apply rd_memset_out. }
  exists (mkKmem (km_end s) pa m2). split_and!.
  - unfold kfree. rewrite bind_get. destruct Hpa as [Hal Hpa]. unfold page_aligned in Hal. rewrite Hal.
    bfalse (pa <? km_end s). rewrite Z.geb_leb. bfalse (PHYSTOP <=? pa). cbn [negb orb Z.eqb].
    rewrite bind_modify. erewrite bind_ok by (by apply acquire_free).
    rewrite !bind_modify. by rewrite release_hold.
  - split_and!; simpl; [done|split; [done|]| |].
    + unfold m2. rewrite load64_store64, u64_small.
      * eapply chain_ext; [|exact Hch]. intros x a Hx Ha. apply Hfr. intros Ha'.
        eapply (page_disjoint x pa a); eauto; [|by apply Hpa|congruence].
        eapply Forall_forall in Hok; [|exact Hx]. by apply Hok.
      * destruct l as [|x l]; simpl in Hch; [subst; lia|]. destruct Hch as [-> _].
        apply Forall_cons in Hok as [[_ Hx] _]. unfold PHYSTOP, KERNBASE in Hx. lia.
    + by constructor.
    + by constructor.
  - done.
  - done.
Qed.

(** The guard of [kfree]: anything but a page of the managed range panics. *)
Lemma kfree_panics c s pa : ~ page_ok (km_end s) pa -> kfree pa c s = Panic "kfree".
Proof.
  intros H. unfold kfree. rewrite bind_get.
  destruct (Z.eqb_spec (pa mod PGSIZE) 0) as [E|E]; simpl; [|done].
  rewrite Z.geb_leb.
  destruct (Z.ltb_spec pa (km_end s)), (Z.leb_spec PHYSTOP pa); simpl; try done.
  exfalso. apply H. done.
Qed.

(** ** [kalloc] *)

Lemma kalloc_empty c s :
  core_wf c -> lock_free LkKmem c -> kmem_inv s [] -> kalloc c s = Ok 0 c s.
Proof.
  intros Hc Hf (_ & Hch & _). simpl in Hch. unfold kalloc.
  erewrite bind_ok by (by apply acquire_free). rewrite bind_gets, Hch.
  cbn [negb Z.eqb]. rewrite bind_ret. by erewrite bind_ok by (by apply release_hold).
Qed.

(** [kalloc] takes the first free page, which is then no longer free, fills it
    with fives and touches no byte outside of it. *)
Lemma kalloc_cons c s x l :
  core_wf c -> lock_free LkKmem c -> kmem_inv s (x :: l) ->
  exists s', kalloc c s = Ok x c s' /\ kmem_inv s' l /\ km_end s' = km_end s /\
    page_ok (km_end s) x /\ (x ∉ l) /\
    (forall a, in_page x a -> rd (km_mem s') a = 5) /\
    (forall a, ~ in_page x a -> rd (km_mem s') a = rd (km_mem s) a).
Proof.
  intros Hc Hf (He & Hch & Hnd & Hok). simpl in Hch. destruct Hch as [Hx Hch].
  apply NoDup_cons in Hnd as [Hnin Hnd]. apply Forall_cons in Hok as [Hxok Hok].
  exists (mkKmem (km_end s) (load64 (km_mem s) x) (memset (km_mem s) x 5 PGSIZE)). split_and!.
  - unfold kalloc. erewrite bind_ok by (by apply acquire_free). rewrite bind_gets, Hx.
    replace (x =? 0) with false by (symmetry; apply Z.eqb_neq; destruct Hxok as [_ ?]; lia). cbn [negb].
    rewrite bind_modify. by erewrite bind_ok by (by apply release_hold).
  - split_and!; simpl; [done| |done|done].
    eapply chain_ext; [|exact Hch]. intros y a Hy Ha. apply rd_memset_out. intros Ha'.
    eapply Forall_forall in Hok; [|exact Hy]. destruct Hok as [Hyal _]. destruct Hxok as [Hxal _].
    eapply (page_disjoint x y a); eauto. congruence.
  - done.
  - done.
  - done.
  - intros a Ha. by apply rd_memset_in.
  - intros a Ha. by apply rd_memset_out.
Qed.

(** ** [freerange] and [kinit] *)

(** The whole pages of [p, e): the argument is page-aligned. *)
Definition pages_in (p e : Z) : list Z :=
  fmap (fun i => p + PGSIZE * Z.of_nat i) (seq 0 (Z.to_nat ((e - p) / PGSIZE))).

Lemma pages_in_nil p e : e < p + PGSIZE -> pages_in p e = [].
Proof.
  intros H. unfold pages_in, PGSIZE in *. replace (Z.to_nat ((e - p) / 4096)) with 0%nat; [done|].
  assert ((e - p) / 4096 < 1); [|lia]. apply Z.div_lt_upper_bound; lia.
Qed.

Lemma pages_count_S p e :
  p + PGSIZE <= e -> Z.to_nat ((e - p) / PGSIZE) = S (Z.to_nat ((e - (p + PGSIZE)) / PGSIZE)).
Proof.
  unfold PGSIZE. intros H. replace (e - p) with (e - (p + 4096) + 1 * 4096) by lia.
  rewrite Z.div_add by lia. assert (0 <= (e - (p + 4096)) / 4096) by (apply Z.div_pos; lia). lia.
Qed.

Lemma pages_in_cons p e : p + PGSIZE <= e -> pages_in p e = p :: pages_in (p + PGSIZE) e.
Proof.
  intros H. unfold pages_in. rewrite (pages_count_S _ _ H).
  cbn [seq fmap list_fmap]. f_equal; [lia|].
  rewrite <- fmap_S_seq, <- list_fmap_compose.
  apply list_fmap_ext. intros i x _. simpl. lia.
Qed.

Lemma elem_of_pages_in p e x : x ∈ pages_in p e -> p <= x /\ x + PGSIZE <= e.
Proof.
  unfold pages_in. intros (i & -> & Hi)%list_elem_of_fmap. apply elem_of_seq in Hi.
  unfold PGSIZE in *. assert (Z.of_nat i < (e - p) / 4096) by lia.
  pose proof (Z.mul_div_le (e - p) 4096). lia.
Qed.

Lemma freerange_loop_ok c s l p e :
  core_wf c -> lock_free LkKmem c -> kmem_inv s l ->
  page_aligned p -> km_end s <= p -> e <= PHYSTOP -> (forall x, x ∈ l -> x < p) ->
  exists s', freerange_loop p e (Z.to_nat ((e - p) / PGSIZE)) c s = Ok tt c s' /\
    kmem_inv s' (rev (pages_in p e) ++ l) /\ km_end s' = km_end s.
Proof.
  intros Hc Hf. remember (Z.to_nat ((e - p) / PGSIZE)) as n eqn:En.
  revert s l p En. induction n as [|n IH]; intros s l p En Hinv Hal Hp He Hl; cbn [freerange_loop].
  - destruct (Z.leb_spec (p + PGSIZE) e) as [H|H].
    { rewrite (pages_count_S _ _ H) in En. lia. }
    exists s. rewrite pages_in_nil by done. done.
  - destruct (Z.leb_spec (p + PGSIZE) e) as [H|H].
    + rewrite (pages_count_S _ _ H) in En. injection En as En.
      destruct (kfree_ok c s l p) as (s1 & Hk & Hinv1 & He1 & _); auto.
      { split; [done|]. unfold PGSIZE in *. lia. }
      { intros Hin. apply Hl in Hin. lia. }
      destruct (IH s1 (p :: l) (p + PGSIZE)) as (s' & Hr & Hinv' & He'); auto.
      { unfold page_aligned, PGSIZE in *. rewrite <- Z.add_mod_idemp_l, Hal by lia. done. }
      { rewrite He1. unfold PGSIZE. lia. }
      { intros x [->|Hx]%elem_of_cons; [|apply Hl in Hx]; unfold PGSIZE; lia. }
      exists s'. split_and!; [by erewrite bind_ok by exact Hk| |congruence].
      rewrite pages_in_cons by done. cbn [rev]. by rewrite <- app_assoc.
    + exists s. rewrite pages_in_nil by done. done.
Qed.

Lemma lock_free_init lk nm c : lock_free lk (set_lock lk (mkSpinlock 0 nm None) c).
Proof. exists nm. unfold set_lock. simpl. by rewrite lookup_insert_eq. Qed.
End lemmas.

(** ** The properties *)

(** Allocation: the first free page is returned, filled with fives, and is no
    longer free; with no free page the null pointer is returned and nothing
    changes.  No other byte of memory is written. *)
Theorem kalloc_spec c s l :
  core_wf c -> lock_free LkKmem c -> kmem_inv s l ->
  exists s', kalloc c s = Ok (hd 0 l) c s' /\ kmem_inv s' (tl l) /\
    (l = [] -> s' = s) /\
    (forall a, l <> [] -> in_page (hd 0 l) a -> rd (km_mem s') a = 5) /\
    (forall a, ~ in_page (hd 0 l) a -> rd (km_mem s') a = rd (km_mem s) a).
Proof.
  intros Hc Hf Hinv. destruct l as [|x l].
  - exists s. rewrite kalloc_empty by done. split_and!; done.
  - destruct (kalloc_cons c s x l) as (s' & Hk & Hinv' & _ & _ & _ & H5 & Hfr); auto.
    exists s'. split_and!; auto. done.
Qed.

(** Boot: [kinit] makes exactly the whole pages between the end of the kernel
    and PHYSTOP available, each once. *)
Theorem kinit_spec c s :
  core_wf c -> 0 < km_end s <= PHYSTOP -> km_freelist s = 0 ->
  exists c' s', kinit c s = Ok tt c' s' /\ core_wf c' /\ lock_free LkKmem c' /\
    kmem_inv s' (rev (pages_in (PGROUNDUP (km_end s)) PHYSTOP)).
Proof.
  intros Hc He Hfl. set (c1 := set_lock LkKmem (mkSpinlock 0 "kmem" None) c).
  assert (PGROUNDUP (km_end s) >= km_end s) as Hup.
  { pose proof (PGROUNDUP_bounds (km_end s)). unfold PHYSTOP, KERNBASE, PGSIZE in *. lia. }
  destruct (freerange_loop_ok c1 s [] (PGROUNDUP (km_end s)) PHYSTOP) as (s' & Hr & Hinv & _).
  { done. } { apply lock_free_init. }
  { split_and!; [lia|done|constructor|done]. }
  { apply PGROUNDUP_aligned. } { lia. } { done. } { by intros x ?%not_elem_of_nil. }
  exists c1, s'. rewrite app_nil_r in Hinv. split_and!; [|done|apply lock_free_init|done].
  unfold kinit, initlock. mred. exact Hr.
Qed.

(** A client that allocates, and frees pages it owns ([KFree i] frees the
    [i]-th page it holds). *)
Inductive kop : Type := KAlloc | KFree (i : nat).

Fixpoint client (ops : list kop) (owned : list Z) : M kmem (list Z) :=
  match ops with
  | [] => mret owned
  | KAlloc :: ops =>
      x ← kalloc; client ops (if x =? 0 then owned else x :: owned)
  | KFree i :: ops =>
      match owned !! i with
      | None => client ops owned
      | Some pa => _ ← kfree pa; client ops (delete i owned)
      end
  end.

(** C23: Conservation: for every sequence of allocations and frees the allocator
    never panics, never hands out a page that is free or owned, and the pages
    owned and free together stay the same. *)
Theorem client_conserves ops c s owned l :
  core_wf c -> lock_free LkKmem c -> kmem_inv s l ->
  NoDup (owned ++ l) -> Forall (page_ok (km_end s)) owned ->
  exists owned' s' l', client ops owned c s = Ok owned' c s' /\ kmem_inv s' l' /\
    (owned' ++ l') ≡ₚ (owned ++ l).
Proof.
  intros Hc Hf. revert s owned l. induction ops as [|[|i] ops IH]; intros s owned l Hinv Hnd Hok.
  - exists owned, s, l. done.
  - cbn [client]. destruct l as [|x l].
    + erewrite bind_ok by (by apply kalloc_empty). apply IH; auto.
    + destruct (kalloc_cons c s x l) as (s1 & Hk & Hinv1 & He1 & Hx & _); auto.
      erewrite bind_ok by exact Hk.
      replace (x =? 0) with false
        by (symmetry; apply Z.eqb_neq; destruct Hinv as (? & _), Hx as [_ ?]; lia).
      assert ((x :: owned) ++ l ≡ₚ owned ++ x :: l) as Hp by apply Permutation_middle.
      destruct (IH s1 (x :: owned) l) as (o' & s' & l' & Hr & Hinv' & Hp'); auto.
      { by rewrite Hp. } { rewrite He1. by constructor. }
      exists o', s', l'. split_and!; auto. by rewrite Hp', Hp.
  - cbn [client]. destruct (owned !! i) as [pa|] eqn:E; [|by apply IH].
    apply delete_Permutation in E as Hp.
    assert (pa ∉ l) as Hnin.
    { intros Hin. apply NoDup_app in Hnd as (_ & Hd & _). apply (Hd pa); [|done].
      by eapply list_elem_of_lookup_2. }
    destruct (kfree_ok c s l pa) as (s1 & Hk & Hinv1 & He1 & _); auto.
    { by eapply (Forall_lookup_1 _ _ _ _ Hok E). }
    erewrite bind_ok by exact Hk.
    assert (delete i owned ++ pa :: l ≡ₚ owned ++ l) as Hp2.
    { rewrite Hp at 2. simpl. symmetry. apply Permutation_middle. }
    destruct (IH s1 (delete i owned) (pa :: l)) as (o' & s' & l' & Hr & Hinv' & Hp'); auto.
    { by rewrite Hp2. } { rewrite He1. by apply Forall_delete. }
    exists o', s', l'. split_and!; auto. by rewrite Hp'.
Qed.
