(* ===== verification/Vm.v ===== *)
(** * Virtual memory: kernel/vm.c

    Page tables live in physical memory as the hardware sees them: 512
    little-endian 64-bit entries per page.  The functions below are the ones
    of vm.c on the state of the page allocator (which holds that memory).
    Kernel objects that are not in allocated pages (C locals, the initcode
    array) are passed as byte lists; [copyin] and [copyinstr] return the bytes
    they store.  The proofs are in VmTree.v and VmUser.v. *)

From Stdlib Require Import ZArith Lia.
From stdpp Require Import base gmap list numbers strings.
From S2P Require Import Prelude Riscv Core Spinlock Kstring Kalloc.
Local Open Scope Z_scope.

(** [*pte] for a [pte_t *]. *)
Definition rdpte (pte : Z) : M kmem Z := gets (fun s => load64 (km_mem s) pte).
Definition wrpte (pte v : Z) : M kmem unit := modify (upd_mem (fun m => store64 m pte v)).

Definition pte_has (v flag : Z) : bool := negb (Z.land v flag =? 0).

(** ** Walking *)

(** The loop [for(level = 2; level > 0; level--)] of [walk], from [level] on. *)
Fixpoint walk_loop (pagetable va : Z) (alloc : bool) (level : nat) : M kmem Z :=
  match level with
  | O => mret (pagetable + 8 * PX 0 va)
  | S level' =>
      let pte := pagetable + 8 * PX (Z.of_nat level) va in
      v ← rdpte pte;
      if pte_has v PTE_V then walk_loop (PTE2PA v) va alloc level'
      else if negb alloc then mret 0
      else
        p ← kalloc;
        if p =? 0 then mret 0 else
        _ ← modify (upd_mem (fun m => memset m p 0 PGSIZE));
        _ ← wrpte pte (Z.lor (PA2PTE p) PTE_V);
        walk_loop p va alloc level'
  end.

Definition walk (pagetable va : Z) (alloc : bool) : M kmem Z :=
  if va >=? MAXVA then panic "walk" else walk_loop pagetable va alloc 2.

Definition walkaddr (pagetable va : Z) : M kmem Z :=
  if va >=? MAXVA then mret 0 else
  pte ← walk pagetable va false;
  if pte =? 0 then mret 0 else
  v ← rdpte pte;
  if negb (pte_has v PTE_V) then mret 0 else
  if negb (pte_has v PTE_U) then mret 0 else
  mret (PTE2PA v).

(** ** Mapping and unmapping *)

Fixpoint mappages_loop (pagetable a last pa perm : Z) (fuel : nat) : M kmem Z :=
  match fuel with
  | O => nofuel
  | S fuel =>
      pte ← walk pagetable a true;
      if pte =? 0 then mret (-1) else
      v ← rdpte pte;
      if pte_has v PTE_V then panic "mappages: remap" else
      _ ← wrpte pte (Z.lor (Z.lor (PA2PTE pa) perm) PTE_V);
      if a =? last then mret 0
      else mappages_loop pagetable (u64 (a + PGSIZE)) last (u64 (pa + PGSIZE)) perm fuel
  end.

(** When the range wraps around ([last < a]) the loop runs until [walk]
    panics at MAXVA; the bound covers both cases. *)
Definition mappages (pagetable va size pa perm : Z) : M kmem Z :=
  if size =? 0 then panic "mappages: size" else
  let a := PGROUNDDOWN va in
  let last := PGROUNDDOWN (u64 (va + size - 1)) in
  mappages_loop pagetable a last pa perm
    (Z.to_nat ((if a <=? last then (last - a) / PGSIZE else (MAXVA - a) / PGSIZE) + 1)).

Definition kvmmap (kpgtbl va pa sz perm : Z) : M kmem unit :=
  r ← mappages kpgtbl va sz pa perm;
  if negb (r =? 0) then panic "kvmmap" else mret tt.

Fixpoint uvmunmap_loop (pagetable a top : Z) (do_free : bool) (fuel : nat) : M kmem unit :=
  if a <? top then
    match fuel with
    | O => nofuel
    | S fuel =>
        pte ← walk pagetable a false;
        if pte =? 0 then panic "uvmunmap: walk" else
        v ← rdpte pte;
        if negb (pte_has v PTE_V) then panic "uvmunmap: not mapped" else
        if PTE_FLAGS v =? PTE_V then panic "uvmunmap: not a leaf" else
        _ ← when do_free (kfree (PTE2PA v));
        _ ← wrpte pte 0;
        uvmunmap_loop pagetable (u64 (a + PGSIZE)) top do_free fuel
    end
  else mret tt.

Definition uvmunmap (pagetable va npages : Z) (do_free : bool) : M kmem unit :=
  if negb (va mod PGSIZE =? 0) then panic "uvmunmap: not aligned" else
  uvmunmap_loop pagetable va (u64 (va + npages * PGSIZE)) do_free (Z.to_nat npages).

(** ** User address spaces *)

Definition uvmcreate : M kmem Z :=
  pagetable ← kalloc;
  if pagetable =? 0 then mret 0 else
  _ ← modify (upd_mem (fun m => memset m pagetable 0 PGSIZE));
  mret pagetable.

(** [src] is the array of the caller, [sz] its length. *)
Definition uvminit (pagetable : Z) (src : list Z) (sz : Z) : M kmem unit :=
  if sz >=? PGSIZE then panic "inituvm: more than a page" else
  mem ← kalloc;
  _ ← modify (upd_mem (fun m => memset m mem 0 PGSIZE));
  _ ← mappages pagetable 0 PGSIZE mem (Z.lor (Z.lor (Z.lor PTE_W PTE_R) PTE_X) PTE_U);
  modify (upd_mem (fun m => wrl m mem (take (Z.to_nat sz) src))).

Definition uvmdealloc (pagetable oldsz newsz : Z) : M kmem Z :=
  if newsz >=? oldsz then mret oldsz else
  _ ← when (PGROUNDUP newsz <? PGROUNDUP oldsz)
        (let npages := s32 ((PGROUNDUP oldsz - PGROUNDUP newsz) / PGSIZE) in
         uvmunmap pagetable (PGROUNDUP newsz) (u64 npages) true);
  mret newsz.

Fixpoint uvmalloc_loop (pagetable a oldsz newsz : Z) (fuel : nat) : M kmem Z :=
  if a <? newsz then
    match fuel with
    | O => nofuel
    | S fuel =>
        mem ← kalloc;
        if mem =? 0 then
          _ ← uvmdealloc pagetable a oldsz;
          mret 0
        else
          _ ← modify (upd_mem (fun m => memset m mem 0 PGSIZE));
          r ← mappages pagetable a PGSIZE mem (Z.lor (Z.lor (Z.lor PTE_W PTE_X) PTE_R) PTE_U);
          if negb (r =? 0) then
            _ ← kfree mem;
            _ ← uvmdealloc pagetable a oldsz;
            mret 0
          else uvmalloc_loop pagetable (u64 (a + PGSIZE)) oldsz newsz fuel
    end
  else mret newsz.

Definition uvmalloc (pagetable oldsz newsz : Z) : M kmem Z :=
  if newsz <? oldsz then mret oldsz else
  let oldsz := PGROUNDUP oldsz in
  uvmalloc_loop pagetable oldsz oldsz newsz (Z.to_nat ((newsz - oldsz) / PGSIZE + 1)).

(** The recursion depth of [freewalk] is bounded by the levels of a page table. *)
Fixpoint freewalk (depth : nat) (pagetable : Z) : M kmem unit :=
  match depth with
  | O => nofuel
  | S depth =>
      _ ← forM (seqZ 0 512) (fun i =>
            pte ← rdpte (pagetable + 8 * i);
            if pte_has pte PTE_V && (Z.land pte (Z.lor (Z.lor PTE_R PTE_W) PTE_X) =? 0) then
              (* this PTE points to a lower-level page table. *)
              let child := PTE2PA pte in
              _ ← freewalk depth child;
              wrpte (pagetable + 8 * i) 0
            else if pte_has pte PTE_V then panic "freewalk: leaf"
            else mret tt);
      kfree pagetable
  end.

Definition uvmfree (pagetable sz : Z) : M kmem unit :=
  _ ← when (sz >? 0) (uvmunmap pagetable 0 (PGROUNDUP sz / PGSIZE) true);
  freewalk 3 pagetable.

(** [inl i] is the jump to [err] with the loop variable [i]. *)
Fixpoint uvmcopy_loop (old new i sz : Z) (fuel : nat) : M kmem (Z + unit) :=
  if i <? sz then
    match fuel with
    | O => nofuel
    | S fuel =>
        pte ← walk old i false;
        if pte =? 0 then panic "uvmcopy: pte should exist" else
        v ← rdpte pte;
        if negb (pte_has v PTE_V) then panic "uvmcopy: page not present" else
        let pa := PTE2PA v in
        let flags := PTE_FLAGS v in
        mem ← kalloc;
        if mem =? 0 then mret (inl i) else
        _ ← modify (upd_mem (fun m => memmove m mem pa PGSIZE));
        r ← mappages new i PGSIZE mem flags;
        if negb (r =? 0) then
          _ ← kfree mem;
          mret (inl i)
        else uvmcopy_loop old new (u64 (i + PGSIZE)) sz fuel
    end
  else mret (inr tt).

Definition uvmcopy (old new sz : Z) : M kmem Z :=
  r ← uvmcopy_loop old new 0 sz (Z.to_nat (sz / PGSIZE + 1));
  match r with
  | inr _ => mret 0
  | inl i => _ ← uvmunmap new 0 (i / PGSIZE) true; mret (-1)
  end.

Definition uvmclear (pagetable va : Z) : M kmem unit :=
  pte ← walk pagetable va false;
  if pte =? 0 then panic "uvmclear" else
  v ← rdpte pte;
  wrpte pte (Z.land v (Z.lnot PTE_U)).

(** ** Copying between kernel and user space

    The fuel of these loops is the number of bytes: every iteration handles
    at least one. *)

Fixpoint copyout_loop (pagetable dstva : Z) (src : list Z) (len : Z) (fuel : nat) : M kmem Z :=
  if len >? 0 then
    match fuel with
    | O => nofuel
    | S fuel =>
        let va0 := PGROUNDDOWN dstva in
        pa0 ← walkaddr pagetable va0;
        if pa0 =? 0 then mret (-1) else
        let n := PGSIZE - (dstva - va0) in
        let n := if n >? len then len else n in
        _ ← modify (upd_mem (fun m => wrl m (pa0 + (dstva - va0)) (take (Z.to_nat n) src)));
        copyout_loop pagetable (u64 (va0 + PGSIZE)) (drop (Z.to_nat n) src) (len - n) fuel
    end
  else mret 0.

Definition copyout (pagetable dstva : Z) (src : list Z) (len : Z) : M kmem Z :=
  copyout_loop pagetable dstva src len (Z.to_nat len).

(** The value is the return value and the bytes stored at [dst] by then. *)
Fixpoint copyin_loop (pagetable srcva len : Z) (acc : list Z) (fuel : nat) : M kmem (Z * list Z) :=
  if len >? 0 then
    match fuel with
    | O => nofuel
    | S fuel =>
        let va0 := PGROUNDDOWN srcva in
        pa0 ← walkaddr pagetable va0;
        if pa0 =? 0 then mret (-1, acc) else
        let n := PGSIZE - (srcva - va0) in
        let n := if n >? len then len else n in
        bs ← gets (fun s => rdn (km_mem s) (pa0 + (srcva - va0)) (Z.to_nat n));
        copyin_loop pagetable (u64 (va0 + PGSIZE)) (len - n) (acc ++ bs) fuel
    end
  else mret (0, acc).

Definition copyin (pagetable srcva len : Z) : M kmem (Z * list Z) :=
  copyin_loop pagetable srcva len [] (Z.to_nat len).

(** The inner loop of [copyinstr]: copy from [p] until a NUL or [n] bytes.
    Returns the bytes stored and whether a NUL was met (and stored). *)
Fixpoint copyinstr_page (m : memory) (p : Z) (n : nat) : list Z * bool :=
  match n with
  | O => ([], false)
  | S n =>
      if rd m p =? 0 then ([0], true)
      else let '(l, b) := copyinstr_page m (p + 1) n in (rd m p :: l, b)
  end.

Fixpoint copyinstr_loop (pagetable srcva max : Z) (acc : list Z) (fuel : nat) : M kmem (option (list Z)) :=
  if max >? 0 then
    match fuel with
    | O => nofuel
    | S fuel =>
        let va0 := PGROUNDDOWN srcva in
        pa0 ← walkaddr pagetable va0;
        if pa0 =? 0 then mret None else
        let n := PGSIZE - (srcva - va0) in
        let n := if n >? max then max else n in
        r ← gets (fun s => copyinstr_page (km_mem s) (pa0 + (srcva - va0)) (Z.to_nat n));
        let '(l, got_null) := r in
        if (got_null : bool) then mret (Some (acc ++ l))
        else copyinstr_loop pagetable (u64 (va0 + PGSIZE)) (max - n) (acc ++ l) fuel
    end
  else mret None.

Definition copyinstr (pagetable srcva max : Z) : M kmem (option (list Z)) :=
  copyinstr_loop pagetable srcva max [] (Z.to_nat max).
