(* ===== verification/VmTree.v ===== *)
(** * Page-table trees: correctness of walk, mappages and uvmunmap

    A page table in memory is related to a ghost tree: a finite map from
    paths of indices (root [[]], level-1 tables [[i2]], level-0 tables
    [[i2; i1]]) to the physical pages that hold the tables.  [tree_wf] says
    that memory contains exactly this tree and that its pages are distinct;
    [pt_get] reads the leaf entry of a virtual address through the tree.  The
    functions of vm.c are specified by their effect on [pt_get]. *)

From Stdlib Require Import ZArith Lia.
From stdpp Require Import base gmap list numbers strings.
From S2P Require Import Prelude Riscv Core Spinlock Kstring Kalloc Vm.
Local Open Scope Z_scope.

Abbreviation tree := (gmap (list Z) Z).

Definition pte_at (m : memory) (t i : Z) : Z := load64 m (t + 8 * i).

Definition vpath (va : Z) : list Z := [PX 2 va; PX 1 va].

Record tree_wf (e root : Z) (m : memory) (T : tree) : Prop := mkTreeWf {
  tw_root : T !! [] = Some root;
  tw_page : forall p t, T !! p = Some t -> page_ok e t;
  tw_inj : forall p q t, T !! p = Some t -> T !! q = Some t -> p = q;
  tw_prefix : forall p i t, T !! (p ++ [i]) = Some t -> is_Some (T !! p) /\ 0 <= i < 512;
  tw_len : forall p t, T !! p = Some t -> (length p <= 2)%nat;
  tw_node : forall p t i, T !! p = Some t -> (length p < 2)%nat -> 0 <= i < 512 ->
    match T !! (p ++ [i]) with
    | Some q => pte_at m t i = Z.lor (PA2PTE q) PTE_V
    | None => pte_has (pte_at m t i) PTE_V = false
    end
}.

(** The leaf entry of [va], if it is valid. *)
Definition pt_get (m : memory) (T : tree) (va : Z) : option Z :=
  match T !! vpath va with
  | Some q => if pte_has (pte_at m q (PX 0 va)) PTE_V then Some (pte_at m q (PX 0 va)) else None
  | None => None
  end.

Definition vm_inv (s : kmem) (l : list Z) (T : tree) (root : Z) : Prop :=
  kmem_inv s l /\ tree_wf (km_end s) root (km_mem s) T /\ (forall p t, T !! p = Some t -> t ∉ l).

(** Bytes that belong neither to the page table nor to a free page. *)
Definition outside (T : tree) (l : list Z) (a : Z) : Prop :=
  (forall p t, T !! p = Some t -> ~ in_page t a) /\ (forall x, x ∈ l -> ~ in_page x a).

#[global] Arguments pte_at : simpl never.
#[global] Arguments pte_has : simpl never.
#[global] Arguments pt_get : simpl never.
#[global] Arguments vpath : simpl never.

Section entries.
Implicit Types (m : memory) (v : Z).

Lemma pte_has_lor a b f : pte_has (Z.lor a b) f = pte_has a f || pte_has b f.
Proof.
  unfold pte_has. rewrite Z.land_lor_distr_l.
  destruct (Z.eqb_spec (Z.land a f) 0) as [E|E], (Z.eqb_spec (Z.land b f) 0) as [E'|E']; simpl.
  - by rewrite E, E'.
  - rewrite E, Z.lor_0_l. by apply Z.eqb_neq in E' as ->.
  - rewrite E', Z.lor_0_r. by apply Z.eqb_neq in E as ->.
  - apply negb_true_iff, Z.eqb_neq. by intros [? ?]%Z.lor_eq_0_iff.
Qed.

Lemma pte_has_0 f : pte_has 0 f = false.
Proof. unfold pte_has. by rewrite Z.land_0_l. Qed.

Lemma page_ok_pte e q : 0 <= e -> page_ok e q -> 0 <= q < 2 ^ 54 /\ page_aligned q.
Proof. unfold page_ok, PHYSTOP, KERNBASE. intros ? [? ?]. split; [lia|done]. Qed.

Lemma ptr_decode e q : 0 <= e -> page_ok e q -> PTE2PA (Z.lor (PA2PTE q) PTE_V) = q.
Proof.
  intros He Hq. destruct (page_ok_pte e q He Hq) as [H1 H2].
  by destruct (pte_encode_decode q PTE_V H1 H2 ltac:(done)).
Qed.

Lemma lor_range a b : 0 <= a < 2 ^ 64 -> 0 <= b < 2 ^ 64 -> 0 <= Z.lor a b < 2 ^ 64.
Proof.
  intros Ha Hb. split; [apply Z.lor_nonneg; lia|].
  destruct (decide (Z.lor a b = 0)) as [->|Hz]; [done|].
  assert (0 <= Z.lor a b) by (apply Z.lor_nonneg; lia).
  apply Z.log2_lt_pow2; [lia|]. rewrite Z.log2_lor by lia.
  apply Z.max_lub_lt.
  - destruct (decide (a = 0)) as [->|]; [done|]. apply Z.log2_lt_pow2; lia.
  - destruct (decide (b = 0)) as [->|]; [done|]. apply Z.log2_lt_pow2; lia.
Qed.

Lemma PA2PTE_range pa : 0 <= PA2PTE pa < 2 ^ 64.
Proof. apply u64_range. Qed.

Lemma ptr_range q : 0 <= Z.lor (PA2PTE q) PTE_V < 2 ^ 64.
Proof. apply lor_range; [apply PA2PTE_range|done]. Qed.

(** Distinct slots do not overlap. *)
Lemma pte_at_store m x i v t j :
  page_aligned x -> page_aligned t -> 0 <= i < 512 -> 0 <= j < 512 ->
  pte_at (store64 m (x + 8 * i) v) t j = if (x =? t) && (i =? j) then u64 v else pte_at m t j.
Proof.
  intros Hx Ht Hi Hj. unfold pte_at.
  destruct (Z.eqb_spec x t) as [->|Hxt]; simpl.
  - destruct (Z.eqb_spec i j) as [->|Hij]; [apply load64_store64|]. apply load64_store64_ne. lia.
  - apply load64_store64_ne. unfold page_aligned, PGSIZE in *.
    pose proof (Z.div_mod x 4096). pose proof (Z.div_mod t 4096). lia.
Qed.

Lemma pte_at_ext m m' t i :
  (forall a, in_page t a -> rd m' a = rd m a) -> 0 <= i < 512 -> pte_at m' t i = pte_at m t i.
Proof. intros H Hi. apply load64_ext. intros b Hb. apply H. unfold in_page, PGSIZE. lia. Qed.

Lemma pte_at_zero m t i :
  (forall a, in_page t a -> rd m a = 0) -> 0 <= i < 512 -> pte_at m t i = 0.
Proof. intros H Hi. apply load64_zero. intros b Hb. apply H. unfold in_page, PGSIZE. lia. Qed.

Lemma rd_store_slot m x i v a :
  0 <= i < 512 -> ~ in_page x a -> rd (store64 m (x + 8 * i) v) a = rd m a.
Proof. intros Hi Ha. apply rd_store64. unfold in_page, PGSIZE in Ha. lia. Qed.
End entries.

Lemma kmem_inv_ext s m l :
  kmem_inv s l -> (forall x a, x ∈ l -> in_page x a -> rd m a = rd (km_mem s) a) ->
  kmem_inv (set_mem m s) l.
Proof.
  intros (He & Hch & Hnd & Hok) H. split_and!; simpl; auto. eapply chain_ext; [|exact Hch]. done.
Qed.

Section tree.
Context (root : Z).
Implicit Types (s : kmem) (l : list Z) (T : tree) (m : memory).

Lemma tree_distinct e m T p t a :
  tree_wf e root m T -> T !! p = Some t -> forall x, page_ok e x -> x <> t ->
  in_page x a -> ~ in_page t a.
Proof.
  intros Hw Hp x [Hx _] Hne Ha Ha'. destruct (tw_page _ _ _ _ Hw _ _ Hp) as [Ht _].
  eapply (page_disjoint x t a); eauto.
Qed.

(** Memory outside the tree's pages is irrelevant to it. *)
Lemma tree_wf_ext e m m' T :
  tree_wf e root m T -> (forall p t a, T !! p = Some t -> in_page t a -> rd m' a = rd m a) ->
  tree_wf e root m' T.
Proof.
  intros Hw H. destruct Hw as [H1 H2 H3 H4 H5 H6]. split; auto.
  intros p t i Hp Hl Hi. rewrite (pte_at_ext m m'); eauto. by apply H6.
Qed.

Lemma pt_get_ext m m' T va :
  (forall p t a, T !! p = Some t -> in_page t a -> rd m' a = rd m a) -> pt_get m' T va = pt_get m T va.
Proof.
  intros H. unfold pt_get. destruct (T !! vpath va) as [q|] eqn:E; [|done].
  rewrite (pte_at_ext m m'); eauto. apply PX_range. lia.
Qed.

(** A new, empty table below an invalid entry: the tree grows, no address
    becomes mapped. *)
Lemma grow e m m' T p t i x :
  0 <= e -> tree_wf e root m T -> T !! p = Some t -> (length p < 2)%nat -> 0 <= i < 512 ->
  T !! (p ++ [i]) = None -> page_ok e x -> (forall q u, T !! q = Some u -> u <> x) ->
  (forall a, in_page x a -> rd m' a = 0) ->
  (forall q u a, T !! q = Some u -> in_page u a -> rd m' a = rd m a) ->
  let m2 := store64 m' (t + 8 * i) (Z.lor (PA2PTE x) PTE_V) in
  tree_wf e root m2 (<[p ++ [i] := x]> T) /\
  (forall va, pt_get m2 (<[p ++ [i] := x]> T) va = pt_get m T va).
Proof.
  intros He Hw Hp Hl Hi Hn Hx Hfresh H0 Hfr m2.
  assert (page_aligned t) as Ht by by apply (tw_page _ _ _ _ Hw _ _ Hp).
  assert (page_aligned x) as Hxa by apply Hx.
  assert (forall q u j, T !! q = Some u -> 0 <= j < 512 ->
            pte_at m2 u j = if (t =? u) && (i =? j) then Z.lor (PA2PTE x) PTE_V else pte_at m u j) as Hold.
  { intros q u j Hq Hj. unfold m2. rewrite pte_at_store; auto;
      [|by apply (tw_page _ _ _ _ Hw _ _ Hq)].
    rewrite u64_small by apply ptr_range. case_match; [done|]. apply pte_at_ext; eauto. }
  assert (forall j, 0 <= j < 512 -> pte_at m2 x j = 0) as Hnew.
  { intros j Hj. unfold m2. rewrite pte_at_store; auto.
    replace (t =? x) with false by (symmetry; apply Z.eqb_neq; eauto). by apply pte_at_zero. }
  assert (forall j u, T !! ((p ++ [i]) ++ [j]) = Some u -> False) as Hnochild.
  { intros j u Hu. apply (tw_prefix _ _ _ _ Hw) in Hu as [[? Hu] _]. congruence. }
  split.
  - split.
    + rewrite lookup_insert_ne; [by apply (tw_root _ _ _ _ Hw)|]. by destruct p.
    + intros q u. rewrite lookup_insert. case_decide; intros; simplify_eq; [done|].
      by eapply (tw_page _ _ _ _ Hw).
    + intros q1 q2 u. rewrite !lookup_insert. repeat case_decide; intros; simplify_eq; auto.
      * exfalso. eapply Hfresh; eauto.
      * exfalso. eapply Hfresh; eauto.
      * by eapply (tw_inj _ _ _ _ Hw).
    + intros q j u. rewrite lookup_insert. case_decide as E; intros Hu.
      * apply app_inj_tail in E as [-> ->]. split; [|done]. rewrite lookup_insert_ne; [by eexists|].
        intros E. apply (f_equal length) in E. rewrite length_app in E. simpl in E. lia.
      * destruct (tw_prefix _ _ _ _ Hw _ _ _ Hu) as [[w Hw'] Hj]. split; [|done].
        rewrite lookup_insert. case_decide; eauto.
    + intros q u. rewrite lookup_insert. case_decide; intros; simplify_eq.
      * rewrite length_app. simpl. lia.
      * by eapply (tw_len _ _ _ _ Hw).
    + intros q u j. rewrite lookup_insert. case_decide as E; intros Hq Hlq Hj; simplify_eq.
      * rewrite lookup_insert_ne.
        2:{ intros E. apply (f_equal length) in E. rewrite !length_app in E. simpl in E. lia. }
        destruct (T !! ((p ++ [i]) ++ [j])) as [w|] eqn:Ec; [by apply Hnochild in Ec|].
        rewrite Hnew by done. apply pte_has_0.
      * rewrite (Hold q u j Hq Hj). rewrite lookup_insert.
        destruct (Z.eqb_spec t u) as [->|Htu]; simpl.
        -- assert (q = p) as -> by by eapply (tw_inj _ _ _ _ Hw).
           destruct (Z.eqb_spec i j) as [->|Hij]; simpl.
           ++ by rewrite decide_True.
           ++ rewrite decide_False; [by apply (tw_node _ _ _ _ Hw)|].
              by intros [_ ?]%app_inj_tail.
        -- rewrite decide_False; [by apply (tw_node _ _ _ _ Hw)|].
           intros [-> _]%app_inj_tail. congruence.
  - intros va. unfold pt_get. rewrite lookup_insert. case_decide as E.
    + rewrite E in Hn. rewrite Hn, Hnew by (apply PX_range; lia). by rewrite pte_has_0.
    + destruct (T !! vpath va) as [q|] eqn:Eq; [|done].
      rewrite (Hold _ _ _ Eq) by (apply PX_range; lia).
      destruct (Z.eqb_spec t q) as [->|]; [|done]. exfalso.
      assert (vpath va = p) as <- by by eapply (tw_inj _ _ _ _ Hw). simpl in Hl. lia.
Qed.

(** Storing a leaf entry changes the entry of that address and nothing else. *)
Lemma leaf_store e m T q va v :
  tree_wf e root m T -> T !! vpath va = Some q -> 0 <= v < 2 ^ 64 ->
  let m2 := store64 m (q + 8 * PX 0 va) v in
  tree_wf e root m2 T /\
  pt_get m2 T va = (if pte_has v PTE_V then Some v else None) /\
  (forall va', vpath va' <> vpath va \/ PX 0 va' <> PX 0 va -> pt_get m2 T va' = pt_get m T va').
Proof.
  intros Hw Hq Hv m2.
  assert (0 <= PX 0 va < 512) as Hi by (apply PX_range; lia).
  assert (page_aligned q) as Hqa by by apply (tw_page _ _ _ _ Hw _ _ Hq).
  assert (forall p u j, T !! p = Some u -> 0 <= j < 512 ->
            pte_at m2 u j = if (q =? u) && (PX 0 va =? j) then v else pte_at m u j) as Hold.
  { intros p u j Hp Hj. unfold m2. rewrite pte_at_store, (u64_small v); auto.
    by apply (tw_page _ _ _ _ Hw _ _ Hp). }
  split_and!.
  - destruct Hw as [H1 H2 H3 H4 H5 H6]. split; auto. intros p t i Hp Hl Hi'.
    rewrite (Hold p t i) by done. destruct (Z.eqb_spec q t) as [->|]; simpl; [|by apply H6].
    assert (p = vpath va) as -> by eauto. simpl in Hl. lia.
  - unfold pt_get. rewrite Hq, (Hold _ _ _ Hq Hi). by rewrite !Z.eqb_refl.
  - intros va' Hne. unfold pt_get. destruct (T !! vpath va') as [q'|] eqn:E; [|done].
    rewrite (Hold _ _ _ E) by (apply PX_range; lia).
    destruct (Z.eqb_spec q q') as [->|]; simpl; [|done].
    assert (vpath va = vpath va') by by eapply (tw_inj _ _ _ _ Hw).
    destruct (Z.eqb_spec (PX 0 va) (PX 0 va')) as [E'|]; [|done]. destruct Hne; congruence.
Qed.
End tree.

(** ** [walk] *)

(** The indices [walk] still has to follow at [level]. *)
Fixpoint todo (va : Z) (level : nat) : list Z :=
  match level with O => [] | S n => PX (Z.of_nat level) va :: todo va n end.

(** What every operation that adds table pages preserves: the tree only
    grows, with pages from the free list, and no byte outside the table and
    the free pages is written. *)
Record vm_ext (root : Z) (s s' : kmem) (l l' : list Z) (T T' : tree) : Prop := mkVmExt {
  ve_inv : vm_inv s' l' T' root;
  ve_end : km_end s' = km_end s;
  ve_sub : T ⊆ T';
  ve_free : forall x, x ∈ l' -> x ∈ l;
  ve_new : forall p x, T' !! p = Some x -> T !! p = Some x \/ x ∈ l;
  ve_frame : forall a, outside T l a -> rd (km_mem s') a = rd (km_mem s) a
}.

(** Adding empty tables for a walk changes no mapping. *)
Record grown (root : Z) (s s' : kmem) (l l' : list Z) (T T' : tree) : Prop := mkGrown {
  gr_ext : vm_ext root s s' l l' T T';
  gr_get : forall va, pt_get (km_mem s') T' va = pt_get (km_mem s) T va
}.

Lemma vm_ext_refl root s l T : vm_inv s l T root -> vm_ext root s s l l T T.
Proof. intros H. split; auto. Qed.

Lemma outside_ext root s s' l l' T T' a :
  vm_ext root s s' l l' T T' -> outside T l a -> outside T' l' a.
Proof.
  intros [Hi He Hs Hf Hn Hr] [Ha1 Ha2]. split.
  - intros p t Ht. apply Hn in Ht as [Ht|Ht]; eauto.
  - intros x Hx. apply Ha2. set_solver.
Qed.

Lemma vm_ext_trans root s1 s2 s3 l1 l2 l3 T1 T2 T3 :
  vm_ext root s1 s2 l1 l2 T1 T2 -> vm_ext root s2 s3 l2 l3 T2 T3 -> vm_ext root s1 s3 l1 l3 T1 T3.
Proof.
  intros H1 H2. pose proof (fun a => outside_ext _ _ _ _ _ _ _ a H1) as Ho.
  destruct H1 as [Hi1 He1 Hs1 Hf1 Hn1 Hr1], H2 as [Hi2 He2 Hs2 Hf2 Hn2 Hr2]. subst. split; auto.
  - congruence.
  - by etrans.
  - intros p x Hx. apply Hn2 in Hx as [Hx|Hx]; [by apply Hn1|]. right. set_solver.
  - intros a Ha. rewrite Hr2; eauto.
Qed.

Lemma grown_refl root s l T : vm_inv s l T root -> grown root s s l l T T.
Proof. intros H. split; [by apply vm_ext_refl|done]. Qed.

Lemma grown_trans root s1 s2 s3 l1 l2 l3 T1 T2 T3 :
  grown root s1 s2 l1 l2 T1 T2 -> grown root s2 s3 l2 l3 T2 T3 -> grown root s1 s3 l1 l3 T1 T3.
Proof.
  intros [H1 G1] [H2 G2]. split; [by eapply vm_ext_trans|]. intros va. by rewrite G2, G1.
Qed.

Section walk.
Context (root : Z) (c : core).
Hypothesis Hc : core_wf c.
Hypothesis Hlk : lock_free LkKmem c.
Implicit Types (s : kmem) (l : list Z) (T : tree).

Lemma vm_inv_end s l T : vm_inv s l T root -> 0 <= km_end s.
Proof. intros ((? & _) & _). lia. Qed.

(** Following a valid interior entry. *)
Lemma node_valid s l T p t i q :
  vm_inv s l T root -> T !! p = Some t -> (length p < 2)%nat -> 0 <= i < 512 ->
  T !! (p ++ [i]) = Some q ->
  pte_has (pte_at (km_mem s) t i) PTE_V = true /\ PTE2PA (pte_at (km_mem s) t i) = q.
Proof.
  intros Hinv Hp Hl Hi Hq. pose proof (vm_inv_end _ _ _ Hinv) as He. destruct Hinv as (_ & Hw & _).
  pose proof (tw_node _ _ _ _ Hw _ _ _ Hp Hl Hi) as Hn. rewrite Hq in Hn. rewrite Hn. split.
  - rewrite pte_has_lor. apply orb_true_r.
  - eapply ptr_decode; [exact He|]. by eapply (tw_page _ _ _ _ Hw).
Qed.

Lemma node_invalid s l T p t i :
  vm_inv s l T root -> T !! p = Some t -> (length p < 2)%nat -> 0 <= i < 512 ->
  T !! (p ++ [i]) = None -> pte_has (pte_at (km_mem s) t i) PTE_V = false.
Proof.
  intros (_ & Hw & _) Hp Hl Hi Hq. pose proof (tw_node _ _ _ _ Hw _ _ _ Hp Hl Hi) as Hn.
  by rewrite Hq in Hn.
Qed.

(** One allocation step of [walk]. *)
Lemma walk_grow s x l T p t i :
  vm_inv s (x :: l) T root -> T !! p = Some t -> (length p < 2)%nat -> 0 <= i < 512 ->
  T !! (p ++ [i]) = None ->
  exists s1, kalloc c s = Ok x c s1 /\ x <> 0 /\
    grown root s (upd_mem (fun m => store64 m (t + 8 * i) (Z.lor (PA2PTE x) PTE_V))
                    (upd_mem (fun m => memset m x 0 PGSIZE) s1)) (x :: l) l T (<[p ++ [i] := x]> T).
Proof.
  intros Hinv Hp Hl Hi Hn. pose proof (vm_inv_end _ _ _ Hinv) as He. destruct Hinv as (Hk & Hw & Hd).
  destruct (kalloc_cons c s x l Hc Hlk Hk) as (s1 & Hka & Hk1 & He1 & Hx & Hxl & _ & Hfr).
  assert (forall q u, T !! q = Some u -> u <> x) as Hfresh.
  { intros q u Hu ->. apply (Hd _ _ Hu). by left. }
  assert (forall q u a, T !! q = Some u -> in_page u a -> ~ in_page x a) as Hdis.
  { intros q u a Hu Ha Ha'. eapply (page_disjoint x u a); eauto.
    - apply Hx. - by apply (tw_page _ _ _ _ Hw _ _ Hu). - by eapply not_eq_sym, Hfresh. }
  set (m1 := memset (km_mem s1) x 0 PGSIZE).
  assert (forall a, ~ in_page x a -> rd m1 a = rd (km_mem s) a) as Hm1.
  { intros a Ha. unfold m1. rewrite rd_memset_out by done. by apply Hfr. }
  destruct (grow root (km_end s) (km_mem s) m1 T p t i x) as [Hw' Hg']; auto.
  { intros a Ha. by apply rd_memset_in. }
  { intros q u a Hu Ha. apply Hm1. eauto. }
  exists s1. split_and!; [done|destruct Hx, Hk; lia|]. split; [|done]. split; [|done| | | |].
  - split_and!; simpl.
    + assert (kmem_inv (set_mem m1 s1) l) as Hk2.
      { apply kmem_inv_ext; [done|]. intros y a Hy Ha. apply rd_memset_out. intros Ha'.
        destruct Hk1 as (_ & _ & _ & Hok). eapply Forall_forall in Hok; [|exact Hy].
        eapply (page_disjoint x y a); [apply Hx|apply Hok|congruence|done|done]. }
      apply (kmem_inv_ext (set_mem m1 s1)); [done|]. intros y a Hy Ha. simpl. apply rd_store_slot; [done|].
      intros Ha'. destruct Hk1 as (_ & _ & _ & Hok). eapply Forall_forall in Hok; [|exact Hy].
      eapply (page_disjoint t y a); [by apply (tw_page _ _ _ _ Hw _ _ Hp)|apply Hok| |done|done].
      intros ->. apply (Hd _ _ Hp). by right.
    + rewrite He1. done.
    + intros q u. rewrite lookup_insert. case_decide; intros; simplify_eq; [done|].
      intros Hu. eapply Hd; [done|]. by right.
  - by apply insert_subseteq.
  - intros y Hy. by right.
  - intros q u. rewrite lookup_insert. case_decide; intros; simplify_eq; [|by left]. right. by left.
  - intros a [Ha1 Ha2]. simpl. rewrite rd_store_slot by eauto. apply Hm1, Ha2. by left.
Qed.

Lemma path_missing e m T p q : tree_wf e root m T -> T !! p = None -> T !! (p ++ q) = None.
Proof.
  intros Hw Hp. induction q as [|j q IH] using rev_ind; [by rewrite app_nil_r|].
  rewrite app_assoc. destruct (T !! ((p ++ q) ++ [j])) as [u|] eqn:Eu; [|done].
  apply (tw_prefix _ _ _ _ Hw) in Eu as [[? ?] _]. congruence.
Qed.

Lemma walk_loop_alloc va level s l T p t :
  vm_inv s l T root -> T !! p = Some t -> p ++ todo va level = vpath va -> (level <= 2)%nat ->
  exists r s' l' T', walk_loop t va true level c s = Ok r c s' /\
    grown root s s' l l' T T' /\
    ((r = 0 /\ l' = [] /\ T' !! vpath va = None) \/
     exists q, T' !! vpath va = Some q /\ r = q + 8 * PX 0 va).
Proof.
  revert s l T p t. induction level as [|level IH]; intros s l T p t Hinv Hp Hpath Hlev.
  - exists (t + 8 * PX 0 va), s, l, T. rewrite app_nil_r in Hpath. subst p. split_and!; auto.
    { by apply grown_refl. } right. eauto.
  - cbn [walk_loop todo] in *. unfold rdpte. rewrite bind_gets.
    set (i := PX (Z.of_nat (S level)) va) in *.
    assert (0 <= i < 512) as Hi by (apply PX_range; lia).
    assert (length p < 2)%nat as Hl.
    { apply (f_equal length) in Hpath. rewrite length_app in Hpath. simpl in Hpath. lia. }
    assert ((p ++ [i]) ++ todo va level = vpath va) as Hpath' by by rewrite <- app_assoc.
    change (load64 (km_mem s) (t + 8 * i)) with (pte_at (km_mem s) t i).
    destruct (T !! (p ++ [i])) as [q|] eqn:E.
    + destruct (node_valid s l T p t i q) as [-> ->]; auto. eapply IH; eauto. lia.
    + rewrite (node_invalid s l T p t i) by done. cbn [negb].
      destruct l as [|x l].
      * exists 0, s, [], T. erewrite bind_ok by (apply kalloc_empty; try done; by apply Hinv).
        split_and!; auto. { by apply grown_refl. }
        left. split_and!; try done. rewrite <- Hpath'. eapply path_missing; try done. apply Hinv.
      * destruct (walk_grow s x l T p t i) as (s1 & Hka & Hx0 & Hg); auto.
        erewrite bind_ok by exact Hka. apply Z.eqb_neq in Hx0. rewrite Hx0. rewrite bind_modify.
        unfold wrpte. rewrite bind_modify.
        destruct (IH _ l _ (p ++ [i]) x (ve_inv _ _ _ _ _ _ _ (gr_ext _ _ _ _ _ _ _ Hg))) as (r & s' & l' & T' & Hr & Hg' & Hres);
          [by rewrite lookup_insert_eq|done|lia|].
        exists r, s', l', T'. split_and!; auto. by eapply grown_trans.
Qed.

(** [walk] with [alloc]: it fails only when no page is left. *)
Lemma walk_alloc va s l T :
  0 <= va < MAXVA -> vm_inv s l T root ->
  exists r s' l' T', walk root va true c s = Ok r c s' /\ grown root s s' l l' T T' /\
    ((r = 0 /\ l' = [] /\ T' !! vpath va = None) \/
     exists q, T' !! vpath va = Some q /\ r = q + 8 * PX 0 va).
Proof.
  intros Hva Hinv. unfold walk. rewrite Z.geb_leb. bfalse (MAXVA <=? va).
  eapply (walk_loop_alloc va 2 s l T [] root); eauto. by destruct Hinv as (_ & [? _ _ _ _ _] & _).
Qed.

Lemma walk_loop_noalloc va level s l T p t :
  vm_inv s l T root -> T !! p = Some t -> p ++ todo va level = vpath va -> (level <= 2)%nat ->
  walk_loop t va false level c s =
    Ok (match T !! vpath va with Some q => q + 8 * PX 0 va | None => 0 end) c s.
Proof.
  revert p t. induction level as [|level IH]; intros p t Hinv Hp Hpath Hlev.
  - rewrite app_nil_r in Hpath. subst p. by rewrite Hp.
  - cbn [walk_loop todo] in *. unfold rdpte. rewrite bind_gets.
    set (i := PX (Z.of_nat (S level)) va) in *.
    assert (0 <= i < 512) as Hi by (apply PX_range; lia).
    assert (length p < 2)%nat as Hl.
    { apply (f_equal length) in Hpath. rewrite length_app in Hpath. simpl in Hpath. lia. }
    assert ((p ++ [i]) ++ todo va level = vpath va) as Hpath' by by rewrite <- app_assoc.
    change (load64 (km_mem s) (t + 8 * i)) with (pte_at (km_mem s) t i).
    destruct (T !! (p ++ [i])) as [q|] eqn:E.
    + destruct (node_valid s l T p t i q) as [-> ->]; auto. eapply IH; eauto. lia.
    + rewrite (node_invalid s l T p t i) by done. cbn [negb].
      replace (T !! vpath va) with (@None Z); [done|]. symmetry. rewrite <- Hpath'.
      eapply path_missing; try done. apply Hinv.
Qed.

Lemma walk_noalloc va s l T :
  0 <= va < MAXVA -> vm_inv s l T root ->
  walk root va false c s = Ok (match T !! vpath va with Some q => q + 8 * PX 0 va | None => 0 end) c s.
Proof.
  intros Hva Hinv. unfold walk. rewrite Z.geb_leb. bfalse (MAXVA <=? va).
  eapply (walk_loop_noalloc va 2 s l T [] root); eauto. by destruct Hinv as (_ & [? _ _ _ _ _] & _).
Qed.

(** The slot [walk] returns is not the null pointer. *)
Lemma slot_nonzero s l T p q va :
  vm_inv s l T root -> T !! p = Some q -> q + 8 * PX 0 va <> 0.
Proof.
  intros ((He & _) & Hw & _) Hq. destruct (tw_page _ _ _ _ Hw _ _ Hq) as [_ H].
  pose proof (PX_range 0 va). lia.
Qed.
End walk.

(** ** [mappages] *)

Definition leaf_pte (pa perm : Z) : Z := Z.lor (Z.lor (PA2PTE pa) perm) PTE_V.

Lemma perm_range perm : 0 <= perm < 1024 -> 0 <= Z.lor perm PTE_V < 1024.
Proof.
  intros H. split; [apply Z.lor_nonneg; split; [lia|done]|].
  rewrite <- (Z.mod_small perm (2 ^ 10)) by lia. rewrite <- Z.land_ones by lia.
  change PTE_V with (Z.land PTE_V (Z.ones 10)).
  rewrite <- Z.land_lor_distr_l, Z.land_ones by lia. apply Z.mod_pos_bound. lia.
Qed.

Lemma leaf_pte_decode pa perm :
  0 <= pa < 2 ^ 54 -> page_aligned pa -> 0 <= perm < 1024 ->
  PTE2PA (leaf_pte pa perm) = pa /\ PTE_FLAGS (leaf_pte pa perm) = Z.lor perm PTE_V /\
  pte_has (leaf_pte pa perm) PTE_V = true.
Proof.
  intros Hpa Ha Hp. unfold leaf_pte. split_and!.
  1,2: rewrite <- Z.lor_assoc; by apply pte_encode_decode; [..|apply perm_range].
  rewrite pte_has_lor. apply orb_true_r.
Qed.

Lemma leaf_pte_range pa perm : 0 <= perm < 1024 -> 0 <= leaf_pte pa perm < 2 ^ 64.
Proof. intros H. repeat apply lor_range; [apply PA2PTE_range|lia|done]. Qed.

(** A page address of the Sv39 space: one leaf slot of the table. *)
Definition vpage (va : Z) : Prop := page_aligned va /\ 0 <= va < 2 ^ 39.

Lemma vpage_slot va va' :
  vpage va -> vpage va' -> va <> va' -> vpath va' <> vpath va \/ PX 0 va' <> PX 0 va.
Proof.
  unfold vpage, vpath. intros [H1 H2] [H3 H4] Hne.
  destruct (decide (PX 0 va' = PX 0 va)) as [E0|]; [|by right]. left. intros [=E2 E1].
  apply Hne. symmetry. apply PX_inj; auto; lia.
Qed.

Lemma MAXVA_eq : MAXVA = 2 ^ 38.
Proof. done. Qed.

Lemma vpage_next va : vpage va -> va + PGSIZE < 2 ^ 39 -> vpage (va + PGSIZE).
Proof.
  unfold vpage, page_aligned, PGSIZE. intros [H1 H2] H. split; [|lia].
  rewrite <- Z.add_mod_idemp_l, H1 by lia. done.
Qed.

Lemma aligned_next a : page_aligned a -> page_aligned (a + PGSIZE).
Proof. unfold page_aligned, PGSIZE. intros H. rewrite <- Z.add_mod_idemp_l, H by lia. done. Qed.

Lemma u64_next a : 0 <= a < 2 ^ 60 -> u64 (a + PGSIZE) = a + PGSIZE.
Proof. intros. apply u64_small. unfold PGSIZE. lia. Qed.

Section map.
Context (root : Z) (c : core).
Hypothesis Hc : core_wf c.
Hypothesis Hlk : lock_free LkKmem c.
Implicit Types (s : kmem) (l : list Z) (T : tree).

(** Storing a leaf entry through the slot that [walk] returned. *)
Lemma leaf_set s l T va q v :
  vm_inv s l T root -> vpage va -> T !! vpath va = Some q -> 0 <= v < 2 ^ 64 ->
  let s' := upd_mem (fun m => store64 m (q + 8 * PX 0 va) v) s in
  vm_ext root s s' l l T T /\
  (forall va', vpage va' -> pt_get (km_mem s') T va' =
     if va' =? va then (if pte_has v PTE_V then Some v else None) else pt_get (km_mem s) T va').
Proof.
  intros Hinv Hva Hq Hv s'. assert (Hinv2 := Hinv). destruct Hinv2 as (Hk & Hw & Hd).
  destruct (leaf_store root _ _ _ _ _ _ Hw Hq Hv) as (Hw' & Hg1 & Hg2).
  assert (0 <= PX 0 va < 512) as Hi by (apply PX_range; lia).
  split.
  - split; [|done|done|done|by left|].
    + split_and!; [|done|done]. apply kmem_inv_ext; [done|]. intros y a Hy Ha. simpl.
      apply rd_store_slot; [done|]. intros Ha'. destruct Hk as (_ & _ & _ & Hok).
      eapply Forall_forall in Hok; [|exact Hy].
      eapply (page_disjoint q y a); [by apply (tw_page _ _ _ _ Hw _ _ Hq)|apply Hok| |done|done].
      intros ->. by apply (Hd _ _ Hq).
    + intros a [Ha _]. simpl. apply rd_store_slot; eauto.
  - intros va' Hva'. destruct (Z.eqb_spec va' va) as [->|Hne]; [done|].
    apply Hg2. by apply vpage_slot.
Qed.

(** One iteration of the loop of [mappages]: either the table could not be
    completed, or the store installs exactly one new leaf. *)
Lemma map_one s l T a pa perm :
  vm_inv s l T root -> vpage a -> a < MAXVA -> pt_get (km_mem s) T a = None ->
  page_aligned pa -> 0 <= pa < 2 ^ 54 -> 0 <= perm < 1024 ->
  exists r s1 l1 T1, walk root a true c s = Ok r c s1 /\
   ((r = 0 /\ l1 = [] /\ grown root s s1 l l1 T T1) \/
    (r <> 0 /\ pte_has (load64 (km_mem s1) r) PTE_V = false /\
     let s2 := upd_mem (fun m => store64 m r (leaf_pte pa perm)) s1 in
     vm_ext root s s2 l l1 T T1 /\
     forall va, vpage va -> pt_get (km_mem s2) T1 va =
       if va =? a then Some (leaf_pte pa perm) else pt_get (km_mem s) T va)).
Proof.
  intros Hinv Ha Hmax Hn Hpa Hpa0 Hperm. assert (0 <= a < MAXVA) as Har by (destruct Ha; lia).
  destruct (walk_alloc root c Hc Hlk a s l T Har Hinv) as (r & s1 & l1 & T1 & Hr & Hg & Hres).
  exists r, s1, l1, T1. split; [done|]. destruct Hres as [(? & ? & _)|(q & Hq & Er)]; [by left|right].
  pose proof (gr_get _ _ _ _ _ _ _ Hg a) as Hga. rewrite Hn in Hga. unfold pt_get in Hga. rewrite Hq in Hga.
  subst r. split_and!.
  - eapply slot_nonzero; [|exact Hq]. apply Hg.
  - unfold pte_at in Hga. by case_match.
  - destruct (leaf_set s1 l1 T1 a q (leaf_pte pa perm)) as [Hx Hset];
      [by apply Hg|done|done|by apply leaf_pte_range|]. split.
    + eapply vm_ext_trans; [by apply Hg|done].
    + intros va Hva. rewrite Hset by done. rewrite (gr_get _ _ _ _ _ _ _ Hg).
      destruct (leaf_pte_decode pa perm) as (_ & _ & Hlv); [lia|done|done|]. by rewrite Hlv.
Qed.

Lemma vpage_cases a va : vpage a -> vpage va -> va = a \/ va < a \/ a + PGSIZE <= va.
Proof.
  unfold vpage, page_aligned, PGSIZE. intros [Ha _] [Hva _].
  pose proof (Z.div_mod a 4096). pose proof (Z.div_mod va 4096). lia.
Qed.

Lemma mappages_loop_ok n s l T a last pa perm :
  vm_inv s l T root -> vpage a -> last = a + Z.of_nat n * PGSIZE -> last < MAXVA ->
  page_aligned pa -> 0 <= pa -> pa + Z.of_nat n * PGSIZE < 2 ^ 54 -> 0 <= perm < 1024 ->
  (forall va, vpage va -> a <= va <= last -> pt_get (km_mem s) T va = None) ->
  exists r s' l' T' k, mappages_loop root a last pa perm (S n) c s = Ok r c s' /\
    vm_ext root s s' l l' T T' /\
    (forall va, vpage va -> pt_get (km_mem s') T' va =
       if (a <=? va) && (va <? a + k * PGSIZE) then Some (leaf_pte (pa + (va - a)) perm)
       else pt_get (km_mem s) T va) /\
    ((r = 0 /\ k = Z.of_nat n + 1) \/ (r = -1 /\ 0 <= k <= Z.of_nat n /\ l' = [])).
Proof.
  revert s l T a pa. induction n as [|n IH];
    intros s l T a pa Hinv Ha Hlast Hmax Hpa Hpa0 Hpab Hperm Hfree; unfold PGSIZE in *;
    (destruct (map_one s l T a pa perm) as (r & s1 & l1 & T1 & Hr & Hres);
     [done|done|lia|apply Hfree; [done|lia]|done|lia|done|]);
    cbn [mappages_loop]; erewrite bind_ok by exact Hr;
    (destruct Hres as [(-> & -> & Hg)|(Hr0 & Hv & Hx & Hset)];
     [exists (-1), s1, [], T1, 0; split_and!; [done|by apply Hg| |naive_solver lia];
      intros va Hva; rewrite (gr_get _ _ _ _ _ _ _ Hg); by bdestruct_all|]);
    bfalse (r =? 0); unfold rdpte, wrpte; rewrite bind_gets, Hv, bind_modify; fold (leaf_pte pa perm);
    set (s2 := upd_mem (fun m => store64 m r (leaf_pte pa perm)) s1) in *.
  - btrue (a =? last). exists 0, s2, l1, T1, 1. split_and!; [done|done| |left; lia].
    intros va Hva. rewrite Hset by done. destruct (vpage_cases a va) as [->|Hne]; [done|done|..].
    + bdestruct_all; simpl. by rewrite Z.sub_diag, Z.add_0_r.
    + unfold PGSIZE in *. by bdestruct_all.
  - bfalse (a =? last).
    assert (0 <= a < 2 ^ 60) by (destruct Ha as [_ Ha]; lia).
    rewrite (u64_next a) by done. rewrite (u64_next pa) by lia. unfold PGSIZE.
    destruct (IH s2 l1 T1 (a + 4096) (pa + 4096)) as (r' & s' & l' & T' & k & Hrun & Hext & Hget & Hend);
      try solve [done|lia|apply Hx|by apply aligned_next|apply vpage_next; [done|unfold PGSIZE; rewrite MAXVA_eq in *; lia]].
    { intros va Hva Hr'. rewrite Hset by done. bfalse (va =? a). apply Hfree; [done|lia]. }
    exists r', s', l', T', (k + 1). split_and!; [done|by eapply vm_ext_trans| |naive_solver lia].
    intros va Hva. rewrite Hget, Hset by done. destruct (vpage_cases a va) as [->|Hne]; [done|done|..].
    + bfalse (a + 4096 <=? a). rewrite Z.eqb_refl. btrue (a <=? a).
      btrue (a <? a + (k + 1) * 4096). simpl. by rewrite Z.sub_diag, Z.add_0_r.
    + unfold PGSIZE in *. bfalse (va =? a). replace (a + (k + 1) * 4096) with (a + 4096 + k * 4096) by lia.
      replace (pa + 4096 + (va - (a + 4096))) with (pa + (va - a)) by lia. by bdestruct_all.
Qed.

(** [mappages] on a range of unmapped pages: the first [k] pages are mapped;
    either all of them, or the free list ran out. *)
Lemma mappages_ok s l T va size pa perm :
  vm_inv s l T root -> 0 <= va -> 0 < size -> va + size <= MAXVA ->
  page_aligned pa -> 0 <= pa -> pa + size + PGSIZE < 2 ^ 54 -> 0 <= perm < 1024 ->
  let a := PGROUNDDOWN va in let last := PGROUNDDOWN (va + size - 1) in
  (forall p, vpage p -> a <= p <= last -> pt_get (km_mem s) T p = None) ->
  exists r s' l' T' k, mappages root va size pa perm c s = Ok r c s' /\
    vm_ext root s s' l l' T T' /\
    (forall p, vpage p -> pt_get (km_mem s') T' p =
       if (a <=? p) && (p <? a + k * PGSIZE) then Some (leaf_pte (pa + (p - a)) perm)
       else pt_get (km_mem s) T p) /\
    ((r = 0 /\ a + k * PGSIZE = last + PGSIZE) \/
     (r = -1 /\ 0 <= k /\ a + k * PGSIZE <= last /\ l' = [])).
Proof.
  intros Hinv Hva Hsz Hmax Hpa Hpa0 Hpab Hperm a last Hfree.
  assert (page_aligned a) as Ha by apply PGROUNDDOWN_aligned.
  assert (page_aligned last) as Hl by apply PGROUNDDOWN_aligned.
  pose proof (PGROUNDDOWN_bounds va) as Hb. pose proof (PGROUNDDOWN_bounds (va + size - 1)) as Hb'.
  fold a in Hb. fold last in Hb'. rewrite MAXVA_eq in *. unfold page_aligned, PGSIZE in *.
  pose proof (Z.div_mod a 4096). pose proof (Z.div_mod last 4096).
  pose proof (Z.div_mod (last - a) 4096) as Hd. rewrite Zminus_mod, Ha, Hl in Hd. change ((0 - 0) mod _) with 0 in Hd.
  assert (0 <= (last - a) / 4096) by (apply Z.div_pos; lia).
  assert (0 <= a) by (unfold a; rewrite PGROUNDDOWN_mod; pose proof (Z.mod_le va 4096); unfold PGSIZE; lia).
  unfold mappages. bfalse (size =? 0). rewrite u64_small by lia. fold a last.
  btrue (a <=? last). unfold PGSIZE. clearbody a last. rewrite Z2Nat.inj_add by lia. change (Z.to_nat 1) with 1%nat. rewrite Nat.add_1_r.
  destruct (mappages_loop_ok (Z.to_nat ((last - a) / 4096)) s l T a last pa perm)
    as (r & s' & l' & T' & k & Hr & Hx & Hg & He); try done; rewrite ?MAXVA_eq; unfold PGSIZE in *; try lia.
  { split; [done|lia]. }
  exists r, s', l', T', k. split_and!; try done. naive_solver lia.
Qed.

(** Mapping over a valid entry is refused. *)
Lemma mappages_remap s l T va size pa perm v :
  vm_inv s l T root -> 0 <= va < MAXVA -> 0 < size -> pt_get (km_mem s) T (PGROUNDDOWN va) = Some v ->
  mappages root va size pa perm c s = Panic "mappages: remap".
Proof.
  intros Hinv Hva Hsz Hv. set (a := PGROUNDDOWN va) in *.
  assert (0 <= a < MAXVA) as Ha.
  { pose proof (PGROUNDDOWN_bounds va). unfold a. rewrite PGROUNDDOWN_mod in *.
    pose proof (Z.mod_le va 4096). unfold PGSIZE in *. lia. }
  unfold mappages. bfalse (size =? 0). fold a.
  set (n := Z.to_nat _). assert (exists k, n = S k) as [k ->].
  { exists (pred n). assert (0 < n)%nat; [|lia]. unfold n, PGSIZE.
    pose proof (Z.div_pos (MAXVA - a) 4096).
    pose proof (Z.div_pos (PGROUNDDOWN (u64 (va + size - 1)) - a) 4096).
    case_match; rewrite ?Z.leb_le in *; lia. }
  cbn [mappages_loop].
  destruct (walk_alloc root c Hc Hlk a s l T Ha Hinv) as (r & s1 & l1 & T1 & Hr & Hg & Hres).
  erewrite bind_ok by exact Hr. pose proof (gr_get _ _ _ _ _ _ _ Hg a) as Hga. rewrite Hv in Hga.
  unfold pt_get in Hga. destruct (T1 !! vpath a) as [q|] eqn:Hq; [|done].
  destruct Hres as [(_ & _ & ?)|(q' & Hq' & ->)]; [congruence|]. assert (q' = q) as -> by congruence.
  assert (q + 8 * PX 0 a <> 0) by (eapply slot_nonzero; [|exact Hq]; apply Hg).
  bfalse (q + 8 * PX 0 a =? 0). unfold rdpte. rewrite bind_gets.
  unfold pte_at in Hga. by destruct (pte_has _ _).
Qed.
End map.
