(* ===== verification/VmUser.v ===== *)
(** * User address spaces: proofs about kernel/vm.c

    An address space is a page-table tree together with the list [vs] of the
    leaf entries of its first pages.  [owned] says that these entries map
    distinct physical pages that are neither free nor part of the table, which
    is what growing, shrinking, copying and freeing an address space preserve
    and rely on. *)

From Stdlib Require Import ZArith Lia.
From stdpp Require Import base gmap list numbers strings.
From S2P Require Import Prelude Riscv Core Spinlock Kstring Kalloc Vm VmTree.
Local Open Scope Z_scope.

(** A page an address space may own: not free, not part of the table. *)
Definition frame_ok (s : kmem) (l : list Z) (T : tree) (x : Z) : Prop :=
  page_ok (km_end s) x /\ (x ∉ l) /\ forall p, T !! p <> Some x.

(** The pages from [a] on have the leaf entries [vs]. *)
Definition mapped (m : memory) (T : tree) (a : Z) (vs : list Z) : Prop :=
  forall i v, vs !! i = Some v -> pt_get m T (a + Z.of_nat i * PGSIZE) = Some v.

(** [vs] are user leaves of distinct pages that belong to the address space. *)
Definition owned (s : kmem) (l : list Z) (T : tree) (vs : list Z) : Prop :=
  NoDup (PTE2PA <$> vs) /\ Forall (fun v => frame_ok s l T (PTE2PA v) /\ PTE_FLAGS v <> PTE_V) vs.

Lemma mapped_cons m T a v vs :
  mapped m T a (v :: vs) <-> pt_get m T a = Some v /\ mapped m T (a + PGSIZE) vs.
Proof.
  split.
  - intros H. split; [|intros i w Hi; specialize (H (S i) w Hi)].
    + specialize (H 0%nat v eq_refl). by rewrite Z.add_0_r in H.
    + by replace (a + PGSIZE + Z.of_nat i * PGSIZE) with (a + Z.of_nat (S i) * PGSIZE) by lia.
  - intros [Hv H] [|i] w Hw; simpl in Hw; simplify_eq.
    + by rewrite Z.add_0_r.
    + apply H in Hw. by replace (a + Z.of_nat (S i) * PGSIZE) with (a + PGSIZE + Z.of_nat i * PGSIZE) by lia.
Qed.

Lemma mapped_app m T a vs ws :
  mapped m T a (vs ++ ws) <-> mapped m T a vs /\ mapped m T (a + Z.of_nat (length vs) * PGSIZE) ws.
Proof.
  revert a. induction vs as [|v vs IH]; intros a; simpl length.
  - rewrite Z.add_0_r. split; [intros H; split; [by intros ? ?|done]|by intros [_ ?]].
  - cbn [app]. rewrite !mapped_cons, IH.
    replace (a + PGSIZE + Z.of_nat (length vs) * PGSIZE) with (a + Z.of_nat (S (length vs)) * PGSIZE) by lia.
    tauto.
Qed.

Lemma vpage_plus a i : vpage a -> a + Z.of_nat i * PGSIZE < 2 ^ 39 -> vpage (a + Z.of_nat i * PGSIZE).
Proof.
  unfold vpage, page_aligned, PGSIZE. intros [H1 H2] H. split; [|lia]. by rewrite Z.mod_add by lia.
Qed.

Lemma outside_mono T l l' a : (forall x, x ∈ l -> x ∈ l') -> outside T l' a -> outside T l a.
Proof. intros H [H1 H2]. split; [done|]. eauto. Qed.

Section user.
Context (root : Z) (c : core).
Hypothesis Hc : core_wf c.
Hypothesis Hlk : lock_free LkKmem c.
Implicit Types (s : kmem) (l : list Z) (T : tree).

(** ** [uvmunmap] *)

(** [kfree] of a page outside the table keeps the table. *)
Lemma kfree_vm s l T x :
  vm_inv s l T root -> frame_ok s l T x ->
  exists s', kfree x c s = Ok tt c s' /\ vm_inv s' (x :: l) T root /\ km_end s' = km_end s /\
    (forall a, ~ in_page x a -> rd (km_mem s') a = rd (km_mem s) a) /\
    (forall va, pt_get (km_mem s') T va = pt_get (km_mem s) T va).
Proof.
  intros (Hk & Hw & Hd) (Hx & Hxl & HxT).
  destruct (kfree_ok c s l x Hc Hlk Hk Hx Hxl) as (s' & Hr & Hk' & He & Hfr).
  assert (forall p t a, T !! p = Some t -> in_page t a -> rd (km_mem s') a = rd (km_mem s) a) as Hsame.
  { intros p t a Hp Ha. apply Hfr. intros Hxa.
    eapply (tree_distinct root (km_end s) (km_mem s) T p t a); eauto. intros ->. by apply (HxT p). }
  exists s'. split_and!; auto.
  - split_and!; [done| |].
    + rewrite He. by eapply tree_wf_ext.
    + intros p t Hp [->|Hin]%elem_of_cons; [by apply (HxT p)|by apply (Hd p t)].
  - intros va. by apply pt_get_ext.
Qed.

Lemma frame_ok_free s s' l T x y :
  km_end s' = km_end s -> x <> y -> frame_ok s l T y -> frame_ok s' (x :: l) T y.
Proof. intros He Hne (H1 & H2 & H3). split_and!; [by rewrite He|set_solver|done]. Qed.

Lemma frame_ok_end s s' l T x : km_end s' = km_end s -> frame_ok s l T x -> frame_ok s' l T x.
Proof. intros He (H1 & H2). split; [by rewrite He|done]. Qed.

Lemma owned_tail s s' l T v vs :
  owned s l T (v :: vs) -> km_end s' = km_end s -> owned s' (PTE2PA v :: l) T vs.
Proof.
  intros [Hnd Hf] He. cbn in Hnd. apply NoDup_cons in Hnd as [Hni Hnd]. apply Forall_cons in Hf as [_ Hf].
  split; [done|]. apply Forall_forall. intros w Hw. eapply Forall_forall in Hf as [Hf ?]; [|exact Hw].
  split; [|done]. eapply frame_ok_free; [done| |done]. intros E. apply Hni. rewrite E. by apply list_elem_of_fmap_2.
Qed.

(** One page: the entry is cleared, and the page freed if asked for. *)
Lemma unmap_one s l T a v (do_free : bool) :
  vm_inv s l T root -> vpage a -> a < MAXVA -> pt_get (km_mem s) T a = Some v ->
  (do_free = true -> frame_ok s l T (PTE2PA v)) ->
  exists q s1, T !! vpath a = Some q /\ load64 (km_mem s) (q + 8 * PX 0 a) = v /\
    q + 8 * PX 0 a <> 0 /\ pte_has v PTE_V = true /\
    when do_free (kfree (PTE2PA v)) c s = Ok tt c s1 /\
    let s2 := upd_mem (fun m => store64 m (q + 8 * PX 0 a) 0) s1 in
    vm_inv s2 (if do_free then PTE2PA v :: l else l) T root /\ km_end s2 = km_end s /\
    (forall p, vpage p -> pt_get (km_mem s2) T p = if p =? a then None else pt_get (km_mem s) T p) /\
    (forall x, outside T (if do_free then PTE2PA v :: l else l) x -> rd (km_mem s2) x = rd (km_mem s) x).
Proof.
  intros Hinv Ha Hmax Hv Hfree.
  assert (exists q, T !! vpath a = Some q /\ load64 (km_mem s) (q + 8 * PX 0 a) = v /\ pte_has v PTE_V = true)
    as (q & Hq & Hl & HV).
  { unfold pt_get, pte_at in Hv. destruct (T !! vpath a) as [q|]; [|done]. exists q. by case_match; simplify_eq. }
  assert (exists s1, when do_free (kfree (PTE2PA v)) c s = Ok tt c s1 /\
            vm_inv s1 (if do_free then PTE2PA v :: l else l) T root /\ km_end s1 = km_end s /\
            (forall x, outside T (if do_free then PTE2PA v :: l else l) x -> rd (km_mem s1) x = rd (km_mem s) x) /\
            (forall va, pt_get (km_mem s1) T va = pt_get (km_mem s) T va)) as (s1 & Hr & Hi1 & He1 & Hfr & Hg1).
  { destruct do_free; [|by exists s].
    destruct (kfree_vm s l T (PTE2PA v)) as (s1 & ? & ? & ? & Hfr & ?); auto.
    exists s1. split_and!; auto. intros x [_ Hx]. apply Hfr, Hx. by left. }
  exists q, s1. destruct (leaf_set root s1 _ T a q 0 Hi1 Ha Hq) as [Hx Hset]; [done|].
  split_and!; auto.
  { by eapply (slot_nonzero root s l). }
  cbv zeta. split_and!.
  - by apply Hx.
  - done.
  - intros p Hp. rewrite Hset by done. by rewrite Hg1.
  - intros x Hout. rewrite <- Hfr by done. by apply Hx.
Qed.

Lemma uvmunmap_loop_ok vs s l T a (do_free : bool) :
  vm_inv s l T root -> vpage a -> a + Z.of_nat (length vs) * PGSIZE <= MAXVA ->
  mapped (km_mem s) T a vs -> Forall (fun v => PTE_FLAGS v <> PTE_V) vs ->
  (do_free = true -> owned s l T vs) ->
  let l' := if do_free then rev (PTE2PA <$> vs) ++ l else l in
  exists s', uvmunmap_loop root a (a + Z.of_nat (length vs) * PGSIZE) do_free (length vs) c s = Ok tt c s' /\
    vm_inv s' l' T root /\ km_end s' = km_end s /\
    (forall p, vpage p -> pt_get (km_mem s') T p =
       if (a <=? p) && (p <? a + Z.of_nat (length vs) * PGSIZE) then None else pt_get (km_mem s) T p) /\
    (forall x, outside T l' x -> rd (km_mem s') x = rd (km_mem s) x).
Proof.
  revert s l a. induction vs as [|v vs IH]; intros s l a Hinv Ha Hmax Hmap Hfl Hown l'.
  - exists s. simpl. rewrite Z.add_0_r, Z.ltb_irrefl. unfold l'.
    split_and!; try done. + by destruct do_free. + intros p _. by bdestruct_all.
  - cbn [length uvmunmap_loop]. apply mapped_cons in Hmap as [Hv Hmap]. apply Forall_cons in Hfl as [Hvf Hfl].
    simpl length in *. unfold PGSIZE in Hmax. rewrite MAXVA_eq in Hmax.
    destruct (unmap_one s l T a v do_free) as (q & s1 & Hq & Hld & Hq0 & HV & Hk & Hi2 & He2 & Hg2 & Hfr2); auto.
    { rewrite MAXVA_eq. lia. }
    { intros E. destruct (Hown E) as [_ Hf]. apply Forall_cons in Hf as [[? _] _]. done. }
    assert (a <? a + Z.of_nat (S (length vs)) * PGSIZE = true) as -> by (apply Z.ltb_lt; unfold PGSIZE; lia).
    destruct Ha as [Hal Ha]. erewrite bind_ok by (apply (walk_noalloc root c a s l T); [rewrite MAXVA_eq; lia|done]). rewrite Hq. bfalse (q + 8 * PX 0 a =? 0).
    unfold rdpte. rewrite bind_gets, Hld, HV. bfalse (PTE_FLAGS v =? PTE_V). cbn [negb].
    erewrite bind_ok by exact Hk. unfold wrpte. rewrite bind_modify.
    set (s2 := upd_mem _ s1) in *. set (l2 := if do_free then PTE2PA v :: l else l) in *.
    rewrite u64_next by lia.
    destruct (IH s2 l2 (a + PGSIZE)) as (s' & Hr & Hi' & He' & Hg' & Hfr').
    { done. } { apply vpage_next; [done|unfold PGSIZE; lia]. } { rewrite MAXVA_eq. unfold PGSIZE. lia. }
    { intros i w Hi. assert (i < length vs)%nat by by eapply lookup_lt_Some. rewrite Hg2.
      - assert (a + PGSIZE + Z.of_nat i * PGSIZE =? a = false) as -> by (apply Z.eqb_neq; unfold PGSIZE; lia).
        by apply Hmap.
      - replace (a + PGSIZE + Z.of_nat i * PGSIZE) with (a + Z.of_nat (S i) * PGSIZE) by lia.
        apply vpage_plus; [done|unfold PGSIZE; lia]. }
    { done. }
    { intros E. specialize (Hown E). unfold l2. rewrite E. by eapply owned_tail. }
    assert (l' = if do_free then rev (PTE2PA <$> vs) ++ l2 else l2) as El.
    { unfold l', l2. destruct do_free; [|done]. cbn. by rewrite <- app_assoc. }
    exists s'. rewrite El. replace (a + Z.of_nat (S (length vs)) * PGSIZE)
      with (a + PGSIZE + Z.of_nat (length vs) * PGSIZE) by lia. split_and!; [done|done|congruence| |].
    + intros p Hp. rewrite Hg', Hg2 by done. destruct (vpage_cases a p) as [->|[?|?]]; [done|done|..];
        unfold PGSIZE in *; by bdestruct_all.
    + intros x Hx. rewrite Hfr' by done. apply Hfr2. eapply outside_mono; [|exact Hx].
      destruct do_free; set_solver.
Qed.


Lemma uvmunmap_ok vs s l T a (do_free : bool) :
  vm_inv s l T root -> vpage a -> a + Z.of_nat (length vs) * PGSIZE <= MAXVA ->
  mapped (km_mem s) T a vs -> Forall (fun v => PTE_FLAGS v <> PTE_V) vs ->
  (do_free = true -> owned s l T vs) ->
  let l' := if do_free then rev (PTE2PA <$> vs) ++ l else l in
  exists s', uvmunmap root a (Z.of_nat (length vs)) do_free c s = Ok tt c s' /\
    vm_inv s' l' T root /\ km_end s' = km_end s /\
    (forall p, vpage p -> pt_get (km_mem s') T p =
       if (a <=? p) && (p <? a + Z.of_nat (length vs) * PGSIZE) then None else pt_get (km_mem s) T p) /\
    (forall x, outside T l' x -> rd (km_mem s') x = rd (km_mem s) x).
Proof.
  intros Hinv Ha Hmax Hmap Hfl Hown l'. unfold uvmunmap. rewrite (proj1 Ha). cbn [Z.eqb negb].
  rewrite u64_small, Nat2Z.id by (destruct Ha; rewrite MAXVA_eq in Hmax; unfold PGSIZE in *; lia).
  by apply uvmunmap_loop_ok.
Qed.

Lemma PGROUNDUP_mono x y :
  0 <= x <= y -> y <= MAXVA -> PGROUNDUP x <= PGROUNDUP y.
Proof.
  intros Hx Hy. rewrite MAXVA_eq in Hy.
  pose proof (PGROUNDUP_bounds x). pose proof (PGROUNDUP_bounds y).
  pose proof (PGROUNDUP_aligned x) as Ax. pose proof (PGROUNDUP_aligned y) as Ay.
  unfold page_aligned, PGSIZE in *. pose proof (Z.div_mod (PGROUNDUP x) 4096).
  pose proof (Z.div_mod (PGROUNDUP y) 4096). lia.
Qed.

Lemma PGROUNDUP_max x : 0 <= x <= MAXVA -> PGROUNDUP x <= MAXVA.
Proof. intros H. rewrite <- (PGROUNDUP_id MAXVA) by done. apply PGROUNDUP_mono; lia. Qed.

Lemma PGROUNDUP_vpage x : 0 <= x <= MAXVA -> vpage (PGROUNDUP x).
Proof.
  rewrite MAXVA_eq. intros Hx. split; [apply PGROUNDUP_aligned|].
  pose proof (PGROUNDUP_bounds x). unfold PGSIZE in *. lia.
Qed.

(** ** [uvmdealloc] *)
Lemma uvmdealloc_ok vs s l T oldsz newsz :
  vm_inv s l T root -> 0 <= newsz <= oldsz -> oldsz <= MAXVA ->
  PGROUNDUP oldsz = PGROUNDUP newsz + Z.of_nat (length vs) * PGSIZE ->
  mapped (km_mem s) T (PGROUNDUP newsz) vs -> owned s l T vs ->
  let l' := rev (PTE2PA <$> vs) ++ l in
  exists s', uvmdealloc root oldsz newsz c s = Ok newsz c s' /\
    vm_inv s' l' T root /\ km_end s' = km_end s /\
    (forall p, vpage p -> pt_get (km_mem s') T p =
       if (PGROUNDUP newsz <=? p) && (p <? PGROUNDUP oldsz) then None else pt_get (km_mem s) T p) /\
    (forall x, outside T l' x -> rd (km_mem s') x = rd (km_mem s) x).
Proof.
  intros Hinv Hsz Hmax Hlen Hmap Hown l'. unfold uvmdealloc. rewrite Z.geb_leb.
  pose proof (PGROUNDUP_max oldsz).
  destruct vs as [|v vs].
  - exists s. simpl in Hlen. assert (PGROUNDUP oldsz = PGROUNDUP newsz) as E by lia.
    rewrite E, Z.ltb_irrefl. split_and!; try done.
    + destruct (Z.leb_spec oldsz newsz); [|done]. f_equal. lia.
    + intros p _. bdestruct_all; done.
  - set (vs0 := v :: vs) in *. assert (1 <= Z.of_nat (length vs0)) by (simpl; lia).
    assert (newsz < oldsz) by (destruct (decide (newsz = oldsz)) as [->|]; unfold PGSIZE in *; lia).
    bfalse (oldsz <=? newsz).
    assert (PGROUNDUP newsz <? PGROUNDUP oldsz = true) as -> by (apply Z.ltb_lt; unfold PGSIZE in *; lia).
    replace (PGROUNDUP oldsz - PGROUNDUP newsz) with (Z.of_nat (length vs0) * PGSIZE) by lia.
    pose proof (PGROUNDUP_vpage newsz). rewrite Z.div_mul, s32_small, u64_small by (rewrite ?MAXVA_eq in *; unfold vpage, PGSIZE in *; lia).
    destruct (uvmunmap_ok vs0 s l T (PGROUNDUP newsz) true) as (s' & Hr & Hi & He & Hg & Hfr); auto.
    { apply PGROUNDUP_vpage. lia. } { rewrite <- Hlen. lia. } { eapply Forall_impl; [apply Hown|]. by intros ? [_ ?]. }
    exists s'. split_and!; auto. { cbn [when]. by erewrite bind_ok by exact Hr. }
    intros p Hp. rewrite Hg by done. by rewrite Hlen.
Qed.

(** ** Allocation steps *)

(** A page taken from the free list and filled by [f], which writes only to it. *)
Lemma alloc_filled f s x l T :
  vm_inv s (x :: l) T root -> (forall m a, ~ in_page x a -> rd (f m) a = rd m a) ->
  exists s1, kalloc c s = Ok x c s1 /\ x <> 0 /\
    let s2 := upd_mem f s1 in
    vm_inv s2 l T root /\ frame_ok s2 l T x /\ km_end s2 = km_end s /\
    (forall a, ~ in_page x a -> rd (km_mem s1) a = rd (km_mem s) a) /\
    (forall a, ~ in_page x a -> rd (km_mem s2) a = rd (km_mem s) a) /\
    (forall va, pt_get (km_mem s2) T va = pt_get (km_mem s) T va).
Proof.
  intros (Hk & Hw & Hd) Hf.
  destruct (kalloc_cons c s x l Hc Hlk Hk) as (s1 & Hka & Hk1 & He1 & Hx & Hxl & _ & Hfr).
  exists s1. split_and!; [done|destruct Hx, Hk; lia|]. set (s2 := upd_mem _ s1).
  assert (forall a, ~ in_page x a -> rd (km_mem s2) a = rd (km_mem s) a) as Hfr2.
  { intros a Ha. simpl. rewrite Hf by done. by apply Hfr. }
  assert (forall p t a, T !! p = Some t -> in_page t a -> rd (km_mem s2) a = rd (km_mem s) a) as HT.
  { intros p t a Hp Ha. apply Hfr2. intros Hxa.
    eapply (tree_distinct root _ _ T p t a); eauto. intros ->. apply (Hd p t); [done|by left]. }
  cbv zeta. split_and!; auto.
  - split_and!.
    + apply kmem_inv_ext; [done|]. intros y a Hy Ha. apply Hf. intros Ha'.
      destruct Hk1 as (_ & _ & _ & Hok). eapply Forall_forall in Hok; [|exact Hy].
      eapply (page_disjoint x y a); [apply Hx|apply Hok|congruence|done|done].
    + simpl. rewrite He1. by eapply tree_wf_ext.
    + intros p t Hp Hin. apply (Hd p t Hp). by right.
  - split_and!; [by simpl; rewrite He1|done|]. intros p Hp. apply (Hd p x Hp). by left.
  - intros va. by apply pt_get_ext.
Qed.

(** [kalloc] followed by [memset(mem, 0, PGSIZE)]. *)
Lemma alloc_zeroed s x l T :
  vm_inv s (x :: l) T root ->
  exists s1, kalloc c s = Ok x c s1 /\ x <> 0 /\
    let s2 := upd_mem (fun m => memset m x 0 PGSIZE) s1 in
    vm_inv s2 l T root /\ frame_ok s2 l T x /\ km_end s2 = km_end s /\
    (forall a, in_page x a -> rd (km_mem s2) a = 0) /\
    (forall a, ~ in_page x a -> rd (km_mem s2) a = rd (km_mem s) a) /\
    (forall va, pt_get (km_mem s2) T va = pt_get (km_mem s) T va).
Proof.
  intros Hinv. destruct (alloc_filled (fun m => memset m x 0 PGSIZE) s x l T Hinv) as (s1 & H1 & H2 & H3 & H4 & H5 & _ & H6 & H7).
  { intros m a. apply rd_memset_out. }
  exists s1. split_and!; auto. cbv zeta. split_and!; auto. intros a Ha. by apply rd_memset_in.
Qed.

Lemma frame_ok_ext s s' l l' T T' x :
  vm_ext root s s' l l' T T' -> frame_ok s l T x -> frame_ok s' l' T' x.
Proof.
  intros [_ He _ Hfree Hn _] (H1 & H2 & H3). split_and!; [by rewrite He|auto|].
  intros p [Hp|Hp]%Hn; [by apply (H3 p)|done].
Qed.

(** A page the address space owns is not written by operations on the table. *)
Lemma frame_outside s l T x a : vm_inv s l T root -> frame_ok s l T x -> in_page x a -> outside T l a.
Proof.
  intros (Hk & Hw & _) (Hx & Hxl & HxT) Ha. split.
  - intros p t Hp. eapply tree_distinct; eauto. intros ->. by apply (HxT p).
  - intros y Hy Hya. destruct Hk as (_ & _ & _ & Hok). eapply Forall_forall in Hok; [|exact Hy].
    eapply (page_disjoint x y a); [apply Hx|apply Hok|congruence|done|done].
Qed.

(** [mappages] of a single page. *)
Lemma map_page s l T a x perm :
  vm_inv s l T root -> vpage a -> a < MAXVA -> pt_get (km_mem s) T a = None ->
  page_ok (km_end s) x -> 0 <= perm < 1024 ->
  exists r s' l' T', mappages root a PGSIZE x perm c s = Ok r c s' /\
    vm_ext root s s' l l' T T' /\
    ((r = 0 /\ forall p, vpage p -> pt_get (km_mem s') T' p =
        if p =? a then Some (leaf_pte x perm) else pt_get (km_mem s) T p) \/
     (r = -1 /\ l' = [] /\ forall p, vpage p -> pt_get (km_mem s') T' p = pt_get (km_mem s) T p)).
Proof.
  intros Hinv Ha Hmax Hn Hx Hperm. pose proof (vm_inv_end _ _ _ _ Hinv) as He.
  destruct (page_ok_pte _ _ He Hx) as [Hx54 Hxa]. destruct Hx as [_ Hx]. unfold PHYSTOP, KERNBASE in Hx.
  assert (a + PGSIZE <= MAXVA) as Hm2.
  { rewrite MAXVA_eq in *. destruct Ha as [Ha _]. unfold page_aligned, PGSIZE in *. pose proof (Z.div_mod a 4096). lia. }
  assert (PGROUNDDOWN a = a) as Ea by (apply PGROUNDDOWN_id, Ha).
  assert (PGROUNDDOWN (a + PGSIZE - 1) = a) as El.
  { rewrite PGROUNDDOWN_mod. destruct Ha as [Ha _]. unfold page_aligned, PGSIZE in *.
    replace (a + 4096 - 1) with (4095 + a) by lia. rewrite <- Z.add_mod_idemp_r, Ha by lia. change ((4095 + 0) mod 4096) with 4095. lia. }
  destruct (mappages_ok root c Hc Hlk s l T a PGSIZE x perm) as (r & s' & l' & T' & k & Hr & Hext & Hg & Hend);
    auto; try (unfold PGSIZE in *; destruct Ha; lia).
  { rewrite Ea, El. intros p Hp Hpa. by replace p with a by lia. }
  rewrite Ea, El in *. exists r, s', l', T'. split_and!; [done|done|].
  destruct Hend as [[-> Hk]|(-> & Hk & Hk' & ->)]; [left|right]; split_and!; auto; intros p Hp; rewrite Hg by done.
  - destruct (vpage_cases a p) as [->|[?|?]]; auto; unfold PGSIZE in *; bdestruct_all; try done.
    simpl. by rewrite Z.sub_diag, Z.add_0_r.
  - unfold PGSIZE in *. by bdestruct_all.
Qed.

(** ** [uvmalloc] *)

(** The permissions of memory that [uvmalloc] adds. *)
Definition uperm : Z := Z.lor (Z.lor (Z.lor PTE_W PTE_X) PTE_R) PTE_U.

Definition zeroed (s : kmem) (x : Z) : Prop := forall a, in_page x a -> rd (km_mem s) a = 0.

Lemma leaf_user e x : 0 <= e -> page_ok e x ->
  PTE2PA (leaf_pte x uperm) = x /\ PTE_FLAGS (leaf_pte x uperm) <> PTE_V.
Proof.
  intros He Hx. destruct (page_ok_pte _ _ He Hx). destruct (leaf_pte_decode x uperm) as (-> & -> & _); done.
Qed.

Lemma leaves_pa s l T xs :
  vm_inv s l T root -> Forall (frame_ok s l T) xs -> PTE2PA <$> ((fun x => leaf_pte x uperm) <$> xs) = xs.
Proof.
  intros Hinv Hf. pose proof (vm_inv_end _ _ _ _ Hinv). induction Hf as [|x xs [Hx _] _ IH]; [done|].
  cbn. destruct (leaf_user (km_end s) x) as [-> _]; auto. by f_equal.
Qed.

Lemma owned_leaves s l T xs :
  vm_inv s l T root -> NoDup xs -> Forall (frame_ok s l T) xs -> owned s l T ((fun x => leaf_pte x uperm) <$> xs).
Proof.
  intros Hinv Hnd Hf. pose proof (vm_inv_end _ _ _ _ Hinv). split; [by erewrite leaves_pa|].
  apply Forall_fmap. eapply Forall_impl; [exact Hf|]. intros x Hx. simpl.
  destruct (leaf_user (km_end s) x) as [-> ?]; [done|apply Hx|done].
Qed.

Lemma mapped_ext m m' T T' a vs :
  vpage a -> a + Z.of_nat (length vs) * PGSIZE <= 2 ^ 39 ->
  (forall p, vpage p -> a <= p < a + Z.of_nat (length vs) * PGSIZE -> pt_get m' T' p = pt_get m T p) ->
  mapped m T a vs -> mapped m' T' a vs.
Proof.
  intros Ha Hmax H Hm i v Hi. assert (i < length vs)%nat by by eapply lookup_lt_Some.
  rewrite H; [by apply Hm| |]; [apply vpage_plus; [done|]|]; unfold PGSIZE in *; lia.
Qed.

(** What a failing [uvmalloc] leaves behind: the pages it had added are
    unmapped again. *)
Lemma uvmalloc_undo s l T base news :
  vm_inv s l T root -> vpage base -> base + Z.of_nat (length news) * PGSIZE <= MAXVA ->
  NoDup news -> Forall (frame_ok s l T) news ->
  mapped (km_mem s) T base ((fun x => leaf_pte x uperm) <$> news) ->
  exists s', (_ ← uvmdealloc root (base + Z.of_nat (length news) * PGSIZE) base; mret 0) c s = Ok 0 c s' /\
    vm_inv s' (rev news ++ l) T root /\ km_end s' = km_end s /\
    (forall p, vpage p -> pt_get (km_mem s') T p =
       if (base <=? p) && (p <? base + Z.of_nat (length news) * PGSIZE) then None else pt_get (km_mem s) T p) /\
    (forall x, outside T (rev news ++ l) x -> rd (km_mem s') x = rd (km_mem s) x).
Proof.
  intros Hinv Hb Hmax Hnd Hf Hm. set (top := base + _).
  assert (0 <= base <= 2 ^ 38) by (destruct Hb; rewrite MAXVA_eq in *; unfold PGSIZE in *; lia).
  assert (PGROUNDUP base = base) as Eb by (apply PGROUNDUP_id; [unfold PGSIZE in *; lia|apply Hb]).
  assert (PGROUNDUP top = top) as Et.
  { apply PGROUNDUP_id; [rewrite MAXVA_eq in Hmax; unfold top, PGSIZE in *; lia|].
    destruct Hb as [Hb _]. unfold top, page_aligned, PGSIZE in *. by rewrite Z.mod_add by lia. }
  destruct (uvmdealloc_ok ((fun x => leaf_pte x uperm) <$> news) s l T top base)
    as (s' & Hr & Hi & He & Hg & Hfr); rewrite ?Eb, ?Et; try done.
  { unfold top, PGSIZE in *; lia. } { by rewrite length_fmap. } { by apply owned_leaves. }
  rewrite (leaves_pa s l T news) in Hi, Hfr by done. rewrite Eb, Et in Hg. exists s'. split_and!; try done.
  by erewrite bind_ok by exact Hr.
Qed.

(** One iteration of [uvmalloc] on a page [x] that [kalloc] returned: either
    the page is mapped, or the table cannot be completed and [x] is freed. *)
Lemma uvmalloc_iter s x l T a :
  vm_inv s (x :: l) T root -> vpage a -> a < MAXVA -> pt_get (km_mem s) T a = None ->
  exists s1 r s3 l3 T3, kalloc c s = Ok x c s1 /\ x <> 0 /\
    mappages root a PGSIZE x uperm c (upd_mem (fun m => memset m x 0 PGSIZE) s1) = Ok r c s3 /\
    vm_ext root s s3 (x :: l) l3 T T3 /\ frame_ok s3 l3 T3 x /\ zeroed s3 x /\
    ((r = 0 /\ forall p, vpage p -> pt_get (km_mem s3) T3 p =
        if p =? a then Some (leaf_pte x uperm) else pt_get (km_mem s) T p) \/
     (r = -1 /\ l3 = [] /\ forall p, vpage p -> pt_get (km_mem s3) T3 p = pt_get (km_mem s) T p)).
Proof.
  intros Hinv Ha Hmax Hn.
  destruct (alloc_zeroed s x l T Hinv) as (s1 & Hka & Hx0 & Hi2 & Hf2 & He2 & Hz2 & Hfr2 & Hg2).
  set (s2 := upd_mem _ s1) in *.
  destruct (map_page s2 l T a x uperm) as (r & s3 & l3 & T3 & Hr & Hext & Hres); auto.
  { by rewrite Hg2. } { apply Hf2. } { done. }
  exists s1, r, s3, l3, T3. split_and!; auto.
  - assert (vm_ext root s s2 (x :: l) l T T) as H12; [|by eapply vm_ext_trans].
    split; auto. { intros y Hy. by right. } intros b [_ Hb]. apply Hfr2, Hb. by left.
  - by eapply frame_ok_ext.
  - intros b Hb. rewrite (ve_frame _ _ _ _ _ _ _ Hext); [by apply Hz2|]. by eapply frame_outside.
  - destruct Hres as [[-> Hg]|(-> & -> & Hg)]; [left|right]; split_and!; auto; intros p Hp;
      rewrite Hg by done; by rewrite Hg2.
Qed.

Lemma frames_zeroed s s' l l' T T' x :
  vm_inv s l T root -> vm_ext root s s' l l' T T' -> frame_ok s l T x -> zeroed s x -> zeroed s' x.
Proof.
  intros Hinv Hext Hf Hz a Ha. rewrite (ve_frame _ _ _ _ _ _ _ Hext); [by apply Hz|]. by eapply frame_outside.
Qed.

(** The outcome of [uvmalloc] from [a] on, when the pages of [news] have
    already been mapped at [base]. *)
Definition uvmalloc_post (s s' : kmem) (l l' : list Z) (T T' : tree) (base newsz r : Z)
    (news : list Z) (n : nat) : Prop :=
  let a := base + Z.of_nat (length news) * PGSIZE in
  let same p := pt_get (km_mem s') T' p = pt_get (km_mem s) T p in
  (r = newsz /\ vm_ext root s s' l l' T T' /\
   (exists more, length more = n /\ NoDup more /\
     Forall (fun x => x ∈ l /\ frame_ok s' l' T' x /\ zeroed s' x) more /\
     mapped (km_mem s') T' a ((fun x => leaf_pte x uperm) <$> more)) /\
   (forall p, vpage p -> ~ a <= p < a + Z.of_nat n * PGSIZE -> same p)) \/
  (r = 0 /\ vm_inv s' l' T' root /\ km_end s' = km_end s /\
   (forall p, vpage p -> if (base <=? p) && (p <? a) then pt_get (km_mem s') T' p = None else same p) /\
   (forall b, outside T l b -> (forall x, x ∈ news -> ~ in_page x b) -> rd (km_mem s') b = rd (km_mem s) b)).

Lemma uvmalloc_fail s s1 l l1 T T1 base newsz news n :
  vm_inv s l T root -> vm_ext root s s1 l l1 T T1 -> vpage base ->
  base + Z.of_nat (length news) * PGSIZE <= MAXVA ->
  NoDup news -> Forall (frame_ok s l T) news ->
  (forall p, vpage p -> pt_get (km_mem s1) T1 p = pt_get (km_mem s) T p) ->
  mapped (km_mem s) T base ((fun x => leaf_pte x uperm) <$> news) ->
  exists s' l', (_ ← uvmdealloc root (base + Z.of_nat (length news) * PGSIZE) base; mret 0) c s1 = Ok 0 c s' /\
    uvmalloc_post s s' l l' T T1 base newsz 0 news n.
Proof.
  intros Hinv Hext Hb Hmax Hnd Hf Hg Hm. rewrite MAXVA_eq in Hmax.
  destruct (uvmalloc_undo s1 l1 T1 base news) as (s' & Hr & Hi & He & Hg' & Hfr); auto.
  { apply Hext. } { eapply Forall_impl; [exact Hf|]. intros x Hx. by eapply frame_ok_ext. }
  { eapply mapped_ext; [done|rewrite length_fmap; unfold PGSIZE in *; lia| |exact Hm]. intros p Hp _. by apply Hg. }
  exists s', (rev news ++ l1). split; [done|]. right. split_and!; auto.
  - rewrite He. apply Hext.
  - intros p Hp. specialize (Hg' p Hp). rewrite (Hg p Hp) in Hg'. by case_match.
  - intros b Hob Hnb. rewrite Hfr; [by apply Hext|]. destruct (outside_ext _ _ _ _ _ _ _ b Hext Hob) as [H1 H2].
    split; [done|]. intros x. rewrite elem_of_app, elem_of_rev. naive_solver.
Qed.

(** The new page extends the pages mapped so far. *)
Lemma uvmalloc_next x s s3 l l3 T T3 base news :
  let a := base + Z.of_nat (length news) * PGSIZE in
  vm_inv s (x :: l) T root -> vm_ext root s s3 (x :: l) l3 T T3 -> vpage base -> a < MAXVA ->
  frame_ok s3 l3 T3 x -> zeroed s3 x -> NoDup news ->
  Forall (fun x0 => frame_ok s (x :: l) T x0 /\ zeroed s x0) news ->
  mapped (km_mem s) T base ((fun x => leaf_pte x uperm) <$> news) ->
  (forall p, vpage p -> pt_get (km_mem s3) T3 p = if p =? a then Some (leaf_pte x uperm) else pt_get (km_mem s) T p) ->
  NoDup (news ++ [x]) /\ Forall (fun x0 => frame_ok s3 l3 T3 x0 /\ zeroed s3 x0) (news ++ [x]) /\
  mapped (km_mem s3) T3 base ((fun x => leaf_pte x uperm) <$> (news ++ [x])).
Proof.
  intros a Hinv Hext Hb Hmax Hxf Hxz Hnd Hf Hm Hg. rewrite MAXVA_eq in *. split_and!.
  - apply NoDup_app. split_and!; [done| |apply NoDup_singleton]. intros y Hy ->%list_elem_of_singleton.
    eapply Forall_forall in Hf as [(_ & Hni & _) _]; [|exact Hy]. apply Hni. by left.
  - apply Forall_app. split; [|by constructor]. eapply Forall_impl; [exact Hf|]. intros y [Hy Hz]. split.
    + by eapply frame_ok_ext. + by eapply (frames_zeroed s s3).
  - rewrite fmap_app. apply mapped_app. rewrite length_fmap. split.
    + eapply mapped_ext; [done|rewrite length_fmap; unfold a, PGSIZE in *; lia| |exact Hm].
      intros p Hp Hpr. rewrite length_fmap in Hpr. rewrite Hg by done. fold a in Hpr. by bfalse (p =? a).
    + intros [|i] v Hi; simpl in Hi; simplify_eq. rewrite Z.add_0_r. fold a. rewrite Hg; [by rewrite Z.eqb_refl|].
      apply vpage_plus; [done|unfold a in *; lia].
Qed.

Lemma uvmalloc_post_step x s s3 s' l l3 l' T T3 T' base newsz r news n :
  let a := base + Z.of_nat (length news) * PGSIZE in
  vm_inv s (x :: l) T root -> vm_ext root s s3 (x :: l) l3 T T3 -> vpage base ->
  a + Z.of_nat (S n) * PGSIZE <= MAXVA ->
  frame_ok s3 l3 T3 x -> zeroed s3 x -> pt_get (km_mem s) T a = None ->
  (forall p, vpage p -> pt_get (km_mem s3) T3 p = if p =? a then Some (leaf_pte x uperm) else pt_get (km_mem s) T p) ->
  uvmalloc_post s3 s' l3 l' T3 T' base newsz r (news ++ [x]) n ->
  uvmalloc_post s s' (x :: l) l' T T' base newsz r news (S n).
Proof.
  intros a Hinv Hext Hb Hmax Hxf Hxz Hnone Hg Hpost.
  assert (vpage a) as Ha by (apply vpage_plus; [done|rewrite MAXVA_eq in *; unfold a, PGSIZE in *; lia]).
  unfold uvmalloc_post in *. rewrite length_app, Nat2Z.inj_add, Z.mul_add_distr_r, Z.add_assoc, Z.mul_1_l in Hpost.
  fold a in Hpost |- *. destruct Hpost as [(-> & Hext' & (more & Hlen & Hnd & Hf & Hm) & Hsame)|
    (-> & Hi & He & Hsame & Hfr)]; [left|right]; split_and!; auto.
  - by eapply vm_ext_trans.
  - exists (x :: more). split_and!; [simpl; lia| | |].
    + constructor; [|done]. intros Hin. eapply Forall_forall in Hf as [Hin' _]; [|exact Hin]. by apply Hxf.
    + constructor.
      * split_and!; [by left|by eapply frame_ok_ext|]. eapply (frames_zeroed s3); eauto. apply Hext.
      * eapply Forall_impl; [exact Hf|]. intros y (Hy & ?). split; [|done]. by apply Hext.
    + cbn [fmap list_fmap]. apply mapped_cons. split; [|done].
      rewrite Hsame by (done || unfold PGSIZE; lia). rewrite Hg by done. by rewrite Z.eqb_refl.
  - intros p Hp Hnr. rewrite Hsame by (done || (unfold PGSIZE in *; lia)). rewrite Hg by done.
    by assert (p =? a = false) as -> by (apply Z.eqb_neq; unfold PGSIZE in *; lia).
  - rewrite He. apply Hext.
  - intros p Hp. specialize (Hsame p Hp). rewrite Hg in Hsame by done. simpl length in Hsame.
    destruct (vpage_cases a p) as [->|[?|?]]; [done|done|..].
    + rewrite Z.ltb_irrefl, andb_false_r. rewrite Hnone. unfold PGSIZE in Hsame.
      by (destruct (Z.leb_spec base a), (Z.ltb_spec a (a + 4096)); simpl in Hsame;
        [|lia|unfold a, PGSIZE in *; lia|lia]).
    + unfold PGSIZE in *. bfalse (p =? a). by bdestruct_all.
    + unfold PGSIZE in *. by bdestruct_all.
  - intros b Hob Hnb. rewrite Hfr.
    + by apply Hext.
    + by eapply outside_ext.
    + intros y [Hy| ->%list_elem_of_singleton]%elem_of_app; [by apply Hnb|]. apply Hob. by left.
Qed.

Lemma uvmalloc_loop_ok n fuel s l T base newsz news :
  vm_inv s l T root -> vpage base -> (n <= fuel)%nat -> 0 <= newsz <= MAXVA ->
  let a := base + Z.of_nat (length news) * PGSIZE in
  PGROUNDUP newsz = a + Z.of_nat n * PGSIZE ->
  NoDup news -> Forall (fun x => frame_ok s l T x /\ zeroed s x) news ->
  mapped (km_mem s) T base ((fun x => leaf_pte x uperm) <$> news) ->
  (forall p, vpage p -> a <= p < a + Z.of_nat n * PGSIZE -> pt_get (km_mem s) T p = None) ->
  exists r s' l' T', uvmalloc_loop root a base newsz fuel c s = Ok r c s' /\
    uvmalloc_post s s' l l' T T' base newsz r news n.
Proof.
  intros Hinv Hb. revert fuel s l T news Hinv.
  induction n as [|n IH]; intros fuel s l T news Hinv Hfuel Hsz a Hup Hnd Hf Hm Hfree.
  - pose proof (PGROUNDUP_bounds newsz) as Hpb. rewrite MAXVA_eq in Hsz. unfold PGSIZE in Hpb.
    exists newsz, s, l, T. split.
    { destruct fuel; cbn [uvmalloc_loop]; bfalse (a <? newsz); done. }
    left. split_and!; try done. { by apply vm_ext_refl. } exists []. split_and!; try done. constructor.
  - pose proof (PGROUNDUP_bounds newsz) as Hpb. pose proof (PGROUNDUP_max newsz Hsz) as Hpm. rewrite MAXVA_eq in *.
    assert (vpage a) as Ha by (apply vpage_plus; [done|unfold a, PGSIZE in *; destruct Hb; lia]).
    assert (a < newsz) as Hlt by (unfold PGSIZE in *; lia).
    destruct fuel as [|fuel]; [lia|]. cbn [uvmalloc_loop]. btrue (a <? newsz).
    assert (Forall (frame_ok s l T) news) as Hf' by (eapply Forall_impl; [exact Hf|by intros ? [? _]]).
    assert (base + Z.of_nat (length news) * PGSIZE <= MAXVA) by (fold a; rewrite MAXVA_eq; unfold PGSIZE in *; lia).
    destruct l as [|x l].
    { erewrite bind_ok by (apply kalloc_empty; [done|done|apply Hinv]). cbn [Z.eqb].
      destruct (uvmalloc_fail s s [] [] T T base newsz news (S n)) as (s' & l' & Hr & Hp); auto.
      { by apply vm_ext_refl. } by exists 0, s', l', T. }
    destruct (uvmalloc_iter s x l T a) as (s1 & r & s3 & l3 & T3 & Hka & Hx0 & Hr & Hext & Hxf & Hxz & Hres); auto.
    { rewrite MAXVA_eq. lia. } { apply Hfree; [done|unfold PGSIZE; lia]. }
    erewrite bind_ok by exact Hka. bfalse (x =? 0). rewrite bind_modify. erewrite bind_ok by exact Hr.
    destruct Hres as [[-> Hg]|(-> & -> & Hg)]; cbn [Z.eqb negb].
    + destruct (uvmalloc_next x s s3 l l3 T T3 base news) as (Hnd' & Hf3 & Hm3); auto.
      { fold a. rewrite MAXVA_eq. lia. }
      rewrite u64_next by (destruct Ha; lia).
      destruct (IH fuel s3 l3 T3 (news ++ [x])) as (r & s' & l' & T' & Hr' & Hpost); auto; try lia.
      { apply Hext. }
      { rewrite length_app. simpl length. unfold a in Hup. lia. }
      { intros p Hp Hpr. rewrite length_app in Hpr. simpl length in Hpr. rewrite Hg by done.
        assert (p =? a = false) as -> by (apply Z.eqb_neq; unfold a, PGSIZE in *; lia).
        apply Hfree; [done|unfold a, PGSIZE in *; lia]. }
      rewrite length_app, Nat2Z.inj_add, Z.mul_add_distr_r, Z.add_assoc in Hr'. fold a in Hr'.
      rewrite Z.mul_1_l in Hr'. exists r, s', l', T'. split; [done|]. eapply uvmalloc_post_step; eauto.
      { fold a. rewrite MAXVA_eq. lia. } { apply Hfree; [done|unfold a, PGSIZE; lia]. }
    + destruct (kfree_vm s3 [] T3 x) as (s4 & Hk4 & Hi4 & He4 & Hfr4 & Hg4); [apply Hext|done|].
      erewrite bind_ok by exact Hk4.
      destruct (uvmalloc_fail s s4 (x :: l) [x] T T3 base newsz news (S n)) as (s' & l' & Hr' & Hp); auto.
      { destruct Hext as [_ Ee Es _ En Ef]. split; auto; [congruence|set_solver|].
        intros b [Hb1 Hb2]. rewrite Hfr4; [by apply Ef|]. apply Hb2. by left. }
      { intros p Hp. by rewrite Hg4, Hg. }
      by exists 0, s', l', T3.
Qed.

(** [uvmalloc] from a size whose pages are mapped to a larger one. *)
Lemma uvmalloc_ok s l T oldsz newsz :
  vm_inv s l T root -> 0 <= oldsz <= newsz -> newsz <= MAXVA ->
  let a := PGROUNDUP oldsz in let n := Z.to_nat ((PGROUNDUP newsz - a) / PGSIZE) in
  (forall p, vpage p -> a <= p < PGROUNDUP newsz -> pt_get (km_mem s) T p = None) ->
  exists r s' l' T', uvmalloc root oldsz newsz c s = Ok r c s' /\
    uvmalloc_post s s' l l' T T' a newsz r [] n.
Proof.
  intros Hinv Hsz Hmax a n Hfree. unfold uvmalloc. bfalse (newsz <? oldsz). fold a.
  pose proof (PGROUNDUP_mono oldsz newsz Hsz Hmax) as Hle. fold a in Hle.
  assert (vpage a) as Ha by (apply PGROUNDUP_vpage; lia).
  pose proof (PGROUNDUP_bounds newsz) as Hpb. rewrite MAXVA_eq in Hmax.
  assert (PGROUNDUP newsz = a + Z.of_nat n * PGSIZE) as Hup.
  { pose proof (PGROUNDUP_aligned newsz) as An. destruct Ha as [Ha _]. unfold n, page_aligned, PGSIZE in *.
    assert ((PGROUNDUP newsz - a) mod 4096 = 0) by (by rewrite Zminus_mod, An, Ha).
    pose proof (Z.div_mod (PGROUNDUP newsz - a) 4096). pose proof (Z.div_pos (PGROUNDUP newsz - a) 4096). lia. }
  destruct (uvmalloc_loop_ok n (Z.to_nat ((newsz - a) / PGSIZE + 1)) s l T a newsz [])
    as (r & s' & l' & T' & Hr & Hpost); auto; try done.
  { unfold n, PGSIZE in *. assert ((PGROUNDUP newsz - a) / 4096 <= (newsz - a) / 4096 + 1); [|lia].
    replace ((newsz - a) / 4096 + 1) with ((newsz - a + 1 * 4096) / 4096) by (by rewrite Z.div_add by lia).
    apply Z.div_le_mono; lia. }
  { rewrite MAXVA_eq. lia. } { simpl length. lia. } { constructor. }
  { simpl length. rewrite Z.add_0_r. intros p Hp Hpr. apply Hfree; [done|]. unfold PGSIZE in *. lia. }
  simpl length in Hr. rewrite Z.add_0_r in Hr. eauto 10.
Qed.
End user.

(** ** The properties *)

Section props.
Context (root : Z) (c : core).
Hypothesis Hc : core_wf c.
Hypothesis Hlk : lock_free LkKmem c.
Implicit Types (s : kmem) (l : list Z) (T : tree).

(** C15: [mappages] on unmapped pages: on success exactly the pages of the range
    are mapped, to consecutive physical pages with the given permissions, and
    every other mapping is unchanged; it fails only when no page is left for a
    table.  In both cases the table stays well formed and no byte outside it
    and the free pages is written. *)
Theorem mappages_spec s l T va size pa perm :
  vm_inv s l T root -> 0 <= va -> 0 < size -> va + size <= MAXVA ->
  page_aligned pa -> 0 <= pa -> pa + size + PGSIZE < 2 ^ 54 -> 0 <= perm < 1024 ->
  (forall p, vpage p -> PGROUNDDOWN va <= p < va + size -> pt_get (km_mem s) T p = None) ->
  exists r s' l' T', mappages root va size pa perm c s = Ok r c s' /\ vm_ext root s s' l l' T T' /\
    ((r = 0 /\ forall p, vpage p -> pt_get (km_mem s') T' p =
        if (PGROUNDDOWN va <=? p) && (p <? va + size)
        then Some (leaf_pte (pa + (p - PGROUNDDOWN va)) perm) else pt_get (km_mem s) T p) \/
     (r = -1 /\ l' = [])).
Proof.
  intros Hinv Hva Hsz Hmax Hpa Hpa0 Hpab Hperm Hfree.
  pose proof (PGROUNDDOWN_bounds (va + size - 1)) as Hb.
  pose proof (PGROUNDDOWN_aligned (va + size - 1)) as Hal.
  destruct (mappages_ok root c Hc Hlk s l T va size pa perm)
    as (r & s' & l' & T' & k & Hr & Hext & Hg & Hend); auto.
  { intros p Hp Hpr. apply Hfree; [done|lia]. }
  exists r, s', l', T'. split_and!; auto. destruct Hend as [[-> Hk]|(-> & _ & _ & ->)]; [left|by right].
  split; [done|]. intros p Hp. rewrite Hg, Hk by done. destruct Hp as [Hp _].
  replace (p <? PGROUNDDOWN (va + size - 1) + PGSIZE) with (p <? va + size); [done|].
  unfold page_aligned, PGSIZE in *. pose proof (Z.div_mod p 4096).
  pose proof (Z.div_mod (PGROUNDDOWN (va + size - 1)) 4096).
  destruct (Z.ltb_spec p (va + size)), (Z.ltb_spec p (PGROUNDDOWN (va + size - 1) + 4096)); lia.
Qed.

(** C16: [uvmalloc]: on success the new pages are fresh, distinct, zero-filled and
    mapped user-accessible between the old and the new size; on failure (0)
    every mapping is as before.  All other mappings, and all bytes outside the
    table and the free pages, are unchanged in both cases. *)
Theorem uvmalloc_spec s l T oldsz newsz :
  vm_inv s l T root -> 0 <= oldsz <= newsz -> newsz <= MAXVA ->
  (forall p, vpage p -> PGROUNDUP oldsz <= p < PGROUNDUP newsz -> pt_get (km_mem s) T p = None) ->
  exists r s' l' T', uvmalloc root oldsz newsz c s = Ok r c s' /\ vm_inv s' l' T' root /\
    (forall b, outside T l b -> rd (km_mem s') b = rd (km_mem s) b) /\
    let same p := pt_get (km_mem s') T' p = pt_get (km_mem s) T p in
    ((r = newsz /\ exists more, Z.of_nat (length more) = (PGROUNDUP newsz - PGROUNDUP oldsz) / PGSIZE /\
       NoDup more /\ Forall (fun x => x ∈ l /\ frame_ok s' l' T' x /\ zeroed s' x) more /\
       mapped (km_mem s') T' (PGROUNDUP oldsz) ((fun x => leaf_pte x uperm) <$> more) /\
       (forall p, vpage p -> ~ PGROUNDUP oldsz <= p < PGROUNDUP newsz -> same p)) \/
     (r = 0 /\ forall p, vpage p -> same p)).
Proof.
  intros Hinv Hsz Hmax Hfree.
  destruct (uvmalloc_ok root c Hc Hlk s l T oldsz newsz) as (r & s' & l' & T' & Hr & Hpost); auto.
  pose proof (PGROUNDUP_mono oldsz newsz Hsz Hmax) as Hle.
  assert (0 <= (PGROUNDUP newsz - PGROUNDUP oldsz) / PGSIZE) by (apply Z.div_pos; unfold PGSIZE; lia).
  unfold uvmalloc_post in Hpost. simpl length in Hpost. rewrite Z.add_0_r in Hpost.
  exists r, s', l', T'. split; [done|].
  destruct Hpost as [(-> & Hext & (more & Hlen & Hnd & Hf & Hm) & Hsame)|(-> & Hi & _ & Hsame & Hfr)].
  - split_and!; [apply Hext|apply Hext|]. left. split; [done|]. exists more. split_and!; auto; [lia|].
    intros p Hp Hn. apply Hsame; [done|]. intros Hin. apply Hn.
    pose proof (PGROUNDUP_vpage newsz) as [An _]; [lia|]. pose proof (PGROUNDUP_vpage oldsz) as [Ao _]; [lia|].
    rewrite Z2Nat.id in Hin by done. unfold page_aligned, PGSIZE in *.
    assert ((PGROUNDUP newsz - PGROUNDUP oldsz) mod 4096 = 0) by (by rewrite Zminus_mod, An, Ao).
    pose proof (Z.div_mod (PGROUNDUP newsz - PGROUNDUP oldsz) 4096). lia.
  - split_and!; [done| |right; split; [done|]].
    + intros b Hb. apply Hfr; [done|]. by intros x ?%not_elem_of_nil.
    + intros p Hp. specialize (Hsame p Hp). simpl in Hsame.
      by destruct (Z.leb_spec (PGROUNDUP oldsz) p), (Z.ltb_spec p (PGROUNDUP oldsz)); simpl in Hsame; try lia.
Qed.

(** Shrinking undoes growing: after a successful [uvmalloc] the matching
    [uvmdealloc] succeeds, frees every page that was added and restores every
    mapping. *)
Theorem uvmalloc_uvmdealloc s l T oldsz newsz s1 :
  vm_inv s l T root -> 0 <= oldsz <= newsz -> 0 < newsz <= MAXVA ->
  (forall p, vpage p -> PGROUNDUP oldsz <= p < PGROUNDUP newsz -> pt_get (km_mem s) T p = None) ->
  uvmalloc root oldsz newsz c s = Ok newsz c s1 ->
  exists s2 l2 T2, uvmdealloc root newsz oldsz c s1 = Ok oldsz c s2 /\ vm_inv s2 l2 T2 root /\
    (forall p, vpage p -> pt_get (km_mem s2) T2 p = pt_get (km_mem s) T p) /\
    (forall b, outside T l b -> rd (km_mem s2) b = rd (km_mem s) b).
Proof.
  intros Hinv Hsz Hmax Hfree Hrun.
  destruct (uvmalloc_ok root c Hc Hlk s l T oldsz newsz) as (r & s' & l' & T' & Hr & Hpost); auto; [lia|].
  rewrite Hrun in Hr. injection Hr as <- <-.
  unfold uvmalloc_post in Hpost. simpl length in Hpost. rewrite Z.add_0_r in Hpost.
  destruct Hpost as [(_ & Hext & (more & Hlen & Hnd & Hf & Hm) & Hsame)|(E & _)]; [|lia].
  assert (Forall (frame_ok s1 l' T') more) as Hf' by (eapply Forall_impl; [exact Hf|by intros ? (_ & ? & _)]).
  assert (PGROUNDUP newsz = PGROUNDUP oldsz + Z.of_nat (length more) * PGSIZE) as Hup.
  { rewrite Hlen. pose proof (PGROUNDUP_mono oldsz newsz Hsz (proj2 Hmax)).
    pose proof (PGROUNDUP_vpage newsz) as [An _]; [lia|]. pose proof (PGROUNDUP_vpage oldsz) as [Ao _]; [lia|].
    unfold page_aligned, PGSIZE in *.
    assert ((PGROUNDUP newsz - PGROUNDUP oldsz) mod 4096 = 0) by (by rewrite Zminus_mod, An, Ao).
    pose proof (Z.div_mod (PGROUNDUP newsz - PGROUNDUP oldsz) 4096).
    pose proof (Z.div_pos (PGROUNDUP newsz - PGROUNDUP oldsz) 4096). lia. }
  destruct (uvmdealloc_ok root c Hc Hlk ((fun x => leaf_pte x uperm) <$> more) s1 l' T' newsz oldsz)
    as (s2 & Hr2 & Hi2 & _ & Hg2 & Hfr2); auto.
  { apply Hext. } { lia. } { by rewrite length_fmap. } { eapply owned_leaves; eauto. apply Hext. }
  rewrite (leaves_pa root s1 l' T' more) in Hi2, Hfr2 by (done || apply Hext).
  exists s2, (rev more ++ l'), T'. split_and!; auto.
  - intros p Hp. rewrite Hg2 by done. rewrite <- Hlen, <- Hup in Hsame.
    destruct (Z.leb_spec (PGROUNDUP oldsz) p), (Z.ltb_spec p (PGROUNDUP newsz)); simpl;
      try (apply Hsame; [done|lia]). symmetry. apply Hfree; [done|lia].
  - intros b Hb. rewrite Hfr2; [by apply Hext|]. destruct (outside_ext _ _ _ _ _ _ _ b Hext Hb) as [H1 H2].
    split; [done|]. intros x [Hx|Hx]%elem_of_app; [|by apply H2]. rewrite elem_of_rev in Hx.
    eapply Forall_forall in Hf as [Hx' _]; [|exact Hx]. by apply Hb.
Qed.
End props.
