(* ===== verification/VmCopy.v ===== *)
(** * Copying between kernel and user space: proofs about kernel/vm.c

    User memory as a program sees it is a partial map from virtual addresses
    to bytes ([ubyte]).  [copyin], [copyinstr] and [copyout] work page by
    page; they are shown to be the byte-by-byte accesses of that map, for any
    alignment and any number of pages. *)

From Stdlib Require Import ZArith Lia.
From stdpp Require Import base gmap list numbers strings.
From S2P Require Import Prelude Riscv Core Spinlock Kstring Kalloc Vm VmTree VmUser.
Local Open Scope Z_scope.

(** ** The user's view of memory *)

(** The physical page of a user-accessible virtual address. *)
Definition upage (m : memory) (T : tree) (va : Z) : option Z :=
  if va <? MAXVA then
    match pt_get m T (PGROUNDDOWN va) with
    | Some v => if pte_has v PTE_U && negb (PTE2PA v =? 0) then Some (PTE2PA v) else None
    | None => None
    end
  else None.

Definition uaddr (m : memory) (T : tree) (va : Z) : option Z :=
  pa ← upage m T va; Some (pa + (va - PGROUNDDOWN va)).

Definition ubyte (m : memory) (T : tree) (va : Z) : option Z :=
  pa ← uaddr m T va; Some (rd m pa).

(** Reading [n] bytes, and reading a string of at most [n] bytes with its NUL. *)
Fixpoint uread (m : memory) (T : tree) (va : Z) (n : nat) : option (list Z) :=
  match n with
  | O => Some []
  | S n => b ← ubyte m T va; l ← uread m T (va + 1) n; Some (b :: l)
  end.

(** The readable bytes before the first unmapped one, and the result of a copy
    of [n] bytes into the kernel. *)
Fixpoint uprefix (m : memory) (T : tree) (va : Z) (n : nat) : list Z :=
  match n with
  | O => []
  | S n => match ubyte m T va with Some b => b :: uprefix m T (va + 1) n | None => [] end
  end.

Definition copied (m : memory) (T : tree) (va : Z) (n : nat) : Z * list Z :=
  match uread m T va n with Some l => (0, l) | None => (-1, uprefix m T va n) end.

Fixpoint ureadstr (m : memory) (T : tree) (va : Z) (n : nat) : option (list Z) :=
  match n with
  | O => None
  | S n => b ← ubyte m T va;
           if b =? 0 then Some [0] else l ← ureadstr m T (va + 1) n; Some (b :: l)
  end.

Lemma PGROUNDDOWN_in va d :
  page_aligned va -> 0 <= d < PGSIZE -> PGROUNDDOWN (va + d) = va.
Proof.
  intros Ha Hd. rewrite PGROUNDDOWN_mod. unfold page_aligned, PGSIZE in *.
  rewrite <- Z.add_mod_idemp_l, Ha, Z.add_0_l, Z.mod_small by lia. lia.
Qed.

(** Addresses of one page are translated alike. *)
Lemma upage_page m T va va' :
  PGROUNDDOWN va = PGROUNDDOWN va' -> upage m T va = upage m T va'.
Proof.
  intros E. unfold upage. rewrite E. replace (va' <? MAXVA) with (va <? MAXVA); [done|].
  pose proof (PGROUNDDOWN_bounds va). pose proof (PGROUNDDOWN_bounds va'). rewrite E in *.
  pose proof (PGROUNDDOWN_aligned va') as A. unfold page_aligned, PGSIZE in *. rewrite MAXVA_eq.
  pose proof (Z.div_mod (PGROUNDDOWN va') 4096).
  destruct (Z.ltb_spec va (2 ^ 38)), (Z.ltb_spec va' (2 ^ 38)); lia.
Qed.

Lemma PGROUNDDOWN_same va i :
  0 <= i < PGSIZE - (va - PGROUNDDOWN va) -> PGROUNDDOWN (va + i) = PGROUNDDOWN va.
Proof.
  intros Hi. pose proof (PGROUNDDOWN_bounds va).
  replace (va + i) with (PGROUNDDOWN va + (va - PGROUNDDOWN va + i)) by lia.
  apply PGROUNDDOWN_in; [apply PGROUNDDOWN_aligned|lia].
Qed.

(** The bytes from [va] to the end of its page. *)
Lemma ubyte_page m T va i :
  0 <= i < PGSIZE - (va - PGROUNDDOWN va) ->
  ubyte m T (va + i) = pa ← upage m T va; Some (rd m (pa + (va - PGROUNDDOWN va) + i)).
Proof.
  intros Hi. unfold ubyte, uaddr. rewrite (PGROUNDDOWN_same va i Hi).
  rewrite (upage_page m T (va + i) va) by by apply PGROUNDDOWN_same.
  destruct (upage m T va); simpl; [|done]. do 2 f_equal. lia.
Qed.

Lemma uread_app m T va n k :
  uread m T va (n + k) = a ← uread m T va n; b ← uread m T (va + Z.of_nat n) k; Some (a ++ b).
Proof.
  revert va. induction n as [|n IH]; intros va; cbn [uread Nat.add mbind option_bind].
  - rewrite Z.add_0_r. by destruct (uread m T va k).
  - destruct (ubyte m T va); simpl; [|done]. rewrite IH.
    replace (va + 1 + Z.of_nat n) with (va + Z.of_nat (S n)) by lia.
    destruct (uread m T (va + 1) n); simpl; [|done]. by destruct (uread _ _ _ k).
Qed.

Lemma uprefix_read m T va n k a :
  uread m T va n = Some a -> uprefix m T va (n + k) = a ++ uprefix m T (va + Z.of_nat n) k.
Proof.
  revert va a. induction n as [|n IH]; intros va a; cbn [uread uprefix Nat.add]; [intros [= <-]; by rewrite Z.add_0_r|].
  destruct (ubyte m T va) as [b|]; simpl; [|done]. destruct (uread m T (va + 1) n) as [r|] eqn:E; simpl; [|done].
  intros [= <-]. rewrite (IH _ r E). simpl. do 2 f_equal. f_equal. lia.
Qed.

Lemma uread_run m T va a n :
  (forall i, 0 <= i < Z.of_nat n -> ubyte m T (va + i) = Some (rd m (a + i))) ->
  uread m T va n = Some (rdn m a n).
Proof.
  revert va a. induction n as [|n IH]; intros va a H; [done|]. cbn [uread].
  rewrite <- (Z.add_0_r va) at 1. rewrite H by lia. cbn [mbind option_bind]. rewrite (IH _ (a + 1)).
  - by rewrite rdn_S, Z.add_0_r.
  - intros i Hi. replace (va + 1 + i) with (va + (i + 1)) by lia. rewrite H by lia. do 2 f_equal. lia.
Qed.

Lemma uread_page m T va n :
  (0 < n)%nat -> Z.of_nat n <= PGSIZE - (va - PGROUNDDOWN va) ->
  uread m T va n = pa ← upage m T va; Some (rdn m (pa + (va - PGROUNDDOWN va)) n).
Proof.
  intros Hn Hle. destruct (upage m T va) as [pa|] eqn:E; cbn [mbind option_bind].
  - apply uread_run. intros i Hi. rewrite ubyte_page, E by lia. done.
  - destruct n as [|n]; [lia|]. cbn [uread]. rewrite <- (Z.add_0_r va) at 1.
    rewrite ubyte_page, E by lia. done.
Qed.

Lemma ureadstr_page m T va n k :
  Z.of_nat n <= PGSIZE - (va - PGROUNDDOWN va) -> (0 < n)%nat ->
  ureadstr m T va (n + k) =
    pa ← upage m T va;
    let '(l, b) := copyinstr_page m (pa + (va - PGROUNDDOWN va)) n in
    if (b : bool) then Some l else l' ← ureadstr m T (va + Z.of_nat n) k; Some (l ++ l').
Proof.
  intros Hle Hn. destruct (upage m T va) as [pa|] eqn:E; cbn [mbind option_bind].
  2:{ destruct n as [|n]; [lia|]. cbn [ureadstr Nat.add]. rewrite <- (Z.add_0_r va) at 1.
      rewrite ubyte_page, E by lia. done. }
  assert (forall i, 0 <= i < Z.of_nat n -> ubyte m T (va + i) = Some (rd m (pa + (va - PGROUNDDOWN va) + i))) as H.
  { intros i Hi. by rewrite ubyte_page, E by lia. }
  clear Hle Hn E. set (a := pa + _) in *. clearbody a. revert va a H.
  induction n as [|n IH]; intros va a H; cbn [copyinstr_page Nat.add ureadstr].
  - rewrite Z.add_0_r. by destruct (ureadstr m T va k).
  - rewrite <- (Z.add_0_r va) at 1. rewrite H, Z.add_0_r by lia. cbn [mbind option_bind].
    destruct (rd m a =? 0); [done|]. rewrite (IH _ (a + 1)).
    + replace (va + 1 + Z.of_nat n) with (va + Z.of_nat (S n)) by lia.
      destruct (copyinstr_page m (a + 1) n) as [l [|]]; [done|]. by destruct (ureadstr _ _ _ k).
    + intros i Hi. replace (va + 1 + i) with (va + (i + 1)) by lia. rewrite H by lia. do 2 f_equal. lia.
Qed.

(** User-accessible pages are owned by the address space, each at one address. *)
Record uspace_ok (s : kmem) (l : list Z) (T : tree) : Prop := mkUspaceOk {
  us_frame : forall va pa, 0 <= va -> upage (km_mem s) T va = Some pa -> frame_ok s l T pa;
  us_inj : forall va va' pa, 0 <= va -> 0 <= va' ->
    upage (km_mem s) T va = Some pa -> upage (km_mem s) T va' = Some pa -> PGROUNDDOWN va = PGROUNDDOWN va'
}.

Section copy.
Context (root : Z) (c : core).
Implicit Types (s : kmem) (l : list Z) (T : tree).

Lemma pt_get_page m T va : pt_get m T (PGROUNDDOWN va) = pt_get m T va.
Proof. unfold pt_get, vpath. by rewrite !PX_PGROUNDDOWN by lia. Qed.

Lemma walkaddr_ok s l T va :
  vm_inv s l T root -> 0 <= va -> walkaddr root va c s = Ok (default 0 (upage (km_mem s) T va)) c s.
Proof.
  intros Hinv Hva. unfold walkaddr, upage. rewrite Z.geb_leb.
  destruct (Z.ltb_spec va MAXVA) as [Hlt|Hge]; [|by btrue (MAXVA <=? va)]. bfalse (MAXVA <=? va).
  erewrite bind_ok by (by apply (walk_noalloc root c va s l T)).
  rewrite pt_get_page. unfold pt_get. destruct (T !! vpath va) as [q|] eqn:Hq; [|done].
  assert (q + 8 * PX 0 va <> 0) by by eapply (slot_nonzero root s l). bfalse (q + 8 * PX 0 va =? 0).
  unfold rdpte. rewrite bind_gets. change (load64 (km_mem s) (q + 8 * PX 0 va)) with (pte_at (km_mem s) q (PX 0 va)).
  destruct (pte_has (pte_at _ _ _) PTE_V); simpl; [|done].
  destruct (pte_has (pte_at _ _ _) PTE_U); simpl; [|done].
  by destruct (Z.eqb_spec (PTE2PA (pte_at (km_mem s) q (PX 0 va))) 0) as [->|].
Qed.

(** The number of bytes handled in one iteration. *)
Lemma chunk va len :
  0 <= va -> 0 < len -> let n := PGSIZE - (va - PGROUNDDOWN va) in
  let n := if n >? len then len else n in
  0 < n <= len /\ n <= PGSIZE - (va - PGROUNDDOWN va) /\
  (n < len -> PGROUNDDOWN va + PGSIZE = va + n).
Proof.
  intros Hva Hlen. pose proof (PGROUNDDOWN_bounds va). cbv zeta. rewrite Z.gtb_ltb.
  destruct (Z.ltb_spec len (PGSIZE - (va - PGROUNDDOWN va))); lia.
Qed.

Lemma upage_some m T va pa : upage m T va = Some pa -> pa <> 0 /\ va < MAXVA.
Proof.
  unfold upage. destruct (Z.ltb_spec va MAXVA); [|done]. destruct (pt_get _ _ _) as [v|]; [|done].
  destruct (pte_has v PTE_U); simpl; [|done]. destruct (Z.eqb_spec (PTE2PA v) 0); simpl; [done|].
  intros [= <-]. done.
Qed.

Lemma upage_down m T va : upage m T (PGROUNDDOWN va) = upage m T va.
Proof. apply upage_page. apply PGROUNDDOWN_id, PGROUNDDOWN_aligned. Qed.

(** The start of the next iteration: the next page, without wrap-around. *)
Lemma next_page va pa m T :
  0 <= va -> upage m T va = Some pa ->
  0 <= PGROUNDDOWN va /\ u64 (PGROUNDDOWN va + PGSIZE) = PGROUNDDOWN va + PGSIZE.
Proof.
  intros Hva Hp. apply upage_some in Hp as [_ Hlt]. rewrite MAXVA_eq in Hlt.
  assert (0 <= PGROUNDDOWN va) by (rewrite PGROUNDDOWN_mod; pose proof (Z.mod_le va 4096); unfold PGSIZE; lia).
  split; [done|]. apply u64_next. pose proof (PGROUNDDOWN_bounds va). lia.
Qed.

Lemma copyin_loop_ok s l T fuel va len acc :
  vm_inv s l T root -> 0 <= va -> 0 <= len -> (Z.to_nat len <= fuel)%nat ->
  copyin_loop root va len acc fuel c s =
    Ok (prod_map id (app acc) (copied (km_mem s) T va (Z.to_nat len))) c s.
Proof.
  intros Hinv. revert va len acc. induction fuel as [|fuel IH]; intros va len acc Hva Hlen Hf; cbn [copyin_loop];
    rewrite Z.gtb_ltb; (destruct (Z.ltb_spec 0 len) as [Hp|Hp]; [|replace len with 0 by lia; simpl; by rewrite app_nil_r]);
    [lia|].
  destruct (chunk va len) as (Hn & Hnp & Hnext); [done|done|].
  set (n := if _ >? len then len else _) in *. clearbody n.
  assert (0 <= PGROUNDDOWN va) by (rewrite PGROUNDDOWN_mod; pose proof (Z.mod_le va 4096); unfold PGSIZE; lia).
  erewrite bind_ok by (by apply (walkaddr_ok s l T)). rewrite upage_down.
  replace (Z.to_nat len) with (Z.to_nat n + Z.to_nat (len - n))%nat by lia.
  pose proof (uread_page (km_mem s) T va (Z.to_nat n) ltac:(lia) ltac:(lia)) as Hpage.
  unfold copied. rewrite uread_app, Hpage.
  destruct (upage (km_mem s) T va) as [pa|] eqn:E; [rewrite !obind_some in *; change (default 0 (Some pa)) with pa|].
  2:{ simpl. destruct (Z.to_nat n) as [|k] eqn:Ek; [lia|]. cbn [Nat.add uprefix]. cbn [uread] in Hpage.
      destruct (ubyte (km_mem s) T va) eqn:Eb; [|by rewrite app_nil_r].
      pose proof (ubyte_page (km_mem s) T va 0 ltac:(lia)) as Hb. rewrite Z.add_0_r, E, Eb in Hb. done. }
  destruct (upage_some _ _ _ _ E) as [Hpa _]. bfalse (pa =? 0). rewrite bind_gets.
  destruct (next_page va pa _ _ Hva E) as [Hd ->]. rewrite IH by (unfold PGSIZE; lia).
  rewrite (uprefix_read _ _ _ _ _ _ Hpage).
  destruct (Z.eq_dec n len) as [En|En].
  - rewrite En, Z.sub_diag. simpl. by rewrite !app_nil_r.
  - rewrite Hnext, Z2Nat.id by lia. unfold copied. destruct (uread (km_mem s) T (va + n) (Z.to_nat (len - n))); simpl; by rewrite <- app_assoc.
Qed.

Lemma copyinstr_loop_ok s l T fuel va max acc :
  vm_inv s l T root -> 0 <= va -> 0 <= max -> (Z.to_nat max <= fuel)%nat ->
  copyinstr_loop root va max acc fuel c s =
    Ok (r ← ureadstr (km_mem s) T va (Z.to_nat max); Some (acc ++ r)) c s.
Proof.
  intros Hinv. revert va max acc. induction fuel as [|fuel IH]; intros va max acc Hva Hlen Hf; cbn [copyinstr_loop];
    rewrite Z.gtb_ltb; (destruct (Z.ltb_spec 0 max) as [Hp|Hp]; [|by replace max with 0 by lia]); [lia|].
  destruct (chunk va max) as (Hn & Hnp & Hnext); [done|done|].
  set (n := if _ >? max then max else _) in *. clearbody n.
  assert (0 <= PGROUNDDOWN va) by (rewrite PGROUNDDOWN_mod; pose proof (Z.mod_le va 4096); unfold PGSIZE; lia).
  erewrite bind_ok by (by apply (walkaddr_ok s l T)). rewrite upage_down.
  replace (Z.to_nat max) with (Z.to_nat n + Z.to_nat (max - n))%nat by lia.
  rewrite ureadstr_page by lia.
  destruct (upage (km_mem s) T va) as [pa|] eqn:E; [rewrite obind_some; change (default 0 (Some pa)) with pa|done].
  destruct (upage_some _ _ _ _ E) as [Hpa _]. bfalse (pa =? 0). rewrite bind_gets.
  destruct (copyinstr_page _ _ _) as [bs [|]]; [done|].
  destruct (next_page va pa _ _ Hva E) as [Hd ->]. rewrite IH by (unfold PGSIZE; lia).
  destruct (Z.eq_dec n max) as [En|En].
  - by rewrite En, Z.sub_diag.
  - rewrite Hnext, Z2Nat.id by lia. destruct (ureadstr _ _ _ _); simpl; [|done]. by rewrite app_assoc.
Qed.

(** Writing into a page the address space owns changes no mapping. *)
Lemma write_frame s l T x m' :
  vm_inv s l T root -> frame_ok s l T x ->
  (forall a, ~ in_page x a -> rd m' a = rd (km_mem s) a) ->
  vm_inv (set_mem m' s) l T root /\ forall va, pt_get m' T va = pt_get (km_mem s) T va.
Proof.
  intros Hinv Hf Hfr. assert (forall a, ~ outside T l a -> rd m' a = rd (km_mem s) a) as Hin.
  { intros a Ha. apply Hfr. intros Hxa. apply Ha. by eapply frame_outside. }
  assert (forall p t a, T !! p = Some t -> in_page t a -> rd m' a = rd (km_mem s) a) as HT.
  { intros p t a Hp Ha. apply Hin. intros [Ho _]. by apply (Ho p t). }
  split; [|intros va; by apply pt_get_ext]. destruct Hinv as (Hk & Hw & Hd). split_and!; simpl.
  - apply kmem_inv_ext; [done|]. intros y a Hy Ha. apply Hin. intros [_ Ho]. by apply (Ho y).
  - by eapply tree_wf_ext.
  - done.
Qed.

(** An address with another translation is outside the chunk. *)
Lemma chunk_other m T va va' n :
  n <= PGSIZE - (va - PGROUNDDOWN va) -> upage m T va' <> upage m T va ->
  (va <=? va') && (va' <? va + n) = false.
Proof.
  intros Hn Hne. apply andb_false_iff. rewrite Z.leb_gt, Z.ltb_ge.
  destruct (decide (va <= va' < va + n)); [|lia]. exfalso. apply Hne, upage_page.
  replace va' with (va + (va' - va)) by lia. apply PGROUNDDOWN_same. lia.
Qed.

(** The bytes a chunk writes, seen through its page. *)
Lemma chunk_read m a d d' bs :
  Forall is_byte bs ->
  Some (rd (wrl m (a + d) bs) (a + d')) =
    if (d <=? d') && (d' <? d + Z.of_nat (length bs)) then bs !! Z.to_nat (d' - d) else Some (rd m (a + d')).
Proof.
  intros Hby. rewrite rd_wrl. replace (a + d' - (a + d)) with (d' - d) by lia.
  destruct (Z.leb_spec d d'), (Z.ltb_spec d' (d + Z.of_nat (length bs))); bdestruct_all; simpl; try done.
  destruct (bs !! Z.to_nat (d' - d)) as [b|] eqn:Eb; [|apply lookup_ge_None in Eb; lia].
  rewrite (nth_lookup_Some _ _ _ _ Eb), u8_small; [done|]. apply (Forall_lookup_1 _ _ _ _ Hby Eb).
Qed.

(** One iteration of [copyout]. *)
Lemma copyout_chunk s l T va pa bs :
  vm_inv s l T root -> uspace_ok s l T -> 0 <= va -> upage (km_mem s) T va = Some pa ->
  Z.of_nat (length bs) <= PGSIZE - (va - PGROUNDDOWN va) -> Forall is_byte bs ->
  let m' := wrl (km_mem s) (pa + (va - PGROUNDDOWN va)) bs in
  vm_inv (set_mem m' s) l T root /\ (forall va', pt_get m' T va' = pt_get (km_mem s) T va') /\
  (forall a, ~ in_page pa a -> rd m' a = rd (km_mem s) a) /\
  (forall va', 0 <= va' -> ubyte m' T va' =
     if (va <=? va') && (va' <? va + Z.of_nat (length bs)) then bs !! Z.to_nat (va' - va)
     else ubyte (km_mem s) T va').
Proof.
  intros Hinv Hus Hva Hpa Hlen Hby m'. pose proof (PGROUNDDOWN_bounds va) as Hb.
  assert (forall a, ~ in_page pa a -> rd m' a = rd (km_mem s) a) as Hfr.
  { intros a Ha. unfold m'. rewrite rd_wrl. unfold in_page in Ha.
    by assert ((pa + (va - PGROUNDDOWN va) <=? a) && (a <? pa + (va - PGROUNDDOWN va) + Z.of_nat (length bs)) = false) as ->
      by (apply andb_false_iff; rewrite Z.leb_gt, Z.ltb_ge; lia). }
  destruct (write_frame s l T pa m') as [Hi Hg]; auto. { by eapply (us_frame _ _ _ Hus). }
  split_and!; auto. intros va' Hva'.
  assert (upage m' T va' = upage (km_mem s) T va') as Hup by (unfold upage; by rewrite Hg).
  unfold ubyte, uaddr. rewrite Hup. destruct (upage (km_mem s) T va') as [pa'|] eqn:E'; simpl.
  - destruct (decide (pa' = pa)) as [->|Hne].
    + assert (PGROUNDDOWN va' = PGROUNDDOWN va) as -> by by eapply (us_inj _ _ _ Hus).
      unfold m'. rewrite chunk_read by done.
      replace (va' - PGROUNDDOWN va - (va - PGROUNDDOWN va)) with (va' - va) by lia.
      by (bdestruct_all).
    + rewrite (chunk_other (km_mem s) T) by congruence. rewrite Hfr; [done|]. intros Ha.
      pose proof (us_frame _ _ _ Hus _ _ Hva' E') as [[Hp1 _] _].
      pose proof (us_frame _ _ _ Hus _ _ Hva Hpa) as [[Hp2 _] _].
      pose proof (PGROUNDDOWN_bounds va').
      eapply (page_disjoint pa pa' (pa' + (va' - PGROUNDDOWN va'))); auto. unfold in_page. lia.
  - by rewrite (chunk_other (km_mem s) T) by congruence.
Qed.

Lemma uspace_ok_same s m' l T :
  (forall va, pt_get m' T va = pt_get (km_mem s) T va) -> uspace_ok s l T -> uspace_ok (set_mem m' s) l T.
Proof.
  intros Hg [H1 H2].
  assert (forall va, upage m' T va = upage (km_mem s) T va) as Hu by (intros va; unfold upage; by rewrite Hg).
  split; simpl.
  - intros va pa Hva. rewrite Hu. by apply H1.
  - intros va va' pa. rewrite !Hu. apply H2.
Qed.

(** What [copyout] of [src] to [dst] did when it stopped after [k] bytes. *)
Definition copyout_post (s s' : kmem) (l : list Z) (T : tree) (dst : Z) (src : list Z) (k r : Z) : Prop :=
  vm_inv s' l T root /\ km_end s' = km_end s /\
  (forall va, pt_get (km_mem s') T va = pt_get (km_mem s) T va) /\
  (forall a, (forall va pa, 0 <= va -> upage (km_mem s) T va = Some pa -> ~ in_page pa a) ->
     rd (km_mem s') a = rd (km_mem s) a) /\
  (forall va, 0 <= va -> ubyte (km_mem s') T va =
     if (dst <=? va) && (va <? dst + k) then src !! Z.to_nat (va - dst) else ubyte (km_mem s) T va) /\
  ((r = 0 /\ k = Z.of_nat (length src)) \/
   (r = -1 /\ 0 <= k < Z.of_nat (length src) /\ ubyte (km_mem s) T (dst + k) = None)).

Lemma copyout_loop_ok fuel s l T dst src :
  vm_inv s l T root -> uspace_ok s l T -> 0 <= dst -> (length src <= fuel)%nat -> Forall is_byte src ->
  exists r s' k, copyout_loop root dst src (Z.of_nat (length src)) fuel c s = Ok r c s' /\
    copyout_post s s' l T dst src k r.
Proof.
  revert s dst src. induction fuel as [|fuel IH]; intros s dst src Hinv Hus Hd Hf Hby; cbn [copyout_loop];
    rewrite Z.gtb_ltb; (destruct (Z.ltb_spec 0 (Z.of_nat (length src))) as [Hp|Hp];
      [|exists 0, s, 0; split; [done|]; unfold copyout_post; split_and!; try done;
        [intros va _; by bdestruct_all|left; lia]]); [lia|].
  destruct (chunk dst (Z.of_nat (length src))) as (Hn & Hnp & Hnext); [done|done|].
  set (n := if _ >? _ then _ else _) in *. clearbody n.
  assert (0 <= PGROUNDDOWN dst) by (rewrite PGROUNDDOWN_mod; pose proof (Z.mod_le dst 4096); unfold PGSIZE; lia).
  erewrite bind_ok by (by apply (walkaddr_ok s l T)). rewrite upage_down.
  destruct (upage (km_mem s) T dst) as [pa|] eqn:E;
    [change (default 0 (Some pa)) with pa|
     exists (-1), s, 0; split; [done|]; unfold copyout_post; split_and!; try done;
       [intros va _; by bdestruct_all|right; split_and!; [done|lia|lia|]; rewrite ubyte_page by lia; by rewrite E]].
  destruct (upage_some _ _ _ _ E) as [Hpa _]. bfalse (pa =? 0). rewrite bind_modify.
  assert (length (take (Z.to_nat n) src) = Z.to_nat n) as Hlt by (rewrite length_take; lia).
  assert (length (drop (Z.to_nat n) src) = (length src - Z.to_nat n)%nat) as Hld by apply length_drop.
  destruct (copyout_chunk s l T dst pa (take (Z.to_nat n) src)) as (Hi1 & Hg1 & Hfr1 & Hb1);
    auto; [lia|by apply Forall_take|]. rewrite Hlt, Z2Nat.id in Hb1 by lia.
  unfold upd_mem. set (s1 := set_mem _ s) in *.
  destruct (next_page dst pa _ _ Hd E) as [Hd' ->].
  destruct (IH s1 (PGROUNDDOWN dst + PGSIZE) (drop (Z.to_nat n) src)) as (r & s' & k & Hr & Hi2 & He2 & Hg2 & Hfr2 & Hb2 & Hend);
    auto; [by apply uspace_ok_same|unfold PGSIZE; lia|lia|by apply Forall_drop|].
  replace (Z.of_nat (length (drop (Z.to_nat n) src))) with (Z.of_nat (length src) - n) in * by lia.
  exists r, s', (n + k). split; [done|]. unfold copyout_post. split_and!; try done.
  - intros va. by rewrite Hg2, Hg1.
  - intros a Ha. rewrite Hfr2; [apply Hfr1; by apply (Ha dst)|]. intros va pa' Hva Hup. apply (Ha va); [done|].
    rewrite <- Hup. unfold upage. by rewrite Hg1.
  - intros va Hva. rewrite Hb2, Hb1 by done. simpl in Hend.
    destruct (Z.leb_spec dst va), (Z.ltb_spec va (dst + n)), (Z.ltb_spec va (dst + (n + k)));
      cbn [andb]; destruct (decide (n < Z.of_nat (length src))) as [Hlt'|Hge];
      try (rewrite (Hnext Hlt') in * ); bdestruct_all; try done.
    1,2: apply lookup_take_lt; lia.
    rewrite lookup_drop. f_equal. lia.
  - destruct Hend as [[-> ->]|(-> & Hk & Hn2)]; [left; lia|right]. split_and!; [done|lia|lia|].
    rewrite Hnext in Hn2 by lia. unfold s1 in Hn2. rewrite Hb1 in Hn2 by lia.
    rewrite <- Z.add_assoc in Hn2.
    assert ((dst <=? dst + (n + k)) && (dst + (n + k) <? dst + n) = false) as Ef
      by (apply andb_false_iff; right; apply Z.ltb_ge; lia).
    by rewrite Ef in Hn2.
Qed.
End copy.

(** C20: [copyout] is the byte-by-byte write of user memory, and nothing else: it
    stores the bytes of [src] in order until the first address that is not
    mapped user-accessible.  It returns 0 when all of them were stored and -1
    otherwise; no mapping, no page of another address space and no byte
    outside user pages changes. *)
Theorem copyout_spec root c s l T dstva src :
  vm_inv s l T root -> uspace_ok s l T -> 0 <= dstva -> Forall is_byte src ->
  exists r s' k, copyout root dstva src (Z.of_nat (length src)) c s = Ok r c s' /\
    copyout_post root s s' l T dstva src k r.
Proof. intros. unfold copyout. rewrite Nat2Z.id. by apply copyout_loop_ok. Qed.

(** What the kernel writes with [copyout] a later [copyin] of the same range reads. *)
Theorem copyout_copyin root c s l T va src s' :
  vm_inv s l T root -> uspace_ok s l T -> 0 <= va -> Forall is_byte src ->
  copyout root va src (Z.of_nat (length src)) c s = Ok 0 c s' ->
  copyin root va (Z.of_nat (length src)) c s' = Ok (0, src) c s'.
Proof.
  intros Hinv Hus Hva Hby Hr. unfold copyout in Hr. rewrite Nat2Z.id in Hr.
  destruct (copyout_loop_ok root c (length src) s l T va src) as (r & s1 & k & Hr' & Hi & _ & _ & _ & Hb & Hend); auto.
  rewrite Hr in Hr'. simplify_eq. destruct Hend as [[_ ->]|[? _]]; [|done].
  unfold copyin. erewrite copyin_loop_ok by (done || lia). rewrite Nat2Z.id. f_equal.
  enough (uread (km_mem s1) T va (length src) = Some src) as Hu by (unfold copied; by rewrite Hu).
  assert (forall i b, src !! i = Some b -> ubyte (km_mem s1) T (va + Z.of_nat i) = Some b) as H.
  { intros i b Hi'. assert (i < length src)%nat by by eapply lookup_lt_Some. rewrite Hb by lia.
    btrue (va <=? va + Z.of_nat i). btrue (va + Z.of_nat i <? va + Z.of_nat (length src)). simpl.
    by replace (Z.to_nat (va + Z.of_nat i - va)) with i by lia. }
  clear -H. revert va H. induction src as [|b src IH]; intros va H; [done|]. cbn [length uread].
  pose proof (H 0%nat b eq_refl) as H0. rewrite Z.add_0_r in H0. rewrite H0, obind_some, IH; [done|].
  intros i b' Hi. replace (va + 1 + Z.of_nat i) with (va + Z.of_nat (S i)) by lia. by apply H.
Qed.

(** C21: [copyin] is the byte-by-byte read of user memory: it returns exactly the
    bytes at [srcva, srcva + len), and -1 exactly when one of them is not
    mapped user-accessible; then the bytes before that one have been stored. *)
Theorem copyin_spec root c s l T srcva len :
  vm_inv s l T root -> 0 <= srcva -> 0 <= len ->
  copyin root srcva len c s = Ok (copied (km_mem s) T srcva (Z.to_nat len)) c s.
Proof.
  intros Hinv Hva Hlen. unfold copyin. erewrite copyin_loop_ok by done. by destruct (copied _ _ _ _).
Qed.

(** C22: [copyinstr] returns the string at [srcva] with its NUL if it ends within
    [max] bytes, all of them mapped user-accessible; -1 otherwise. *)
Theorem copyinstr_spec root c s l T srcva max :
  vm_inv s l T root -> 0 <= srcva -> 0 <= max ->
  copyinstr root srcva max c s = Ok (ureadstr (km_mem s) T srcva (Z.to_nat max)) c s.
Proof.
  intros Hinv Hva Hlen. unfold copyinstr. erewrite copyinstr_loop_ok by done.
  by destruct (ureadstr _ _ _ _).
Qed.
