(* ===== verification/VmExample.v ===== *)
(** * A concrete address space

    A page table with one user page, built in memory by hand: the root table,
    one table per lower level, the user page mapped at address 0 and one free
    page.  The theorems about vm.c are instantiated at this state. *)

From Stdlib Require Import ZArith Lia.
From stdpp Require Import base gmap list numbers strings.
From S2P Require Import Prelude Riscv Core Spinlock Kstring Kalloc Vm VmTree VmUser VmCopy.
Local Open Scope Z_scope.

(** A hart with interrupts on that holds no lock. *)
Definition ex_core : core :=
  mkCore 0 SSTATUS_SIE 0 1 None {[ LkKmem := mkSpinlock 0 "kmem" None ]} [] ∅.

Definition ex_end : Z := KERNBASE + 4096.
Definition ex_R : Z := KERNBASE + 2 * 4096.
Definition ex_A : Z := KERNBASE + 3 * 4096.
Definition ex_B : Z := KERNBASE + 4 * 4096.
Definition ex_F : Z := KERNBASE + 5 * 4096.
Definition ex_G : Z := KERNBASE + 6 * 4096.

Definition ex_mem : memory :=
  store64 (store64 (store64 ∅ (ex_R + 8 * 0) (Z.lor (PA2PTE ex_A) PTE_V))
    (ex_A + 8 * 0) (Z.lor (PA2PTE ex_B) PTE_V)) (ex_B + 8 * 0) (leaf_pte ex_F uperm).

Definition ex_kmem : kmem := mkKmem ex_end ex_G ex_mem.
Definition ex_tree : tree := <[[0; 0] := ex_B]> (<[[0] := ex_A]> {[ [] := ex_R ]}).

Lemma ex_core_wf : core_wf ex_core.
Proof. split_and!; done. Qed.

Lemma ex_lock_free : lock_free LkKmem ex_core.
Proof. by exists "kmem". Qed.

Lemma rd_empty a : rd ∅ a = 0.
Proof. Local Transparent rd. unfold rd. by rewrite lookup_empty. Qed.
#[local] Opaque rd.

Lemma ex_pte t i : page_aligned t -> 0 <= i < 512 ->
  pte_at ex_mem t i =
    if (ex_B =? t) && (0 =? i) then leaf_pte ex_F uperm
    else if (ex_A =? t) && (0 =? i) then Z.lor (PA2PTE ex_B) PTE_V
    else if (ex_R =? t) && (0 =? i) then Z.lor (PA2PTE ex_A) PTE_V else 0.
Proof.
  intros Ht Hi. unfold ex_mem. rewrite !pte_at_store by done.
  replace (pte_at ∅ t i) with 0; [repeat (case_match; try done)|].
  symmetry. apply pte_at_zero; [|done]. intros a _. apply rd_empty.
Qed.

Lemma ex_tree_lookup p t :
  ex_tree !! p = Some t -> (p = [] /\ t = ex_R) \/ (p = [0] /\ t = ex_A) \/ (p = [0; 0] /\ t = ex_B).
Proof. unfold ex_tree. intros H. repeat (apply lookup_insert_Some in H as [[<- <-]|[_ H]]; [auto|]).
  apply lookup_singleton_Some in H as [<- <-]. auto. Qed.

Lemma ex_tree_wf : tree_wf ex_end ex_R ex_mem ex_tree.
Proof.
  split.
  - done.
  - intros p t H. apply ex_tree_lookup in H as [[-> ->]|[[-> ->]|[-> ->]]]; done.
  - intros p q t H1 H2. apply ex_tree_lookup in H1, H2. naive_solver.
  - intros p i t H. apply ex_tree_lookup in H as [[H ->]|[[H ->]|[H ->]]].
    + by destruct p.
    + destruct p as [|? [|]]; simplify_eq/=. done.
    + destruct p as [|? [|? [|]]]; simplify_eq/=. done.
  - intros p t H. apply ex_tree_lookup in H as [[-> _]|[[-> _]|[-> _]]]; simpl; lia.
  - intros p t i H Hl Hi. apply ex_tree_lookup in H as [[-> ->]|[[-> ->]|[-> ->]]]; simpl in Hl; [..|lia];
      rewrite ex_pte by done; cbn [app];
      (destruct (ex_tree !! _) as [q|] eqn:E; [apply ex_tree_lookup in E; naive_solver|]);
      destruct (Z.eqb_spec 0 i) as [<-|]; done.
Qed.

Lemma ex_vm_inv : vm_inv ex_kmem [ex_G] ex_tree ex_R.
Proof.
  split_and!.
  - split_and!; simpl; [done| |by apply NoDup_singleton|by repeat constructor]. split; [done|]. by vm_compute.
  - apply ex_tree_wf.
  - intros p t H Hin. apply list_elem_of_singleton in Hin.
    apply ex_tree_lookup in H as [[_ ->]|[[_ ->]|[_ ->]]]; done.
Qed.

Lemma ex_pt_get va v : vpage va -> pt_get ex_mem ex_tree va = Some v -> va = 0 /\ v = leaf_pte ex_F uperm.
Proof.
  intros Hva. unfold pt_get. destruct (ex_tree !! vpath va) as [q|] eqn:E; [|done].
  apply ex_tree_lookup in E as [[E _]|[[E _]|[E ->]]]; [done..|]. unfold vpath in E.
  injection E as E2 E1. rewrite ex_pte; [|done|apply PX_range; lia].
  destruct (Z.eqb_spec 0 (PX 0 va)) as [E0|]; [|done]. intros [= <-]. split; [|done].
  apply PX_inj; try done; apply Hva.
Qed.

Lemma ex_upage va pa : 0 <= va -> upage ex_mem ex_tree va = Some pa -> PGROUNDDOWN va = 0 /\ pa = ex_F.
Proof.
  intros Hva H. pose proof (upage_some _ _ _ _ H) as [_ Hlt]. rewrite MAXVA_eq in Hlt. unfold upage in H.
  destruct (va <? MAXVA); [|done]. destruct (pt_get _ _ _) as [v|] eqn:E; [|done].
  apply ex_pt_get in E as [E ->].
  - split; [done|]. by vm_compute in H; simplify_eq.
  - split; [apply PGROUNDDOWN_aligned|]. pose proof (PGROUNDDOWN_bounds va).
    rewrite PGROUNDDOWN_mod in *. pose proof (Z.mod_le va 4096). unfold PGSIZE in *. lia.
Qed.

Lemma ex_uspace : uspace_ok ex_kmem [ex_G] ex_tree.
Proof.
  split.
  - intros va pa Hva [_ ->]%ex_upage; [|done]. split_and!; [done|by rewrite list_elem_of_singleton|].
    intros p Hp. apply ex_tree_lookup in Hp as [[_ ?]|[[_ ?]|[_ ?]]]; done.
  - intros va va' pa Hva Hva' [-> _]%ex_upage [-> _]%ex_upage; done.
Qed.

(** ** The theorems at this state *)

Lemma ex_free va : vpage va -> va <> 0 -> pt_get (km_mem ex_kmem) ex_tree va = None.
Proof.
  intros Hva Hne. cbn [km_mem ex_kmem]. destruct (pt_get ex_mem ex_tree va) as [v|] eqn:E; [|done].
  by apply ex_pt_get in E as [? _].
Qed.
#[local] Opaque ex_mem ex_tree ex_kmem mappages uvmalloc uvmdealloc copyout copyout_loop copyin copyinstr.

(** The value a run returns, for evaluation. *)
Definition ret {S A} (r : res S A) : option A := match r with Ok a _ _ => Some a | _ => None end.

Lemma ex_kmem_inv : kmem_inv ex_kmem [ex_G].
Proof. apply ex_vm_inv. Qed.

Lemma kalloc_spec_witness :
  exists s', kalloc ex_core ex_kmem = Ok ex_G ex_core s' /\ kmem_inv s' [] /\ rd (km_mem s') (ex_G + 7) = 5.
Proof.
  destruct (kalloc_spec ex_core ex_kmem [ex_G] ex_core_wf ex_lock_free ex_kmem_inv) as (s' & Hr & Hi & _ & H5 & _).
  exists s'. split; [exact Hr|]. split; [exact Hi|]. apply H5; [discriminate|]. unfold in_page, PGSIZE. simpl. lia.
Defined.

(** The page is taken, refused to the second caller, and given back. *)
Lemma client_conserves_witness :
  exists owned' s' l', client [KAlloc; KAlloc; KFree 0] [] ex_core ex_kmem = Ok owned' ex_core s' /\
    kmem_inv s' l' /\ (owned' ++ l') ≡ₚ [ex_G].
Proof.
  apply (client_conserves [KAlloc; KAlloc; KFree 0] ex_core ex_kmem [] [ex_G] ex_core_wf ex_lock_free ex_kmem_inv);
    [apply NoDup_singleton|apply Forall_nil_2].
Defined.

(** Three pages are left between the end of the kernel and PHYSTOP. *)
Lemma kinit_spec_witness :
  exists c' s', kinit ex_core (mkKmem (PHYSTOP - 3 * 4096 - 100) 0 ∅) = Ok tt c' s' /\
    kmem_inv s' [PHYSTOP - 4096; PHYSTOP - 2 * 4096; PHYSTOP - 3 * 4096].
Proof.
  destruct (kinit_spec ex_core (mkKmem (PHYSTOP - 3 * 4096 - 100) 0 ∅) ex_core_wf) as (c' & s' & Hr & _ & _ & Hi);
    [split; [reflexivity|discriminate]|reflexivity|]. exists c', s'. split; [exact Hr|exact Hi].
Defined.

Lemma mappages_remap_witness : mappages ex_R 100 4096 ex_G PTE_R ex_core ex_kmem = Panic "mappages: remap".
Proof.
  apply (mappages_remap ex_R ex_core ex_core_wf ex_lock_free ex_kmem [ex_G] ex_tree 100 4096 ex_G PTE_R (leaf_pte ex_F uperm));
    [exact ex_vm_inv|done|done|vm_compute; reflexivity].
Defined.

Lemma mappages_spec_witness :
  exists s' T', mappages ex_R 5000 5000 ex_F PTE_R ex_core ex_kmem = Ok 0 ex_core s' /\
    pt_get (km_mem s') T' 8192 = Some (leaf_pte (ex_F + 4096) PTE_R).
Proof.
  destruct (mappages_spec ex_R ex_core ex_core_wf ex_lock_free ex_kmem [ex_G] ex_tree 5000 5000 ex_F PTE_R)
    as (r & s' & l' & T' & Hr & _ & Hres); [exact ex_vm_inv|done|done|done|done|done|done|done|..].
  { intros p Hp Hpr. apply ex_free; [exact Hp|]. change (PGROUNDDOWN 5000) with 4096 in Hpr. lia. }
  assert (ret (mappages ex_R 5000 5000 ex_F PTE_R ex_core ex_kmem) = Some 0) as H0 by (vm_compute; reflexivity).
  rewrite Hr in H0. injection H0 as ->. exists s', T'. split; [exact Hr|].
  destruct Hres as [[_ Hg]|[E _]]; [|discriminate E]. rewrite Hg; [reflexivity|split; [reflexivity|lia]].
Defined.

Lemma uvmalloc_spec_witness :
  exists s' T', uvmalloc ex_R 100 8000 ex_core ex_kmem = Ok 8000 ex_core s' /\
    pt_get (km_mem s') T' 4096 = Some (leaf_pte ex_G uperm) /\ zeroed s' ex_G.
Proof.
  destruct (uvmalloc_spec ex_R ex_core ex_core_wf ex_lock_free ex_kmem [ex_G] ex_tree 100 8000)
    as (r & s' & l' & T' & Hr & _ & _ & Hres); [exact ex_vm_inv|done|done|..].
  { intros p Hp Hpr. apply ex_free; [exact Hp|]. change (PGROUNDUP 100) with 4096 in Hpr. lia. }
  assert (ret (uvmalloc ex_R 100 8000 ex_core ex_kmem) = Some 8000) as H0 by (vm_compute; reflexivity).
  rewrite Hr in H0. injection H0 as ->. exists s', T'. split; [exact Hr|].
  destruct Hres as [(_ & more & Hlen & _ & Hf & Hm & _)|[E _]]; [|discriminate E].
  change ((PGROUNDUP 8000 - PGROUNDUP 100) / PGSIZE) with 1 in Hlen.
  destruct more as [|x [|]]; [discriminate Hlen| |simpl in Hlen; lia]. apply Forall_singleton in Hf as (Hx & _ & Hz).
  apply list_elem_of_singleton in Hx as ->. split; [|exact Hz]. apply (Hm 0%nat _ eq_refl).
Defined.

Lemma uvmalloc_uvmdealloc_witness :
  exists s1 s2, uvmalloc ex_R 100 8000 ex_core ex_kmem = Ok 8000 ex_core s1 /\
    uvmdealloc ex_R 8000 100 ex_core s1 = Ok 100 ex_core s2.
Proof.
  assert (forall p, vpage p -> PGROUNDUP 100 <= p < PGROUNDUP 8000 -> pt_get (km_mem ex_kmem) ex_tree p = None) as Hfree.
  { intros p Hp Hpr. apply ex_free; [exact Hp|]. change (PGROUNDUP 100) with 4096 in Hpr. lia. }
  destruct (uvmalloc_ok ex_R ex_core ex_core_wf ex_lock_free ex_kmem [ex_G] ex_tree 100 8000)
    as (r & s1 & _ & _ & Hr & _); [exact ex_vm_inv|done|done|exact Hfree|].
  assert (ret (uvmalloc ex_R 100 8000 ex_core ex_kmem) = Some 8000) as H0 by (vm_compute; reflexivity).
  rewrite Hr in H0. injection H0 as ->.
  destruct (uvmalloc_uvmdealloc ex_R ex_core ex_core_wf ex_lock_free ex_kmem [ex_G] ex_tree 100 8000 s1)
    as (s2 & _ & _ & Hr2 & _); [exact ex_vm_inv|clear; lia|clear; rewrite MAXVA_eq; lia|exact Hfree|exact Hr|].
  exists s1, s2. split; [exact Hr|exact Hr2].
Defined.

(** A copy that runs from the mapped page into the unmapped one. *)
Lemma copyout_spec_witness :
  exists s' k, copyout ex_R 4090 [1; 2; 3; 4; 5; 6; 7; 8] 8 ex_core ex_kmem = Ok (-1) ex_core s' /\
    copyout_post ex_R ex_kmem s' [ex_G] ex_tree 4090 [1; 2; 3; 4; 5; 6; 7; 8] k (-1).
Proof.
  destruct (copyout_spec ex_R ex_core ex_kmem [ex_G] ex_tree 4090 [1; 2; 3; 4; 5; 6; 7; 8])
    as (r & s' & k & Hr & Hp); [exact ex_vm_inv|exact ex_uspace|done|by repeat constructor|].
  assert (ret (copyout ex_R 4090 [1; 2; 3; 4; 5; 6; 7; 8] 8 ex_core ex_kmem) = Some (-1)) as H0
    by (vm_compute; reflexivity).
  change (Z.of_nat _) with 8 in Hr. rewrite Hr in H0. injection H0 as ->. exists s', k. split; [exact Hr|exact Hp].
Defined.

Lemma copyout_copyin_witness :
  exists s', copyout ex_R 100 [1; 2; 3] 3 ex_core ex_kmem = Ok 0 ex_core s' /\
    copyin ex_R 100 3 ex_core s' = Ok (0, [1; 2; 3]) ex_core s'.
Proof.
  destruct (copyout_loop_ok ex_R ex_core 3 ex_kmem [ex_G] ex_tree 100 [1; 2; 3])
    as (r & s' & k & Hr & Hp); [exact ex_vm_inv|exact ex_uspace|done|simpl; lia|by repeat constructor|].
  change (copyout ex_R 100 [1; 2; 3] 3 ex_core ex_kmem = Ok r ex_core s') in Hr.
  assert (ret (copyout ex_R 100 [1; 2; 3] 3 ex_core ex_kmem) = Some 0) as H0 by (vm_compute; reflexivity).
  rewrite Hr in H0. injection H0 as ->. exists s'. split; [exact Hr|].
  apply (copyout_copyin ex_R ex_core ex_kmem [ex_G] ex_tree 100 [1; 2; 3] s');
    [exact ex_vm_inv|exact ex_uspace|clear; lia|clear; by repeat constructor|exact Hr].
Defined.

Lemma copyin_spec_witness :
  copyin ex_R 4093 3 ex_core ex_kmem = Ok (0, [0; 0; 0]) ex_core ex_kmem /\
  copyin ex_R 4093 4 ex_core ex_kmem = Ok (-1, [0; 0; 0]) ex_core ex_kmem.
Proof.
  split; (rewrite (copyin_spec ex_R ex_core ex_kmem [ex_G] ex_tree); [|exact ex_vm_inv|done|done]);
    f_equal; vm_compute; reflexivity.
Defined.

Lemma copyinstr_spec_witness :
  copyinstr ex_R 4093 3 ex_core ex_kmem = Ok (Some [0]) ex_core ex_kmem /\
  copyinstr ex_R 4096 3 ex_core ex_kmem = Ok None ex_core ex_kmem.
Proof.
  split; (rewrite (copyinstr_spec ex_R ex_core ex_kmem [ex_G] ex_tree); [|exact ex_vm_inv|done|done]);
    f_equal; vm_compute; reflexivity.
Defined.
