(* ===== verification/VmFork.v ===== *)
(** * Copying and freeing address spaces: proofs about kernel/vm.c

    [uvmcopy] gives the child of fork an address space that reads like the
    parent's and shares no page with it, or fails and leaves no trace in the
    mappings; the parent keeps its table, its pages and their contents.
    [uvmfree] gives back every page of an address space, those of the table
    included, and no other page. *)

From Stdlib Require Import ZArith Lia.
From stdpp Require Import base gmap list numbers strings.
From S2P Require Import Prelude Riscv Core Spinlock Kstring Kalloc Vm VmTree VmUser VmCopy VmExample.
Local Open Scope Z_scope.

(** ** The pages of another address space *)

(** The leaf entry for a copy of the page that [v] maps. *)
Definition copy_pte (x v : Z) : Z := leaf_pte x (PTE_FLAGS v).

Definition copies (xs vs : list Z) : list Z := zip_with copy_pte xs vs.

(** Two pages with the same contents. *)
Definition same_page (m : memory) (x y : Z) : Prop :=
  forall d, 0 <= d < PGSIZE -> rd m (x + d) = rd m (y + d).

(** An address space with the table [To] and the leaf entries [vs] beside
    another one with the table [T]: its pages are neither free nor pages of
    [T]. *)
Record beside (old : Z) (To : tree) (vs : list Z) (s : kmem) (l : list Z) (T : tree) : Prop := mkBeside {
  bs_wf : tree_wf (km_end s) old (km_mem s) To;
  bs_table : forall p t, To !! p = Some t -> frame_ok s l T t;
  bs_frames : Forall (fun v => frame_ok s l T (PTE2PA v)) vs;
  bs_mapped : mapped (km_mem s) To 0 vs
}.

Lemma PTE_FLAGS_range v : 0 <= PTE_FLAGS v < 1024.
Proof. unfold PTE_FLAGS. change 1023 with (Z.ones 10). rewrite Z.land_ones by lia. by apply Z.mod_pos_bound. Qed.

Lemma pte_has_flags v f : Z.land 0x3FF f = f -> pte_has (PTE_FLAGS v) f = pte_has v f.
Proof. intros E. unfold pte_has, PTE_FLAGS. by rewrite <- Z.land_assoc, E. Qed.

Lemma flags_valid v : pte_has v PTE_V = true -> Z.lor (PTE_FLAGS v) PTE_V = PTE_FLAGS v.
Proof.
  intros Hv. apply Z.bits_inj'. intros n Hn. rewrite Z.lor_spec. change PTE_V with (2 ^ 0).
  rewrite Z.pow2_bits_eqb by lia. destruct (Z.eqb_spec 0 n) as [<-|]; [|by rewrite orb_false_r].
  rewrite orb_true_r. rewrite <- (pte_has_flags v PTE_V eq_refl) in Hv.
  destruct (Z.testbit (PTE_FLAGS v) 0) eqn:E; [done|]. exfalso. unfold pte_has in Hv.
  apply negb_true_iff, Z.eqb_neq in Hv. apply Hv. apply Z.bits_inj'. intros k Hk.
  rewrite Z.land_spec, Z.bits_0. change PTE_V with (2 ^ 0). rewrite Z.pow2_bits_eqb by lia.
  destruct (Z.eqb_spec 0 k) as [<-|]; [by rewrite E|by rewrite andb_false_r].
Qed.

(** A copy of a valid leaf maps the new page with the same flags. *)
Lemma copy_pte_decode e x v :
  0 <= e -> page_ok e x -> pte_has v PTE_V = true ->
  PTE2PA (copy_pte x v) = x /\ PTE_FLAGS (copy_pte x v) = PTE_FLAGS v.
Proof.
  intros He Hx Hv. destruct (page_ok_pte e x He Hx) as [H1 H2].
  destruct (leaf_pte_decode x (PTE_FLAGS v) H1 H2 (PTE_FLAGS_range v)) as (E1 & E2 & _).
  split; [done|]. unfold copy_pte. by rewrite E2, flags_valid.
Qed.

Lemma pt_get_valid m T va v : pt_get m T va = Some v -> pte_has v PTE_V = true.
Proof. unfold pt_get. intros H. repeat case_match; by simplify_eq. Qed.

Lemma mapped_valid m T a vs : mapped m T a vs -> Forall (fun v => pte_has v PTE_V = true) vs.
Proof. intros H. apply Forall_lookup_2. intros i v Hi. by eapply pt_get_valid, H. Qed.

Lemma copies_pa e xs vs :
  0 <= e -> Forall (page_ok e) xs -> Forall (fun v => pte_has v PTE_V = true) vs -> (length xs <= length vs)%nat ->
  PTE2PA <$> copies xs vs = xs.
Proof.
  intros He Hx. revert vs. induction Hx as [|x xs Hx _ IH]; intros [|v vs] Hv Hl; simpl in *; try done; [lia|].
  apply Forall_cons in Hv as [Hv Hvs]. f_equal; [by eapply copy_pte_decode|]. apply IH; [done|lia].
Qed.

Lemma copies_flags e xs vs :
  0 <= e -> Forall (page_ok e) xs -> Forall (fun v => pte_has v PTE_V = true) vs ->
  Forall (fun v => PTE_FLAGS v <> PTE_V) vs -> Forall (fun v => PTE_FLAGS v <> PTE_V) (copies xs vs).
Proof.
  intros He Hx Hv Hf. apply Forall_lookup_2. intros i w Hi. apply lookup_zip_with_Some in Hi as (x & v & -> & Hix & Hiv).
  eapply Forall_lookup_1 in Hx, Hv, Hf; [|done..]. by destruct (copy_pte_decode e x v He Hx Hv) as [_ ->].
Qed.

Lemma copies_snoc xs vs x v : vs !! length xs = Some v -> copies (xs ++ [x]) vs = copies xs vs ++ [copy_pte x v].
Proof.
  revert vs. induction xs as [|y xs IH]; intros [|w vs] Hv; simplify_eq/=; [done|].
  unfold copies in *. simpl. by rewrite IH.
Qed.

Lemma copies_length xs vs : (length xs <= length vs)%nat -> length (copies xs vs) = length xs.
Proof. intros. unfold copies. rewrite length_zip_with. lia. Qed.

Lemma page_index va n :
  0 <= va < Z.of_nat n * PGSIZE -> exists k, PGROUNDDOWN va = Z.of_nat k * PGSIZE /\ (k < n)%nat.
Proof.
  intros Hva. pose proof (Z.div_mod va PGSIZE). pose proof (Z.mod_pos_bound va PGSIZE).
  exists (Z.to_nat (va / PGSIZE)). rewrite PGROUNDDOWN_mod. unfold PGSIZE in *.
  rewrite Z2Nat.id by (apply Z.div_pos; lia). lia.
Qed.

Lemma PGROUNDDOWN_ge a b : page_aligned a -> a <= b -> a <= PGROUNDDOWN b.
Proof.
  unfold page_aligned. rewrite PGROUNDDOWN_mod. unfold PGSIZE. intros.
  pose proof (Z.div_mod a 4096). pose proof (Z.div_mod b 4096). pose proof (Z.mod_pos_bound b 4096).
  pose proof (Z.div_le_mono a b 4096). lia.
Qed.

Section fork.
Context (old new : Z) (c : core).
Hypothesis Hc : core_wf c.
Hypothesis Hlk : lock_free LkKmem c.

Lemma beside_inv To vs s l T : vm_inv s l T new -> beside old To vs s l T -> vm_inv s l To old.
Proof. intros (Hk & _) []. split_and!; auto. intros p t Hp. by eapply bs_table0. Qed.

Lemma same_page_keep s s' l T x y :
  vm_inv s l T new -> (forall a, outside T l a -> rd (km_mem s') a = rd (km_mem s) a) ->
  frame_ok s l T x -> frame_ok s l T y -> same_page (km_mem s) x y -> same_page (km_mem s') x y.
Proof.
  intros Hi Hfr Hx Hy H d Hd. assert (forall z, in_page z (z + d)) as Hin by (unfold in_page; lia).
  rewrite (Hfr (x + d)) by (by apply (frame_outside new s l T x)).
  rewrite (Hfr (y + d)) by (by apply (frame_outside new s l T y)). by apply H.
Qed.

Definition page_of (To : tree) (vs : list Z) (x : Z) : Prop :=
  (exists p, To !! p = Some x) \/ x ∈ PTE2PA <$> vs.

Lemma beside_page To vs s l T x : beside old To vs s l T -> page_of To vs x -> frame_ok s l T x.
Proof.
  intros [_ Ht Hf _] [[p Hp]|(v & -> & Hv)%list_elem_of_fmap]; [by eapply Ht|].
  rewrite Forall_forall in Hf. by apply Hf.
Qed.

(** The other address space is untouched by whatever does not write to its
    pages or make them free. *)
Lemma beside_keep To vs s s' l l' T T' :
  beside old To vs s l T -> km_end s' = km_end s ->
  (forall x a, page_of To vs x -> in_page x a -> rd (km_mem s') a = rd (km_mem s) a) ->
  (forall x, page_of To vs x -> frame_ok s' l' T' x) -> beside old To vs s' l' T'.
Proof.
  intros [Hw Ht Hf Hm] He Hfr Hok.
  assert (forall p t a, To !! p = Some t -> in_page t a -> rd (km_mem s') a = rd (km_mem s) a) as Hrd.
  { intros p t a Hp Ha. eapply Hfr; [|done]. left. eauto. }
  split.
  - rewrite He. by eapply tree_wf_ext.
  - intros p t Hp. apply Hok. left. eauto.
  - apply Forall_forall. intros v Hv. apply Hok. right. by apply list_elem_of_fmap_2.
  - intros i v Hv. rewrite (pt_get_ext (km_mem s)) by done. by apply Hm.
Qed.

Lemma beside_ext To vs s s' l l' T T' :
  vm_inv s l T new -> beside old To vs s l T -> vm_ext new s s' l l' T T' -> beside old To vs s' l' T'.
Proof.
  intros Hi Hb Hx. eapply (beside_keep _ _ s s' l l' T T'); [done|by eapply ve_end|..].
  - intros x a Hx' Ha. eapply ve_frame; [done|]. eapply frame_outside; [done| |done]. by eapply beside_page.
  - intros x Hx'. eapply frame_ok_ext; [done|]. by eapply beside_page.
Qed.

(** The state of the loop: the pages [xs] of the child are copies of the
    first pages of the parent. *)
Record copying (To : tree) (vs : list Z) (s0 : kmem) (l0 : list Z) (T0 : tree)
    (s : kmem) (l : list Z) (T : tree) (xs : list Z) : Prop := mkCopying {
  cp_ext : vm_ext new s0 s l0 l T0 T;
  cp_beside : beside old To vs s l T;
  cp_nodup : NoDup xs;
  cp_new : Forall (fun x => x ∈ l0 /\ frame_ok s l T x) xs;
  cp_len : (length xs <= length vs)%nat;
  cp_mapped : mapped (km_mem s) T 0 (copies xs vs);
  cp_same : forall i x v, xs !! i = Some x -> vs !! i = Some v -> same_page (km_mem s) x (PTE2PA v);
  cp_rest : forall p, vpage p -> Z.of_nat (length xs) * PGSIZE <= p ->
    pt_get (km_mem s) T p = pt_get (km_mem s0) T0 p
}.

Lemma copying_inv To vs s0 l0 T0 s l T xs : copying To vs s0 l0 T0 s l T xs -> vm_inv s l T new.
Proof. intros []. by eapply ve_inv. Qed.

Lemma vpage_index k : Z.of_nat k * PGSIZE <= MAXVA -> vpage (Z.of_nat k * PGSIZE).
Proof.
  rewrite MAXVA_eq. intros H. split; [|unfold PGSIZE in *; lia].
  unfold page_aligned. by rewrite Z.mod_mul.
Qed.

Lemma mapped_same m m' T T' vs :
  Z.of_nat (length vs) * PGSIZE <= MAXVA ->
  (forall p, vpage p -> p < Z.of_nat (length vs) * PGSIZE -> pt_get m' T' p = pt_get m T p) ->
  mapped m T 0 vs -> mapped m' T' 0 vs.
Proof.
  intros Hm H. rewrite MAXVA_eq in Hm. apply mapped_ext; [done|lia|]. intros p Hp ?. apply H; [done|lia].
Qed.

(** Changes of the table and of free pages that keep the mappings made so far. *)
Lemma copying_ext To vs s0 l0 T0 s s' l l' T T' xs :
  copying To vs s0 l0 T0 s l T xs -> vm_ext new s s' l l' T T' -> Z.of_nat (length xs) * PGSIZE <= MAXVA ->
  (forall p, vpage p -> pt_get (km_mem s') T' p = pt_get (km_mem s) T p) ->
  copying To vs s0 l0 T0 s' l' T' xs.
Proof.
  intros Hcp Hx Hm Hg. pose proof (copying_inv _ _ _ _ _ _ _ _ _ Hcp) as Hi. destruct Hcp as [C1 C2 C3 C4 C5 C6 C7 C8].
  split; auto.
  - by eapply vm_ext_trans.
  - by eapply beside_ext.
  - eapply Forall_impl; [exact C4|]. intros x [? ?]. split; [done|]. by eapply frame_ok_ext.
  - eapply mapped_same; [by rewrite copies_length|intros; by apply Hg|done].
  - intros i x v Hxi Hvi. eapply same_page_keep; [done|by eapply ve_frame|..|by eapply C7].
    + eapply Forall_lookup_1 in C4; [|done]. by destruct C4.
    + destruct C2 as [_ _ C2 _]. by eapply Forall_lookup_1 in C2.
  - intros p Hp Hl. rewrite Hg by done. by apply C8.
Qed.

(** One more page. *)
Lemma copying_snoc To vs s0 l0 T0 s s' l l' T T' xs x v :
  copying To vs s0 l0 T0 s l T xs -> vm_ext new s s' l l' T T' -> vs !! length xs = Some v ->
  Z.of_nat (length vs) * PGSIZE <= MAXVA -> x ∈ l -> frame_ok s' l' T' x -> same_page (km_mem s') x (PTE2PA v) ->
  (forall p, vpage p -> pt_get (km_mem s') T' p =
     if p =? Z.of_nat (length xs) * PGSIZE then Some (copy_pte x v) else pt_get (km_mem s) T p) ->
  copying To vs s0 l0 T0 s' l' T' (xs ++ [x]).
Proof.
  intros Hcp Hx Hv Hm Hxl Hxf Hxs Hg. pose proof (copying_inv _ _ _ _ _ _ _ _ _ Hcp) as Hi.
  assert (length xs < length vs)%nat as Hlt by by eapply lookup_lt_Some.
  destruct Hcp as [C1 C2 C3 C4 C5 C6 C7 C8]. split.
  - by eapply vm_ext_trans.
  - by eapply beside_ext.
  - apply NoDup_app. split_and!; [done| |by apply NoDup_singleton]. intros y Hy ->%list_elem_of_singleton.
    rewrite Forall_forall in C4. destruct (C4 x Hy) as (_ & _ & ? & _). done.
  - apply Forall_app. split; [|constructor; [|done]].
    + eapply Forall_impl; [exact C4|]. intros y [? ?]. split; [done|]. by eapply frame_ok_ext.
    + split; [|done]. by eapply ve_free.
  - rewrite length_app. simpl. lia.
  - rewrite (copies_snoc _ _ _ v) by done. apply mapped_app. rewrite copies_length by lia. split.
    + eapply mapped_same; [rewrite copies_length by lia; unfold PGSIZE in *; lia| |done]. rewrite copies_length by lia.
      intros p Hp ?. rewrite Hg by done. by bfalse (p =? Z.of_nat (length xs) * PGSIZE).
    + intros [|i] w Hw; simplify_eq/=. rewrite Z.add_0_r, Hg by (apply vpage_index; unfold PGSIZE in *; lia). by rewrite Z.eqb_refl.
  - intros i y w Hy Hw. apply lookup_app_Some in Hy as [Hy|[Hi' Hy]].
    + eapply same_page_keep; [done|by eapply ve_frame|..|by eapply C7].
      * eapply Forall_lookup_1 in C4; [|done]. by destruct C4.
      * destruct C2 as [_ _ C2 _]. by eapply Forall_lookup_1 in C2.
    + apply list_lookup_singleton_Some in Hy as [E ->]. replace i with (length xs) in Hw by lia. by simplify_eq.
  - intros p Hp Hl. rewrite length_app in Hl. simpl in Hl. rewrite Hg by done.
    unfold PGSIZE in *. bfalse (p =? Z.of_nat (length xs) * 4096). apply C8; [done|lia].
Qed.

Lemma pt_get_slot m T va v :
  pt_get m T va = Some v -> exists q, T !! vpath va = Some q /\ load64 m (q + 8 * PX 0 va) = v.
Proof. unfold pt_get. intros H. repeat case_match; simplify_eq. eauto. Qed.

(** The parent's entry for the next page. *)
Lemma uvmcopy_walk To vs s l T k v :
  vm_inv s l T new -> beside old To vs s l T -> vs !! k = Some v -> Z.of_nat k * PGSIZE < MAXVA ->
  exists r, walk old (Z.of_nat k * PGSIZE) false c s = Ok r c s /\ r <> 0 /\ load64 (km_mem s) r = v /\ pte_has v PTE_V = true.
Proof.
  intros Hi Hb Hv Hm. pose proof (beside_inv _ _ _ _ _ Hi Hb) as Ho.
  pose proof (bs_mapped _ _ _ _ _ _ Hb k v Hv) as Hg. rewrite Z.add_0_l in Hg.
  destruct (pt_get_slot _ _ _ _ Hg) as (q & Hq & Hl). exists (q + 8 * PX 0 (Z.of_nat k * PGSIZE)).
  split_and!; [|by eapply slot_nonzero|done|by eapply pt_get_valid].
  rewrite (walk_noalloc old c (Z.of_nat k * PGSIZE) s l To) by (done || unfold PGSIZE in *; lia). by rewrite Hq.
Qed.

Lemma uvmcopy_iter To vs s x l T k v :
  vm_inv s (x :: l) T new -> beside old To vs s (x :: l) T -> vs !! k = Some v -> Z.of_nat k * PGSIZE < MAXVA ->
  pt_get (km_mem s) T (Z.of_nat k * PGSIZE) = None ->
  exists s1 r s3 l3 T3, kalloc c s = Ok x c s1 /\ x <> 0 /\
    mappages new (Z.of_nat k * PGSIZE) PGSIZE x (PTE_FLAGS v) c
      (upd_mem (fun m => memmove m x (PTE2PA v) PGSIZE) s1) = Ok r c s3 /\
    vm_ext new s s3 (x :: l) l3 T T3 /\ frame_ok s3 l3 T3 x /\ same_page (km_mem s3) x (PTE2PA v) /\
    ((r = 0 /\ forall p, vpage p -> pt_get (km_mem s3) T3 p =
        if p =? Z.of_nat k * PGSIZE then Some (copy_pte x v) else pt_get (km_mem s) T p) \/
     (r = -1 /\ l3 = [] /\ forall p, vpage p -> pt_get (km_mem s3) T3 p = pt_get (km_mem s) T p)).
Proof.
  intros Hinv Hb Hv Hm Hn.
  assert (forall m a, ~ in_page x a -> rd (memmove m x (PTE2PA v) PGSIZE) a = rd m a) as Hmv.
  { intros m a Ha. rewrite memmove_spec by done. unfold in_page in Ha. by bdestruct_all. }
  destruct (alloc_filled new c Hc Hlk _ s x l T Hinv Hmv) as (s1 & Hka & Hx0 & Hi2 & Hf2 & He2 & Hfr1 & Hfr2 & Hg2).
  set (s2 := upd_mem _ s1) in *.
  assert (vm_ext new s s2 (x :: l) l T T) as H12.
  { split; auto. { intros y Hy. by right. } intros b [_ Hb']. apply Hfr2, Hb'. by left. }
  assert (frame_ok s (x :: l) T (PTE2PA v)) as Hpv.
  { destruct Hb as [_ _ Hb _]. by eapply Forall_lookup_1 in Hb. }
  destruct (map_page new c Hc Hlk s2 l T (Z.of_nat k * PGSIZE) x (PTE_FLAGS v)) as (r & s3 & l3 & T3 & Hr & Hext & Hres);
    [done|apply vpage_index; lia|done|by rewrite Hg2|apply Hf2|apply PTE_FLAGS_range|].
  exists s1, r, s3, l3, T3. split_and!; auto.
  - by eapply vm_ext_trans.
  - by eapply frame_ok_ext.
  - eapply same_page_keep; [exact Hi2|by eapply ve_frame|done|by eapply frame_ok_ext|].
    intros d Hd. simpl. rewrite !memmove_spec by done. unfold in_page in *.
    btrue (x <=? x + d). btrue (x + d <? x + PGSIZE). simpl. replace (PTE2PA v + (x + d - x)) with (PTE2PA v + d) by lia.
    case_match eqn:E; [|done]. exfalso. apply andb_true_iff in E as [?%Z.leb_le ?%Z.ltb_lt].
    destruct Hpv as ([Hp1 _] & Hp2 & _), Hf2 as ([Hp3 _] & _). eapply (page_disjoint x (PTE2PA v) (PTE2PA v + d)); unfold in_page; auto with lia.
    intros ->. apply Hp2. by left.
  - destruct Hres as [[-> Hg]|(-> & -> & Hg)]; [left|right]; split_and!; auto; intros p Hp;
      rewrite Hg by done; by rewrite Hg2.
Qed.

(** The page that could not be mapped goes back to the free list. *)
Lemma uvmcopy_giveback s s3 x l T T3 :
  vm_ext new s s3 (x :: l) [] T T3 -> frame_ok s3 [] T3 x ->
  exists s4, kfree x c s3 = Ok tt c s4 /\ vm_ext new s s4 (x :: l) [x] T T3 /\
    (forall p, pt_get (km_mem s4) T3 p = pt_get (km_mem s3) T3 p).
Proof.
  intros Hx Hf. destruct (kfree_vm new c Hc Hlk s3 [] T3 x) as (s4 & Hk & Hi & He & Hfr & Hg); [by eapply ve_inv|done|].
  exists s4. split_and!; [done| |done]. destruct Hx as [X1 X2 X3 X4 X5 X6]. split; auto.
  - congruence.
  - intros y ->%list_elem_of_singleton. by left.
  - intros a Ha. rewrite Hfr, X6; [done|done|]. destruct Ha as [_ Ha]. apply Ha. by left.
Qed.

Lemma uvmcopy_loop_ok n fuel To vs s0 l0 T0 s l T xs sz :
  copying To vs s0 l0 T0 s l T xs -> (length xs + n = length vs)%nat -> (n <= fuel)%nat ->
  0 <= sz <= MAXVA -> PGROUNDUP sz = Z.of_nat (length vs) * PGSIZE ->
  (forall p, vpage p -> p < PGROUNDUP sz -> pt_get (km_mem s0) T0 p = None) ->
  exists r s' l' T' xs', uvmcopy_loop old new (Z.of_nat (length xs) * PGSIZE) sz fuel c s = Ok r c s' /\
    copying To vs s0 l0 T0 s' l' T' xs' /\
    ((r = inr tt /\ length xs' = length vs) \/ r = inl (Z.of_nat (length xs') * PGSIZE)).
Proof.
  intros Hcp Hn Hf Hsz Hup Hnone. pose proof (PGROUNDUP_max sz Hsz) as Hmax. rewrite Hup in Hmax.
  assert (sz <= PGROUNDUP sz < sz + PGSIZE) as Hbd by (apply PGROUNDUP_bounds; rewrite MAXVA_eq in *; unfold PGSIZE; lia).
  revert fuel s l T xs Hcp Hn Hf. induction n as [|n IH]; intros fuel s l T xs Hcp Hn Hf.
  { exists (inr tt), s, l, T, xs. split_and!; [|done|left; split; [done|lia]].
    replace (length xs) with (length vs) by lia.
    destruct fuel; cbn [uvmcopy_loop]; bfalse (Z.of_nat (length vs) * PGSIZE <? sz); done. }
  destruct fuel as [|fuel]; [lia|]. cbn [uvmcopy_loop].
  assert (Z.of_nat (length xs) * PGSIZE < sz) as Hlt.
  { unfold PGSIZE in *. lia. }
  btrue (Z.of_nat (length xs) * PGSIZE <? sz). pose proof (copying_inv _ _ _ _ _ _ _ _ _ Hcp) as Hi.
  destruct (lookup_lt_is_Some_2 vs (length xs)) as [v Hv]; [lia|].
  destruct (uvmcopy_walk To vs s l T (length xs) v Hi (cp_beside _ _ _ _ _ _ _ _ _ Hcp) Hv) as (q & Hw & Hq & Hld & Hval); [lia|].
  rewrite (bind_ok _ _ _ _ _ _ _ Hw). bfalse (q =? 0). unfold rdpte. rewrite bind_gets, Hld, Hval. cbn [negb].
  destruct l as [|x l].
  { rewrite (bind_ok _ _ _ _ _ _ _ (kalloc_empty c s Hc Hlk (proj1 Hi))). cbn [Z.eqb].
    exists (inl (Z.of_nat (length xs) * PGSIZE)), s, [], T, xs. auto. }
  destruct (uvmcopy_iter To vs s x l T (length xs) v Hi (cp_beside _ _ _ _ _ _ _ _ _ Hcp) Hv)
    as (s1 & r & s3 & l3 & T3 & Hka & Hx0 & Hmp & Hext & Hfx & Hsame & Hres); [lia| |].
  { rewrite (cp_rest _ _ _ _ _ _ _ _ _ Hcp) by (first [apply vpage_index|idtac]; lia).
    apply Hnone; [apply vpage_index; lia|rewrite Hup; unfold PGSIZE in *; lia]. }
  rewrite (bind_ok _ _ _ _ _ _ _ Hka). bfalse (x =? 0). rewrite bind_modify, (bind_ok _ _ _ _ _ _ _ Hmp).
  destruct Hres as [[-> Hg]|(-> & -> & Hg)]; cbn [Z.eqb negb].
  - rewrite u64_next by (rewrite MAXVA_eq in *; unfold PGSIZE in *; lia).
    replace (Z.of_nat (length xs) * PGSIZE + PGSIZE) with (Z.of_nat (length (xs ++ [x])) * PGSIZE) by (rewrite length_app; simpl; lia).
    apply (IH _ _ l3 T3); [|rewrite length_app; simpl; lia|lia]. eapply copying_snoc; eauto. left.
  - destruct (uvmcopy_giveback s s3 x l T T3 Hext Hfx) as (s4 & Hkf & Hext4 & Hg4).
    rewrite (bind_ok _ _ _ _ _ _ _ Hkf).
    exists (inl (Z.of_nat (length xs) * PGSIZE)), s4, [x], T3, xs. split_and!; [done| |by right].
    eapply copying_ext; eauto; [lia|]. intros p Hp. rewrite Hg4. by apply Hg.
Qed.

(** Giving up: the pages copied so far are unmapped and freed. *)
Lemma uvmcopy_undo To vs s0 l0 T0 s l T xs :
  vm_inv s0 l0 T0 new -> beside old To vs s0 l0 T0 -> copying To vs s0 l0 T0 s l T xs ->
  Z.of_nat (length xs) * PGSIZE <= MAXVA -> Forall (fun v => PTE_FLAGS v <> PTE_V) vs ->
  (forall p, vpage p -> p < Z.of_nat (length xs) * PGSIZE -> pt_get (km_mem s0) T0 p = None) ->
  exists s', uvmunmap new 0 (Z.of_nat (length xs)) true c s = Ok tt c s' /\
    vm_inv s' (rev xs ++ l) T new /\ beside old To vs s' (rev xs ++ l) T /\
    (forall a, outside T0 l0 a -> rd (km_mem s') a = rd (km_mem s0) a) /\
    (forall p, vpage p -> pt_get (km_mem s') T p = pt_get (km_mem s0) T0 p).
Proof.
  intros Hi0 Hb0 Hcp Hm Hfl Hnone. pose proof (copying_inv _ _ _ _ _ _ _ _ _ Hcp) as Hi.
  destruct Hcp as [C1 C2 C3 C4 C5 C6 C7 C8]. pose proof (vm_inv_end _ _ _ _ Hi) as He.
  pose proof (mapped_valid _ _ _ _ (bs_mapped _ _ _ _ _ _ C2)) as Hval.
  assert (Forall (page_ok (km_end s)) xs) as Hpg. { eapply Forall_impl; [exact C4|]. intros x [_ Hx]. apply Hx. }
  pose proof (copies_pa _ xs vs He Hpg Hval C5) as Epa. pose proof (copies_flags _ xs vs He Hpg Hval Hfl) as Hcf.
  destruct (uvmunmap_ok new c Hc Hlk (copies xs vs) s l T 0 true) as (s' & Hr & Hi' & He' & Hg & Hfr);
    [done|done|by rewrite copies_length|done|done| |].
  { intros _. split; [by rewrite Epa|]. apply Forall_forall. intros w Hw. rewrite Forall_forall in Hcf. split; [|by apply Hcf].
    assert (PTE2PA w ∈ xs) as Hin by (rewrite <- Epa; by apply list_elem_of_fmap_2).
    rewrite Forall_forall in C4. by apply C4. }
  rewrite copies_length, Epa in * by done. exists s'.
  assert (forall x, x ∈ rev xs ++ l -> x ∈ l0) as Hsub.
  { intros x [Hx|Hx]%elem_of_app; [|by eapply ve_free]. rewrite elem_of_rev in Hx.
    rewrite Forall_forall in C4. by apply C4. }
  assert (forall a, outside T0 l0 a -> rd (km_mem s') a = rd (km_mem s0) a) as Hfr0.
  { intros a Ha. rewrite Hfr; [by eapply ve_frame|]. destruct (outside_ext _ _ _ _ _ _ _ _ C1 Ha) as [H1 _].
    split; [done|]. intros x Hx. by apply Ha, Hsub. }
  split_and!; [done|done| |done|].
  - eapply (beside_keep _ _ s0 s' l0 _ T0); [done|by rewrite He'; eapply ve_end| |].
    + intros x a Hx Ha. apply Hfr0. eapply frame_outside; [done| |done]. by eapply beside_page.
    + intros x Hx. destruct (beside_page _ _ _ _ _ _ Hb0 Hx) as (H1 & H2 & _).
      destruct (beside_page _ _ _ _ _ _ C2 Hx) as (H3 & _ & H4). split_and!; [by rewrite He'| |done]. intros ?. by apply H2, Hsub.
  - intros p Hp. rewrite Hg by done. rewrite Z.add_0_l. destruct Hp as [Hpa Hp].
    destruct (Z.ltb_spec p (Z.of_nat (length xs) * PGSIZE)).
    + btrue (0 <=? p). simpl. by rewrite Hnone.
    + rewrite andb_false_r. by apply C8.
Qed.

(** The child reads what the parent reads. *)
Lemma copying_reads To vs s0 l0 T0 s l T xs va :
  copying To vs s0 l0 T0 s l T xs -> length xs = length vs -> Z.of_nat (length vs) * PGSIZE <= MAXVA ->
  0 <= va < Z.of_nat (length vs) * PGSIZE -> ubyte (km_mem s) T va = ubyte (km_mem s) To va.
Proof.
  intros Hcp Hlen Hm Hva. pose proof (copying_inv _ _ _ _ _ _ _ _ _ Hcp) as Hi.
  destruct Hcp as [C1 C2 C3 C4 C5 C6 C7 C8]. pose proof (vm_inv_end _ _ _ _ Hi) as He.
  destruct (page_index va (length vs) Hva) as (k & Edn & Hk).
  destruct (lookup_lt_is_Some_2 vs k Hk) as [v Hv]. destruct (lookup_lt_is_Some_2 xs k) as [x Hx]; [lia|].
  pose proof (bs_mapped _ _ _ _ _ _ C2 k v Hv) as Go. rewrite Z.add_0_l in Go.
  assert (copies xs vs !! k = Some (copy_pte x v)) as Hcv by (apply lookup_zip_with_Some; eauto).
  pose proof (C6 k _ Hcv) as Gn. rewrite Z.add_0_l in Gn.
  assert (frame_ok s l T x) as Hfx by (eapply Forall_lookup_1 in C4; [|done]; apply C4).
  assert (frame_ok s l T (PTE2PA v)) as Hfv by (destruct C2 as [_ _ C2 _]; by eapply Forall_lookup_1 in C2).
  destruct (copy_pte_decode _ x v He (proj1 Hfx) (pt_get_valid _ _ _ _ Go)) as [Ex Ef].
  unfold ubyte, uaddr, upage. rewrite Edn, Go, Gn, Ex. btrue (va <? MAXVA).
  rewrite <- (pte_has_flags (copy_pte x v) PTE_U eq_refl), Ef, (pte_has_flags v PTE_U eq_refl).
  destruct Hfx as [[_ Hfx] _], Hfv as [[_ Hfv] _], Hi as [[He0 _] _].
  bfalse (x =? 0). bfalse (PTE2PA v =? 0). destruct (pte_has v PTE_U); [|done]. simpl. f_equal.
  apply (C7 k); [done..|]. rewrite <- Edn. pose proof (PGROUNDDOWN_bounds va). lia.
Qed.

Lemma uvmcopy_post To vs s l T sz :
  vm_inv s l T new -> beside old To vs s l T -> 0 <= sz <= MAXVA -> PGROUNDUP sz = Z.of_nat (length vs) * PGSIZE ->
  Forall (fun v => PTE_FLAGS v <> PTE_V) vs ->
  (forall p, vpage p -> p < PGROUNDUP sz -> pt_get (km_mem s) T p = None) ->
  exists r s' l' T', uvmcopy old new sz c s = Ok r c s' /\ vm_inv s' l' T' new /\ beside old To vs s' l' T' /\
    (forall a, outside T l a -> rd (km_mem s') a = rd (km_mem s) a) /\
    ((r = 0 /\ exists xs, copying To vs s l T s' l' T' xs /\ length xs = length vs) \/
     (r = -1 /\ forall p, vpage p -> pt_get (km_mem s') T' p = pt_get (km_mem s) T p)).
Proof.
  intros Hi Hb Hsz Hup Hfl Hnone. pose proof (PGROUNDUP_max sz Hsz) as Hmax.
  assert (copying To vs s l T s l T []) as H0.
  { split; try done; [by apply vm_ext_refl|constructor|simpl; lia]. }
  destruct (uvmcopy_loop_ok (length vs) (Z.to_nat (sz / PGSIZE + 1)) To vs s l T s l T [] sz)
    as (r & s1 & l1 & T1 & xs & Hr & Hcp & Hres); [done|done| |done..|].
  { assert (PGROUNDUP sz < sz + PGSIZE) by (apply PGROUNDUP_bounds; rewrite MAXVA_eq in *; unfold PGSIZE; lia).
    pose proof (Z.div_mod sz PGSIZE). pose proof (Z.mod_pos_bound sz PGSIZE). unfold PGSIZE in *. lia. }
  pose proof (copying_inv _ _ _ _ _ _ _ _ _ Hcp) as Hi1.
  unfold uvmcopy. change 0 with (Z.of_nat (length (@nil Z)) * PGSIZE) at 2. rewrite (bind_ok _ _ _ _ _ _ _ Hr).
  destruct Hres as [[-> Hlen]| ->].
  - exists 0, s1, l1, T1. split_and!; [done|done|by eapply cp_beside|by eapply ve_frame, cp_ext|left; eauto].
  - pose proof (cp_len _ _ _ _ _ _ _ _ _ Hcp) as Hle.
    destruct (uvmcopy_undo To vs s l T s1 l1 T1 xs) as (s2 & Hu & Hi2 & Hb2 & Hf2 & Hg2); auto;
      [unfold PGSIZE in *; lia|intros p Hp ?; apply Hnone; [done|unfold PGSIZE in *; lia]|].
    rewrite Z.div_mul by done. rewrite (bind_ok _ _ _ _ _ _ _ Hu).
    exists (-1), s2, (rev xs ++ l1), T1. split_and!; auto.
Qed.

Lemma beside_reads To vs s s' l l' T T' va :
  beside old To vs s l T -> beside old To vs s' l' T' ->
  (forall x a, page_of To vs x -> in_page x a -> rd (km_mem s') a = rd (km_mem s) a) ->
  0 <= va < Z.of_nat (length vs) * PGSIZE -> ubyte (km_mem s') To va = ubyte (km_mem s) To va.
Proof.
  intros Hb Hb' Hfr Hva. unfold ubyte, uaddr, upage.
  rewrite (pt_get_ext (km_mem s) (km_mem s')) by (intros p t a Hp; apply Hfr; left; eauto).
  destruct (page_index va (length vs) Hva) as (k & Edn & Hk). pose proof (PGROUNDDOWN_bounds va).
  destruct (lookup_lt_is_Some_2 vs k Hk) as [v Hv].
  pose proof (bs_mapped _ _ _ _ _ _ Hb k v Hv) as Go. rewrite Z.add_0_l, <- Edn in Go. rewrite Go.
  case_match; [|done]. case_match; [|done]. simpl. f_equal. apply (Hfr (PTE2PA v)); [|unfold in_page; lia].
  right. apply list_elem_of_fmap_2. by eapply list_elem_of_lookup_2.
Qed.

(** C17: [uvmcopy] gives the child fresh pages, not shared with the parent or with
    each other, mapped with the parent's permissions, that read as the
    parent's memory; or it returns -1 and no mapping of the child is left.
    Either way the parent keeps its mappings and its memory, and no byte
    outside the child's table and the free pages changes. *)
Theorem uvmcopy_spec To vs s l T sz :
  vm_inv s l T new -> beside old To vs s l T -> 0 <= sz <= MAXVA -> PGROUNDUP sz = Z.of_nat (length vs) * PGSIZE ->
  Forall (fun v => PTE_FLAGS v <> PTE_V) vs ->
  (forall p, vpage p -> p < PGROUNDUP sz -> pt_get (km_mem s) T p = None) ->
  exists r s' l' T', uvmcopy old new sz c s = Ok r c s' /\
    vm_inv s' l' T' new /\ vm_inv s' l' To old /\
    (forall a, outside T l a -> rd (km_mem s') a = rd (km_mem s) a) /\
    (forall va, 0 <= va < sz -> ubyte (km_mem s') To va = ubyte (km_mem s) To va) /\
    ((r = 0 /\
      (exists xs, length xs = length vs /\ NoDup xs /\
         Forall (fun x => x ∈ l /\ frame_ok s' l' T' x) xs /\ mapped (km_mem s') T' 0 (copies xs vs)) /\
      (forall va, 0 <= va < sz -> ubyte (km_mem s') T' va = ubyte (km_mem s) To va) /\
      (forall p, vpage p -> PGROUNDUP sz <= p -> pt_get (km_mem s') T' p = pt_get (km_mem s) T p)) \/
     (r = -1 /\ forall p, vpage p -> pt_get (km_mem s') T' p = pt_get (km_mem s) T p)).
Proof.
  intros Hi Hb Hsz Hup Hfl Hnone.
  destruct (uvmcopy_post To vs s l T sz Hi Hb Hsz Hup Hfl Hnone) as (r & s' & l' & T' & Hr & Hi' & Hb' & Hfr & Hres).
  assert (sz <= Z.of_nat (length vs) * PGSIZE) as Hle.
  { rewrite <- Hup. apply PGROUNDUP_bounds. rewrite MAXVA_eq in *. unfold PGSIZE. lia. }
  assert (forall va, 0 <= va < sz -> ubyte (km_mem s') To va = ubyte (km_mem s) To va) as Hpar.
  { intros va Hva. eapply beside_reads; [done|done| |lia]. intros x a Hx Ha. apply Hfr.
    eapply frame_outside; [done| |done]. by eapply beside_page. }
  exists r, s', l', T'. split_and!; [done|done|by eapply beside_inv|done|done|].
  destruct Hres as [[-> (xs & Hcp & Hlen)]|[-> Hg]]; [left|right]; [|done].
  pose proof (PGROUNDUP_max sz Hsz) as Hmax. split_and!; [done|destruct Hcp; eauto 10| |].
  - intros va Hva. rewrite <- Hpar by done. eapply copying_reads; [done|done|lia|lia].
  - destruct Hcp as [_ _ _ _ _ _ _ C8]. intros p Hp Hle'. apply C8; [done|]. rewrite Hlen. lia.
Qed.

(** ** Isolation *)

Lemma copying_upage To vs s0 l0 T0 s l T xs va pa :
  copying To vs s0 l0 T0 s l T xs -> length xs = length vs -> 
  (forall va, 0 <= va -> upage (km_mem s0) T0 va = None) -> 0 <= va -> upage (km_mem s) T va = Some pa ->
  exists k, PGROUNDDOWN va = Z.of_nat k * PGSIZE /\ xs !! k = Some pa.
Proof.
  intros Hcp Hlen Hnone Hva Hu. pose proof (copying_inv _ _ _ _ _ _ _ _ _ Hcp) as Hi.
  destruct Hcp as [C1 C2 C3 C4 C5 C6 C7 C8]. pose proof (vm_inv_end _ _ _ _ Hi) as He.
  destruct (Z.lt_ge_cases va (Z.of_nat (length vs) * PGSIZE)) as [Hlt|Hge].
  - destruct (page_index va (length vs)) as (k & Edn & Hk); [lia|]. exists k. split; [done|].
    destruct (lookup_lt_is_Some_2 vs k Hk) as [v Hv]. destruct (lookup_lt_is_Some_2 xs k) as [x Hx]; [lia|].
    assert (copies xs vs !! k = Some (copy_pte x v)) as Hcv by (apply lookup_zip_with_Some; eauto).
    pose proof (C6 k _ Hcv) as Gn. rewrite Z.add_0_l, <- Edn in Gn.
    pose proof (mapped_valid _ _ _ _ (bs_mapped _ _ _ _ _ _ C2)) as Hval.
    eapply Forall_lookup_1 in Hval; [|done]. eapply Forall_lookup_1 in C4 as [_ Hfx]; [|done].
    destruct (copy_pte_decode _ x v He (proj1 Hfx) Hval) as [Ex _].
    unfold upage in Hu. rewrite Gn, Ex in Hu. repeat case_match; simplify_eq. done.
  - destruct (upage_some _ _ _ _ Hu) as [_ Hm]. specialize (Hnone va Hva).
    assert (vpage (PGROUNDDOWN va)) as Hp.
    { split; [apply PGROUNDDOWN_aligned|]. pose proof (PGROUNDDOWN_bounds va). rewrite MAXVA_eq in *.
      pose proof (PGROUNDDOWN_ge 0 va eq_refl Hva). lia. }
    unfold upage in *. rewrite C8 in Hu; [congruence|done|].
    rewrite Hlen. apply PGROUNDDOWN_ge; [|done]. unfold page_aligned. by rewrite Z.mod_mul.
Qed.

Lemma copying_uspace To vs s0 l0 T0 s l T xs :
  copying To vs s0 l0 T0 s l T xs -> length xs = length vs ->
  (forall va, 0 <= va -> upage (km_mem s0) T0 va = None) -> uspace_ok s l T.
Proof.
  intros Hcp Hlen Hnone. split.
  - intros va pa Hva Hu. destruct (copying_upage _ _ _ _ _ _ _ _ _ _ _ Hcp Hlen Hnone Hva Hu) as (k & _ & Hk).
    destruct Hcp as [_ _ _ C4 _ _ _ _]. eapply Forall_lookup_1 in C4; [|done]. apply C4.
  - intros va va' pa Hva Hva' Hu Hu'.
    destruct (copying_upage _ _ _ _ _ _ _ _ _ _ _ Hcp Hlen Hnone Hva Hu) as (k & -> & Hk).
    destruct (copying_upage _ _ _ _ _ _ _ _ _ _ _ Hcp Hlen Hnone Hva' Hu') as (k' & -> & Hk').
    destruct Hcp as [_ _ C3 _ _ _ _ _]. by rewrite (NoDup_lookup xs k k' pa C3 Hk Hk').
Qed.

(** C18: After a successful [uvmcopy] into an address space without user pages,
    whatever is written to the child's memory the parent's memory reads as
    before. *)
Theorem fork_isolation To vs s l T sz s1 dst src :
  vm_inv s l T new -> beside old To vs s l T -> 0 <= sz <= MAXVA -> PGROUNDUP sz = Z.of_nat (length vs) * PGSIZE ->
  Forall (fun v => PTE_FLAGS v <> PTE_V) vs ->
  (forall p, vpage p -> p < PGROUNDUP sz -> pt_get (km_mem s) T p = None) ->
  (forall va, 0 <= va -> upage (km_mem s) T va = None) ->
  uvmcopy old new sz c s = Ok 0 c s1 -> 0 <= dst -> Forall is_byte src ->
  exists r s2, copyout new dst src (Z.of_nat (length src)) c s1 = Ok r c s2 /\
    forall va, 0 <= va < sz -> ubyte (km_mem s2) To va = ubyte (km_mem s) To va.
Proof.
  intros Hi Hb Hsz Hup Hfl Hnone Hnou Hrun Hdst Hsrc.
  destruct (uvmcopy_post To vs s l T sz Hi Hb Hsz Hup Hfl Hnone) as (r & s1' & l1 & T1 & Hr & Hi1 & Hb1 & Hfr & Hres).
  rewrite Hrun in Hr. simplify_eq. destruct Hres as [[_ (xs & Hcp & Hlen)]|[? _]]; [|done].
  destruct (copyout_loop_ok new c (length src) s1' l1 T1 dst src) as (r & s2 & k & Hco & Hi2 & He2 & _ & Hfr2 & _);
    [done|by eapply copying_uspace|done..|].
  exists r, s2. split; [unfold copyout; by rewrite Nat2Z.id|]. intros va Hva.
  assert (sz <= Z.of_nat (length vs) * PGSIZE) as Hle.
  { rewrite <- Hup. apply PGROUNDUP_bounds. rewrite MAXVA_eq in *. unfold PGSIZE. lia. }
  assert (forall x a, page_of To vs x -> in_page x a -> rd (km_mem s2) a = rd (km_mem s1') a) as Hpg.
  { intros x a Hx Ha. apply Hfr2. intros va' pa Hva' Hu Hpa.
    destruct (copying_upage _ _ _ _ _ _ _ _ _ _ _ Hcp Hlen Hnou Hva' Hu) as (k' & _ & Hk').
    destruct Hcp as [_ _ _ C4 _ _ _ _]. eapply Forall_lookup_1 in C4 as [Hin [[Hal _] _]]; [|done].
    destruct (beside_page _ _ _ _ _ _ Hb Hx) as ([Hax _] & Hxl & _).
    eapply (page_disjoint x pa a); auto. congruence. }
  assert (beside old To vs s2 l1 T1) as Hb2.
  { eapply (beside_keep _ _ s1' s2 l1 l1 T1 T1); auto. intros x Hx. eapply frame_ok_end; [done|]. by eapply beside_page. }
  rewrite (beside_reads To vs s1' s2 l1 l1 T1 T1) by (done || lia).
  eapply beside_reads; [done|done| |lia]. intros x a Hx Ha. apply Hfr.
  eapply frame_outside; [done| |done]. by eapply beside_page.
Qed.

End fork.

(** ** Freeing an address space *)

(** No entry below the table at path [p] maps a page: the entries point to
    the tables of the next level or are invalid. *)
Definition cleared (m : memory) (T : tree) (p : list Z) : Prop :=
  forall q t i, T !! (p ++ q) = Some t -> 0 <= i < 512 ->
    match T !! (p ++ q ++ [i]) with
    | Some u => pte_at m t i = Z.lor (PA2PTE u) PTE_V
    | None => pte_has (pte_at m t i) PTE_V = false
    end.

(** The page [x] holds the table at [p] or one below it. *)
Definition below (T : tree) (p : list Z) (x : Z) : Prop := exists q, T !! (p ++ q) = Some x.

Lemma cleared_child m T p i : cleared m T p -> cleared m T (p ++ [i]).
Proof. intros H q t j. rewrite <- !app_assoc. apply (H (i :: q)). Qed.

Lemma cleared_ext m m' T p :
  cleared m T p -> (forall x a, below T p x -> in_page x a -> rd m' a = rd m a) -> cleared m' T p.
Proof.
  intros H Hm q t i Ht Hi. rewrite (pte_at_ext m); [by apply H| |done]. intros a. apply Hm. by exists q.
Qed.

(** An entry that points to a table passes the test of freewalk. *)
Lemma table_entry e u :
  0 <= e -> page_ok e u ->
  pte_has (Z.lor (PA2PTE u) PTE_V) PTE_V && (Z.land (Z.lor (PA2PTE u) PTE_V) (Z.lor (Z.lor PTE_R PTE_W) PTE_X) =? 0) = true.
Proof.
  intros He Hu. destruct (page_ok_pte e u He Hu) as [H1 H2].
  destruct (pte_encode_decode u PTE_V H1 H2 ltac:(done)) as [_ Ef].
  rewrite <- (pte_has_flags _ PTE_V eq_refl), Ef. simpl. unfold PTE_FLAGS in Ef.
  change (Z.lor (Z.lor PTE_R PTE_W) PTE_X) with (Z.land 0x3FF 14). by rewrite Z.land_assoc, Ef.
Qed.

Section free.
Context (root : Z) (c : core) (e : Z) (m0 : memory) (T : tree).
Hypothesis Hc : core_wf c.
Hypothesis Hlk : lock_free LkKmem c.
Hypothesis He : 0 <= e.
Hypothesis Hwf : tree_wf e root m0 T.

Lemma below_page p x : below T p x -> page_ok e x.
Proof. intros [q Hq]. by eapply tw_page. Qed.

(** A page is in one subtree only. *)
Lemma below_inj p i j x : below T (p ++ [i]) x -> below T (p ++ [j]) x -> i = j.
Proof.
  intros [q Hq] [r Hr]. pose proof (tw_inj _ _ _ _ Hwf _ _ _ Hq Hr) as E. rewrite <- !app_assoc in E. by simplify_eq/=.
Qed.

Lemma below_parent p i t : T !! p = Some t -> ~ below T (p ++ [i]) t.
Proof.
  intros Ht [q Hq]. pose proof (tw_inj _ _ _ _ Hwf _ _ _ Ht Hq) as E. apply (f_equal length) in E.
  rewrite !length_app in E. simpl in E. lia.
Qed.

Lemma below_cases p t x :
  T !! p = Some t -> below T p x <-> x = t \/ exists i, 0 <= i < 512 /\ below T (p ++ [i]) x.
Proof.
  intros Ht. split.
  - intros [[|i q] Hq]; [left; rewrite app_nil_r in Hq; congruence|]. right. exists i. split; [|exists q; by rewrite <- app_assoc].
    destruct (T !! (p ++ [i])) as [u|] eqn:E; [by eapply tw_prefix|].
    pose proof (path_missing _ _ _ _ _ q Hwf E) as E'. rewrite <- app_assoc in E'. simpl in E'. congruence.
  - intros [->|(i & _ & q & Hq)]; [exists []; by rewrite app_nil_r|]. exists (i :: q). by rewrite <- app_assoc in Hq.
Qed.

(** Distinct pages do not overlap. *)
Lemma below_apart p x y a : below T p x -> page_ok e y -> x <> y -> in_page y a -> ~ in_page x a.
Proof.
  intros Hx Hy Hne Ha Hxa. eapply (page_disjoint x y a); [apply (below_page p x Hx)|apply Hy|done..].
Qed.

(** After the entries before [k] of the table [t] at [p] have been freed. *)
Record freed (p : list Z) (t k : Z) (s : kmem) (l : list Z) (s' : kmem) (l' : list Z) : Prop := mkFreed {
  fr_inv : kmem_inv s' l';
  fr_end : km_end s' = e;
  fr_list : forall x, x ∈ l' <-> x ∈ l \/ exists i, 0 <= i < k /\ below T (p ++ [i]) x;
  fr_frame : forall a, ~ in_page t a -> (forall i x, 0 <= i < k -> below T (p ++ [i]) x -> ~ in_page x a) ->
    rd (km_mem s') a = rd (km_mem s) a;
  fr_entries : forall j, k <= j < 512 -> pte_at (km_mem s') t j = pte_at (km_mem s) t j
}.

(** What freewalk on the table at [p] does. *)
Definition freewalk_post (p : list Z) (s : kmem) (l : list Z) (s' : kmem) (l' : list Z) : Prop :=
  kmem_inv s' l' /\ km_end s' = e /\ (forall x, x ∈ l' <-> x ∈ l \/ below T p x) /\
  (forall a, (forall x, below T p x -> ~ in_page x a) -> rd (km_mem s') a = rd (km_mem s) a).

Lemma freed_skip p t k s l s' l' :
  0 <= k -> T !! (p ++ [k]) = None -> freed p t k s l s' l' -> freed p t (k + 1) s l s' l'.
Proof.
  intros Hk Hn [F1 F2 F3 F4 F5]. assert (forall x, ~ below T (p ++ [k]) x) as Hnb.
  { intros x [q Hq]. by rewrite (path_missing _ _ _ _ _ q Hwf Hn) in Hq. }
  split; auto.
  - intros x. rewrite F3. split; (intros [?|(i & Hi & Hb)]; [by left|right; exists i; split; [|done]]); [lia|].
    assert (i <> k) by (intros ->; by apply (Hnb x)). lia.
  - intros a Ha Hb. apply F4; [done|]. intros i x Hi. apply Hb. lia.
  - intros j Hj. apply F5. lia.
Qed.

Lemma freed_child p t u k s l s1 l1 s2 l2 :
  T !! p = Some t -> t ∉ l -> 0 <= k < 512 -> T !! (p ++ [k]) = Some u -> freed p t k s l s1 l1 ->
  freewalk_post (p ++ [k]) s1 l1 s2 l2 ->
  freed p t (k + 1) s l (upd_mem (fun m => store64 m (t + 8 * k) 0) s2) l2.
Proof.
  intros Ht Htl Hk Hu [F1 F2 F3 F4 F5] (W1 & W2 & W3 & W4).
  assert (page_ok e t) as Hpt by by eapply tw_page.
  assert (t ∉ l2) as Htl2.
  { rewrite W3, F3. intros [[?|(i & _ & Hb)]|Hb]; [done|by apply (below_parent p i t)|by apply (below_parent p k t)]. }
  split; auto.
  - apply kmem_inv_ext; [done|]. intros x a Hx Ha. apply rd_store_slot; [done|].
    destruct W1 as (_ & _ & _ & Hok). eapply Forall_forall in Hok; [|exact Hx]. rewrite W2 in Hok.
    intros Hta. eapply (page_disjoint x t a); [apply Hok|apply Hpt|congruence|done|done].
  - intros x. rewrite W3, F3. split.
    + intros [[?|(i & Hi & Hb)]|Hb]; [by left|right; exists i; split; [lia|done]|right; exists k; split; [lia|done]].
    + intros [?|(i & Hi & Hb)]; [by left; left|]. destruct (decide (i = k)) as [->|]; [by right|].
      left. right. exists i. split; [lia|done].
  - intros a Ha Hb. simpl. rewrite rd_store_slot, W4, F4; [done|done| | |done|done].
    + intros i x Hi. apply Hb. lia.
    + intros x. apply Hb. lia.
  - intros j Hj. cbn [km_mem upd_mem set_mem]. rewrite pte_at_store by (apply Hpt || lia).
    bfalse (k =? j). rewrite andb_false_r. rewrite <- F5 by lia. apply pte_at_ext; [|lia].
    intros a Ha. apply W4. intros x Hx. eapply below_apart; [done|done| |done].
    intros ->. by apply (below_parent p k t).
Qed.

Lemma freewalk_ok d p t s l :
  T !! p = Some t -> (length p + d = 3)%nat -> km_end s = e -> kmem_inv s l -> cleared (km_mem s) T p ->
  (forall x, below T p x -> x ∉ l) ->
  exists s' l', freewalk d t c s = Ok tt c s' /\ freewalk_post p s l s' l'.
Proof.
  revert p t s l. induction d as [|d IH]; intros p t s l Ht Hd Hend Hk Hcl Hnew.
  { pose proof (tw_len _ _ _ _ Hwf _ _ Ht). lia. }
  assert (t ∉ l) as Htl by (apply Hnew; exists []; by rewrite app_nil_r).
  cbn [freewalk]. set (body := fun i : Z => _).
  destruct (forM_seqZ (fun k c' s' => c' = c /\ exists l', freed p t k s l s' l') body 512 c s) as (c1 & s1 & Hf & -> & l1 & F1); [lia| | |].
  { split; [done|]. exists l. split; auto.
    intros x. split; [auto|]. intros [?|(i & ? & _)]; [done|lia]. }
  { intros k c' s1 Hk1 (-> & l1 & F). pose proof F as [G1 G2 G3 G4 G5]. unfold body, rdpte. rewrite bind_gets.
    change (load64 (km_mem s1) (t + 8 * k)) with (pte_at (km_mem s1) t k). rewrite G5 by lia.
    pose proof (Hcl [] t k) as Hent. rewrite app_nil_r in Hent. specialize (Hent Ht Hk1). simpl in Hent.
    destruct (T !! (p ++ [k])) as [u|] eqn:Hu.
    - assert (page_ok e u) as Hpu by by eapply tw_page.
      rewrite Hent, (table_entry e u He Hpu), (ptr_decode e u He Hpu).
      destruct (IH (p ++ [k]) u s1 l1 Hu) as (s2 & l2 & Hw & Hpost); auto.
      { rewrite length_app. simpl. lia. }
      { eapply cleared_ext; [by apply cleared_child|]. intros x a Hx Ha. apply G4.
        - intros Hta. eapply (below_apart (p ++ [k]) x t a); eauto; [by eapply tw_page|].
          intros ->. by apply (below_parent p k t).
        - intros i y Hi Hy. apply (below_apart (p ++ [i]) y x a); [done|by eapply below_page| |done]. intros ->.
          pose proof (below_inj _ _ _ _ Hx Hy). lia. }
      { intros x Hx. rewrite G3. intros [Hxl|(i & Hi & Hb)].
        - revert Hxl. apply Hnew. rewrite (below_cases p t) by done. right. eauto.
        - pose proof (below_inj _ _ _ _ Hx Hb). lia. }
      rewrite (bind_ok _ _ _ _ _ _ _ Hw). exists c, (upd_mem (fun m => store64 m (t + 8 * k) 0) s2).
      split_and!; [done|done|]. exists l2. by eapply freed_child.
    - rewrite Hent. exists c, s1. split_and!; [done|done|]. exists l1. apply freed_skip; [lia|done|done]. }
  rewrite (bind_ok _ _ _ _ _ _ _ Hf). destruct F1 as [G1 G2 G3 G4 _].
  destruct (kfree_ok c s1 l1 t) as (s2 & Hkf & Hk2 & He2 & Hfr2); auto.
  { rewrite G2. by eapply tw_page. }
  { rewrite G3. intros [?|(i & _ & Hb)]; [done|]. by apply (below_parent p i t). }
  exists s2, (t :: l1). split; [done|]. split_and!; [done|congruence| |].
  - intros x. rewrite elem_of_cons, G3, (below_cases p t) by done. clear. intuition.
  - intros a Ha. rewrite Hfr2, G4; [done| | |]; [apply Ha|intros i x Hi Hx; apply Ha|apply Ha]; rewrite (below_cases p t) by done; eauto.
Qed.

End free.
Lemma va_of i2 i1 i0 :
  0 <= i2 < 512 -> 0 <= i1 < 512 -> 0 <= i0 < 512 ->
  let va := i2 * 2 ^ 30 + i1 * 2 ^ 21 + i0 * 2 ^ 12 in vpage va /\ vpath va = [i2; i1] /\ PX 0 va = i0.
Proof.
  intros H2 H1 H0 va. assert (page_aligned va) as Ha.
  { unfold page_aligned, PGSIZE, va.
    replace (i2 * 2 ^ 30 + i1 * 2 ^ 21 + i0 * 2 ^ 12) with ((i2 * 2 ^ 18 + i1 * 2 ^ 9 + i0) * 4096) by lia. by apply Z.mod_mul. }
  assert (0 <= va < 2 ^ 39) as Hr by (unfold va; lia). pose proof (PX_split va Hr) as E. rewrite Ha in E.
  pose proof (PX_range 2 va). pose proof (PX_range 1 va). pose proof (PX_range 0 va).
  assert (PX 2 va = i2 /\ PX 1 va = i1 /\ PX 0 va = i0) as (E2 & E1 & E0) by (unfold va in *; lia).
  split_and!; [done| |done]. unfold vpath. by rewrite E2, E1.
Qed.

(** A table without leaf mappings is cleared. *)
Lemma vm_cleared root s l T :
  vm_inv s l T root -> (forall p, vpage p -> pt_get (km_mem s) T p = None) -> cleared (km_mem s) T [].
Proof.
  intros (_ & Hw & _) Hg q t i Ht Hi. simpl in *. destruct (decide (length q < 2)%nat) as [Hq|Hq].
  { by apply (tw_node _ _ _ _ Hw). }
  pose proof (tw_len _ _ _ _ Hw _ _ Ht). destruct (T !! (q ++ [i])) as [u|] eqn:Hu.
  { apply (tw_len _ _ _ _ Hw) in Hu. rewrite length_app in Hu. simpl in Hu. lia. }
  destruct q as [|i2 [|i1 [|]]]; simpl in *; try lia.
  destruct (tw_prefix _ _ _ _ Hw [i2] i1 t Ht) as [[u1 Hu1] Hi1]. destruct (tw_prefix _ _ _ _ Hw [] i2 u1 Hu1) as [_ Hi2].
  destruct (va_of i2 i1 i Hi2 Hi1 Hi) as (Hp & Ep & E0). specialize (Hg _ Hp). unfold pt_get in Hg.
  rewrite Ep, E0, Ht in Hg. by case_match.
Qed.

(** C19: [uvmfree] returns every page of the address space to the free list, the
    pages of the table included, each of them once and no other page, and
    changes no byte outside the pages that are free afterwards. *)
Theorem uvmfree_spec root c s l T vs sz :
  core_wf c -> lock_free LkKmem c -> vm_inv s l T root -> 0 <= sz <= MAXVA ->
  PGROUNDUP sz = Z.of_nat (length vs) * PGSIZE -> mapped (km_mem s) T 0 vs -> owned s l T vs ->
  (forall p, vpage p -> PGROUNDUP sz <= p -> pt_get (km_mem s) T p = None) ->
  exists s' l', uvmfree root sz c s = Ok tt c s' /\ kmem_inv s' l' /\
    (forall x, x ∈ l' <-> x ∈ l \/ x ∈ PTE2PA <$> vs \/ exists p, T !! p = Some x) /\
    (forall a, (forall x, x ∈ l' -> ~ in_page x a) -> rd (km_mem s') a = rd (km_mem s) a).
Proof.
  intros Hc Hlk Hi Hsz Hup Hm Ho Hrest. pose proof (PGROUNDUP_max sz Hsz) as Hmax.
  assert (exists s1, when (sz >? 0) (uvmunmap root 0 (PGROUNDUP sz / PGSIZE) true) c s = Ok tt c s1 /\
    vm_inv s1 (rev (PTE2PA <$> vs) ++ l) T root /\ (forall p, vpage p -> pt_get (km_mem s1) T p = None) /\
    (forall x, outside T (rev (PTE2PA <$> vs) ++ l) x -> rd (km_mem s1) x = rd (km_mem s) x)) as (s1 & Hu & Hi1 & Hg1 & Hfr1).
  { rewrite Z.gtb_ltb. destruct (Z.ltb_spec 0 sz).
    - rewrite Hup, Z.div_mul by done. destruct (uvmunmap_ok root c Hc Hlk vs s l T 0 true) as (s1 & Hu & Hi1 & He1 & Hg1 & Hfr1); auto.
      { done. } { lia. } { destruct Ho as [_ Ho]. eapply Forall_impl; [exact Ho|]. by intros v [_ ?]. }
      exists s1. split_and!; auto. intros p Hp. rewrite Hg1 by done. rewrite Z.add_0_l, <- Hup.
      destruct (Z.ltb_spec p (PGROUNDUP sz)); [destruct Hp; by btrue (0 <=? p)|]. rewrite andb_false_r. by apply Hrest.
    - replace sz with 0 in * by lia. change (PGROUNDUP 0) with 0 in *. destruct vs; [|simpl in Hup; unfold PGSIZE in *; lia].
      exists s. split_and!; auto. intros p Hp. apply Hrest; [done|]. apply Hp. }
  destruct Hi1 as (Hk1 & Hw1 & Hd1).
  destruct (freewalk_ok root c (km_end s1) (km_mem s1) T Hc Hlk ltac:(destruct Hk1; lia) Hw1 3 [] root s1 (rev (PTE2PA <$> vs) ++ l))
    as (s2 & l2 & Hf & Hk2 & _ & Hl2 & Hfr2); auto.
  { by eapply tw_root. } { by eapply vm_cleared. } { intros x [p Hp]. by eapply Hd1. }
  exists s2, l2. split_and!; [|done| |].
  - unfold uvmfree. by rewrite (bind_ok _ _ _ _ _ _ _ Hu).
  - intros x. rewrite Hl2, elem_of_app, elem_of_rev. unfold below. simpl. clear. intuition.
  - intros a Ha. rewrite Hfr2, Hfr1; [done| |intros x Hx; apply Ha, Hl2; by right]. split.
    + intros p t Hp. apply Ha, Hl2. right. by exists p.
    + intros x Hx. apply Ha, Hl2. by left.
Qed.

(** ** A concrete fork *)

Definition ex_H : Z := KERNBASE + 7 * 4096.
Definition ex_I : Z := KERNBASE + 8 * 4096.
Definition ex_N : Z := KERNBASE + 9 * 4096.

(** The address space of VmExample, the empty table [ex_N] of a child and
    three free pages. *)
Definition ex_fork_mem : memory :=
  store64 (store64 ex_mem (ex_G + 8 * 0) ex_H) (ex_H + 8 * 0) ex_I.

Definition ex_fork : kmem := mkKmem ex_end ex_G ex_fork_mem.
Definition ex_free3 : list Z := [ex_G; ex_H; ex_I].
Definition ex_child : tree := {[ [] := ex_N ]}.
Definition ex_leaf : Z := leaf_pte ex_F uperm.

Lemma ex_fork_rd a : ~ in_page ex_G a -> ~ in_page ex_H a -> rd ex_fork_mem a = rd ex_mem a.
Proof. intros. unfold ex_fork_mem. by rewrite !rd_store_slot. Qed.

Lemma ex_apart x a : x ∈ [ex_R; ex_A; ex_B; ex_F; ex_N] -> in_page x a -> rd ex_fork_mem a = rd ex_mem a.
Proof.
  intros Hx Ha. rewrite !elem_of_cons, elem_of_nil in Hx.
  apply ex_fork_rd; unfold in_page, PGSIZE, ex_G, ex_H, ex_R, ex_A, ex_B, ex_F, ex_N in *;
    destruct Hx as [->|[->|[->|[->|[->|[]]]]]]; lia.
Qed.

Lemma ex_child_wf : tree_wf ex_end ex_N ex_fork_mem ex_child.
Proof.
  unfold ex_child. split.
  - done.
  - intros p t H%lookup_singleton_Some. by destruct H as [_ <-].
  - intros p q t H1%lookup_singleton_Some H2%lookup_singleton_Some. naive_solver.
  - intros p i t H%lookup_singleton_Some. destruct H as [H _]. by destruct p.
  - intros p t H%lookup_singleton_Some. destruct H as [<- _]. simpl. lia.
  - intros p t i H%lookup_singleton_Some _ Hi. destruct H as [<- <-]. rewrite lookup_singleton_ne by done.
    rewrite (pte_at_ext ex_mem); [|intros a; apply ex_apart; set_solver|done]. by rewrite ex_pte.
Qed.

Lemma ex_child_lookup p t : ex_child !! p = Some t -> t = ex_N.
Proof. unfold ex_child. by intros [_ <-]%lookup_singleton_Some. Qed.

Lemma ex_fork_inv : vm_inv ex_fork ex_free3 ex_child ex_N.
Proof.
  split_and!.
  - split_and!; [done|vm_compute; done|apply (bool_decide_unpack _); by vm_compute|by repeat constructor].
  - apply ex_child_wf.
  - intros p t ->%ex_child_lookup. apply (bool_decide_unpack _). by vm_compute.
Qed.

Lemma ex_fork_frame x :
  page_ok ex_end x -> bool_decide (x ∉ ex_free3) = true -> x <> ex_N -> frame_ok ex_fork ex_free3 ex_child x.
Proof.
  intros H1 H2 H3. split_and!; [done|by apply bool_decide_eq_true in H2|]. by intros p ->%ex_child_lookup.
Qed.

Lemma ex_beside : beside ex_R ex_tree [ex_leaf] ex_fork ex_free3 ex_child.
Proof.
  assert (forall p t a, ex_tree !! p = Some t -> in_page t a -> rd ex_fork_mem a = rd ex_mem a) as Hrd.
  { intros p t a Ht. apply ex_apart. apply ex_tree_lookup in Ht as [[_ ->]|[[_ ->]|[_ ->]]]; set_solver. }
  split.
  - eapply tree_wf_ext; [apply ex_tree_wf|done].
  - intros p t Ht. apply ex_tree_lookup in Ht as [[_ ->]|[[_ ->]|[_ ->]]]; apply ex_fork_frame; by vm_compute.
  - constructor; [|done]. apply ex_fork_frame; by vm_compute.
  - intros [|i] v Hv; simplify_eq/=. rewrite (pt_get_ext ex_mem) by done. by vm_compute.
Qed.

Lemma ex_child_empty p : pt_get ex_fork_mem ex_child p = None.
Proof. unfold pt_get, ex_child. by rewrite lookup_singleton_ne. Qed.

Lemma ex_sz : 0 <= 4096 <= MAXVA.
Proof. by vm_compute. Qed.

Lemma ex_up : PGROUNDUP 4096 = Z.of_nat (length [ex_leaf]) * PGSIZE.
Proof. by vm_compute. Qed.

Lemma ex_flags : Forall (fun v => PTE_FLAGS v <> PTE_V) [ex_leaf].
Proof. constructor; [by vm_compute|done]. Qed.

Lemma ex_bytes : Forall is_byte [1; 2; 3].
Proof. by repeat constructor. Qed.

#[local] Opaque ex_fork ex_mem ex_tree uvmcopy copyout uvmfree.

Lemma ex_uvmcopy : exists s1, uvmcopy ex_R ex_N 4096 ex_core ex_fork = Ok 0 ex_core s1.
Proof.
  destruct (uvmcopy_post ex_R ex_N ex_core ex_core_wf ex_lock_free ex_tree [ex_leaf] ex_fork ex_free3 ex_child 4096)
    as (r & s' & l' & T' & Hr & _); [apply ex_fork_inv|apply ex_beside|apply ex_sz|apply ex_up|apply ex_flags|intros; apply ex_child_empty|].
  assert (ret (uvmcopy ex_R ex_N 4096 ex_core ex_fork) = Some 0) as H0 by (vm_compute; reflexivity).
  rewrite Hr in H0. injection H0 as ->. exists s'. exact Hr.
Qed.

Lemma uvmcopy_spec_witness :
  exists s' l' T', uvmcopy ex_R ex_N 4096 ex_core ex_fork = Ok 0 ex_core s' /\ vm_inv s' l' T' ex_N /\
    ubyte (km_mem s') T' 5 = ubyte (km_mem ex_fork) ex_tree 5.
Proof.
  destruct (uvmcopy_spec ex_R ex_N ex_core ex_core_wf ex_lock_free ex_tree [ex_leaf] ex_fork ex_free3 ex_child 4096)
    as (r & s' & l' & T' & Hr & Hi & _ & _ & _ & Hres); [apply ex_fork_inv|apply ex_beside|apply ex_sz|apply ex_up|apply ex_flags|intros; apply ex_child_empty|].
  destruct ex_uvmcopy as [s1 H1]. pose proof (eq_trans (eq_sym Hr) H1) as E. injection E as E _. subst r.
  exists s', l', T'. split; [exact Hr|]. split; [exact Hi|]. destruct Hres as [(_ & _ & H & _)|[H _]]; [apply H; lia|discriminate H].
Defined.

Lemma ex_child_upage va : 0 <= va -> upage (km_mem ex_fork) ex_child va = None.
Proof.
  intros _. change (km_mem ex_fork) with ex_fork_mem. unfold upage. rewrite ex_child_empty. by destruct (va <? MAXVA).
Qed.

Lemma fork_isolation_witness :
  exists s1 r s2, uvmcopy ex_R ex_N 4096 ex_core ex_fork = Ok 0 ex_core s1 /\
    copyout ex_N 100 [1; 2; 3] 3 ex_core s1 = Ok r ex_core s2 /\
    ubyte (km_mem s2) ex_tree 101 = ubyte (km_mem ex_fork) ex_tree 101.
Proof.
  destruct ex_uvmcopy as [s1 H1]. exists s1.
  destruct (fork_isolation ex_R ex_N ex_core ex_core_wf ex_lock_free ex_tree [ex_leaf] ex_fork ex_free3 ex_child 4096 s1 100 [1; 2; 3])
    as (r & s2 & H2 & H3); [apply ex_fork_inv|apply ex_beside|apply ex_sz|apply ex_up|apply ex_flags|intros; apply ex_child_empty
      |apply ex_child_upage|exact H1|lia|apply ex_bytes|].
  exists r, s2. split; [exact H1|]. split; [exact H2|]. apply H3. lia.
Defined.

Lemma uvmfree_spec_witness :
  exists s' l', uvmfree ex_R 4096 ex_core ex_kmem = Ok tt ex_core s' /\ kmem_inv s' l' /\ ex_B ∈ l' /\ ex_F ∈ l'.
Proof.
  destruct (uvmfree_spec ex_R ex_core ex_kmem [ex_G] ex_tree [ex_leaf] 4096) as (s' & l' & Hr & Hi & Hl & _);
    [apply ex_core_wf|apply ex_lock_free|apply ex_vm_inv|apply ex_sz|apply ex_up| | | |].
  { intros [|i] v Hv; [|discriminate]. injection Hv as <-. vm_compute. reflexivity. }
  { split; [apply NoDup_singleton|]. constructor; [|constructor]. split; [|by vm_compute].
    apply (us_frame _ _ _ ex_uspace 0); [lia|vm_compute; reflexivity]. }
  { intros p Hp Hge. apply ex_free; [done|]. intros ->. by apply Hge. }
  exists s', l'. split; [exact Hr|]. split; [exact Hi|]. split; apply Hl.
  - right. right. exists [0; 0]. reflexivity.
  - right. left. vm_compute. left.
Defined.
