(* ===== verification/Sleeplock.v ===== *)
(** * Sleep locks: kernel/sleeplock.c

    [acquiresleep], [releasesleep] and [holdingsleep] as functions, with the
    lemmas their callers use, and [Module Threads]: any number of processes
    that take and release one sleep lock, in any interleaving.  A process that
    finds the lock taken gives up the cpu inside [sleep] and, when woken,
    continues at the test of the while loop with the spin lock held again,
    which is the state in which [acquiresleep] starts the loop. *)

From Stdlib Require Import ZArith Lia.
From stdpp Require Import base gmap list numbers strings relations.
From S2P Require Import Prelude Riscv Core Spinlock.
Local Open Scope Z_scope.

Section ops.
Context {S : Type}.

Definition initsleeplock (lk : slkid) (name : string) : M S unit :=
  _ ← initlock (LkSleep lk) "sleep lock";
  modifyc (set_slock lk (mkSleeplock 0 name 0)).

Definition acquiresleep (lk : slkid) : M S unit :=
  _ ← acquire (LkSleep lk);
  c ← getc;
  if negb (sl_locked (get_slock lk c) =? 0) then sleep (ChSleeplock lk) (LkSleep lk) else
  p ← myproc;
  match p with
  | None => fault "acquiresleep: myproc()->pid"
  | Some p =>
      _ ← modifyc (fun c => set_slock lk (mkSleeplock 1 (sl_name (get_slock lk c)) (cp_pid p)) c);
      release (LkSleep lk)
  end.

Definition releasesleep (lk : slkid) : M S unit :=
  _ ← acquire (LkSleep lk);
  _ ← modifyc (fun c => set_slock lk (mkSleeplock 0 (sl_name (get_slock lk c)) 0) c);
  _ ← wakeup (ChSleeplock lk);
  release (LkSleep lk).

Definition holdingsleep (lk : slkid) : M S bool :=
  _ ← acquire (LkSleep lk);
  c ← getc;
  r ← (if negb (sl_locked (get_slock lk c) =? 0)
       then p ← myproc;
            match p with
            | None => fault "holdingsleep: myproc()->pid"
            | Some p => mret (sl_pid (get_slock lk c) =? cp_pid p)
            end
       else mret false);
  _ ← release (LkSleep lk);
  mret r.
End ops.

(** ** What the callers rely on *)

(** The wakeups [tr] have been issued. *)
Definition woke (tr : list chan) (c : core) : core :=
  mkCore (c_tp c) (c_sstatus c) (c_noff c) (c_intena c) (c_proc c) (c_locks c) (c_woken c ++ tr) (c_slocks c).

(** The sleep lock is free / held by the running process. *)
Definition slock_free (lk : slkid) (c : core) : Prop :=
  lock_free (LkSleep lk) c /\ exists nm, c_slocks c !! lk = Some (mkSleeplock 0 nm 0).

Definition shold (lk : slkid) (c : core) : core :=
  set_slock lk (mkSleeplock 1 (sl_name (get_slock lk c)) (default 0 (cp_pid <$> c_proc c))) c.

Lemma woke_nil c : woke [] c = c.
Proof. destruct c. unfold woke. simpl. by rewrite app_nil_r. Qed.

Lemma woke_woke a b c : woke a (woke b c) = woke (b ++ a) c.
Proof. destruct c. unfold woke. simpl. by rewrite app_assoc. Qed.

Lemma add_woken_woke ch c : add_woken ch c = woke [ch] c.
Proof. done. Qed.

Lemma hold_woke tr lk c : woke tr (hold lk c) = hold lk (woke tr c).
Proof.
  revert c. induction tr as [|ch tr IH]; intros c; [by rewrite !woke_nil|].
  change (ch :: tr) with ([ch] ++ tr). rewrite <- !woke_woke, <- !add_woken_woke, add_woken_hold. apply IH.
Qed.

Lemma woke_wf tr c : core_wf (woke tr c) <-> core_wf c.
Proof. done. Qed.

Lemma lock_free_woke lk tr c : lock_free lk (woke tr c) <-> lock_free lk c.
Proof. done. Qed.

Lemma slock_free_woke lk tr c : slock_free lk (woke tr c) <-> slock_free lk c.
Proof. done. Qed.

Lemma shold_wf lk c : core_wf (shold lk c) <-> core_wf c.
Proof. done. Qed.

Lemma lock_free_shold k lk c : lock_free k (shold lk c) <-> lock_free k c.
Proof. done. Qed.

Lemma slock_free_shold k lk c : k <> lk -> slock_free k (shold lk c) <-> slock_free k c.
Proof. intros H. unfold slock_free, shold, set_slock. simpl. by rewrite lookup_insert_ne by done. Qed.

Lemma shold_woke lk tr c : shold lk (woke tr c) = woke tr (shold lk c).
Proof. done. Qed.

Lemma get_slock_shold lk c : get_slock lk (shold lk c) =
  mkSleeplock 1 (sl_name (get_slock lk c)) (default 0 (cp_pid <$> c_proc c)).
Proof. unfold get_slock, shold, set_slock. simpl. by rewrite lookup_insert_eq. Qed.

Lemma shold_undo lk c : slock_free lk c ->
  set_slock lk (mkSleeplock 0 (sl_name (get_slock lk (shold lk c))) 0) (shold lk c) = c.
Proof.
  intros [_ [nm H]]. rewrite get_slock_shold. simpl. unfold get_slock. rewrite H. simpl.
  unfold shold, set_slock. destruct c. simpl in *. f_equal. by rewrite insert_insert_eq, insert_id.
Qed.

Section specs.
Context {S : Type}.
Implicit Types (c : core) (s : S).

Lemma acquiresleep_ok lk c s p :
  core_wf c -> slock_free lk c -> c_proc c = Some p -> acquiresleep lk c s = Ok tt (shold lk c) s.
Proof.
  intros Hc [Hl [nm H]] Hp. unfold acquiresleep. erewrite bind_ok by (by apply acquire_free).
  unfold getc, modifyc. cbv [mbind M_bind]. rewrite hold_slock. unfold get_slock at 1. rewrite H. simpl.
  rewrite myproc_ok, hold_proc, Hp by locks. rewrite hold_slock, hold_set_slock.
  rewrite release_hold by done. unfold shold. by rewrite Hp.
Qed.

Lemma releasesleep_ok lk c s :
  core_wf c -> slock_free lk c -> releasesleep lk (shold lk c) s = Ok tt (woke [ChSleeplock lk] c) s.
Proof.
  intros Hc Hf. unfold releasesleep. erewrite bind_ok by (apply acquire_free, Hf).
  unfold wakeup, modifyc. cbv [mbind M_bind]. rewrite hold_slock, hold_set_slock, shold_undo by done.
  rewrite add_woken_hold. rewrite release_hold; [by rewrite add_woken_woke|done|by destruct Hf].
Qed.

Lemma holdingsleep_ok lk c s p :
  core_wf c -> slock_free lk c -> c_proc c = Some p ->
  holdingsleep lk (shold lk c) s = Ok true (shold lk c) s.
Proof.
  intros Hc Hf Hp. unfold holdingsleep. erewrite bind_ok by (apply acquire_free, Hf).
  unfold getc. cbv [mbind M_bind]. rewrite hold_slock, get_slock_shold. simpl.
  rewrite myproc_ok, hold_proc by locks. cbn [c_proc shold set_slock]. rewrite Hp. simpl.
  rewrite Z.eqb_refl. rewrite release_hold; [done|done|by destruct Hf].
Qed.
End specs.

(** ** Any number of processes *)

Module Threads.

Inductive tstate : Type :=
| Out                      (* does not want the lock *)
| Want                     (* runnable, about to take the lock (or woken) *)
| Asleep (ch : chan)       (* in sleep() *)
| Held.                    (* acquiresleep returned *)

Record state : Type := mkState { th_core : core; th_procs : gmap Z tstate }.

Definition running (pid : Z) (c : core) : core := set_proc (Some (mkCurproc 0 pid 0 0 0 0)) c.

(** What [wakeup] does to the sleepers. *)
Definition wake (chs : list chan) (t : tstate) : tstate :=
  match t with Asleep ch => if decide (ch ∈ chs) then Want else t | _ => t end.

Section threads.
Variable lk : slkid.

Inductive step : state -> state -> Prop :=
| st_want c ts p : ts !! p = Some Out -> step (mkState c ts) (mkState c (<[p := Want]> ts))
| st_got c ts p c' :
    ts !! p = Some Want -> acquiresleep lk (running p c) tt = Ok tt c' tt ->
    step (mkState c ts) (mkState c' (<[p := Held]> ts))
| st_sleep c ts p ch c' :
    ts !! p = Some Want -> acquiresleep lk (running p c) tt = Blocked ch c' tt ->
    step (mkState c ts) (mkState c' (<[p := Asleep ch]> ts))
| st_rel c ts p c' :
    ts !! p = Some Held -> releasesleep lk (running p c) tt = Ok tt c' tt ->
    step (mkState c ts)
      (mkState c' (<[p := Out]> (wake (drop (length (c_woken c)) (c_woken c')) <$> ts))).

Definition initial (st : state) : Prop :=
  core_wf (th_core st) /\ slock_free lk (th_core st) /\
  forall p t, th_procs st !! p = Some t -> t = Out.

Definition inv (st : state) : Prop :=
  core_wf (th_core st) /\ lock_free (LkSleep lk) (th_core st) /\
  (exists l, c_slocks (th_core st) !! lk = Some l /\
     (forall p, th_procs st !! p = Some Held -> sl_locked l = 1 /\ sl_pid l = p) /\
     (sl_locked l = 0 \/ sl_locked l = 1 /\ th_procs st !! sl_pid l = Some Held) /\
     (forall p ch, th_procs st !! p = Some (Asleep ch) -> ch = ChSleeplock lk /\ sl_locked l = 1)).

Lemma acquire_run c l p :
  core_wf c -> lock_free (LkSleep lk) c -> c_slocks c !! lk = Some l ->
  acquiresleep lk (running p c) tt =
    if sl_locked l =? 0 then Ok tt (set_slock lk (mkSleeplock 1 (sl_name l) p) (running p c)) tt
    else Blocked (ChSleeplock lk) (running p c) tt.
Proof.
  intros Hc Hf Hl. unfold acquiresleep. erewrite bind_ok by (by apply acquire_free).
  unfold getc, modifyc. cbv [mbind M_bind]. rewrite hold_slock.
  change (get_slock lk (running p c)) with (get_slock lk c). unfold get_slock at 1. rewrite Hl. simpl.
  destruct (Z.eqb_spec (sl_locked l) 0) as [E|E]; simpl.
  - rewrite myproc_ok, hold_proc by locks. simpl.
    rewrite hold_slock, hold_set_slock, release_hold by done.
    change (get_slock lk (running p c)) with (get_slock lk c). unfold get_slock. by rewrite Hl.
  - by apply sleep_hold.
Qed.

Lemma release_run c l p :
  core_wf c -> lock_free (LkSleep lk) c -> c_slocks c !! lk = Some l ->
  releasesleep lk (running p c) tt =
    Ok tt (add_woken (ChSleeplock lk) (set_slock lk (mkSleeplock 0 (sl_name l) 0) (running p c))) tt.
Proof.
  intros Hc Hf Hl. unfold releasesleep. erewrite bind_ok by (by apply acquire_free).
  unfold wakeup, modifyc. cbv [mbind M_bind]. rewrite hold_slock, hold_set_slock, add_woken_hold.
  rewrite release_hold by done. change (get_slock lk (running p c)) with (get_slock lk c).
  unfold get_slock. by rewrite Hl.
Qed.

Lemma holding_run c l p :
  core_wf c -> lock_free (LkSleep lk) c -> c_slocks c !! lk = Some l ->
  holdingsleep lk (running p c) tt = Ok (negb (sl_locked l =? 0) && (sl_pid l =? p)) (running p c) tt.
Proof.
  intros Hc Hf Hl. unfold holdingsleep. erewrite bind_ok by (by apply acquire_free).
  unfold getc. cbv [mbind M_bind]. rewrite hold_slock.
  change (get_slock lk (running p c)) with (get_slock lk c). unfold get_slock. rewrite Hl. simpl.
  destruct (Z.eqb_spec (sl_locked l) 0) as [E|E]; simpl.
  - by rewrite release_hold by done.
  - rewrite myproc_ok, hold_proc by locks. simpl. by rewrite release_hold by done.
Qed.

Lemma thread_step_inv st st' : inv st -> step st st' -> inv st'.
Proof.
  intros (Hc & Hf & l & Hl & Hheld & Hlk & Has) Hs.
  destruct Hs as [c ts p Hp|c ts p c' Hp Hr|c ts p ch c' Hp Hr|c ts p c' Hp Hr]; simpl in *.
  - split_and!; [done|done|]. exists l. cbn [th_procs th_core]. split_and!; [done|..].
    + intros q. rewrite lookup_insert. case_decide; [done|]. eauto.
    + destruct Hlk as [?|[? Hh]]; [by left|right]. split; [done|].
      rewrite lookup_insert. case_decide; [congruence|done].
    + intros q ch. rewrite lookup_insert. case_decide; [done|]. eauto.
  - erewrite acquire_run in Hr by done. destruct (Z.eqb_spec (sl_locked l) 0) as [E|E]; [|done]. simplify_eq.
    split_and!; [done|done|]. eexists. cbn [th_procs th_core]. split; [by simpl; rewrite lookup_insert_eq|]. simpl. split_and!.
    + intros q. rewrite lookup_insert. case_decide; [by subst|]. intros [? _]%Hheld. lia.
    + right. by rewrite lookup_insert_eq.
    + intros q ch. rewrite lookup_insert. case_decide; [done|]. intros [? ?]%Has. lia.
  - erewrite acquire_run in Hr by done. destruct (Z.eqb_spec (sl_locked l) 0) as [E|E]; [done|]. simplify_eq.
    split_and!; [done|done|]. exists l. cbn [th_procs th_core]. split_and!; [done|..].
    + intros q. rewrite lookup_insert. case_decide; [done|]. eauto.
    + destruct Hlk as [?|[? Hh]]; [done|right]. split; [done|].
      rewrite lookup_insert. case_decide; [congruence|done].
    + intros q ch'. rewrite lookup_insert. case_decide; [|eauto]. intros [= <-]. split; [done|]. by destruct Hlk as [?|[? _]].
  - erewrite release_run in Hr by done. simplify_eq. simpl. rewrite drop_app_length.
    split_and!; [done|done|]. eexists. cbn [th_procs th_core]. split; [by simpl; rewrite lookup_insert_eq|]. simpl. split_and!.
    + intros q. rewrite lookup_insert. case_decide; [done|]. rewrite lookup_fmap_Some. intros (t & Ht & Hq).
      destruct t; simpl in Ht; try case_decide; try done. apply Hheld in Hq as [_ <-]. by apply Hheld in Hp as [_ ?].
    + by left.
    + intros q ch. rewrite lookup_insert. case_decide; [done|]. rewrite lookup_fmap_Some. intros (t & Ht & Hq).
      destruct t; simpl in Ht; try case_decide as Hd; try done. simplify_eq.
      apply Has in Hq as [-> _]. exfalso. apply Hd. by left.
Qed.

Lemma thread_reachable st st' : initial st -> rtc step st st' -> inv st'.
Proof.
  intros (Hc & [Hf [nm Hl]] & Ho) Hr. assert (inv st) as Hi.
  { split_and!; [done|done|]. exists (mkSleeplock 0 nm 0). split_and!; [done| |by left|].
    - intros p Hp. by apply Ho in Hp.
    - intros p ch Hp. by apply Ho in Hp. }
  revert Hi. clear -Hr. induction Hr; eauto using thread_step_inv.
Qed.
End threads.

(** C35: In every interleaving: at most one process is between [acquiresleep] and
    [releasesleep]; a process sleeps in [acquiresleep] only while another one
    holds the lock, so no wakeup is lost.  Each process can go on: one that
    wants the lock gets it if nobody holds it and otherwise sleeps; the holder
    can release it, which wakes the sleepers; and [holdingsleep] tells every
    process whether it is the holder. *)
Theorem sleeplock_safe lk st st' :
  initial lk st -> rtc (step lk) st st' ->
  let c := th_core st' in
  let ts := th_procs st' in
  (forall p q, ts !! p = Some Held -> ts !! q = Some Held -> p = q) /\
  (forall p ch, ts !! p = Some (Asleep ch) -> ch = ChSleeplock lk /\ exists q, q <> p /\ ts !! q = Some Held) /\
  (forall p, ts !! p = Some Want -> exists c',
     (acquiresleep lk (running p c) tt = Ok tt c' tt /\ forall q, ts !! q <> Some Held) \/
     (acquiresleep lk (running p c) tt = Blocked (ChSleeplock lk) c' tt /\ exists q, ts !! q = Some Held)) /\
  (forall p, ts !! p = Some Held -> exists c',
     releasesleep lk (running p c) tt = Ok tt c' tt /\ c_woken c' = c_woken c ++ [ChSleeplock lk]) /\
  (forall p t, ts !! p = Some t ->
     holdingsleep lk (running p c) tt = Ok (match t with Held => true | _ => false end) (running p c) tt).
Proof.
  intros Hi Hr. pose proof (thread_reachable lk _ _ Hi Hr) as (Hc & Hf & l & Hl & Hheld & Hlk & Has). split_and!.
  - intros p q Hp Hq. apply Hheld in Hp as [_ <-]. by apply Hheld in Hq as [_ ?].
  - intros p ch Hp. destruct (Has _ _ Hp) as [-> E]. split; [done|].
    destruct Hlk as [?|[_ Hh]]; [lia|]. exists (sl_pid l). split; [|done]. intros E'. congruence.
  - intros p Hp. pose proof (acquire_run lk (th_core st') l p Hc Hf Hl) as Ha.
    destruct (Z.eqb_spec (sl_locked l) 0) as [E|E]; eexists; [left|right]; (split; [exact Ha|]).
    + intros q Hq. apply Hheld in Hq as [Hq _]. lia.
    + destruct Hlk as [?|[_ Hh]]; [done|by eexists].
  - intros p Hp. eexists. split; [by apply (release_run lk (th_core st') l)|done].
  - intros p t Hp. rewrite (holding_run lk (th_core st') l p Hc Hf Hl). do 2 f_equal.
    destruct t; try (destruct Hheld with (p := p) as [-> ->]; [done|by rewrite Z.eqb_refl]).
    all: destruct Hlk as [->|[-> Hh]]; [done|]. all: cbn [Z.eqb negb andb]; apply Z.eqb_neq; intros E; congruence.
Qed.

Lemma sleeplock_safe_witness :
  exists st, (forall p q, th_procs st !! p = Some Held -> th_procs st !! q = Some Held -> p = q) /\
    th_procs st !! 1 = Some Held /\ th_procs st !! 2 = Some (Asleep (ChSleeplock (SlBuf 0))).
Proof.
  set (lk := SlBuf 0).
  set (c := mkCore 0 0 0 0 None {[ LkSleep lk := mkSpinlock 0 "sleep lock" None ]} []
              {[ lk := mkSleeplock 0 "buffer" 0 ]}).
  assert (initial lk (mkState c {[ 1 := Out; 2 := Out ]})) as Hi.
  { split_and!; [done|split; [by eexists|by eexists]|]. simpl. intros p t.
    rewrite lookup_insert_Some, lookup_singleton_Some. naive_solver. }
  assert (exists st, rtc (step lk) (mkState c {[ 1 := Out; 2 := Out ]}) st /\ th_procs st !! 1 = Some Held /\
            th_procs st !! 2 = Some (Asleep (ChSleeplock lk))) as (st & Hr & H1 & H2).
  { eexists. split; [|split].
    { eapply rtc_l; [by apply (st_want lk _ _ 1)|]. eapply rtc_l; [by apply (st_want lk _ _ 2)|].
      eapply rtc_l; [eapply (st_got lk _ _ 1); [done|vm_compute; reflexivity]|].
      eapply rtc_l; [eapply (st_sleep lk _ _ 2); [done|vm_compute; reflexivity]|]. apply rtc_refl. }
    all: done. }
  exists st. split; [|done]. apply (sleeplock_safe lk _ st Hi Hr).
Defined.
End Threads.
