(* ===== verification/Bio.v ===== *)
(** * The buffer cache: kernel/bio.c

    Buffers are named by their position in [bcache.buf]; [HEAD] names
    [bcache.head].  The links of the LRU list are kept per node, as in the
    code.  The disk is the state of the device behind virtio_disk.c: its
    blocks and, for reasoning about crashes, the writes in the order in which
    the device performed them. *)

From Stdlib Require Import ZArith Lia.
From stdpp Require Import base gmap list numbers strings.
From S2P Require Import Prelude Riscv Core Spinlock Sleeplock.
Local Open Scope Z_scope.

Definition BSIZE : Z := 1024.
Definition HEAD : nat := Z.to_nat NBUF.

(** ** State *)

Record buf : Type := mkBuf {
  b_valid : Z;            (* has data been read from disk? *)
  b_disk : Z;             (* does disk own buf? *)
  b_dev : Z;
  b_blockno : Z;
  b_refcnt : Z;
  b_data : list Z
}.

Definition zero_block : list Z := repeat 0 1024.

Record disk : Type := mkDisk {
  dk_blocks : gmap Z (list Z);
  dk_trace : list (Z * list Z)      (* writes, oldest first *)
}.

Definition disk_read (d : disk) (b : Z) : list Z := default zero_block (dk_blocks d !! b).
Definition disk_write (d : disk) (b : Z) (x : list Z) : disk :=
  mkDisk (<[b := x]> (dk_blocks d)) (dk_trace d ++ [(b, x)]).

Record bcache : Type := mkBcache {
  bc_bufs : list buf;
  bc_next : gmap nat nat;
  bc_prev : gmap nat nat;
  bc_disk : disk
}.

Definition buf0 : buf := mkBuf 0 0 0 0 0 zero_block.
Definition get_buf (i : nat) (s : bcache) : buf := nth i (bc_bufs s) buf0.
Definition nxt (n : nat) (s : bcache) : nat := default HEAD (bc_next s !! n).
Definition prv (n : nat) (s : bcache) : nat := default HEAD (bc_prev s !! n).

Definition set_buf (i : nat) (b : buf) (s : bcache) : bcache :=
  mkBcache (<[i := b]> (bc_bufs s)) (bc_next s) (bc_prev s) (bc_disk s).
Definition set_next (n m : nat) (s : bcache) : bcache :=
  mkBcache (bc_bufs s) (<[n := m]> (bc_next s)) (bc_prev s) (bc_disk s).
Definition set_prev (n m : nat) (s : bcache) : bcache :=
  mkBcache (bc_bufs s) (bc_next s) (<[n := m]> (bc_prev s)) (bc_disk s).
Definition set_disk (d : disk) (s : bcache) : bcache :=
  mkBcache (bc_bufs s) (bc_next s) (bc_prev s) d.

Definition with_refcnt (r : Z) (b : buf) : buf :=
  mkBuf (b_valid b) (b_disk b) (b_dev b) (b_blockno b) r (b_data b).
Definition with_valid (v : Z) (b : buf) : buf :=
  mkBuf v (b_disk b) (b_dev b) (b_blockno b) (b_refcnt b) (b_data b).
Definition with_data (x : list Z) (b : buf) : buf :=
  mkBuf (b_valid b) (b_disk b) (b_dev b) (b_blockno b) (b_refcnt b) x.

Definition upd_buf (i : nat) (f : buf -> buf) (s : bcache) : bcache := set_buf i (f (get_buf i s)) s.

(** ** Operations *)

(** Insert node [b] after [bcache.head]: the four assignments shared by
    [binit] and [brelse]. *)
Definition link_head (b : nat) (s : bcache) : bcache :=
  let s := set_next b (nxt HEAD s) s in
  let s := set_prev b HEAD s in
  let s := set_prev (nxt HEAD s) b s in
  set_next HEAD b s.

Definition binit : M bcache unit :=
  _ ← initlock LkBcache "bcache";
  _ ← modify (set_prev HEAD HEAD);
  _ ← modify (set_next HEAD HEAD);
  forM (seq 0 (Z.to_nat NBUF)) (fun b =>
    _ ← initsleeplock (SlBuf b) "buffer";
    modify (link_head b)).

(** The first loop of [bget]: from [b] along [next]. *)
Fixpoint bget_cached (s : bcache) (dev blockno : Z) (b : nat) (fuel : nat) : option nat :=
  match fuel with
  | O => None
  | S fuel =>
      if (b =? HEAD)%nat then None
      else if (b_dev (get_buf b s) =? dev) && (b_blockno (get_buf b s) =? blockno) then Some b
      else bget_cached s dev blockno (nxt b s) fuel
  end.

(** The second loop of [bget]: from [b] along [prev]. *)
Fixpoint bget_lru (s : bcache) (b : nat) (fuel : nat) : option nat :=
  match fuel with
  | O => None
  | S fuel =>
      if (b =? HEAD)%nat then None
      else if b_refcnt (get_buf b s) =? 0 then Some b
      else bget_lru s (prv b s) fuel
  end.

(** The list has at most NBUF nodes besides the head. *)
Definition bget (dev blockno : Z) : M bcache nat :=
  _ ← acquire LkBcache;
  s ← get;
  match bget_cached s dev blockno (nxt HEAD s) (S HEAD) with
  | Some b =>
      _ ← modify (upd_buf b (fun x => with_refcnt (u32 (b_refcnt x + 1)) x));
      _ ← release LkBcache;
      _ ← acquiresleep (SlBuf b);
      mret b
  | None =>
      match bget_lru s (prv HEAD s) (S HEAD) with
      | Some b =>
          _ ← modify (upd_buf b (fun x => mkBuf 0 (b_disk x) dev blockno 1 (b_data x)));
          _ ← release LkBcache;
          _ ← acquiresleep (SlBuf b);
          mret b
      | None => panic "bget: no buffers"
      end
  end.

(** [virtio_disk_rw(b, write)] as its callers see it: the request has
    completed when it returns. *)
Definition virtio_disk_rw (b : nat) (write : bool) : M bcache unit :=
  x ← gets (get_buf b);
  if write then modify (fun s => set_disk (disk_write (bc_disk s) (b_blockno x) (b_data x)) s)
  else modify (fun s => upd_buf b (with_data (disk_read (bc_disk s) (b_blockno x))) s).

Definition bread (dev blockno : Z) : M bcache nat :=
  b ← bget dev blockno;
  x ← gets (get_buf b);
  _ ← when (b_valid x =? 0)
        (_ ← virtio_disk_rw b false;
         modify (upd_buf b (with_valid 1)));
  mret b.

Definition bwrite (b : nat) : M bcache unit :=
  h ← holdingsleep (SlBuf b);
  if negb (h : bool) then panic "bwrite" else virtio_disk_rw b true.

Definition brelse (b : nat) : M bcache unit :=
  h ← holdingsleep (SlBuf b);
  if negb (h : bool) then panic "brelse" else
  _ ← releasesleep (SlBuf b);
  _ ← acquire LkBcache;
  _ ← modify (upd_buf b (fun x => with_refcnt (u32 (b_refcnt x - 1)) x));
  x ← gets (get_buf b);
  _ ← when (b_refcnt x =? 0)
        (* no one is waiting for it. *)
        (_ ← modify (fun s => set_prev (nxt b s) (prv b s) s);
         _ ← modify (fun s => set_next (prv b s) (nxt b s) s);
         modify (link_head b));
  release LkBcache.

Definition bpin (b : nat) : M bcache unit :=
  _ ← acquire LkBcache;
  _ ← modify (upd_buf b (fun x => with_refcnt (u32 (b_refcnt x + 1)) x));
  release LkBcache.

Definition bunpin (b : nat) : M bcache unit :=
  _ ← acquire LkBcache;
  _ ← modify (upd_buf b (fun x => with_refcnt (u32 (b_refcnt x - 1)) x));
  release LkBcache.

(** ** The LRU list *)

(** Nodes [a] and [b] are neighbours. *)
Definition adj (nx pv : gmap nat nat) (a b : nat) : Prop := nx !! a = Some b /\ pv !! b = Some a.

Fixpoint seg (nx pv : gmap nat nat) (a : nat) (l : list nat) (b : nat) : Prop :=
  match l with
  | [] => adj nx pv a b
  | x :: l => adj nx pv a x /\ seg nx pv x l b
  end.

(** The ring visits [ord], most recently used first. *)
Definition ring (s : bcache) (ord : list nat) : Prop :=
  seg (bc_next s) (bc_prev s) HEAD ord HEAD /\ NoDup ord /\ Forall (fun i => (i < HEAD)%nat) ord.

Lemma seg_app nx pv a l1 x l2 b :
  seg nx pv a (l1 ++ x :: l2) b <-> seg nx pv a l1 x /\ seg nx pv x l2 b.
Proof. revert a. induction l1 as [|y l1 IH]; intros a; simpl; [done|]. rewrite IH. tauto. Qed.

Lemma seg_next nx nx' pv a l b m n :
  m ∉ a :: l -> nx' = <[m := n]> nx -> seg nx pv a l b -> seg nx' pv a l b.
Proof.
  intros Hm ->. revert a Hm. induction l as [|x l IH]; intros a Hm; simpl.
  - intros [H1 H2]. split; [|done]. rewrite lookup_insert_ne; [done|]. set_solver.
  - intros [[H1 H2] H]. split; [|apply IH; [set_solver|done]].
    split; [|done]. rewrite lookup_insert_ne; [done|]. set_solver.
Qed.

Lemma seg_prev nx pv pv' a l b m n :
  m ∉ l ++ [b] -> pv' = <[m := n]> pv -> seg nx pv a l b -> seg nx pv' a l b.
Proof.
  intros Hm ->. revert a Hm. induction l as [|x l IH]; intros a Hm; simpl.
  - intros [H1 H2]. split; [done|]. rewrite lookup_insert_ne; [done|]. set_solver.
  - intros [[H1 H2] H]. split; [|apply IH; [set_solver|done]].
    split; [done|]. rewrite lookup_insert_ne; [done|]. set_solver.
Qed.

(** The node after [a] in a segment, and the one before [b]. *)
Lemma seg_head nx pv a l b : seg nx pv a l b -> nx !! a = Some (hd b l).
Proof. destruct l; simpl; [by intros [? _]|by intros [[? _] _]]. Qed.

Fixpoint lastn (a : nat) (l : list nat) : nat := match l with [] => a | x :: l => lastn x l end.

Lemma seg_last nx pv a l b : seg nx pv a l b -> pv !! b = Some (lastn a l).
Proof. revert a. induction l as [|x l IH]; intros a; simpl; [by intros [_ ?]|]. intros [_ H]. auto. Qed.

Lemma lastn_in a l : lastn a l = a \/ lastn a l ∈ l.
Proof. revert a. induction l as [|x l IH]; intros a; simpl; [by left|]. right. destruct (IH x) as [->|?]; set_solver. Qed.

Lemma lastn_snoc a l x : lastn a (l ++ [x]) = x.
Proof. revert a. induction l; intros; simpl; auto. Qed.

(** Bridging over the node [x] between two segments. *)
Lemma seg_bridge nx pv a l1 x l2 b :
  NoDup (a :: l1) -> NoDup (l2 ++ [b]) -> (forall y, y ∈ l1 -> y ∉ l2 ++ [b]) ->
  (forall y, y ∈ l2 -> y ∉ a :: l1) -> seg nx pv a l1 x -> seg nx pv x l2 b ->
  seg (<[lastn a l1 := hd b l2]> nx) (<[hd b l2 := lastn a l1]> pv) a (l1 ++ l2) b.
Proof.
  intros Hn1 Hn2 Hd1 Hd2 H1 H2. set (p := lastn a l1). set (n := hd b l2).
  assert (adj (<[p:=n]> nx) (<[n:=p]> pv) p n) as Hadj by (split; apply lookup_insert_eq).
  assert (forall l, l2 = n :: l -> seg (<[p:=n]> nx) (<[n:=p]> pv) n l b) as Hright.
  { intros l E. rewrite E in *. destruct H2 as [_ H2]. rewrite <- app_comm_cons in Hn2.
    apply NoDup_cons in Hn2 as [Hn2 _].
    eapply seg_next; [|done|]; [|eapply seg_prev; [|done|exact H2]]; [|done].
    destruct (lastn_in a l1) as [E'|E']; fold p in E'.
    - rewrite E'. intros Hin. apply (Hd2 a); [done|by left].
    - intros Hin. apply (Hd1 p E'). set_solver. }
  destruct l1 as [|y l1 _] using rev_ind.
  - simpl. destruct l2 as [|z l2]; [done|]. split; [done|]. by apply Hright.
  - assert (p = y) as Ep by apply lastn_snoc. apply seg_app in H1 as [H1 _]. rewrite <- app_assoc. cbn [app].
    apply seg_app. rewrite <- Ep in *. split.
    + eapply seg_next; [|done|]; [|eapply seg_prev; [|done|exact H1]].
      * change (a :: l1 ++ [p]) with ((a :: l1) ++ [p]) in Hn1. apply NoDup_app in Hn1 as (_ & Hn1 & _).
        intros Hin. apply (Hn1 p Hin). by left.
      * intros Hin. apply (Hd1 n Hin). unfold n. destruct l2; simpl; set_solver.
    + destruct l2 as [|z l2]; [done|]. split; [done|]. by apply Hright.
Qed.

(** Unlinking a node. *)
Lemma ring_unlink s l1 b l2 :
  ring s (l1 ++ b :: l2) ->
  let s1 := set_prev (nxt b s) (prv b s) s in
  let s2 := set_next (prv b s1) (nxt b s1) s1 in
  ring s2 (l1 ++ l2).
Proof.
  intros (Hs & Hnd & Hlt). apply seg_app in Hs as [H1 H2].
  assert (nxt b s = hd HEAD l2) as En by (unfold nxt; by rewrite (seg_head _ _ _ _ _ H2)).
  assert (prv b s = lastn HEAD l1) as Ep by (unfold prv; by rewrite (seg_last _ _ _ _ _ H1)).
  assert (b ∉ l1 /\ b ∉ l2 /\ b <> HEAD) as (Hb1 & Hb2 & Hb).
  { apply NoDup_app in Hnd as (_ & Hd & Hnd). apply NoDup_cons in Hnd as [? _].
    rewrite Forall_app, Forall_cons in Hlt. split_and!; [|done|lia]. intros Hin. apply (Hd b Hin). by left. }
  assert (forall x, x ∈ l1 -> x ∉ l2) as Hdis.
  { apply NoDup_app in Hnd as (_ & Hd & _). intros x Hx Hx2. apply (Hd x Hx). by right. }
  assert (HEAD ∉ l1 /\ HEAD ∉ l2) as [Hh1 Hh2].
  { rewrite Forall_app, Forall_cons in Hlt. destruct Hlt as (Hl1 & _ & Hl2). rewrite Forall_forall in Hl1, Hl2.
    split; intros Hin; [apply Hl1 in Hin|apply Hl2 in Hin]; lia. }
  apply NoDup_app in Hnd as (Hn1 & _ & Hn2). apply NoDup_cons in Hn2 as [_ Hn2].
  cbv zeta. set (s1 := set_prev _ _ s). assert (nxt b s1 = nxt b s) as -> by done.
  assert (prv b s1 = prv b s) as ->.
  { unfold prv, s1, set_prev. simpl. rewrite lookup_insert_ne; [done|]. rewrite En. destruct l2; simpl; set_solver. }
  rewrite En, Ep. split_and!.
  - unfold s1, set_prev, set_next. simpl. rewrite En, Ep.
    eapply (seg_bridge _ _ HEAD l1 b l2 HEAD); try done.
    + by apply NoDup_cons.
    + apply NoDup_app. split_and!; [done| |apply NoDup_singleton]. set_solver.
    + set_solver.
    + set_solver.
  - apply NoDup_app. split_and!; auto.
  - rewrite Forall_app, Forall_cons in Hlt. apply Forall_app. tauto.
Qed.

(** Linking a node after the head. *)
Lemma ring_link s b ord :
  ring s ord -> b ∉ ord -> (b < HEAD)%nat -> ring (link_head b s) (b :: ord).
Proof.
  intros (Hs & Hnd & Hlt) Hb Hlb. assert (HEAD ∉ ord) as Hh.
  { intros Hin. rewrite Forall_forall in Hlt. apply Hlt in Hin. lia. }
  assert (nxt HEAD s = hd HEAD ord) as En by (unfold nxt; by rewrite (seg_head _ _ _ _ _ Hs)).
  split_and!; [|by constructor|by constructor]. unfold link_head.
  set (s1 := set_next b (nxt HEAD s) s). set (s2 := set_prev b HEAD s1).
  assert (nxt HEAD s2 = hd HEAD ord) as ->.
  { unfold nxt, s2, s1, set_prev, set_next. simpl. rewrite lookup_insert_ne by lia. apply En. }
  unfold s2, s1, set_prev, set_next. simpl. rewrite En.
  assert (hd HEAD ord <> b) as Hn by (destruct ord; simpl; set_solver by lia).
  split; [split|].
  - by rewrite lookup_insert_eq.
  - by rewrite lookup_insert_ne, lookup_insert_eq.
  - destruct ord as [|x ord]; simpl in *.
    + split; [rewrite lookup_insert_ne, lookup_insert_eq by lia; done|by rewrite lookup_insert_eq].
    + destruct Hs as [_ Hs]. split; [split|].
      * rewrite lookup_insert_ne by lia. by rewrite lookup_insert_eq.
      * by rewrite lookup_insert_eq.
      * eapply seg_next; [|done|]; [set_solver|]. eapply seg_prev; [|done|].
        { apply NoDup_cons in Hnd as [? _]. set_solver. }
        eapply seg_prev; [|done|]; [set_solver by lia|]. eapply seg_next; [|done|done]. set_solver.
Qed.

(** ** The loops of [bget] on the list *)

Definition is_block (dev blockno : Z) (s : bcache) (i : nat) : bool :=
  (b_dev (get_buf i s) =? dev) && (b_blockno (get_buf i s) =? blockno).

Lemma seg_nxt s a l : seg (bc_next s) (bc_prev s) a l HEAD -> nxt a s = hd HEAD l.
Proof. intros H. unfold nxt. by rewrite (seg_head _ _ _ _ _ H). Qed.

Lemma seg_prv s l a : seg (bc_next s) (bc_prev s) HEAD l a -> prv a s = lastn HEAD l.
Proof. intros H. unfold prv. by rewrite (seg_last _ _ _ _ _ H). Qed.

Lemma bget_cached_seg s dev blockno a l fuel :
  seg (bc_next s) (bc_prev s) a l HEAD -> Forall (fun i => (i < HEAD)%nat) l -> (length l < fuel)%nat ->
  bget_cached s dev blockno (nxt a s) fuel = List.find (is_block dev blockno s) l.
Proof.
  revert a fuel. induction l as [|x l IH]; intros a [|fuel] Hs Hl Hf; simpl in Hf; try lia;
    pose proof (seg_nxt _ _ _ Hs) as E; rewrite E; cbn [bget_cached hd].
  - by rewrite Nat.eqb_refl.
  - apply Forall_cons in Hl as [Hx Hl]. assert ((x =? HEAD)%nat = false) as -> by (apply Nat.eqb_neq; cbn beta in Hx; lia).
    cbn [find]. unfold is_block at 1. case_match; [done|]. destruct Hs as [_ Hs]. apply IH; [done|done|lia].
Qed.

Lemma bget_lru_seg s a l fuel :
  seg (bc_next s) (bc_prev s) HEAD l a -> Forall (fun i => (i < HEAD)%nat) l -> (length l < fuel)%nat ->
  bget_lru s (prv a s) fuel = List.find (fun i => b_refcnt (get_buf i s) =? 0) (rev l).
Proof.
  revert a fuel. induction l as [|x l IH] using rev_ind; intros a [|fuel] Hs Hl Hf;
    rewrite ?length_app in Hf; simpl in Hf; try lia;
    pose proof (seg_prv _ _ _ Hs) as E; rewrite E; cbn [bget_lru lastn].
  - by rewrite Nat.eqb_refl.
  - rewrite lastn_snoc. apply Forall_app in Hl as [Hl Hx]. apply Forall_cons in Hx as [Hx _].
    assert ((x =? HEAD)%nat = false) as -> by (apply Nat.eqb_neq; cbn beta in Hx; lia).
    rewrite rev_app_distr. cbn [rev app find]. case_match; [done|].
    apply seg_app in Hs as [Hs _]. apply IH; [done|done|lia].
Qed.

(** ** The invariant *)

Definition blk_ok (x : list Z) : Prop := length x = 1024%nat /\ Forall is_byte x.

(** Cached copies of the blocks of the device [dv]. *)
Record binv (dv : Z) (s : bcache) : Prop := mkBinv {
  bi_len : length (bc_bufs s) = HEAD;
  bi_ring : exists ord, ring s ord /\ ord ≡ₚ seq 0 HEAD;
  (* A buffer caches a block of the device, or has never been used. *)
  bi_used : forall i, (i < HEAD)%nat ->
    (b_dev (get_buf i s) = dv /\ b_valid (get_buf i s) = 1) \/
    (b_dev (get_buf i s) <> dv /\ b_refcnt (get_buf i s) = 0);
  (* No block is cached twice. *)
  bi_uniq : forall i j, (i < HEAD)%nat -> (j < HEAD)%nat -> b_dev (get_buf i s) = dv ->
    b_dev (get_buf j s) = dv -> b_blockno (get_buf i s) = b_blockno (get_buf j s) -> i = j;
  bi_ref : forall i, (i < HEAD)%nat -> 0 <= b_refcnt (get_buf i s) < 2 ^ 31;
  (* A buffer nobody uses agrees with the disk. *)
  bi_clean : forall i, (i < HEAD)%nat -> b_dev (get_buf i s) = dv -> b_refcnt (get_buf i s) = 0 ->
    b_data (get_buf i s) = disk_read (bc_disk s) (b_blockno (get_buf i s));
  bi_blk : forall i, (i < HEAD)%nat -> blk_ok (b_data (get_buf i s));
  bi_disk : forall b, blk_ok (disk_read (bc_disk s) b)
}.

(** The locks of the cache are free, and a process is running. *)
Definition bio_core (c : core) : Prop :=
  core_wf c /\ lock_free LkBcache c /\ (forall i, (i < HEAD)%nat -> slock_free (SlBuf i) c) /\ is_Some (c_proc c).

(** The running process holds the buffers of [H]. *)
Definition holds (H : list nat) (c : core) : core := foldr (fun i c => shold (SlBuf i) c) c H.

(** The contents of a block as readers see it. *)
Definition view (dv : Z) (s : bcache) (b : Z) : list Z :=
  match List.find (is_block dv b s) (seq 0 HEAD) with
  | Some i => b_data (get_buf i s)
  | None => disk_read (bc_disk s) b
  end.

Definition cached (dv : Z) (s : bcache) (b : Z) (i : nat) : Prop :=
  (i < HEAD)%nat /\ b_dev (get_buf i s) = dv /\ b_blockno (get_buf i s) = b.

Lemma get_set_buf i b s j :
  (i < length (bc_bufs s))%nat -> get_buf j (set_buf i b s) = if decide (i = j) then b else get_buf j s.
Proof.
  intros Hi. unfold get_buf, set_buf. simpl. case_decide as E.
  - subst. apply nth_lookup_Some. by apply list_lookup_insert_eq.
  - rewrite !nth_lookup. by rewrite list_lookup_insert_ne.
Qed.

Lemma is_block_cached dv s b i : (i < HEAD)%nat -> is_block dv b s i = true <-> cached dv s b i.
Proof. unfold is_block, cached. rewrite andb_true_iff, !Z.eqb_eq. tauto. Qed.

Lemma find_seq_none (f : nat -> bool) n : List.find f (seq 0 n) = None <-> forall i, (i < n)%nat -> f i = false.
Proof.
  split.
  - intros H i Hi. eapply List.find_none; [exact H|]. apply in_seq. lia.
  - intros H. destruct (List.find f (seq 0 n)) as [i|] eqn:E; [|done].
    apply List.find_some in E as [Hin Hf]. apply in_seq in Hin. rewrite H in Hf by lia. done.
Qed.

Section spec.
Context (dv : Z).
Implicit Types (s : bcache) (c : core).

Lemma cached_inj s b i j : binv dv s -> cached dv s b i -> cached dv s b j -> i = j.
Proof. intros Hi (H1 & H2 & H3) (H4 & H5 & H6). eapply (bi_uniq _ _ Hi); eauto. congruence. Qed.

Lemma view_cached s b i : binv dv s -> cached dv s b i -> view dv s b = b_data (get_buf i s).
Proof.
  intros Hi Hc. unfold view. destruct (List.find _ _) as [j|] eqn:E.
  - apply List.find_some in E as [Hin Hf]. apply in_seq in Hin. apply is_block_cached in Hf; [|lia].
    by rewrite (cached_inj s b i j).
  - exfalso. apply (proj1 (find_seq_none _ _)) with (i := i) in E; [|apply Hc].
    apply (is_block_cached dv s b i) in Hc as Hc'; [congruence|apply Hc].
Qed.

Lemma view_uncached s b : (forall i, ~ cached dv s b i) -> view dv s b = disk_read (bc_disk s) b.
Proof.
  intros Hn. unfold view. destruct (List.find _ _) as [j|] eqn:E; [|done].
  apply List.find_some in E as [Hin Hf]. apply in_seq in Hin. apply is_block_cached in Hf; [|lia]. by apply Hn in Hf.
Qed.

Lemma cached_dec s b : (exists i, cached dv s b i) \/ (forall i, ~ cached dv s b i).
Proof.
  destruct (List.find (is_block dv b s) (seq 0 HEAD)) as [i|] eqn:E.
  - left. exists i. apply List.find_some in E as [Hin Hf]. apply in_seq in Hin. apply is_block_cached in Hf; [done|lia].
  - right. intros i Hc. apply (proj1 (find_seq_none _ _)) with (i := i) in E; [|apply Hc].
    apply (is_block_cached dv s b i) in Hc as Hc'; [congruence|apply Hc].
Qed.

Lemma holds_core H c : bio_core c -> core_wf (holds H c) /\ lock_free LkBcache (holds H c) /\ c_proc (holds H c) = c_proc c /\
  forall i, (i < HEAD)%nat -> i ∉ H -> slock_free (SlBuf i) (holds H c).
Proof.
  intros (Hc & Hl & Hs & _). induction H as [|j H IH]; simpl; [by split_and!; auto|].
  destruct IH as (H1 & H2 & H3 & H4). split_and!; [done|done|done|].
  intros i Hi Hn. apply slock_free_shold; [|apply H4; [done|set_solver]]. intros [= ->]. set_solver.
Qed.

Lemma holds_woke H tr c : holds H (woke tr c) = woke tr (holds H c).
Proof. induction H; simpl; [done|]. by rewrite IHlist. Qed.

Lemma bio_core_woke tr c : bio_core (woke tr c) <-> bio_core c.
Proof. done. Qed.

Lemma shold_comm i j c : i <> j -> shold i (shold j c) = shold j (shold i c).
Proof.
  intros H. unfold shold, set_slock, get_slock. simpl. rewrite !lookup_insert_ne by done. f_equal.
  by apply insert_insert_ne.
Qed.

Lemma holds_swap i j H c : i <> j -> holds (i :: j :: H) c = holds (j :: i :: H) c.
Proof. intros Hne. simpl. apply shold_comm. congruence. Qed.

(** Replacing one buffer keeps the invariant when the new one is in order. *)
Lemma binv_set_buf s i b :
  binv dv s -> (i < HEAD)%nat -> b_dev b = dv -> b_valid b = 1 -> 0 <= b_refcnt b < 2 ^ 31 -> blk_ok (b_data b) ->
  (forall j, (j < HEAD)%nat -> j <> i -> ~ cached dv s (b_blockno b) j) ->
  (b_refcnt b = 0 -> b_data b = disk_read (bc_disk s) (b_blockno b)) ->
  binv dv (set_buf i b s).
Proof.
  intros Hinv Hi Hdev Hval Href Hblk Hother Hclean. assert (i < length (bc_bufs s))%nat as Hlen by by rewrite (bi_len _ _ Hinv).
  split.
  - unfold set_buf. simpl. rewrite length_insert. apply Hinv.
  - destruct (bi_ring _ _ Hinv) as (ord & Hr & Hp). exists ord. split; [|done]. exact Hr.
  - intros j Hj. rewrite get_set_buf by done. case_decide; [by left|]. by apply Hinv.
  - intros j k Hj Hk. rewrite !get_set_buf by done. repeat case_decide; subst; try done.
    + intros _ H1 H2. exfalso. apply (Hother k); [done|done|]. done.
    + intros H1 _ H2. exfalso. apply (Hother j); [done|done|]. done.
    + by apply Hinv.
  - intros j Hj. rewrite get_set_buf by done. case_decide; [done|]. by apply Hinv.
  - intros j Hj. rewrite !get_set_buf by done. case_decide; [auto|]. by apply Hinv.
  - intros j Hj. rewrite get_set_buf by done. case_decide; [done|]. by apply Hinv.
  - apply Hinv.
Qed.

Lemma bget_find s b : binv dv s ->
  exists ord, ring s ord /\ ord ≡ₚ seq 0 HEAD /\
    bget_cached s dv b (nxt HEAD s) (S HEAD) = List.find (is_block dv b s) ord /\
    bget_lru s (prv HEAD s) (S HEAD) = List.find (fun i => b_refcnt (get_buf i s) =? 0) (rev ord).
Proof.
  intros Hinv. destruct (bi_ring _ _ Hinv) as (ord & Hr & Hp). exists ord. destruct Hr as (Hs & Hnd & Hlt).
  assert (length ord = HEAD) as Hl by (rewrite Hp; apply length_seq).
  split_and!; [done|done|apply bget_cached_seg; [done|done|lia]|apply bget_lru_seg; [done|done|lia]].
Qed.

Lemma bget_hit s b i : binv dv s -> cached dv s b i ->
  bget_cached s dv b (nxt HEAD s) (S HEAD) = Some i.
Proof.
  intros Hinv Hc. destruct (bget_find s b Hinv) as (ord & _ & Hp & -> & _).
  assert (i ∈ ord) as Hin by (rewrite Hp; apply elem_of_seq; destruct Hc; lia).
  destruct (List.find _ ord) as [j|] eqn:E.
  - apply List.find_some in E as [Hj Hf]. apply list_elem_of_In in Hj. rewrite Hp in Hj. apply elem_of_seq in Hj.
    apply is_block_cached in Hf; [|lia]. f_equal. by eapply cached_inj.
  - exfalso. apply list_elem_of_In in Hin. eapply List.find_none in E; [|exact Hin].
    apply (is_block_cached dv s b i) in Hc as Hc'; [congruence|apply Hc].
Qed.

Lemma bget_miss s b : binv dv s -> (forall i, ~ cached dv s b i) ->
  (exists k, (k < HEAD)%nat /\ b_refcnt (get_buf k s) = 0) ->
  exists i, (i < HEAD)%nat /\ b_refcnt (get_buf i s) = 0 /\
    bget_cached s dv b (nxt HEAD s) (S HEAD) = None /\ bget_lru s (prv HEAD s) (S HEAD) = Some i.
Proof.
  intros Hinv Hn (k & Hk & Hrk). destruct (bget_find s b Hinv) as (ord & _ & Hp & -> & ->).
  assert (forall j, In j ord -> (j < HEAD)%nat) as Hlt.
  { intros j Hj. apply list_elem_of_In in Hj. rewrite Hp in Hj. apply elem_of_seq in Hj. lia. }
  destruct (List.find _ (rev ord)) as [i|] eqn:E.
  - apply List.find_some in E as [Hi Hf]. apply in_rev in Hi. exists i. split_and!; auto; [lia|].
    destruct (List.find _ ord) as [j|] eqn:E'; [|done]. apply List.find_some in E' as [Hj Hfj].
    apply is_block_cached in Hfj; [|auto]. by apply Hn in Hfj.
  - exfalso. assert (In k (rev ord)) as Hin.
    { apply -> in_rev. apply list_elem_of_In. rewrite Hp. apply elem_of_seq. lia. }
    eapply List.find_none in E; [|exact Hin]. simpl in E. lia.
Qed.

(** The buffer [bread] returns. *)
Definition read_buf (s : bcache) (b : Z) (i : nat) : buf :=
  mkBuf 1 (b_disk (get_buf i s)) dv b (b_refcnt (get_buf i s) + 1) (view dv s b).

(** [bread] of a block: the cached copy, or the least recently used free
    buffer filled from the disk. *)
Lemma bread_ok H c s b :
  bio_core c -> binv dv s -> Forall (fun i => 0 < b_refcnt (get_buf i s)) H ->
  (forall i, cached dv s b i -> i ∉ H /\ b_refcnt (get_buf i s) + 1 < 2 ^ 31) ->
  (exists k, cached dv s b k \/ (k < HEAD)%nat /\ b_refcnt (get_buf k s) = 0) ->
  exists i, (i < HEAD)%nat /\ (i ∉ H) /\
    bread dv b (holds H c) s = Ok i (holds (i :: H) c) (set_buf i (read_buf s b i) s) /\
    (cached dv s b i \/ (forall j, ~ cached dv s b j) /\ b_refcnt (get_buf i s) = 0) /\
    binv dv (set_buf i (read_buf s b i) s).
Proof.
  intros Hc Hinv HH Hnh Hfree. destruct (holds_core H c Hc) as (Hwf & Hlk & Hpr & Hsl).
  destruct Hc as (_ & _ & _ & [p Hp]). rewrite <- Hpr in Hp.
  assert (forall b, blk_ok (view dv s b)) as Hvb.
  { intros b'. unfold view. case_match eqn:E; [|apply Hinv]. apply Hinv. apply List.find_some in E as [Hin _].
    apply in_seq in Hin. lia. }
  assert (forall i, (i < HEAD)%nat -> (i < length (bc_bufs s))%nat) as Hlen by (by rewrite (bi_len _ _ Hinv)).
  destruct (cached_dec s b) as [[i Hi]|Hn].
  - destruct (Hnh _ Hi) as [Hni Hrc]. pose proof Hi as (Hlt & Hdev & Hblk). exists i. split_and!; auto.
    + unfold bread, bget. erewrite bind_ok.
      2:{ erewrite bind_ok by (by apply acquire_free). rewrite bind_get, (bget_hit s b i) by done.
          rewrite bind_modify. erewrite bind_ok by (by apply release_hold).
          erewrite bind_ok by (eapply acquiresleep_ok; [done|by apply Hsl|done]). done. }
      rewrite bind_gets. unfold upd_buf. rewrite get_set_buf, decide_True by auto.
      destruct (bi_used _ _ Hinv i Hlt) as [[_ Hv]|[? _]]; [|done]. simpl. rewrite Hv. simpl.
      unfold read_buf, with_refcnt. rewrite u32_small by (pose proof (bi_ref _ _ Hinv i Hlt); lia).
      rewrite Hv, Hdev, Hblk. rewrite (view_cached s b i) by done. done.
    + pose proof (bi_ref _ _ Hinv i Hlt). apply binv_set_buf; simpl; auto; try lia.
      intros j Hj Hne Hcj. apply Hne. by eapply cached_inj.
  - destruct Hfree as (k & [Hk|Hk]); [by apply Hn in Hk|].
    destruct (bget_miss s b Hinv Hn) as (i & Hlt & Hrc & Hc1 & Hc2); [eauto|].
    assert (i ∉ H) as Hni. { intros Hin. rewrite Forall_forall in HH. apply HH in Hin. lia. }
    exists i. split_and!; auto.
    + unfold bread, bget. erewrite bind_ok.
      2:{ erewrite bind_ok by (by apply acquire_free). rewrite bind_get, Hc1, Hc2.
          rewrite bind_modify. erewrite bind_ok by (by apply release_hold).
          erewrite bind_ok by (eapply acquiresleep_ok; [done|by apply Hsl|done]). done. }
      rewrite bind_gets. unfold upd_buf at 1 2. rewrite get_set_buf, decide_True by auto. simpl.
      unfold virtio_disk_rw, modify, gets. cbv [mbind M_bind]. unfold upd_buf.
      rewrite !get_set_buf, !decide_True by (simpl; rewrite ?length_insert; auto). simpl.
      unfold read_buf. rewrite (view_uncached s b) by done. rewrite Hrc. f_equal.
      unfold set_buf. simpl. f_equal. rewrite !list_insert_insert_eq. done.
    + apply binv_set_buf; simpl; auto; try lia.
Qed.

Lemma disk_read_write d b x b' : disk_read (disk_write d b x) b' = if decide (b = b') then x else disk_read d b'.
Proof. unfold disk_read, disk_write. simpl. rewrite lookup_insert. by case_decide. Qed.

(** [bwrite] of a held buffer. *)
Lemma bwrite_ok H c s i :
  bio_core c -> (i < HEAD)%nat -> (i ∉ H) ->
  bwrite i (holds (i :: H) c) s = Ok tt (holds (i :: H) c)
    (set_disk (disk_write (bc_disk s) (b_blockno (get_buf i s)) (b_data (get_buf i s))) s).
Proof.
  intros Hc Hi Hni. destruct (holds_core H c Hc) as (Hwf & Hlk & Hpr & Hsl).
  destruct Hc as (_ & _ & _ & [p Hp]). rewrite <- Hpr in Hp. unfold bwrite.
  erewrite bind_ok by (eapply holdingsleep_ok; [exact Hwf|by apply Hsl|exact Hp]). done.
Qed.

Lemma binv_bwrite s i :
  binv dv s -> (i < HEAD)%nat -> b_dev (get_buf i s) = dv ->
  binv dv (set_disk (disk_write (bc_disk s) (b_blockno (get_buf i s)) (b_data (get_buf i s))) s).
Proof.
  intros Hinv Hi Hd. split; try apply Hinv.
  - intros j Hj Hdj Hrj. cbn [bc_disk set_disk]. rewrite disk_read_write. change (get_buf j (set_disk _ s)) with (get_buf j s) in *.
    case_decide as E; [|by apply Hinv].
    replace j with i; [done|]. by eapply (bi_uniq _ _ Hinv).
  - intros b. cbn [bc_disk set_disk]. rewrite disk_read_write. case_decide; [by apply Hinv|apply Hinv].
Qed.

(** Storing into the data of a held buffer. *)
Lemma binv_store s i x :
  binv dv s -> (i < HEAD)%nat -> b_dev (get_buf i s) = dv -> 0 < b_refcnt (get_buf i s) -> blk_ok x ->
  binv dv (upd_buf i (with_data x) s).
Proof.
  intros Hinv Hi Hd Hr Hx. pose proof (bi_ref _ _ Hinv i Hi).
  destruct (bi_used _ _ Hinv i Hi) as [[_ Hv]|[? _]]; [|done].
  apply binv_set_buf; simpl; auto; try lia. intros j Hj Hne (_ & H1 & H2). apply Hne. by eapply (bi_uniq _ _ Hinv).
Qed.

(** Unlinking and linking at the head only reorders the list. *)
Lemma binv_reorder s i :
  binv dv s -> (i < HEAD)%nat ->
  let s1 := set_prev (nxt i s) (prv i s) s in
  let s2 := set_next (prv i s1) (nxt i s1) s1 in
  binv dv (link_head i s2).
Proof.
  intros Hinv Hi s1 s2. destruct (bi_ring _ _ Hinv) as (ord & Hr & Hp). split; try apply Hinv.
  assert (i ∈ ord) as Hin by (rewrite Hp; apply elem_of_seq; lia).
  apply list_elem_of_split in Hin as (l1 & l2 & ->). exists (i :: l1 ++ l2).
  assert (NoDup (l1 ++ i :: l2)) as Hnd by apply Hr. rewrite <- Permutation_middle in Hnd. apply NoDup_cons in Hnd as [Hni _].
  split; [|rewrite <- Hp; apply Permutation_middle]. apply ring_link; [|done|done]. by apply ring_unlink.
Qed.

Lemma upd_refcnt_inv s i r :
  binv dv s -> (i < HEAD)%nat -> b_dev (get_buf i s) = dv -> 0 <= r < 2 ^ 31 ->
  (r = 0 -> b_data (get_buf i s) = disk_read (bc_disk s) (b_blockno (get_buf i s))) ->
  binv dv (upd_buf i (with_refcnt r) s).
Proof.
  intros Hinv Hi Hd Hr Hcl. destruct (bi_used _ _ Hinv i Hi) as [[_ Hv]|[? _]]; [|done].
  apply binv_set_buf; simpl; auto; [by apply Hinv|].
  intros j Hj Hne (_ & H1 & H2). apply Hne. by eapply (bi_uniq _ _ Hinv).
Qed.

(** [brelse] of a held buffer.  If nobody else refers to it, its contents
    must be on disk. *)
Lemma brelse_ok H c s i :
  bio_core c -> binv dv s -> (i < HEAD)%nat -> (i ∉ H) -> b_dev (get_buf i s) = dv ->
  0 < b_refcnt (get_buf i s) ->
  (b_refcnt (get_buf i s) = 1 -> b_data (get_buf i s) = disk_read (bc_disk s) (b_blockno (get_buf i s))) ->
  exists s', brelse i (holds (i :: H) c) s = Ok tt (woke [ChSleeplock (SlBuf i)] (holds H c)) s' /\
    bc_bufs s' = bc_bufs (upd_buf i (with_refcnt (b_refcnt (get_buf i s) - 1)) s) /\
    bc_disk s' = bc_disk s /\ binv dv s'.
Proof.
  intros Hc Hinv Hi Hni Hd Hr Hcl. destruct (holds_core H c Hc) as (Hwf & Hlk & Hpr & Hsl).
  destruct Hc as (_ & _ & _ & [p Hp]). rewrite <- Hpr in Hp. unfold brelse.
  erewrite bind_ok by (eapply holdingsleep_ok; [exact Hwf|by apply Hsl|exact Hp]). cbn [negb].
  erewrite bind_ok by (apply releasesleep_ok; [exact Hwf|by apply Hsl]).
  erewrite bind_ok by (apply acquire_free; exact Hlk). rewrite bind_modify, bind_gets.
  pose proof (bi_ref _ _ Hinv i Hi) as Href. set (r := b_refcnt (get_buf i s) - 1).
  assert (upd_buf i (fun x => with_refcnt (u32 (b_refcnt x - 1)) x) s = upd_buf i (with_refcnt r) s) as ->.
  { unfold upd_buf. by rewrite u32_small by lia. }
  assert (binv dv (upd_buf i (with_refcnt r) s)) as Hi1.
  { apply upd_refcnt_inv; auto; unfold r; [lia|]. intros E. apply Hcl. lia. }
  unfold upd_buf at 1. rewrite get_set_buf, decide_True by (rewrite ?(bi_len _ _ Hinv); done).
  cbn [b_refcnt with_refcnt]. destruct (Z.eqb_spec r 0) as [E|E]; cbn [when].
  - unfold modify. cbv [mbind M_bind]. rewrite release_hold by done. eexists. split_and!; [done|done|done|].
    by apply binv_reorder.
  - rewrite bind_ret, release_hold by done. eexists. split_and!; done.
Qed.

Lemma bpin_ok c s i :
  core_wf c -> lock_free LkBcache c -> 0 <= b_refcnt (get_buf i s) < 2 ^ 32 - 1 ->
  bpin i c s = Ok tt c (upd_buf i (with_refcnt (b_refcnt (get_buf i s) + 1)) s).
Proof.
  intros Hc Hl Hr. unfold bpin. erewrite bind_ok by (by apply acquire_free). rewrite bind_modify, release_hold by done.
  f_equal. unfold upd_buf. by rewrite u32_small by lia.
Qed.

Lemma bunpin_ok c s i :
  core_wf c -> lock_free LkBcache c -> 0 < b_refcnt (get_buf i s) < 2 ^ 32 ->
  bunpin i c s = Ok tt c (upd_buf i (with_refcnt (b_refcnt (get_buf i s) - 1)) s).
Proof.
  intros Hc Hl Hr. unfold bunpin. erewrite bind_ok by (by apply acquire_free). rewrite bind_modify, release_hold by done.
  f_equal. unfold upd_buf. by rewrite u32_small by lia.
Qed.
End spec.
