(* ===== verification/BioAbs.v ===== *)
(** * The buffer cache as its clients see it

    Clients of bio.c need not know which buffer holds a block or the order of
    the LRU list.  For them the cache is three maps from block numbers:
    [view] (the current contents), [pin] (how many references keep the block
    in the cache) and the contents of the disk; a handle is a buffer that the
    process has locked.  This file proves the operations of Bio.v against
    that abstraction. *)

From Stdlib Require Import ZArith Lia.
From stdpp Require Import base gmap list numbers strings.
From S2P Require Import Prelude Riscv Core Spinlock Sleeplock Bio.
Local Open Scope Z_scope.

(** References to a block. *)
Definition pin (dv : Z) (s : bcache) (b : Z) : Z :=
  match List.find (is_block dv b s) (seq 0 HEAD) with
  | Some i => b_refcnt (get_buf i s)
  | None => 0
  end.

Definition dread (s : bcache) (b : Z) : list Z := disk_read (bc_disk s) b.

(** The handles [H], pairs of a buffer and its block, are open. *)
Definition opened (dv : Z) (s : bcache) (H : list (nat * Z)) : Prop :=
  NoDup (H.*1) /\ forall i b, (i, b) ∈ H -> cached dv s b i /\ 0 < pin dv s b.

Definition upd {A} (f : Z -> A) (b : Z) (x : A) : Z -> A := fun b' => if b' =? b then x else f b'.

Section abs.
Context (dv : Z).
Implicit Types (s : bcache) (c : core) (H : list (nat * Z)).

Lemma pin_cached s b i : binv dv s -> cached dv s b i -> pin dv s b = b_refcnt (get_buf i s).
Proof.
  intros Hi Hc. unfold pin. destruct (List.find _ _) as [j|] eqn:E.
  - apply List.find_some in E as [Hin Hf]. apply in_seq in Hin. apply is_block_cached in Hf; [|lia].
    by rewrite (cached_inj dv s b i j).
  - exfalso. apply (proj1 (find_seq_none _ _)) with (i := i) in E; [|apply Hc].
    apply (is_block_cached dv s b i) in Hc as Hc'; [congruence|apply Hc].
Qed.

Lemma pin_uncached s b : (forall i, ~ cached dv s b i) -> pin dv s b = 0.
Proof.
  intros Hn. unfold pin. destruct (List.find _ _) as [j|] eqn:E; [|done].
  apply List.find_some in E as [Hin Hf]. apply in_seq in Hin. apply is_block_cached in Hf; [|lia]. by apply Hn in Hf.
Qed.

Lemma pin_range s b : binv dv s -> 0 <= pin dv s b < 2 ^ 31.
Proof.
  intros Hi. destruct (cached_dec dv s b) as [[i Hc]|Hn].
  - rewrite (pin_cached s b i) by done. apply Hi, Hc.
  - rewrite pin_uncached by done. lia.
Qed.

(** A block nobody refers to reads as on disk. *)
Lemma view_unpinned s b : binv dv s -> pin dv s b = 0 -> view dv s b = dread s b.
Proof.
  intros Hi Hp. destruct (cached_dec dv s b) as [[i Hc]|Hn]; [|by apply view_uncached].
  rewrite (view_cached dv s b i), (pin_cached s b i) in * by done. destruct Hc as (Hlt & Hd & Hb).
  rewrite (bi_clean _ _ Hi i) by done. by rewrite Hb.
Qed.

Lemma view_ok s b : binv dv s -> blk_ok (view dv s b).
Proof.
  intros Hi. destruct (cached_dec dv s b) as [[i Hc]|Hn].
  - rewrite (view_cached dv s b i) by done. apply Hi, Hc.
  - rewrite view_uncached by done. apply Hi.
Qed.

(** [pin] and [view] are functions of the buffers and the disk. *)
Lemma abs_ext s s' b :
  bc_bufs s' = bc_bufs s -> bc_disk s' = bc_disk s -> pin dv s' b = pin dv s b /\ view dv s' b = view dv s b.
Proof.
  intros H1 H2. unfold pin, view, is_block, get_buf. by rewrite H1, H2.
Qed.

Lemma cached_ext s s' b i : bc_bufs s' = bc_bufs s -> cached dv s' b i <-> cached dv s b i.
Proof. intros E. unfold cached, get_buf. by rewrite E. Qed.

(** Replacing a buffer by one for the same block, or recycling an unused one. *)
Lemma set_buf_abs s i x :
  binv dv s -> (i < HEAD)%nat -> b_dev x = dv ->
  (cached dv s (b_blockno x) i \/ (forall j, ~ cached dv s (b_blockno x) j) /\ b_refcnt (get_buf i s) = 0) ->
  binv dv (set_buf i x s) ->
  (forall b, pin dv (set_buf i x s) b = upd (pin dv s) (b_blockno x) (b_refcnt x) b) /\
  (forall b, view dv (set_buf i x s) b = upd (view dv s) (b_blockno x) (b_data x) b).
Proof.
  intros Hinv Hi Hd Hcase Hinv'. assert (i < length (bc_bufs s))%nat as Hlen by by rewrite (bi_len _ _ Hinv).
  assert (cached dv (set_buf i x s) (b_blockno x) i) as Hci.
  { unfold cached. rewrite get_set_buf, decide_True by done. done. }
  assert (forall b j, b <> b_blockno x -> cached dv (set_buf i x s) b j <-> cached dv s b j /\ j <> i) as Hoth.
  { intros b j Hb. unfold cached. rewrite get_set_buf by done. case_decide; subst; [naive_solver|]. naive_solver. }
  assert (forall b, b <> b_blockno x -> cached dv s b i -> b_refcnt (get_buf i s) = 0) as Hold.
  { intros b Hb (_ & _ & Hbi). destruct Hcase as [(_ & _ & ?)|[_ ?]]; [congruence|done]. }
  split; intros b; unfold upd; (destruct (Z.eqb_spec b (b_blockno x)) as [->|Hb];
    [rewrite ?(pin_cached _ _ _ Hinv' Hci), ?(view_cached dv _ _ _ Hinv' Hci); by rewrite get_set_buf, decide_True by done|]).
  - destruct (cached_dec dv s b) as [[j Hj]|Hn].
    + rewrite (pin_cached s b j) by done. destruct (decide (j = i)) as [->|Hne].
      * rewrite (Hold b) by done. apply pin_uncached. intros k Hk. apply Hoth in Hk as [Hk Hki]; [|done].
        apply Hki. by eapply (cached_inj dv s b).
      * rewrite (pin_cached _ b j) by (done || by apply Hoth). rewrite get_set_buf by done. by rewrite decide_False.
    + rewrite (pin_uncached s b) by done. apply pin_uncached. intros k Hk. apply Hoth in Hk as [Hk _]; [|done]. by apply (Hn k).
  - destruct (cached_dec dv s b) as [[j Hj]|Hn].
    + rewrite (view_cached dv s b j) by done. destruct (decide (j = i)) as [->|Hne].
      * rewrite view_uncached.
        { pose proof Hj as (_ & Hdi & Hbi). rewrite (bi_clean _ _ Hinv i) by (done || by apply (Hold b)). by rewrite Hbi. }
        intros k Hk. apply Hoth in Hk as [Hk Hki]; [|done]. apply Hki. by eapply (cached_inj dv s b).
      * rewrite (view_cached dv _ b j) by (done || by apply Hoth). rewrite get_set_buf by done. by rewrite decide_False.
    + rewrite (view_uncached dv s b) by done. rewrite view_uncached; [done|].
      intros k Hk. apply Hoth in Hk as [Hk _]; [|done]. by apply (Hn k).
Qed.

(** Room in the cache: fewer referenced blocks than buffers. *)
Lemma room s L :
  binv dv s -> (forall b, 0 < pin dv s b -> b ∈ L) -> (length L < HEAD)%nat ->
  exists k, (k < HEAD)%nat /\ b_refcnt (get_buf k s) = 0.
Proof.
  intros Hinv HL Hlen.
  destruct (List.find (fun i => b_refcnt (get_buf i s) =? 0) (seq 0 HEAD)) as [k|] eqn:E.
  - apply List.find_some in E as [Hin Hf]. apply in_seq in Hin. exists k. lia.
  - exfalso. assert (forall i, (i < HEAD)%nat -> cached dv s (b_blockno (get_buf i s)) i /\ 0 < b_refcnt (get_buf i s)) as Hall.
    { intros i Hi. apply (proj1 (find_seq_none _ _)) with (i := i) in E; [|done]. apply Z.eqb_neq in E.
      pose proof (bi_ref _ _ Hinv i Hi). destruct (bi_used _ _ Hinv i Hi) as [[? _]|[_ ?]]; [|lia]. split; [done|lia]. }
    assert (NoDup ((fun i => b_blockno (get_buf i s)) <$> seq 0 HEAD)) as Hnd.
    { apply NoDup_fmap_2_strong; [|apply NoDup_seq]. intros i j Hi Hj Eb. apply elem_of_seq in Hi, Hj.
      destruct (Hall i) as [Hci _]; [lia|]. destruct (Hall j) as [Hcj _]; [lia|]. rewrite <- Eb in Hcj. by eapply cached_inj. }
    apply NoDup_ListNoDup, NoDup_incl_length with (l' := L) in Hnd.
    + rewrite length_fmap, length_seq in Hnd. lia.
    + intros b Hb. apply list_elem_of_In, list_elem_of_fmap in Hb as (i & -> & Hi). apply elem_of_seq in Hi.
      destruct (Hall i) as [Hc Hr]; [lia|]. apply list_elem_of_In, HL. by rewrite (pin_cached _ _ i).
Qed.

Lemma opened_nin s H i b : binv dv s -> opened dv s H -> cached dv s b i -> b ∉ H.*2 -> i ∉ H.*1.
Proof.
  intros Hinv [_ Ho] Hc Hb Hin. apply list_elem_of_fmap in Hin as ([j b'] & -> & Hin). simpl in *.
  apply Hb. replace b with b'; [by apply (list_elem_of_fmap_2 snd _ (j, b'))|].
  destruct (Ho _ _ Hin) as [(_ & _ & E) _]. destruct Hc as (_ & _ & E'). congruence.
Qed.

Lemma opened_pos s H : binv dv s -> opened dv s H -> Forall (fun i => 0 < b_refcnt (get_buf i s)) (H.*1).
Proof.
  intros Hinv [_ Ho]. apply Forall_forall. intros i Hin. apply list_elem_of_fmap in Hin as ([j b] & -> & Hin).
  destruct (Ho _ _ Hin) as [Hc Hp]. by rewrite (pin_cached s b j) in Hp.
Qed.

(** The abstract effect of an operation: [f], [g] and [d] are the new pins,
    contents and disk. *)
Definition abs (s : bcache) (f : Z -> Z) (g : Z -> list Z) (d : disk) : Prop :=
  binv dv s /\ (forall b, pin dv s b = f b) /\ (forall b, view dv s b = g b) /\ bc_disk s = d.

Lemma abs_intro s : binv dv s -> abs s (pin dv s) (view dv s) (bc_disk s).
Proof. done. Qed.

Lemma upd_eq {A} (f : Z -> A) b x : upd f b x b = x.
Proof. unfold upd. by rewrite Z.eqb_refl. Qed.

Lemma upd_ne {A} (f : Z -> A) b x b' : b' <> b -> upd f b x b' = f b'.
Proof. intros Hne. unfold upd. by bfalse (b' =? b). Qed.

Lemma bread_abs H c s f g d b :
  bio_core c -> abs s f g d -> opened dv s H -> b ∉ H.*2 -> f b + 1 < 2 ^ 31 ->
  (0 < f b \/ exists L, (forall b, 0 < f b -> b ∈ L) /\ (length L < HEAD)%nat) ->
  exists i s', bread dv b (holds (H.*1) c) s = Ok i (holds (i :: H.*1) c) s' /\
    opened dv s' ((i, b) :: H) /\ abs s' (upd f b (f b + 1)) g d.
Proof.
  intros Hc (Hinv & Hf & Hg & Hd) Ho Hb Hfb Hroom.
  destruct (bread_ok dv (H.*1) c s b) as (i & Hi & Hni & Hr & Hcase & Hinv'); auto.
  { by apply opened_pos. }
  { intros i Hci. split; [by eapply opened_nin|]. rewrite <- (pin_cached s b i) by done. by rewrite Hf. }
  { destruct (cached_dec dv s b) as [[k Hk]|Hn]; [by exists k; left|]. destruct Hroom as [Hp|(L & HL & Hlen)].
    - rewrite <- Hf, pin_uncached in Hp by done. lia.
    - destruct (room s L) as (k & Hk & Hr); auto. { intros b'. rewrite Hf. apply HL. } exists k. by right. }
  assert (b_refcnt (read_buf dv s b i) = f b + 1 /\ b_data (read_buf dv s b i) = g b /\
          b_dev (read_buf dv s b i) = dv /\ b_blockno (read_buf dv s b i) = b) as (Hxr & Hxd & Hxv & Hxb).
  { split_and!; try done; [|apply Hg]. rewrite <- Hf. simpl. destruct Hcase as [Hci|[Hn Hr0]].
    - by rewrite (pin_cached s b i). - by rewrite (pin_uncached s b), Hr0. }
  set (x := read_buf dv s b i) in *. clearbody x.
  destruct (set_buf_abs s i x) as [Hpin Hview]; rewrite ?Hxb; auto. rewrite Hxb, Hxr in Hpin. rewrite Hxb, Hxd in Hview.
  assert (i < length (bc_bufs s))%nat as Hlen by by rewrite (bi_len _ _ Hinv).
  exists i, (set_buf i x s). split_and!; [done| |].
  - destruct Ho as [Hnd Ho]. split; [by constructor|]. intros j b' [[= -> ->]|Hin]%elem_of_cons.
    + split; [|rewrite Hpin, upd_eq; specialize (Hf b); pose proof (pin_range s b Hinv); lia].
      unfold cached. rewrite get_set_buf, decide_True by done. done.
    + destruct (Ho _ _ Hin) as [Hcj Hpj]. assert (b' <> b) as Hne.
      { intros ->. apply Hb. by apply (list_elem_of_fmap_2 snd _ (j, b)). }
      split; [|rewrite Hpin; by rewrite upd_ne].
      unfold cached. rewrite get_set_buf by done. case_decide; [|exact Hcj]. subst j.
      exfalso. apply Hni. by apply (list_elem_of_fmap_2 fst _ (i, b')).
  - split_and!; [done| | |done].
    + intros b'. rewrite Hpin. unfold upd. by case_match.
    + intros b'. rewrite Hview. unfold upd. destruct (Z.eqb_spec b' b) as [->|]; auto.
Qed.

(** The bytes of a handle are the contents of its block. *)
Lemma handle_data s H f g d i b :
  abs s f g d -> opened dv s H -> (i, b) ∈ H -> b_data (get_buf i s) = g b /\ b_blockno (get_buf i s) = b /\ (i < HEAD)%nat.
Proof.
  intros (Hinv & _ & Hg & _) [_ Ho] Hin. destruct (Ho _ _ Hin) as [Hc _]. rewrite <- (view_cached dv s b i) by done.
  split_and!; [apply Hg|apply Hc|apply Hc].
Qed.

Lemma store_abs s H f g d i b x :
  abs s f g d -> opened dv s H -> (i, b) ∈ H -> blk_ok x ->
  opened dv (upd_buf i (with_data x) s) H /\ abs (upd_buf i (with_data x) s) f (upd g b x) d.
Proof.
  intros (Hinv & Hf & Hg & Hd) [Hnd Ho] Hin Hx. destruct (Ho _ _ Hin) as [Hc Hp]. pose proof Hc as (Hi & Hdi & Hbi).
  assert (binv dv (upd_buf i (with_data x) s)) as Hinv'.
  { apply binv_store; auto. by rewrite <- (pin_cached s b i). }
  destruct (set_buf_abs s i (with_data x (get_buf i s))) as [Hpin Hview]; auto; simpl in *; rewrite ?Hbi; [by left|].
  rewrite Hbi in Hpin, Hview.
  assert (forall b', pin dv (upd_buf i (with_data x) s) b' = f b') as Hpin'.
  { intros b'. unfold upd_buf. rewrite Hpin. unfold upd. destruct (Z.eqb_spec b' b) as [->|]; [|done].
    by rewrite <- (pin_cached s b i). }
  split; [|split_and!; [done|done| |done]].
  - split; [done|]. intros j b' Hj. destruct (Ho _ _ Hj) as [Hcj Hpj]. rewrite Hpin', <- Hf. split; [|done].
    unfold cached, upd_buf. rewrite get_set_buf by (by rewrite (bi_len _ _ Hinv)). case_decide; subst; exact Hcj.
  - intros b'. unfold upd_buf. rewrite Hview. unfold upd. case_match; [done|]. apply Hg.
Qed.

Lemma bwrite_abs c s H f g d i b :
  bio_core c -> abs s f g d -> opened dv s ((i, b) :: H) ->
  exists s', bwrite i (holds (i :: H.*1) c) s = Ok tt (holds (i :: H.*1) c) s' /\
    opened dv s' ((i, b) :: H) /\ abs s' f g (disk_write d b (g b)).
Proof.
  intros Hc Ha Ho. pose proof Ha as (Hinv & Hf & Hg & Hd).
  destruct (handle_data s _ f g d i b Ha Ho) as (Hdat & Hblk & Hi); [by left|].
  pose proof Ho as [Hnd Ho']. cbn in Hnd. apply NoDup_cons in Hnd as [Hni Hnd].
  destruct (Ho' i b) as [(_ & Hdev & _) _]; [by left|].
  pose proof (binv_bwrite dv s i Hinv Hi Hdev) as Hinv'. rewrite Hdat, Hblk in Hinv'.
  eexists. split; [rewrite bwrite_ok by done; rewrite Hdat, Hblk, Hd; reflexivity|]. rewrite Hd in Hinv'.
  assert (forall b', pin dv (set_disk (disk_write d b (g b)) s) b' = pin dv s b') as Hp by done.
  split.
  - split; [by constructor|]. intros j b' Hj. rewrite Hp. by apply Ho'.
  - split_and!; [done|done| |done]. intros b'.
    destruct (cached_dec dv s b') as [[k Hk]|Hn].
    + rewrite (view_cached dv _ b' k) by done. rewrite <- (Hg b'). by rewrite (view_cached dv s b' k).
    + rewrite view_uncached by done. cbn [bc_disk set_disk]. rewrite disk_read_write.
      case_decide as E; [by subst|]. rewrite <- (Hg b'), view_uncached by done. by rewrite Hd.
Qed.

(** Changing the reference count of a cached block. *)
Lemma refcnt_abs s f g d i b r :
  abs s f g d -> cached dv s b i -> 0 <= r < 2 ^ 31 -> (r = 0 -> g b = disk_read d b) ->
  abs (upd_buf i (with_refcnt r) s) (upd f b r) g d /\
  (forall b' j, cached dv (upd_buf i (with_refcnt r) s) b' j <-> cached dv s b' j).
Proof.
  intros (Hinv & Hf & Hg & Hd) Hc Hr Hcl. pose proof Hc as (Hi & Hdi & Hbi).
  assert (binv dv (upd_buf i (with_refcnt r) s)) as Hinv'.
  { apply upd_refcnt_inv; auto. intros E. rewrite <- (view_cached dv s b i) by done. rewrite Hg, Hd, Hbi. auto. }
  destruct (set_buf_abs s i (with_refcnt r (get_buf i s))) as [Hpin Hview]; auto; simpl in *; rewrite ?Hbi; [by left|].
  rewrite Hbi in Hpin, Hview. split; [split_and!; [done| | |done]|].
  - intros b'. unfold upd_buf. rewrite Hpin. unfold upd. by case_match.
  - intros b'. unfold upd_buf. rewrite Hview. unfold upd. destruct (Z.eqb_spec b' b) as [->|]; [|done].
    rewrite <- Hg. by rewrite (view_cached dv s b i).
  - intros b' j. unfold cached, upd_buf. rewrite get_set_buf by (by rewrite (bi_len _ _ Hinv)). case_decide; [by subst|done].
Qed.

Lemma opened_upd s s' H f f' g g' d d' :
  abs s f g d -> abs s' f' g' d' -> opened dv s H -> (forall b i, cached dv s' b i <-> cached dv s b i) ->
  (forall b, b ∈ H.*2 -> 0 < f' b) -> opened dv s' H.
Proof.
  intros _ (_ & Hf' & _) [Hnd Ho] Hc Hp. split; [done|]. intros i b Hin. destruct (Ho _ _ Hin) as [Hci _].
  split; [by apply Hc|]. rewrite Hf'. apply Hp. by apply (list_elem_of_fmap_2 snd _ (i, b)).
Qed.

Lemma opened_blocks s H i b : binv dv s -> opened dv s ((i, b) :: H) -> b ∉ H.*2.
Proof.
  intros Hinv [Hnd Ho] Hin. apply list_elem_of_fmap in Hin as ([j b'] & -> & Hin). simpl in *.
  apply NoDup_cons in Hnd as [Hni _]. apply Hni. replace i with j; [by apply (list_elem_of_fmap_2 fst _ (j, b'))|].
  destruct (Ho i b') as [H1 _]; [by left|]. destruct (Ho j b') as [H2 _]; [by right|]. by eapply cached_inj.
Qed.

Lemma brelse_abs c s H f g d i b :
  bio_core c -> abs s f g d -> opened dv s ((i, b) :: H) -> (f b = 1 -> g b = disk_read d b) ->
  exists s' tr, brelse i (holds (i :: H.*1) c) s = Ok tt (woke tr (holds (H.*1) c)) s' /\
    opened dv s' H /\ abs s' (upd f b (f b - 1)) g d.
Proof.
  intros Hc Ha Ho Hcl. pose proof Ha as (Hinv & Hf & Hg & Hd).
  pose proof (opened_blocks s H i b Hinv Ho) as Hb. pose proof Ho as [Hnd Ho']. cbn in Hnd. apply NoDup_cons in Hnd as [Hni Hnd].
  destruct (Ho' i b) as [Hci Hpi]; [by left|]. pose proof Hci as (Hi & Hdi & Hbi).
  assert (b_refcnt (get_buf i s) = f b) as Er by (rewrite <- Hf; by rewrite (pin_cached s b i)).
  pose proof (pin_range s b Hinv) as Hrange. rewrite Hf in Hrange, Hpi.
  destruct (brelse_ok dv (H.*1) c s i) as (s' & Hr & Hbufs & Hdisk & Hinv'); auto; [lia| |].
  { rewrite Er, Hbi, Hd. rewrite <- (view_cached dv s b i) by done. by rewrite Hg. }
  destruct (refcnt_abs s f g d i b (f b - 1)) as [(Hi2 & Hf2 & Hg2 & Hd2) Hc2]; auto; [lia| |].
  { intros E. apply Hcl. lia. }
  rewrite Er in Hbufs. assert (abs s' (upd f b (f b - 1)) g d) as Ha'.
  { split_and!; [done| | |congruence]; intros b'; destruct (abs_ext (upd_buf i (with_refcnt (f b - 1)) s) s' b') as [E1 E2];
      try done; rewrite ?E1, ?E2; auto. }
  exists s', [ChSleeplock (SlBuf i)]. split_and!; [done| |done].
  eapply (opened_upd s s'); [exact Ha|exact Ha'| | |].
  - split; [done|]. intros j b' Hj. apply Ho'. by right.
  - intros b' j. rewrite <- (Hc2 b' j). by apply cached_ext.
  - intros b' Hb'. assert (b' <> b) by (intros ->; done). rewrite upd_ne by done. rewrite <- Hf.
    apply list_elem_of_fmap in Hb' as ([j b''] & -> & Hj). apply (Ho' j). by right.
Qed.

Lemma bpin_abs c s H f g d i b :
  core_wf c -> lock_free LkBcache c -> abs s f g d -> opened dv s H -> (i, b) ∈ H -> f b + 1 < 2 ^ 31 ->
  exists s', bpin i c s = Ok tt c s' /\ opened dv s' H /\ abs s' (upd f b (f b + 1)) g d.
Proof.
  intros Hc Hl Ha Ho Hin Hb. pose proof Ha as (Hinv & Hf & Hg & Hd). pose proof Ho as [Hnd Ho'].
  destruct (Ho' _ _ Hin) as [Hci Hpi]. rewrite Hf in Hpi.
  assert (b_refcnt (get_buf i s) = f b) as Er by (rewrite <- Hf; by rewrite (pin_cached s b i)).
  destruct (refcnt_abs s f g d i b (f b + 1)) as [Ha2 Hc2]; auto; [lia|lia|].
  eexists. split; [apply bpin_ok; auto; lia|]. rewrite Er. split; [|done].
  eapply (opened_upd s); eauto. intros b' Hb'. unfold upd. case_match; [lia|]. rewrite <- Hf.
  apply list_elem_of_fmap in Hb' as ([j b''] & -> & Hj). by apply (Ho' j).
Qed.

Lemma bunpin_abs c s H f g d i b :
  core_wf c -> lock_free LkBcache c -> abs s f g d -> opened dv s H -> (i, b) ∈ H -> 1 < f b ->
  exists s', bunpin i c s = Ok tt c s' /\ opened dv s' H /\ abs s' (upd f b (f b - 1)) g d.
Proof.
  intros Hc Hl Ha Ho Hin Hb. pose proof Ha as (Hinv & Hf & Hg & Hd). pose proof Ho as [Hnd Ho'].
  destruct (Ho' _ _ Hin) as [Hci Hpi].
  pose proof (pin_range s b Hinv) as Hrange. rewrite Hf in Hrange, Hpi.
  assert (b_refcnt (get_buf i s) = f b) as Er by (rewrite <- Hf; by rewrite (pin_cached s b i)).
  destruct (refcnt_abs s f g d i b (f b - 1)) as [Ha2 Hc2]; auto; [lia|lia|].
  eexists. split; [apply bunpin_ok; auto; lia|]. rewrite Er. split; [|done].
  eapply (opened_upd s); eauto. intros b' Hb'. unfold upd. case_match; [lia|]. rewrite <- Hf.
  apply list_elem_of_fmap in Hb' as ([j b''] & -> & Hj). by apply (Ho' j).
Qed.

(** Closing handles in another order than they were opened. *)
Lemma opened_swap s x y H : opened dv s (x :: y :: H) -> opened dv s (y :: x :: H).
Proof.
  intros [Hnd Ho]. split; [|intros i b Hin; apply Ho; set_solver]. cbn in *.
  rewrite !NoDup_cons, !not_elem_of_cons in *. naive_solver.
Qed.

Lemma holds_swap_fst (x y : nat * Z) s H c : opened dv s (x :: y :: H) ->
  holds (x.1 :: y.1 :: H.*1) c = holds (y.1 :: x.1 :: H.*1) c.
Proof.
  intros [Hnd _]. cbn in Hnd. rewrite !NoDup_cons, !not_elem_of_cons in Hnd. apply holds_swap. naive_solver.
Qed.
End abs.

(** ** Initialisation *)

(** The cache before [binit]: zero memory. *)
Definition bcache0 (d : disk) : bcache := mkBcache (repeat buf0 HEAD) ∅ ∅ d.

Lemma get_buf_repeat i s : bc_bufs s = repeat buf0 HEAD -> get_buf i s = buf0.
Proof.
  intros E. unfold get_buf. rewrite E. apply nth_repeat.
Qed.

Lemma ring_init : ring (set_next HEAD HEAD (set_prev HEAD HEAD (bcache0 (mkDisk ∅ [])))) [].
Proof. split_and!; [|constructor|constructor]. split; by vm_compute. Qed.

Lemma ring_disk s s' ord : bc_next s' = bc_next s -> bc_prev s' = bc_prev s -> ring s ord -> ring s' ord.
Proof. intros E1 E2. unfold ring. by rewrite E1, E2. Qed.

(** [binit] links all the buffers; they are unused, so every block reads as on
    disk; and the locks of the cache are free. *)
Lemma binit_ok dv c d :
  core_wf c -> is_Some (c_proc c) -> dv <> 0 -> (forall b, blk_ok (disk_read d b)) ->
  exists c' s', binit c (bcache0 d) = Ok tt c' s' /\ bio_core c' /\ c_proc c' = c_proc c /\
    (forall lk, lk <> LkBcache -> (forall i, lk <> LkSleep (SlBuf i)) -> lock_free lk c -> lock_free lk c') /\
    abs dv s' (fun _ => 0) (disk_read d) d.
Proof.
  intros Hc Hp Hdv Hd. unfold binit, initlock, modifyc. cbv [mbind M_bind modify].
  set (c1 := set_lock LkBcache (mkSpinlock 0 "bcache" None) c).
  set (s1 := set_next HEAD HEAD (set_prev HEAD HEAD (bcache0 d))).
  assert (forall k, (k <= HEAD)%nat -> exists c' s',
    forM (seq 0 k) (fun b => _ ← initsleeplock (SlBuf b) "buffer"; modify (link_head b)) c1 s1 = Ok tt c' s' /\
    core_wf c' /\ c_proc c' = c_proc c /\ lock_free LkBcache c' /\
    (forall lk, lk <> LkBcache -> (forall i, lk <> LkSleep (SlBuf i)) -> lock_free lk c -> lock_free lk c') /\
    (forall i, (i < k)%nat -> slock_free (SlBuf i) c') /\
    ring s' (rev (seq 0 k)) /\ bc_bufs s' = repeat buf0 HEAD /\ bc_disk s' = d) as Hloop.
  { induction k as [|k IH]; intros Hk.
    - exists c1, s1. split_and!; try done.
      + by eexists; apply lookup_insert_eq.
      + intros lk Hne _ [nm Hl]. exists nm. unfold c1, set_lock. simpl. by rewrite lookup_insert_ne.
      + lia.
      + eapply ring_disk; [..|apply ring_init]; done.
    - destruct IH as (c' & s' & Hr & Hwf & Hpr & Hlb & Hlo & Hsl & Hring & Hb & Hdk); [lia|].
      set (c2 := set_slock (SlBuf k) (mkSleeplock 0 "buffer" 0) (set_lock (LkSleep (SlBuf k)) (mkSpinlock 0 "sleep lock" None) c')).
      exists c2, (link_head k s'). rewrite seq_S, forM_app. erewrite bind_ok by exact Hr. split_and!; try done.
      + destruct Hlb as [nm Hl]. exists nm. unfold c2, set_slock, set_lock. simpl. by rewrite lookup_insert_ne.
      + intros lk Hn1 Hn2 Hl. destruct (Hlo lk Hn1 Hn2 Hl) as [nm Hl']. exists nm. unfold c2, set_slock, set_lock. simpl.
        rewrite lookup_insert_ne; [done|]. intros E. by apply (Hn2 k).
      + intros i Hi. unfold slock_free, lock_free, c2, set_slock, set_lock. simpl.
        destruct (decide (i = k)) as [->|Hne]; [rewrite !lookup_insert_eq; eauto|].
        rewrite !lookup_insert_ne by congruence. apply Hsl. lia.
      + rewrite rev_app_distr. cbn [rev app]. apply ring_link; [done| |lia]. rewrite elem_of_rev. intros Hin%elem_of_seq. lia. }
  destruct (Hloop HEAD) as (c' & s' & Hr & Hwf & Hpr & Hlb & Hlo & Hsl & Hring & Hb & Hdk); [done|].
  exists c', s'. split; [done|]. split; [unfold bio_core; rewrite Hpr; by split_and!|]. split; [done|]. split; [done|].
  assert (forall i b, ~ cached dv s' b i) as Hnc.
  { intros i b (_ & Hd' & _). rewrite get_buf_repeat in Hd' by done. done. }
  split_and!.
  - split.
    + rewrite Hb. apply repeat_length.
    + eexists. split; [exact Hring|]. symmetry. apply Permutation_rev.
    + intros i _. right. by rewrite get_buf_repeat.
    + intros i j _ _ Hi. by rewrite get_buf_repeat in Hi.
    + intros i _. rewrite get_buf_repeat by done. simpl. lia.
    + intros i _ Hi. by rewrite get_buf_repeat in Hi.
    + intros i _. rewrite get_buf_repeat by done. split; [done|]. simpl. by repeat constructor.
    + intros b. rewrite Hdk. apply Hd.
  - intros b. by apply pin_uncached.
  - intros b. rewrite view_uncached by done. by rewrite Hdk.
  - done.
Qed.
