(* ===== verification/Log.v ===== *)
(** * The write-ahead log: kernel/log.c

    The state is the in-memory [struct log] and the buffer cache below it.
    The first part translates the code; the second proves commit and recovery
    against the disk: [commit] performs a fixed sequence of block writes, and
    whatever prefix of it reaches the disk before a crash, [recover_from_log]
    brings the disk to the state before or after the whole transaction. *)

From Stdlib Require Import ZArith Lia.
From stdpp Require Import base gmap list numbers strings relations.
From S2P Require Import Prelude Riscv Core Spinlock Sleeplock Bio BioAbs.
Local Open Scope Z_scope.

(** fs.h: the super block. *)
Record superblock : Type := mkSuperblock {
  sb_magic : Z;
  sb_size : Z;            (* Size of file system image (blocks) *)
  sb_nblocks : Z;         (* Number of data blocks *)
  sb_ninodes : Z;         (* Number of inodes. *)
  sb_nlog : Z;            (* Number of log blocks *)
  sb_logstart : Z;        (* Block number of first log block *)
  sb_inodestart : Z;      (* Block number of first inode block *)
  sb_bmapstart : Z        (* Block number of first free map block *)
}.

(** ** State *)

Record log : Type := mkLog {
  lg_start : Z;
  lg_size : Z;
  lg_outstanding : Z;     (* how many FS sys calls are executing. *)
  lg_committing : Z;      (* in commit(), please wait. *)
  lg_dev : Z;
  lh_n : Z;               (* struct logheader: the number of logged blocks *)
  lh_block : list Z       (* and their numbers, LOGSIZE entries *)
}.

Record logst : Type := mkLogst { ls_log : log; ls_bio : bcache }.

Definition log_bio : lens bcache logst :=
  mkLens ls_bio (fun b t => mkLogst (ls_log t) b)
    (fun s t => eq_refl) (fun t => match t with mkLogst _ _ => eq_refl end) (fun s s' t => eq_refl).

Definition bio {A} (m : M bcache A) : M logst A := lift log_bio m.
Definition upd_log (f : log -> log) (s : logst) : logst := mkLogst (f (ls_log s)) (ls_bio s).

Definition set_n (n : Z) (l : log) : log :=
  mkLog (lg_start l) (lg_size l) (lg_outstanding l) (lg_committing l) (lg_dev l) n (lh_block l).
Definition set_block (i : nat) (b : Z) (l : log) : log :=
  mkLog (lg_start l) (lg_size l) (lg_outstanding l) (lg_committing l) (lg_dev l) (lh_n l) (<[i := b]> (lh_block l)).
Definition set_outstanding (n : Z) (l : log) : log :=
  mkLog (lg_start l) (lg_size l) n (lg_committing l) (lg_dev l) (lh_n l) (lh_block l).
Definition set_committing (n : Z) (l : log) : log :=
  mkLog (lg_start l) (lg_size l) (lg_outstanding l) n (lg_dev l) (lh_n l) (lh_block l).

Definition block_at (i : Z) (l : log) : Z := nth (Z.to_nat i) (lh_block l) 0.

(** ** Operations *)

(** Reading and writing the logheader in a buffer's data: [n] at offset 0,
    [block[i]] at offset 4 + 4 i. *)
Definition hdr_n (data : list Z) : Z := s32 (ld32 0 data).
Definition hdr_block (i : Z) (data : list Z) : Z := s32 (ld32 (Z.to_nat (4 + 4 * i)) data).

Definition read_head : M logst unit :=
  l ← gets ls_log;
  b ← bio (bread (lg_dev l) (lg_start l));
  data ← gets (fun s => b_data (get_buf b (ls_bio s)));
  _ ← modify (upd_log (set_n (hdr_n data)));
  _ ← forM (seqZ 0 (hdr_n data)) (fun i =>
        if i <? LOGSIZE then modify (upd_log (set_block (Z.to_nat i) (hdr_block i data)))
        else fault "log.lh.block");
  bio (brelse b).

(** The header bytes after [write_head]'s stores. *)
Definition put_head (l : log) (data : list Z) : list Z :=
  fold_left (fun d i => st32 (Z.to_nat (4 + 4 * i)) (block_at i l) d) (seqZ 0 (lh_n l)) (st32 0 (lh_n l) data).

Definition write_head : M logst unit :=
  l ← gets ls_log;
  b ← bio (bread (lg_dev l) (lg_start l));
  _ ← bio (modify (upd_buf b (fun x => with_data (put_head l (b_data x)) x)));
  _ ← bio (bwrite b);
  bio (brelse b).

Definition install_trans (recovering : bool) : M logst unit :=
  l ← gets ls_log;
  forM (seqZ 0 (lh_n l)) (fun tail =>
    lbuf ← bio (bread (lg_dev l) (lg_start l + tail + 1));
    dbuf ← bio (bread (lg_dev l) (u32 (block_at tail l)));
    _ ← bio (modify (fun s => upd_buf dbuf (with_data (b_data (get_buf lbuf s))) s));
    _ ← bio (bwrite dbuf);
    _ ← when (negb recovering) (bio (bunpin dbuf));
    _ ← bio (brelse lbuf);
    bio (brelse dbuf)).

Definition recover_from_log : M logst unit :=
  _ ← read_head;
  _ ← install_trans true;
  _ ← modify (upd_log (set_n 0));
  write_head.

(** sizeof(struct logheader) is 4 + 4 * LOGSIZE. *)
Definition initlog (dev : Z) (sb : superblock) : M logst unit :=
  if 4 + 4 * LOGSIZE >=? BSIZE then panic "initlog: too big logheader" else
  _ ← initlock LkLog "log";
  _ ← modify (upd_log (fun l => mkLog (sb_logstart sb) (sb_nlog sb) (lg_outstanding l) (lg_committing l) dev (lh_n l) (lh_block l)));
  recover_from_log.

(** One turn of the loop of [begin_op]; a sleeping caller starts over with the
    lock held again. *)
Definition begin_op : M logst unit :=
  _ ← acquire LkLog;
  l ← gets ls_log;
  if negb (lg_committing l =? 0) then sleep ChLog LkLog
  else if lh_n l + (lg_outstanding l + 1) * MAXOPBLOCKS >? LOGSIZE then sleep ChLog LkLog
  else
    _ ← modify (upd_log (fun l => set_outstanding (lg_outstanding l + 1) l));
    release LkLog.

Definition write_log : M logst unit :=
  l ← gets ls_log;
  forM (seqZ 0 (lh_n l)) (fun tail =>
    to ← bio (bread (lg_dev l) (lg_start l + tail + 1));
    from ← bio (bread (lg_dev l) (u32 (block_at tail l)));
    _ ← bio (modify (fun s => upd_buf to (with_data (b_data (get_buf from s))) s));
    _ ← bio (bwrite to);
    _ ← bio (brelse from);
    bio (brelse to)).

Definition commit : M logst unit :=
  l ← gets ls_log;
  when (lh_n l >? 0)
    (_ ← write_log;
     _ ← write_head;
     _ ← install_trans false;
     _ ← modify (upd_log (set_n 0));
     write_head).

Definition end_op : M logst unit :=
  _ ← acquire LkLog;
  _ ← modify (upd_log (fun l => set_outstanding (lg_outstanding l - 1) l));
  l ← gets ls_log;
  if negb (lg_committing l =? 0) then panic "log.committing" else
  do_commit ← (if lg_outstanding l =? 0
               then _ ← modify (upd_log (set_committing 1)); mret true
               else _ ← wakeup ChLog; mret false);
  _ ← release LkLog;
  when do_commit
    (_ ← commit;
     _ ← acquire LkLog;
     _ ← modify (upd_log (set_committing 0));
     _ ← wakeup ChLog;
     release LkLog).

(** The search loop of [log_write]: the index of the block, or [n]. *)
Fixpoint log_find (bs : list Z) (n : nat) (b : Z) (i : nat) : nat :=
  match n with
  | O => i
  | S n => match bs with
           | [] => i
           | x :: bs => if u32 x =? b then i else log_find bs n b (S i)
           end
  end.

Definition log_write (b : nat) : M logst unit :=
  _ ← acquire LkLog;
  l ← gets ls_log;
  if (lh_n l >=? LOGSIZE) || (lh_n l >=? lg_size l - 1) then panic "too big a transaction" else
  if lg_outstanding l <? 1 then panic "log_write outside of trans" else
  blockno ← bio (gets (fun s => b_blockno (get_buf b s)));
  let i := log_find (lh_block l) (Z.to_nat (lh_n l)) blockno 0 in
  _ ← modify (upd_log (set_block i (s32 blockno)));
  _ ← when (Z.of_nat i =? lh_n l)
        (_ ← bio (bpin b);
         modify (upd_log (fun l => set_n (lh_n l + 1) l)));
  release LkLog.

(** ** The header block *)

Lemma seqZ_snoc n : 0 <= n -> seqZ 0 (n + 1) = seqZ 0 n ++ [n].
Proof. intros H. rewrite seqZ_app by lia. done. Qed.

Lemma put_blocks_ok (f : Z -> Z) d0 (k : nat) :
  (k <= 30)%nat -> blk_ok d0 ->
  let d := fold_left (fun d i => st32 (Z.to_nat (4 + 4 * i)) (f i) d) (seqZ 0 (Z.of_nat k)) d0 in
  blk_ok d /\ ld32 0 d = ld32 0 d0 /\
  forall i, 0 <= i < Z.of_nat k -> ld32 (Z.to_nat (4 + 4 * i)) d = u32 (f i).
Proof.
  intros Hk Hd0. induction k as [|k IH]; [split_and!; [done|done|lia]|].
  destruct IH as ([Hl Hb] & Hh & Hi); [lia|]. cbv zeta in *.
  rewrite Nat2Z.inj_succ, <- Z.add_1_r, seqZ_snoc, fold_left_app by lia. cbn [fold_left].
  set (d := fold_left _ (seqZ 0 (Z.of_nat k)) d0) in *. split_and!.
  - split; [rewrite length_st32; lia|by apply st32_byte].
  - rewrite ld32_st32_ne by lia. done.
  - intros i Hik. destruct (decide (i = Z.of_nat k)) as [->|Hne].
    + apply ld32_st32. lia.
    + rewrite ld32_st32_ne by lia. apply Hi. lia.
Qed.

Lemma put_head_ok l data :
  0 <= lh_n l <= LOGSIZE -> blk_ok data ->
  blk_ok (put_head l data) /\ hdr_n (put_head l data) = lh_n l /\
  forall i, 0 <= i < lh_n l -> hdr_block i (put_head l data) = s32 (u32 (block_at i l)).
Proof.
  unfold LOGSIZE, MAXOPBLOCKS. intros Hn [Hlen Hby]. unfold put_head, hdr_n, hdr_block.
  destruct (put_blocks_ok (fun i => block_at i l) (st32 0 (lh_n l) data) (Z.to_nat (lh_n l))) as (H1 & H2 & H3);
    [lia|split; [rewrite length_st32; lia|by apply st32_byte]|].
  rewrite Z2Nat.id in * by lia. split_and!; [done| |].
  - rewrite H2, ld32_st32, u32_small, s32_small by lia. done.
  - intros i Hi. by rewrite H3.
Qed.

(** ** Sequences of writes *)

Definition writes (d : disk) (ws : list (Z * list Z)) : disk :=
  fold_left (fun d w => disk_write d w.1 w.2) ws d.

Lemma writes_app d ws ws' : writes d (ws ++ ws') = writes (writes d ws) ws'.
Proof. apply fold_left_app. Qed.

Lemma writes_cons d b v ws : writes d ((b, v) :: ws) = writes (disk_write d b v) ws.
Proof. done. Qed.

Lemma writes_trace d ws : dk_trace (writes d ws) = dk_trace d ++ ws.
Proof.
  revert d. induction ws as [|w ws IH]; intros d; simpl; [by rewrite app_nil_r|].
  rewrite IH. simpl. rewrite <- app_assoc. by destruct w.
Qed.

Lemma writes_other d ws b : b ∉ ws.*1 -> disk_read (writes d ws) b = disk_read d b.
Proof.
  revert d. induction ws as [|[x v] ws IH]; intros d Hb; [done|]. cbn in Hb. apply not_elem_of_cons in Hb as [Hx Hb].
  rewrite writes_cons, IH by done. rewrite disk_read_write. by rewrite decide_False.
Qed.

(** Distinct blocks: each keeps what was written to it. *)
Lemma writes_in d ws b v : NoDup (ws.*1) -> (b, v) ∈ ws -> disk_read (writes d ws) b = v.
Proof.
  revert d. induction ws as [|[x w] ws IH]; intros d Hnd Hin; [by apply not_elem_of_nil in Hin|]. cbn in Hnd.
  rewrite writes_cons. apply NoDup_cons in Hnd as [Hx Hnd]. apply elem_of_cons in Hin as [[= -> ->]|Hin].
  - rewrite writes_other by done. rewrite disk_read_write. by rewrite decide_True.
  - by apply IH.
Qed.

Definition gwrites (g : Z -> list Z) (ws : list (Z * list Z)) : Z -> list Z :=
  fold_left (fun g w => upd g w.1 w.2) ws g.
(** The pins of the blocks of [bs] dropped to zero. *)
Definition unpins (f : Z -> Z) (bs : list Z) : Z -> Z := fold_left (fun f b => upd f b 0) bs f.

Lemma gwrites_other g ws b : b ∉ ws.*1 -> gwrites g ws b = g b.
Proof.
  revert g. induction ws as [|[x v] ws IH]; intros g Hb; [done|]. cbn in Hb. apply not_elem_of_cons in Hb as [Hx Hb].
  cbn [gwrites fold_left fst snd]. unfold gwrites in IH. rewrite IH by done. by rewrite upd_ne.
Qed.

Lemma gwrites_in g ws b v : NoDup (ws.*1) -> (b, v) ∈ ws -> gwrites g ws b = v.
Proof.
  revert g. induction ws as [|[x w] ws IH]; intros g Hnd Hin; [by apply not_elem_of_nil in Hin|].
  cbn in Hnd. apply NoDup_cons in Hnd as [Hx Hnd]. apply elem_of_cons in Hin as [[= -> ->]|Hin].
  - change (gwrites (upd g x w) ws x = w). rewrite gwrites_other by done. apply upd_eq.
  - by apply (IH (upd g x w)).
Qed.

Lemma unpins_spec f bs b : unpins f bs b = if decide (b ∈ bs) then 0 else f b.
Proof.
  revert f. induction bs as [|x bs IH]; intros f; [done|].
  change (unpins f (x :: bs) b) with (unpins (upd f x 0) bs b). rewrite IH. unfold upd.
  destruct (Z.eqb_spec b x) as [->|Hne]; repeat case_decide; try done; set_solver.
Qed.

(** ** The writes of a commit *)

(** The home block of the log's [t]-th entry. *)
Definition home (l : log) (t : Z) : Z := u32 (block_at t l).
Definition homes (l : log) : list Z := home l <$> seqZ 0 (lh_n l).

Definition log_writes (l : log) (g : Z -> list Z) (n : Z) : list (Z * list Z) :=
  (fun t => (lg_start l + t + 1, g (home l t))) <$> seqZ 0 n.
Definition home_writes (l : log) (g : Z -> list Z) (n : Z) : list (Z * list Z) :=
  (fun t => (home l t, g (lg_start l + t + 1))) <$> seqZ 0 n.

(** The log and the file system blocks do not overlap. *)
Definition layout (l : log) : Prop :=
  0 <= lh_n l <= LOGSIZE /\ lh_n l < lg_size l /\
  forall t, 0 <= t < lh_n l -> ~ lg_start l <= home l t < lg_start l + lg_size l.

Section proofs.
Context (dv : Z).
Implicit Types (s : logst) (c : core) (d : disk) (f : Z -> Z) (g : Z -> list Z).

Lemma bio_ok {A} (m : M bcache A) c s a c' b' :
  m c (ls_bio s) = Ok a c' b' -> bio m c s = Ok a c' (mkLogst (ls_log s) b').
Proof. intros H. unfold bio. by rewrite (lift_ok log_bio m c s a c' b'). Qed.

Lemma abs_eq (s : bcache) f g f' g' d :
  abs dv s f g d -> (forall b, f b = f' b) -> (forall b, g b = g' b) -> abs dv s f' g' d.
Proof. intros (H1 & H2 & H3 & H4) Hf Hg. split_and!; auto; intros b; by rewrite ?H2, ?H3. Qed.

Lemma opened_nil (s : bcache) : opened dv s [].
Proof. split; [constructor|]. by intros i b ?%not_elem_of_nil. Qed.

(** Room for [k] more handles. *)
Definition room_for (f : Z -> Z) (k : nat) : Prop :=
  exists L, (forall b, 0 < f b -> b ∈ L) /\ (length L + k <= HEAD)%nat.

Lemma room_upd f b x k : room_for f (S k) -> room_for (upd f b x) k.
Proof.
  intros (L & HL & Hk). exists (b :: L). split; [|simpl; lia]. intros b'. unfold upd.
  destruct (Z.eqb_spec b' b) as [->|]; [by left|]. right. auto.
Qed.

(** Reading two different blocks. *)
Lemma bread2 c s f g d b1 b2 :
  bio_core c -> abs dv (ls_bio s) f g d -> b1 <> b2 -> 0 <= f b1 < 2 ^ 30 -> 0 <= f b2 < 2 ^ 30 ->
  room_for f 1 -> (0 < f b2 \/ room_for f 2) ->
  exists i j s1 s2, bio (bread dv b1) c s = Ok i (holds [i] c) s1 /\
    bio (bread dv b2) (holds [i] c) s1 = Ok j (holds [j; i] c) s2 /\ i <> j /\
    ls_log s2 = ls_log s /\ opened dv (ls_bio s2) [(j, b2); (i, b1)] /\
    abs dv (ls_bio s2) (upd (upd f b1 (f b1 + 1)) b2 (f b2 + 1)) g d.
Proof.
  intros Hc Ha Hne Hf1 Hf2 Hr1 Hr2.
  destruct (bread_abs dv [] c (ls_bio s) f g d b1) as (i & t1 & Hb1 & Ho1 & Ha1); auto.
  { apply opened_nil. } { apply not_elem_of_nil. } { lia. }
  { right. destruct Hr1 as (L & HL & Hk). exists L. split; [done|lia]. }
  destruct (bread_abs dv [(i, b1)] c t1 (upd f b1 (f b1 + 1)) g d b2) as (j & t2 & Hb2 & Ho2 & Ha2); auto.
  { cbn. rewrite list_elem_of_singleton. congruence. } { rewrite upd_ne by congruence. lia. }
  { rewrite upd_ne by congruence. destruct Hr2 as [?|Hr2]; [by left|right].
    destruct (room_upd f b1 (f b1 + 1) 1 Hr2) as (L & HL & Hk). exists L. split; [done|lia]. }
  exists i, j, (mkLogst (ls_log s) t1), (mkLogst (ls_log s) t2). split_and!.
  - by apply bio_ok.
  - by apply (bio_ok _ _ (mkLogst (ls_log s) t1)).
  - destruct Ho2 as [Hnd _]. cbn in Hnd. apply NoDup_cons in Hnd as [Hnd _]. rewrite list_elem_of_singleton in Hnd. congruence.
  - done.
  - done.
  - eapply abs_eq; [exact Ha2| |done]. intros b. unfold upd. by repeat case_match; rewrite ?Z.eqb_eq in *; subst.
Qed.

Lemma bio_core_sub c i : bio_core c -> core_wf (holds i c) /\ lock_free LkBcache (holds i c).
Proof. intros Hc. destruct (holds_core i c Hc) as (? & ? & _). done. Qed.

(** One iteration of [write_log]: the log block gets the cached contents. *)
Lemma write_log_iter c s f g d lb b :
  bio_core c -> abs dv (ls_bio s) f g d -> lb <> b -> f lb = 0 -> 0 < f b < 2 ^ 30 -> room_for f 1 ->
  exists s' tr,
    (to ← bio (bread dv lb);
     from ← bio (bread dv b);
     _ ← bio (modify (fun t => upd_buf to (with_data (b_data (get_buf from t))) t));
     _ ← bio (bwrite to);
     _ ← bio (brelse from);
     bio (brelse to)) c s = Ok tt (woke tr c) s' /\
    ls_log s' = ls_log s /\ abs dv (ls_bio s') f (upd g lb (g b)) (disk_write d lb (g b)).
Proof.
  intros Hc Ha Hne Hlb Hb Hr.
  destruct (bread2 c s f g d lb b) as (i & j & s1 & s2 & Hb1 & Hb2 & Hij & Hl2 & Ho2 & Ha2); auto; try lia.
  erewrite bind_ok by exact Hb1. erewrite bind_ok by exact Hb2.
  destruct (handle_data dv (ls_bio s2) _ _ _ _ j b Ha2 Ho2) as (Hdj & _ & _); [by left|].
  destruct (store_abs dv (ls_bio s2) _ _ _ _ i lb (g b) Ha2 Ho2) as [Ho3 Ha3].
  { set_solver. } { destruct Ha as (Hinv & _ & Hg & _). rewrite <- Hg. by apply view_ok. }
  erewrite bind_ok by (apply bio_ok; unfold modify; rewrite Hdj; reflexivity).
  set (t3 := upd_buf i (with_data (g b)) (ls_bio s2)) in *.
  apply opened_swap in Ho3.
  destruct (bwrite_abs dv c t3 [(j, b)] _ _ _ i lb Hc Ha3 Ho3) as (t4 & Hw & Ho4 & Ha4).
  rewrite upd_eq in Ha4. pose proof (holds_swap i j [] c Hij) as Hsw. rewrite <- Hsw.
  erewrite bind_ok by (apply (bio_ok _ _ (mkLogst (ls_log s2) t3)); exact Hw).
  apply opened_swap in Ho4. cbn [fmap list_fmap fst]. rewrite Hsw.
  destruct (brelse_abs dv c t4 [(i, lb)] _ _ _ j b Hc Ha4 Ho4) as (t5 & tr5 & Hr5 & Ho5 & Ha5).
  { rewrite upd_eq. lia. }
  erewrite bind_ok by (apply (bio_ok _ _ (mkLogst (ls_log s2) t4)); exact Hr5).
  cbn [fmap list_fmap fst]. rewrite <- (holds_woke _ tr5).
  destruct (brelse_abs dv (woke tr5 c) t5 [] _ _ _ i lb Hc Ha5 Ho5) as (t6 & tr6 & Hr6 & Ho6 & Ha6).
  { intros _. rewrite upd_eq, disk_read_write. by rewrite decide_True. }
  exists (mkLogst (ls_log s2) t6), (tr5 ++ tr6). split_and!.
  - rewrite <- woke_woke. by apply (bio_ok _ _ (mkLogst (ls_log s2) t5)).
  - done.
  - eapply abs_eq; [exact Ha6| |done]. intros x. unfold upd.
    repeat (case_match; rewrite ?Z.eqb_eq, ?Z.eqb_neq in *; subst); try done; lia.
Qed.

(** One iteration of [install_trans]: the home block gets the log block, on
    disk as well; after a commit it is also unpinned. *)
Lemma install_iter c s f g d lb b (recovering : bool) :
  bio_core c -> abs dv (ls_bio s) f g d -> lb <> b -> f lb = 0 -> f b = (if recovering then 0 else 1) ->
  room_for f (if recovering then 2 else 1) ->
  exists s' tr,
    (lbuf ← bio (bread dv lb);
     dbuf ← bio (bread dv b);
     _ ← bio (modify (fun t => upd_buf dbuf (with_data (b_data (get_buf lbuf t))) t));
     _ ← bio (bwrite dbuf);
     _ ← when (negb recovering) (bio (bunpin dbuf));
     _ ← bio (brelse lbuf);
     bio (brelse dbuf)) c s = Ok tt (woke tr c) s' /\
    ls_log s' = ls_log s /\ abs dv (ls_bio s') (upd f b 0) (upd g b (g lb)) (disk_write d b (g lb)).
Proof.
  intros Hc Ha Hne Hlb Hb Hr.
  assert (g lb = disk_read d lb) as Hgl.
  { destruct Ha as (Hinv & Hf & Hg & Hd). rewrite <- Hg, <- Hd. apply view_unpinned; [done|]. by rewrite Hf. }
  destruct (bread2 c s f g d lb b) as (i & j & s1 & s2 & Hb1 & Hb2 & Hij & Hl2 & Ho2 & Ha2); auto;
    try (destruct recovering; lia).
  { destruct Hr as (L & HL & Hk). exists L. split; [done|]. destruct recovering; lia. }
  { destruct recovering; [by right|left; lia]. }
  erewrite bind_ok by exact Hb1. erewrite bind_ok by exact Hb2.
  destruct (handle_data dv (ls_bio s2) _ _ _ _ i lb Ha2 Ho2) as (Hdi & _ & _); [set_solver|].
  destruct (store_abs dv (ls_bio s2) _ _ _ _ j b (g lb) Ha2 Ho2) as [Ho3 Ha3].
  { by left. } { destruct Ha as (Hinv & _ & Hg & _). rewrite <- Hg. by apply view_ok. }
  erewrite bind_ok by (apply bio_ok; unfold modify; rewrite Hdi; reflexivity).
  set (t3 := upd_buf j (with_data (g lb)) (ls_bio s2)) in *.
  destruct (bwrite_abs dv c t3 [(i, lb)] _ _ _ j b Hc Ha3 Ho3) as (t4 & Hw & Ho4 & Ha4).
  rewrite upd_eq in Ha4. erewrite bind_ok by (apply (bio_ok _ _ (mkLogst (ls_log s2) t3)); exact Hw).
  cbn [fmap list_fmap fst ls_log ls_bio].
  assert (exists t5, when (negb recovering) (bio (bunpin j)) (holds [j; i] c) (mkLogst (ls_log s2) t4) =
            Ok tt (holds [j; i] c) (mkLogst (ls_log s2) t5) /\ opened dv t5 [(j, b); (i, lb)] /\
            abs dv t5 (upd (upd f lb 1) b 1) (upd g b (g lb)) (disk_write d b (g lb))) as (t5 & Hu & Ho5 & Ha5).
  { destruct recovering; cbn [negb when].
    - exists t4. split_and!; [done|done|]. eapply abs_eq; [exact Ha4| |done]. intros x. rewrite Hlb, Hb. done.
    - destruct (bio_core_sub c [j; i] Hc) as [Hwf Hl].
      destruct (bunpin_abs dv (holds [j; i] c) t4 _ _ _ _ j b Hwf Hl Ha4 Ho4) as (t5 & Hu & Ho5 & Ha5);
        [by left|rewrite upd_eq; lia|].
      exists t5. split_and!; [by apply (bio_ok _ _ (mkLogst (ls_log s2) t4))|done|].
      eapply abs_eq; [exact Ha5| |done]. intros x. unfold upd. rewrite Hlb, Hb.
      by repeat (case_match; rewrite ?Z.eqb_eq, ?Z.eqb_neq in *; subst). }
  erewrite bind_ok by exact Hu. apply opened_swap in Ho5.
  pose proof (holds_swap i j [] c Hij) as Hsw. rewrite <- Hsw.
  destruct (brelse_abs dv c t5 [(j, b)] _ _ _ i lb Hc Ha5 Ho5) as (t6 & tr6 & Hr6 & Ho6 & Ha6).
  { intros _. rewrite upd_ne by done. rewrite disk_read_write, decide_False by congruence. done. }
  erewrite bind_ok by (apply (bio_ok _ _ (mkLogst (ls_log s2) t5)); exact Hr6).
  cbn [fmap list_fmap fst ls_log ls_bio]. rewrite <- (holds_woke _ tr6).
  destruct (brelse_abs dv (woke tr6 c) t6 [] _ _ _ j b Hc Ha6 Ho6) as (t7 & tr7 & Hr7 & Ho7 & Ha7).
  { intros _. rewrite upd_eq, disk_read_write. by rewrite decide_True. }
  exists (mkLogst (ls_log s2) t7), (tr6 ++ tr7). split_and!.
  - rewrite <- woke_woke. by apply (bio_ok _ _ (mkLogst (ls_log s2) t6)).
  - done.
  - eapply abs_eq; [exact Ha7| |done]. intros x. unfold upd.
    repeat (case_match; rewrite ?Z.eqb_eq, ?Z.eqb_neq in *; subst); try done; lia.
Qed.

(** [write_head]: one write of the header block. *)
Lemma write_head_ok c s f g d :
  bio_core c -> abs dv (ls_bio s) f g d -> lg_dev (ls_log s) = dv -> 0 <= lh_n (ls_log s) <= LOGSIZE ->
  let st := lg_start (ls_log s) in let h := put_head (ls_log s) (g st) in
  f st = 0 -> room_for f 1 ->
  exists s' tr, write_head c s = Ok tt (woke tr c) s' /\ ls_log s' = ls_log s /\
    abs dv (ls_bio s') f (upd g st h) (disk_write d st h).
Proof.
  intros Hc Ha Hdev Hn st h Hst Hr. unfold write_head. rewrite bind_gets, Hdev. fold st.
  destruct (bread_abs dv [] c (ls_bio s) f g d st) as (i & t1 & Hb1 & Ho1 & Ha1); auto.
  { apply opened_nil. } { apply not_elem_of_nil. } { lia. }
  { right. destruct Hr as (L & HL & Hk). exists L. split; [done|lia]. }
  erewrite bind_ok by (apply bio_ok; exact Hb1). cbn [fmap list_fmap].
  destruct (handle_data dv t1 _ _ _ _ i st Ha1 Ho1) as (Hdi & _ & _); [by left|].
  assert (blk_ok h) as Hh.
  { apply put_head_ok; [done|]. destruct Ha as (Hinv & _ & Hg & _). rewrite <- Hg. by apply view_ok. }
  destruct (store_abs dv t1 _ _ _ _ i st h Ha1 Ho1) as [Ho2 Ha2]; [by left|done|].
  assert (upd_buf i (fun x => with_data (put_head (ls_log s) (b_data x)) x) t1 = upd_buf i (with_data h) t1) as E.
  { unfold upd_buf. by rewrite Hdi. }
  erewrite bind_ok by (apply (bio_ok _ _ (mkLogst (ls_log s) t1)); unfold modify; cbn [ls_bio]; rewrite E; reflexivity).
  destruct (bwrite_abs dv c _ [] _ _ _ i st Hc Ha2 Ho2) as (t3 & Hw & Ho3 & Ha3). rewrite upd_eq in Ha3.
  erewrite bind_ok by (apply (bio_ok _ _ (mkLogst (ls_log s) (upd_buf i (with_data h) t1))); exact Hw).
  destruct (brelse_abs dv c t3 [] _ _ _ i st Hc Ha3 Ho3) as (t4 & tr & Hr4 & Ho4 & Ha4).
  { intros _. rewrite upd_eq, disk_read_write. by rewrite decide_True. }
  exists (mkLogst (ls_log s) t4), tr. split_and!; [by apply (bio_ok _ _ (mkLogst (ls_log s) t3))|done|].
  eapply abs_eq; [exact Ha4| |done]. intros x. unfold upd.
  repeat (case_match; rewrite ?Z.eqb_eq, ?Z.eqb_neq in *; subst); try done; lia.
Qed.

Lemma log_writes_snoc l g n : 0 <= n ->
  log_writes l g (n + 1) = log_writes l g n ++ [(lg_start l + n + 1, g (home l n))].
Proof. intros H. unfold log_writes. by rewrite seqZ_snoc, fmap_app. Qed.

Lemma home_writes_snoc l g n : 0 <= n ->
  home_writes l g (n + 1) = home_writes l g n ++ [(home l n, g (lg_start l + n + 1))].
Proof. intros H. unfold home_writes. by rewrite seqZ_snoc, fmap_app. Qed.

Lemma log_writes_fst l g n x : x ∈ (log_writes l g n).*1 -> lg_start l < x <= lg_start l + n.
Proof.
  unfold log_writes. rewrite <- list_fmap_compose. intros (t & -> & Ht)%list_elem_of_fmap. apply elem_of_seqZ in Ht. simpl. lia.
Qed.

Lemma home_writes_fst l g n x : x ∈ (home_writes l g n).*1 -> exists t, 0 <= t < n /\ x = home l t.
Proof.
  unfold home_writes. rewrite <- list_fmap_compose. intros (t & -> & Ht)%list_elem_of_fmap. apply elem_of_seqZ in Ht.
  exists t. split; [lia|done].
Qed.

Lemma gwrites_snoc g ws b v : gwrites g (ws ++ [(b, v)]) = upd (gwrites g ws) b v.
Proof. unfold gwrites. by rewrite fold_left_app. Qed.

Lemma writes_snoc d ws b v : writes d (ws ++ [(b, v)]) = disk_write (writes d ws) b v.
Proof. by rewrite writes_app. Qed.

(** [write_log] writes the cached blocks to the log, in order. *)
Lemma write_log_ok c s f g d :
  let l := ls_log s in
  bio_core c -> abs dv (ls_bio s) f g d -> lg_dev l = dv -> layout l ->
  (forall t, 0 <= t < lh_n l -> 0 < f (home l t) < 2 ^ 30) ->
  (forall t, 0 <= t < lh_n l -> f (lg_start l + t + 1) = 0) -> room_for f 1 ->
  exists s' tr, write_log c s = Ok tt (woke tr c) s' /\ ls_log s' = l /\
    abs dv (ls_bio s') f (gwrites g (log_writes l g (lh_n l))) (writes d (log_writes l g (lh_n l))).
Proof.
  intros l Hc Ha Hdev (Hn & Hns & Hlay) Hpin Hfree Hroom. unfold write_log. rewrite bind_gets. fold l. rewrite Hdev.
  destruct (forM_seqZ (fun i c' s' => exists tr, c' = woke tr c /\ ls_log s' = l /\
     abs dv (ls_bio s') f (gwrites g (log_writes l g i)) (writes d (log_writes l g i)))
     (fun tail => to ← bio (bread dv (lg_start l + tail + 1));
        from ← bio (bread dv (u32 (block_at tail l)));
        _ ← bio (modify (fun t => upd_buf to (with_data (b_data (get_buf from t))) t));
        _ ← bio (bwrite to); _ ← bio (brelse from); bio (brelse to)) (lh_n l) c s)
    as (c' & s' & Hr & tr & -> & Hl & Ha'); [lia|exists []; by rewrite woke_nil| |exists s', tr; done].
  intros i c1 s1 Hi (tr & -> & Hl1 & Ha1).
  destruct (write_log_iter (woke tr c) s1 f _ _ (lg_start l + i + 1) (home l i) Hc Ha1)
    as (s2 & tr2 & Hr2 & Hl2 & Ha2); auto.
  { specialize (Hlay i Hi). lia. }
  exists (woke tr2 (woke tr c)), s2. split; [exact Hr2|]. exists (tr ++ tr2). split_and!; [apply woke_woke|congruence|].
  rewrite log_writes_snoc, gwrites_snoc, writes_snoc by lia.
  assert (gwrites g (log_writes l g i) (home l i) = g (home l i)) as E.
  { apply gwrites_other. intros Hin%log_writes_fst. specialize (Hlay i Hi). lia. }
  by rewrite E in Ha2.
Qed.

(** [install_trans] copies the log to the home blocks, in order. *)
Lemma install_trans_ok c s f g d (recovering : bool) :
  let l := ls_log s in
  bio_core c -> abs dv (ls_bio s) f g d -> lg_dev l = dv -> layout l ->
  (if recovering then forall b, f b = 0 else NoDup (homes l) /\ forall t, 0 <= t < lh_n l -> f (home l t) = 1) ->
  (forall t, 0 <= t < lh_n l -> f (lg_start l + t + 1) = 0) -> room_for f (if recovering then 2 else 1) ->
  exists s' tr, install_trans recovering c s = Ok tt (woke tr c) s' /\ ls_log s' = l /\
    abs dv (ls_bio s') (unpins f (homes l)) (gwrites g (home_writes l g (lh_n l)))
      (writes d (home_writes l g (lh_n l))).
Proof.
  intros l Hc Ha Hdev (Hn & Hns & Hlay) Hpin Hfree Hroom. unfold install_trans. rewrite bind_gets. fold l. rewrite Hdev.
  destruct (forM_seqZ (fun i c' s' => exists tr, c' = woke tr c /\ ls_log s' = l /\
     abs dv (ls_bio s') (unpins f (home l <$> seqZ 0 i)) (gwrites g (home_writes l g i)) (writes d (home_writes l g i)))
     (fun tail => lbuf ← bio (bread dv (lg_start l + tail + 1));
        dbuf ← bio (bread dv (u32 (block_at tail l)));
        _ ← bio (modify (fun t => upd_buf dbuf (with_data (b_data (get_buf lbuf t))) t));
        _ ← bio (bwrite dbuf); _ ← when (negb recovering) (bio (bunpin dbuf));
        _ ← bio (brelse lbuf); bio (brelse dbuf)) (lh_n l) c s)
    as (c' & s' & Hr & tr & -> & Hl & Ha'); [lia|exists []; by rewrite woke_nil| |exists s', tr; done].
  intros i c1 s1 Hi (tr & -> & Hl1 & Ha1).
  assert (room_for (unpins f (home l <$> seqZ 0 i)) (if recovering then 2 else 1)) as Hroom'.
  { destruct Hroom as (L & HL & Hk). exists L. split; [|done]. intros b. rewrite unpins_spec. case_decide; [lia|auto]. }
  destruct (install_iter (woke tr c) s1 _ _ _ (lg_start l + i + 1) (home l i) recovering Hc Ha1)
    as (s2 & tr2 & Hr2 & Hl2 & Ha2); auto.
  { specialize (Hlay i Hi). lia. }
  { rewrite unpins_spec. case_decide; auto. }
  { rewrite unpins_spec. destruct recovering; [case_decide; auto|]. destruct Hpin as [Hnd Hpin].
    rewrite decide_False; [by apply Hpin|]. intros (j & Ej & Hj)%list_elem_of_fmap. apply elem_of_seqZ in Hj.
    unfold homes in Hnd. replace (lh_n l) with (i + (lh_n l - i)) in Hnd by lia. rewrite seqZ_app, fmap_app in Hnd by lia.
    apply NoDup_app in Hnd as (_ & Hd & _). apply (Hd (home l i)).
    - rewrite Ej. apply list_elem_of_fmap_2. apply elem_of_seqZ. lia.
    - apply list_elem_of_fmap_2. apply elem_of_seqZ. lia. }
  exists (woke tr2 (woke tr c)), s2. split; [exact Hr2|]. exists (tr ++ tr2). split_and!; [apply woke_woke|congruence|].
  rewrite home_writes_snoc, gwrites_snoc, writes_snoc, seqZ_snoc, fmap_app by lia.
  assert (gwrites g (home_writes l g i) (lg_start l + i + 1) = g (lg_start l + i + 1)) as E.
  { apply gwrites_other. intros (t & Ht & E)%home_writes_fst. specialize (Hlay t). lia. }
  rewrite E in Ha2. eapply abs_eq; [exact Ha2| |done]. intros b. unfold unpins. by rewrite fold_left_app.
Qed.

(** The header blocks a commit writes. *)
Definition head_of (l : log) (g : Z -> list Z) : list Z := put_head l (g (lg_start l)).

(** All the block writes of a commit, in order. *)
Definition commit_writes (l : log) (g : Z -> list Z) : list (Z * list Z) :=
  log_writes l g (lh_n l) ++ [(lg_start l, head_of l g)] ++
  ((fun t => (home l t, g (home l t))) <$> seqZ 0 (lh_n l)) ++
  [(lg_start l, put_head (set_n 0 l) (head_of l g))].

(** A transaction ready to commit: its blocks are pinned once each, nothing
    else is in use, and no log block is cached with changes. *)
Record ready (s : logst) (f : Z -> Z) (g : Z -> list Z) (d : disk) : Prop := mkReady {
  rd_abs : abs dv (ls_bio s) f g d;
  rd_dev : lg_dev (ls_log s) = dv;
  rd_layout : layout (ls_log s);
  rd_nodup : NoDup (homes (ls_log s));
  rd_pin : forall b, f b = if decide (b ∈ homes (ls_log s)) then 1 else 0;
  rd_len : (length (homes (ls_log s)) < HEAD)%nat
}.

Lemma log_writes_nodup l g n : NoDup ((log_writes l g n).*1).
Proof.
  unfold log_writes. rewrite <- list_fmap_compose. apply NoDup_fmap_2_strong; [|apply NoDup_seqZ].
  intros x y _ _ E. simpl in E. lia.
Qed.

Lemma home_in l t : 0 <= t < lh_n l -> home l t ∈ homes l.
Proof. intros H. apply list_elem_of_fmap_2. apply elem_of_seqZ. lia. Qed.

Lemma homes_not_log l b : layout l -> lg_start l <= b < lg_start l + lg_size l -> b ∉ homes l.
Proof.
  intros (_ & _ & Hl) Hb (t & -> & Ht)%list_elem_of_fmap. apply elem_of_seqZ in Ht. apply (Hl t); lia.
Qed.

Lemma commit_ok c s f g d :
  bio_core c -> ready s f g d -> 0 < lh_n (ls_log s) ->
  exists s' tr g', commit c s = Ok tt (woke tr c) s' /\ ls_log s' = set_n 0 (ls_log s) /\
    abs dv (ls_bio s') (fun _ => 0) g' (writes d (commit_writes (ls_log s) g)).
Proof.
  intros Hc [Ha Hdev Hlay Hnd Hpin Hlen] Hpos. set (l := ls_log s) in *. set (st := lg_start l).
  pose proof Hlay as (Hn & Hns & Hout).
  assert (forall b, st <= b < st + lg_size l -> f b = 0) as Hf0.
  { intros b Hb. rewrite Hpin, decide_False; [done|]. by apply homes_not_log. }
  assert (room_for f 1) as Hroom.
  { exists (homes l). split; [|lia]. intros b. rewrite Hpin. by case_decide. }
  unfold commit. rewrite bind_gets. fold l. rewrite Z.gtb_ltb. btrue (0 <? lh_n l). cbn [when].
  destruct (write_log_ok c s f g d Hc Ha Hdev Hlay) as (s1 & tr1 & Hr1 & Hl1 & Ha1); fold l; fold st; auto.
  { intros t Ht. rewrite Hpin, decide_True by by apply home_in. lia. } { intros t Ht. apply Hf0. lia. }
  fold l in Hl1, Ha1. set (lw := log_writes l g (lh_n l)) in *.
  assert (gwrites g lw st = g st) as Est by (apply gwrites_other; intros Hin%log_writes_fst; lia).
  erewrite bind_ok by exact Hr1.
  destruct (write_head_ok (woke tr1 c) s1 f (gwrites g lw) (writes d lw) Hc Ha1) as (s2 & tr2 & Hr2 & Hl2 & Ha2);
    rewrite ?Hl1; fold st; auto. { apply Hf0. lia. }
  rewrite Hl1 in Hl2, Ha2. fold st in Ha2. rewrite Est in Ha2. change (put_head l (g st)) with (head_of l g) in Ha2.
  erewrite bind_ok by exact Hr2. set (g2 := upd (gwrites g lw) st (head_of l g)) in *.
  destruct (install_trans_ok (woke tr2 (woke tr1 c)) s2 f g2 (disk_write (writes d lw) st (head_of l g)) false)
    as (s3 & tr3 & Hr3 & Hl3 & Ha3); rewrite ?Hl2; auto.
  { split; [done|]. intros t Ht. rewrite Hpin. by rewrite decide_True by by apply home_in. }
  { intros t Ht. fold st. apply Hf0. lia. }
  rewrite Hl2 in Hl3, Ha3. erewrite bind_ok by exact Hr3. rewrite bind_modify.
  set (hw := home_writes l g2 (lh_n l)) in *.
  assert (hw = (fun t => (home l t, g (home l t))) <$> seqZ 0 (lh_n l)) as Ehw.
  { apply list_fmap_ext. intros i t Hi. apply list_elem_of_lookup_2, elem_of_seqZ in Hi. f_equal. unfold g2.
    rewrite upd_ne by (fold st; lia). apply gwrites_in; [apply log_writes_nodup|].
    apply (list_elem_of_fmap_2 (fun t => (lg_start l + t + 1, g (home l t)))). apply elem_of_seqZ. lia. }
  assert (gwrites g2 hw st = head_of l g) as Est3.
  { rewrite gwrites_other; [apply upd_eq|]. intros (t & Ht & E)%home_writes_fst. apply (Hout t); [done|]. fold st. lia. }
  destruct (write_head_ok (woke tr3 (woke tr2 (woke tr1 c))) (upd_log (set_n 0) s3) (unpins f (homes l)) (gwrites g2 hw)
    (writes (disk_write (writes d lw) st (head_of l g)) hw)) as (s4 & tr4 & Hr4 & Hl4 & Ha4); simpl; rewrite ?Hl3; fold st; auto.
  { lia. } { rewrite unpins_spec. case_decide; [done|]. apply Hf0. lia. }
  { destruct Hroom as (L & HL & Hk). exists L. split; [|done]. intros b. rewrite unpins_spec. case_decide; [lia|auto]. }
  simpl in Hl4, Ha4. rewrite Hl3 in Hl4, Ha4. change (lg_start (set_n 0 l)) with st in Ha4. fold st in Ha4. rewrite Est3 in Ha4.
  exists s4, (tr1 ++ tr2 ++ tr3 ++ tr4), (upd (gwrites g2 hw) st (put_head (set_n 0 l) (head_of l g))). split_and!; [|done|].
  - rewrite Hr4. by rewrite !woke_woke.
  - unfold commit_writes. rewrite <- Ehw. fold lw st. rewrite !writes_app.
    eapply abs_eq; [exact Ha4| |done]. intros b. rewrite unpins_spec, Hpin. by repeat case_decide.
Qed.

(** ** Recovery *)

(** The log structure that [read_head] builds from the header [h]. *)
Definition from_head (l : log) (h : list Z) (l' : log) : Prop :=
  lg_start l' = lg_start l /\ lg_size l' = lg_size l /\ lg_dev l' = lg_dev l /\ lh_n l' = hdr_n h /\
  forall t, 0 <= t < hdr_n h -> home l' t = u32 (hdr_block t h).

Lemma read_head_ok c s g d :
  bio_core c -> abs dv (ls_bio s) (fun _ => 0) g d -> lg_dev (ls_log s) = dv ->
  length (lh_block (ls_log s)) = 30%nat -> 0 <= hdr_n (g (lg_start (ls_log s))) <= LOGSIZE ->
  exists s' tr, read_head c s = Ok tt (woke tr c) s' /\
    from_head (ls_log s) (g (lg_start (ls_log s))) (ls_log s') /\ abs dv (ls_bio s') (fun _ => 0) g d.
Proof.
  intros Hc Ha Hdev Hlen Hn. set (l := ls_log s) in *. set (h := g (lg_start l)) in *.
  unfold read_head. rewrite bind_gets. fold l. rewrite Hdev.
  destruct (bread_abs dv [] c (ls_bio s) (fun _ => 0) g d (lg_start l)) as (i & t1 & Hb1 & Ho1 & Ha1); auto.
  { apply opened_nil. } { apply not_elem_of_nil. } { lia. }
  { right. exists []. split; [lia|]. unfold HEAD, NBUF, MAXOPBLOCKS. simpl. lia. }
  destruct (handle_data dv t1 _ _ _ _ i (lg_start l) Ha1 Ho1) as (Hdi & _ & _); [by left|].
  erewrite bind_ok by (apply bio_ok; exact Hb1). rewrite bind_gets, bind_modify. simpl ls_bio. rewrite Hdi. fold h.
  destruct (forM_seqZ (fun k c' s' => c' = holds [i] c /\ ls_bio s' = t1 /\ length (lh_block (ls_log s')) = 30%nat /\
     lg_start (ls_log s') = lg_start l /\ lg_size (ls_log s') = lg_size l /\ lg_dev (ls_log s') = lg_dev l /\
     lh_n (ls_log s') = hdr_n h /\ forall t, 0 <= t < k -> block_at t (ls_log s') = hdr_block t h)
     (fun i => if i <? LOGSIZE then modify (upd_log (set_block (Z.to_nat i) (hdr_block i h))) else fault "log.lh.block")
     (hdr_n h) (holds [i] c) (upd_log (set_n (hdr_n h)) (mkLogst l t1))) as (c' & s' & Hr & -> & Hs' & _ & Hst & Hsz & Hdv & Hn' & Hbl).
  { lia. } { split_and!; try done. intros t Ht. lia. }
  { intros k c1 s1 Hk (-> & Hs1 & Hl1 & H1 & H2 & H3 & H4 & H5). btrue (k <? LOGSIZE).
    unfold modify. eexists _, _. split; [reflexivity|]. simpl. rewrite length_insert. split_and!; auto.
    intros t Ht. unfold block_at. simpl. unfold LOGSIZE, MAXOPBLOCKS in *. destruct (decide (t = k)) as [->|Hne].
    - apply nth_lookup_Some. apply list_lookup_insert_eq. lia.
    - rewrite nth_lookup, list_lookup_insert_ne, <- nth_lookup by lia. apply H5. lia. }
  erewrite bind_ok by exact Hr.
  destruct (brelse_abs dv c t1 [] _ _ _ i _ Hc Ha1 Ho1) as (t2 & tr & Hr2 & Ho2 & Ha2).
  { intros _. destruct Ha as (Hinv & Hf & Hg & Hd). rewrite <- Hg, <- Hd. apply view_unpinned; [done|apply Hf]. }
  exists (mkLogst (ls_log s') t2), tr. split_and!.
  - apply bio_ok. by rewrite Hs'.
  - split_and!; auto. intros t Ht. unfold home. simpl. by rewrite Hbl.
  - eapply abs_eq; [exact Ha2| |done]. intros b. rewrite upd_eq. unfold upd. by destruct (b =? lg_start l).
Qed.

(** The writes of recovery on the disk [d] whose log starts at [st]. *)
Definition recover_writes (st : Z) (d : disk) : list (Z * list Z) :=
  let h := disk_read d st in
  ((fun t => (u32 (hdr_block t h), disk_read d (st + t + 1))) <$> seqZ 0 (hdr_n h)) ++ [(st, st32 0 0 h)].

(** The header on disk describes a log of at most [sz] blocks whose home
    blocks are outside the log. *)
Definition head_ok (st sz : Z) (d : disk) : Prop :=
  let h := disk_read d st in
  0 <= hdr_n h <= LOGSIZE /\ hdr_n h < sz /\
  forall t, 0 <= t < hdr_n h -> ~ st <= u32 (hdr_block t h) < st + sz.

(** A machine that has just booted: nothing is cached. *)
Definition fresh (s : logst) (d : disk) (st sz : Z) : Prop :=
  abs dv (ls_bio s) (fun _ => 0) (disk_read d) d /\ lg_start (ls_log s) = st /\ lg_size (ls_log s) = sz /\
  lg_dev (ls_log s) = dv /\ length (lh_block (ls_log s)) = 30%nat.

Lemma recover_ok c s d st sz :
  bio_core c -> fresh s d st sz -> head_ok st sz d ->
  exists s' tr, recover_from_log c s = Ok tt (woke tr c) s' /\ lh_n (ls_log s') = 0 /\
    bc_disk (ls_bio s') = writes d (recover_writes st d) /\
    abs dv (ls_bio s') (fun _ => 0) (disk_read (bc_disk (ls_bio s'))) (bc_disk (ls_bio s')) /\
    lg_start (ls_log s') = st /\ lg_size (ls_log s') = sz /\ lg_dev (ls_log s') = dv.
Proof.
  intros Hc (Ha & <- & <- & Hdev & Hlen) (Hn & Hns & Hh). set (l := ls_log s) in *. set (st := lg_start l) in *.
  set (h := disk_read d st) in *. unfold recover_from_log.
  destruct (read_head_ok c s (disk_read d) d) as (s1 & tr1 & Hr1 & (Hst & Hsz & Hdv & Hn1 & Hho) & Ha1); auto.
  fold l st h in Hst, Hsz, Hdv, Hn1, Hho. erewrite bind_ok by exact Hr1. set (l1 := ls_log s1) in *.
  destruct (install_trans_ok (woke tr1 c) s1 (fun _ => 0) (disk_read d) d true) as (s2 & tr2 & Hr2 & Hl2 & Ha2); fold l1; auto.
  { congruence. }
  { unfold layout. rewrite Hn1, Hst, Hsz. split_and!; [lia|lia|done|]. intros t Ht. rewrite Hho by done. by apply Hh. }
  { exists []. split; [lia|]. unfold HEAD, NBUF, MAXOPBLOCKS. simpl. lia. }
  erewrite bind_ok by exact Hr2. rewrite bind_modify. fold l1 in Hl2, Ha2.
  assert (forall b, unpins (fun _ => 0) (homes l1) b = 0) as Hu by (intros b; rewrite unpins_spec; by case_decide).
  destruct (write_head_ok (woke tr2 (woke tr1 c)) (upd_log (set_n 0) s2) _ _ _ Hc Ha2) as (s3 & tr3 & Hr3 & Hl3 & Ha3);
    simpl; rewrite ?Hl2; auto.
  { rewrite Hdv. done. } { lia. }
  { exists []. split; [intros b; rewrite Hu; lia|]. unfold HEAD, NBUF, MAXOPBLOCKS. simpl. lia. }
  pose proof Ha3 as (Hi3 & Hp3 & _ & Hd3). exists s3, (tr1 ++ tr2 ++ tr3).
  split_and!; [by rewrite Hr3, !woke_woke|by rewrite Hl3| | |rewrite Hl3; simpl; congruence..].
  - rewrite Hd3. simpl. rewrite Hl2, Hst. unfold recover_writes. fold h. rewrite writes_app.
    assert (home_writes l1 (disk_read d) (lh_n l1) =
      (fun t => (u32 (hdr_block t h), disk_read d (st + t + 1))) <$> seqZ 0 (hdr_n h)) as ->.
    { unfold home_writes. rewrite Hn1, Hst. apply list_fmap_ext. intros i t Hi.
      apply list_elem_of_lookup_2, elem_of_seqZ in Hi. by rewrite Hho by lia. }
    cbn [writes fold_left fst snd]. do 2 f_equal. unfold put_head. simpl. f_equal.
    rewrite gwrites_other; [done|]. rewrite <- list_fmap_compose. intros (t & E & Ht)%list_elem_of_fmap.
    apply elem_of_seqZ in Ht. simpl in E. apply (Hh t); [lia|]. rewrite <- E. lia.
  - assert (forall b, pin dv (ls_bio s3) b = 0) as Hz by (intros b; by rewrite Hp3, Hu). split_and!; try done.
    intros b. by apply view_unpinned.
Qed.
End proofs.

(** ** Crashes *)

(** What a completed recovery from the disk [d] leaves in block [b]. *)
Definition outcome (st : Z) (d : disk) (b : Z) : list Z := disk_read (writes d (recover_writes st d)) b.

(** The machine boots from the disk [d], [recover_from_log] runs, and the
    machine stops after the first [j] of the block writes that the run makes. *)
Definition crash_step (dv st sz : Z) (d d' : disk) : Prop := exists c s c' s' ws j,
  bio_core c /\ fresh dv s d st sz /\ recover_from_log c s = Ok tt c' s' /\
  dk_trace (bc_disk (ls_bio s')) = dk_trace d ++ ws /\ d' = writes d (take j ws).

Section crash.
Context (st sz : Z).
Implicit Types (d : disk) (b : Z).

Lemma writes_agree d d' ws b :
  (b ∈ ws.*1 \/ disk_read d b = disk_read d' b) -> disk_read (writes d ws) b = disk_read (writes d' ws) b.
Proof.
  revert d d'. induction ws as [|[x v] ws IH]; intros d d' H; cbn in H.
  - destruct H as [H|H]; [by apply not_elem_of_nil in H|done].
  - rewrite !writes_cons. apply IH. destruct (decide (b ∈ ws.*1)) as [|Hn]; [by left|right].
    rewrite !disk_read_write. case_decide; [done|]. destruct H as [[->|H]%elem_of_cons|H]; done.
Qed.

Lemma blocks_of_take {A} (f : A -> Z) (l : list (A * list Z)) j x : x ∈ (take j l).*1 -> x ∈ l.*1.
Proof. intros H. rewrite <- (take_drop j l), fmap_app. apply elem_of_app. by left. Qed.

Lemma hdr_n_cleared h : blk_ok h -> hdr_n (st32 0 0 h) = 0.
Proof. intros [Hl _]. unfold hdr_n. rewrite ld32_st32 by lia. done. Qed.

Lemma recover_writes_nil d : hdr_n (disk_read d st) = 0 ->
  recover_writes st d = [(st, st32 0 0 (disk_read d st))].
Proof. intros H. unfold recover_writes. rewrite H. done. Qed.

Lemma outcome_empty d b : hdr_n (disk_read d st) = 0 -> b <> st -> outcome st d b = disk_read d b.
Proof. intros H Hb. unfold outcome. rewrite recover_writes_nil by done. apply writes_other. cbn. by rewrite list_elem_of_singleton. Qed.

Lemma head_ok_empty d : 0 < sz -> hdr_n (disk_read d st) = 0 -> head_ok st sz d.
Proof. intros Hs H. unfold head_ok. rewrite H. unfold LOGSIZE, MAXOPBLOCKS. split_and!; try lia. Qed.

(** Interrupting recovery changes nothing: the next recovery has the same outcome. *)
Lemma outcome_stable d j :
  head_ok st sz d -> (forall b, blk_ok (disk_read d b)) ->
  let d' := writes d (take j (recover_writes st d)) in
  head_ok st sz d' /\ (forall b, ~ st <= b < st + sz -> outcome st d' b = outcome st d b).
Proof.
  intros (Hn & Hns & Hh) Hblk d'. set (h := disk_read d st) in *.
  set (hw := (fun t => (u32 (hdr_block t h), disk_read d (st + t + 1))) <$> seqZ 0 (hdr_n h)).
  assert (forall x, x ∈ hw.*1 -> ~ st <= x < st + sz) as Hhw.
  { unfold hw. rewrite <- list_fmap_compose. intros x (t & -> & Ht)%list_elem_of_fmap. apply elem_of_seqZ in Ht. apply Hh. lia. }
  destruct (decide (j <= length hw)%nat) as [Hj|Hj].
  - assert (d' = writes d (take j hw)) as Ed.
    { unfold d', recover_writes. fold h hw. by rewrite take_app_le. }
    assert (forall b, st <= b < st + sz -> disk_read d' b = disk_read d b) as Hsame.
    { intros b Hb. rewrite Ed. apply writes_other. intros Hin. apply (blocks_of_take (fun x => x)) in Hin. by apply Hhw in Hin. }
    assert (recover_writes st d' = recover_writes st d) as Er.
    { unfold recover_writes. rewrite (Hsame st) by lia. fold h. f_equal. apply list_fmap_ext. intros i t Hi.
      apply list_elem_of_lookup_2, elem_of_seqZ in Hi. f_equal. apply Hsame. lia. }
    split.
    + unfold head_ok. rewrite (Hsame st) by lia. fold h. split_and!; try lia. apply Hh.
    + intros b Hb. unfold outcome. rewrite Er. apply writes_agree.
      destruct (decide (b ∈ (recover_writes st d).*1)) as [|Hnb]; [by left|right]. rewrite Ed. apply writes_other.
      intros Hin. apply Hnb. unfold recover_writes. fold h hw. rewrite fmap_app. apply elem_of_app. left.
      by apply (blocks_of_take (fun x => x)) in Hin.
  - assert (d' = writes d (recover_writes st d)) as Ed.
    { unfold d'. rewrite take_ge; [done|]. unfold recover_writes. fold h hw. rewrite length_app. simpl. lia. }
    assert (disk_read d' st = st32 0 0 h) as Eh.
    { rewrite Ed. unfold recover_writes. rewrite writes_app. fold h hw. cbn [writes fold_left fst snd].
      rewrite disk_read_write. by rewrite decide_True. }
    assert (hdr_n (disk_read d' st) = 0) as E0 by (rewrite Eh; apply hdr_n_cleared, Hblk).
    split; [apply head_ok_empty; [lia|done]|]. intros b Hb. rewrite outcome_empty by (done || lia). by rewrite Ed.
Qed.

Lemma writes_blk_ok d ws :
  (forall b, blk_ok (disk_read d b)) -> Forall (fun w => blk_ok w.2) ws -> forall b, blk_ok (disk_read (writes d ws) b).
Proof.
  intros Hd Hw. revert d Hd. induction Hw as [|[x v] ws Hv _ IH]; intros d Hd b; [done|].
  rewrite writes_cons. apply IH. intros b'. rewrite disk_read_write. by case_decide.
Qed.

Lemma st32_blk off v h : (off + 4 <= 1024)%nat -> blk_ok h -> blk_ok (st32 off v h).
Proof. intros Ho [Hl Hb]. split; [rewrite length_st32; lia|by apply st32_byte]. Qed.

Lemma recover_writes_ok d : (forall b, blk_ok (disk_read d b)) -> Forall (fun w => blk_ok w.2) (recover_writes st d).
Proof.
  intros Hd. apply Forall_app. split; [|by constructor; [apply st32_blk; [lia|done]|]].
  apply Forall_fmap. apply Forall_forall. intros t _. apply Hd.
Qed.

(** The writes of a run of recovery are those of [recover_writes]. *)
Lemma crash_step_writes dv d d' : head_ok st sz d -> crash_step dv st sz d d' ->
  exists j, d' = writes d (take j (recover_writes st d)).
Proof.
  intros Hh (c & s & c' & s' & ws & j & Hc & Hf & Hr & Htr & ->). exists j.
  destruct (recover_ok dv c s d st sz Hc Hf Hh) as (s'' & tr & Hr' & _ & Hd & _). rewrite Hr in Hr'. injection Hr' as _ <-.
  rewrite Hd, writes_trace in Htr. by apply app_inv_head in Htr as <-.
Qed.

Lemma crash_steps_stable dv d d' :
  head_ok st sz d -> (forall b, blk_ok (disk_read d b)) -> rtc (crash_step dv st sz) d d' ->
  head_ok st sz d' /\ (forall b, ~ st <= b < st + sz -> outcome st d' b = outcome st d b).
Proof.
  intros Hh Hb Hr. revert Hh Hb. induction Hr as [|d d1 d2 Hst Hr IH]; intros Hh Hb; [done|].
  destruct (crash_step_writes dv d d1 Hh Hst) as [j ->].
  destruct (outcome_stable d j Hh Hb) as [Hh1 Ho1]. destruct IH as [Hh2 Ho2]; [done| |].
  - apply writes_blk_ok; [done|]. apply Forall_take. by apply recover_writes_ok.
  - split; [done|]. intros b Hbs. rewrite Ho2, Ho1 by done. done.
Qed.

Lemma u32_s32 x : u32 (s32 x) = u32 x.
Proof.
  unfold u32, s32, sgn. rewrite Z.mod_mod || idtac. case_match; [by rewrite Z.mod_mod by lia|].
  rewrite Zminus_mod, Z.mod_same, Z.sub_0_r, !Z.mod_mod by lia. done.
Qed.

(** A disk with a committed header and a complete log: recovery installs it. *)
Lemma committed_outcome l g d dk :
  lg_start l = st -> lg_size l = sz -> layout l -> NoDup (homes l) -> blk_ok (g st) ->
  disk_read dk st = head_of l g ->
  (forall t, 0 <= t < lh_n l -> disk_read dk (st + t + 1) = g (home l t)) ->
  (forall b, ~ st <= b < st + sz -> b ∉ homes l -> disk_read dk b = disk_read d b) ->
  head_ok st sz dk /\
  forall b, ~ st <= b < st + sz -> outcome st dk b = if decide (b ∈ homes l) then g b else disk_read d b.
Proof.
  intros Est Esz (Hn & Hns & Hout) Hnd Hg Hh Hlog Hoth.
  destruct (put_head_ok l (g st) Hn Hg) as (_ & En & Eb). unfold head_of in Hh. rewrite Est in Hh.
  assert (forall t, 0 <= t < lh_n l -> u32 (hdr_block t (disk_read dk st)) = home l t) as Eh.
  { intros t Ht. rewrite Hh, Eb, u32_s32 by done. unfold home, u32. by rewrite Z.mod_mod by lia. }
  set (hw := (fun t => (home l t, g (home l t))) <$> seqZ 0 (lh_n l)).
  assert (hw.*1 = homes l) as Ehw by (unfold hw, homes; by rewrite <- list_fmap_compose).
  assert (recover_writes st dk = hw ++ [(st, st32 0 0 (disk_read dk st))]) as Er.
  { unfold recover_writes. assert (hdr_n (disk_read dk st) = lh_n l) as -> by by rewrite Hh. f_equal. apply list_fmap_ext. intros i t Hi.
    apply list_elem_of_lookup_2, elem_of_seqZ in Hi. rewrite Eh, Hlog by lia. done. }
  split.
  - assert (hdr_n (disk_read dk st) = lh_n l) as En' by by rewrite Hh.
    unfold head_ok. cbv zeta. rewrite En'. split_and!; [lia|lia|lia|]. intros t Ht. rewrite Eh by done. rewrite <- Est, <- Esz. by apply Hout.
  - intros b Hb. unfold outcome. rewrite Er, writes_app. cbn [writes fold_left fst snd].
    rewrite disk_read_write, decide_False by lia. case_decide as Hin.
    + apply writes_in; [by rewrite Ehw|]. apply list_elem_of_fmap in Hin as (t & -> & Ht).
      apply (list_elem_of_fmap_2 (fun t => (home l t, g (home l t)))). done.
    + rewrite writes_other by (by rewrite Ehw). by apply Hoth.
Qed.

(** Blocks that are not part of the transaction read as on disk. *)
Lemma ready_other dv s f g d b : ready dv s f g d -> b ∉ homes (ls_log s) -> g b = disk_read d b.
Proof.
  intros [(Hinv & Hf & Hg & Hd) _ _ _ Hpin _] Hb. rewrite <- Hg, <- Hd. apply view_unpinned; [done|].
  rewrite Hf, Hpin. by rewrite decide_False.
Qed.

Lemma ready_blk dv s f g d b : ready dv s f g d -> blk_ok (g b) /\ blk_ok (disk_read d b).
Proof. intros [(Hinv & _ & Hg & Hd) _ _ _ _ _]. rewrite <- Hg, <- Hd. split; [by apply view_ok|apply Hinv]. Qed.

(** The disk after all the writes of a commit. *)
Lemma commit_final dv s f g d b :
  ready dv s f g d -> ~ lg_start (ls_log s) <= b < lg_start (ls_log s) + lg_size (ls_log s) ->
  disk_read (writes d (commit_writes (ls_log s) g)) b = g b.
Proof.
  intros Hready Hb. pose proof Hready as [_ _ (Hn & Hns & _) Hnd _ _]. unfold commit_writes. set (l := ls_log s) in *.
  set (hw := (fun t => (home l t, g (home l t))) <$> seqZ 0 (lh_n l)).
  assert (hw.*1 = homes l) as Ehw by (unfold hw, homes; by rewrite <- list_fmap_compose).
  rewrite !writes_app, writes_other by (cbn; rewrite list_elem_of_singleton; lia).
  destruct (decide (b ∈ homes l)) as [Hin|Hnin].
  - apply writes_in; [by rewrite Ehw|]. apply list_elem_of_fmap in Hin as (t & -> & Ht).
    by apply (list_elem_of_fmap_2 (fun t => (home l t, g (home l t)))).
  - rewrite !writes_other; [symmetry; by eapply ready_other| | |by rewrite Ehw].
    + intros Hin%log_writes_fst. lia.
    + cbn. rewrite list_elem_of_singleton. lia.
Qed.

Lemma commit_writes_ok dv s f g d : ready dv s f g d -> Forall (fun w => blk_ok w.2) (commit_writes (ls_log s) g).
Proof.
  intros Hready. pose proof Hready as [_ _ (Hn & _) _ _ _].
  assert (forall b, blk_ok (g b)) as Hg by (intros b; by eapply ready_blk).
  assert (blk_ok (head_of (ls_log s) g)) as Hh by by apply put_head_ok.
  unfold commit_writes, log_writes. rewrite !Forall_app, !Forall_fmap, !Forall_singleton.
  split_and!; try (apply Forall_forall; intros t _; apply Hg); [done|].
  apply put_head_ok; [simpl; unfold LOGSIZE, MAXOPBLOCKS; lia|done].
Qed.

(** The disk after the first [k] writes of a commit. *)
Lemma commit_crash dv s f g d k :
  ready dv s f g d -> lg_start (ls_log s) = st -> lg_size (ls_log s) = sz -> hdr_n (disk_read d st) = 0 ->
  let dk := writes d (take k (commit_writes (ls_log s) g)) in
  head_ok st sz dk /\
  ((forall b, ~ st <= b < st + sz -> outcome st dk b = disk_read d b) \/
   (forall b, ~ st <= b < st + sz -> outcome st dk b = g b)).
Proof.
  intros [Ha Hdev Hlay Hnd Hpin Hlen] Est Esz H0 dk. set (l := ls_log s) in *. pose proof Hlay as (Hn & Hns & Hout).
  rewrite Esz, Est in *. set (n := lh_n l) in *.
  set (lw := log_writes l g n). set (hw := (fun t => (home l t, g (home l t))) <$> seqZ 0 n).
  assert (length lw = Z.to_nat n /\ length hw = Z.to_nat n) as [Llw Lhw] by (unfold lw, hw, log_writes; rewrite !length_fmap, length_seqZ; done).
  assert (forall b, ~ st <= b < st + sz -> b ∉ homes l -> g b = disk_read d b) as Hgd.
  { intros b _ Hb. destruct Ha as (Hinv & Hf & Hg & Hd). rewrite <- Hg, <- Hd. apply view_unpinned; [done|].
    rewrite Hf, Hpin. by rewrite decide_False. }
  assert (hw.*1 = homes l) as Ehw by (unfold hw, homes; by rewrite <- list_fmap_compose).
  assert (forall b, ~ st <= b < st + sz -> b ∉ (lw ++ [(st, head_of l g)]).*1) as Hnl.
  { intros b Hb. rewrite fmap_app, elem_of_app. cbn. rewrite list_elem_of_singleton. intros [Hin| ->]; [|lia].
    apply log_writes_fst in Hin. rewrite Est in Hin. lia. }
  set (h1 := head_of l g) in *. set (h0 := put_head (set_n 0 l) h1).
  assert (commit_writes l g = (lw ++ [(st, h1)]) ++ hw ++ [(st, h0)]) as Ew.
  { unfold commit_writes. fold n lw hw h1 h0. by rewrite Est, <- !app_assoc. }
  destruct (decide (k <= Z.to_nat n)%nat) as [Hk|Hk].
  { assert (dk = writes d (take k lw)) as Edk.
    { unfold dk. by rewrite Ew, take_app_le, take_app_le by (rewrite ?length_app; lia). }
    assert (disk_read dk st = disk_read d st) as Eh.
    { rewrite Edk. apply writes_other. intros Hin%(blocks_of_take (fun x => x))%log_writes_fst. lia. }
    split; [apply head_ok_empty; [lia|by rewrite Eh]|]. left. intros b Hb. rewrite outcome_empty by (by rewrite ?Eh || lia).
    rewrite Edk. apply writes_other. intros Hin%(blocks_of_take (fun x => x)). apply (Hnl b Hb). rewrite fmap_app. apply elem_of_app. by left. }
  destruct (decide (k <= 2 * Z.to_nat n + 1)%nat) as [Hk2|Hk2].
  - set (j := (k - Z.to_nat n - 1)%nat).
    assert (dk = writes (writes d (lw ++ [(st, h1)])) (take j hw)) as Edk.
    { unfold dk. rewrite Ew, take_app_ge, writes_app by (rewrite length_app; simpl; lia).
      rewrite length_app. simpl length. rewrite take_app_le by lia. do 2 f_equal. unfold j. lia. }
    assert (disk_read dk st = h1 /\ (forall t, 0 <= t < n -> disk_read dk (st + t + 1) = g (home l t))) as [Hdst Hdl].
    { assert (forall x, st <= x < st + sz -> x ∉ (take j hw).*1) as Hx.
      { intros x Hx Hin%(blocks_of_take (fun x => x)). rewrite Ehw in Hin. by eapply homes_not_log in Hin; rewrite ?Est, ?Esz. }
      rewrite Edk. split; [|intros t Ht]; rewrite writes_other by (apply Hx; lia); rewrite writes_app; cbn [writes fold_left fst snd];
        rewrite disk_read_write; [by rewrite decide_True|]. rewrite decide_False by lia.
      apply writes_in; [apply log_writes_nodup|]. rewrite <- Est.
      apply (list_elem_of_fmap_2 (fun t => (lg_start l + t + 1, g (home l t)))). apply elem_of_seqZ. lia. }
    destruct (committed_outcome l g d dk) as [Hho Hoo]; auto.
    { destruct Ha as (Hinv & _ & Hg & _). rewrite <- Hg. by apply view_ok. }
    { intros b Hb Hnb. rewrite Edk, !writes_other; [done|by apply Hnl|]. intros Hin%(blocks_of_take (fun x => x)). by rewrite Ehw in Hin. }
    split; [done|]. right. intros b Hb. rewrite Hoo by done. case_decide; [done|]. symmetry. by apply Hgd.
  - assert (dk = writes (writes d ((lw ++ [(st, h1)]) ++ hw)) [(st, h0)]) as Edk.
    { unfold dk. rewrite Ew, take_ge, app_assoc, writes_app; [done|]. rewrite !length_app. simpl. lia. }
    assert (disk_read dk st = h0) as Eh by (rewrite Edk; cbn [writes fold_left fst snd]; rewrite disk_read_write; by rewrite decide_True).
    assert (hdr_n (disk_read dk st) = 0) as E0.
    { rewrite Eh. unfold h0. assert (blk_ok h1) as Hb1.
      { apply put_head_ok; [done|]. destruct Ha as (Hinv & _ & Hg & _). rewrite <- Hg. by apply view_ok. }
      destruct (put_head_ok (set_n 0 l) h1) as (_ & -> & _); [simpl; unfold LOGSIZE, MAXOPBLOCKS; lia|done|done]. }
    split; [apply head_ok_empty; [lia|done]|]. right. intros b Hb. rewrite outcome_empty by (done || lia). rewrite Edk.
    rewrite <- writes_app, <- app_assoc, <- Ew. apply (commit_final dv s f g d); [by split|fold l; by rewrite Est, Esz].
Qed.
End crash.

(** C1: Crash safety.  [commit] of a ready transaction succeeds, leaves exactly the
    contents [g] seen by the file system calls on disk, and performs a
    sequence [ws] of block writes such that, if the machine stops after any
    prefix of [ws], and then any number of times boots, runs recovery and stops
    again after any prefix of the writes of that run, a last recovery succeeds
    and leaves outside the log either the old contents of every block or the
    new contents of every block. *)
Theorem crash_safety dv c s f g d st sz :
  bio_core c -> ready dv s f g d -> 0 < lh_n (ls_log s) ->
  lg_start (ls_log s) = st -> lg_size (ls_log s) = sz -> hdr_n (disk_read d st) = 0 ->
  exists s' tr ws, commit c s = Ok tt (woke tr c) s' /\ lh_n (ls_log s') = 0 /\
    dk_trace (bc_disk (ls_bio s')) = dk_trace d ++ ws /\
    (forall b, ~ st <= b < st + sz -> disk_read (bc_disk (ls_bio s')) b = g b) /\
    forall k d' cr sr, rtc (crash_step dv st sz) (writes d (take k ws)) d' -> bio_core cr -> fresh dv sr d' st sz ->
      exists s'' tr', recover_from_log cr sr = Ok tt (woke tr' cr) s'' /\
        ((forall b, ~ st <= b < st + sz -> disk_read (bc_disk (ls_bio s'')) b = disk_read d b) \/
         (forall b, ~ st <= b < st + sz -> disk_read (bc_disk (ls_bio s'')) b = g b)).
Proof.
  intros Hc Hready Hpos Hst Hsz H0. pose proof Hready as [Ha Hdev Hlay Hnd Hpin Hlen].
  destruct (commit_ok dv c s f g d Hc Hready Hpos) as (s' & tr & g' & Hr & Hl & Ha').
  exists s', tr, (commit_writes (ls_log s) g). destruct Ha' as (_ & _ & _ & Hd').
  split_and!; [done|by rewrite Hl|rewrite Hd'; apply writes_trace| |].
  - intros b Hb. rewrite Hd'. eapply commit_final; [done|]. by rewrite Hst, Hsz.
  - intros k d' cr sr Hcr Hbc Hfr.
    destruct (commit_crash st sz dv s f g d k Hready Hst Hsz H0) as [Hh Ho]. set (dk := writes d (take k _)) in *.
    assert (forall b, blk_ok (disk_read dk b)) as Hblk.
    { apply writes_blk_ok; [intros b; by eapply ready_blk|]. apply Forall_take. by eapply commit_writes_ok. }
    destruct (crash_steps_stable st sz dv dk d' Hh Hblk Hcr) as [Hh' Ho'].
    destruct (recover_ok dv cr sr d' st sz Hbc Hfr Hh') as (s'' & tr' & Hr'' & _ & Hd'' & _).
    exists s'', tr'. split; [done|].
    destruct Ho as [Ho|Ho]; [left|right]; intros b Hb; rewrite Hd''; change (disk_read (writes d' (recover_writes st d')) b)
      with (outcome st d' b); rewrite Ho', Ho by done; done.
Qed.
