(* ===== verification/LogOps.v ===== *)
(** * Transactions: begin_op, log_write and end_op of kernel/log.c

    The functional behaviour of the calls a file system operation makes, the
    accounting of log space over any interleaving of operations
    ([Module Space]), and a concrete transaction carried from [binit] to
    [commit] at which the crash-safety theorem is instantiated. *)

From Stdlib Require Import ZArith Lia.
From stdpp Require Import base gmap list numbers strings relations.
From S2P Require Import Prelude Riscv Core Spinlock Sleeplock Bio BioAbs Log.
Local Open Scope Z_scope.

(** ** [log_write] *)

Lemma log_find_spec bs n b i :
  (n <= length bs)%nat ->
  let r := log_find bs n b i in
  (i <= r <= i + n)%nat /\
  ((r < i + n)%nat -> exists x, bs !! (r - i)%nat = Some x /\ u32 x = b) /\
  (r = (i + n)%nat -> forall x, x ∈ take n bs -> u32 x <> b).
Proof.
  revert n i. induction bs as [|y bs IH]; intros [|n] i Hn; cbn [log_find length] in *; try lia.
  - split_and!; try lia. intros _ x Hx. by apply not_elem_of_nil in Hx.
  - split_and!; try lia. intros _ x Hx. by apply not_elem_of_nil in Hx.
  - destruct (Z.eqb_spec (u32 y) b) as [E|E].
    + split_and!; try lia. intros _. exists y. by rewrite Nat.sub_diag.
    + destruct (IH n (S i)) as (H1 & H2 & H3); [lia|]. set (r := log_find bs n b (S i)) in *. split_and!; try lia.
      * intros Hr. destruct H2 as (x & Hx & Hu); [lia|]. exists x.
        replace (r - i)%nat with (S (r - S i)) by lia. done.
      * intros Hr x. cbn [take]. rewrite elem_of_cons. intros [->|Hx]; [done|]. apply H3; [lia|done].
Qed.

Lemma s32_u32_id x : 0 <= x < 2 ^ 32 -> u32 (s32 x) = x.
Proof. intros H. rewrite u32_s32. by apply u32_small. Qed.

(** The log structure's bookkeeping fields are those of another one. *)
Definition same_but_entries (l l' : log) : Prop :=
  lg_start l' = lg_start l /\ lg_size l' = lg_size l /\ lg_outstanding l' = lg_outstanding l /\
  lg_committing l' = lg_committing l /\ lg_dev l' = lg_dev l /\ length (lh_block l') = length (lh_block l).

Lemma homes_take l : 0 <= lh_n l <= Z.of_nat (length (lh_block l)) ->
  homes l = u32 <$> take (Z.to_nat (lh_n l)) (lh_block l).
Proof.
  intros Hn. unfold homes, home, block_at. apply list_eq. intros i. rewrite !list_lookup_fmap.
  destruct (decide (i < Z.to_nat (lh_n l))%nat) as [Hi|Hi].
  - rewrite lookup_seqZ_lt, lookup_take_lt by lia. simpl. rewrite Z.add_0_l, Nat2Z.id.
    destruct (lookup_lt_is_Some_2 (lh_block l) i) as [x Hx]; [lia|]. rewrite Hx. simpl. by rewrite (nth_lookup_Some _ _ _ _ Hx).
  - rewrite lookup_seqZ_ge, lookup_take_ge by lia. done.
Qed.

Section ops.
Context (dv : Z).
Implicit Types (c : core) (d : disk) (f : Z -> Z) (g : Z -> list Z) (H : list (nat * Z)).

Lemma holds_lock lk (H' : list nat) c : lock_free lk (holds H' c) <-> lock_free lk c.
Proof. induction H' as [|i H' IH]; [done|]. simpl. exact IH. Qed.

(** [log_write] of an open buffer: the block is recorded once and pinned. *)
Lemma log_write_ok c (s : logst) H f g d i b :
  let l := ls_log s in
  bio_core c -> lock_free LkLog c -> abs dv (ls_bio s) f g d -> opened dv (ls_bio s) H -> (i, b) ∈ H ->
  0 <= b < 2 ^ 32 -> f b + 1 < 2 ^ 31 -> length (lh_block l) = 30%nat -> 0 <= lh_n l < LOGSIZE -> lh_n l < lg_size l - 1 ->
  1 <= lg_outstanding l ->
  exists s', log_write i (holds (H.*1) c) s = Ok tt (holds (H.*1) c) s' /\ opened dv (ls_bio s') H /\
    same_but_entries l (ls_log s') /\
    if decide (b ∈ homes l) then lh_n (ls_log s') = lh_n l /\ homes (ls_log s') = homes l /\ abs dv (ls_bio s') f g d
    else lh_n (ls_log s') = lh_n l + 1 /\ homes (ls_log s') = homes l ++ [b] /\ abs dv (ls_bio s') (upd f b (f b + 1)) g d.
Proof.
  intros l Hc Hl Ha Ho Hin Hb Hfb Hlen Hn Hsz Hout. unfold LOGSIZE, MAXOPBLOCKS in Hn.
  destruct (bio_core_sub c (H.*1) Hc) as [Hwf Hlb]. assert (lock_free LkLog (holds (H.*1) c)) as Hll by by apply holds_lock.
  unfold log_write. erewrite bind_ok by (by apply acquire_free). rewrite bind_gets. fold l.
  rewrite !Z.geb_leb. change LOGSIZE with 30. bfalse (30 <=? lh_n l). bfalse (lg_size l - 1 <=? lh_n l). cbn [orb].
  bfalse (lg_outstanding l <? 1).
  destruct (handle_data dv (ls_bio s) H f g d i b Ha Ho Hin) as (_ & Hbl & _).
  erewrite bind_ok by (apply bio_ok; unfold gets; rewrite Hbl; reflexivity).
  change (mkLogst (ls_log s) (ls_bio s)) with (mkLogst l (ls_bio s)).
  destruct (log_find_spec (lh_block l) (Z.to_nat (lh_n l)) b 0) as (Hr1 & Hr2 & Hr3); [lia|].
  set (r := log_find (lh_block l) (Z.to_nat (lh_n l)) b 0) in *. rewrite Nat.add_0_l in *. rewrite bind_modify.
  assert (0 <= lh_n l <= Z.of_nat (length (lh_block l))) as Hnl by lia.
  destruct (decide (r < Z.to_nat (lh_n l))%nat) as [Hlt|Hge].
  - destruct (Hr2 Hlt) as (x & Hx & Hux). rewrite Nat.sub_0_r in Hx.
    assert (b ∈ homes l) as Hbin.
    { rewrite homes_take by done. rewrite <- Hux. apply list_elem_of_fmap_2, list_elem_of_lookup. exists r. by rewrite lookup_take_lt. }
    bfalse (Z.of_nat r =? lh_n l). cbn [when]. rewrite bind_ret, release_hold by done.
    eexists. split; [done|]. split; [done|]. split; [unfold same_but_entries; simpl; by rewrite length_insert|].
    rewrite decide_True by done. split_and!; [done| |done].
    rewrite !homes_take by (simpl; rewrite ?length_insert; done). simpl. apply list_eq. intros k. rewrite !list_lookup_fmap.
    destruct (decide (k < Z.to_nat (lh_n l))%nat); [|by rewrite !lookup_take_ge by lia]. rewrite !lookup_take_lt by done.
    destruct (decide (k = r)) as [->|Hne]; [|by rewrite list_lookup_insert_ne].
    rewrite list_lookup_insert_eq, Hx by lia. simpl. by rewrite s32_u32_id, Hux.
  - assert (r = Z.to_nat (lh_n l)) as Er by lia. specialize (Hr3 Er).
    assert (b ∉ homes l) as Hbn.
    { rewrite homes_take by done. intros (x & Ex & Hx)%list_elem_of_fmap. by apply (Hr3 x Hx). }
    btrue (Z.of_nat r =? lh_n l). cbn [when].
    destruct (bpin_abs dv (hold LkLog (holds (H.*1) c)) (ls_bio s) H f g d i b) as (t & Hp & Ho' & Ha'); auto.
    { by apply hold_wf. } { by apply lock_free_hold. }
    erewrite (bind_ok (bio (bpin i) ≫= _)) by (erewrite bind_ok by (apply bio_ok; exact Hp); reflexivity).
    rewrite release_hold by done. eexists. split; [done|]. split; [done|].
    split; [unfold same_but_entries; simpl; by rewrite length_insert|].
    rewrite decide_False by done. split_and!; [done| |done].
    rewrite !homes_take by (simpl; rewrite ?length_insert; lia). simpl. rewrite Z2Nat.inj_add, Er by lia.
    change (Z.to_nat 1) with 1%nat. rewrite Nat.add_1_r.
    rewrite (take_S_r _ _ (s32 b)) by (apply list_lookup_insert_eq; lia).
    rewrite take_insert_ge by lia. rewrite fmap_app. cbn. by rewrite s32_u32_id.
Qed.
End ops.

(** ** Log space *)

(** Code that leaves the state, or the log structure, alone. *)
Section preserve.
Context {T X : Type} (proj : T -> X).

Definition keeps {A} (m : M T A) : Prop := forall c s a c' s', m c s = Ok a c' s' -> proj s' = proj s.

Lemma keeps_bind {A B} (m : M T A) (k : A -> M T B) : keeps m -> (forall a, keeps (k a)) -> keeps (m ≫= k).
Proof. intros Hm Hk c s b c' s' (a & c1 & s1 & H1 & H2)%bind_inv. rewrite (Hk _ _ _ _ _ _ H2). by eapply Hm. Qed.

Lemma keeps_ret {A} (a : A) : keeps (mret a).
Proof. by intros c s b c' s' [= <- <- <-]. Qed.

Lemma keeps_gets {A} (g : T -> A) : keeps (gets g).
Proof. by intros c s b c' s' [= <- <- <-]. Qed.

Lemma keeps_panic {A} msg : keeps (panic (A := A) msg).
Proof. by intros c s a c' s'. Qed.

Lemma keeps_core (g : core -> core) : keeps (modifyc g).
Proof. by intros c s b c' s' [= <- <- <-]. Qed.

Lemma keeps_getc : keeps getc.
Proof. by intros c s b c' s' [= <- <- <-]. Qed.

Lemma keeps_modify (g : T -> T) : (forall s, proj (g s) = proj s) -> keeps (modify g).
Proof. intros Hg c s b c' s' [= <- <- <-]. apply Hg. Qed.

Lemma keeps_when b m : keeps m -> keeps (when b m).
Proof. destruct b; [done|]. intros _. apply keeps_ret. Qed.

Lemma keeps_forM {Y} (l : list Y) (body : Y -> M T unit) : (forall y, keeps (body y)) -> keeps (forM l body).
Proof. intros Hb. induction l as [|y l IH]; [apply keeps_ret|]. cbn [forM]. apply keeps_bind; [apply Hb|done]. Qed.

Lemma keeps_push_off : keeps push_off.
Proof. apply keeps_core. Qed.

Lemma keeps_pop_off : keeps pop_off.
Proof.
  unfold pop_off. apply keeps_bind; [apply keeps_getc|]. intros c. repeat case_match; try apply keeps_panic.
  apply keeps_bind; [apply keeps_core|]. intros _. apply keeps_bind; [apply keeps_getc|]. intros c'.
  case_match; [apply keeps_core|apply keeps_ret].
Qed.

Lemma keeps_acquire lk : keeps (acquire lk).
Proof.
  unfold acquire. apply keeps_bind; [apply keeps_push_off|]. intros _. apply keeps_bind; [apply keeps_getc|]. intros c.
  case_match; [apply keeps_panic|]. case_match; [by intros ? ? ? ? ?|apply keeps_core].
Qed.

Lemma keeps_release lk : keeps (release lk).
Proof.
  unfold release. apply keeps_bind; [apply keeps_getc|]. intros c. case_match; [apply keeps_panic|].
  apply keeps_bind; [apply keeps_core|]. intros _. apply keeps_bind; [apply keeps_core|]. intros _. apply keeps_pop_off.
Qed.
End preserve.

Lemma keeps_bio {A} (m : M bcache A) : keeps ls_log (bio m).
Proof. intros c s a c' s'. unfold bio, lift. destruct (m c (lens_get log_bio s)); intros; simplify_eq; done. Qed.

#[export] Hint Resolve keeps_bind keeps_ret keeps_gets keeps_panic keeps_core keeps_getc keeps_when keeps_forM
  keeps_acquire keeps_release keeps_bio : keeps.

Lemma keeps_write_head : keeps ls_log write_head.
Proof. unfold write_head. auto 20 with keeps. Qed.

Lemma keeps_install r : keeps ls_log (install_trans r).
Proof. unfold install_trans. apply keeps_bind; [apply keeps_gets|]. intros l. apply keeps_forM. intros t. auto 20 with keeps. Qed.

Lemma keeps_write_log : keeps ls_log write_log.
Proof. unfold write_log. apply keeps_bind; [apply keeps_gets|]. intros l. apply keeps_forM. intros t. auto 20 with keeps. Qed.

Lemma commit_log c s c' s' : commit c s = Ok tt c' s' ->
  ls_log s' = if 0 <? lh_n (ls_log s) then set_n 0 (ls_log s) else ls_log s.
Proof.
  unfold commit. rewrite bind_gets, Z.gtb_ltb. destruct (0 <? lh_n (ls_log s)); cbn [when].
  - intros (? & c1 & s1 & H1 & H)%bind_inv. apply bind_inv in H as (? & c2 & s2 & H2 & H).
    apply bind_inv in H as (? & c3 & s3 & H3 & H). rewrite bind_modify in H.
    apply keeps_write_head in H. apply keeps_write_log in H1. apply keeps_write_head in H2. apply keeps_install in H3.
    rewrite H. simpl. congruence.
  - by intros [= <- <-].
Qed.

Lemma begin_op_log c s c' s' : begin_op c s = Ok tt c' s' ->
  lg_committing (ls_log s) = 0 /\ lh_n (ls_log s) + (lg_outstanding (ls_log s) + 1) * MAXOPBLOCKS <= LOGSIZE /\
  ls_log s' = set_outstanding (lg_outstanding (ls_log s) + 1) (ls_log s).
Proof.
  unfold begin_op. intros (? & c1 & s1 & H1 & H)%bind_inv. apply (keeps_acquire (fun s => s)) in H1. subst s1.
  rewrite bind_gets in H. destruct (Z.eqb_spec (lg_committing (ls_log s)) 0) as [E|E]; cbn [negb] in H.
  2:{ unfold sleep in H. apply bind_inv in H as (? & ? & ? & _ & H). done. }
  rewrite Z.gtb_ltb in H.
  destruct (Z.ltb_spec LOGSIZE (lh_n (ls_log s) + (lg_outstanding (ls_log s) + 1) * MAXOPBLOCKS)) as [Hlt|Hge].
  { unfold sleep in H. apply bind_inv in H as (? & ? & ? & _ & H). done. }
  rewrite bind_modify in H. apply (keeps_release (fun s => s)) in H. subst s'. done.
Qed.

Lemma end_op_log c s c' s' : end_op c s = Ok tt c' s' -> 0 <= lh_n (ls_log s) ->
  lg_committing (ls_log s) = 0 /\ lg_committing (ls_log s') = 0 /\
  lg_outstanding (ls_log s') = lg_outstanding (ls_log s) - 1 /\
  lh_n (ls_log s') = (if lg_outstanding (ls_log s) =? 1 then 0 else lh_n (ls_log s)) /\
  lg_size (ls_log s') = lg_size (ls_log s).
Proof.
  unfold end_op. intros (? & c1 & s1 & H1 & H)%bind_inv Hn. apply (keeps_acquire (fun s => s)) in H1. subst s1.
  rewrite bind_modify, bind_gets in H. simpl in H.
  destruct (Z.eqb_spec (lg_committing (ls_log s)) 0) as [E|E]; cbn [negb] in H; [|done].
  apply bind_inv in H as (dc & c2 & s2 & H2 & H). apply bind_inv in H as ([] & c3 & s3 & H3 & H).
  apply (keeps_release (fun s => s)) in H3. subst s3.
  destruct (Z.eqb_spec (lg_outstanding (ls_log s) - 1) 0) as [E1|E1].
  - rewrite bind_modify in H2. injection H2 as <- <- <-. btrue (lg_outstanding (ls_log s) =? 1). cbn [when] in H.
    apply bind_inv in H as ([] & c4 & s4 & H4 & H). apply bind_inv in H as ([] & c5 & s5 & H5 & H).
    apply (keeps_acquire (fun s => s)) in H5. subst s5. rewrite bind_modify in H. apply bind_inv in H as ([] & c6 & s6 & H6 & H).
    injection H6 as <- <-. apply (keeps_release (fun s => s)) in H. subst s'. apply commit_log in H4. simpl in *.
    destruct (Z.ltb_spec 0 (lh_n (ls_log s))); rewrite H4; simpl; split_and!; auto; lia.
  - apply bind_inv in H2 as ([] & c4 & s4 & H4 & H2). injection H4 as <- <-. injection H2 as <- <- <-.
    bfalse (lg_outstanding (ls_log s) =? 1). injection H as <- <-. simpl. done.
Qed.

Lemma log_write_log b c s c' s' : log_write b c s = Ok tt c' s' ->
  lh_n (ls_log s) < LOGSIZE /\ same_but_entries (ls_log s) (ls_log s') /\
  (lh_n (ls_log s') = lh_n (ls_log s) \/ lh_n (ls_log s') = lh_n (ls_log s) + 1).
Proof.
  unfold log_write. intros (? & c1 & s1 & H1 & H)%bind_inv. apply (keeps_acquire (fun s => s)) in H1. subst s1.
  rewrite bind_gets, !Z.geb_leb in H. destruct (Z.leb_spec LOGSIZE (lh_n (ls_log s))) as [|Hlt]; [done|].
  destruct (_ <=? _); [done|]. cbn [orb] in H. case_match; [done|].
  apply bind_inv in H as (bn & c2 & s2 & H2 & H). apply keeps_bio in H2. rewrite bind_modify in H.
  apply bind_inv in H as ([] & c3 & s3 & H3 & H). apply (keeps_release (fun s => s)) in H. subst s'.
  split; [lia|]. unfold when in H3. destruct (Z.of_nat _ =? _).
  - apply bind_inv in H3 as ([] & c4 & s4 & H4 & H3). apply keeps_bio in H4. injection H3 as <- <-. simpl in *.
    rewrite H4. simpl. rewrite H2. unfold same_but_entries. simpl. rewrite length_insert. split; [done|by right].
  - injection H3 as <- <-. simpl. rewrite H2. unfold same_but_entries. simpl. rewrite length_insert. split; [done|by left].
Qed.

(** Code that does not panic with a given message. *)
Section nopanic.
Context {T : Type} (msg : string).

Definition avoids {A} (m : M T A) : Prop := forall c s, m c s <> Panic msg.

Lemma avoids_bind {A B} (m : M T A) (k : A -> M T B) : avoids m -> (forall a, avoids (k a)) -> avoids (m ≫= k).
Proof. intros Hm Hk c s. unfold mbind, M_bind. specialize (Hm c s).
  destruct (m c s); try done; [apply Hk|congruence].
Qed.

Lemma avoids_ret {A} (a : A) : avoids (mret a).
Proof. done. Qed.

Lemma avoids_panic {A} msg' : msg' <> msg -> avoids (panic (A := A) msg').
Proof. intros H c s. unfold panic. congruence. Qed.

Lemma avoids_acquire lk : "acquire" <> msg -> avoids (acquire lk).
Proof.
  intros H. unfold acquire. apply avoids_bind; [done|]. intros _. apply avoids_bind; [done|]. intros c.
  case_match; [by apply avoids_panic|]. by case_match.
Qed.

Lemma avoids_release lk :
  "release" <> msg -> "pop_off - interruptible" <> msg -> "pop_off" <> msg -> avoids (release lk).
Proof.
  intros H1 H2 H3. unfold release, pop_off. apply avoids_bind; [done|]. intros c.
  case_match; [by apply avoids_panic|]. apply avoids_bind; [done|]. intros _. apply avoids_bind; [done|]. intros _.
  apply avoids_bind; [done|]. intros c'. repeat (case_match; [by apply avoids_panic|]).
  apply avoids_bind; [done|]. intros _. apply avoids_bind; [done|]. intros c''. by case_match.
Qed.
End nopanic.

Lemma avoids_bio {A} msg (m : M bcache A) : avoids msg m -> avoids msg (bio m).
Proof. intros H c s. unfold bio, lift. specialize (H c (lens_get log_bio s)). destruct (m c _); try done. congruence. Qed.

Lemma avoids_bpin b msg : "acquire" <> msg -> "release" <> msg -> "pop_off - interruptible" <> msg -> "pop_off" <> msg ->
  avoids msg (bpin b).
Proof.
  intros. unfold bpin. apply avoids_bind; [by apply avoids_acquire|]. intros _. apply avoids_bind; [done|]. intros _.
  by apply avoids_release.
Qed.

(** Any number of file system operations, each between [begin_op] and
    [end_op], whose calls interleave in any order.  [sp_used] records for the
    active operations how many blocks each has added to the log. *)
Module Space.

Record state : Type := mkState { sp_core : core; sp_st : logst; sp_used : gmap nat Z }.

Inductive step : state -> state -> Prop :=
| sp_begin c s us o c' s' :
    us !! o = None -> begin_op c s = Ok tt c' s' ->
    step (mkState c s us) (mkState c' s' (<[o := 0]> us))
| sp_write c s us o u b c' s' :
    us !! o = Some u -> u < MAXOPBLOCKS -> log_write b c s = Ok tt c' s' ->
    step (mkState c s us) (mkState c' s' (<[o := u + (lh_n (ls_log s') - lh_n (ls_log s))]> us))
| sp_end c s us o u c' s' :
    us !! o = Some u -> end_op c s = Ok tt c' s' ->
    step (mkState c s us) (mkState c' s' (delete o us))
| sp_other c s us c' b' :
    (* everything else: other cores, reads and releases of buffers *)
    step (mkState c s us) (mkState c' (mkLogst (ls_log s) b') us).

Definition initial (st : state) : Prop :=
  lh_n (ls_log (sp_st st)) = 0 /\ lg_outstanding (ls_log (sp_st st)) = 0 /\
  lg_committing (ls_log (sp_st st)) = 0 /\ sp_used st = ∅.

(** The blocks the active operations may still add. *)
Definition pending (us : gmap nat Z) : Z := map_fold (fun _ u acc => (MAXOPBLOCKS - u) + acc) 0 us.

Definition inv (st : state) : Prop :=
  let l := ls_log (sp_st st) in
  0 <= lh_n l /\ lg_outstanding l = Z.of_nat (size (sp_used st)) /\
  (forall o u, sp_used st !! o = Some u -> 0 <= u <= MAXOPBLOCKS) /\
  lh_n l + pending (sp_used st) <= LOGSIZE.

Lemma pending_insert us o u : us !! o = None -> pending (<[o := u]> us) = MAXOPBLOCKS - u + pending us.
Proof. intros H. unfold pending. rewrite map_fold_insert_L; [done| |done]. intros. lia. Qed.

Lemma pending_delete us o u : us !! o = Some u -> pending us = MAXOPBLOCKS - u + pending (delete o us).
Proof. intros H. rewrite <- (pending_insert (delete o us) o u), insert_delete_id by (done || apply lookup_delete_eq). done. Qed.

Lemma pending_bounds us :
  (forall o u, us !! o = Some u -> 0 <= u <= MAXOPBLOCKS) -> 0 <= pending us <= Z.of_nat (size us) * MAXOPBLOCKS.
Proof.
  unfold MAXOPBLOCKS. induction us as [|o u us Hn IH] using map_ind; intros H.
  - rewrite map_size_empty. unfold pending. rewrite map_fold_empty. lia.
  - rewrite pending_insert, map_size_insert_None by done. unfold MAXOPBLOCKS.
    pose proof (H o u) as Hu. rewrite lookup_insert_eq in Hu. specialize (Hu eq_refl).
    assert (0 <= pending us <= Z.of_nat (size us) * 10); [|lia]. apply IH. intros o' u' Hu'. apply (H o').
    rewrite lookup_insert_ne; [done|]. congruence.
Qed.

Lemma space_step st st' : inv st -> step st st' -> inv st'.
Proof.
  intros (Hn & Hout & Hu & Hp) Hs. destruct Hs as [c s us o c' s' Ho Hb|c s us o u b c' s' Ho Hlt Hw|c s us o u c' s' Ho He|];
    simpl in *; [| | |done].
  - apply begin_op_log in Hb as (_ & Hle & E). unfold inv. simpl. rewrite E. simpl.
    pose proof (pending_bounds us Hu) as Hpb. rewrite pending_insert, map_size_insert_None by done.
    unfold MAXOPBLOCKS in *. split_and!; [lia|lia| |lia].
    intros o' u'. rewrite lookup_insert. case_decide; [intros [= <-]; lia|apply Hu].
  - apply log_write_log in Hw as (_ & (_ & _ & E & _) & Hn'). unfold inv. simpl. rewrite E.
    pose proof (Hu _ _ Ho) as Huo. rewrite (pending_delete us o u Ho) in Hp.
    rewrite map_size_insert_Some by eauto. rewrite <- insert_delete_eq, pending_insert by apply lookup_delete_eq.
    unfold MAXOPBLOCKS in *. split_and!; [lia|done| |lia].
    intros o' u'. rewrite lookup_insert. case_decide; [intros [= <-]; lia|].
    rewrite lookup_delete_ne by done. apply Hu.
  - apply end_op_log in He as (_ & _ & E1 & E2 & _); [|done]. unfold inv. simpl. rewrite E1, E2.
    rewrite (pending_delete us o u Ho) in Hp. pose proof (Hu _ _ Ho) as Huo.
    rewrite map_size_delete_Some by eauto.
    assert (0 < size us)%nat. { destruct (size us) eqn:E; [|lia]. apply map_size_empty_iff in E. subst. done. }
    split_and!; [case_match; lia|lia| |case_match; unfold MAXOPBLOCKS in *; lia].
    intros o' u' [_ Ho']%lookup_delete_Some. by eapply Hu.
Qed.

Lemma space_reachable st st' : initial st -> rtc step st st' -> inv st'.
Proof.
  intros (H1 & H2 & H3 & H4) Hr. assert (inv st) as Hi.
  { unfold inv. rewrite H1, H2, H4. split_and!; [lia|done|done|done]. }
  revert Hi. clear -Hr. induction Hr; eauto using space_step.
Qed.

(** C24: The log never overflows.  In every reachable state at most LOGSIZE blocks
    are logged; and as long as the log area on disk has room for the header
    and LOGSIZE blocks, [log_write] by an operation that has added fewer than
    MAXOPBLOCKS blocks does not panic with [too big a transaction]. *)
Theorem log_space st st' :
  initial st -> rtc step st st' ->
  0 <= lh_n (ls_log (sp_st st')) <= LOGSIZE /\
  (forall o u b, sp_used st' !! o = Some u -> u < MAXOPBLOCKS -> LOGSIZE < lg_size (ls_log (sp_st st')) ->
     log_write b (sp_core st') (sp_st st') <> Panic "too big a transaction").
Proof.
  intros Hi Hr. destruct (space_reachable _ _ Hi Hr) as (Hn & Hout & Hu & Hp).
  pose proof (pending_bounds _ Hu) as Hpb. split; [lia|]. intros o u b Ho Hlt Hsz.
  pose proof (pending_delete _ _ _ Ho) as Hd.
  assert (0 <= pending (delete o (sp_used st'))) as Hd0.
  { apply pending_bounds. intros o' u' [_ Ho']%lookup_delete_Some. by eapply Hu. }
  unfold log_write, mbind at 1, M_bind at 1.
  destruct (acquire LkLog (sp_core st') (sp_st st')) as [[] c1 s1|msg| | | |] eqn:E; try done.
  2:{ pose proof (avoids_acquire (T := logst) "too big a transaction" LkLog) as Ha. rewrite <- E. by apply Ha. }
  apply (keeps_acquire (fun s => s)) in E. subst s1. rewrite bind_gets, !Z.geb_leb.
  destruct (Z.leb_spec LOGSIZE (lh_n (ls_log (sp_st st')))) as [|Hlt']; [lia|].
  destruct (Z.leb_spec (lg_size (ls_log (sp_st st')) - 1) (lh_n (ls_log (sp_st st')))) as [|Hlt'']; [lia|]. cbn [orb].
  case_match; [done|]. match goal with |- ?m _ _ <> _ => assert (avoids "too big a transaction" m) as Ha; [|by apply Ha] end.
  apply avoids_bind; [by apply avoids_bio|]. intros bn. apply avoids_bind; [done|]. intros _.
  apply avoids_bind; [|intros _; by apply avoids_release]. unfold when. case_match; [|done].
  apply avoids_bind; [|done]. by apply avoids_bio, avoids_bpin.
Qed.
End Space.

(** ** A concrete transaction *)

Definition ex_proc : curproc := mkCurproc 0 1 0 0 0 0.
Definition ex_lcore : core := mkCore 0 SSTATUS_SIE 0 1 (Some ex_proc) {[ LkLog := mkSpinlock 0 "log" None ]} [] ∅.
(** The log of the file system that mkfs makes: blocks 2 to 31. *)
Definition ex_log (outstanding : Z) : log := mkLog 2 30 outstanding 0 1 0 (repeat 0 30).
Definition ex_data : list Z := repeat 7 1024.

Lemma zero_blk_ok : blk_ok zero_block.
Proof. split; [done|]. apply Forall_forall. intros x Hx%list_elem_of_In%repeat_spec. subst. done. Qed.

Lemma disk0_read b : disk_read (mkDisk ∅ []) b = zero_block.
Proof. unfold disk_read. simpl. by rewrite lookup_empty. Qed.

(** Writing 7s to block 100 in a transaction, from a newly made cache on. *)
Lemma ex_ready : exists c s f g,
  bio_core c /\ ready 1 s f g (mkDisk ∅ []) /\ lh_n (ls_log s) = 1 /\ lg_start (ls_log s) = 2 /\
  lg_size (ls_log s) = 30 /\ hdr_n (disk_read (mkDisk ∅ []) 2) = 0 /\ g 100 = ex_data.
Proof.
  destruct (binit_ok 1 ex_lcore (mkDisk ∅ [])) as (c & s0 & _ & Hc & _ & Hlk & Ha0); [split_and!; done|done|done| |].
  { intros b. rewrite disk0_read. apply zero_blk_ok. }
  assert (lock_free LkLog c) as Hll by (apply Hlk; [done|done|by exists "log"]).
  assert (blk_ok ex_data) as Hdat.
  { split; [done|]. apply Forall_forall. intros x Hx%list_elem_of_In%repeat_spec. subst. done. }
  destruct (bread_abs 1 [] c s0 _ _ _ 100 Hc Ha0) as (i & s1 & _ & Ho1 & Ha1).
  { apply opened_nil. } { apply not_elem_of_nil. } { done. } { right. exists []. split; [lia|vm_compute; lia]. }
  destruct (store_abs 1 s1 _ _ _ _ i 100 ex_data Ha1 Ho1) as [Ho2 Ha2]; [by left|done|].
  set (s2 := upd_buf i (with_data ex_data) s1) in *.
  destruct (log_write_ok 1 c (mkLogst (ex_log 1) s2) [(i, 100)] _ _ _ i 100 Hc Hll Ha2 Ho2)
    as (s3 & _ & Ho3 & (E1 & E2 & E3 & E4 & E5 & E6) & Hres); try done; [by left|].
  rewrite decide_False in Hres by apply not_elem_of_nil. destruct Hres as (En & Eh & Ha3). simpl in *.
  destruct (brelse_abs 1 c (ls_bio s3) [] _ _ _ i 100 Hc Ha3 Ho3) as (s4 & tr & _ & _ & Ha4).
  { rewrite upd_eq. done. }
  exists c, (mkLogst (set_outstanding 0 (ls_log s3)) s4). eexists _, _. split; [done|].
  split; [|split_and!; [done|done|done| |]].
  - split; [exact Ha4|done| | | |].
    + unfold layout. cbn [ls_log set_outstanding lh_n lg_start lg_size]. rewrite En, E1, E2.
      unfold LOGSIZE, MAXOPBLOCKS. split_and!; try lia. intros t Ht. assert (home (set_outstanding 0 (ls_log s3)) t ∈ [100]) as Hin.
      { rewrite <- Eh. apply (list_elem_of_fmap_2 (home (ls_log s3))). apply elem_of_seqZ. lia. }
      apply list_elem_of_singleton in Hin. lia.
    + change (homes (ls_log (mkLogst (set_outstanding 0 (ls_log s3)) s4))) with (homes (ls_log s3)). rewrite Eh. apply NoDup_singleton.
    + intros b. change (homes (ls_log (mkLogst (set_outstanding 0 (ls_log s3)) s4))) with (homes (ls_log s3)). rewrite Eh.
      unfold homes. simpl. unfold upd. rewrite Z.eqb_refl. destruct (Z.eqb_spec b 100) as [->|Hne].
      * by rewrite decide_True by by left.
      * rewrite decide_False; [done|]. rewrite list_elem_of_singleton. done.
    + change (homes (ls_log (mkLogst (set_outstanding 0 (ls_log s3)) s4))) with (homes (ls_log s3)). rewrite Eh. vm_compute. lia.
  - rewrite disk0_read. by vm_compute.
  - by rewrite upd_eq.
Qed.

Lemma ex_fresh d : (forall b, blk_ok (disk_read d b)) -> exists c s, bio_core c /\ fresh 1 s d 2 30.
Proof.
  intros Hd. destruct (binit_ok 1 ex_lcore d) as (c & s0 & _ & Hc & _ & _ & Ha0); [split_and!; done|done|done|done|].
  exists c, (mkLogst (ex_log 0) s0). by split.
Qed.
Lemma disk0_blk b : blk_ok (disk_read (mkDisk ∅ []) b).
Proof. rewrite disk0_read. apply zero_blk_ok. Qed.

Lemma ex_head_ok : head_ok 2 30 (mkDisk ∅ []).
Proof.
  unfold head_ok. rewrite disk0_read. assert (hdr_n zero_block = 0) as -> by by vm_compute.
  split; [unfold LOGSIZE, MAXOPBLOCKS; lia|]. split; [lia|]. intros t Ht. lia.
Qed.

(** A recovery of the empty disk that stops after its only write. *)
Lemma ex_crash : exists d', crash_step 1 2 30 (mkDisk ∅ []) d' /\ (forall b, blk_ok (disk_read d' b)).
Proof.
  destruct (ex_fresh (mkDisk ∅ []) disk0_blk) as (c & s & Hc & Hf).
  destruct (recover_ok 1 c s (mkDisk ∅ []) 2 30 Hc Hf) as (s' & tr & Hr & _ & Hd & _); [exact ex_head_ok|].
  exists (writes (mkDisk ∅ []) (take 1 (recover_writes 2 (mkDisk ∅ [])))). split.
  - exists c, s, (woke tr c), s', (recover_writes 2 (mkDisk ∅ [])), 1%nat. split_and!; [done|done|done|by rewrite Hd, writes_trace|done].
  - apply writes_blk_ok; [exact disk0_blk|]. apply Forall_take, recover_writes_ok. exact disk0_blk.
Qed.

(** The machine stops before the first write of the commit, and again during
    the recovery that follows. *)
Lemma crash_safety_witness :
  exists c s s' tr, commit c s = Ok tt (woke tr c) s' /\ lh_n (ls_log s) = 1 /\
    disk_read (bc_disk (ls_bio s')) 100 = ex_data /\
    exists d' cr sr sr' tr', crash_step 1 2 30 (mkDisk ∅ []) d' /\ fresh 1 sr d' 2 30 /\
      recover_from_log cr sr = Ok tt (woke tr' cr) sr' /\
      (disk_read (bc_disk (ls_bio sr')) 100 = zero_block \/ disk_read (bc_disk (ls_bio sr')) 100 = ex_data).
Proof.
  destruct ex_ready as (c & s & f & g & Hc & Hr & Hn & Hst & Hsz & H0 & Hg).
  destruct (crash_safety 1 c s f g (mkDisk ∅ []) 2 30 Hc Hr) as (s' & tr & ws & Hrun & _ & _ & Hd & Hcrash);
    [rewrite Hn; lia|exact Hst|exact Hsz|exact H0|].
  exists c, s, s', tr. split; [exact Hrun|]. split; [exact Hn|]. split; [rewrite Hd, Hg; [reflexivity|lia]|].
  destruct ex_crash as (d' & Hcs & Hb). destruct (ex_fresh d' Hb) as (cr & sr & Hcr & Hf).
  destruct (Hcrash 0%nat d' cr sr (rtc_once _ _ Hcs) Hcr Hf) as (sr' & tr' & Hrec & Ho).
  exists d', cr, sr, sr', tr'. split_and!; [exact Hcs|exact Hf|exact Hrec|].
  destruct Ho as [Ho|Ho]; [left; rewrite Ho by lia; apply disk0_read|right; rewrite Ho by lia; exact Hg].
Defined.

(** Three operations begin; the log is empty and has room for 31 blocks. *)
Lemma log_space_witness :
  exists st, rtc Space.step (Space.mkState ex_lcore (mkLogst (mkLog 2 31 0 0 1 0 (repeat 0 30)) (bcache0 (mkDisk ∅ []))) ∅) st /\
    lg_outstanding (ls_log (Space.sp_st st)) = 3 /\ 0 <= lh_n (ls_log (Space.sp_st st)) <= LOGSIZE.
Proof.
  assert (exists st, rtc Space.step (Space.mkState ex_lcore (mkLogst (mkLog 2 31 0 0 1 0 (repeat 0 30)) (bcache0 (mkDisk ∅ []))) ∅) st /\
    lg_outstanding (ls_log (Space.sp_st st)) = 3) as (st & Hr & Ho).
  { eexists. split.
    - eapply rtc_l; [eapply (Space.sp_begin _ _ _ 0); [done|vm_compute; reflexivity]|].
      eapply rtc_l; [eapply (Space.sp_begin _ _ _ 1); [done|vm_compute; reflexivity]|].
      eapply rtc_l; [eapply (Space.sp_begin _ _ _ 2); [done|vm_compute; reflexivity]|]. apply rtc_refl.
    - done. }
  exists st. split; [exact Hr|]. split; [exact Ho|]. eapply (Space.log_space _ st); [|exact Hr]. split_and!; reflexivity.
Defined.

(** ** The log that mkfs makes is one block short

    mkfs reserves LOGSIZE blocks for the log, header included, so a
    transaction can hold LOGSIZE - 1 blocks, while [begin_op] admits three
    operations of MAXOPBLOCKS blocks each.  A longer log alone is no remedy:
    the NBUF = 3 * MAXOPBLOCKS buffers are then all pinned by the transaction
    and the commit finds none for the blocks of the log. *)

Definition ex_slocks : gmap slkid sleeplock :=
  list_to_map ((fun i => (SlBuf i, mkSleeplock 1 "buffer" (cp_pid ex_proc))) <$> seq 0 HEAD).
Definition ex_buf_locks : gmap lockid spinlock :=
  list_to_map ((fun i => (LkSleep (SlBuf i), mkSpinlock 0 "sleep lock" None)) <$> seq 0 HEAD).
Definition ex_lbcore : core :=
  mkCore 0 SSTATUS_SIE 0 1 (Some ex_proc)
    ({[ LkLog := mkSpinlock 0 "log" None; LkBcache := mkSpinlock 0 "bcache" None ]} ∪ ex_buf_locks) [] ex_slocks.
(** Thirty buffers, locked and in use, in the list of [bcache]. *)
Definition ex_bufs : bcache :=
  mkBcache ((fun i => mkBuf 1 0 1 (100 + Z.of_nat i) 1 zero_block) <$> seq 0 HEAD)
    (list_to_map ((fun i => (i, if decide (i = HEAD) then 0%nat else S i)) <$> seq 0 (S HEAD)))
    (list_to_map ((fun i => (i, if decide (i = 0%nat) then HEAD else pred i)) <$> seq 0 (S HEAD))) (mkDisk ∅ []).

Definition three_ops_of_ten : M logst unit :=
  _ ← begin_op;
  _ ← begin_op;
  _ ← begin_op;
  forM (seq 0 30) (fun b => _ ← log_write b; bio (brelse b)).

Lemma log_size_one_short :
  three_ops_of_ten ex_lbcore (mkLogst (mkLog 2 LOGSIZE 0 0 1 0 (repeat 0 30)) ex_bufs) = Panic "too big a transaction" /\
  (_ ← three_ops_of_ten; _ ← end_op; _ ← end_op; end_op) ex_lbcore
    (mkLogst (mkLog 2 (LOGSIZE + 1) 0 0 1 0 (repeat 0 30)) ex_bufs) = Panic "bget: no buffers".
Proof. split; by vm_compute. Qed.
