(* ===== verification/Pipe.v ===== *)
(** * Pipes: kernel/pipe.c

    A pipe occupies a page from [kalloc] and is named by its address.  The
    state is the allocator (with user memory in it) and the pipes.  Reading
    and writing are split where the code sleeps: [pipewrite_loop] and
    [piperead_body] run with the pipe's lock held until the call returns or
    sleeps.  [queue] is the abstract contents of a pipe; the operations are
    shown to append to and remove from it in order, across the wrap-around of
    the 32-bit counters.  [pipealloc] is with the file table. *)

From Stdlib Require Import ZArith Lia.
From stdpp Require Import base gmap list numbers strings relations.
From S2P Require Import Prelude Ring Riscv Core Spinlock Kstring Kalloc Vm VmTree VmUser VmCopy VmExample Sleeplock.
Local Open Scope Z_scope.

Definition PIPESIZE : Z := 512.

Record pipe : Type := mkPipe {
  pi_data : list Z;
  pi_nread : Z;           (* number of bytes read *)
  pi_nwrite : Z;          (* number of bytes written *)
  pi_readopen : Z;        (* read fd is still open *)
  pi_writeopen : Z        (* write fd is still open *)
}.

Record pipest : Type := mkPipest { ps_kmem : kmem; ps_pipes : gmap Z pipe }.

Definition pipe_kmem : lens kmem pipest :=
  mkLens ps_kmem (fun k t => mkPipest k (ps_pipes t))
    (fun s t => eq_refl) (fun t => match t with mkPipest _ _ => eq_refl end) (fun s s' t => eq_refl).

(** ** Operations *)

(** [*pi]; a pipe that was freed is a dangling pointer. *)
Definition get_pipe (pi : Z) : M pipest pipe :=
  s ← get; match ps_pipes s !! pi with Some p => mret p | None => fault "dangling pipe" end.
Definition put_pipe (pi : Z) (p : pipe) : M pipest unit :=
  modify (fun s => mkPipest (ps_kmem s) (<[pi := p]> (ps_pipes s))).

Definition pipeclose (pi writable : Z) : M pipest unit :=
  _ ← acquire (LkPipe pi);
  p ← get_pipe pi;
  _ ← (if negb (writable =? 0)
       then _ ← put_pipe pi (mkPipe (pi_data p) (pi_nread p) (pi_nwrite p) (pi_readopen p) 0);
            wakeup (ChPipeRead pi)
       else _ ← put_pipe pi (mkPipe (pi_data p) (pi_nread p) (pi_nwrite p) 0 (pi_writeopen p));
            wakeup (ChPipeWrite pi));
  p ← get_pipe pi;
  if (pi_readopen p =? 0) && (pi_writeopen p =? 0)
  then _ ← release (LkPipe pi);
       _ ← modify (fun s => mkPipest (ps_kmem s) (delete pi (ps_pipes s)));
       lift pipe_kmem (kfree pi)
  else release (LkPipe pi).

Definition push (ch : Z) (p : pipe) : pipe :=
  mkPipe (<[Z.to_nat (pi_nwrite p mod PIPESIZE) := ch]> (pi_data p)) (pi_nread p) (u32 (pi_nwrite p + 1))
    (pi_readopen p) (pi_writeopen p).
Definition pop (p : pipe) : pipe :=
  mkPipe (pi_data p) (u32 (pi_nread p + 1)) (pi_nwrite p) (pi_readopen p) (pi_writeopen p).
Definition front (p : pipe) : Z := nth (Z.to_nat (pi_nread p mod PIPESIZE)) (pi_data p) 0.

(** The end of [pipewrite]: wakeup(&pi->nread); release(&pi->lock); return i. *)
Definition pipewrite_end (pi i : Z) : M pipest (Z + Z) :=
  _ ← wakeup (ChPipeRead pi);
  _ ← release (LkPipe pi);
  mret (inl i).

(** The while loop of [pipewrite] with the lock held, from [i] on.  [inl r] is
    return r; [inr i] is the call of sleep with the local variable [i].
    [pr->killed] is set by other harts without the pipe's lock, so each turn
    of the loop reads it anew: [kl] is what the turns read. *)
Fixpoint pipewrite_loop (pagetable pi addr n i : Z) (kl : nat -> bool) (fuel : nat) : M pipest (Z + Z) :=
  if i <? n then
    match fuel with
    | O => nofuel
    | S fuel =>
        p ← get_pipe pi;
        if (pi_readopen p =? 0) || kl 0%nat then
          _ ← release (LkPipe pi); mret (inl (-1))
        else if pi_nwrite p =? u32 (pi_nread p + PIPESIZE) then
          _ ← wakeup (ChPipeRead pi);
          _ ← release (LkPipe pi);      (* sleep(&pi->nwrite, &pi->lock) *)
          mret (inr i)
        else
          b ← lift pipe_kmem (copyin pagetable (u64 (addr + i)) 1);
          if b.1 =? -1 then pipewrite_end pi i else
          _ ← put_pipe pi (push (nth 0 b.2 0) p);
          pipewrite_loop pagetable pi addr n (i + 1) (fun t => kl (S t)) fuel
    end
  else pipewrite_end pi i.

(** From the call, or from waking up with the local [i], to the return or the
    next sleep. *)
Definition pipewrite_run (pagetable pi addr n i : Z) (kl : nat -> bool) : M pipest (Z + Z) :=
  _ ← acquire (LkPipe pi);
  pipewrite_loop pagetable pi addr n i kl (Z.to_nat (n - i)).

Definition pipewrite (pi addr n : Z) (kl : nat -> bool) : M pipest Z :=
  pr ← myproc;
  match pr with
  | None => fault "pipewrite: myproc()"
  | Some pr =>
      r ← pipewrite_run (cp_pagetable pr) pi addr n 0 kl;
      match r with inl v => mret v | inr _ => blocked (ChPipeWrite pi) end
  end.

(** The for loop of [piperead]. *)
Fixpoint piperead_loop (pagetable pi addr n i : Z) (fuel : nat) : M pipest Z :=
  if i <? n then
    match fuel with
    | O => nofuel
    | S fuel =>
        p ← get_pipe pi;
        if pi_nread p =? pi_nwrite p then mret i else
        let ch := front p in
        _ ← put_pipe pi (pop p);
        r ← lift pipe_kmem (copyout pagetable (u64 (addr + i)) [ch] 1);
        if r =? -1 then mret i
        else piperead_loop pagetable pi addr n (i + 1) fuel
    end
  else mret i.

(** From the call, or from waking up, to the return or the next sleep ([None]). *)
Definition piperead_run (pagetable pi addr n : Z) (killed : bool) : M pipest (option Z) :=
  _ ← acquire (LkPipe pi);
  p ← get_pipe pi;
  if (pi_nread p =? pi_nwrite p) && negb (pi_writeopen p =? 0) then
    (if killed then _ ← release (LkPipe pi); mret (Some (-1))
     else _ ← release (LkPipe pi); mret None)   (* sleep(&pi->nread, &pi->lock) *)
  else
    i ← piperead_loop pagetable pi addr n 0 (Z.to_nat n);
    _ ← wakeup (ChPipeWrite pi);
    _ ← release (LkPipe pi);
    mret (Some i).

Definition piperead (pi addr n : Z) : M pipest Z :=
  pr ← myproc;
  match pr with
  | None => fault "piperead: myproc()"
  | Some pr =>
      r ← piperead_run (cp_pagetable pr) pi addr n (negb (cp_killed pr =? 0));
      match r with Some v => mret v | None => blocked (ChPipeRead pi) end
  end.

(** ** The contents of a pipe *)

Definition queue (p : pipe) : list Z := rq (2 ^ 32) PIPESIZE (pi_data p) (pi_nread p) (pi_nwrite p).
Definition pipe_ok (p : pipe) : Prop := rq_ok (2 ^ 32) PIPESIZE (pi_data p) (pi_nread p) (pi_nwrite p).

Lemma pipesize_div : (PIPESIZE | 2 ^ 32).
Proof. by exists (2 ^ 23). Qed.

(** Full and empty are recognised by the tests of the code. *)
Lemma full_test p : pipe_ok p ->
  (pi_nwrite p =? u32 (pi_nread p + PIPESIZE)) = (Z.of_nat (length (queue p)) =? PIPESIZE).
Proof. by apply (rq_full (2 ^ 32) PIPESIZE). Qed.

Lemma empty_test p : pipe_ok p -> (pi_nread p =? pi_nwrite p) = (Z.of_nat (length (queue p)) =? 0).
Proof. by apply (rq_empty (2 ^ 32) PIPESIZE). Qed.

Lemma queue_push p ch :
  pipe_ok p -> Z.of_nat (length (queue p)) <> PIPESIZE ->
  pipe_ok (push ch p) /\ queue (push ch p) = queue p ++ [ch].
Proof. by apply (rq_push (2 ^ 32) PIPESIZE ltac:(done) ltac:(done) pipesize_div). Qed.

Lemma queue_pop p ch q :
  pipe_ok p -> queue p = ch :: q -> pipe_ok (pop p) /\ front p = ch /\ queue (pop p) = q.
Proof. by apply (rq_pop (2 ^ 32) PIPESIZE ltac:(done) ltac:(done) pipesize_div). Qed.

(** ** The operations on the queue *)

Section refine.
Context (root : Z) (T : tree) (l : list Z).
Implicit Types (c : core) (s : pipest) (p : pipe).

(** Pipe [pi] of [s] holds the bytes [q]; the caller's page table is well formed. *)
Definition pipe_at (pi : Z) (s : pipest) (p : pipe) : Prop :=
  ps_pipes s !! pi = Some p /\ pipe_ok p /\ Forall is_byte (queue p) /\ vm_inv (ps_kmem s) l T root.

Definition with_pipe (pi : Z) (p : pipe) s : pipest := mkPipest (ps_kmem s) (<[pi := p]> (ps_pipes s)).

(** The user's byte [va]. *)
Definition user (s : pipest) (va : Z) : option Z := ubyte (km_mem (ps_kmem s)) T va.

Lemma get_pipe_ok pi p c s : ps_pipes s !! pi = Some p -> get_pipe pi c s = Ok p c s.
Proof. intros H. unfold get_pipe. rewrite bind_get, H. done. Qed.

Lemma ubyte_byte m va b : ubyte m T va = Some b -> is_byte b.
Proof.
  unfold ubyte. destruct (uaddr m T va) as [z|]; [|done]. intros [= <-].
  apply rd_range.
Qed.

Lemma copyin_byte va c s :
  vm_inv (ps_kmem s) l T root -> 0 <= va ->
  lift pipe_kmem (copyin root va 1) c s = Ok (match user s va with Some b => (0, [b]) | None => (-1, []) end) c s.
Proof.
  intros Hvm Hva. erewrite lift_ok.
  2:{ unfold copyin. rewrite (copyin_loop_ok root c _ l T) by (done || lia). reflexivity. }
  rewrite lens_set_get. f_equal. unfold user, copied. simpl. by destruct (ubyte _ _ _).
Qed.

Lemma pipe_at_push pi s p ch :
  pipe_at pi s p -> is_byte ch -> Z.of_nat (length (queue p)) <> PIPESIZE ->
  pipe_at pi (with_pipe pi (push ch p) s) (push ch p) /\ queue (push ch p) = queue p ++ [ch].
Proof.
  intros (Hp & Hok & Hb & Hvm) Hch Hf. destruct (queue_push p ch Hok Hf) as [Hok' Hq].
  split; [|done]. split_and!; [by simpl; rewrite lookup_insert_eq|done| |done].
  rewrite Hq. apply Forall_app. split; [done|]. by apply Forall_cons.
Qed.

(** What one stretch of [pipewrite] did: it appended [bs], bytes of the user's
    buffer from index [i] on, and then returned or went to sleep. *)
Record write_post (pi addr n i : Z) (kl : nat -> bool) s p (r : Z + Z) (tr : list chan) (s' : pipest) (p' : pipe)
    (bs : list Z) : Prop := mkWritePost {
  wp_state : s' = with_pipe pi p' s;
  wp_at : pipe_at pi s' p';
  wp_ends : pi_readopen p' = pi_readopen p /\ pi_writeopen p' = pi_writeopen p;
  wp_queue : queue p' = queue p ++ bs;
  wp_user : forall j b, bs !! j = Some b -> user s (u64 (addr + i + Z.of_nat j)) = Some b;
  wp_result :
    let k := i + Z.of_nat (length bs) in
    (r = inr k /\ k < n /\ length (queue p') = 512%nat /\ pi_readopen p <> 0 /\ tr = [ChPipeRead pi]) \/
    (r = inl n /\ k = n /\ tr = [ChPipeRead pi]) \/
    (r = inl k /\ k < n /\ user s (u64 (addr + k)) = None /\ tr = [ChPipeRead pi]) \/
    (r = inl (-1) /\ k < n /\ (pi_readopen p = 0 \/ kl (length bs) = true) /\ tr = [])
}.

Lemma with_pipe_same pi p s : ps_pipes s !! pi = Some p -> with_pipe pi p s = s.
Proof. intros H. destruct s. unfold with_pipe. simpl in *. by rewrite insert_id. Qed.

Lemma pipewrite_end_ok pi i c s :
  core_wf c -> lock_free (LkPipe pi) c ->
  pipewrite_end pi i (hold (LkPipe pi) c) s = Ok (inl i) (woke [ChPipeRead pi] c) s.
Proof.
  intros Hwf Hf. unfold pipewrite_end, wakeup, modifyc. unfold mbind at 1, M_bind at 1.
  rewrite add_woken_hold. erewrite bind_ok by (apply release_hold; done). by rewrite add_woken_woke.
Qed.

Lemma pipewrite_loop_ok pi addr n c s :
  core_wf c -> lock_free (LkPipe pi) c -> forall fuel kl i p s,
  i <= n -> (Z.to_nat (n - i) <= fuel)%nat -> pipe_at pi s p ->
  exists r tr s' p' bs,
    pipewrite_loop root pi addr n i kl fuel (hold (LkPipe pi) c) s = Ok r (woke tr c) s' /\
    write_post pi addr n i kl s p r tr s' p' bs.
Proof.
  intros Hwf Hf. clear s.
  assert (Hnil : forall s p, pipe_at pi s p -> s = with_pipe pi p s) by (intros s p Hp; symmetry; apply with_pipe_same, Hp).
  induction fuel as [|fuel IH]; intros kl i p s Hi Hfuel Hat; cbn [pipewrite_loop];
    (destruct (Z.ltb_spec i n) as [Hlt|Hge]; [try lia|]).
  1,3: eexists (inl i), _, s, p, []; rewrite pipewrite_end_ok by done; split; [done|];
    split; rewrite ?app_nil_r; auto; [done|simpl; right; left; split_and!; [f_equal; lia|lia|done]].
  destruct Hat as (Hp & Hok & Hb & Hvm). pose proof (conj Hp (conj Hok (conj Hb Hvm)) : pipe_at pi s p) as Hat.
  erewrite bind_ok by by apply get_pipe_ok.
  destruct ((pi_readopen p =? 0) || kl 0%nat) eqn:Ekl.
  { eexists (inl (-1)), [], s, p, []. erewrite bind_ok by (by apply release_hold). rewrite woke_nil. split; [done|].
    split; rewrite ?app_nil_r; auto; [done|]. right; right; right. split_and!; try done; [simpl; lia|].
    apply orb_true_iff in Ekl as [?%Z.eqb_eq|?]; auto. }
  apply orb_false_iff in Ekl as [Hro%Z.eqb_neq _]. rewrite full_test by done.
  destruct (Z.eqb_spec (Z.of_nat (length (queue p))) PIPESIZE) as [Hfull|Hfull].
  { eexists (inr i), [ChPipeRead pi], s, p, []. unfold wakeup, modifyc. unfold mbind at 1, M_bind at 1.
    rewrite add_woken_hold. erewrite bind_ok by (by apply release_hold). rewrite add_woken_woke. split; [done|].
    split; rewrite ?app_nil_r; auto; [done|]. left. unfold PIPESIZE in Hfull. split_and!; simpl; try done; f_equal; lia. }
  pose proof (u64_range (addr + i)).
  erewrite bind_ok by (apply copyin_byte; [done|lia]).
  destruct (user s (u64 (addr + i))) as [ch|] eqn:Eu.
  2:{ eexists (inl i), _, s, p, []. change ((-1, [] : list Z).1 =? -1) with true. cbv iota. rewrite pipewrite_end_ok by done. split; [done|].
      split; rewrite ?app_nil_r; auto; [done|]. right; right; left. simpl. rewrite Z.add_0_r. done. }
  change ((0, [ch]).1 =? -1) with false. cbv iota. change (nth 0 (0, [ch]).2 0) with ch. unfold put_pipe. rewrite bind_modify.
  destruct (pipe_at_push pi s p ch) as [Hat' Hq]; [done|by eapply ubyte_byte|done|].
  destruct (IH (fun t => kl (S t)) (i + 1) (push ch p) (with_pipe pi (push ch p) s)) as (r & tr & s' & p' & bs & Hr & Hpost); [lia|lia|done|].
  exists r, tr, s', p', (ch :: bs). split; [exact Hr|].
  destruct Hpost as [E1 E2 E3 E4 E5 E6]. split; [|done|done| | |].
  - rewrite E1. unfold with_pipe. simpl. by rewrite insert_insert_eq.
  - rewrite E4, Hq, <- app_assoc. done.
  - intros [|j] b; simpl; [rewrite Z.add_0_r; congruence|]. intros Hj. apply E5 in Hj. revert Hj.
    unfold user. simpl. replace (addr + (i + 1) + Z.of_nat j) with (addr + i + Z.of_nat (S j)) by lia. done.
  - simpl in *. replace (i + Z.of_nat (S (length bs))) with (i + 1 + Z.of_nat (length bs)) by lia. exact E6.
Qed.

(** ** Whole stretches *)

Lemma pipewrite_run_ok pi addr n i kl c s p :
  core_wf c -> lock_free (LkPipe pi) c -> i <= n -> pipe_at pi s p ->
  exists r tr s' p' bs,
    pipewrite_run root pi addr n i kl c s = Ok r (woke tr c) s' /\ write_post pi addr n i kl s p r tr s' p' bs.
Proof.
  intros Hwf Hf Hi Hat. unfold pipewrite_run. erewrite bind_ok by by apply acquire_free.
  by apply pipewrite_loop_ok.
Qed.

(** What the loop of [piperead] did from index [i] on: it removed [bs] from the
    front and stored [k - i] bytes of it in the user's buffer.  The byte whose
    copy fails is removed but not stored. *)
Record read_post (pi addr n i : Z) s p (k : Z) (s' : pipest) (p' : pipe) (bs : list Z) : Prop := mkReadPost {
  rp_pipes : ps_pipes s' = <[pi := p']> (ps_pipes s);
  rp_at : pipe_at pi s' p';
  rp_space : uspace_ok (ps_kmem s') l T;
  rp_ends : pi_readopen p' = pi_readopen p /\ pi_writeopen p' = pi_writeopen p;
  rp_queue : queue p = bs ++ queue p';
  rp_user : forall va, 0 <= va -> user s' va =
    if (addr + i <=? va) && (va <? addr + k) then bs !! Z.to_nat (va - (addr + i)) else user s va;
  rp_result :
    (k = i + Z.of_nat (length bs) /\ k <= n /\ (k = n \/ queue p' = [])) \/
    (k + 1 = i + Z.of_nat (length bs) /\ i <= k < n /\ user s (addr + k) = None)
}.

Lemma uspace_ok_copy (k k' : kmem) :
  km_end k' = km_end k -> (forall va, pt_get (km_mem k') T va = pt_get (km_mem k) T va) ->
  uspace_ok k l T -> uspace_ok k' l T.
Proof.
  intros He Hg Hus. apply (uspace_ok_same k (km_mem k')) in Hus as [H1 H2]; [|done].
  split; [|exact H2]. intros va pa Hva Hpa. specialize (H1 va pa Hva Hpa). unfold frame_ok in *. simpl in H1.
  by rewrite He.
Qed.

Lemma copyout_byte va ch c s p pi :
  pipe_at pi s p -> uspace_ok (ps_kmem s) l T -> 0 <= va -> is_byte ch ->
  exists r s', lift pipe_kmem (copyout root va [ch] 1) c s = Ok r c s' /\
    pipe_at pi s' p /\ uspace_ok (ps_kmem s') l T /\ ps_pipes s' = ps_pipes s /\
    match user s va with
    | None => r = -1 /\ forall a, 0 <= a -> user s' a = user s a
    | Some _ => r = 0 /\ forall a, 0 <= a -> user s' a = if a =? va then Some ch else user s a
    end.
Proof.
  intros (Hp & Hok & Hb & Hvm) Hus Hva Hch.
  destruct (copyout_loop_ok root c 1 (ps_kmem s) l T va [ch]) as (r & km & k & Hr & Hi & He & Hg & _ & Hu & Hend);
    [done|done|done|done|by apply Forall_cons|].
  exists r, (mkPipest km (ps_pipes s)). split; [by erewrite lift_ok by (by apply Hr)|].
  split; [by split_and!|]. split; [by eapply uspace_ok_copy|]. split; [done|]. unfold user. cbn [ps_kmem].
  cbn [length] in *. change (Z.of_nat 1) with 1 in *.
  destruct (ubyte (km_mem (ps_kmem s)) T va) eqn:Eu; destruct Hend as [[-> ->]|(-> & Hk & Hn)];
    try (exfalso; replace k with 0 in Hn by lia; rewrite Z.add_0_r in Hn; congruence).
  - split; [done|]. intros a Ha. rewrite Hu by done. destruct (Z.eqb_spec a va) as [->|Hne].
    + btrue (va <=? va). btrue (va <? va + 1). by rewrite Z.sub_diag.
    + by bdestruct_all.
  - exfalso. specialize (Hu va Hva). revert Hu. btrue (va <=? va). btrue (va <? va + 1). rewrite Z.sub_diag.
    unfold ubyte, uaddr, upage in *. rewrite Hg. destruct (va <? MAXVA); [|done]. destruct (pt_get _ _ _); [|done].
    by destruct (_ && _).
  - split; [done|]. intros a Ha. rewrite Hu by done. replace k with 0 by lia. by bdestruct_all.
Qed.

Lemma pipe_at_pop pi s p ch q :
  pipe_at pi s p -> queue p = ch :: q ->
  pipe_at pi (with_pipe pi (pop p) s) (pop p) /\ front p = ch /\ queue (pop p) = q /\ is_byte ch.
Proof.
  intros (Hp & Hok & Hb & Hvm) Hq. destruct (queue_pop p ch q Hok Hq) as (Hok' & Hf & Hq').
  rewrite Hq in Hb. inversion Hb; subst.
  split; [|done]. split_and!; [by simpl; rewrite lookup_insert_eq|done|done|done].
Qed.

Lemma piperead_loop_ok pi addr n c : forall fuel i p s,
  0 <= addr -> 0 <= i <= n -> addr + n <= 2 ^ 64 -> (Z.to_nat (n - i) <= fuel)%nat ->
  pipe_at pi s p -> uspace_ok (ps_kmem s) l T ->
  exists k s' p' bs,
    piperead_loop root pi addr n i fuel c s = Ok k c s' /\ read_post pi addr n i s p k s' p' bs.
Proof.
  assert (Hnil : forall i p s, pipe_at pi s p -> uspace_ok (ps_kmem s) l T ->
    i <= n -> i = n \/ queue p = [] -> read_post pi addr n i s p i s p []).
  { intros i p s Hat Hus Hi Hend. split; auto; try done.
    - symmetry. apply insert_id, Hat.
    - intros va Hva. by bdestruct_all.
    - left. simpl. split_and!; [lia|done|done]. }
  induction fuel as [|fuel IH]; intros i p s Ha Hi Hw Hfuel Hat Hus; cbn [piperead_loop];
    (destruct (Z.ltb_spec i n) as [Hlt|Hge]; [try lia|exists i, s, p, []; split; [done|apply Hnil; auto; lia]]).
  erewrite bind_ok by (apply get_pipe_ok, Hat). rewrite empty_test by apply Hat.
  destruct (queue p) as [|ch q] eqn:Eq; [exists i, s, p, []; split; [done|apply Hnil; auto; lia]|].
  cbn [length]. bfalse (Z.of_nat (S (length q)) =? 0).
  destruct (pipe_at_pop pi s p ch q Hat Eq) as (Hat1 & Hfr & Hq1 & Hch).
  unfold put_pipe. rewrite bind_modify, Hfr.
  rewrite (u64_small (addr + i)) by lia.
  destruct (copyout_byte (addr + i) ch c (with_pipe pi (pop p) s) (pop p) pi) as (r & s1 & Hr & Hat2 & Hus2 & Hps & Hres);
    [done|done|lia|done|].
  erewrite bind_ok by exact Hr. unfold user in Hres. cbn [with_pipe ps_kmem] in Hres.
  destruct (ubyte (km_mem (ps_kmem s)) T (addr + i)) as [old|] eqn:Eu; destruct Hres as [-> Hu].
  - change (0 =? -1) with false. cbv iota.
    destruct (IH (i + 1) (pop p) s1) as (k & s' & p' & bs & Hrun & [E1 E2 E3 E4 E5 E6 E7]); [lia|lia|lia|lia|done|done|].
    exists k, s', p', (ch :: bs). split; [exact Hrun|].
    assert (Hk : i + 1 <= k) by lia.
    split; auto.
    + rewrite E1, Hps. simpl. by rewrite insert_insert_eq.
    + by rewrite Eq, <- Hq1, E5.
    + intros va Hva. rewrite E6 by done. unfold user. rewrite Hu by done.
      destruct (Z.eqb_spec va (addr + i)) as [->|Hne].
      * bfalse (addr + (i + 1) <=? addr + i). btrue (addr + i <=? addr + i). btrue (addr + i <? addr + k).
        by rewrite Z.sub_diag.
      * bdestruct_all; try done. by replace (Z.to_nat (va - (addr + i))) with (S (Z.to_nat (va - (addr + (i + 1))))) by lia.
    + cbn [length]. destruct E7 as [(? & ? & ?)|(? & ? & Hn)]; [left; split_and!; [lia|done|done]|right].
      split_and!; [lia|lia|lia|]. revert Hn. unfold user. rewrite Hu by lia. by bfalse (addr + k =? addr + i).
  - exists i, s1, (pop p), [ch]. split; [done|]. split; auto; [by rewrite Eq, Hq1| |].
    + intros va Hva. unfold user. rewrite Hu by done. by bdestruct_all.
    + right. simpl. split_and!; [lia|done|done|done].
Qed.

(** The whole stretch of a reader: it returns -1, goes to sleep, or has read. *)
Lemma piperead_run_ok pi addr n killed c s p :
  core_wf c -> lock_free (LkPipe pi) c -> 0 <= addr -> 0 <= n -> addr + n <= 2 ^ 64 ->
  pipe_at pi s p -> uspace_ok (ps_kmem s) l T ->
  (queue p = [] /\ pi_writeopen p <> 0 /\
   piperead_run root pi addr n killed c s = Ok (if killed then Some (-1) else None) c s) \/
  ((queue p <> [] \/ pi_writeopen p = 0) /\ exists k s' p' bs,
   piperead_run root pi addr n killed c s = Ok (Some k) (woke [ChPipeWrite pi] c) s' /\
   read_post pi addr n 0 s p k s' p' bs).
Proof.
  intros Hwf Hf Ha Hn Hw Hat Hus. unfold piperead_run. erewrite bind_ok by by apply acquire_free.
  erewrite bind_ok by (apply get_pipe_ok, Hat). rewrite empty_test by apply Hat.
  destruct (Z.eqb_spec (Z.of_nat (length (queue p))) 0) as [E|E];
    [destruct (Z.eqb_spec (pi_writeopen p) 0) as [E0|E0]|]; cbn [andb negb].
  2:{ left. split; [by apply nil_length_inv; lia|]. split; [done|].
      destruct killed; by erewrite bind_ok by (by apply release_hold). }
  all: right; split; [first [by right|left; intros Hq; rewrite Hq in E; done]|].
  all: destruct (piperead_loop_ok pi addr n (hold (LkPipe pi) c) (Z.to_nat n) 0 p s)
    as (k & s' & p' & bs & Hr & Hpost); [lia|lia|lia|lia|done|done|].
  all: exists k, s', p', bs; split; [|exact Hpost]; erewrite bind_ok by exact Hr;
    unfold wakeup, modifyc; unfold mbind at 1, M_bind at 1; rewrite add_woken_hold;
    erewrite bind_ok by (apply release_hold; done); by rewrite add_woken_woke.
Qed.
End refine.

(** Closing one end while the other stays open. *)
Lemma pipeclose_ok pi writable c s p :
  core_wf c -> lock_free (LkPipe pi) c -> ps_pipes s !! pi = Some p ->
  (if writable =? 0 then pi_writeopen p else pi_readopen p) <> 0 ->
  pipeclose pi writable c s =
    Ok tt (woke [if writable =? 0 then ChPipeWrite pi else ChPipeRead pi] c)
      (with_pipe pi (if writable =? 0
                     then mkPipe (pi_data p) (pi_nread p) (pi_nwrite p) 0 (pi_writeopen p)
                     else mkPipe (pi_data p) (pi_nread p) (pi_nwrite p) (pi_readopen p) 0) s).
Proof.
  intros Hwf Hf Hp Hopen. unfold pipeclose. erewrite bind_ok by by apply acquire_free.
  erewrite bind_ok by by apply get_pipe_ok.
  destruct (Z.eqb_spec writable 0) as [E|E]; cbn [negb]; unfold put_pipe; rewrite bind_assoc, bind_modify;
    unfold wakeup, modifyc; unfold mbind at 1, M_bind at 1; rewrite add_woken_hold;
    (erewrite bind_ok by (apply get_pipe_ok; apply lookup_insert_eq)); cbn [pi_readopen pi_writeopen];
    [bfalse (pi_writeopen p =? 0)|bfalse (pi_readopen p =? 0)]; rewrite ?andb_false_r; cbn [andb];
    rewrite release_hold by done; by rewrite add_woken_woke.
Qed.

(** ** Any number of readers and writers

    Harts run stretches of reads and writes of one pipe, close its ends and
    change the rest of memory, in any order.  [py_w] collects the bytes that
    were taken from writers' memory, [py_r] the stretches of the readers: the
    bytes then found in the reader's buffer, and whether the stretch stopped
    at an address of the buffer that the user cannot access.
    [py_rs] and [py_ws] count the sleeping readers and writers. *)
Module Fifo.
Record read : Type := mkRead { rd_bytes : list Z; rd_fault : bool }.

Record state : Type := mkState {
  py_st : pipest;
  py_w : list Z;
  py_r : list read;
  py_rs : nat;
  py_ws : nat
}.

(** A wakeup of [ch] among [tr] releases every sleeper on it. *)
Definition awaken (ch : chan) (tr : list chan) (k : nat) : nat := if decide (ch ∈ tr) then 0%nat else k.

Definition started (pi : Z) (c : core) : Prop := core_wf c /\ lock_free (LkPipe pi) c /\ c_woken c = [].

(** A call that read [k] of [n] bytes and cannot store the next one. *)
Definition faulted (km : kmem) (T : tree) (addr n : Z) (r : option Z) : bool :=
  match r with
  | Some k => bool_decide (0 <= k < n /\ ubyte (km_mem km) T (addr + k) = None)
  | None => false
  end.

(** [calm] is whether [pr->killed] keeps its value during a stretch. *)
Inductive step (calm : bool) (pi : Z) : state -> state -> Prop :=
| st_write root T l addr n i kl c s p w rd rs ws r c' s' p' bs :
    started pi c -> vm_inv (ps_kmem s) l T root ->
    0 <= addr -> 0 <= i <= n -> addr + n <= 2 ^ 64 -> (calm = true -> forall t, kl t = kl 0%nat) ->
    ps_pipes s !! pi = Some p ->
    pipewrite_run root pi addr n i kl c s = Ok r c' s' ->
    ps_pipes s' !! pi = Some p' ->
    uread (km_mem (ps_kmem s)) T (addr + i) (length (queue p') - length (queue p)) = Some bs ->
    step calm pi (mkState s w rd rs ws)
      (mkState s' (w ++ bs) rd (awaken (ChPipeRead pi) (c_woken c') rs)
         (awaken (ChPipeWrite pi) (c_woken c') ws + match r with inl _ => 0 | inr _ => 1 end))
| st_read root T l addr n killed c s p w rd rs ws r c' s' p' bs :
    started pi c -> vm_inv (ps_kmem s) l T root -> uspace_ok (ps_kmem s) l T ->
    0 <= addr -> 0 <= n -> addr + n <= 2 ^ 64 ->
    ps_pipes s !! pi = Some p ->
    piperead_run root pi addr n killed c s = Ok r c' s' ->
    ps_pipes s' !! pi = Some p' ->
    uread (km_mem (ps_kmem s')) T addr (Z.to_nat (default 0 r)) = Some bs ->
    step calm pi (mkState s w rd rs ws)
      (mkState s' w (rd ++ [mkRead bs (faulted (ps_kmem s') T addr n r)])
         (awaken (ChPipeRead pi) (c_woken c') rs + match r with Some _ => 0 | None => 1 end)
         (awaken (ChPipeWrite pi) (c_woken c') ws))
| st_close writable c s p w rd rs ws c' s' :
    started pi c -> ps_pipes s !! pi = Some p ->
    (if writable =? 0 then pi_writeopen p else pi_readopen p) <> 0 ->
    pipeclose pi writable c s = Ok tt c' s' ->
    step calm pi (mkState s w rd rs ws)
      (mkState s' w rd (awaken (ChPipeRead pi) (c_woken c') rs) (awaken (ChPipeWrite pi) (c_woken c') ws))
| st_env s km w rd rs ws :
    step calm pi (mkState s w rd rs ws) (mkState (mkPipest km (ps_pipes s)) w rd rs ws).

(** The pipe as [pipealloc] leaves it. *)
Definition initial (pi : Z) (y : state) : Prop :=
  (exists p, ps_pipes (py_st y) !! pi = Some p /\ length (pi_data p) = 512%nat /\
     pi_nread p = 0 /\ pi_nwrite p = 0) /\ py_w y = [] /\ py_r y = [] /\ py_rs y = 0%nat /\ py_ws y = 0%nat.

(** What the readers took out of the pipe: [gaps] has, for each stretch, the
    bytes it removed after the ones it delivered. *)
Definition interleave (rs : list read) (gaps : list (list Z)) : list Z :=
  concat (zip_with (fun r g => rd_bytes r ++ g) rs gaps).
Definition received (rs : list read) (gaps : list (list Z)) : Prop :=
  Forall2 (fun r g => if rd_fault r then (length g <= 1)%nat else g = []) rs gaps.

Lemma interleave_snoc rs gaps r g : length rs = length gaps ->
  interleave (rs ++ [r]) (gaps ++ [g]) = interleave rs gaps ++ rd_bytes r ++ g.
Proof. intros H. unfold interleave. rewrite zip_with_app, concat_app by done. simpl. by rewrite app_nil_r. Qed.
Lemma received_none rs gaps : received rs gaps -> Forall (fun r => rd_fault r = false) rs ->
  interleave rs gaps = concat (rd_bytes <$> rs).
Proof.
  unfold interleave. induction 1 as [|r g rs gaps Hr _ IH]; intros Hn; [done|]. apply Forall_cons in Hn as [Hf Hn].
  rewrite Hf in Hr. simpl. by rewrite IH, Hr, app_nil_r by done.
Qed.

Record inv (calm : bool) (pi : Z) (y : state) (p : pipe) : Prop := mkInv {
  in_pipe : ps_pipes (py_st y) !! pi = Some p;
  in_ok : pipe_ok p;
  in_byte : Forall is_byte (queue p);
  in_fifo : exists gaps, received (py_r y) gaps /\ py_w y = interleave (py_r y) gaps ++ queue p;
  in_readers : calm = true -> py_rs y <> 0%nat -> queue p = [] /\ pi_writeopen p <> 0;
  in_writers : py_ws y <> 0%nat -> length (queue p) = 512%nat /\ pi_readopen p <> 0
}.

Lemma uread_bytes m T bs : forall va,
  (forall j b, bs !! j = Some b -> ubyte m T (va + Z.of_nat j) = Some b) -> uread m T va (length bs) = Some bs.
Proof.
  induction bs as [|b bs IH]; intros va H; [done|]. cbn [length uread].
  pose proof (H 0%nat b eq_refl) as H0. rewrite Z.add_0_r in H0. rewrite H0. simpl.
  rewrite IH; [done|]. intros j x Hj. replace (va + 1 + Z.of_nat j) with (va + Z.of_nat (S j)) by lia. by apply H.
Qed.

Lemma woken_woke pi tr c : started pi c -> c_woken (woke tr c) = tr.
Proof. intros (_ & _ & E). simpl. by rewrite E. Qed.

Lemma pipe_ok_length p : pipe_ok p -> (length (queue p) <= 512)%nat.
Proof.
  intros H. assert (Z.of_nat (length (queue p)) <= PIPESIZE) by (by apply (rq_le (2 ^ 32) PIPESIZE)).
  unfold PIPESIZE in *. lia.
Qed.

Lemma awaken_one ch k : awaken ch [ch] k = 0%nat.
Proof. unfold awaken. by rewrite decide_True by set_solver. Qed.
Lemma awaken_other ch ch' k : ch <> ch' -> awaken ch [ch'] k = k.
Proof. intros H. unfold awaken. by rewrite decide_False by set_solver. Qed.
Lemma awaken_nil ch k : awaken ch [] k = k.
Proof. unfold awaken. by rewrite decide_False by set_solver. Qed.

Lemma inv_write calm pi root T l addr n i kl c s p w rd rs ws r c' s' p' bs :
  started pi c -> vm_inv (ps_kmem s) l T root ->
  0 <= addr -> 0 <= i <= n -> addr + n <= 2 ^ 64 -> (calm = true -> forall t, kl t = kl 0%nat) ->
  pipewrite_run root pi addr n i kl c s = Ok r c' s' -> ps_pipes s' !! pi = Some p' ->
  uread (km_mem (ps_kmem s)) T (addr + i) (length (queue p') - length (queue p)) = Some bs ->
  inv calm pi (mkState s w rd rs ws) p ->
  inv calm pi (mkState s' (w ++ bs) rd (awaken (ChPipeRead pi) (c_woken c') rs)
    (awaken (ChPipeWrite pi) (c_woken c') ws + match r with inl _ => 0 | inr _ => 1 end)) p'.
Proof.
  intros Hst Hvm Ha Hi Hw Hcalm Hrun Hp' Hu [E1 E2 E3 E4 E5 E6]. cbn [py_st py_w py_r py_rs py_ws] in *.
  destruct Hst as (Hwf & Hf & Hwk). pose proof (conj Hwf (conj Hf Hwk) : started pi c) as Hst.
  destruct (pipewrite_run_ok root T l pi addr n i kl c s p) as (r0 & tr & s0 & p0 & bs0 & Hrun' & Hpost); auto;
    [lia|by split_and!|].
  rewrite Hrun in Hrun'. injection Hrun' as <- -> <-. rewrite (woken_woke pi) by done.
  destruct Hpost as [Hs Hat (Hro & Hwo) Hq Hus Hres].
  assert (p0 = p') as -> by (destruct Hat as [Hat _]; congruence).
  assert (bs0 = bs) as ->.
  { rewrite Hq, length_app in Hu. replace (_ - _)%nat with (length bs0) in Hu by lia.
    rewrite (uread_bytes _ T bs0) in Hu; [congruence|]. intros j b Hj. pose proof (Hus j b Hj) as Hb.
    unfold user in Hb. rewrite u64_small in Hb; [exact Hb|]. apply lookup_lt_Some in Hj.
    destruct Hres as [(_ & ? & _)|[(_ & ? & _)|[(_ & ? & _)|(_ & ? & _)]]]; lia. }
  assert (Hfull : ws <> 0%nat -> bs = []).
  { intros Hws. destruct (E6 Hws) as [Hl _]. destruct Hat as (_ & Hok & _). apply pipe_ok_length in Hok.
    rewrite Hq, length_app in Hok. apply nil_length_inv. lia. }
  split; cbn [py_st py_w py_r py_rs py_ws]; [done|apply Hat|apply Hat| | |].
  { destruct E4 as (gaps & Hg & ->). exists gaps. by rewrite Hq, app_assoc. }
  - intros Hc Hrs. destruct Hres as [(_ & _ & _ & _ & ->)|[(_ & _ & ->)|[(_ & _ & _ & ->)|(_ & _ & Hk & ->)]]];
      try (by rewrite awaken_one in Hrs).
    rewrite awaken_nil in Hrs. destruct (E5 Hc Hrs) as [Hq0 Hwo0]. rewrite Hq, Hwo, Hq0. split; [|done].
    destruct bs as [|b bs]; [done|]. exfalso. clear -Hcalm Hc Hk Hrun Hwf Hf E1 Hp' Hq Hq0.
    assert (Hk0 : (pi_readopen p =? 0) || kl 0%nat = true).
    { destruct Hk as [->|Hk]; [done|]. rewrite (Hcalm Hc) in Hk. rewrite Hk. apply orb_true_r. }
    revert Hrun. unfold pipewrite_run. erewrite bind_ok by by apply acquire_free.
    assert (Hsame : s' = s -> False) by (intros ->; rewrite Hp' in E1; injection E1 as ->; rewrite Hq0 in Hq; done).
    destruct (Z.to_nat (n - i)); cbn [pipewrite_loop]; destruct (i <? n); try done;
      try (rewrite pipewrite_end_ok by done; intros [= _ _ <-]; by apply Hsame).
    erewrite bind_ok by by apply get_pipe_ok. rewrite Hk0. erewrite bind_ok by (by apply release_hold).
    intros [= _ _ <-]. by apply Hsame.
  - intros Hws. destruct Hres as [(-> & _ & Hl & Hr & ->)|Hres]; [by rewrite Hro|].
    assert (Hw0 : ws <> 0%nat).
    { destruct Hres as [(-> & _ & ->)|[(-> & _ & _ & ->)|(-> & _ & _ & ->)]];
        rewrite ?awaken_nil, ?awaken_other in Hws by done; lia. }
    rewrite Hq, Hro, (Hfull Hw0), app_nil_r. by apply E6.
Qed.

Lemma fifo_add rd q q' bs lost w (f : bool) :
  (exists gaps, received rd gaps /\ w = interleave rd gaps ++ q) -> q = bs ++ lost ++ q' ->
  (if f then (length lost <= 1)%nat else lost = []) ->
  exists gaps, received (rd ++ [mkRead bs f]) gaps /\ w = interleave (rd ++ [mkRead bs f]) gaps ++ q'.
Proof.
  intros (gaps & Hg & ->) -> Hl. exists (gaps ++ [lost]). split.
  - apply Forall2_app; [exact Hg|]. by apply Forall2_cons.
  - rewrite interleave_snoc by (by eapply Forall2_length). simpl. by rewrite <- !app_assoc.
Qed.

Lemma inv_read calm pi root T l addr n killed c s p w rd rs ws r c' s' p' bs :
  started pi c -> vm_inv (ps_kmem s) l T root -> uspace_ok (ps_kmem s) l T ->
  0 <= addr -> 0 <= n -> addr + n <= 2 ^ 64 ->
  piperead_run root pi addr n killed c s = Ok r c' s' -> ps_pipes s' !! pi = Some p' ->
  uread (km_mem (ps_kmem s')) T addr (Z.to_nat (default 0 r)) = Some bs ->
  inv calm pi (mkState s w rd rs ws) p ->
  inv calm pi (mkState s' w (rd ++ [mkRead bs (faulted (ps_kmem s') T addr n r)])
    (awaken (ChPipeRead pi) (c_woken c') rs + match r with Some _ => 0 | None => 1 end)
    (awaken (ChPipeWrite pi) (c_woken c') ws)) p'.
Proof.
  intros Hst Hvm Hus Ha Hn Hw Hrun Hp' Hu [E1 E2 E3 E4 E5 E6]. cbn [py_st py_w py_r py_rs py_ws] in *.
  destruct (piperead_run_ok root T l pi addr n killed c s p) as [(Hq & Hwo & Hr)|(Hne & k & s0 & p0 & bs0 & Hr & Hpost)];
    auto; try apply Hst; [by split_and!| |]; rewrite Hrun in Hr; injection Hr as -> -> ->.
  - rewrite E1 in Hp'. injection Hp' as <-. destruct Hst as (_ & _ & ->). rewrite !awaken_nil.
    assert (bs = []) as -> by (destruct killed; change (Z.to_nat _) with 0%nat in Hu; by injection Hu).
    assert (faulted (ps_kmem s) T addr n (if killed then Some (-1) else None) = false) as ->.
    { destruct killed; [|done]. apply bool_decide_eq_false. lia. }
    split; cbn [py_st py_w py_r py_rs py_ws]; auto. by eapply (fifo_add rd (queue p) (queue p) [] []).
  - rewrite (woken_woke pi) by done. rewrite awaken_one, awaken_other by done.
    destruct Hpost as [Hps Hat _ (Hro & Hwo) Hq Hus' Hres].
    assert (p0 = p') as -> by (destruct Hat as [Hat _]; congruence).
    change (default 0 (Some k)) with k in Hu.
    assert (Hd : bs = take (Z.to_nat k) bs0).
    { assert (Hl : length (take (Z.to_nat k) bs0) = Z.to_nat k) by (rewrite length_take; lia).
      rewrite <- Hl, (uread_bytes _ T (take (Z.to_nat k) bs0)) in Hu; [congruence|].
      intros j b [Hj Hjk]%lookup_take_Some. pose proof (Hus' (addr + Z.of_nat j) ltac:(lia)) as Hx.
      unfold user in Hx. rewrite Hx. btrue (addr + 0 <=? addr + Z.of_nat j).
      btrue (addr + Z.of_nat j <? addr + k). simpl. by replace (Z.to_nat (addr + Z.of_nat j - (addr + 0))) with j by lia. }
    split; cbn [py_st py_w py_r py_rs py_ws]; [done|apply Hat|apply Hat| | |done].
    { rewrite <- (take_drop (Z.to_nat k) bs0), <- Hd, <- app_assoc in Hq. eapply fifo_add; [exact E4|exact Hq|].
      destruct Hres as [(Hk & _)|(Hk & Hkn & Hnone)].
      - rewrite drop_ge by lia. destruct (faulted _ _ _ _ _); simpl; [lia|done].
      - assert (faulted (ps_kmem s0) T addr n (Some k) = true) as ->; [|rewrite length_drop; lia].
        apply bool_decide_eq_true. split; [lia|]. fold (user T s0 (addr + k)). rewrite Hus' by lia.
        bfalse (addr + k <? addr + k). by rewrite andb_false_r. }
    intros Hc Hrs. rewrite Nat.add_0_r in Hrs. destruct (E5 Hc Hrs) as [Hq0 Hw0].
    destruct Hne as [|Hne]; congruence.
Qed.

Lemma fifo_step calm pi y y' p : step calm pi y y' -> inv calm pi y p -> exists p', inv calm pi y' p'.
Proof.
  intros Hst Hi. pose proof (in_pipe _ _ _ _ Hi) as Hp. destruct Hst as [? ? ? addr n i|? ? ? addr n| |]; cbn [py_st] in Hp; simplify_eq.
  - eexists. by eapply (inv_write _ _ _ _ _ addr n i).
  - eexists. by eapply (inv_read _ _ _ _ _ addr n).
  - match goal with H : started _ _ |- _ => pose proof H as (Hwf & Hf & Hwk) end.
    match goal with H : pipeclose _ _ _ _ = _ |- _ => erewrite pipeclose_ok in H by done; injection H as <- <- end.
    destruct Hi as [E1 E2 E3 E4 E5 E6]. cbn [py_st py_w py_r py_rs py_ws] in *.
    rewrite (woken_woke pi) by done. eexists. split; cbn [py_st py_w py_r py_rs py_ws with_pipe ps_pipes];
      [by rewrite lookup_insert_eq|by case_match|by case_match|destruct (_ =? 0); exact E4| |]; case_match; cbn [pi_writeopen pi_readopen];
      rewrite ?awaken_one, ?awaken_other by done; auto; done.
  - destruct Hi as [E1 E2 E3 E4 E5 E6]. by exists p.
Qed.

Lemma fifo_reachable calm pi y0 y : initial pi y0 -> rtc (step calm pi) y0 y -> exists p, inv calm pi y p.
Proof.
  intros Hi Hr. assert (exists p, inv calm pi y0 p) as H0.
  { destruct Hi as ((p & Hp & Hd & Hnr & Hnw) & Hw & Hr0 & Hrs & Hws). exists p.
    assert (queue p = []) as Hq by (unfold queue, rq; by rewrite Hnr, Hnw).
    split; rewrite ?Hq, ?Hw, ?Hr0, ?Hrs, ?Hws; try done;
      [unfold pipe_ok, rq_ok; by rewrite Hnr, Hnw|exists []; split; [constructor|done]]. }
  clear Hi. induction Hr as [|y0 y1 y2 Hst Hr IH]; [done|].
  apply IH. destruct H0 as [p Hp]. by eapply fifo_step.
Qed.

(** C3: Bytes come out of a pipe in the order in which they went in, none
    duplicated or invented, whatever the interleaving of readers, writers and
    closes and however often the 32-bit counters have wrapped: the bytes taken
    from the writers' buffers are those that the readers took, followed by
    those still in the pipe, at most [PIPESIZE].  What a call of read took is
    what then is in the reader's buffer, except that a call that stops at an
    address the user cannot access may have removed one byte more, which is
    lost; if no call stops so, every byte is delivered. *)
Theorem pipe_fifo calm pi y0 y :
  initial pi y0 -> rtc (step calm pi) y0 y ->
  exists p gaps, ps_pipes (py_st y) !! pi = Some p /\ Z.of_nat (length (queue p)) <= PIPESIZE /\
    received (py_r y) gaps /\ py_w y = interleave (py_r y) gaps ++ queue p /\
    (Forall (fun r => rd_fault r = false) (py_r y) -> py_w y = concat (rd_bytes <$> py_r y) ++ queue p).
Proof.
  intros Hi Hr. destruct (fifo_reachable calm pi y0 y Hi Hr) as [p [E1 E2 _ (gaps & Hg & E4) _ _]].
  exists p, gaps. split_and!; [done| |done|done|].
  - apply pipe_ok_length in E2. unfold PIPESIZE. lia.
  - intros Hn. by rewrite E4, received_none.
Qed.

(** C36: As long as [pr->killed] does not change in the middle of a write, nobody
    sleeps for nothing: a sleeping reader finds the pipe empty with a writer
    left, a sleeping writer finds it full with a reader left. *)
Theorem pipe_wakeups pi y0 y :
  initial pi y0 -> rtc (step true pi) y0 y ->
  exists p, ps_pipes (py_st y) !! pi = Some p /\
    (py_rs y <> 0%nat -> queue p = [] /\ pi_writeopen p <> 0) /\
    (py_ws y <> 0%nat -> Z.of_nat (length (queue p)) = PIPESIZE /\ pi_readopen p <> 0).
Proof.
  intros Hi Hr. destruct (fifo_reachable true pi y0 y Hi Hr) as [p [E1 _ _ _ E5 E6]].
  exists p. split_and!; [done|auto|]. intros Hw. destruct (E6 Hw). split; [|done]. unfold PIPESIZE. lia.
Qed.

(** *** A pipe in the example memory *)

Definition ex_pi : Z := KERNBASE + 7 * 4096.
Definition ex_pcore : core :=
  mkCore 0 SSTATUS_SIE 0 1 None {[ LkPipe ex_pi := mkSpinlock 0 "pipe" None ]} [] ∅.
Definition ex_pipest (nread : Z) : pipest :=
  mkPipest ex_kmem {[ ex_pi := mkPipe (replicate 512 0) nread nread 1 1 ]}.

Lemma ex_started : started ex_pi ex_pcore.
Proof. split_and!; [split_and!; done|by exists "pipe"|done]. Qed.

Definition ex_y0 : state := mkState (ex_pipest 0) [] [] 0 0.
Lemma ex_initial : initial ex_pi ex_y0.
Proof. split_and!; try done. by eexists. Qed.

(** A reader finds the pipe empty and sleeps. *)
Lemma ex_sleep : exists y, step true ex_pi ex_y0 y /\ py_rs y = 1%nat.
Proof.
  eexists. split; [eapply (st_read true ex_pi ex_R ex_tree [ex_G] 0 3 false ex_pcore)|];
    [exact ex_started|exact ex_vm_inv|exact ex_uspace|done|done|done|reflexivity|vm_compute; reflexivity..|done].
Qed.

(** A writer stores three bytes; a reader takes two of them, and one whose buffer is not mapped
    takes the third, which is lost. *)
Lemma ex_reads : exists y, rtc (step true ex_pi) ex_y0 y /\ py_w y = [0; 0; 0] /\
  py_r y = [mkRead [0; 0] false; mkRead [] true].
Proof.
  eexists. split; [eapply rtc_l; [|eapply rtc_l; [|eapply rtc_l; [|eapply rtc_once]]]|].
  - eapply (st_write true ex_pi ex_R ex_tree [ex_G] 0 3 0 (fun _ => false) ex_pcore);
      [exact ex_started|exact ex_vm_inv|done|done|done|done|reflexivity|vm_compute; reflexivity..].
  - eapply (st_read true ex_pi ex_R ex_tree [ex_G] 0 2 false ex_pcore);
      [exact ex_started|exact ex_vm_inv|exact ex_uspace|done|done|done|vm_compute; reflexivity..].
  - eapply (st_env true ex_pi _ ex_kmem).
  - eapply (st_read true ex_pi ex_R ex_tree [ex_G] 0x5000 2 false ex_pcore);
      [exact ex_started|exact ex_vm_inv|exact ex_uspace|done|done|done|vm_compute; reflexivity..].
  - split; vm_compute; reflexivity.
Qed.

Lemma pipe_fifo_witness : exists y p g,
  ps_pipes (py_st y) !! ex_pi = Some p /\ [0; 0; 0] = ([0; 0] ++ g) ++ queue p.
Proof.
  destruct ex_reads as (y & Hst & Hw & Hr).
  destruct (pipe_fifo true ex_pi ex_y0 y ex_initial Hst) as (p & gaps & Hp & _ & Hg & Hq & _).
  rewrite Hw, Hr in *. destruct (Forall2_cons_inv_l _ _ _ _ Hg) as (g1 & gs & E1 & Hg1 & ->).
  destruct (Forall2_cons_inv_l _ _ _ _ Hg1) as (g2 & gs2 & E2 & Hg2 & ->). simpl in E1. subst g1.
  rewrite (Forall2_nil_inv_l _ _ Hg2) in Hq. exists y, p, g2. split; [exact Hp|].
  cbn in Hq. rewrite app_nil_r in Hq. exact Hq.
Defined.

Lemma pipe_wakeups_witness : exists y p,
  py_rs y = 1%nat /\ ps_pipes (py_st y) !! ex_pi = Some p /\ queue p = [].
Proof.
  destruct ex_sleep as (y & Hst & Hrs).
  destruct (pipe_wakeups ex_pi ex_y0 y ex_initial (rtc_once _ _ Hst)) as (p & Hp & Hq & _).
  exists y, p. split; [exact Hrs|]. split; [exact Hp|]. apply Hq. rewrite Hrs. discriminate.
Defined.

(** C39: A writer that is killed between two bytes returns -1 from the top of the
    loop without the wakeup of the readers at its end: a byte is in the pipe,
    the end for writing is open and the reader that went to sleep on the empty
    pipe stays asleep. *)
Theorem killed_writer_loses_wakeup : exists y p,
  rtc (step false ex_pi) ex_y0 y /\ ps_pipes (py_st y) !! ex_pi = Some p /\
  py_rs y = 1%nat /\ queue p = [0] /\ pi_writeopen p = 1.
Proof.
  do 2 eexists. split; [eapply rtc_l; [|eapply rtc_once]|].
  - eapply (st_read false ex_pi ex_R ex_tree [ex_G] 0 3 false ex_pcore);
      [exact ex_started|exact ex_vm_inv|exact ex_uspace|done|done|done|reflexivity|vm_compute; reflexivity..].
  - eapply (st_write false ex_pi ex_R ex_tree [ex_G] 0 3 0 (fun t => Nat.eqb t 1) ex_pcore);
      [exact ex_started|exact ex_vm_inv|done|done|done|done|vm_compute; reflexivity..].
  - split_and!; [vm_compute; reflexivity..].
Qed.
End Fifo.
