(* ===== verification/Fs.v ===== *)
(** * The file system: kernel/fs.c

    Blocks (the bitmap allocator), inodes (the table of active inodes, their
    on-disk form, their blocks), file contents, directories and path names, on
    top of the log and the buffer cache.  An inode pointer is an index into
    the inode table. *)

From Stdlib Require Import ZArith Lia.
From stdpp Require Import base gmap list numbers strings.
From S2P Require Import Prelude Riscv Core Spinlock Kstring Kalloc Vm Sleeplock Bio Log.
Local Open Scope Z_scope.

(** ** fs.h, stat.h and file.h *)

Definition ROOTINO : Z := 1.
Definition FSMAGIC : Z := 0x10203040.
Definition NDIRECT : Z := 12.
Definition NINDIRECT : Z := BSIZE / 4.
Definition MAXFILE : Z := NDIRECT + NINDIRECT.
(** sizeof(struct dinode): four shorts, a uint and thirteen uints. *)
Definition DINODE : Z := 64.
Definition IPB : Z := BSIZE / DINODE.
Definition IBLOCK (i : Z) (sb : superblock) : Z := i / IPB + sb_inodestart sb.
Definition BPB : Z := BSIZE * 8.
Definition BBLOCK (b : Z) (sb : superblock) : Z := b / BPB + sb_bmapstart sb.
Definition DIRSIZ : Z := 14.
(** sizeof(struct dirent) *)
Definition DIRENT : Z := 16.
Definition T_DIR : Z := 1.
Definition T_FILE : Z := 2.
Definition T_DEVICE : Z := 3.

(** struct dinode *)
Record dinode : Type := mkDinode {
  di_type : Z;            (* File type *)
  di_major : Z;
  di_minor : Z;
  di_nlink : Z;           (* Number of links to inode in file system *)
  di_size : Z;            (* Size of file (bytes) *)
  di_addrs : list Z       (* Data block addresses, NDIRECT+1 *)
}.

(** struct inode; [lock] is the sleep lock [SlInode] of its index. *)
Record inode : Type := mkInode {
  in_dev : Z;
  in_inum : Z;
  in_ref : Z;
  in_valid : Z;           (* inode has been read from disk? *)
  in_d : dinode           (* copy of disk inode *)
}.

(** struct stat *)
Record stat : Type := mkStat {
  st_dev : Z;
  st_ino : Z;
  st_type : Z;
  st_nlink : Z;
  st_size : Z
}.

(** struct dirent: the inode number and DIRSIZ bytes of name. *)
Record dirent : Type := mkDirent { de_inum : Z; de_name : list Z }.

Record fsst : Type := mkFsst {
  fs_sb : superblock;          (* struct superblock sb *)
  fs_itable : list inode;      (* itable.inode *)
  fs_log : logst;
  fs_kmem : kmem               (* memory that readi and writei copy from and to *)
}.

Definition fs_logl : lens logst fsst :=
  mkLens fs_log (fun b t => mkFsst (fs_sb t) (fs_itable t) b (fs_kmem t))
    (fun s t => eq_refl) (fun t => match t with mkFsst _ _ _ _ => eq_refl end) (fun s s' t => eq_refl).
Definition fs_kmeml : lens kmem fsst :=
  mkLens fs_kmem (fun b t => mkFsst (fs_sb t) (fs_itable t) (fs_log t) b)
    (fun s t => eq_refl) (fun t => match t with mkFsst _ _ _ _ => eq_refl end) (fun s s' t => eq_refl).

Definition flog {A} (m : M logst A) : M fsst A := lift fs_logl m.
Definition fbio {A} (m : M bcache A) : M fsst A := flog (bio m).

(** [bp->data], read and written. *)
Definition bdata (bp : nat) : M fsst (list Z) := fbio (gets (fun s => b_data (get_buf bp s))).
Definition set_bdata (bp : nat) (x : list Z) : M fsst unit := fbio (modify (upd_buf bp (with_data x))).

Definition set_sb (sb : superblock) (s : fsst) : fsst := mkFsst sb (fs_itable s) (fs_log s) (fs_kmem s).
Definition set_itable (t : list inode) (s : fsst) : fsst := mkFsst (fs_sb s) t (fs_log s) (fs_kmem s).

Definition dinode0 : dinode := mkDinode 0 0 0 0 0 (repeat 0 13).
Definition inode0 : inode := mkInode 0 0 0 0 dinode0.

Definition get_inode (ip : nat) (s : fsst) : inode := nth ip (fs_itable s) inode0.
Definition upd_inode (ip : nat) (f : inode -> inode) (s : fsst) : fsst :=
  set_itable (<[ip := f (get_inode ip s)]> (fs_itable s)) s.

Definition set_ref (r : Z) (i : inode) : inode := mkInode (in_dev i) (in_inum i) r (in_valid i) (in_d i).
Definition set_valid (v : Z) (i : inode) : inode := mkInode (in_dev i) (in_inum i) (in_ref i) v (in_d i).
Definition set_d (d : dinode) (i : inode) : inode := mkInode (in_dev i) (in_inum i) (in_ref i) (in_valid i) d.
Definition set_type (t : Z) (d : dinode) : dinode :=
  mkDinode t (di_major d) (di_minor d) (di_nlink d) (di_size d) (di_addrs d).
Definition set_nlink (n : Z) (d : dinode) : dinode :=
  mkDinode (di_type d) (di_major d) (di_minor d) n (di_size d) (di_addrs d).
Definition set_size (n : Z) (d : dinode) : dinode :=
  mkDinode (di_type d) (di_major d) (di_minor d) (di_nlink d) n (di_addrs d).
Definition set_addr (i a : Z) (d : dinode) : dinode :=
  mkDinode (di_type d) (di_major d) (di_minor d) (di_nlink d) (di_size d) (<[Z.to_nat i := a]> (di_addrs d)).
Definition addr_at (i : Z) (d : dinode) : Z := nth (Z.to_nat i) (di_addrs d) 0.
Definition upd_d (ip : nat) (f : dinode -> dinode) (s : fsst) : fsst :=
  upd_inode ip (fun i => set_d (f (in_d i)) i) s.

(** ** The super block *)

(** memmove(sb, bp->data, sizeof( *sb)) *)
Definition sb_decode (data : list Z) : superblock :=
  mkSuperblock (ld32 0 data) (ld32 4 data) (ld32 8 data) (ld32 12 data) (ld32 16 data) (ld32 20 data)
    (ld32 24 data) (ld32 28 data).

Definition readsb (dev : Z) : M fsst superblock :=
  bp ← fbio (bread dev 1);
  data ← bdata bp;
  _ ← fbio (brelse bp);
  mret (sb_decode data).

Definition fsinit (dev : Z) : M fsst unit :=
  x ← readsb dev;
  _ ← modify (set_sb x);
  if negb (sb_magic x =? FSMAGIC) then panic "invalid file system"
  else flog (initlog dev x).

(** ** Blocks *)

Definition bzero (dev bno : Z) : M fsst unit :=
  bp ← fbio (bread dev bno);
  _ ← set_bdata bp (repeat 0 (Z.to_nat BSIZE));
  _ ← flog (log_write bp);
  fbio (brelse bp).

Definition bitmask (bi : Z) : Z := Z.shiftl 1 (bi mod 8).
Definition bit_free (data : list Z) (bi : Z) : bool :=
  Z.land (nth (Z.to_nat (bi / 8)) data 0) (bitmask bi) =? 0.

(** The inner loop of [balloc]: the first free bit from [bi] on; [k] bits of
    the block are left. *)
Fixpoint balloc_scan (data : list Z) (size b bi : Z) (k : nat) : option Z :=
  match k with
  | O => None
  | S k => if b + bi <? size
           then if bit_free data bi then Some bi else balloc_scan data size b (bi + 1) k
           else None
  end.

(** [data[bi/8] |= m] and [data[bi/8] &= ~m] *)
Definition set_bit (data : list Z) (bi : Z) : list Z :=
  <[Z.to_nat (bi / 8) := u8 (Z.lor (nth (Z.to_nat (bi / 8)) data 0) (bitmask bi))]> data.
Definition clear_bit (data : list Z) (bi : Z) : list Z :=
  <[Z.to_nat (bi / 8) := u8 (Z.land (nth (Z.to_nat (bi / 8)) data 0) (Z.lnot (bitmask bi)))]> data.

Fixpoint balloc_loop (dev b : Z) (fuel : nat) : M fsst Z :=
  sb ← gets fs_sb;
  if b <? sb_size sb then
    match fuel with
    | O => nofuel
    | S fuel =>
        bp ← fbio (bread dev (BBLOCK b sb));
        data ← bdata bp;
        match balloc_scan data (sb_size sb) b 0 (Z.to_nat BPB) with
        | Some bi =>
            _ ← set_bdata bp (set_bit data bi);
            _ ← flog (log_write bp);
            _ ← fbio (brelse bp);
            _ ← bzero dev (b + bi);
            mret (b + bi)
        | None =>
            _ ← fbio (brelse bp);
            balloc_loop dev (b + BPB) fuel
        end
    end
  else panic "balloc: out of blocks".

Definition balloc (dev : Z) : M fsst Z :=
  sb ← gets fs_sb;
  balloc_loop dev 0 (Z.to_nat (sb_size sb / BPB + 1)).

Definition bfree (dev b : Z) : M fsst unit :=
  sb ← gets fs_sb;
  bp ← fbio (bread dev (BBLOCK b sb));
  data ← bdata bp;
  let bi := b mod BPB in
  if bit_free data bi then panic "freeing free block" else
  _ ← set_bdata bp (clear_bit data bi);
  _ ← flog (log_write bp);
  fbio (brelse bp).

(** ** Inodes *)

(** [struct dinode] at byte [off] of a block. *)
Definition dinode_decode (off : nat) (data : list Z) : dinode :=
  mkDinode (s16 (ld16 off data)) (s16 (ld16 (off + 2) data)) (s16 (ld16 (off + 4) data)) (s16 (ld16 (off + 6) data))
    (ld32 (off + 8) data) ((fun k => ld32 (off + 12 + 4 * k) data) <$> seq 0 13).

Definition put_addrs (off : nat) (addrs data : list Z) : list Z :=
  splice (off + 12) (addrs ≫= le_bytes 4) data.

(** The assignments of [iupdate] to the fields of [dip]. *)
Definition dinode_put (off : nat) (d : dinode) (data : list Z) : list Z :=
  let data := st16 off (di_type d) data in
  let data := st16 (off + 2) (di_major d) data in
  let data := st16 (off + 4) (di_minor d) data in
  let data := st16 (off + 6) (di_nlink d) data in
  let data := st32 (off + 8) (di_size d) data in
  put_addrs off (di_addrs d) data.

(** [(struct dinode* )bp->data + inum%IPB] *)
Definition dip_off (inum : Z) : nat := Z.to_nat (inum mod IPB * DINODE).

Definition iinit : M fsst unit :=
  _ ← initlock LkItable "itable";
  forM (seq 0 (Z.to_nat NINODE)) (fun i => initsleeplock (SlInode i) "inode").

(** The loop of [iget]: the entry of the inode, or the first empty slot. *)
Fixpoint iget_scan (l : list inode) (dev inum : Z) (i : nat) (empty : option nat) : nat + option nat :=
  match l with
  | [] => inr empty
  | x :: l =>
      if (0 <? in_ref x) && (in_dev x =? dev) && (in_inum x =? inum) then inl i
      else iget_scan l dev inum (S i)
             (match empty with None => if in_ref x =? 0 then Some i else None | Some _ => empty end)
  end.

Definition iget (dev inum : Z) : M fsst nat :=
  _ ← acquire LkItable;
  t ← gets fs_itable;
  match iget_scan t dev inum 0 None with
  | inl ip =>
      _ ← modify (upd_inode ip (fun i => set_ref (in_ref i + 1) i));
      _ ← release LkItable;
      mret ip
  | inr None => panic "iget: no inodes"
  | inr (Some ip) =>
      _ ← modify (upd_inode ip (fun i => mkInode dev inum 1 0 (in_d i)));
      _ ← release LkItable;
      mret ip
  end.

Fixpoint ialloc_loop (dev type inum : Z) (fuel : nat) : M fsst nat :=
  sb ← gets fs_sb;
  if inum <? sb_ninodes sb then
    match fuel with
    | O => nofuel
    | S fuel =>
        bp ← fbio (bread dev (IBLOCK inum sb));
        data ← bdata bp;
        let off := dip_off inum in
        if s16 (ld16 off data) =? 0 then
          (* memset(dip, 0, sizeof( *dip)); dip->type = type *)
          _ ← set_bdata bp (st16 off type (splice off (repeat 0 (Z.to_nat DINODE)) data));
          _ ← flog (log_write bp);
          _ ← fbio (brelse bp);
          iget dev inum
        else
          _ ← fbio (brelse bp);
          ialloc_loop dev type (inum + 1) fuel
    end
  else panic "ialloc: no inodes".

Definition ialloc (dev type : Z) : M fsst nat :=
  sb ← gets fs_sb;
  ialloc_loop dev type 1 (Z.to_nat (sb_ninodes sb)).

Definition iupdate (ip : nat) : M fsst unit :=
  sb ← gets fs_sb;
  i ← gets (get_inode ip);
  bp ← fbio (bread (in_dev i) (IBLOCK (in_inum i) sb));
  data ← bdata bp;
  _ ← set_bdata bp (dinode_put (dip_off (in_inum i)) (in_d i) data);
  _ ← flog (log_write bp);
  fbio (brelse bp).

Definition idup (ip : nat) : M fsst nat :=
  _ ← acquire LkItable;
  _ ← modify (upd_inode ip (fun i => set_ref (in_ref i + 1) i));
  _ ← release LkItable;
  mret ip.

Definition ilock (ip : nat) : M fsst unit :=
  i ← gets (get_inode ip);
  if in_ref i <? 1 then panic "ilock" else
  _ ← acquiresleep (SlInode ip);
  i ← gets (get_inode ip);
  if in_valid i =? 0 then
    sb ← gets fs_sb;
    bp ← fbio (bread (in_dev i) (IBLOCK (in_inum i) sb));
    data ← bdata bp;
    let d := dinode_decode (dip_off (in_inum i)) data in
    _ ← modify (upd_inode ip (set_d d));
    _ ← fbio (brelse bp);
    _ ← modify (upd_inode ip (set_valid 1));
    if di_type d =? 0 then panic "ilock: no type" else mret tt
  else mret tt.

Definition iunlock (ip : nat) : M fsst unit :=
  h ← holdingsleep (SlInode ip);
  i ← gets (get_inode ip);
  if negb h || (in_ref i <? 1) then panic "iunlock" else releasesleep (SlInode ip).

(** The block number stored at index [bn] of an indirect block. *)
Definition ind_at (bn : Z) (data : list Z) : Z := ld32 (Z.to_nat (4 * bn)) data.

Definition bmap (ip : nat) (bn : Z) : M fsst Z :=
  i ← gets (get_inode ip);
  if bn <? NDIRECT then
    let addr := addr_at bn (in_d i) in
    if addr =? 0 then
      addr ← balloc (in_dev i);
      _ ← modify (upd_d ip (set_addr bn addr));
      mret addr
    else mret addr
  else
  let bn := bn - NDIRECT in
  if bn <? NINDIRECT then
    addr ← (let addr := addr_at NDIRECT (in_d i) in
            if addr =? 0 then
              addr ← balloc (in_dev i);
              _ ← modify (upd_d ip (set_addr NDIRECT addr));
              mret addr
            else mret addr);
    bp ← fbio (bread (in_dev i) addr);
    a ← bdata bp;
    addr ← (let addr := ind_at bn a in
            if addr =? 0 then
              addr ← balloc (in_dev i);
              a ← bdata bp;
              _ ← set_bdata bp (st32 (Z.to_nat (4 * bn)) addr a);
              _ ← flog (log_write bp);
              mret addr
            else mret addr);
    _ ← fbio (brelse bp);
    mret addr
  else panic "bmap: out of range".

Definition itrunc (ip : nat) : M fsst unit :=
  _ ← forM (seqZ 0 NDIRECT) (fun i =>
        x ← gets (get_inode ip);
        if negb (addr_at i (in_d x) =? 0) then
          _ ← bfree (in_dev x) (addr_at i (in_d x));
          modify (upd_d ip (set_addr i 0))
        else mret tt);
  x ← gets (get_inode ip);
  _ ← (if negb (addr_at NDIRECT (in_d x) =? 0) then
         bp ← fbio (bread (in_dev x) (addr_at NDIRECT (in_d x)));
         _ ← forM (seqZ 0 NINDIRECT) (fun j =>
               a ← bdata bp;
               if negb (ind_at j a =? 0) then bfree (in_dev x) (ind_at j a) else mret tt);
         _ ← fbio (brelse bp);
         _ ← bfree (in_dev x) (addr_at NDIRECT (in_d x));
         modify (upd_d ip (set_addr NDIRECT 0))
       else mret tt);
  _ ← modify (upd_d ip (set_size 0));
  iupdate ip.

Definition iput (ip : nat) : M fsst unit :=
  _ ← acquire LkItable;
  i ← gets (get_inode ip);
  _ ← (if (in_ref i =? 1) && negb (in_valid i =? 0) && (di_nlink (in_d i) =? 0) then
         _ ← acquiresleep (SlInode ip);
         _ ← release LkItable;
         _ ← itrunc ip;
         _ ← modify (upd_d ip (set_type 0));
         _ ← iupdate ip;
         _ ← modify (upd_inode ip (set_valid 0));
         _ ← releasesleep (SlInode ip);
         acquire LkItable
       else mret tt);
  _ ← modify (upd_inode ip (fun i => set_ref (in_ref i - 1) i));
  release LkItable.

Definition iunlockput (ip : nat) : M fsst unit :=
  _ ← iunlock ip;
  iput ip.

Definition stati (ip : nat) : M fsst stat :=
  i ← gets (get_inode ip);
  mret (mkStat (in_dev i) (in_inum i) (di_type (in_d i)) (di_nlink (in_d i)) (di_size (in_d i))).

(** ** File contents *)

(** Where [readi] copies to: user memory, a physical page, or a local
    variable of the caller (whose new contents are then returned). *)
Inductive mem_dst : Type :=
| ToUser (va : Z)
| ToKern (pa : Z)
| ToLocal.

Inductive mem_src : Type :=
| FromUser (va : Z)
| FromLocal (l : list Z).

Definition dst_add (d : mem_dst) (m : Z) : mem_dst :=
  match d with ToUser va => ToUser (u64 (va + m)) | ToKern pa => ToKern (u64 (pa + m)) | ToLocal => ToLocal end.
Definition src_add (d : mem_src) (m : Z) : mem_src :=
  match d with FromUser va => FromUser (u64 (va + m)) | FromLocal l => FromLocal (drop (Z.to_nat m) l) end.

(** proc.c; the result and the bytes stored in the caller's variable. *)
Definition either_copyout (dst : mem_dst) (src : list Z) : M fsst (Z * list Z) :=
  p ← myproc;
  match dst with
  | ToUser va =>
      match p with
      | None => fault "either_copyout: myproc()"
      | Some p => r ← lift fs_kmeml (copyout (cp_pagetable p) va src (Z.of_nat (length src))); mret (r, [])
      end
  | ToKern pa => _ ← lift fs_kmeml (modify (upd_mem (fun m => wrl m pa src))); mret (0, [])
  | ToLocal => mret (0, src)
  end.

(** proc.c; the result and the bytes stored at [dst]. *)
Definition either_copyin (src : mem_src) (len : Z) : M fsst (Z * list Z) :=
  p ← myproc;
  match src with
  | FromUser va =>
      match p with
      | None => fault "either_copyin: myproc()"
      | Some p => lift fs_kmeml (copyin (cp_pagetable p) va len)
      end
  | FromLocal l => mret (0, take (Z.to_nat len) l)
  end.

Fixpoint readi_loop (ip : nat) (dst : mem_dst) (off n tot : Z) (acc : list Z) (fuel : nat) : M fsst (Z * list Z) :=
  if tot <? n then
    match fuel with
    | O => nofuel
    | S fuel =>
        a ← bmap ip (off / BSIZE);
        i ← gets (get_inode ip);
        bp ← fbio (bread (in_dev i) a);
        let m := Z.min (n - tot) (BSIZE - off mod BSIZE) in
        data ← bdata bp;
        r ← either_copyout dst (slice (Z.to_nat (off mod BSIZE)) (Z.to_nat m) data);
        if r.1 =? -1 then
          _ ← fbio (brelse bp);
          mret (-1, acc)
        else
          _ ← fbio (brelse bp);
          readi_loop ip (dst_add dst m) (u32 (off + m)) n (tot + m) (acc ++ r.2) fuel
    end
  else mret (tot, acc).

Definition readi (ip : nat) (dst : mem_dst) (off n : Z) : M fsst (Z * list Z) :=
  i ← gets (get_inode ip);
  let size := di_size (in_d i) in
  if (size <? off) || (u32 (off + n) <? off) then mret (0, []) else
  let n := if size <? u32 (off + n) then size - off else n in
  readi_loop ip dst off n 0 [] (Z.to_nat n).

(** The loop of [writei]; its value is [tot] and [off]. *)
Fixpoint writei_loop (ip : nat) (src : mem_src) (off n tot : Z) (fuel : nat) : M fsst (Z * Z) :=
  if tot <? n then
    match fuel with
    | O => nofuel
    | S fuel =>
        a ← bmap ip (off / BSIZE);
        i ← gets (get_inode ip);
        bp ← fbio (bread (in_dev i) a);
        let m := Z.min (n - tot) (BSIZE - off mod BSIZE) in
        r ← either_copyin src m;
        data ← bdata bp;
        _ ← set_bdata bp (splice (Z.to_nat (off mod BSIZE)) r.2 data);
        if r.1 =? -1 then
          _ ← fbio (brelse bp);
          mret (tot, off)
        else
          _ ← flog (log_write bp);
          _ ← fbio (brelse bp);
          writei_loop ip (src_add src m) (u32 (off + m)) n (tot + m) fuel
    end
  else mret (tot, off).

Definition writei (ip : nat) (src : mem_src) (off n : Z) : M fsst Z :=
  i ← gets (get_inode ip);
  if (di_size (in_d i) <? off) || (u32 (off + n) <? off) then mret (-1) else
  if MAXFILE * BSIZE <? u32 (off + n) then mret (-1) else
  r ← writei_loop ip src off n 0 (Z.to_nat n);
  i ← gets (get_inode ip);
  _ ← when (di_size (in_d i) <? r.2) (modify (upd_d ip (set_size r.2)));
  _ ← iupdate ip;
  mret r.1.

(** ** Directories *)

Definition de_decode (l : list Z) : dirent := mkDirent (ld16 0 l) (slice 2 14 l).
Definition de_encode (de : dirent) : list Z := le_bytes 2 (de_inum de) ++ de_name de.

Definition namecmp (s t : list Z) : Z := strncmp (arr s) (arr t) 0 (Z.to_nat DIRSIZ).

(** [readi(dp, 0, (uint64)&de, off, sizeof(de)) != sizeof(de)] panics. *)
Definition read_de (dp : nat) (off : Z) (msg : string) : M fsst dirent :=
  r ← readi dp ToLocal off DIRENT;
  if negb (r.1 =? DIRENT) then panic msg else mret (de_decode r.2).

(** The loop of [dirlookup]: the inode number and the offset of the entry. *)
Fixpoint dirlookup_loop (dp : nat) (name : list Z) (off : Z) (fuel : nat) : M fsst (option (Z * Z)) :=
  d ← gets (get_inode dp);
  if off <? di_size (in_d d) then
    match fuel with
    | O => nofuel
    | S fuel =>
        de ← read_de dp off "dirlookup read";
        if de_inum de =? 0 then dirlookup_loop dp name (u32 (off + DIRENT)) fuel
        else if namecmp name (de_name de) =? 0 then mret (Some (de_inum de, off))
        else dirlookup_loop dp name (u32 (off + DIRENT)) fuel
    end
  else mret None.

(** [None] is the null pointer; the second component is [*poff]. *)
Definition dirlookup (dp : nat) (name : list Z) : M fsst (option (nat * Z)) :=
  d ← gets (get_inode dp);
  if negb (di_type (in_d d) =? T_DIR) then panic "dirlookup not DIR" else
  r ← dirlookup_loop dp name 0 (Z.to_nat (di_size (in_d d) / DIRENT + 1));
  match r with
  | None => mret None
  | Some (inum, off) => ip ← iget (in_dev d) inum; mret (Some (ip, off))
  end.

(** The loop of [dirlink]: the offset of an empty entry, or the end. *)
Fixpoint dirlink_loop (dp : nat) (off : Z) (fuel : nat) : M fsst Z :=
  d ← gets (get_inode dp);
  if off <? di_size (in_d d) then
    match fuel with
    | O => nofuel
    | S fuel =>
        de ← read_de dp off "dirlink read";
        if de_inum de =? 0 then mret off else dirlink_loop dp (off + DIRENT) fuel
    end
  else mret off.

Definition dirlink (dp : nat) (name : list Z) (inum : Z) : M fsst Z :=
  r ← dirlookup dp name;
  match r with
  | Some (ip, _) => _ ← iput ip; mret (-1)
  | None =>
      d ← gets (get_inode dp);
      off ← dirlink_loop dp 0 (Z.to_nat (di_size (in_d d) / DIRENT + 1));
      let de := mkDirent inum (strncpy (arr name) 0 (Z.to_nat DIRSIZ)) in
      r ← writei dp (FromLocal (de_encode de)) off DIRENT;
      if negb (r =? DIRENT) then panic "dirlink" else mret 0
  end.

(** ** Paths *)

(** A path is its bytes; the end of the list or a NUL ends it. *)
Definition SLASH : Z := 47.
Definition hd0 (p : list Z) : Z := match p with [] => 0 | x :: _ => x end.

Fixpoint skip_slashes (p : list Z) : list Z :=
  match p with
  | x :: p' => if x =? SLASH then skip_slashes p' else p
  | [] => []
  end.

(** The element at the start of the path, and what follows it. *)
Fixpoint path_elem (p : list Z) : list Z * list Z :=
  match p with
  | x :: p' => if negb (x =? SLASH) && negb (x =? 0)
               then let '(e, r) := path_elem p' in (x :: e, r) else ([], p)
  | [] => ([], [])
  end.

(** The rest of the path and the bytes stored in [name]; [None] is the null
    pointer. *)
Definition skipelem (path : list Z) : option (list Z * list Z) :=
  let path := skip_slashes path in
  if hd0 path =? 0 then None else
  let '(s, path) := path_elem path in
  let len := Z.of_nat (length s) in
  let name := if DIRSIZ <=? len then take (Z.to_nat DIRSIZ) s else s ++ [0] in
  Some (skip_slashes path, name).

(** The while loop of [namex]; [name] holds the last element copied. *)
Fixpoint namex_loop (ip : nat) (path : list Z) (nameiparent : bool) (name : list Z) (fuel : nat)
    : M fsst (option nat * list Z) :=
  match skipelem path with
  | None =>
      if nameiparent then _ ← iput ip; mret (None, name) else mret (Some ip, name)
  | Some (path, name) =>
      match fuel with
      | O => nofuel
      | S fuel =>
          _ ← ilock ip;
          i ← gets (get_inode ip);
          if negb (di_type (in_d i) =? T_DIR) then _ ← iunlockput ip; mret (None, name) else
          if nameiparent && (hd0 path =? 0) then _ ← iunlock ip; mret (Some ip, name) else
          next ← dirlookup ip name;
          match next with
          | None => _ ← iunlockput ip; mret (None, name)
          | Some (next, _) => _ ← iunlockput ip; namex_loop next path nameiparent name fuel
          end
      end
  end.

Definition namex (path : list Z) (nameiparent : bool) : M fsst (option nat * list Z) :=
  ip ← (if hd0 path =? SLASH then iget ROOTDEV ROOTINO
        else p ← myproc;
             match p with None => fault "namex: myproc()" | Some p => idup (cp_cwd p) end);
  namex_loop ip path nameiparent [] (length path).

Definition namei (path : list Z) : M fsst (option nat) := r ← namex path false; mret r.1.
Definition nameiparent (path : list Z) : M fsst (option nat * list Z) := namex path true.
