(* ===== verification/FsTx.v ===== *)
(** * Blocks inside a transaction

    The operations of fs.c work on blocks through bread, log_write and brelse
    between begin_op and end_op.  [tx] describes the cache, the log and the
    locks at any point in between as fs.c sees them: the contents [g] of the
    blocks, the buffers [H] the process holds, the blocks [D] it has modified
    and not yet passed to log_write, and a bound [L] on the blocks in the log.
    The disk [d] does not change until the transaction commits.  The rules are
    stated with [wp], the weakest precondition of a run that returns. *)

From Stdlib Require Import ZArith Lia.
From stdpp Require Import base gmap list numbers strings.
From S2P Require Import Prelude Riscv Core Spinlock Wp Kstring Kalloc Vm Sleeplock Bio BioAbs Log LogOps Fs.
Local Open Scope Z_scope.

(** ** The state of a transaction *)

Section tx.
Context (dv SZ out : Z) (d : disk) (cb : core).

Definition tx (H : list (nat * Z)) (D : list Z) (L : gset Z) (g : Z -> list Z) (c : core) (s : logst) : Prop :=
  let l := ls_log s in
  exists tr f, c = holds (H.*1) (woke tr cb) /\
    abs dv (ls_bio s) f g d /\ opened dv (ls_bio s) H /\ NoDup (H.*2) /\
    (forall b, f b = (if decide (b ∈ H.*2) then 1 else 0) + (if decide (b ∈ homes l) then 1 else 0)) /\
    NoDup (homes l) /\ list_to_set (homes l) ⊆ L /\
    0 <= lh_n l /\ length (lh_block l) = 30%nat /\ lg_size l = SZ /\ lg_outstanding l = out /\
    (forall b, b ∉ homes l -> b ∉ D -> g b = disk_read d b).

(** The parts of the file system state outside the log are parameters. *)
Definition ftx (H : list (nat * Z)) (D : list Z) (L : gset Z) (g : Z -> list Z) (sb : superblock)
    (it : list inode) (km : kmem) (c : core) (s : fsst) : Prop :=
  fs_sb s = sb /\ fs_itable s = it /\ fs_kmem s = km /\ tx H D L g c (fs_log s).

(** Room for another block in the log, and for another buffer in the cache. *)
Definition log_room (L : gset Z) : Prop := Z.of_nat (size L) < LOGSIZE /\ Z.of_nat (size L) < SZ - 1.
Definition cache_room (H : list (nat * Z)) (L : gset Z) : Prop := (length H + size L < HEAD)%nat.

Lemma tx_g H D L g c s b : tx H D L g c s -> blk_ok (g b).
Proof. intros (tr & f & _ & (Hi & _ & Hg & _) & _). rewrite <-Hg. by apply view_ok. Qed.

Lemma homes_size (L : gset Z) l : NoDup (homes l) -> list_to_set (homes l) ⊆ L -> 0 <= lh_n l -> lh_n l <= Z.of_nat (size L).
Proof.
  intros Hnd HL Hn. assert (length (homes l) <= size L)%nat as H.
  { rewrite <-(size_list_to_set (C := gset Z) (homes l)) by done. by apply subseteq_size. }
  unfold homes in H. rewrite length_fmap, length_seqZ in H. lia.
Qed.

Hypothesis (Hcore : bio_core cb) (Hlog : lock_free LkLog cb).

Lemma tx_bread H D L g c s b :
  tx H D L g c s -> b ∉ H.*2 -> cache_room H L ->
  wp (bio (bread dv b)) c s (fun i c' s' => tx ((i, b) :: H) D L g c' s' /\ ls_log s' = ls_log s).
Proof.
  intros (tr & f & -> & Ha & Ho & Hnd & Hf & Hh & HL & Hn & Hlen & Hsz & Hout & Hcl) Hb Hroom.
  destruct (bread_abs dv H (woke tr cb) (ls_bio s) f g d b) as (i & s' & Hr & Ho' & Ha');
    [by apply bio_core_woke|done|done|done| | |].
  { rewrite Hf. repeat case_decide; lia. }
  { right. exists (H.*2 ++ homes (ls_log s)). split.
    - intros x Hx. rewrite Hf in Hx. apply elem_of_app. repeat case_decide; (auto || lia).
    - rewrite length_app, length_fmap. unfold cache_room in Hroom.
      pose proof (homes_size L (ls_log s) Hh HL Hn) as Hsize.
      unfold homes. rewrite length_fmap, length_seqZ. lia. }
  exists i, (holds (i :: H.*1) (woke tr cb)), (mkLogst (ls_log s) s').
  split; [by apply bio_ok|]. split; [|done]. exists tr, (upd f b (f b + 1)).
  split_and!; try done; [by apply NoDup_cons|].
  intros x. unfold upd. rewrite !Hf. rewrite fmap_cons. cbn [snd ls_log]. destruct (Z.eqb_spec x b) as [->|Hx].
  - rewrite (decide_False (P := b ∈ H.*2)), (decide_True (P := b ∈ b :: H.*2)) by (done || by left). lia.
  - rewrite (decide_ext (x ∈ b :: H.*2) (x ∈ H.*2)); [done|]. rewrite elem_of_cons. naive_solver.
Qed.

Lemma tx_data H D L g c s i b :
  tx H D L g c s -> (i, b) ∈ H -> wp (bio (gets (fun s => b_data (get_buf i s)))) c s
    (fun x c' s' => x = g b /\ c' = c /\ s' = s).
Proof.
  intros (tr & f & -> & Ha & Ho & _) Hin. destruct (handle_data dv (ls_bio s) H f g d i b Ha Ho Hin) as (Hd & _).
  eexists _, _, _. split; [apply bio_ok; reflexivity|]. split_and!; [done|done|by destruct s].
Qed.

Lemma tx_store H D L g c s i b x :
  tx H D L g c s -> (i, b) ∈ H -> blk_ok x ->
  wp (bio (modify (upd_buf i (with_data x)))) c s (fun _ c' s' => tx H (b :: D) L (upd g b x) c' s').
Proof.
  intros (tr & f & -> & Ha & Ho & Hnd & Hf & Hh & HL & Hn & Hlen & Hsz & Hout & Hcl) Hin Hx.
  destruct (store_abs dv (ls_bio s) H f g d i b x Ha Ho Hin Hx) as [Ho' Ha'].
  eexists _, _, _. split; [apply bio_ok; reflexivity|]. exists tr, f. split_and!; try done.
  intros y Hy [Hyb HyD]%not_elem_of_cons. rewrite upd_ne by done. by apply Hcl.
Qed.

Lemma tx_log_write H D L g c s i b :
  tx H (b :: D) L g c s -> (i, b) ∈ H -> 0 <= b < 2 ^ 32 -> log_room L -> 1 <= out ->
  wp (log_write i) c s (fun _ c' s' => tx H D ({[b]} ∪ L) g c' s').
Proof.
  intros (tr & f & -> & Ha & Ho & Hnd & Hf & Hh & HL & Hn & Hlen & Hsz & Hout & Hcl) Hin Hb [Hr1 Hr2] Hout1.
  pose proof (homes_size L (ls_log s) Hh HL Hn) as Hsize.
  assert (Hf1 : f b + 1 < 2 ^ 31) by (rewrite Hf; repeat case_decide; lia).
  destruct (log_write_ok dv (woke tr cb) s H f g d i b) as (s' & Hrun & Ho' & Hsame & Hcase);
    [by apply bio_core_woke|by apply lock_free_woke|done|done|done|done|done|done|lia|lia|lia|].
  destruct Hsame as (_ & Es & Eo & _ & _ & El). eexists _, _, _. split; [exact Hrun|].
  destruct (decide (b ∈ homes (ls_log s))) as [Hbh|Hbh].
  - destruct Hcase as (En & Eh & Ha'). exists tr, f. rewrite Eh, En, Es, Eo, El.
    split_and!; try done; [set_solver|]. intros y Hy HyD. apply Hcl; [done|]. set_solver.
  - destruct Hcase as (En & Eh & Ha'). exists tr, (upd f b (f b + 1)). rewrite Eh, En, Es, Eo, El.
    assert (HbH : b ∈ H.*2) by (by apply (list_elem_of_fmap_2 snd _ (i, b))).
    split_and!; try done; [| | |lia|].
    + intros y. unfold upd. rewrite !Hf. destruct (Z.eqb_spec y b) as [->|Hy].
      * rewrite (decide_True (P := b ∈ H.*2)), (decide_False (P := b ∈ homes (ls_log s))), decide_True by set_solver. lia.
      * by rewrite (decide_ext (y ∈ homes (ls_log s) ++ [b]) (y ∈ homes (ls_log s))) by set_solver.
    + apply NoDup_app. split_and!; [done|set_solver|apply NoDup_singleton].
    + rewrite list_to_set_app_L. set_solver.
    + intros y Hy HyD. apply Hcl; set_solver.
Qed.

Lemma tx_brelse H D L g c s i b :
  tx ((i, b) :: H) D L g c s -> b ∉ D ->
  wp (bio (brelse i)) c s (fun _ c' s' => tx H D L g c' s').
Proof.
  intros (tr & f & -> & Ha & Ho & Hnd & Hf & Hh & HL & Hn & Hlen & Hsz & Hout & Hcl) HbD.
  rewrite fmap_cons in Hnd. apply list.NoDup_cons in Hnd as [Hb Hnd]. cbn [snd] in Hb.
  assert (Hfb : forall x, f x = (if decide (x = b) then 1 else if decide (x ∈ H.*2) then 1 else 0) +
                           (if decide (x ∈ homes (ls_log s)) then 1 else 0)).
  { intros x. rewrite Hf, fmap_cons. cbn [snd]. repeat case_decide; set_solver. }
  destruct (brelse_abs dv (woke tr cb) (ls_bio s) H f g d i b) as (s' & tr' & Hr & Ho' & Ha');
    [by apply bio_core_woke|done|done| |].
  { rewrite Hfb, decide_True by done. intros E. apply Hcl; [|done]. intros Hin. rewrite decide_True in E by done. lia. }
  eexists _, _, _. split; [apply bio_ok; exact Hr|]. exists (tr ++ tr'), (upd f b (f b - 1)).
  split_and!; try done.
  - rewrite <-woke_woke. by rewrite (holds_woke (H.*1) tr' (woke tr cb)).
  - intros x. unfold upd. cbn [ls_log]. rewrite !Hfb. destruct (Z.eqb_spec x b) as [->|Hx].
    + rewrite decide_True, (decide_False (P := b ∈ H.*2)) by done. lia.
    + by rewrite decide_False.
Qed.
End tx.

(** ** The rules for fs.c *)

Lemma wp_flog {A} (m : M logst A) c (s : fsst) Q :
  wp m c (fs_log s) (fun a c' ls => Q a c' (mkFsst (fs_sb s) (fs_itable s) ls (fs_kmem s))) -> wp (flog m) c s Q.
Proof.
  intros (a & c' & ls & Hm & HQ). eexists _, _, _. split; [|exact HQ]. unfold flog.
  by rewrite (lift_ok fs_logl m c s a c' ls Hm).
Qed.

Section room.
Context (SZ : Z).

(** Room for [k] more blocks in the log, with [h] buffers held at the same time. *)
Definition room (k h : nat) (L : gset Z) : Prop :=
  Z.of_nat (size L + k) <= SZ - 1 /\ (size L + k + h <= HEAD)%nat.

Lemma room_le k k' h h' L : room k h L -> (k' <= k)%nat -> (h' <= h)%nat -> room k' h' L.
Proof. intros [H1 H2] ? ?. split; lia. Qed.
Lemma room_add k h L b : room (S k) h L -> room k h ({[b]} ∪ L).
Proof.
  intros [H1 H2]. pose proof (size_union_alt ({[b]} : gset Z) L) as Hs.
  assert (size (L ∖ {[b]}) <= size L)%nat by (apply subseteq_size; set_solver).
  rewrite size_singleton in Hs. split; lia.
Qed.
Lemma room_in k h L b : b ∈ L -> room k h L -> room k h ({[b]} ∪ L).
Proof. intros Hb. by replace ({[b]} ∪ L) with L by set_solver. Qed.
Lemma room_log k h L : room (S k) h L -> log_room SZ L.
Proof. intros [H1 H2]. unfold log_room, LOGSIZE, MAXOPBLOCKS. change HEAD with 30%nat in H2. lia. Qed.
Lemma room_cache k h L H : room k h L -> (length H < h)%nat -> cache_room H L.
Proof. intros [H1 H2] Hh. unfold cache_room. lia. Qed.

End room.

Section ftx.
Context (dv SZ out : Z) (d : disk) (cb : core).
Hypothesis (Hcore : bio_core cb) (Hlog : lock_free LkLog cb) (Hout : 1 <= out).
Notation F := (ftx dv SZ out d cb).

Lemma tx_weaken H D D' L L' g c s :
  tx dv SZ out d cb H D L g c s -> L ⊆ L' -> (forall b, b ∈ D -> b ∈ D') -> tx dv SZ out d cb H D' L' g c s.
Proof.
  intros (tr & f & ? & ? & ? & ? & ? & ? & HL & ? & ? & ? & ? & Hcl) Hs HD. exists tr, f. split_and!; try done.
  - set_solver.
  - intros b Hb HbD. apply Hcl; [done|]. auto.
Qed.

Implicit Types (sb : superblock) (it : list inode) (km : kmem) (s : fsst).

Lemma ftx_weaken H D D' L L' g sb it km c s :
  F H D L g sb it km c s -> L ⊆ L' -> (forall b, b ∈ D -> b ∈ D') -> F H D' L' g sb it km c s.
Proof. intros (? & ? & ? & Ht) ? ?. split_and!; try done. by eapply tx_weaken. Qed.

Lemma ftx_blk H D L g sb it km c s b : F H D L g sb it km c s -> blk_ok (g b).
Proof. intros (_ & _ & _ & Ht). by eapply tx_g. Qed.

Lemma f_bread k h H D L g sb it km c s b :
  F H D L g sb it km c s -> b ∉ H.*2 -> room SZ k h L -> (length H < h)%nat ->
  wp (fbio (bread dv b)) c s (fun i c' s' => F ((i, b) :: H) D L g sb it km c' s').
Proof.
  intros (E1 & E2 & E3 & Ht) Hb Hr Hh. apply wp_flog.
  eapply wp_mono; [eapply (tx_bread dv SZ out d cb Hcore H D L g); eauto using room_cache|].
  intros i c' ls [Ht' _]. by split_and!.
Qed.

Lemma f_bdata H D L g sb it km c s i b :
  F H D L g sb it km c s -> (i, b) ∈ H -> wp (bdata i) c s (fun x c' s' => x = g b /\ c' = c /\ s' = s).
Proof.
  intros (E1 & E2 & E3 & Ht) Hin. apply wp_flog.
  eapply wp_mono; [eapply (tx_data dv SZ out d cb H D L g); eauto|]. intros x c' ls (-> & -> & ->). by destruct s.
Qed.

Lemma f_set_bdata H D L g sb it km c s i b x :
  F H D L g sb it km c s -> (i, b) ∈ H -> blk_ok x ->
  wp (set_bdata i x) c s (fun _ c' s' => F H (b :: D) L (upd g b x) sb it km c' s').
Proof.
  intros (E1 & E2 & E3 & Ht) Hin Hx. apply wp_flog.
  eapply wp_mono; [eapply (tx_store dv SZ out d cb H D L g); eauto|]. intros ? c' ls Ht'. by split_and!.
Qed.

Lemma f_log_write k h H D L g sb it km c s i b :
  F H (b :: D) L g sb it km c s -> (i, b) ∈ H -> 0 <= b < 2 ^ 32 -> room SZ (S k) h L ->
  wp (flog (log_write i)) c s (fun _ c' s' => F H D ({[b]} ∪ L) g sb it km c' s').
Proof.
  intros (E1 & E2 & E3 & Ht) Hin Hb Hr. apply wp_flog.
  eapply wp_mono; [eapply (tx_log_write dv SZ out d cb Hcore Hlog H D L g); eauto using room_log|].
  intros ? c' ls Ht'. by split_and!.
Qed.

Lemma f_brelse H D L g sb it km c s i b :
  F ((i, b) :: H) D L g sb it km c s -> b ∉ D ->
  wp (fbio (brelse i)) c s (fun _ c' s' => F H D L g sb it km c' s').
Proof.
  intros (E1 & E2 & E3 & Ht) HbD. apply wp_flog.
  eapply wp_mono; [eapply (tx_brelse dv SZ out d cb Hcore Hlog H D L g); eauto|]. intros ? c' ls Ht'. by split_and!.
Qed.

(** Read, modify, log and release: the new contents of block [b] are [x]. *)
Lemma f_rewrite k h H D L g sb it km c s i b x :
  F ((i, b) :: H) D L g sb it km c s -> b ∉ D -> blk_ok x -> 0 <= b < 2 ^ 32 -> room SZ (S k) h L ->
  wp (_ ← set_bdata i x; _ ← flog (log_write i); fbio (brelse i)) c s
    (fun _ c' s' => F H D ({[b]} ∪ L) (upd g b x) sb it km c' s').
Proof.
  intros Hf HbD Hx Hb Hr. wrun f_set_bdata; [exact Hf|by left|done|]. intros [] c1 s1 H1.
  wrun f_log_write; [exact H1|by left|done|exact Hr|]. intros [] c2 s2 H2. by eapply f_brelse.
Qed.

Lemma f_rewrite_k {A} k h H D L g sb it km c s i b x (rest : M fsst A) Q :
  F ((i, b) :: H) D L g sb it km c s -> b ∉ D -> blk_ok x -> 0 <= b < 2 ^ 32 -> room SZ (S k) h L ->
  (forall c' s', F H D ({[b]} ∪ L) (upd g b x) sb it km c' s' -> wp rest c' s' Q) ->
  wp (_ ← set_bdata i x; _ ← flog (log_write i); _ ← fbio (brelse i); rest) c s Q.
Proof.
  intros Hf HbD Hx Hb Hr Hk. wrun f_set_bdata; [exact Hf|by left|done|]. intros [] c1 s1 H1.
  wrun f_log_write; [exact H1|by left|done|exact Hr|]. intros [] c2 s2 H2.
  wrun f_brelse; [exact H2|done|]. intros [] c3 s3 H3. by apply Hk.
Qed.

(** ** bzero *)

Lemma zeros_blk : blk_ok (repeat 0 (Z.to_nat BSIZE)).
Proof. split; [done|]. apply Forall_forall. intros x Hx%list_elem_of_In%repeat_spec. subst. unfold is_byte. lia. Qed.

Lemma bzero_ok k h H D L g sb it km c s b :
  F H D L g sb it km c s -> b ∉ H.*2 -> b ∉ D -> 0 <= b < 2 ^ 32 -> room SZ (S k) h L -> (length H < h)%nat ->
  wp (bzero dv b) c s (fun _ c' s' => F H D ({[b]} ∪ L) (upd g b (repeat 0 (Z.to_nat BSIZE))) sb it km c' s').
Proof.
  intros Hf HbH HbD Hb Hr Hh. unfold bzero. wrun f_bread; [exact Hf|done|exact Hr|done|]. intros i c1 s1 H1.
  eapply f_rewrite; eauto using zeros_blk.
Qed.
End ftx.
