(* ===== verification/FsBitmap.v ===== *)
(** * The free bitmap: balloc and bfree of kernel/fs.c

    The bits of a bitmap block, and the block allocator inside a
    transaction.  mkfs makes file systems of FSSIZE = 1000 blocks, whose
    bitmap is one block; [sb_ok] says so, with the order of the regions. *)

From Stdlib Require Import ZArith Lia.
From stdpp Require Import base gmap list numbers strings.
From S2P Require Import Prelude Riscv Core Spinlock Wp Kstring Kalloc Vm Sleeplock Bio BioAbs Log LogOps Fs FsTx.
Local Open Scope Z_scope.

(** ** Bits *)

Lemma land_bit x k : 0 <= k -> (Z.land x (Z.shiftl 1 k) =? 0) = negb (Z.testbit x k).
Proof.
  intros Hk. rewrite Z.shiftl_1_l. destruct (Z.testbit x k) eqn:E; simpl.
  - apply Z.eqb_neq. intros H. apply (f_equal (fun y => Z.testbit y k)) in H.
    by rewrite Z.land_spec, Z.pow2_bits_true, Z.bits_0, E in H by done.
  - apply Z.eqb_eq, Z.bits_inj. intros j. rewrite Z.land_spec, Z.bits_0, Z.pow2_bits_eqb by done.
    destruct (Z.eqb_spec k j) as [->|]; [by rewrite E|by rewrite andb_false_r].
Qed.

Lemma u8_testbit x j : 0 <= j < 8 -> Z.testbit (u8 x) j = Z.testbit x j.
Proof. intros Hj. unfold u8. by rewrite Z.mod_pow2_bits_low by lia. Qed.

Lemma bit_free_testbit data bi :
  0 <= bi -> bit_free data bi = negb (Z.testbit (nth (Z.to_nat (bi / 8)) data 0) (bi mod 8)).
Proof. intros H. unfold bit_free, bitmask. apply land_bit. apply Z.mod_pos_bound. lia. Qed.

(** Rewriting one byte of a block changes the bits of that byte only. *)
Lemma bit_free_insert data k v bi :
  (k < length data)%nat -> 0 <= bi ->
  bit_free (<[k := v]> data) bi =
    if (k =? Z.to_nat (bi / 8))%nat then negb (Z.testbit v (bi mod 8)) else bit_free data bi.
Proof.
  intros Hk Hbi. rewrite !bit_free_testbit by done. destruct (Nat.eqb_spec k (Z.to_nat (bi / 8))) as [<-|Hne].
  - f_equal. f_equal. apply (nth_lookup_Some (<[k := v]> data) k 0 v). by apply list_lookup_insert_eq.
  - f_equal. f_equal. rewrite !nth_lookup. by rewrite list_lookup_insert_ne.
Qed.

Lemma byte_insert k v data : blk_ok data -> blk_ok (<[k := u8 v]> data).
Proof.
  intros [Hl Hb]. split; [by rewrite length_insert|]. apply Forall_insert; [done|]. apply u8_range.
Qed.

Section bits.
Context (data : list Z) (bi : Z) (Hd : blk_ok data) (Hbi : 0 <= bi < BPB).

Lemma bi_byte : (Z.to_nat (bi / 8) < length data)%nat.
Proof.
  destruct Hd as [-> _]. unfold BPB, BSIZE in Hbi. assert (bi / 8 < 1024) by (apply Z.div_lt_upper_bound; lia).
  assert (0 <= bi / 8) by (apply Z.div_pos; lia). lia.
Qed.

Lemma byte_bit bj : 0 <= bj -> Z.to_nat (bi / 8) = Z.to_nat (bj / 8) -> bi mod 8 = bj mod 8 -> bi = bj.
Proof.
  intros Hj H1 H2. pose proof (Z.div_mod bi 8). pose proof (Z.div_mod bj 8).
  assert (0 <= bi / 8) by (apply Z.div_pos; lia). assert (0 <= bj / 8) by (apply Z.div_pos; lia). lia.
Qed.

Lemma set_bit_ok : blk_ok (set_bit data bi).
Proof. by apply byte_insert. Qed.
Lemma clear_bit_ok : blk_ok (clear_bit data bi).
Proof. by apply byte_insert. Qed.

Lemma bit_free_set bj : 0 <= bj -> bit_free (set_bit data bi) bj = if bj =? bi then false else bit_free data bj.
Proof.
  intros Hj. unfold set_bit. rewrite bit_free_insert by (done || apply bi_byte).
  pose proof (Z.mod_pos_bound bj 8) as Hm. pose proof (Z.mod_pos_bound bi 8) as Hmi.
  destruct (Nat.eqb_spec (Z.to_nat (bi / 8)) (Z.to_nat (bj / 8))) as [E|E].
  - rewrite u8_testbit, Z.lor_spec by lia. unfold bitmask. rewrite Z.shiftl_1_l, Z.pow2_bits_eqb by lia.
    destruct (Z.eqb_spec bj bi) as [->|Hne]; [by rewrite Z.eqb_refl, orb_true_r|].
    rewrite bit_free_testbit, E by done. destruct (Z.eqb_spec (bi mod 8) (bj mod 8)) as [E2|]; [|by rewrite orb_false_r].
    by pose proof (byte_bit bj Hj E E2).
  - destruct (Z.eqb_spec bj bi) as [->|]; done.
Qed.

Lemma bit_free_clear bj : 0 <= bj -> bit_free (clear_bit data bi) bj = if bj =? bi then true else bit_free data bj.
Proof.
  intros Hj. unfold clear_bit. rewrite bit_free_insert by (done || apply bi_byte).
  pose proof (Z.mod_pos_bound bj 8) as Hm. pose proof (Z.mod_pos_bound bi 8) as Hmi.
  destruct (Nat.eqb_spec (Z.to_nat (bi / 8)) (Z.to_nat (bj / 8))) as [E|E].
  - rewrite u8_testbit, Z.land_spec, Z.lnot_spec by lia. unfold bitmask. rewrite Z.shiftl_1_l, Z.pow2_bits_eqb by lia.
    destruct (Z.eqb_spec bj bi) as [->|Hne]; [by rewrite Z.eqb_refl, andb_false_r|].
    rewrite bit_free_testbit, E by done. destruct (Z.eqb_spec (bi mod 8) (bj mod 8)) as [E2|]; [|by rewrite andb_true_r].
    by pose proof (byte_bit bj Hj E E2).
  - destruct (Z.eqb_spec bj bi) as [->|]; done.
Qed.
End bits.

(** ** Layout *)

(** boot block, super block, log, inode blocks, one bitmap block, data blocks *)
Record sb_ok (sb : superblock) : Prop := mkSbOk {
  so_size : sb_size sb <= BPB;
  so_ino : 0 < sb_inodestart sb;
  so_nino : 0 <= sb_ninodes sb /\ sb_inodestart sb + sb_ninodes sb / IPB < sb_bmapstart sb;
  so_bmap : sb_bmapstart sb < sb_size sb
}.

(** [b] is marked free in the bitmap. *)
Definition is_free (g : Z -> list Z) (sb : superblock) (b : Z) : bool := bit_free (g (sb_bmapstart sb)) b.
Definition data_blk (sb : superblock) (b : Z) : Prop := sb_bmapstart sb < b < sb_size sb.

(** The blocks of the file system's own structures are marked used. *)
Definition meta_used (g : Z -> list Z) (sb : superblock) : Prop :=
  forall b, 0 <= b <= sb_bmapstart sb -> is_free g sb b = false.

(** There are at least [k] free blocks. *)
Definition nfree (g : Z -> list Z) (sb : superblock) (k : nat) : Prop :=
  exists l : gset Z, (k <= size l)%nat /\ forall b, b ∈ l -> 0 <= b < sb_size sb /\ is_free g sb b = true.

Lemma sb_range sb b : sb_ok sb -> 0 <= b < sb_size sb -> 0 <= b < 2 ^ 32 /\ b < BPB.
Proof. intros [Hs _ _ _] Hb. unfold BPB, BSIZE in *. lia. Qed.
Lemma sb_bm sb : sb_ok sb -> 0 <= sb_bmapstart sb < sb_size sb.
Proof.
  intros [Hs Hi [Hn Hb] Hm]. assert (0 <= sb_ninodes sb / IPB) by (apply Z.div_pos; [done|done]).
  lia.
Qed.
Lemma free_data g sb b : sb_ok sb -> meta_used g sb -> 0 <= b < sb_size sb -> is_free g sb b = true -> data_blk sb b.
Proof.
  intros Hs Hm Hb Hf. split; [|lia]. destruct (Z.le_gt_cases b (sb_bmapstart sb)); [|lia].
  rewrite Hm in Hf by lia. done.
Qed.
Lemma bblock sb b : sb_ok sb -> 0 <= b < sb_size sb -> BBLOCK b sb = sb_bmapstart sb /\ b mod BPB = b.
Proof.
  intros Hs Hb. pose proof (sb_range sb b Hs Hb) as [_ Hlt]. unfold BBLOCK. rewrite Z.div_small, Z.mod_small by lia. lia.
Qed.

Lemma balloc_scan_spec data size k bi :
  0 <= bi ->
  match balloc_scan data size 0 bi k with
  | Some r => bi <= r < bi + Z.of_nat k /\ r < size /\ bit_free data r = true /\
              forall j, bi <= j < r -> bit_free data j = false
  | None => forall j, bi <= j < bi + Z.of_nat k -> j < size -> bit_free data j = false
  end.
Proof.
  revert bi. induction k as [|k IH]; intros bi Hbi; cbn [balloc_scan].
  - intros. lia.
  - destruct (Z.ltb_spec (0 + bi) size) as [Hlt|Hge]; [|intros; lia].
    destruct (bit_free data bi) eqn:E.
    + split_and!; try (done || lia).
    + specialize (IH (bi + 1) ltac:(lia)). destruct (balloc_scan data size 0 (bi + 1) k) as [r|].
      * destruct IH as (Hr & Hs & Hf & Hb). split_and!; try (done || lia).
        intros j Hj. destruct (decide (j = bi)) as [->|]; [done|]. apply Hb. lia.
      * intros j Hj Hs. destruct (decide (j = bi)) as [->|]; [done|]. apply IH; lia.
Qed.

(** ** balloc and bfree *)

(** What allocating [b] does to the blocks. *)
Definition alloc_blk (g : Z -> list Z) (sb : superblock) (b : Z) : Z -> list Z :=
  upd (upd g (sb_bmapstart sb) (set_bit (g (sb_bmapstart sb)) b)) b (repeat 0 (Z.to_nat BSIZE)).

Lemma alloc_blk_free g sb b x :
  sb_ok sb -> data_blk sb b -> blk_ok (g (sb_bmapstart sb)) -> 0 <= x ->
  is_free (alloc_blk g sb b) sb x = if x =? b then false else is_free g sb x.
Proof.
  intros Hs Hb Hk Hx. unfold is_free, alloc_blk. pose proof (sb_bm sb Hs). unfold data_blk in Hb.
  rewrite upd_ne, upd_eq by lia. apply bit_free_set; [done| |done]. pose proof (sb_range sb b Hs ltac:(lia)). lia.
Qed.

Lemma alloc_meta g sb b :
  sb_ok sb -> data_blk sb b -> blk_ok (g (sb_bmapstart sb)) -> meta_used g sb -> meta_used (alloc_blk g sb b) sb.
Proof. intros Hs Hb Hk Hm x Hx. rewrite alloc_blk_free by (done || lia). case_match; [done|]. by apply Hm. Qed.

Lemma alloc_nfree g sb b k :
  sb_ok sb -> data_blk sb b -> blk_ok (g (sb_bmapstart sb)) -> nfree g sb (S k) -> nfree (alloc_blk g sb b) sb k.
Proof.
  intros Hs Hb Hk (l & Hl & Hfree). exists (l ∖ {[b]}). split.
  - pose proof (size_union_alt ({[b]} : gset Z) l) as Hz. rewrite size_singleton in Hz.
    assert (size l <= size ({[b]} ∪ l))%nat by (apply subseteq_size; set_solver). lia.
  - intros x [Hx Hne]%elem_of_difference. destruct (Hfree x Hx) as [Hr Hf]. split; [done|].
    rewrite alloc_blk_free by (done || lia). assert (x <> b) by set_solver. bfalse (x =? b). done.
Qed.

Section alloc.
Context (dv SZ out : Z) (d : disk) (cb : core).
Hypothesis (Hcore : bio_core cb) (Hlog : lock_free LkLog cb) (Hout : 1 <= out).
Notation F := (ftx dv SZ out d cb).
Implicit Types (sb : superblock) (it : list inode) (km : kmem) (s : fsst).

(** With a free block in the file system, balloc takes the first one, which
    is then marked used and all zeros; nothing else changes. *)
Lemma balloc_ok k h H D L g sb it km c s :
  F H D L g sb it km c s -> sb_ok sb -> meta_used g sb -> nfree g sb 1 ->
  sb_bmapstart sb ∉ H.*2 -> sb_bmapstart sb ∉ D -> sb_bmapstart sb ∈ L ->
  (forall b, b ∈ H.*2 \/ b ∈ D -> data_blk sb b -> is_free g sb b = false) ->
  room SZ (S k) h L -> (length H < h)%nat ->
  wp (balloc dv) c s (fun b c' s' => data_blk sb b /\ is_free g sb b = true /\
    (forall x, 0 <= x < b -> is_free g sb x = false) /\
    F H D ({[b]} ∪ L) (alloc_blk g sb b) sb it km c' s').
Proof.
  intros Hf Hs Hm Hn HbH HbD HbL Hused Hr Hh. pose proof (sb_bm sb Hs) as Hbm. pose proof (proj1 Hf) as Esb.
  destruct Hn as (l & Hl & Hfree). destruct (set_choose_or_empty l) as [[x Hx]|He]; [|rewrite leibniz_equiv_iff in He; subst l; rewrite size_empty in Hl; lia].
  destruct (Hfree x Hx) as [Hxr Hxf]. pose proof (sb_range sb x Hs Hxr) as [_ Hxb].
  unfold balloc. wgets. rewrite Esb.
  assert (exists n, Z.to_nat (sb_size sb / BPB + 1) = S n) as [n ->].
  { assert (0 <= sb_size sb / BPB) by (apply Z.div_pos; [lia|done]). exists (Z.to_nat (sb_size sb / BPB)). lia. }
  cbn [balloc_loop]. wgets. rewrite Esb. btrue (0 <? sb_size sb).
  change (BBLOCK 0 sb) with (0 + sb_bmapstart sb). rewrite Z.add_0_l.
  wrun f_bread; [exact Hcore|exact Hf|done|exact Hr|done|]. intros i c1 s1 H1.
  wrun f_bdata; [exact H1|by left|]. intros data c2 s2 (-> & -> & ->).
  pose proof (balloc_scan_spec (g (sb_bmapstart sb)) (sb_size sb) (Z.to_nat BPB) 0 ltac:(lia)) as Hscan.
  destruct (balloc_scan _ _ _ _ _) as [b|].
  2: { specialize (Hscan x). unfold is_free in Hxf. rewrite Hscan in Hxf by (unfold BPB, BSIZE in *; lia). done. }
  destruct Hscan as (Hb1 & Hb2 & Hbf & Hfirst). rewrite !Z.add_0_l in *.
  assert (Hbd : data_blk sb b) by (apply (free_data g); (done || lia)).
  assert (Hblk : blk_ok (g (sb_bmapstart sb))) by by eapply ftx_blk.
  pose proof (sb_range sb b Hs ltac:(lia)) as [Hb32 HbB]. pose proof (sb_range sb (sb_bmapstart sb) Hs Hbm) as [Hbm32 _].
  eapply f_rewrite_k; [exact Hcore|exact Hlog|exact Hout|exact H1|done|by apply set_bit_ok|done|exact Hr|]. intros c3 s3 H3.
  replace ({[sb_bmapstart sb]} ∪ L) with L in H3 by set_solver.
  wrun bzero_ok; [exact Hcore|exact Hlog|exact Hout|exact H3| | |done|exact Hr|done|].
  { intros Hin. specialize (Hused b (or_introl Hin) Hbd). unfold is_free in Hused. congruence. }
  { intros Hin. specialize (Hused b (or_intror Hin) Hbd). unfold is_free in Hused. congruence. }
  intros [] c4 s4 H4. apply wp_ret. split_and!; try done.
Qed.

(** bfree of a used block marks it free again. *)
Lemma bfree_ok k h H D L g sb it km c s b :
  F H D L g sb it km c s -> sb_ok sb -> data_blk sb b -> is_free g sb b = false ->
  sb_bmapstart sb ∉ H.*2 -> sb_bmapstart sb ∉ D -> room SZ (S k) h L -> (length H < h)%nat ->
  wp (bfree dv b) c s (fun _ c' s' =>
    F H D ({[sb_bmapstart sb]} ∪ L) (upd g (sb_bmapstart sb) (clear_bit (g (sb_bmapstart sb)) b)) sb it km c' s').
Proof.
  intros Hf Hs Hbd Hu HbH HbD Hr Hh. pose proof (sb_bm sb Hs) as Hbm. pose proof (proj1 Hf) as Esb.
  unfold data_blk in Hbd. destruct (bblock sb b Hs ltac:(lia)) as [Eb Em].
  pose proof (sb_range sb (sb_bmapstart sb) Hs Hbm) as [Hbm32 _].
  unfold bfree. wgets. rewrite Esb, Eb. wrun f_bread; [exact Hcore|exact Hf|done|exact Hr|done|]. intros i c1 s1 H1.
  wrun f_bdata; [exact H1|by left|]. intros data c2 s2 (-> & -> & ->). rewrite Em. unfold is_free in Hu. rewrite Hu.
  eapply f_rewrite; [exact Hcore|exact Hlog|exact Hout|exact H1|done| |done|exact Hr].
  apply clear_bit_ok. by eapply ftx_blk.
Qed.

(** A second bfree of the same block panics. *)
Lemma bfree_twice k h H D L g sb it km c s b :
  F H D L g sb it km c s -> sb_ok sb -> data_blk sb b -> is_free g sb b = true ->
  sb_bmapstart sb ∉ H.*2 -> room SZ k h L -> (length H < h)%nat ->
  bfree dv b c s = Panic "freeing free block".
Proof.
  intros Hf Hs Hbd Hu HbH Hr Hh. pose proof (sb_bm sb Hs) as Hbm. pose proof (proj1 Hf) as Esb.
  unfold data_blk in Hbd. destruct (bblock sb b Hs ltac:(lia)) as [Eb Em].
  unfold bfree. rewrite bind_gets, Esb, Eb.
  edestruct f_bread as (i & c1 & s1 & Hrun & H1); [exact Hcore|exact Hf|exact HbH|exact Hr|exact Hh|].
  rewrite (bind_ok _ _ _ _ _ _ _ Hrun).
  destruct (f_bdata dv SZ out d cb ((i, sb_bmapstart sb) :: H) D L g sb it km c1 s1 i (sb_bmapstart sb) H1) as (x & c2 & s2 & Hrun2 & -> & -> & ->);
    [by left|].
  rewrite (bind_ok _ _ _ _ _ _ _ Hrun2), Em. unfold is_free in Hu. by rewrite Hu.
Qed.
End alloc.
