(* ===== verification/FsFile.v ===== *)
(** * The blocks of a file: bmap of kernel/fs.c

    [faddr g d bn] is the block that holds block [bn] of the file with
    on-disk inode [d], or 0, and [file_ok] what the file system keeps true of
    a file: its blocks are data blocks marked used, and no block is used for
    two purposes.  [bmap_ok]: bmap returns that block, or extends the file by a
    zeroed one, and changes no block that was in use before, but for the
    bitmap and the file's indirect block. *)

From Stdlib Require Import ZArith Lia.
From stdpp Require Import base gmap list numbers strings.
From S2P Require Import Prelude Riscv Core Spinlock Wp Kstring Kalloc Vm Sleeplock Bio BioAbs Log LogOps Fs FsTx FsBitmap.
Local Open Scope Z_scope.

(** Numerals for the constants of fs.h. *)
Ltac cst := change NDIRECT with 12 in *; change NINDIRECT with 256 in *; change MAXFILE with 268 in *.

(** ** Indirect blocks *)

Lemma ind_at_put bn bn' a data :
  blk_ok data -> 0 <= a < 2 ^ 32 -> 0 <= bn < NINDIRECT -> 0 <= bn' < NINDIRECT ->
  ind_at bn' (st32 (Z.to_nat (4 * bn)) a data) = if bn' =? bn then a else ind_at bn' data.
Proof.
  intros [Hl _] Ha Hb Hb'. change NINDIRECT with 256 in *. unfold ind_at. destruct (Z.eqb_spec bn' bn) as [->|Hne].
  - rewrite ld32_st32 by lia. unfold u32. by apply Z.mod_small.
  - apply ld32_st32_ne; lia.
Qed.

Lemma ind_at_zeros bn : ind_at bn (repeat 0 (Z.to_nat BSIZE)) = 0.
Proof.
  unfold ind_at, ld32. apply le_val_zeros. unfold slice. apply Forall_take, Forall_drop, Forall_forall.
  by intros x Hx%list_elem_of_In%repeat_spec.
Qed.

Lemma st32_ind_blk bn a data : blk_ok data -> 0 <= bn < NINDIRECT -> blk_ok (st32 (Z.to_nat (4 * bn)) a data).
Proof. intros Hd Hb. change NINDIRECT with 256 in *. apply st32_blk; [lia|done]. Qed.

(** ** The blocks of a file *)

Definition ind (d : dinode) : Z := addr_at NDIRECT d.
Definition faddr (g : Z -> list Z) (d : dinode) (bn : Z) : Z :=
  if bn <? NDIRECT then addr_at bn d
  else if ind d =? 0 then 0 else ind_at (bn - NDIRECT) (g (ind d)).

(** A block that is in use as a data block. *)
Definition in_use (g : Z -> list Z) (sb : superblock) (b : Z) : Prop := data_blk sb b /\ is_free g sb b = false.

Record file_ok (g : Z -> list Z) (sb : superblock) (d : dinode) : Prop := mkFileOk {
  fo_len : length (di_addrs d) = 13%nat;
  fo_ind : ind d = 0 \/ in_use g sb (ind d);
  fo_blk : forall bn, 0 <= bn < MAXFILE -> faddr g d bn = 0 \/ in_use g sb (faddr g d bn);
  fo_inj : forall bn bn', 0 <= bn < MAXFILE -> 0 <= bn' < MAXFILE -> faddr g d bn <> 0 ->
    faddr g d bn = faddr g d bn' -> bn = bn';
  fo_nind : forall bn, 0 <= bn < MAXFILE -> faddr g d bn <> 0 -> faddr g d bn <> ind d
}.

Definition with_addrs (d : dinode) (l : list Z) : dinode :=
  mkDinode (di_type d) (di_major d) (di_minor d) (di_nlink d) (di_size d) l.

Lemma addr_at_set bn bn' a d :
  length (di_addrs d) = 13%nat -> 0 <= bn <= NDIRECT -> 0 <= bn' ->
  addr_at bn' (set_addr bn a d) = if bn' =? bn then a else addr_at bn' d.
Proof.
  intros Hl Hb Hb'. unfold addr_at, set_addr, NDIRECT in *. cbn [di_addrs]. rewrite !nth_lookup.
  destruct (Z.eqb_spec bn' bn) as [->|Hne].
  - by rewrite list_lookup_insert_eq by lia.
  - by rewrite list_lookup_insert_ne by lia.
Qed.

Lemma set_addr_len bn a d : length (di_addrs (set_addr bn a d)) = length (di_addrs d).
Proof. unfold set_addr. cbn [di_addrs]. apply length_insert. Qed.

(** Blocks of a file do not change under a change of [g] elsewhere. *)
Lemma faddr_ext g g' d bn : (ind d <> 0 -> g' (ind d) = g (ind d)) -> faddr g' d bn = faddr g d bn.
Proof.
  intros H. unfold faddr. destruct (bn <? NDIRECT); [done|]. destruct (Z.eqb_spec (ind d) 0); [done|]. by rewrite H.
Qed.

(** How the blocks change: blocks in use keep their contents, except for the
    bitmap and the blocks of [W]; blocks in use stay so, and only [N] are new. *)
Record evolves (g g' : Z -> list Z) (sb : superblock) (W N : Z -> Prop) : Prop := mkEvolves {
  ev_keep : forall b, 0 <= b -> is_free g sb b = false -> b <> sb_bmapstart sb -> ~ W b -> g' b = g b;
  ev_used : forall b, 0 <= b -> is_free g sb b = false -> is_free g' sb b = false;
  ev_new : forall b, 0 <= b -> is_free g' sb b = false -> is_free g sb b = false \/ N b;
  ev_fresh : forall b, N b -> data_blk sb b /\ is_free g sb b = true;
  ev_meta : meta_used g' sb
}.

Section pure.
Context (sb : superblock) (Hs : sb_ok sb).
Implicit Types (g : Z -> list Z) (d : dinode) (W N : Z -> Prop).

Lemma data_pos b : data_blk sb b -> 0 <= b < 2 ^ 32 /\ 0 < b /\ b <> sb_bmapstart sb.
Proof. intros Hb. pose proof (sb_bm sb Hs). unfold data_blk in Hb. pose proof (sb_range sb b Hs ltac:(lia)). lia. Qed.

Lemma evolves_refl g W N : meta_used g sb -> (forall b, ~ N b) -> evolves g g sb W N.
Proof. intros Hm HN. split; auto. intros b Hb. by apply HN in Hb. Qed.

Lemma evolves_trans g1 g2 g3 W1 N1 W2 N2 :
  evolves g1 g2 sb W1 N1 -> evolves g2 g3 sb W2 N2 ->
  evolves g1 g3 sb (fun b => W1 b \/ W2 b) (fun b => N1 b \/ N2 b).
Proof.
  intros E1 E2. split.
  - intros b H0 Hf Hb Hw. rewrite (ev_keep _ _ _ _ _ E2), (ev_keep _ _ _ _ _ E1); auto. by apply (ev_used _ _ _ _ _ E1).
  - intros b H0 Hf. by apply (ev_used _ _ _ _ _ E2), (ev_used _ _ _ _ _ E1).
  - intros b H0 Hf. destruct (ev_new _ _ _ _ _ E2 b H0 Hf) as [H|H]; [|auto].
    destruct (ev_new _ _ _ _ _ E1 b H0 H) as [?|?]; auto.
  - intros b [H|H]; [by apply (ev_fresh _ _ _ _ _ E1)|]. destruct (ev_fresh _ _ _ _ _ E2 b H) as [Hd Hf]. split; [done|].
    destruct (is_free g1 sb b) eqn:E; [done|]. exfalso. pose proof (data_pos b Hd).
    rewrite (ev_used _ _ _ _ _ E1) in Hf; [done|lia|done].
  - apply (ev_meta _ _ _ _ _ E2).
Qed.

Lemma evolves_mono g g' W N W' N' :
  evolves g g' sb W N -> (forall b, 0 <= b -> is_free g sb b = false -> W b -> W' b) -> (forall b, N b <-> N' b) ->
  evolves g g' sb W' N'.
Proof.
  intros E HW HN. split.
  - intros b H0 Hf Hb Hw. apply (ev_keep _ _ _ _ _ E); auto. 
  - apply (ev_used _ _ _ _ _ E).
  - intros b H0 Hf. rewrite <-HN. by apply (ev_new _ _ _ _ _ E).
  - intros b Hb. apply HN in Hb. by apply (ev_fresh _ _ _ _ _ E).
  - apply (ev_meta _ _ _ _ _ E).
Qed.

Lemma alloc_evolves g a :
  data_blk sb a -> is_free g sb a = true -> blk_ok (g (sb_bmapstart sb)) -> meta_used g sb ->
  evolves g (alloc_blk g sb a) sb (fun _ => False) (fun b => b = a).
Proof.
  intros Ha Hf Hk Hm. split.
  - intros b H0 Hb Hbm _. assert (b <> a) by congruence. unfold alloc_blk. by rewrite !upd_ne.
  - intros b H0 Hb. rewrite alloc_blk_free by done. by case_match.
  - intros b H0 Hb. rewrite alloc_blk_free in Hb by done. destruct (Z.eqb_spec b a); auto.
  - intros b ->. done.
  - by apply alloc_meta.
Qed.

Lemma store_evolves g b x : b <> sb_bmapstart sb -> meta_used g sb -> evolves g (upd g b x) sb (fun y => y = b) (fun _ => False).
Proof.
  intros Hb Hm. assert (E : forall y, is_free (upd g b x) sb y = is_free g sb y).
  { intros y. unfold is_free. by rewrite upd_ne by done. }
  split; try done.
  - intros y H0 Hf Hy Hw. by apply upd_ne.
  - intros y H0. by rewrite E.
  - intros y H0. rewrite E. auto.
  - intros y Hy. rewrite E. by apply Hm.
Qed.

Lemma in_use_evolves g g' W N b : evolves g g' sb W N -> in_use g sb b -> in_use g' sb b.
Proof. intros E [Hd Hf]. split; [done|]. apply (ev_used _ _ _ _ _ E); [|done]. by apply data_pos. Qed.

(** A file none of whose blocks are written keeps its blocks. *)
Lemma file_ok_evolves g g' W N d :
  evolves g g' sb W N -> file_ok g sb d -> (ind d <> 0 -> ~ W (ind d)) ->
  file_ok g' sb d /\ forall bn, faddr g' d bn = faddr g d bn.
Proof.
  intros E [H1 H2 H3 H4 H5] HW.
  assert (Ef : forall bn, faddr g' d bn = faddr g d bn).
  { intros bn. apply faddr_ext. intros Hi. destruct H2 as [?|[Hd Hf]]; [done|]. pose proof (data_pos _ Hd).
    apply (ev_keep _ _ _ _ _ E); [lia|done|lia|auto]. }
  split; [|done]. split; try done.
  - destruct H2 as [?|?]; [by left|right]. by eapply in_use_evolves.
  - intros bn Hb. rewrite Ef. destruct (H3 bn Hb) as [?|?]; [by left|right]. by eapply in_use_evolves.
  - intros bn bn' Hb Hb'. rewrite !Ef. by apply H4.
  - intros bn Hb. rewrite Ef. by apply H5.
Qed.

(** Adding a fresh block [a] as block [bn]. *)
Lemma file_ok_extend g g' W N d d' bn a :
  evolves g g' sb W N -> file_ok g sb d -> length (di_addrs d') = 13%nat -> ind d' = ind d -> 0 <= bn < MAXFILE ->
  is_free g sb a = true -> in_use g' sb a ->
  (forall bn', 0 <= bn' < MAXFILE -> faddr g' d' bn' = if bn' =? bn then a else faddr g d bn') ->
  file_ok g' sb d'.
Proof.
  intros E [H1 H2 H3 H4 H5] Hl Hi Hbn Ha Hau Hf.
  assert (Hold : forall x, in_use g sb x -> x <> a) by (intros x [_ Hx]; congruence).
  split; [done| | | |].
  - rewrite Hi. destruct H2 as [?|?]; [by left|right]. by eapply in_use_evolves.
  - intros b Hb. rewrite Hf by done. case_match; [by right|]. destruct (H3 b Hb) as [?|?]; [by left|right]. by eapply in_use_evolves.
  - intros b b' Hb Hb'. rewrite !Hf by done.
    destruct (Z.eqb_spec b bn), (Z.eqb_spec b' bn); subst; auto.
    + intros Hn Heq. destruct (H3 b' Hb') as [?|Hu]; [congruence|]. by destruct (Hold _ Hu).
    + intros Hn Heq. destruct (H3 b Hb) as [?|Hu]; [congruence|]. by destruct (Hold _ Hu).
  - intros b Hb. rewrite Hf, Hi by done. destruct (Z.eqb_spec b bn); subst; auto.
    intros Hn Heq. destruct H2 as [?|Hu]; [congruence|]. by destruct (Hold _ Hu).
Qed.
End pure.

(** ** bmap *)

(** An indirect block will have to be allocated. *)
Definition indw (d : dinode) : nat := if ind d =? 0 then 1 else 0.

Record bmap_post (sb : superblock) (g : Z -> list Z) (d : dinode) (bn a : Z) (g' : Z -> list Z) (d' : dinode)
    (L L' : gset Z) : Prop := mkBmapPost {
  bp_addr : faddr g' d' bn = a;
  bp_use : in_use g' sb a;
  bp_file : file_ok g' sb d';
  bp_ev : evolves g g' sb (fun b => b = ind d)
            (fun b => (b = a \/ b = ind d') /\ data_blk sb b /\ is_free g sb b = true);
  bp_rest : exists l, d' = with_addrs d l;
  bp_other : forall bn', 0 <= bn' < MAXFILE -> bn' <> bn -> faddr g' d' bn' = faddr g d bn';
  bp_old : faddr g d bn <> 0 -> a = faddr g d bn /\ g' = g /\ d' = d /\ L' = L;
  bp_new : faddr g d bn = 0 -> g' a = repeat 0 (Z.to_nat BSIZE) /\ a ∈ L' /\ is_free g sb a = true;
  bp_L : L ⊆ L' /\ forall b, b ∈ L' -> b ∈ L \/ (b = a \/ b = ind d') /\ b <> 0;
  bp_indL : ind d' <> 0 -> ind d' ∈ L';
  bp_ind : ind d' = ind d \/ ind d = 0 /\ is_free g sb (ind d') = true;
  bp_nfree : forall m, nfree g sb (S (m + indw d)) -> nfree g' sb (m + indw d');
  bp_room : forall SZ k h, room SZ (S (k + indw d)) h L -> room SZ (k + indw d') h L'
}.

Section posts.
Context (sb : superblock) (Hs : sb_ok sb).
Implicit Types (g : Z -> list Z) (d : dinode).

Lemma alloc_in_use g a :
  data_blk sb a -> blk_ok (g (sb_bmapstart sb)) -> in_use (alloc_blk g sb a) sb a.
Proof.
  intros Ha Hk. split; [done|]. rewrite alloc_blk_free; [by rewrite Z.eqb_refl|done|done|done|].
  apply data_pos in Ha; [lia|done].
Qed.

Lemma indw_eq d d' : ind d' = ind d -> indw d' = indw d.
Proof. unfold indw. by intros ->. Qed.

Lemma old_post g d bn L :
  0 <= bn < MAXFILE -> file_ok g sb d -> meta_used g sb -> (ind d <> 0 -> ind d ∈ L) -> faddr g d bn <> 0 ->
  bmap_post sb g d bn (faddr g d bn) g d L L.
Proof.
  intros Hb Hf Hm HL Hn. destruct (fo_blk _ _ _ Hf bn Hb) as [?|Hu]; [done|].
  split; try done.
  - eapply evolves_mono; [apply (evolves_refl sb g (fun _ => False) (fun _ => False)); auto| |].
    + done.
    + intros b. split; [done|]. intros ([->| ->] & Hd & Hfr).
      * destruct Hu. congruence.
      * destruct (fo_ind _ _ _ Hf) as [E|[_ ?]]; [|congruence]. rewrite E in Hd. apply data_pos in Hd; [lia|done].
  - exists (di_addrs d). by destruct d.
  - auto.
  - auto.
  - intros m (l & Hl & Hx). exists l. split; [lia|done].
  - intros SZ k h Hr. eapply room_le; [exact Hr|lia|lia].
Qed.

(** The evolution when [a] was allocated as block [bn] of the file. *)
Lemma post_ev g g' d d' a :
  file_ok g sb d -> ind d' = ind d -> data_blk sb a -> is_free g sb a = true ->
  evolves g g' sb (fun b => b = ind d) (fun b => b = a) ->
  evolves g g' sb (fun b => b = ind d) (fun b => (b = a \/ b = ind d') /\ data_blk sb b /\ is_free g sb b = true).
Proof.
  intros Hf Hi Ha Hfr E. eapply evolves_mono; [exact E|done|]. intros b. split.
  - intros ->. auto.
  - intros ([->|Hb] & Hd & Hfb); [done|]. rewrite Hi in Hb. subst b.
    destruct (fo_ind _ _ _ Hf) as [E0|[_ ?]]; [|congruence]. rewrite E0 in Hd. apply data_pos in Hd; [lia|done].
Qed.

Lemma direct_post g d bn a L :
  0 <= bn < NDIRECT -> file_ok g sb d -> meta_used g sb -> blk_ok (g (sb_bmapstart sb)) ->
  (ind d <> 0 -> ind d ∈ L) -> faddr g d bn = 0 -> data_blk sb a -> is_free g sb a = true ->
  bmap_post sb g d bn a (alloc_blk g sb a) (set_addr bn a d) L ({[a]} ∪ L).
Proof.
  intros Hb Hf Hm Hk HL Hn Ha Hfr. pose proof (fo_len _ _ _ Hf) as Hl.
  assert (Hmx : 0 <= bn < MAXFILE) by (cst; lia).
  pose proof (alloc_evolves sb Hs g a Ha Hfr Hk Hm) as E.
  assert (Hi : ind (set_addr bn a d) = ind d).
  { unfold ind. rewrite addr_at_set by (cst; done || lia). cst. by bfalse (12 =? bn). }
  assert (Hold : forall bn', faddr (alloc_blk g sb a) d bn' = faddr g d bn').
  { apply (file_ok_evolves sb Hs g (alloc_blk g sb a) (fun _ => False) (fun b => b = a) d E Hf). auto. }
  assert (Hfa : forall bn', 0 <= bn' < MAXFILE ->
            faddr (alloc_blk g sb a) (set_addr bn a d) bn' = if bn' =? bn then a else faddr g d bn').
  { intros bn' Hb'. rewrite <-Hold. unfold faddr. rewrite Hi. destruct (Z.ltb_spec bn' NDIRECT) as [Hlt|Hge].
    - by rewrite addr_at_set by (cst; done || lia).
    - cst. by bfalse (bn' =? bn). }
  pose proof (alloc_in_use g a Ha Hk) as Hu.
  split.
  - rewrite Hfa by done. by rewrite Z.eqb_refl.
  - done.
  - eapply (file_ok_extend sb Hs g _ _ _ d (set_addr bn a d) bn a E); eauto. by rewrite set_addr_len.
  - eapply post_ev; eauto. eapply evolves_mono; [exact E|done|done].
  - by eexists.
  - intros bn' Hb' Hne. rewrite Hfa by done. by bfalse (bn' =? bn).
  - done.
  - intros _. split_and!; [unfold alloc_blk; apply upd_eq|set_solver|done].
  - pose proof (data_pos sb Hs _ Ha). split; [set_solver|]. intros b. rewrite elem_of_union, elem_of_singleton.
    intros [->|]; [right; split; [auto|lia]|auto].
  - rewrite Hi. intros Hin. apply elem_of_union. auto.
  - auto.
  - intros m Hnf. rewrite (indw_eq d) by done. by apply alloc_nfree.
  - intros SZ k h Hr. rewrite (indw_eq d) by done. by apply room_add.
Qed.

(** The indirect block's contents when entry [bn] was allocated as [a]. *)
Definition put_entry (g : Z -> list Z) (d : dinode) (bn a : Z) : Z -> list Z :=
  upd (alloc_blk g sb a) (ind d) (st32 (Z.to_nat (4 * (bn - NDIRECT))) a (g (ind d))).

Lemma entry_post g d bn a L :
  NDIRECT <= bn < MAXFILE -> file_ok g sb d -> meta_used g sb -> blk_ok (g (sb_bmapstart sb)) -> blk_ok (g (ind d)) ->
  ind d <> 0 -> ind d ∈ L -> faddr g d bn = 0 -> data_blk sb a -> is_free g sb a = true ->
  bmap_post sb g d bn a (put_entry g d bn a) d L ({[a]} ∪ L).
Proof.
  intros Hb Hf Hm Hk Hki Hi HL Hn Ha Hfr.
  destruct (fo_ind _ _ _ Hf) as [?|[Hid Hiu]]; [done|]. pose proof (data_pos sb Hs _ Hid) as Hip. pose proof (data_pos sb Hs _ Ha) as Hap.
  assert (Hmx : 0 <= bn < MAXFILE) by (cst; lia). assert (Hai : a <> ind d) by congruence.
  pose proof (alloc_evolves sb Hs g a Ha Hfr Hk Hm) as E1.
  pose proof (store_evolves sb (alloc_blk g sb a) (ind d) (st32 (Z.to_nat (4 * (bn - NDIRECT))) a (g (ind d)))
                ltac:(lia) (ev_meta _ _ _ _ _ E1)) as E2.
  pose proof (evolves_trans sb Hs _ _ _ _ _ _ _ E1 E2) as E3.
  assert (E : evolves g (put_entry g d bn a) sb (fun b => b = ind d) (fun b => b = a)).
  { eapply evolves_mono; [exact E3|intuition|intuition]. }
  assert (Hfa : forall bn', 0 <= bn' < MAXFILE ->
            faddr (put_entry g d bn a) d bn' = if bn' =? bn then a else faddr g d bn').
  { intros bn' Hb'. unfold faddr. destruct (Z.ltb_spec bn' NDIRECT) as [Hlt|Hge]; [cst; by bfalse (bn' =? bn)|].
    bfalse (ind d =? 0). unfold put_entry. rewrite upd_eq, ind_at_put by (cst; (done || lia)).
    destruct (Z.eqb_spec bn' bn), (Z.eqb_spec (bn' - NDIRECT) (bn - NDIRECT)); (done || lia). }
  assert (Hu : in_use (put_entry g d bn a) sb a).
  { split; [done|]. unfold is_free, put_entry. rewrite upd_ne by lia. apply (alloc_in_use g a Ha Hk). }
  split.
  - rewrite Hfa by done. by rewrite Z.eqb_refl.
  - done.
  - eapply (file_ok_extend sb Hs g _ _ _ d d bn a E); eauto. apply (fo_len _ _ _ Hf).
  - by eapply post_ev.
  - exists (di_addrs d). by destruct d.
  - intros bn' Hb' Hne. rewrite Hfa by done. by bfalse (bn' =? bn).
  - done.
  - intros _. split_and!; [unfold put_entry; rewrite upd_ne by done; unfold alloc_blk; apply upd_eq|set_solver|done].
  - split; [set_solver|]. intros b. rewrite elem_of_union, elem_of_singleton.
    intros [->|]; [right; split; [auto|lia]|auto].
  - intros _. apply elem_of_union. auto.
  - auto.
  - intros m Hnf. destruct (alloc_nfree g sb a (m + indw d) Hs Ha Hk Hnf) as (l & Hl & Hx). exists l. split; [done|].
    intros b Hbl. destruct (Hx b Hbl) as [? Hbf]. split; [done|]. unfold is_free, put_entry. rewrite upd_ne by lia. exact Hbf.
  - intros SZ k h Hr. by apply room_add.
Qed.

(** A new, empty indirect block. *)
Lemma new_ind g d a :
  file_ok g sb d -> meta_used g sb -> blk_ok (g (sb_bmapstart sb)) -> ind d = 0 -> data_blk sb a -> is_free g sb a = true ->
  let g' := alloc_blk g sb a in let d' := set_addr NDIRECT a d in
  ind d' = a /\ file_ok g' sb d' /\ forall bn, 0 <= bn < MAXFILE -> faddr g' d' bn = faddr g d bn.
Proof.
  intros Hf Hm Hk Hi Ha Hfr g' d'. pose proof (fo_len _ _ _ Hf) as Hl. pose proof (data_pos sb Hs _ Ha) as Hap.
  pose proof (alloc_evolves sb Hs g a Ha Hfr Hk Hm) as E. pose proof (alloc_in_use g a Ha Hk) as Hu.
  assert (Hi' : ind d' = a).
  { unfold ind, d'. rewrite addr_at_set by (cst; done || lia). by rewrite Z.eqb_refl. }
  assert (Hfa : forall bn, 0 <= bn < MAXFILE -> faddr g' d' bn = faddr g d bn).
  { intros bn Hb. unfold faddr. rewrite Hi', Hi. destruct (Z.ltb_spec bn NDIRECT) as [Hlt|Hge].
    - unfold d'. rewrite addr_at_set by (cst; done || lia). cst. by bfalse (bn =? 12).
    - bfalse (a =? 0). unfold g', alloc_blk. rewrite upd_eq. apply ind_at_zeros. }
  split; [done|]. split; [|done]. split.
  - unfold d'. by rewrite set_addr_len.
  - right. by rewrite Hi'.
  - intros bn Hb. rewrite Hfa by done. destruct (fo_blk _ _ _ Hf bn Hb) as [?|?]; [by left|right]. by eapply in_use_evolves.
  - intros bn bn' Hb Hb'. rewrite !Hfa by done. by apply (fo_inj _ _ _ Hf).
  - intros bn Hb. rewrite Hfa, Hi' by done. intros Hn. destruct (fo_blk _ _ _ Hf bn Hb) as [?|[_ ?]]; congruence.
Qed.

(** Allocating the indirect block first. *)
Lemma ind_post g d a0 bn a g' L L' :
  file_ok g sb d -> meta_used g sb -> blk_ok (g (sb_bmapstart sb)) -> ind d = 0 -> data_blk sb a0 -> is_free g sb a0 = true ->
  NDIRECT <= bn < MAXFILE ->
  let g0 := alloc_blk g sb a0 in let d0 := set_addr NDIRECT a0 d in
  bmap_post sb g0 d0 bn a g' d0 ({[a0]} ∪ L) L' -> bmap_post sb g d bn a g' d0 L L'.
Proof.
  intros Hf Hm Hk Hi Ha0 Hfr Hb g0 d0 [P1 P2 P3 P4 P5 P6 P7 P8 P9 P10 P10' P11 P12].
  destruct (new_ind g d a0 Hf Hm Hk Hi Ha0 Hfr) as (Hi0 & Hf0 & Hfa0). fold g0 d0 in Hi0, Hf0, Hfa0.
  pose proof (alloc_evolves sb Hs g a0 Ha0 Hfr Hk Hm) as E0. pose proof (data_pos sb Hs _ Ha0) as Hap.
  assert (Hmx : 0 <= bn < MAXFILE) by (cst; lia).
  assert (E2 : faddr g d bn = 0) by (unfold faddr; cst; bfalse (bn <? 12); by rewrite Hi).
  assert (Hw : indw d = 1%nat /\ indw d0 = 0%nat) by (unfold indw; rewrite Hi, Hi0; by bfalse (a0 =? 0)).
  assert (Hg0 : forall b, 0 <= b -> is_free g0 sb b = if b =? a0 then false else is_free g sb b).
  { intros b H0. by apply alloc_blk_free. }
  split; try done.
  - eapply evolves_mono; [exact (evolves_trans sb Hs _ _ _ _ _ _ _ E0 P4)| |].
    + intros b H0 Hbf [[]|Hb0]. rewrite Hi0 in Hb0. congruence.
    + intros b. rewrite Hi0. split.
      * intros [->|(Hab & Hd & Hbf)]; [auto|]. split; [done|]. split; [done|]. rewrite Hg0 in Hbf by (apply (data_pos sb Hs) in Hd; lia).
        by case_match.
      * intros (Hab & Hd & Hbf). destruct (decide (b = a0)) as [->|Hne]; [auto|right]. split; [done|]. split; [done|].
        rewrite Hg0 by (apply (data_pos sb Hs) in Hd; lia). by bfalse (b =? a0).
  - intros bn' Hb' Hne. rewrite P6 by done. by apply Hfa0.
  - intros _. destruct P8 as (? & ? & Haf); [by rewrite Hfa0|]. split_and!; try done.
    rewrite Hg0 in Haf by (destruct P2 as [Hd _]; apply (data_pos sb Hs) in Hd; lia). by case_match.
  - destruct P9 as [[_ H1]%union_subseteq H2]. split; [done|]. intros b Hb'. destruct (H2 b Hb') as [Hin|?]; [|auto].
    rewrite elem_of_union, elem_of_singleton in Hin. destruct Hin as [->|]; [|auto]. rewrite Hi0. right. split; [auto|lia].
  - right. by rewrite Hi0.
  - intros m Hn. destruct Hw as [Hw1 Hw2]. rewrite Hw1 in Hn. apply P11. rewrite Hw2. rewrite Nat.add_0_r.
    apply alloc_nfree; auto. by rewrite Nat.add_1_r in Hn.
  - intros SZ k h Hr. destruct Hw as [Hw1 Hw2]. apply P12. rewrite Hw2, Nat.add_0_r. apply room_add. by rewrite Hw1, Nat.add_1_r in Hr.
Qed.
End posts.

Section bmap.
Context (dv SZ out : Z) (dk : disk) (cb : core).
Hypothesis (Hcore : bio_core cb) (Hlog : lock_free LkLog cb) (Hout : 1 <= out).
Notation F := (ftx dv SZ out dk cb).
Context (sb : superblock) (Hs : sb_ok sb).
Implicit Types (it : list inode) (km : kmem) (s : fsst) (g : Z -> list Z).

(** The buffers held are neither the bitmap nor free blocks. *)
Definition handles_ok g (H : list (nat * Z)) : Prop :=
  sb_bmapstart sb ∉ H.*2 /\ forall b, b ∈ H.*2 -> data_blk sb b -> is_free g sb b = false.

Lemma handles_evolves g g' W N H : evolves g g' sb W N -> handles_ok g H -> handles_ok g' H.
Proof.
  intros E [H1 H2]. split; [done|]. intros b Hb Hd. apply (ev_used _ _ _ _ _ E); [|by apply H2].
  by apply (data_pos sb Hs) in Hd as [[? _] _].
Qed.

Lemma get_inode_ftx H D L g it km c s ip i :
  F H D L g sb it km c s -> it !! ip = Some i -> get_inode ip s = i.
Proof. intros (_ & E & _) Hi. unfold get_inode. rewrite E. by apply nth_lookup_Some. Qed.

Lemma ftx_upd_inode H D L g it km c s ip i f :
  F H D L g sb it km c s -> it !! ip = Some i ->
  F H D L g sb (<[ip := f i]> it) km c (upd_inode ip f s).
Proof.
  intros Hf Hi. pose proof (get_inode_ftx _ _ _ _ _ _ _ _ _ _ Hf Hi) as Eg. destruct Hf as (E1 & E2 & E3 & Ht).
  split_and!; try done. unfold upd_inode, set_itable. cbn [fs_itable]. by rewrite Eg, E2.
Qed.

(** balloc for a file system whose bitmap block is already in the log's bound. *)
Lemma f_balloc k h H L g it km c s :
  F H [] L g sb it km c s -> meta_used g sb -> nfree g sb 1 -> handles_ok g H -> sb_bmapstart sb ∈ L ->
  room SZ (S k) h L -> (length H < h)%nat ->
  wp (balloc dv) c s (fun a c' s' => data_blk sb a /\ is_free g sb a = true /\
    F H [] ({[a]} ∪ L) (alloc_blk g sb a) sb it km c' s').
Proof.
  intros Hf Hm Hn [HH1 HH2] HL Hr Hh.
  eapply wp_mono; [eapply (balloc_ok dv SZ out dk cb Hcore Hlog Hout k h H [] L g sb it km c s); try done|].
  - set_solver.
  - intros b [Hb|Hb] Hd; [by apply HH2|set_solver].
  - intros a c' s' (Ha & Hfr & _ & Hf'). done.
Qed.

(** The part of bmap that works on the indirect block. *)
Definition bmap_entry (bn addr : Z) : M fsst Z :=
  bp ← fbio (bread dv addr);
  a ← bdata bp;
  addr ← (let addr := ind_at bn a in
          if addr =? 0 then
            addr ← balloc dv;
            a ← bdata bp;
            _ ← set_bdata bp (st32 (Z.to_nat (4 * bn)) addr a);
            _ ← flog (log_write bp);
            mret addr
          else mret addr);
  _ ← fbio (brelse bp);
  mret addr.

Lemma bmap_entry_ok k h H L g it km c s d bn :
  F H [] L g sb it km c s -> meta_used g sb -> handles_ok g H -> sb_bmapstart sb ∈ L ->
  file_ok g sb d -> NDIRECT <= bn < MAXFILE -> ind d <> 0 -> ind d ∉ H.*2 -> ind d ∈ L ->
  (faddr g d bn = 0 -> nfree g sb 1) -> room SZ (S (S k)) h L -> (S (length H) < h)%nat ->
  wp (bmap_entry (bn - NDIRECT) (ind d)) c s (fun a c' s' => exists g' L',
    F H [] L' g' sb it km c' s' /\ bmap_post sb g d bn a g' d L L').
Proof.
  intros Hf Hm HH HL Hfo Hb Hi HiH HiL Hn Hr Hh. destruct (fo_ind _ _ _ Hfo) as [?|[Hid Hiu]]; [done|].
  pose proof (data_pos sb Hs _ Hid) as Hip. assert (Hmx : 0 <= bn < MAXFILE) by (cst; lia).
  assert (Hfa : faddr g d bn = ind_at (bn - NDIRECT) (g (ind d))).
  { unfold faddr. bfalse (bn <? NDIRECT). by bfalse (ind d =? 0). }
  unfold bmap_entry. wrun f_bread; [exact Hcore|exact Hf|done|exact Hr|lia|]. intros i c1 s1 H1.
  wrun f_bdata; [exact H1|by left|]. intros x c2 s2 (-> & -> & ->). rewrite <-Hfa. cbn zeta.
  destruct (Z.eqb_spec (faddr g d bn) 0) as [E0|E0].
  - wbind. wrun f_balloc; [exact H1|done|by apply Hn| |done|exact Hr|simpl; lia|].
    { destruct HH as [HH1 HH2]. split.
      - rewrite fmap_cons. apply not_elem_of_cons. simpl. split; [lia|done].
      - intros b [->|Hb']%elem_of_cons Hd; [done|by apply HH2]. }
    intros a c3 s3 (Ha & Hfr & H3). pose proof (data_pos sb Hs _ Ha) as Hap.
    assert (Hk : blk_ok (g (sb_bmapstart sb))) by by eapply ftx_blk.
    assert (Hki : blk_ok (g (ind d))) by by eapply ftx_blk.
    assert (Hai : alloc_blk g sb a (ind d) = g (ind d)).
    { unfold alloc_blk. rewrite !upd_ne; [done|lia|congruence]. }
    wrun f_bdata; [exact H3|by left|]. intros x c4 s4 (-> & -> & ->). rewrite Hai.
    wrun f_set_bdata; [exact H3|by left|apply st32_ind_blk; [done|cst; lia]|]. intros [] c5 s5 H5.
    wrun f_log_write; [exact Hcore|exact Hlog|exact Hout|exact H5|by left|lia|apply room_add; exact Hr|]. intros [] c6 s6 H6.
    apply wp_ret. replace ({[ind d]} ∪ ({[a]} ∪ L)) with ({[a]} ∪ L) in H6 by set_solver.
    wrun f_brelse; [exact Hcore|exact Hlog|exact H6|set_solver|]. intros [] c7 s7 H7.
    apply wp_ret. eexists _, _. split; [exact H7|]. apply (entry_post sb Hs); done.
  - wbind. apply wp_ret. wrun f_brelse; [exact Hcore|exact Hlog|exact H1|set_solver|]. intros [] c7 s7 H7.
    apply wp_ret. eexists _, _. split; [exact H7|]. apply (old_post sb Hs); done.
Qed.

(** bmap: the block of the file, allocated if need be, is returned; it is in
    use and belongs to the file. *)
Lemma bmap_ok k h H L g it km c s ip i bn :
  F H [] L g sb it km c s -> meta_used g sb -> handles_ok g H -> sb_bmapstart sb ∈ L ->
  it !! ip = Some i -> in_dev i = dv -> file_ok g sb (in_d i) -> 0 <= bn < MAXFILE ->
  (ind (in_d i) <> 0 -> ind (in_d i) ∉ H.*2 /\ ind (in_d i) ∈ L) ->
  (faddr g (in_d i) bn = 0 -> nfree g sb (S (indw (in_d i)))) ->
  room SZ (S (S k + indw (in_d i))) h L -> (S (length H) < h)%nat ->
  wp (bmap ip bn) c s (fun a c' s' => exists g' d' L',
    F H [] L' g' sb (<[ip := set_d d' i]> it) km c' s' /\ bmap_post sb g (in_d i) bn a g' d' L L').
Proof.
  intros Hf Hm HH HL Hip Hdev Hfo Hb Hind Hn Hr Hh. set (d := in_d i) in *.
  assert (Hk : blk_ok (g (sb_bmapstart sb))) by by eapply ftx_blk.
  assert (Eid : <[ip := set_d d i]> it = it) by (apply list_insert_id; by destruct i).
  unfold bmap. wgets. rewrite (get_inode_ftx _ _ _ _ _ _ _ _ _ _ Hf Hip), Hdev. fold d.
  destruct (Z.ltb_spec bn NDIRECT) as [Hlt|Hge].
  { assert (Hfa : addr_at bn d = faddr g d bn) by (unfold faddr; by btrue (bn <? NDIRECT)). rewrite Hfa. cbn zeta.
    destruct (Z.eqb_spec (faddr g d bn) 0) as [E0|E0].
    - wrun f_balloc; [exact Hf|done| |done|done|exact Hr|lia|].
      { destruct (Hn E0) as (l & Hl & Hx). exists l. split; [lia|done]. }
      intros a c1 s1 (Ha & Hfr & H1). wmod. apply wp_ret. eexists _, _, _.
      split; [exact (ftx_upd_inode _ _ _ _ _ _ _ _ _ _ (fun i => set_d (set_addr bn a (in_d i)) i) H1 Hip)|].
      apply (direct_post sb Hs); try done; [lia|]. intros Hi. by apply Hind.
    - apply wp_ret. eexists g, d, L. rewrite Eid. split; [done|]. apply (old_post sb Hs); try done; intros Hi; by apply Hind. }
  assert (bn - NDIRECT <? NINDIRECT = true) as -> by (cst; lia).
  fold (ind d). cbn zeta. destruct (Z.eqb_spec (ind d) 0) as [E0|E0].
  - assert (E2 : faddr g d bn = 0) by (unfold faddr; cst; bfalse (bn <? 12); by rewrite E0).
    assert (Hw : indw d = 1%nat) by (unfold indw; by rewrite E0). rewrite Hw in *.
    wbind. wrun f_balloc; [exact Hf|done| |done|done|exact Hr|lia|].
    { destruct (Hn E2) as (l & Hl & Hx). exists l. split; [lia|done]. }
    intros a0 c1 s1 (Ha & Hfr & H1). wmod. apply wp_ret.
    pose proof (ftx_upd_inode _ _ _ _ _ _ _ _ _ _ (fun i => set_d (set_addr NDIRECT a0 (in_d i)) i) H1 Hip) as H2.
    destruct (new_ind sb Hs g d a0 Hfo Hm Hk E0 Ha Hfr) as (Hi0 & Hf0 & Hfa0).
    pose proof (alloc_evolves sb Hs g a0 Ha Hfr Hk Hm) as Ev. pose proof (data_pos sb Hs _ Ha) as Hap.
    rewrite <-Hi0 at 1.
    eapply wp_mono; [eapply (bmap_entry_ok k h H ({[a0]} ∪ L) (alloc_blk g sb a0) _ km c1 _ (set_addr NDIRECT a0 d) bn H2)|].
    + apply (ev_meta _ _ _ _ _ Ev).
    + by eapply handles_evolves.
    + set_solver.
    + done.
    + lia.
    + rewrite Hi0. lia.
    + rewrite Hi0. intros Hin. destruct HH as [_ HH2]. specialize (HH2 _ Hin Ha). congruence.
    + rewrite Hi0. set_solver.
    + intros _. apply alloc_nfree; auto.
    + apply room_add. by rewrite Nat.add_1_r in Hr.
    + done.
    + intros a c' s' (g' & L' & Hf' & Hp). eexists g', (set_addr NDIRECT a0 d), L'. split; [exact Hf'|].
      apply (ind_post sb Hs g d a0 bn a g' L L'); (done || lia).
  - wbind. apply wp_ret. destruct (Hind E0) as [HiH HiL].
    eapply wp_mono; [eapply (bmap_entry_ok k h H L g it km c s d bn Hf); try (done || lia)|].
    + intros E2. destruct (Hn E2) as (l & Hl & Hx). exists l. split; [lia|done].
    + eapply room_le; [exact Hr|lia|lia].
    + intros a c' s' (g' & L' & Hf' & Hp). eexists g', d, L'. by rewrite Eid.
Qed.
End bmap.
