(* ===== verification/FsIo.v ===== *)
(** * File contents: readi and writei of kernel/fs.c

    The contents of a file are its bytes [fbyte], found through its block
    addresses.  readi returns them; writei stores bytes over them, extending
    the file, and leaves the rest of the file and every other file alone.  The
    transfers are from and to a variable of the kernel, as for directories
    and executables; user memory is the subject of VmCopy. *)

From Stdlib Require Import ZArith Lia.
From stdpp Require Import base gmap list numbers strings.
From S2P Require Import Prelude Riscv Core Spinlock Wp Kstring Kalloc Vm Sleeplock Bio BioAbs Log LogOps Fs FsTx FsBitmap FsFile.
Local Open Scope Z_scope.

(** Numerals for the sizes of fs.h. *)
Ltac csz := change BSIZE with 1024 in *; cst.

(** lia with quotients and remainders. *)
Ltac dlia := zify; Z.div_mod_to_equations; lia.

(** ** Contents *)

Definition fbyte (g : Z -> list Z) (d : dinode) (x : Z) : Z :=
  nth (Z.to_nat (x mod BSIZE)) (g (faddr g d (x / BSIZE))) 0.
(** [n] bytes from offset [off] on. *)
Definition frange (g : Z -> list Z) (d : dinode) (off : Z) (n : nat) : list Z :=
  (fun k => fbyte g d (off + Z.of_nat k)) <$> seq 0 n.

(** The file is not longer than a file can be and has a block for every byte. *)
Definition sized (g : Z -> list Z) (d : dinode) : Prop :=
  0 <= di_size d <= MAXFILE * BSIZE /\ forall x, 0 <= x < di_size d -> faddr g d (x / BSIZE) <> 0.

Lemma frange_app g d off n m : frange g d off (n + m) = frange g d off n ++ frange g d (off + Z.of_nat n) m.
Proof.
  unfold frange. rewrite seq_app, fmap_app. f_equal. apply list_eq. intros i. rewrite !list_lookup_fmap.
  destruct (decide (i < m)%nat); [|by rewrite !lookup_seq_ge by lia].
  rewrite !lookup_seq_lt by done. simpl. do 2 f_equal. lia.
Qed.

Lemma frange_length g d off n : length (frange g d off n) = n.
Proof. unfold frange. by rewrite length_fmap, length_seq. Qed.

Lemma frange_lookup g d off n i : (i < n)%nat -> frange g d off n !! i = Some (fbyte g d (off + Z.of_nat i)).
Proof. intros Hi. unfold frange. rewrite list_lookup_fmap, lookup_seq_lt by done. done. Qed.

(** The part of a block that [readi] copies. *)
Lemma slice_frange g d off m :
  0 <= off -> Z.of_nat m <= BSIZE - off mod BSIZE -> blk_ok (g (faddr g d (off / BSIZE))) ->
  slice (Z.to_nat (off mod BSIZE)) m (g (faddr g d (off / BSIZE))) = frange g d off m.
Proof.
  intros H0 Hm [Hl _]. csz. apply list_eq. intros i. rewrite slice_lookup. case_decide as Hi.
  - rewrite frange_lookup by done. unfold fbyte. csz.
    replace ((off + Z.of_nat i) / 1024) with (off / 1024) by dlia.
    replace (Z.to_nat ((off + Z.of_nat i) mod 1024)) with (Z.to_nat (off mod 1024) + i)%nat by dlia.
    apply nth_Some. dlia.
  - symmetry. apply lookup_ge_None_2. rewrite frange_length. lia.
Qed.

(** ** readi *)

Section readi.
Context (dv SZ out : Z) (dk : disk) (cb : core).
Hypothesis (Hcore : bio_core cb) (Hlog : lock_free LkLog cb).
Notation F := (ftx dv SZ out dk cb).
Context (sb : superblock).
Implicit Types (it : list inode) (km : kmem) (s : fsst) (g : Z -> list Z).

Lemma f_myproc H D L g it km c s :
  F H D L g sb it km c s -> wp myproc c s (fun p c' s' => p = c_proc cb /\ c' = c /\ s' = s).
Proof.
  intros (_ & _ & _ & tr & f & -> & _). eexists _, _, _.
  destruct (holds_core (H.*1) (woke tr cb)) as (Hwf & _ & Hp & _); [by apply bio_core_woke|].
  split; [by apply myproc_ok|]. by rewrite Hp.
Qed.

(** bmap of a block that exists only reads. *)
Lemma bmap_read h H D L g it km c s ip i bn :
  F H D L g sb it km c s -> it !! ip = Some i -> in_dev i = dv -> 0 <= bn < MAXFILE -> faddr g (in_d i) bn <> 0 ->
  ind (in_d i) ∉ H.*2 -> ind (in_d i) ∉ D -> room SZ 0 h L -> (length H < h)%nat ->
  wp (bmap ip bn) c s (fun a c' s' => a = faddr g (in_d i) bn /\ F H D L g sb it km c' s').
Proof.
  intros Hf Hip Hdev Hb Hn HiH HiD Hr Hh. set (d := in_d i) in *.
  unfold bmap. wgets. rewrite (get_inode_ftx dv SZ out dk cb sb _ _ _ _ _ _ _ _ _ _ Hf Hip), Hdev. fold d. fold (ind d).
  destruct (Z.ltb_spec bn NDIRECT) as [Hlt|Hge]; cbn zeta.
  { assert (Hfa : addr_at bn d = faddr g d bn) by (unfold faddr; by btrue (bn <? NDIRECT)). rewrite Hfa.
    bfalse (faddr g d bn =? 0). by apply wp_ret. }
  assert (bn - NDIRECT <? NINDIRECT = true) as -> by (cst; lia).
  assert (Hi : ind d <> 0 /\ faddr g d bn = ind_at (bn - NDIRECT) (g (ind d))).
  { unfold faddr in *. assert (bn <? NDIRECT = false) as E by (cst; lia). rewrite E in *.
    destruct (Z.eqb_spec (ind d) 0); done. }
  destruct Hi as [Hi Hfa]. bfalse (ind d =? 0). wbind. apply wp_ret.
  wrun f_bread; [exact Hcore|exact Hf|done|exact Hr|done|]. intros b c1 s1 H1.
  wrun f_bdata; [exact H1|by left|]. intros x c2 s2 (-> & -> & ->). rewrite <-Hfa. bfalse (faddr g d bn =? 0).
  wbind. apply wp_ret. wrun f_brelse; [exact Hcore|exact Hlog|exact H1|done|]. intros [] c3 s3 H3. by apply wp_ret.
Qed.

Lemma min_block n tot off : tot < n -> 0 <= off -> 0 < Z.min (n - tot) (BSIZE - off mod BSIZE) <= n - tot.
Proof. intros. csz. dlia. Qed.

Lemma readi_loop_ok h H L g it km c s ip i n fuel off tot acc :
  F H [] L g sb it km c s -> it !! ip = Some i -> in_dev i = dv -> sized g (in_d i) ->
  (forall b, b ∈ H.*2 -> b <> ind (in_d i) /\ forall bn, 0 <= bn < MAXFILE -> b <> faddr g (in_d i) bn) ->
  room SZ 0 h L -> (length H < h)%nat ->
  0 <= off -> 0 <= tot <= n -> off + (n - tot) <= di_size (in_d i) -> (Z.to_nat (n - tot) <= fuel)%nat ->
  wp (readi_loop ip ToLocal off n tot acc fuel) c s (fun r c' s' =>
    r = (n, acc ++ frange g (in_d i) off (Z.to_nat (n - tot))) /\ F H [] L g sb it km c' s').
Proof.
  intros Hf Hip Hdev [Hsz Hfull] HH Hr Hh. revert off tot acc c s Hf.
  induction fuel as [|fuel IH]; intros off tot acc c s Hf H0 Ht Hoff Hfuel; cbn [readi_loop].
  { assert (tot = n) as -> by lia. rewrite Z.ltb_irrefl. apply wp_ret. rewrite Z.sub_diag. by rewrite app_nil_r. }
  destruct (Z.ltb_spec tot n) as [Hlt|Hge].
  2: { assert (tot = n) as -> by lia. apply wp_ret. rewrite Z.sub_diag. by rewrite app_nil_r. }
  pose proof (min_block n tot off Hlt H0) as Hm. set (m := Z.min (n - tot) (BSIZE - off mod BSIZE)) in *.
  assert (Hbn : 0 <= off / BSIZE < MAXFILE) by (csz; dlia).
  pose proof (Hfull off ltac:(lia)) as Hn.
  wrun bmap_read; [exact Hf|exact Hip|done|done|done| |set_solver|exact Hr|done|].
  { intros Hin. by destruct (HH _ Hin). }
  intros a c1 s1 [-> H1]. wgets. rewrite (get_inode_ftx dv SZ out dk cb sb _ _ _ _ _ _ _ _ _ _ H1 Hip), Hdev.
  wrun f_bread; [exact Hcore|exact H1| |exact Hr|done|].
  { intros Hin. destruct (HH _ Hin) as [_ Hne]. by apply (Hne (off / BSIZE)). }
  intros b c2 s2 H2. fold m. wrun f_bdata; [exact H2|by left|]. intros x c3 s3 (-> & -> & ->).
  rewrite slice_frange; [|done|unfold m; csz; dlia|by eapply ftx_blk].
  wbind. unfold either_copyout. wrun f_myproc; [exact H2|]. intros p c3 s3 (-> & -> & ->). apply wp_ret. cbn [fst snd].
  bfalse (0 =? -1). wrun f_brelse; [exact Hcore|exact Hlog|exact H2|set_solver|]. intros [] c4 s4 H4.
  assert (u32 (off + m) = off + m) as ->.
  { unfold u32. apply Z.mod_small. csz. lia. }
  eapply wp_mono; [apply (IH (off + m) (tot + m) _ c4 s4 H4); lia|].
  intros r c5 s5 [-> H5]. split; [|done]. rewrite <-app_assoc.
  replace (Z.to_nat (n - tot)) with (Z.to_nat m + Z.to_nat (n - (tot + m)))%nat by lia.
  rewrite frange_app. by rewrite Z2Nat.id by lia.
Qed.

(** What [readi] reads: nothing beyond the end of the file. *)
Definition read_len (size off n : Z) : Z :=
  if (size <? off) || (u32 (off + n) <? off) then 0 else if size <? u32 (off + n) then size - off else n.

Lemma read_len_range size off n : 0 <= off < 2 ^ 32 -> 0 <= n < 2 ^ 32 -> 0 <= size < 2 ^ 32 ->
  0 <= read_len size off n <= n /\ off + read_len size off n <= Z.max off size.
Proof.
  intros Ho Hn Hs. unfold read_len. pose proof (u32_range (off + n)).
  destruct (Z.ltb_spec size off), (Z.ltb_spec (u32 (off + n)) off); simpl; try lia.
  assert (u32 (off + n) = off + n) as E.
  { unfold u32 in *. destruct (decide (off + n < 2 ^ 32)); [apply Z.mod_small; lia|].
    rewrite <-(Z.mod_unique (off + n) (2 ^ 32) 1 (off + n - 2 ^ 32)) in *; lia. }
  rewrite E in *. destruct (Z.ltb_spec size (off + n)); lia.
Qed.

Lemma readi_ok h H L g it km c s ip i off n :
  F H [] L g sb it km c s -> it !! ip = Some i -> in_dev i = dv -> sized g (in_d i) ->
  (forall b, b ∈ H.*2 -> b <> ind (in_d i) /\ forall bn, 0 <= bn < MAXFILE -> b <> faddr g (in_d i) bn) ->
  room SZ 0 h L -> (length H < h)%nat -> 0 <= off < 2 ^ 32 -> 0 <= n < 2 ^ 32 ->
  let r := read_len (di_size (in_d i)) off n in
  wp (readi ip ToLocal off n) c s (fun x c' s' =>
    x = (r, frange g (in_d i) off (Z.to_nat r)) /\ F H [] L g sb it km c' s').
Proof.
  intros Hf Hip Hdev Hsz HH Hr Hh Ho Hn r. pose proof Hsz as [Hs _].
  assert (Hs32 : 0 <= di_size (in_d i) < 2 ^ 32) by (csz; lia).
  pose proof (read_len_range _ off n Ho Hn Hs32) as [Hr1 Hr2]. fold r in Hr1, Hr2.
  unfold readi. wgets. rewrite (get_inode_ftx dv SZ out dk cb sb _ _ _ _ _ _ _ _ _ _ Hf Hip). cbn zeta.
  unfold r, read_len in *. destruct ((di_size (in_d i) <? off) || (u32 (off + n) <? off)) eqn:E.
  { apply wp_ret. done. }
  apply orb_false_elim in E as [E1 _]. apply Z.ltb_ge in E1.
  set (n' := if di_size (in_d i) <? u32 (off + n) then di_size (in_d i) - off else n) in *.
  eapply wp_mono; [eapply (readi_loop_ok h H L g it km c s ip i n' (Z.to_nat n') off 0 [] Hf); try done; lia|].
  intros x c1 s1 [-> H1]. by rewrite Z.sub_0_r.
Qed.
End readi.
