(* ===== verification/FsWrite.v ===== *)
(** * Writing files: writei of kernel/fs.c

    [wrote g d off l g' d'] says how the blocks and the inode change when the
    bytes [l] are stored at offset [off] of a file; it composes over
    consecutive chunks, which is how writei's loop works. *)

From Stdlib Require Import ZArith Lia.
From stdpp Require Import base gmap list numbers strings.
From S2P Require Import Prelude Riscv Core Spinlock Wp Kstring Kalloc Vm Sleeplock Bio BioAbs Log LogOps Fs FsTx FsBitmap FsFile FsIo.
Local Open Scope Z_scope.

(** The byte at offset [x]; a part of the file without a block counts as zeros. *)
Definition fget (g : Z -> list Z) (d : dinode) (x : Z) : Z :=
  if faddr g d (x / BSIZE) =? 0 then 0 else fbyte g d x.

(** Block [bn] has one of the [n] bytes from [off] on. *)
Definition touched (off : Z) (n : nat) (bn : Z) : Prop := exists x, off <= x < off + Z.of_nat n /\ bn = x / BSIZE.

Definition written (g : Z -> list Z) (d : dinode) (off : Z) (n : nat) (b : Z) : Prop :=
  b = ind d \/ exists bn, touched off n bn /\ b = faddr g d bn.

Record wrote (sb : superblock) (g : Z -> list Z) (d : dinode) (off : Z) (l : list Z) (g' : Z -> list Z) (d' : dinode) : Prop := mkWrote {
  wr_file : file_ok g' sb d';
  wr_rest : exists addrs, d' = with_addrs d addrs;
  wr_bytes : forall x, 0 <= x < MAXFILE * BSIZE ->
    fget g' d' x = if (off <=? x) && (x <? off + Z.of_nat (length l)) then nth (Z.to_nat (x - off)) l 0 else fget g d x;
  wr_blk : forall bn, touched off (length l) bn -> faddr g' d' bn <> 0;
  wr_mono : forall bn, 0 <= bn < MAXFILE -> faddr g d bn <> 0 -> faddr g' d' bn = faddr g d bn;
  wr_fresh : forall bn, 0 <= bn < MAXFILE -> faddr g d bn = 0 -> faddr g' d' bn <> 0 ->
    touched off (length l) bn /\ is_free g sb (faddr g' d' bn) = true;
  wr_ind : ind d' = ind d \/ ind d = 0 /\ is_free g sb (ind d') = true;
  wr_ev : evolves g g' sb (written g d off (length l))
            (fun b => written g' d' off (length l) b /\ data_blk sb b /\ is_free g sb b = true)
}.

Section wrote.
Context (sb : superblock) (Hs : sb_ok sb).
Implicit Types (g : Z -> list Z) (d : dinode).

Lemma touched_range off n bn :
  0 <= off -> off + Z.of_nat n <= MAXFILE * BSIZE -> touched off n bn -> 0 <= bn < MAXFILE.
Proof. intros H0 H1 (x & Hx & ->). csz. dlia. Qed.

Lemma touched_app off n m bn :
  touched off (n + m) bn <-> touched off n bn \/ touched (off + Z.of_nat n) m bn.
Proof.
  split.
  - intros (x & Hx & ->). destruct (Z.lt_ge_cases x (off + Z.of_nat n)); [left|right]; exists x; (split; [lia|done]).
  - intros [(x & Hx & ->)|(x & Hx & ->)]; exists x; (split; [lia|done]).
Qed.

Lemma wrote_nil g d off : meta_used g sb -> file_ok g sb d -> wrote sb g d off [] g d.
Proof.
  intros Hm Hf. split; auto.
  - exists (di_addrs d). by destruct d.
  - intros x Hx. destruct (Z.leb_spec off x), (Z.ltb_spec x (off + Z.of_nat (length (@nil Z)))); simpl in *; (done || lia).
  - intros bn (x & Hx & _). simpl in Hx. lia.
  - done.
  - eapply evolves_mono; [apply (evolves_refl sb g (fun _ => False) (fun _ => False)); auto|done|].
    intros b. split; [done|]. intros ([->|(bn & (x & Hx & _) & _)] & Hd & Hfr); [|simpl in Hx; lia].
    destruct (fo_ind _ _ _ Hf) as [E|[_ ?]]; [|congruence]. rewrite E in Hd. apply (data_pos sb Hs) in Hd. lia.
Qed.

Lemma wrote_app g d off l1 g1 d1 l2 g2 d2 :
  0 <= off -> off + Z.of_nat (length (l1 ++ l2)) <= MAXFILE * BSIZE ->
  wrote sb g d off l1 g1 d1 -> wrote sb g1 d1 (off + Z.of_nat (length l1)) l2 g2 d2 ->
  wrote sb g d off (l1 ++ l2) g2 d2.
Proof.
  intros H0 Hmax [A1 A2 A3 A4 A5 A6 A7 A8] [B1 B2 B3 B4 B5 B6 B7 B8]. rewrite length_app in *.
  assert (HR : forall bn, touched off (length l1 + length l2) bn -> 0 <= bn < MAXFILE) by (intros; eapply touched_range; eauto).
  assert (Hmono : forall bn, 0 <= bn < MAXFILE -> faddr g d bn <> 0 -> faddr g2 d2 bn = faddr g d bn).
  { intros bn Hb Hn. rewrite B5, A5; try done. by rewrite A5. }
  assert (Hfree1 : forall b, data_blk sb b -> is_free g1 sb b = true -> is_free g sb b = true).
  { intros b Hd Hf. destruct (is_free g sb b) eqn:E; [done|]. apply (data_pos sb Hs) in Hd.
    rewrite (ev_used _ _ _ _ _ A8) in Hf; [done|lia|done]. }
  split.
  - done.
  - destruct A2 as [x ->], B2 as [y ->]. by exists y.
  - intros x Hx. rewrite B3, A3, length_app by done.
    destruct (Z.leb_spec (off + Z.of_nat (length l1)) x), (Z.ltb_spec x (off + Z.of_nat (length l1) + Z.of_nat (length l2))),
      (Z.leb_spec off x), (Z.ltb_spec x (off + Z.of_nat (length l1))), (Z.ltb_spec x (off + Z.of_nat (length l1 + length l2)));
      simpl; try lia; try done.
    + rewrite app_nth2 by lia.
      by replace (Z.to_nat (x - off) - length l1)%nat with (Z.to_nat (x - (off + Z.of_nat (length l1)))) by lia.
    + by rewrite app_nth1 by lia.
  - intros bn Ht. rewrite length_app in Ht. pose proof (HR bn Ht) as Hb. apply touched_app in Ht as [Ht|Ht]; [|by apply B4].
    rewrite B5; [by apply A4|done|by apply A4].
  - done.
  - intros bn Hb Hz Hn. rewrite length_app, touched_app. destruct (Z.eq_dec (faddr g1 d1 bn) 0) as [E|E].
    + destruct (B6 bn Hb E Hn) as [Ht Hf]. split; [by right|]. apply Hfree1; [|done].
      destruct (fo_blk _ _ _ B1 bn Hb) as [?|[? _]]; done.
    + destruct (A6 bn Hb Hz E) as [Ht Hf]. split; [by left|]. by rewrite B5.
  - destruct B7 as [->|[Ei Hf]]; [done|]. assert (E : ind d = 0) by (destruct A7 as [?|[? _]]; congruence).
    destruct (fo_ind _ _ _ B1) as [E0|[Hd _]]; [left; congruence|right; auto].
  - rewrite length_app. eapply evolves_mono; [exact (evolves_trans sb Hs _ _ _ _ _ _ _ A8 B8)| |].
    + intros b Hb0 Hbu [[->|(bn & Ht & ->)]|[->|(bn & Ht & ->)]]; [by left| | |].
      * right. exists bn. split; [|done]. apply touched_app. auto.
      * destruct A7 as [E|[_ ?]]; [by left|congruence].
      * right. exists bn. assert (Ht' : touched off (length l1 + length l2) bn) by (apply touched_app; auto). split; [done|].
        destruct (Z.eq_dec (faddr g d bn) 0) as [E|E]; [|by apply A5; auto].
        destruct (Z.eq_dec (faddr g1 d1 bn) 0) as [E1|E1]; [congruence|]. destruct (A6 bn (HR _ Ht') E E1). congruence.
    + intros b. split.
      * intros [([->|(bn & Ht & ->)] & Hd & Hfb)|([->|(bn & Ht & ->)] & Hd & Hfb)]; (split; [|by auto]).
        -- destruct B7 as [<-|[E _]]; [by left|]. rewrite E in Hd. apply (data_pos sb Hs) in Hd. lia.
        -- right. exists bn. assert (Ht' : touched off (length l1 + length l2) bn) by (apply touched_app; auto). split; [done|].
           symmetry. apply B5; auto.
        -- by left.
        -- right. exists bn. split; [|done]. apply touched_app. auto.
      * intros (Hw & Hd & Hfb). destruct (is_free g1 sb b) eqn:E1; [right|left].
        -- split; [|done]. destruct Hw as [->|(bn & Ht & ->)]; [by left|]. pose proof (HR bn Ht) as Hb.
           apply touched_app in Ht as [Ht|Ht]; [|right; eauto]. rewrite (B5 bn Hb (A4 bn Ht)) in E1.
           destruct (fo_blk _ _ _ A1 bn Hb) as [?|[_ ?]]; [by destruct (A4 bn Ht)|congruence].
        -- pose proof (data_pos sb Hs b Hd). destruct (ev_new _ _ _ _ _ A8 b ltac:(lia) E1) as [?|?]; [congruence|done].
Qed.

(** A chunk within one block. *)
Lemma touched_one off n bn :
  0 <= off -> (0 < n)%nat -> off mod BSIZE + Z.of_nat n <= BSIZE -> touched off n bn <-> bn = off / BSIZE.
Proof.
  intros H0 Hn Hm. csz. split.
  - intros (x & Hx & ->). csz. dlia.
  - intros ->. exists off. split; [lia|done].
Qed.

Lemma nth_splice o l data i :
  (o + length l <= length data)%nat ->
  nth i (splice o l data) 0 = if decide (o <= i < o + length l)%nat then nth (i - o) l 0 else nth i data 0.
Proof. intros H. rewrite !nth_lookup, splice_lookup by done. by case_decide. Qed.

Lemma chunk_in off x n :
  (off <=? x) && (x <? off + n) = bool_decide (off <= x < off + n).
Proof. destruct (Z.leb_spec off x), (Z.ltb_spec x (off + n)); case_bool_decide; simpl; (done || lia). Qed.

Lemma wrote_chunk g d a g1 d1 L L1 off l :
  file_ok g sb d -> 0 <= off < MAXFILE * BSIZE -> (0 < length l)%nat -> off mod BSIZE + Z.of_nat (length l) <= BSIZE ->
  bmap_post sb g d (off / BSIZE) a g1 d1 L L1 -> blk_ok (g1 a) ->
  wrote sb g d off l (upd g1 a (splice (Z.to_nat (off mod BSIZE)) l (g1 a))) d1.
Proof.
  intros Hf H0 Hl Hm HP [Hlen _]. set (bn := off / BSIZE) in *.
  assert (Hbn : 0 <= bn < MAXFILE) by (unfold bn; csz; dlia).
  destruct HP as [P1 [Pd Pu] P3 P4 P5 P6 P7 P8 _ _ Pind _ _]. pose proof (data_pos sb Hs a Pd) as Hap.
  assert (Hai : a <> ind d1) by (rewrite <-P1; apply (fo_nind _ _ _ P3); [done|lia]).
  pose proof (store_evolves sb g1 a (splice (Z.to_nat (off mod BSIZE)) l (g1 a)) ltac:(lia) (ev_meta _ _ _ _ _ P4)) as E2.
  set (g2 := upd g1 a (splice (Z.to_nat (off mod BSIZE)) l (g1 a))) in *.
  destruct (file_ok_evolves sb Hs g1 g2 _ _ d1 E2 P3) as [Hf2 Hfa2]; [congruence|].
  assert (Hfa : forall bn', 0 <= bn' < MAXFILE -> faddr g2 d1 bn' = if bn' =? bn then a else faddr g d bn').
  { intros bn' Hb. rewrite Hfa2. destruct (Z.eqb_spec bn' bn) as [->|]; [done|]. by apply P6. }
  assert (Ht : forall bn', touched off (length l) bn' <-> bn' = bn) by (intros; apply touched_one; (done || lia)).
  split.
  - done.
  - done.
  - intros x Hx. assert (Hxb : 0 <= x / BSIZE < MAXFILE) by (csz; dlia).
    unfold fget, fbyte. rewrite Hfa by done. destruct (Z.eqb_spec (x / BSIZE) bn) as [Ex|Ex].
    + bfalse (a =? 0). unfold g2. rewrite upd_eq, Ex, (chunk_in off x).
      rewrite nth_splice by (rewrite Hlen; csz; dlia). case_decide as Hin.
      * rewrite bool_decide_eq_true_2 by (csz; unfold bn in *; dlia). f_equal. csz. unfold bn in *. dlia.
      * rewrite bool_decide_eq_false_2 by (csz; unfold bn in *; dlia).
        destruct (Z.eqb_spec (faddr g d bn) 0) as [E|E].
        -- destruct (P8 E) as [-> _]. apply nth_repeat.
        -- by destruct (P7 E) as (-> & -> & _).
    + rewrite (chunk_in off x), bool_decide_eq_false_2 by (csz; unfold bn in *; dlia).
      destruct (Z.eqb_spec (faddr g d (x / BSIZE)) 0) as [E|E]; [done|].
      rewrite <-(P6 (x / BSIZE)) in E by done. f_equal. unfold g2. rewrite upd_ne.
      * rewrite P6 in E by done. destruct (fo_blk _ _ _ Hf (x / BSIZE) Hxb) as [?|[Hd Hu]]; [done|]. pose proof (data_pos sb Hs _ Hd).
        apply (ev_keep _ _ _ _ _ P4); [lia|done|lia|]. by apply (fo_nind _ _ _ Hf).
      * rewrite <-(P6 (x / BSIZE)), <-P1 by done. intros Heq. by apply (fo_inj _ _ _ P3) in Heq.
  - intros bn' ->%Ht. rewrite Hfa, Z.eqb_refl by done. lia.
  - intros bn' Hb Hn. rewrite Hfa by done. destruct (Z.eqb_spec bn' bn) as [->|]; [|done]. by destruct (P7 Hn).
  - intros bn' Hb Hz. rewrite Hfa, Ht by done. destruct (Z.eqb_spec bn' bn) as [->|]; [|done].
    intros _. split; [done|]. by apply P8.
  - done.
  - eapply evolves_mono; [exact (evolves_trans sb Hs _ _ _ _ _ _ _ P4 E2)| |].
    + intros b Hb0 Hbu [->| ->]; [by left|]. right. exists bn. rewrite Ht. split; [done|].
      destruct (Z.eq_dec (faddr g d bn) 0) as [E|E]; [|by destruct (P7 E)]. destruct (P8 E) as (_ & _ & ?). congruence.
    + intros b. split.
      * intros [([->| ->] & Hr)|[]]; (split; [|exact Hr]); [right|by left]. exists bn. rewrite Ht, Hfa, Z.eqb_refl by done. done.
      * intros ([->|(bn' & ->%Ht & ->)] & Hr); [by left; auto|]. rewrite Hfa, Z.eqb_refl in * by done. left. auto.
Qed.
End wrote.

(** ** writei *)

(** The number of blocks that [n] bytes from [off] on are in. *)
Definition nblocks (off n : Z) : nat := if n <=? 0 then 0 else Z.to_nat ((off + n - 1) / BSIZE - off / BSIZE + 1).

Lemma nblocks_step off n m :
  0 <= off -> 0 < n -> m = Z.min n (BSIZE - off mod BSIZE) -> nblocks off n = S (nblocks (off + m) (n - m)).
Proof.
  intros H0 Hn ->. unfold nblocks. csz. destruct (Z.leb_spec n 0); [lia|].
  destruct (Z.leb_spec (n - Z.min n (1024 - off mod 1024)) 0); dlia.
Qed.

(** The blocks a write adds to the log. *)
Definition logged (g' : Z -> list Z) (d' : dinode) (off : Z) (n : nat) (L L' : gset Z) : Prop :=
  L ⊆ L' /\ (forall b, b ∈ L' -> b ∈ L \/ written g' d' off n b /\ b <> 0) /\ (ind d' <> 0 -> ind d' ∈ L').

Lemma set_d_idem d1 d2 i : set_d d2 (set_d d1 i) = set_d d2 i.
Proof. done. Qed.

Section writei.
Context (dv SZ out : Z) (dk : disk) (cb : core).
Hypothesis (Hcore : bio_core cb) (Hlog : lock_free LkLog cb) (Hout : 1 <= out).
Notation F := (ftx dv SZ out dk cb).
Context (sb : superblock) (Hs : sb_ok sb).
Implicit Types (it : list inode) (km : kmem) (s : fsst) (g : Z -> list Z).

Lemma handles_nil g : handles_ok sb g [].
Proof. split; [apply not_elem_of_nil|]. intros b Hb. by apply elem_of_nil in Hb. Qed.

Lemma logged_app sb' g d off l1 g1 d1 l2 g2 d2 L L1 L2 :
  wrote sb' g d off l1 g1 d1 -> wrote sb' g1 d1 (off + Z.of_nat (length l1)) l2 g2 d2 ->
  0 <= off -> off + Z.of_nat (length l1 + length l2) <= MAXFILE * BSIZE ->
  logged g1 d1 off (length l1) L L1 -> logged g2 d2 (off + Z.of_nat (length l1)) (length l2) L1 L2 ->
  logged g2 d2 off (length l1 + length l2) L L2.
Proof.
  intros A B H0 Hmax (A1 & A2 & A3) (B1 & B2 & B3). split; [set_solver|]. split; [|done].
  intros b Hb. destruct (B2 b Hb) as [Hb1|[[->|(bn & Ht & ->)] Hz]].
  - destruct (A2 b Hb1) as [?|[[->|(bn & Ht & ->)] Hz]]; [by left| |]; right; (split; [|done]).
    + left. destruct (wr_ind _ _ _ _ _ _ _ B) as [?|[? _]]; [done|lia].
    + right. exists bn. split; [apply touched_app; auto|]. symmetry. apply (wr_mono _ _ _ _ _ _ _ B); [|done].
      eapply (touched_range off); [done|exact Hmax|]. apply touched_app. auto.
  - right. split; [by left|done].
  - right. split; [|done]. right. exists bn. split; [apply touched_app; auto|done].
Qed.

(** What one turn of the loop leaves behind: [g2] is [g1] with the chunk stored in [a]. *)
Lemma chunk_state k g d a g1 d1 L L1 off l nb :
  file_ok g sb d -> 0 <= off < MAXFILE * BSIZE -> (0 < length l)%nat -> off mod BSIZE + Z.of_nat (length l) <= BSIZE ->
  bmap_post sb g d (off / BSIZE) a g1 d1 L L1 -> blk_ok (g1 a) ->
  room SZ (S (S nb + k + indw d)) 2 L -> nfree g sb (S nb + indw d) ->
  let g2 := upd g1 a (splice (Z.to_nat (off mod BSIZE)) l (g1 a)) in let L2 := {[a]} ∪ L1 in
  wrote sb g d off l g2 d1 /\ logged g2 d1 off (length l) L L2 /\ room SZ (S (nb + k + indw d1)) 2 L2 /\
  nfree g2 sb (nb + indw d1).
Proof.
  intros Hf H0 Hl Hm HP Hk Hr Hn g2 L2. pose proof (wrote_chunk sb Hs g d a g1 d1 L L1 off l Hf H0 Hl Hm HP Hk) as Hw.
  destruct HP as [P1 [Pd Pu] P3 P4 P5 P6 P7 P8 [P9 P9'] P10 Pind Pn Pr]. pose proof (data_pos sb Hs a Pd) as Hap.
  assert (Hbn : 0 <= off / BSIZE < MAXFILE) by (csz; dlia).
  assert (Hai : a <> ind d1) by (rewrite <-P1; apply (fo_nind _ _ _ P3); [done|lia]).
  assert (Hfa : faddr g2 d1 (off / BSIZE) = a).
  { rewrite <-P1. apply faddr_ext. intros _. unfold g2. by apply upd_ne. }
  assert (Ht : touched off (length l) (off / BSIZE)) by (apply touched_one; (done || lia)).
  split; [done|]. split; [|split].
  - split; [set_solver|]. split; [|intros Hi; apply elem_of_union; auto].
    intros b [->%elem_of_singleton|Hb]%elem_of_union; [right; split; [right; eauto|lia]|].
    destruct (P9' b Hb) as [?|[[->| ->] Hz]]; [by left| |]; right; (split; [|done]); [right; eauto|by left].
  - unfold L2. destruct (Z.eq_dec (faddr g d (off / BSIZE)) 0) as [E|E].
    + destruct (P8 E) as (_ & Ha & _). apply room_in; [done|]. apply (Pr SZ (S (nb + k)) 2%nat). eapply room_le; [exact Hr|lia|lia].
    + destruct (P7 E) as (_ & _ & -> & ->). apply room_add. eapply room_le; [exact Hr|lia|lia].
  - destruct (Pn nb Hn) as (x & Hx & Hy). exists x. split; [done|]. intros b Hb. destruct (Hy b Hb) as [? Hbf]. split; [done|].
    unfold is_free, g2. rewrite upd_ne by lia. exact Hbf.
Qed.

Lemma splice_chunk_blk off l x :
  blk_ok x -> Forall is_byte l -> 0 <= off -> off mod BSIZE + Z.of_nat (length l) <= BSIZE ->
  blk_ok (splice (Z.to_nat (off mod BSIZE)) l x).
Proof.
  intros [Hx Hb] Hl H0 Hm. split; [|by apply splice_byte]. rewrite length_splice; [done|]. rewrite Hx. csz. dlia.
Qed.

Lemma writei_loop_ok k L g it km c s ip i n fuel off tot l :
  F [] [] L g sb it km c s -> meta_used g sb -> sb_bmapstart sb ∈ L ->
  it !! ip = Some i -> in_dev i = dv -> file_ok g sb (in_d i) -> (ind (in_d i) <> 0 -> ind (in_d i) ∈ L) ->
  0 <= off -> off + (n - tot) <= MAXFILE * BSIZE -> 0 <= tot <= n -> Z.of_nat (length l) = n - tot -> Forall is_byte l ->
  nfree g sb (nblocks off (n - tot) + indw (in_d i)) -> room SZ (S (nblocks off (n - tot) + k + indw (in_d i))) 2 L ->
  (Z.to_nat (n - tot) <= fuel)%nat ->
  wp (writei_loop ip (FromLocal l) off n tot fuel) c s (fun r c' s' => exists g' d' L',
    r = (n, off + (n - tot)) /\ F [] [] L' g' sb (<[ip := set_d d' i]> it) km c' s' /\
    wrote sb g (in_d i) off l g' d' /\ logged g' d' off (length l) L L' /\ room SZ (S (k + indw d')) 2 L').
Proof.
  revert off tot l L g it c s i.
  induction fuel as [|fuel IH]; intros off tot l L g it c s i Hf Hm HL Hip Hdev Hfo Hind H0 Hmax Ht Hlen Hby Hnf Hr Hfuel;
    cbn [writei_loop].
  all: destruct (Z.ltb_spec tot n) as [Hlt|Hge]; [try lia|].
  1,3: assert (tot = n) as -> by lia; assert (l = []) as -> by (apply nil_length_inv; lia);
    apply wp_ret; exists g, (in_d i), L; rewrite (list_insert_id it ip) by (by rewrite Hip; destruct i);
    split_and!; [f_equal; lia|done|by apply wrote_nil|split_and!; auto|eapply room_le; [exact Hr|lia|lia]].
  assert (Hb : 0 <= off / BSIZE < MAXFILE) by (csz; dlia).
  pose proof (min_block n tot off Hlt H0) as Hmb. set (m := Z.min (n - tot) (BSIZE - off mod BSIZE)) in *.
  assert (Hm2 : off mod BSIZE + m <= BSIZE) by lia.
  rewrite (nblocks_step off (n - tot) m) in Hnf, Hr by (done || lia).
  replace (n - tot - m) with (n - (tot + m)) in * by lia. set (nb := nblocks (off + m) (n - (tot + m))) in *.
  wrun (bmap_ok dv SZ out dk cb Hcore Hlog Hout sb Hs (nb + k) 2 [] L g it km c s ip i (off / BSIZE) Hf);
    [done|apply handles_nil|done|done|done|done|done| | | |simpl; lia|].
  { intros Hi. split; [apply not_elem_of_nil|auto]. }
  { intros _. destruct Hnf as (x & Hx & Hy). exists x. split; [lia|done]. }
  { eapply room_le; [exact Hr|lia|lia]. }
  intros a c1 s1 (g1 & d1 & L1 & H1 & HP). pose proof (data_pos sb Hs a (proj1 (bp_use _ _ _ _ _ _ _ _ _ HP))) as Hap.
  assert (Hip1 : <[ip:=set_d d1 i]> it !! ip = Some (set_d d1 i)) by (apply list_lookup_insert_eq; by eapply lookup_lt_Some).
  wgets. rewrite (get_inode_ftx dv SZ out dk cb sb _ _ _ _ _ _ _ _ _ _ H1 Hip1). cbn [in_dev set_d]. rewrite Hdev.
  assert (Hr1 : room SZ (S (nb + k)) 2 L1).
  { eapply room_le; [apply (bp_room _ _ _ _ _ _ _ _ _ HP SZ (S (nb + k)) 2%nat)|lia|lia]. eapply room_le; [exact Hr|lia|lia]. }
  wrun f_bread; [exact Hcore|exact H1|apply not_elem_of_nil|exact Hr1|simpl; lia|]. intros bp c2 s2 H2. fold m.
  wbind. unfold either_copyin. wrun f_myproc; [exact Hcore|exact H2|]. intros p c3 s3 (-> & -> & ->). apply wp_ret. cbn [fst snd].
  set (l1 := take (Z.to_nat m) l). assert (Hl1 : Z.of_nat (length l1) = m) by (unfold l1; rewrite length_take; lia).
  assert (Hk1 : blk_ok (g1 a)) by by eapply ftx_blk.
  destruct (chunk_state k g (in_d i) a g1 d1 L L1 off l1 nb) as (Hw & Hlg & Hr2 & Hnf2); try done; [lia|lia|lia|].
  set (x := splice (Z.to_nat (off mod BSIZE)) l1 (g1 a)) in *.
  assert (Hx : blk_ok x) by (apply splice_chunk_blk; [done|by apply Forall_take|done|lia]).
  wrun f_bdata; [exact H2|by left|]. intros y c3 s3 (-> & -> & ->). fold x.
  wrun f_set_bdata; [exact H2|by left|exact Hx|]. intros [] c3 s3 H3. bfalse (0 =? -1).
  wrun f_log_write; [exact Hcore|exact Hlog|exact Hout|exact H3|by left|lia|exact Hr1|]. intros [] c4 s4 H4.
  wrun f_brelse; [exact Hcore|exact Hlog|exact H4|apply not_elem_of_nil|]. intros [] c5 s5 H5.
  assert (u32 (off + m) = off + m) as -> by (unfold u32; apply Z.mod_small; csz; lia). cbn [src_add].
  assert (El : l = l1 ++ drop (Z.to_nat m) l) by (symmetry; apply take_drop).
  assert (Hld : Z.of_nat (length (drop (Z.to_nat m) l)) = n - (tot + m)) by (rewrite length_drop; lia).
  assert (Hby2 : Forall is_byte (drop (Z.to_nat m) l)) by (by apply Forall_drop).
  set (l2 := drop (Z.to_nat m) l) in *. clearbody l2.
  pose proof (bp_L _ _ _ _ _ _ _ _ _ HP) as [HL1 _].
  eapply wp_mono; [apply (IH (off + m) (tot + m) l2 _ _ _ c5 s5 (set_d d1 i) H5); try done|].
  - apply (ev_meta _ _ _ _ _ (wr_ev _ _ _ _ _ _ _ Hw)).
  - set_solver.
  - apply (wr_file _ _ _ _ _ _ _ Hw).
  - apply Hlg.
  - lia.
  - lia.
  - lia.
  - lia.
  - intros r c' s' (g' & d' & L' & -> & H6 & Hw' & Hlg' & Hr6). exists g', d', L'.
    rewrite set_d_idem, list_insert_insert_eq in H6. cbn [in_d set_d] in Hw'.
    rewrite <-Hl1 in Hw', Hlg'. split_and!; [f_equal; lia|done| | |done].
    + rewrite El. eapply wrote_app; [exact Hs|done|rewrite <-El; lia|exact Hw|exact Hw'].
    + rewrite El, length_app. eapply logged_app; [exact Hw|exact Hw'|done|lia|exact Hlg|exact Hlg'].
Qed.
End writei.
