(* ===== verification/FsInode.v ===== *)
(** * Inodes on disk: iupdate of kernel/fs.c, and writei as a whole *)

From Stdlib Require Import ZArith Lia.
From stdpp Require Import base gmap list numbers strings.
From S2P Require Import Prelude Riscv Core Spinlock Wp Kstring Kalloc Vm Sleeplock Bio BioAbs Log LogOps Fs FsTx FsBitmap FsFile FsIo FsWrite.
Local Open Scope Z_scope.

(** ** The on-disk form of an inode *)

(** The values the fields can hold. *)
Record dinode_wf (d : dinode) : Prop := mkDinodeWf {
  dw_short : forall x, x ∈ [di_type d; di_major d; di_minor d; di_nlink d] -> - 2 ^ 15 <= x < 2 ^ 15;
  dw_size : 0 <= di_size d < 2 ^ 32;
  dw_len : length (di_addrs d) = 13%nat;
  dw_addr : Forall (fun a => 0 <= a < 2 ^ 32) (di_addrs d)
}.

Lemma s16_u16 x : - 2 ^ 15 <= x < 2 ^ 15 -> s16 (u16 x) = x.
Proof.
  intros H. unfold s16, sgn, u16. change (16 - 1) with 15. rewrite Z.mod_mod by lia.
  destruct (Z.ltb_spec (x mod 2 ^ 16) (2 ^ 15)) as [Hl|Hl]; destruct (Z.neg_nonneg_cases x).
  - rewrite <-(Z.mod_unique x (2 ^ 16) (-1) (x + 2 ^ 16)) in Hl; lia.
  - apply Z.mod_small. lia.
  - rewrite <-(Z.mod_unique x (2 ^ 16) (-1) (x + 2 ^ 16)); lia.
  - rewrite Z.mod_small in Hl by lia. lia.
Qed.

Lemma length_addrs l : length (l ≫= le_bytes 4) = (4 * length l)%nat.
Proof. induction l as [|a l IH]; [done|]. rewrite bind_cons, length_app, le_bytes_length, IH. simpl. lia. Qed.

Lemma slice_app_r n k (l l' : list Z) : length l = n -> slice (n + k) 4 (l ++ l') = slice k 4 l'.
Proof. intros <-. unfold slice. by rewrite drop_app_add. Qed.

(** Entry [k] of the addresses, read back. *)
Lemma addrs_entry l k a : l !! k = Some a -> slice (4 * k) 4 (l ≫= le_bytes 4) = le_bytes 4 a.
Proof.
  revert k. induction l as [|x l IH]; intros k Hk; [done|]. rewrite bind_cons. destruct k as [|k]; simpl in Hk.
  - injection Hk as ->. unfold slice. rewrite drop_0, take_app_le by (by rewrite le_bytes_length).
    by rewrite take_ge by (by rewrite le_bytes_length).
  - replace (4 * S k)%nat with (4 + 4 * k)%nat by lia. rewrite slice_app_r by (by rewrite le_bytes_length). by apply IH.
Qed.

Lemma slice_slice o n o' n' (l : list Z) : (o' + n' <= n)%nat -> slice o' n' (slice o n l) = slice (o + o') n' l.
Proof.
  intros H. apply list_eq. intros j. rewrite !slice_lookup. repeat case_decide; try done; try lia.
  - by rewrite Nat.add_assoc.
Qed.

(** Consecutive stores are one store. *)
Lemma splice_app off a b l :
  (off + length a + length b <= length l)%nat -> splice (off + length a) b (splice off a l) = splice off (a ++ b) l.
Proof.
  intros H. apply list_eq. intros i. rewrite !splice_lookup; rewrite ?length_splice, ?length_app; try lia.
  repeat case_decide; try lia; try done.
  - rewrite lookup_app_r by lia. f_equal. lia.
  - rewrite lookup_app_l by lia. done.
Qed.

(** The 64 bytes of an inode. *)
Definition dinode_bytes (d : dinode) : list Z :=
  le_bytes 2 (di_type d) ++ le_bytes 2 (di_major d) ++ le_bytes 2 (di_minor d) ++ le_bytes 2 (di_nlink d) ++
  le_bytes 4 (di_size d) ++ (di_addrs d ≫= le_bytes 4).

Lemma dinode_bytes_length d : length (di_addrs d) = 13%nat -> length (dinode_bytes d) = 64%nat.
Proof. intros H. unfold dinode_bytes. rewrite !length_app, !le_bytes_length, length_addrs, H. done. Qed.

Lemma dinode_bytes_byte d : Forall is_byte (dinode_bytes d).
Proof.
  unfold dinode_bytes. rewrite !Forall_app. split_and!; try apply le_bytes_byte.
  induction (di_addrs d) as [|a l IH]; [constructor|]. rewrite bind_cons. apply Forall_app. split; [apply le_bytes_byte|done].
Qed.

Lemma dinode_put_splice off d data :
  length (di_addrs d) = 13%nat -> (off + 64 <= length data)%nat -> dinode_put off d data = splice off (dinode_bytes d) data.
Proof.
  intros Hl Ho. unfold dinode_put, put_addrs, st16, st32, dinode_bytes.
  set (a1 := le_bytes 2 (di_type d)). set (a2 := le_bytes 2 (di_major d)). set (a3 := le_bytes 2 (di_minor d)).
  set (a4 := le_bytes 2 (di_nlink d)). set (a5 := le_bytes 4 (di_size d)). set (a6 := di_addrs d ≫= le_bytes 4).
  assert (length a1 = 2 /\ length a2 = 2 /\ length a3 = 2 /\ length a4 = 2 /\ length a5 = 4 /\ length a6 = 52)%nat
    as (E1 & E2 & E3 & E4 & E5 & E6) by (split_and!; try apply le_bytes_length; unfold a6; by rewrite length_addrs, Hl).
  replace (off + 2)%nat with (off + length a1)%nat by lia. rewrite splice_app by lia.
  replace (off + 4)%nat with (off + length (a1 ++ a2))%nat by (rewrite length_app; lia). rewrite splice_app by (rewrite length_app; lia).
  replace (off + 6)%nat with (off + length ((a1 ++ a2) ++ a3))%nat by (rewrite !length_app; lia). rewrite splice_app by (rewrite !length_app; lia).
  replace (off + 8)%nat with (off + length (((a1 ++ a2) ++ a3) ++ a4))%nat by (rewrite !length_app; lia). rewrite splice_app by (rewrite !length_app; lia).
  replace (off + 12)%nat with (off + length ((((a1 ++ a2) ++ a3) ++ a4) ++ a5))%nat by (rewrite !length_app; lia).
  rewrite splice_app by (rewrite !length_app; lia). by rewrite <-!app_assoc.
Qed.

Lemma slice_mid (a b c : list Z) n k : length a = n -> length b = k -> slice n k (a ++ b ++ c) = b.
Proof. intros <- <-. unfold slice. by rewrite drop_app_length, take_app_length. Qed.

Lemma dinode_field off d data o n :
  length (di_addrs d) = 13%nat -> (off + 64 <= length data)%nat -> (o + n <= 64)%nat ->
  slice (off + o) n (dinode_put off d data) = slice o n (dinode_bytes d).
Proof.
  intros Hl Ho Hn. rewrite dinode_put_splice by done. pose proof (dinode_bytes_length d Hl) as E.
  rewrite <-(slice_splice off (dinode_bytes d) data) at 2 by lia. rewrite slice_slice by lia. done.
Qed.

(** The fields of [dinode_bytes]. *)
Lemma dinode_bytes_fields d :
  slice 0 2 (dinode_bytes d) = le_bytes 2 (di_type d) /\ slice 2 2 (dinode_bytes d) = le_bytes 2 (di_major d) /\
  slice 4 2 (dinode_bytes d) = le_bytes 2 (di_minor d) /\ slice 6 2 (dinode_bytes d) = le_bytes 2 (di_nlink d) /\
  slice 8 4 (dinode_bytes d) = le_bytes 4 (di_size d) /\
  (forall k a, di_addrs d !! k = Some a -> slice (12 + 4 * k) 4 (dinode_bytes d) = le_bytes 4 a).
Proof.
  unfold dinode_bytes. pose proof (fun v => le_bytes_length 2 v) as L2. pose proof (fun v => le_bytes_length 4 v) as L4.
  split_and!.
  - apply (slice_mid [] (le_bytes 2 (di_type d))); [done|apply L2].
  - apply slice_mid; apply L2.
  - rewrite app_assoc. apply slice_mid; rewrite ?length_app, ?L2; done.
  - rewrite app_assoc, (app_assoc (_ ++ _)). apply slice_mid; rewrite ?length_app, ?L2; done.
  - rewrite app_assoc, (app_assoc (_ ++ _)), (app_assoc ((_ ++ _) ++ _)). apply slice_mid; rewrite ?length_app, ?L2, ?L4; done.
  - intros k a Hk. rewrite app_assoc, (app_assoc (_ ++ _)), (app_assoc ((_ ++ _) ++ _)), (app_assoc (((_ ++ _) ++ _) ++ _)).
    rewrite slice_app_r by (rewrite !length_app, !L2, L4; done). by apply addrs_entry.
Qed.

(** Reading an inode back from the block it was stored in gives the inode. *)
Lemma dinode_roundtrip off d data :
  dinode_wf d -> (off + 64 <= length data)%nat -> dinode_decode off (dinode_put off d data) = d.
Proof.
  intros [Hsh Hsz Hl Had] Ho. destruct (dinode_bytes_fields d) as (F1 & F2 & F3 & F4 & F5 & F6).
  unfold dinode_decode, ld16, ld32. rewrite <-(Nat.add_0_r off) at 1.
  rewrite !(dinode_field off d data) by (done || lia). rewrite F1, F2, F3, F4, F5, !le_val_bytes.
  change (256 ^ Z.of_nat 2) with (2 ^ 16). change (256 ^ Z.of_nat 4) with (2 ^ 32). fold (u16 (di_type d)) (u16 (di_major d)) (u16 (di_minor d)) (u16 (di_nlink d)).
  rewrite !s16_u16 by (apply Hsh; set_solver).
  assert ((fun k => le_val (slice (off + 12 + 4 * k) 4 (dinode_put off d data))) <$> seq 0 13 = di_addrs d) as ->.
  { apply list_eq. intros k. rewrite list_lookup_fmap. destruct (decide (k < 13)%nat) as [Hk|Hk].
    - rewrite lookup_seq_lt by done. change (Some (le_val (slice (off + 12 + 4 * k) 4 (dinode_put off d data))) = di_addrs d !! k).
      destruct (lookup_lt_is_Some_2 (di_addrs d) k) as [a Ha]; [lia|].
      rewrite <-(Nat.add_assoc off), (dinode_field off d data), (F6 k a Ha), le_val_bytes, Ha by (done || lia).
      f_equal. change (256 ^ Z.of_nat 4) with (2 ^ 32). apply Z.mod_small. apply (Forall_lookup_1 _ _ _ _ Had Ha).
    - rewrite lookup_seq_ge by lia. rewrite lookup_ge_None_2 by lia. done. }
  rewrite Z.mod_small by done. by destruct d.
Qed.

(** Storing an inode leaves the other inodes of the block alone. *)
Lemma dinode_other off off' d data :
  length (di_addrs d) = 13%nat -> (off + 64 <= length data)%nat -> (off' + 64 <= off \/ off + 64 <= off')%nat ->
  dinode_decode off' (dinode_put off d data) = dinode_decode off' data.
Proof.
  intros Hl Ho Hd. unfold dinode_decode, ld16, ld32. rewrite dinode_put_splice by done. pose proof (dinode_bytes_length d Hl).
  rewrite !slice_splice_ne by lia. f_equal. apply list_fmap_ext. intros i k Hk.
  apply lookup_seq in Hk. by rewrite slice_splice_ne by lia.
Qed.

Lemma dinode_put_blk off d data :
  length (di_addrs d) = 13%nat -> (off + 64 <= 1024)%nat -> blk_ok data -> blk_ok (dinode_put off d data).
Proof.
  intros Hl Ho [Hd Hb]. rewrite dinode_put_splice by (done || lia). pose proof (dinode_bytes_length d Hl).
  split; [rewrite length_splice; lia|]. apply splice_byte; [apply dinode_bytes_byte|done].
Qed.

(** ** The contents of a file *)

(** A file is the list of its bytes. *)
Definition contents (g : Z -> list Z) (d : dinode) : list Z := frange g d 0 (Z.to_nat (di_size d)).
(** [l] over the bytes from [off] on, which may lengthen the file. *)
Definition overwrite (off : nat) (l f : list Z) : list Z := take off f ++ l ++ drop (off + length l) f.
(** The inode [inum] as it is on the disk. *)
Definition dinode_of (g : Z -> list Z) (sb : superblock) (inum : Z) : dinode :=
  dinode_decode (dip_off inum) (g (IBLOCK inum sb)).

Lemma overwrite_lookup off l f i :
  (off <= length f)%nat ->
  overwrite off l f !! i = if decide (off <= i < off + length l)%nat then l !! (i - off)%nat else f !! i.
Proof.
  intros H. unfold overwrite. destruct (decide (i < off)%nat) as [Hi|Hi].
  - rewrite lookup_app_l by (rewrite length_take; lia). rewrite lookup_take_lt by done. case_decide; (done || lia).
  - rewrite lookup_app_r by (rewrite length_take; lia). rewrite length_take, Nat.min_l by done. case_decide.
    + by rewrite lookup_app_l by lia.
    + rewrite lookup_app_r by lia. rewrite lookup_drop. f_equal. lia.
Qed.

Lemma contents_length g d : length (contents g d) = Z.to_nat (di_size d).
Proof. apply frange_length. Qed.

Lemma contents_lookup g d i :
  sized g d -> contents g d !! i = if decide (Z.of_nat i < di_size d) then Some (fget g d (Z.of_nat i)) else None.
Proof.
  intros [Hs Hb]. unfold contents. case_decide as Hi.
  - rewrite frange_lookup by lia. unfold fget. rewrite Z.add_0_l. specialize (Hb (Z.of_nat i) ltac:(lia)).
    by bfalse (faddr g d (Z.of_nat i / BSIZE) =? 0).
  - apply lookup_ge_None_2. rewrite frange_length. lia.
Qed.

(** What readi copies out is a part of the contents. *)
Lemma frange_contents g d off n :
  0 <= off -> off + Z.of_nat n <= di_size d -> frange g d off n = slice (Z.to_nat off) n (contents g d).
Proof.
  intros H0 Hn. apply list_eq. intros i. rewrite slice_lookup. case_decide as Hi.
  - unfold contents. rewrite !frange_lookup by lia. do 2 f_equal. lia.
  - apply lookup_ge_None_2. rewrite frange_length. lia.
Qed.

Lemma read_len_fits size off n :
  0 <= off -> 0 <= n -> off + n <= size -> size < 2 ^ 32 -> read_len size off n = n.
Proof.
  intros. unfold read_len. assert (u32 (off + n) = off + n) as -> by (unfold u32; apply Z.mod_small; lia).
  bfalse (size <? off). bfalse (off + n <? off). by bfalse (size <? off + n).
Qed.

Section contents.
Context (sb : superblock) (Hs : sb_ok sb).
Implicit Types (g : Z -> list Z) (d : dinode).

(** A write of [l], followed by the new size. *)
Definition end_size (d d' : dinode) (off n : Z) : dinode :=
  if di_size d <? off + n then set_size (off + n) d' else d'.

Lemma end_size_addrs d d' off n : di_addrs (end_size d d' off n) = di_addrs d'.
Proof. unfold end_size. by case_match. Qed.
Lemma faddr_addrs g d d' bn : di_addrs d = di_addrs d' -> faddr g d bn = faddr g d' bn.
Proof. intros E. unfold faddr, ind, addr_at. by rewrite E. Qed.
Lemma file_ok_addrs g d d' : di_addrs d = di_addrs d' -> file_ok g sb d -> file_ok g sb d'.
Proof.
  intros E [H1 H2 H3 H4 H5]. unfold ind, addr_at in *. rewrite E in *.
  split; unfold ind, addr_at; try done; intros bn; try rewrite <-(faddr_addrs g d d' _ E); auto.
  intros bn'. rewrite <-!(faddr_addrs g d d' _ E). auto.
Qed.
Lemma fget_addrs g d d' x : di_addrs d = di_addrs d' -> fget g d x = fget g d' x.
Proof. intros E. unfold fget, fbyte. by rewrite (faddr_addrs g d d' _ E). Qed.
Lemma end_size_size d d' off n : di_size d' = di_size d -> di_size (end_size d d' off n) = Z.max (di_size d) (off + n).
Proof. intros E. unfold end_size. destruct (Z.ltb_spec (di_size d) (off + n)); cbn [di_size set_size]; lia. Qed.

Lemma wrote_contents g d off l g' d' :
  0 <= off <= di_size d -> off + Z.of_nat (length l) <= MAXFILE * BSIZE -> sized g d -> wrote sb g d off l g' d' ->
  let d2 := end_size d d' off (Z.of_nat (length l)) in
  sized g' d2 /\ contents g' d2 = overwrite (Z.to_nat off) l (contents g d).
Proof.
  intros H0 Hmax Hz W. destruct W as [_ [ad ->] W3 W4 W5 _ _ _]. intros d2.
  assert (Ead : di_addrs d2 = di_addrs (with_addrs d ad)) by apply end_size_addrs.
  assert (Esz : di_size d2 = Z.max (di_size d) (off + Z.of_nat (length l))) by by apply end_size_size.
  assert (Hz2 : sized g' d2).
  { split; [rewrite Esz; destruct Hz; lia|]. intros x Hx. rewrite (faddr_addrs _ _ _ _ Ead). rewrite Esz in Hx.
    destruct (Z.lt_ge_cases x (di_size d)) as [Hl|Hl].
    - rewrite W5; [|destruct Hz; csz; dlia|]; apply Hz; lia.
    - apply W4. exists x. split; [lia|done]. }
  split; [done|]. apply list_eq. intros i. rewrite overwrite_lookup by (rewrite contents_length; lia).
  rewrite !contents_lookup by done. rewrite Esz, (fget_addrs _ _ _ _ Ead). repeat case_decide; try lia; try done.
  - rewrite W3, chunk_in, bool_decide_eq_true_2 by (destruct Hz; lia). symmetry.
    replace (Z.to_nat (Z.of_nat i - off)) with (i - Z.to_nat off)%nat by lia. apply nth_Some. lia.
  - by rewrite W3, chunk_in, bool_decide_eq_false_2 by (destruct Hz; lia).
Qed.
End contents.

(** ** iupdate *)

Lemma iblock_range sb inum :
  sb_ok sb -> 0 <= inum < sb_ninodes sb -> 0 < IBLOCK inum sb < sb_bmapstart sb /\ (dip_off inum + 64 <= 1024)%nat.
Proof.
  intros [_ H1 [_ H2] _] Hi. unfold IBLOCK, dip_off. change IPB with 16 in *. change DINODE with 64. dlia.
Qed.

(** Two inodes of the same block do not overlap. *)
Lemma dip_off_ne sb i j :
  0 <= i -> 0 <= j -> i <> j -> IBLOCK i sb = IBLOCK j sb -> (dip_off j + 64 <= dip_off i \/ dip_off i + 64 <= dip_off j)%nat.
Proof. unfold IBLOCK, dip_off. change IPB with 16. change DINODE with 64. intros. dlia. Qed.

Definition iupdated (sb : superblock) (inum : Z) (d : dinode) (g : Z -> list Z) : Z -> list Z :=
  upd g (IBLOCK inum sb) (dinode_put (dip_off inum) d (g (IBLOCK inum sb))).

Lemma iupdated_same sb inum d g :
  sb_ok sb -> 0 <= inum < sb_ninodes sb -> dinode_wf d -> blk_ok (g (IBLOCK inum sb)) -> dinode_of (iupdated sb inum d g) sb inum = d.
Proof.
  intros Hs Hi Hd [Hl _]. unfold dinode_of, iupdated. rewrite upd_eq. apply dinode_roundtrip; [done|].
  rewrite Hl. by apply (iblock_range sb).
Qed.

Lemma iupdated_other sb inum inum' d g :
  sb_ok sb -> 0 <= inum < sb_ninodes sb -> 0 <= inum' -> inum' <> inum -> length (di_addrs d) = 13%nat ->
  blk_ok (g (IBLOCK inum sb)) -> dinode_of (iupdated sb inum d g) sb inum' = dinode_of g sb inum'.
Proof.
  intros Hs Hi Hi' Hne Hl [Hlb _]. unfold dinode_of, iupdated. destruct (decide (IBLOCK inum' sb = IBLOCK inum sb)) as [E|E].
  - rewrite E, upd_eq. apply dinode_other; [done| |].
    + rewrite Hlb. by apply (iblock_range sb).
    + apply (dip_off_ne sb); lia || done.
  - by rewrite upd_ne.
Qed.

(** The inode block is not one of a file's. *)
Lemma iupdated_evolves sb inum d g :
  sb_ok sb -> 0 <= inum < sb_ninodes sb -> meta_used g sb ->
  evolves g (iupdated sb inum d g) sb (fun b => b = IBLOCK inum sb) (fun _ => False).
Proof. intros Hs Hi Hm. apply store_evolves; [|done]. pose proof (iblock_range sb inum Hs Hi). lia. Qed.

Lemma file_ok_wf g sb d :
  sb_ok sb -> file_ok g sb d -> (forall x, x ∈ [di_type d; di_major d; di_minor d; di_nlink d] -> - 2 ^ 15 <= x < 2 ^ 15) ->
  0 <= di_size d < 2 ^ 32 -> dinode_wf d.
Proof.
  intros Hs [Hl Hi Hb _ _] Hsh Hsz. split; try done. apply Forall_lookup. intros k a Hk.
  pose proof (lookup_lt_Some _ _ _ Hk) as Hlt.
  assert (E : a = addr_at (Z.of_nat k) d) by (unfold addr_at; rewrite Nat2Z.id; by rewrite (nth_lookup_Some _ _ _ _ Hk)).
  assert (Hu : a = 0 \/ in_use g sb a).
  { rewrite E. destruct (decide (k = 12%nat)) as [->|Hn]; [exact Hi|].
    assert (Hk12 : Z.of_nat k < 12) by lia. specialize (Hb (Z.of_nat k)). unfold faddr in Hb. cst.
    destruct (Z.ltb_spec (Z.of_nat k) 12); [|lia]. apply Hb. lia. }
  destruct Hu as [->|[Hd _]]; [lia|]. apply (data_pos sb Hs) in Hd. lia.
Qed.

Section iupdate.
Context (dv SZ out : Z) (dk : disk) (cb : core).
Hypothesis (Hcore : bio_core cb) (Hlog : lock_free LkLog cb) (Hout : 1 <= out).
Notation F := (ftx dv SZ out dk cb).
Context (sb : superblock) (Hs : sb_ok sb).
Implicit Types (it : list inode) (km : kmem) (s : fsst) (g : Z -> list Z).

Lemma iupdate_ok k h H L g it km c s ip i :
  F H [] L g sb it km c s -> it !! ip = Some i -> in_dev i = dv -> 0 <= in_inum i < sb_ninodes sb ->
  length (di_addrs (in_d i)) = 13%nat -> IBLOCK (in_inum i) sb ∉ H.*2 -> room SZ (S k) h L -> (length H < h)%nat ->
  wp (iupdate ip) c s (fun _ c' s' =>
    F H [] ({[IBLOCK (in_inum i) sb]} ∪ L) (iupdated sb (in_inum i) (in_d i) g) sb it km c' s').
Proof.
  intros Hf Hip Hdev Hi Hl HH Hr Hh. pose proof (iblock_range sb _ Hs Hi) as [Hib Ho]. pose proof (sb_bm sb Hs) as Hbm.
  pose proof (sb_range sb (IBLOCK (in_inum i) sb) Hs ltac:(lia)) as [Hr32 _].
  unfold iupdate. wgets. assert (fs_sb s = sb) as -> by apply Hf.
  wgets. rewrite (get_inode_ftx dv SZ out dk cb sb _ _ _ _ _ _ _ _ _ _ Hf Hip), Hdev.
  wrun f_bread; [exact Hcore|exact Hf|done|exact Hr|done|]. intros bp c1 s1 H1.
  wrun f_bdata; [exact H1|by left|]. intros x c2 s2 (-> & -> & ->).
  eapply (f_rewrite dv SZ out dk cb Hcore Hlog Hout k h); [exact H1|apply not_elem_of_nil| |done|exact Hr].
  apply dinode_put_blk; [done|done|]. by eapply ftx_blk.
Qed.
End iupdate.

(** ** writei *)

(** Files that share no block with [d]. *)
Definition apart (g : Z -> list Z) (d d2 : dinode) : Prop :=
  (forall bn, 0 <= bn < MAXFILE -> faddr g d2 bn <> 0 ->
     faddr g d2 bn <> ind d /\ forall bn', 0 <= bn' < MAXFILE -> faddr g d2 bn <> faddr g d bn') /\
  (ind d2 <> 0 -> ind d2 <> ind d /\ forall bn', 0 <= bn' < MAXFILE -> ind d2 <> faddr g d bn').

(** What a write of [l] at [off] of the file of inode [inum] does to the disk. *)
Record writei_post (sb : superblock) (inum off : Z) (l : list Z) (g : Z -> list Z) (d : dinode)
    (g' : Z -> list Z) (d' : dinode) : Prop := mkWriteiPost {
  wp_file : file_ok g' sb d' /\ sized g' d';
  wp_contents : contents g' d' = overwrite (Z.to_nat off) l (contents g d);
  wp_same : (di_type d', di_major d', di_minor d', di_nlink d') = (di_type d, di_major d, di_minor d, di_nlink d);
  wp_inode : dinode_of g' sb inum = d';
  wp_inodes : forall j, 0 <= j < sb_ninodes sb -> j <> inum -> dinode_of g' sb j = dinode_of g sb j;
  wp_files : forall d2, file_ok g sb d2 -> apart g d d2 ->
    file_ok g' sb d2 /\ apart g' d' d2 /\ forall x, 0 <= x < MAXFILE * BSIZE -> fget g' d2 x = fget g d2 x;
  wp_meta : meta_used g' sb
}.

Section frame.
Context (sb : superblock) (Hs : sb_ok sb).
Implicit Types (g : Z -> list Z) (d : dinode).

(** A file is not affected by changes to blocks that are not its own. *)
Lemma fget_evolves g g' W N d x :
  evolves g g' sb W N -> file_ok g sb d -> (ind d <> 0 -> ~ W (ind d)) ->
  (forall bn, 0 <= bn < MAXFILE -> faddr g d bn <> 0 -> ~ W (faddr g d bn)) -> 0 <= x < MAXFILE * BSIZE ->
  fget g' d x = fget g d x.
Proof.
  intros E Hf Hi Hb Hx. destruct (file_ok_evolves sb Hs g g' W N d E Hf Hi) as [_ Ef]. unfold fget, fbyte. rewrite Ef.
  assert (Hbn : 0 <= x / BSIZE < MAXFILE) by (csz; dlia).
  destruct (Z.eqb_spec (faddr g d (x / BSIZE)) 0) as [|Hn]; [done|].
  destruct (fo_blk _ _ _ Hf _ Hbn) as [?|[Hd Hu]]; [done|]. pose proof (data_pos sb Hs _ Hd).
  by rewrite (ev_keep _ _ _ _ _ E) by (lia || auto).
Qed.

Lemma touched_in off (l : list Z) bn : 0 <= off -> off + Z.of_nat (length l) <= MAXFILE * BSIZE -> touched off (length l) bn -> 0 <= bn < MAXFILE.
Proof. intros. by eapply touched_range. Qed.

(** What a write changes is no block of a file apart. *)
Lemma apart_written g d d2 off (l : list Z) :
  0 <= off -> off + Z.of_nat (length l) <= MAXFILE * BSIZE -> apart g d d2 ->
  (ind d2 <> 0 -> ~ written g d off (length l) (ind d2)) /\
  (forall bn, 0 <= bn < MAXFILE -> faddr g d2 bn <> 0 -> ~ written g d off (length l) (faddr g d2 bn)).
Proof.
  intros H0 Hm [A1 A2]. split.
  - intros Hi [E|(bn & Ht & E)]; destruct (A2 Hi) as [B1 B2]; [done|]. apply (B2 bn); [by eapply touched_in|done].
  - intros b Hb Hn [E|(bn & Ht & E)]; destruct (A1 b Hb Hn) as [B1 B2]; [done|]. apply (B2 bn); [by eapply touched_in|done].
Qed.

Lemma wrote_apart g d off l g' d' d2 :
  wrote sb g d off l g' d' -> file_ok g sb d2 -> apart g d d2 -> (forall bn, faddr g' d2 bn = faddr g d2 bn) -> apart g' d' d2.
Proof.
  intros W Hf [A1 A2] Ef.
  assert (HX : forall x, in_use g sb x -> x <> ind d -> (forall bn', 0 <= bn' < MAXFILE -> x <> faddr g d bn') ->
    x <> ind d' /\ forall bn', 0 <= bn' < MAXFILE -> x <> faddr g' d' bn').
  { intros x [Hd Hu] Hi Hb. split.
    - destruct (wr_ind _ _ _ _ _ _ _ W) as [->|[_ ?]]; [done|congruence].
    - intros bn' Hb'. destruct (Z.eq_dec (faddr g d bn') 0) as [E|E]; [|rewrite (wr_mono _ _ _ _ _ _ _ W) by done; auto].
      destruct (Z.eq_dec (faddr g' d' bn') 0) as [E'|E']; [apply (data_pos sb Hs) in Hd; lia|].
      destruct (wr_fresh _ _ _ _ _ _ _ W bn' Hb' E E'). congruence. }
  split.
  - intros bn Hb. rewrite Ef. intros Hn. destruct (A1 bn Hb Hn) as [B1 B2]. destruct (fo_blk _ _ _ Hf bn Hb); [done|]. by apply HX.
  - intros Hi. destruct (A2 Hi) as [B1 B2]. destruct (fo_ind _ _ _ Hf); [done|]. by apply HX.
Qed.

Lemma written_data g d off (l : list Z) b :
  0 <= off -> off + Z.of_nat (length l) <= MAXFILE * BSIZE -> file_ok g sb d -> written g d off (length l) b ->
  b = 0 \/ data_blk sb b.
Proof.
  intros H0 Hm Hf [->|(bn & Ht & ->)].
  - destruct (fo_ind _ _ _ Hf) as [?|[? _]]; auto.
  - destruct (fo_blk _ _ _ Hf bn) as [?|[? _]]; auto. by eapply touched_in.
Qed.

Lemma apart_ext g d g' d' d2 :
  ind d' = ind d -> (forall bn, faddr g' d' bn = faddr g d bn) -> (forall bn, faddr g' d2 bn = faddr g d2 bn) ->
  apart g d d2 -> apart g' d' d2.
Proof.
  intros Ei E1 E2 [A1 A2]. split.
  - intros bn Hb. rewrite E2, Ei. intros Hn. destruct (A1 bn Hb Hn) as [B1 B2]. split; [done|].
    intros bn' Hb'. rewrite E1. auto.
  - rewrite Ei. intros Hn. destruct (A2 Hn) as [B1 B2]. split; [done|]. intros bn' Hb'. rewrite E1. auto.
Qed.
End frame.

Lemma with_addrs_same d ad d' off n : d' = with_addrs d ad ->
  (di_type (end_size d d' off n), di_major (end_size d d' off n), di_minor (end_size d d' off n), di_nlink (end_size d d' off n)) =
  (di_type d, di_major d, di_minor d, di_nlink d).
Proof. intros ->. unfold end_size. by case_match. Qed.

(** The loop followed by iupdate. *)
Lemma wrote_post sb inum off l g d g1 d1 :
  sb_ok sb -> 0 <= inum < sb_ninodes sb -> meta_used g sb -> file_ok g sb d -> sized g d ->
  (forall x, x ∈ [di_type d; di_major d; di_minor d; di_nlink d] -> - 2 ^ 15 <= x < 2 ^ 15) ->
  0 <= off <= di_size d -> off + Z.of_nat (length l) <= MAXFILE * BSIZE -> blk_ok (g1 (IBLOCK inum sb)) ->
  wrote sb g d off l g1 d1 ->
  let d' := end_size d d1 off (Z.of_nat (length l)) in writei_post sb inum off l g d (iupdated sb inum d' g1) d'.
Proof.
  intros Hs Hi Hm Hf Hz Hsh H0 Hmax Hk W d'. pose proof (iblock_range sb inum Hs Hi) as [Hib Ho].
  destruct (wr_rest _ _ _ _ _ _ _ W) as [ad Ead].
  destruct (wrote_contents sb g d off l g1 d1 H0 Hmax Hz W) as [Hz' Hc]. fold d' in Hz', Hc.
  assert (Had : di_addrs d1 = di_addrs d') by (symmetry; apply end_size_addrs).
  pose proof (file_ok_addrs sb g1 d1 d' Had (wr_file _ _ _ _ _ _ _ W)) as Hf1.
  pose proof (ev_meta _ _ _ _ _ (wr_ev _ _ _ _ _ _ _ W)) as Hm1.
  pose proof (iupdated_evolves sb inum d' g1 Hs Hi Hm1) as E2. set (g' := iupdated sb inum d' g1) in *.
  assert (Hnd : forall b, in_use g1 sb b -> b <> IBLOCK inum sb) by (intros b [Hd _]; unfold data_blk in Hd; lia).
  assert (Hin : forall d2, file_ok g1 sb d2 -> (ind d2 <> 0 -> ind d2 <> IBLOCK inum sb) /\
    forall bn, 0 <= bn < MAXFILE -> faddr g1 d2 bn <> 0 -> faddr g1 d2 bn <> IBLOCK inum sb).
  { intros d2 F2. split; [intros ?|intros bn Hb ?]; apply Hnd; [by destruct (fo_ind _ _ _ F2)|by destruct (fo_blk _ _ _ F2 bn Hb)]. }
  destruct (Hin d' Hf1) as [Hi1 Hi2]. destruct (file_ok_evolves sb Hs _ _ _ _ d' E2 Hf1 Hi1) as [Hf' Ef'].
  assert (Hg : forall x, 0 <= x < MAXFILE * BSIZE -> fget g' d' x = fget g1 d' x) by (intros; by eapply fget_evolves).
  assert (Hz2 : sized g' d') by (destruct Hz' as [? HH]; split; [done|]; intros x Hx; rewrite Ef'; auto).
  split.
  - done.
  - rewrite <-Hc. apply list_eq. intros k. rewrite !contents_lookup by done. case_decide; [|done].
    rewrite Hg by (destruct Hz'; lia). done.
  - by eapply with_addrs_same.
  - apply iupdated_same; try done. apply (file_ok_wf g1 sb); try done.
    + pose proof (with_addrs_same d ad d1 off (Z.of_nat (length l)) Ead) as Es. injection Es as E1 E3 E4 E5. fold d' in E1, E3, E4, E5.
      by rewrite E1, E3, E4, E5.
    + destruct Hz'. csz. lia.
  - intros j Hj Hne. unfold g'. rewrite iupdated_other; try done; [|lia|by apply (fo_len _ _ _ Hf1)].
    unfold dinode_of. pose proof (iblock_range sb j Hs Hj) as [Hjb _]. f_equal.
    apply (ev_keep _ _ _ _ _ (wr_ev _ _ _ _ _ _ _ W)); [lia|apply Hm; lia|lia|].
    intros Hw. apply (written_data sb) in Hw as [?|Hd]; [lia|unfold data_blk in Hd; lia|lia|done|done].
  - intros d2 F2 A. destruct (apart_written g d d2 off l ltac:(lia) Hmax A) as [A1 A2].
    destruct (file_ok_evolves sb Hs _ _ _ _ d2 (wr_ev _ _ _ _ _ _ _ W) F2 A1) as [F3 Ef3].
    destruct (Hin d2 F3) as [B1 B2]. destruct (file_ok_evolves sb Hs _ _ _ _ d2 E2 F3 B1) as [F4 Ef4].
    split; [done|]. split.
    + pose proof (wrote_apart sb Hs _ _ _ _ _ _ d2 W F2 A Ef3) as HA.
      eapply (apart_ext g1 d1); [|intros; rewrite Ef'; by apply faddr_addrs|exact Ef4|exact HA].
      unfold ind, addr_at. by rewrite Had.
    + intros x Hx. rewrite (fget_evolves sb Hs _ _ _ _ d2 x E2 F3 B1 B2 Hx). by apply (fget_evolves sb Hs _ _ _ _ d2 x (wr_ev _ _ _ _ _ _ _ W)).
  - apply (ev_meta _ _ _ _ _ E2).
Qed.

Section writei_all.
Context (dv SZ out : Z) (dk : disk) (cb : core).
Hypothesis (Hcore : bio_core cb) (Hlog : lock_free LkLog cb) (Hout : 1 <= out).
Notation F := (ftx dv SZ out dk cb).
Context (sb : superblock) (Hs : sb_ok sb).
Implicit Types (it : list inode) (km : kmem) (s : fsst) (g : Z -> list Z).

(** The blocks a write logs whatever the data: the bitmap and the indirect block. *)
Lemma room_start k nb L d :
  room SZ (nb + 3 + k) 2 L ->
  let L0 := {[sb_bmapstart sb]} ∪ (if ind d =? 0 then L else {[ind d]} ∪ L) in
  room SZ (S (nb + k + indw d)) 2 L0 /\ (ind d <> 0 -> ind d ∈ L0) /\ L ⊆ L0 /\ sb_bmapstart sb ∈ L0.
Proof.
  intros Hr L0. unfold L0, indw. destruct (Z.eqb_spec (ind d) 0) as [E|E].
  - split_and!; [|done|set_solver|set_solver]. apply room_add. eapply room_le; [exact Hr|lia|lia].
  - split_and!; [|set_solver|set_solver|set_solver]. do 2 apply room_add. eapply room_le; [exact Hr|lia|lia].
Qed.

(** [if(off > ip->size) ip->size = off] *)
Lemma size_step H D L g it km c s ip i d d1 off n :
  F H D L g sb (<[ip := set_d d1 i]> it) km c s -> (ip < length it)%nat -> di_size d1 = di_size d ->
  wp (when (di_size d1 <? off + n) (modify (upd_d ip (set_size (off + n))))) c s
    (fun _ c' s' => F H D L g sb (<[ip := set_d (end_size d d1 off n) i]> it) km c' s').
Proof.
  intros Hf Hlt E. unfold end_size. rewrite E. destruct (di_size d <? off + n); [|by apply wp_ret].
  apply wp_modify. unfold upd_d.
  assert (Hip : <[ip:=set_d d1 i]> it !! ip = Some (set_d d1 i)) by (by apply list_lookup_insert_eq).
  pose proof (ftx_upd_inode dv SZ out dk cb sb _ _ _ _ _ _ _ _ ip _ (fun i => set_d (set_size (off + n) (in_d i)) i) Hf Hip) as H1.
  by rewrite list_insert_insert_eq in H1.
Qed.

Lemma writei_ok k L g it km c s ip i off l :
  F [] [] L g sb it km c s -> meta_used g sb -> it !! ip = Some i -> in_dev i = dv -> 0 <= in_inum i < sb_ninodes sb ->
  file_ok g sb (in_d i) -> sized g (in_d i) ->
  (forall x, x ∈ [di_type (in_d i); di_major (in_d i); di_minor (in_d i); di_nlink (in_d i)] -> - 2 ^ 15 <= x < 2 ^ 15) ->
  let n := Z.of_nat (length l) in
  0 <= off <= di_size (in_d i) -> off + n <= MAXFILE * BSIZE -> Forall is_byte l ->
  nfree g sb (nblocks off n + indw (in_d i)) -> room SZ (nblocks off n + 3 + k) 2 L ->
  wp (writei ip (FromLocal l) off n) c s (fun r c' s' => exists g' d' L',
    r = n /\ F [] [] L' g' sb (<[ip := set_d d' i]> it) km c' s' /\
    writei_post sb (in_inum i) off l g (in_d i) g' d' /\ room SZ k 2 L').
Proof.
  intros Hf Hm Hip Hdev Hino Hfo Hz Hsh n H0 Hmax Hby Hnf Hr.
  destruct (room_start k (nblocks off n) L (in_d i) Hr) as (Hr0 & Hi0 & HL0 & Hb0).
  set (L0 := {[sb_bmapstart sb]} ∪ _) in *. clearbody L0.
  assert (H1 : F [] [] L0 g sb it km c s) by (eapply ftx_weaken; eauto).
  unfold writei. wgets. rewrite (get_inode_ftx dv SZ out dk cb sb _ _ _ _ _ _ _ _ _ _ Hf Hip).
  assert (u32 (off + n) = off + n) as -> by (unfold u32; apply Z.mod_small; csz; lia).
  bfalse (di_size (in_d i) <? off). bfalse (off + n <? off). bfalse (MAXFILE * BSIZE <? off + n). cbn [orb].
  wrun (writei_loop_ok dv SZ out dk cb Hcore Hlog Hout sb Hs k L0 g it km c s ip i n (Z.to_nat n) off 0 l H1);
    rewrite ?Z.sub_0_r; try done; try lia.
  intros r c1 s1 (g1 & d1 & L1 & -> & H2 & W & _ & Hr1).
  assert (Hlt : (ip < length it)%nat) by by eapply lookup_lt_Some.
  assert (Hip1 : <[ip:=set_d d1 i]> it !! ip = Some (set_d d1 i)) by (by apply list_lookup_insert_eq).
  wgets. rewrite (get_inode_ftx dv SZ out dk cb sb _ _ _ _ _ _ _ _ _ _ H2 Hip1). cbn [fst snd in_d set_d].
  assert (Hk1 : blk_ok (g1 (IBLOCK (in_inum i) sb))) by by eapply ftx_blk.
  pose proof (wrote_post sb (in_inum i) off l g (in_d i) g1 d1 Hs Hino Hm Hfo Hz Hsh H0 Hmax Hk1 W) as HP.
  set (d2 := end_size (in_d i) d1 off (Z.of_nat (length l))) in *.
  assert (Hsz1 : di_size d1 = di_size (in_d i)) by (by destruct (wr_rest _ _ _ _ _ _ _ W) as [ad ->]).
  wrun (size_step [] [] L1 g1 it km c1 s1 ip i (in_d i) d1 off n H2 Hlt Hsz1). intros [] c2 s2 H3. fold n in d2. fold d2 in H3.
  assert (Hip2 : <[ip:=set_d d2 i]> it !! ip = Some (set_d d2 i)) by (by apply list_lookup_insert_eq).
  wrun (iupdate_ok dv SZ out dk cb Hcore Hlog Hout sb Hs k 2 [] L1 g1 _ km c2 s2 ip _ H3 Hip2); try done.
  - apply (fo_len _ _ _ (proj1 (wp_file _ _ _ _ _ _ _ _ HP))).
  - apply not_elem_of_nil.
  - eapply room_le; [exact Hr1|lia|lia].
  - simpl. lia.
  - intros [] c3 s3 H4. apply wp_ret. eexists _, d2, _. split_and!; [done|exact H4|exact HP|].
    apply room_add. eapply room_le; [exact Hr1|lia|lia].
Qed.
End writei_all.
