(* ===== verification/FsDir.v ===== *)
(** * Directories: iget, dirlookup and dirlink of kernel/fs.c

    A directory is the list of its entries, [entries].  [dirlookup_ok]: the
    loop finds the first used entry with the name.  [dirlink_ok]: a new entry
    takes the first unused place, or the end, and nothing else changes; so
    the name is found from then on, and other names as before. *)

From Stdlib Require Import ZArith Lia.
From stdpp Require Import base gmap list numbers strings.
From S2P Require Import Prelude Riscv Core Spinlock Wp Kstring Kalloc Vm Sleeplock Bio BioAbs Log LogOps Fs FsTx FsBitmap FsFile FsIo FsWrite FsInode.
Local Open Scope Z_scope.

(** ** Entries *)

Definition dirent_at (f : list Z) (k : nat) : dirent := de_decode (slice (16 * k) 16 f).
Definition entries (f : list Z) : list dirent := dirent_at f <$> seq 0 (length f / 16).

(** A used entry with the name. *)
Definition names (name : list Z) (de : dirent) : Prop := de_inum de <> 0 /\ namecmp name (de_name de) = 0.
#[global] Instance names_dec name de : Decision (names name de).
Proof. unfold names. apply _. Defined.

Definition dir_find (name f : list Z) : option (nat * dirent) := list_find (names name) (entries f).

(** The first unused entry. *)
Definition unused (de : dirent) : Prop := de_inum de = 0.
#[global] Instance unused_dec de : Decision (unused de).
Proof. unfold unused. apply _. Defined.
Definition dir_free (f : list Z) : nat := from_option fst (length (entries f)) (list_find unused (entries f)).

Record dirent_wf (de : dirent) : Prop := mkDirentWf {
  dew_inum : 0 <= de_inum de < 2 ^ 16;
  dew_name : length (de_name de) = 14%nat
}.

Lemma length_entries f : length (entries f) = (length f / 16)%nat.
Proof. unfold entries. by rewrite length_fmap, length_seq. Qed.

Lemma entries_lookup f k : (k < length f / 16)%nat -> entries f !! k = Some (dirent_at f k).
Proof. intros Hk. unfold entries. by rewrite list_lookup_fmap, lookup_seq_lt. Qed.

Lemma de_roundtrip de : dirent_wf de -> de_decode (de_encode de) = de.
Proof.
  intros [Hi Hn]. unfold de_decode, de_encode, ld16.
  assert (slice 0 2 (le_bytes 2 (de_inum de) ++ de_name de) = le_bytes 2 (de_inum de)) as ->.
  { unfold slice. rewrite drop_0, take_app_le by (by rewrite le_bytes_length). by rewrite take_ge by (by rewrite le_bytes_length). }
  rewrite le_val_bytes. change (256 ^ Z.of_nat 2) with (2 ^ 16). rewrite Z.mod_small by done.
  assert (slice 2 14 (le_bytes 2 (de_inum de) ++ de_name de) = de_name de) as ->.
  { unfold slice. rewrite drop_app_ge by (by rewrite le_bytes_length). rewrite le_bytes_length. simpl. rewrite drop_0.
    apply take_ge. lia. }
  by destruct de.
Qed.

Lemma de_encode_length de : length (de_name de) = 14%nat -> length (de_encode de) = 16%nat.
Proof. intros H. unfold de_encode. rewrite length_app, le_bytes_length, H. done. Qed.

Lemma overwrite_length off l f : (off <= length f)%nat -> length (overwrite off l f) = Nat.max (length f) (off + length l).
Proof. intros H. unfold overwrite. rewrite !length_app, length_take, length_drop. lia. Qed.

Lemma slice_overwrite off l f : (off <= length f)%nat -> slice off (length l) (overwrite off l f) = l.
Proof.
  intros H. apply list_eq. intros i. rewrite slice_lookup, overwrite_lookup by done. repeat case_decide; try lia.
  - f_equal. lia.
  - symmetry. apply lookup_ge_None_2. lia.
Qed.

Lemma slice_overwrite_ne off l f o n :
  (off <= length f)%nat -> (o + n <= off \/ off + length l <= o)%nat -> slice o n (overwrite off l f) = slice o n f.
Proof.
  intros H Hd. apply list_eq. intros i. rewrite !slice_lookup, overwrite_lookup by done. repeat case_decide; (done || lia).
Qed.

(** Storing an entry, at an existing place or at the end. *)
Lemma entries_put f N k de :
  dirent_wf de -> length f = (16 * N)%nat -> (k <= N)%nat ->
  length (overwrite (16 * k) (de_encode de) f) = (16 * Nat.max N (S k))%nat /\
  entries (overwrite (16 * k) (de_encode de) f) = take k (entries f) ++ de :: drop (S k) (entries f).
Proof.
  intros Hde Hf Hk. pose proof (de_encode_length de (dew_name _ Hde)) as Hl.
  assert (El : length (overwrite (16 * k) (de_encode de) f) = (16 * Nat.max N (S k))%nat) by (rewrite overwrite_length, Hl; lia).
  split; [done|]. assert (HN : (length f / 16 = N)%nat) by (rewrite Hf, Nat.mul_comm; by apply Nat.div_mul).
  assert (HN' : (length (overwrite (16 * k) (de_encode de) f) / 16 = Nat.max N (S k))%nat)
    by (rewrite El, Nat.mul_comm; by apply Nat.div_mul).
  pose proof (length_entries f) as Hle. rewrite HN in Hle.
  apply list_eq. intros j. destruct (decide (j < Nat.max N (S k))%nat) as [Hj|Hj].
  - rewrite entries_lookup by lia. unfold dirent_at. destruct (Nat.lt_trichotomy j k) as [Hlt|[->|Hlt]].
    + rewrite slice_overwrite_ne by lia. rewrite lookup_app_l by (rewrite length_take; lia).
      rewrite lookup_take_lt by lia. by rewrite entries_lookup by lia.
    + rewrite lookup_app_r by (rewrite length_take; lia). rewrite length_take, Nat.min_l, Nat.sub_diag by lia. simpl lookup.
      replace 16%nat with (length (de_encode de)) at 2 by done. rewrite slice_overwrite by lia. by rewrite de_roundtrip.
    + rewrite slice_overwrite_ne by lia. rewrite lookup_app_r by (rewrite length_take; lia).
      rewrite length_take, Nat.min_l by lia. replace (j - k)%nat with (S (j - S k)) by lia. simpl lookup.
      rewrite lookup_drop. replace (S k + (j - S k))%nat with j by lia. by rewrite entries_lookup by lia.
  - rewrite !lookup_ge_None_2; [done| |].
    + rewrite length_app, length_cons, length_take, length_drop. lia.
    + rewrite length_entries. lia.
Qed.

(** The place of the first unused entry. *)
Lemma dir_free_spec f :
  (dir_free f <= length (entries f))%nat /\ (forall de, entries f !! dir_free f = Some de -> de_inum de = 0).
Proof.
  unfold dir_free. destruct (list_find unused (entries f)) as [[k de]|] eqn:E; simpl.
  - apply list_find_Some in E as (Hk & Hu & _). split; [apply lookup_lt_Some in Hk; lia|].
    intros de' Hk'. rewrite Hk in Hk'. injection Hk' as <-. exact Hu.
  - split; [done|]. intros de Hk. apply lookup_lt_Some in Hk. lia.
Qed.

Lemma strncpy_byte t i n : (forall j, is_byte (t j)) -> Forall is_byte (strncpy t i n).
Proof.
  intros Ht. revert i. induction n as [|n IH]; intros i; [constructor|]. cbn [strncpy]. constructor; [done|].
  case_match; [done|]. apply Forall_forall. intros x Hx%list_elem_of_In%repeat_spec. subst. unfold is_byte. lia.
Qed.

(** The name of the new entry is found. *)
Lemma namecmp_strncpy name : Forall is_byte name -> namecmp name (strncpy (arr name) 0 (Z.to_nat DIRSIZ)) = 0.
Proof.
  intros Hb. unfold namecmp. apply strncmp_eq; [by apply arr_byte| |].
  - apply arr_byte, strncpy_byte. by apply arr_byte.
  - symmetry. apply strncpy_spec.
Qed.

Lemma list_find_app {A} (P : A -> Prop) `{!forall x, Decision (P x)} l1 l2 :
  list_find P (l1 ++ l2) =
    match list_find P l1 with
    | Some x => Some x
    | None => prod_map (Nat.add (length l1)) id <$> list_find P l2
    end.
Proof.
  induction l1 as [|x l1 IH]; cbn [app list_find].
  - by destruct (list_find P l2) as [[]|].
  - case_decide; [done|]. rewrite IH. destruct (list_find P l1) as [[]|], (list_find P l2) as [[]|]; done.
Qed.

(** Looking names up after the entry [de] was put at place [k], which was unused. *)
Lemma find_put name es k de :
  (k <= length es)%nat -> (forall x, es !! k = Some x -> de_inum x = 0) ->
  (~ names name de -> list_find (names name) (take k es ++ de :: drop (S k) es) = list_find (names name) es) /\
  (names name de -> list_find (names name) es = None ->
   list_find (names name) (take k es ++ de :: drop (S k) es) = Some (k, de)).
Proof.
  intros Hk Hu. split.
  - intros Hn. rewrite list_find_app. cbn [list_find]. rewrite decide_False by done.
    destruct (es !! k) as [x|] eqn:Ek.
    + transitivity (list_find (names name) (take k es ++ x :: drop (S k) es)); [|by rewrite take_drop_middle].
      rewrite list_find_app. cbn [list_find].
      rewrite (decide_False (P := names name x)) by (intros [Hx _]; auto). done.
    + apply lookup_ge_None_1 in Ek. rewrite drop_ge, take_ge by lia. simpl. by destruct (list_find (names name) es).
  - intros Hn Hno. rewrite list_find_app. assert (list_find (names name) (take k es) = None) as ->.
    { apply list_find_None. apply list_find_None in Hno. by apply Forall_take. }
    cbn [list_find]. rewrite decide_True by done. cbn. rewrite length_take. do 2 f_equal. lia.
Qed.

(** ** iget *)

Section dir.
Context (dv SZ out : Z) (dk : disk) (cb : core).
Hypothesis (Hcore : bio_core cb) (Hlog : lock_free LkLog cb) (Hit : lock_free LkItable cb).
Notation F := (ftx dv SZ out dk cb).
Context (sb : superblock).
Implicit Types (it : list inode) (km : kmem) (s : fsst) (g : Z -> list Z).

(** The lock of the inode table can be taken and released. *)
Lemma itable_lock H D L g it km c s :
  F H D L g sb it km c s ->
  (forall s', acquire LkItable c s' = Ok tt (hold LkItable c) s') /\
  (forall s', release LkItable (hold LkItable c) (s' : fsst) = Ok tt c s').
Proof.
  intros (_ & _ & _ & tr & f & -> & _).
  destruct (holds_core (H.*1) (woke tr cb)) as (Hwf & _); [by apply bio_core_woke|].
  assert (Hfree : lock_free LkItable (holds (H.*1) (woke tr cb))).
  { induction (H.*1) as [|j l IH]; simpl; [by apply lock_free_woke|]. apply lock_free_shold, IH.
    destruct (holds_core l (woke tr cb)) as (? & _); [by apply bio_core_woke|done]. }
  split; intros; [by apply acquire_free|by apply release_hold].
Qed.

(** Slot [ip] is given to the inode, or its count goes up. *)
Inductive igot (inum : Z) (it : list inode) : nat -> inode -> Prop :=
| igot_found ip i : it !! ip = Some i -> 0 < in_ref i -> in_dev i = dv -> in_inum i = inum ->
    igot inum it ip (set_ref (in_ref i + 1) i)
| igot_new ip i : it !! ip = Some i -> in_ref i = 0 ->
    (forall j x, it !! j = Some x -> 0 < in_ref x -> in_dev x = dv -> in_inum x <> inum) ->
    igot inum it ip (mkInode dv inum 1 0 (in_d i)).

Lemma iget_scan_spec inum l it0 e :
  (forall j, e = Some j -> exists i, it0 !! j = Some i /\ in_ref i = 0) ->
  (forall j x, it0 !! j = Some x -> 0 < in_ref x -> in_dev x = dv -> in_inum x <> inum) ->
  match iget_scan l dv inum (length it0) e with
  | inl ip => exists i, (it0 ++ l) !! ip = Some i /\ 0 < in_ref i /\ in_dev i = dv /\ in_inum i = inum
  | inr e' => (forall j, e' = Some j -> exists i, (it0 ++ l) !! j = Some i /\ in_ref i = 0) /\
      (e' = None -> e = None /\ forall i, i ∈ l -> in_ref i <> 0) /\
      (forall j x, (it0 ++ l) !! j = Some x -> 0 < in_ref x -> in_dev x = dv -> in_inum x <> inum)
  end.
Proof.
  revert it0 e. induction l as [|x l IH]; intros it0 e He Hno; cbn [iget_scan].
  - rewrite app_nil_r. split; [done|]. split; [|done]. intros ->. split; [done|]. intros i Hi. by apply elem_of_nil in Hi.
  - destruct ((0 <? in_ref x) && (in_dev x =? dv) && (in_inum x =? inum)) eqn:E.
    { apply andb_prop in E as [[E1%Z.ltb_lt E2%Z.eqb_eq]%andb_prop E3%Z.eqb_eq]. exists x.
      rewrite lookup_app_r by done. by rewrite Nat.sub_diag. }
    set (e1 := match e with None => _ | Some _ => e end).
    specialize (IH (it0 ++ [x]) e1). rewrite length_app, Nat.add_1_r in IH. rewrite <-app_assoc in IH. cbn [app] in IH.
    assert (He1 : e1 = None -> e = None /\ in_ref x <> 0).
    { unfold e1. destruct e; [done|]. destruct (Z.eqb_spec (in_ref x) 0); [done|auto]. }
    assert (Hp1 : forall j, e1 = Some j -> exists i, (it0 ++ [x]) !! j = Some i /\ in_ref i = 0).
    { unfold e1. destruct e as [j0|]; intros j Hj.
      - destruct (He j Hj) as (i & Hi & Hr). exists i. split; [|done]. by apply lookup_app_l_Some.
      - destruct (Z.eqb_spec (in_ref x) 0); [|done]. injection Hj as <-. exists x. split; [|done].
        rewrite lookup_app_r by done. by rewrite Nat.sub_diag. }
    assert (Hp2 : forall j y, (it0 ++ [x]) !! j = Some y -> 0 < in_ref y -> in_dev y = dv -> in_inum y <> inum).
    { intros j y [Hj|[_ Hj]]%lookup_app_Some; [by eauto|]. apply list_lookup_singleton_Some in Hj as [_ <-]. intros Hr Hd Hi.
      apply Z.ltb_lt in Hr. apply Z.eqb_eq in Hd, Hi. by rewrite Hr, Hd, Hi in E. }
    specialize (IH Hp1 Hp2). case_match; [done|]. destruct IH as (H1 & H2 & H3).
    split; [done|]. split; [|done]. intros E'. destruct (H2 E') as [E1 E2]. destruct (He1 E1) as [E3 E4]. split; [done|].
    intros i [->|Hi]%elem_of_cons; auto.
Qed.

Lemma iget_ok H D L g it km c s inum :
  F H D L g sb it km c s -> (exists i, i ∈ it /\ in_ref i = 0) ->
  wp (iget dv inum) c s (fun ip c' s' => exists i, igot inum it ip i /\ F H D L g sb (<[ip := i]> it) km c' s').
Proof.
  intros Hf (x & Hx & Hx0). destruct (itable_lock _ _ _ _ _ _ _ _ Hf) as [Ha Hr].
  pose proof (iget_scan_spec inum it [] None) as Hsc. cbn [app length] in Hsc.
  specialize (Hsc ltac:(done) ltac:(intros j y Hj; by rewrite lookup_nil in Hj)).
  unfold wp, iget, mbind, M_bind. rewrite Ha. cbn [gets]. assert (fs_itable s = it) as -> by apply Hf.
  destruct (iget_scan it dv inum 0 None) as [ip|[ip|]].
  - destruct Hsc as (i & Hi & H1 & H2 & H3). cbn [modify]. rewrite Hr. eexists _, _, _. split; [done|].
    eexists. split; [by constructor|].
    apply (ftx_upd_inode dv SZ out dk cb sb _ _ _ _ _ _ _ _ ip _ (fun i => set_ref (in_ref i + 1) i) Hf Hi).
  - destruct Hsc as (Hs & _ & Hno). destruct (Hs ip eq_refl) as (i & Hi & Hr0). cbn [modify]. rewrite Hr. eexists _, _, _. split; [done|].
    eexists. split; [by apply igot_new|].
    apply (ftx_upd_inode dv SZ out dk cb sb _ _ _ _ _ _ _ _ ip _ (fun i => mkInode dv inum 1 0 (in_d i)) Hf Hi).
  - destruct Hsc as (_ & Hn & _). destruct (Hn eq_refl) as [_ Hall]. by destruct (Hall x Hx).
Qed.

(** ** dirlookup *)

Lemma read_de_ok L g it km c s dp i msg k :
  F [] [] L g sb it km c s -> it !! dp = Some i -> in_dev i = dv -> sized g (in_d i) -> room SZ 0 2 L ->
  Z.of_nat (16 * k + 16) <= di_size (in_d i) ->
  wp (read_de dp (16 * Z.of_nat k) msg) c s (fun de c' s' =>
    de = dirent_at (contents g (in_d i)) k /\ F [] [] L g sb it km c' s').
Proof.
  intros Hf Hip Hdev Hz Hr Hk. pose proof Hz as [Hsz _]. assert (di_size (in_d i) < 2 ^ 32) by (csz; lia).
  unfold read_de. change DIRENT with 16.
  wrun (readi_ok dv SZ out dk cb Hcore Hlog sb 2 [] L g it km c s dp i (16 * Z.of_nat k) 16 Hf Hip Hdev Hz); [|done|simpl; lia|lia|lia|].
  { intros b Hb. by apply elem_of_nil in Hb. }
  intros x c1 s1 [-> H1]. rewrite read_len_fits by lia. cbn [fst snd]. btrue (16 =? 16). cbn [negb]. apply wp_ret.
  split; [|done]. unfold dirent_at. f_equal. rewrite frange_contents by lia. f_equal; lia.
Qed.

Lemma off_next k : Z.of_nat k < 2 ^ 24 -> u32 (16 * Z.of_nat k + DIRENT) = 16 * Z.of_nat (S k).
Proof. intros H. change DIRENT with 16. unfold u32. rewrite Z.mod_small; lia. Qed.

Lemma drop_entries f N k : length f = (16 * N)%nat -> (k < N)%nat -> drop k (entries f) = dirent_at f k :: drop (S k) (entries f).
Proof.
  intros Hf Hk. apply drop_S, entries_lookup. rewrite Hf, Nat.mul_comm, Nat.div_mul by done. done.
Qed.

Lemma dirlookup_loop_ok N L g it km name dp i fuel k c s :
  F [] [] L g sb it km c s -> it !! dp = Some i -> in_dev i = dv -> sized g (in_d i) -> room SZ 0 2 L ->
  di_size (in_d i) = Z.of_nat (16 * N) -> (k <= N)%nat -> (N - k <= fuel)%nat ->
  wp (dirlookup_loop dp name (16 * Z.of_nat k) fuel) c s (fun r c' s' =>
    r = (fun p => (de_inum p.2, 16 * Z.of_nat (k + p.1))) <$> list_find (names name) (drop k (entries (contents g (in_d i)))) /\
    F [] [] L g sb it km c' s').
Proof.
  intros Hf Hip Hdev Hz Hr HN. set (f := contents g (in_d i)).
  assert (Hlf : length f = (16 * N)%nat) by (unfold f; rewrite contents_length, HN; lia).
  assert (Hle : length (entries f) = N) by (rewrite length_entries, Hlf, Nat.mul_comm; by apply Nat.div_mul).
  revert k c s Hf. induction fuel as [|fuel IH]; intros k c s Hf Hk Hfuel; cbn [dirlookup_loop];
    wgets; rewrite (get_inode_ftx dv SZ out dk cb sb _ _ _ _ _ _ _ _ _ _ Hf Hip), HN.
  all: destruct (Z.ltb_spec (16 * Z.of_nat k) (Z.of_nat (16 * N))) as [Hlt|Hge]; [try lia|].
  1, 3: apply wp_ret; rewrite drop_ge by lia; done.
  wrun read_de_ok; [exact Hf|exact Hip|done|done|done|lia|]. intros de c1 s1 [-> H1]. fold f.
  assert (H24 : Z.of_nat k < 2 ^ 24) by (destruct Hz; csz; lia).
  rewrite (off_next k H24), (drop_entries f N k Hlf) by lia. cbn [list_find].
  assert (Hrec : ~ names name (dirent_at f k) -> wp (dirlookup_loop dp name (16 * Z.of_nat (S k)) fuel) c1 s1 (fun r c' s' =>
    r = (fun p => (de_inum p.2, 16 * Z.of_nat (k + p.1))) <$>
      (if decide (names name (dirent_at f k)) then Some (0%nat, dirent_at f k)
       else prod_map S id <$> list_find (names name) (drop (S k) (entries f))) /\ F [] [] L g sb it km c' s')).
  { intros Hn. rewrite decide_False by done. eapply wp_mono; [apply (IH (S k) c1 s1 H1); lia|].
    intros r c2 s2 [-> H2]. split; [|done]. destruct (list_find _ _) as [[j de]|]; [|done]. cbn. do 3 f_equal. lia. }
  destruct (Z.eqb_spec (de_inum (dirent_at f k)) 0) as [E0|E0]; [apply Hrec; by intros []|].
  destruct (Z.eqb_spec (namecmp name (de_name (dirent_at f k))) 0) as [E1|E1]; [|apply Hrec; by intros []].
  apply wp_ret. rewrite decide_True by done. split; [|done]. cbn. by rewrite Nat.add_0_r.
Qed.

Lemma dirlookup_ok N L g it km c s name dp i :
  F [] [] L g sb it km c s -> it !! dp = Some i -> in_dev i = dv -> sized g (in_d i) -> room SZ 0 2 L ->
  di_type (in_d i) = T_DIR -> di_size (in_d i) = Z.of_nat (16 * N) -> (exists x, x ∈ it /\ in_ref x = 0) ->
  wp (dirlookup dp name) c s (fun r c' s' =>
    match dir_find name (contents g (in_d i)) with
    | None => r = None /\ F [] [] L g sb it km c' s'
    | Some (k, de) => exists ip i', r = Some (ip, 16 * Z.of_nat k) /\ igot (de_inum de) it ip i' /\
        F [] [] L g sb (<[ip := i']> it) km c' s'
    end).
Proof.
  intros Hf Hip Hdev Hz Hr Ht HN Hx. unfold dirlookup. wgets.
  rewrite (get_inode_ftx dv SZ out dk cb sb _ _ _ _ _ _ _ _ _ _ Hf Hip), Ht, Z.eqb_refl. cbn [negb].
  wrun (dirlookup_loop_ok N L g it km name dp i _ 0 c s Hf); try done; [lia| |].
  { rewrite HN. change DIRENT with 16. dlia. }
  rewrite drop_0. fold (dir_find name (contents g (in_d i))). intros r c1 s1 [-> H1].
  destruct (dir_find name (contents g (in_d i))) as [[k de]|]; cbn; [|by apply wp_ret].
  rewrite Hdev. wrun iget_ok; [exact H1|done|]. intros ip c2 s2 (i' & Hg & H2). apply wp_ret. eauto.
Qed.
End dir.

(** ** dirlink *)

Section dirlink.
Context (dv SZ out : Z) (dk : disk) (cb : core).
Hypothesis (Hcore : bio_core cb) (Hlog : lock_free LkLog cb) (Hit : lock_free LkItable cb) (Hout : 1 <= out).
Notation F := (ftx dv SZ out dk cb).
Context (sb : superblock) (Hs : sb_ok sb).
Implicit Types (it : list inode) (km : kmem) (s : fsst) (g : Z -> list Z).

(** Dropping the reference iget made never frees the inode. *)
Lemma iput_igot H D L g it km c s inum ip i :
  igot dv inum it ip i -> F H D L g sb (<[ip := i]> it) km c s ->
  wp (iput ip) c s (fun _ c' s' => F H D L g sb (<[ip := set_ref (in_ref i - 1) i]> it) km c' s').
Proof.
  intros Hg Hf. destruct (itable_lock dv SZ out dk cb Hcore Hit sb _ _ _ _ _ _ _ _ Hf) as [Ha Hr].
  assert (Hip : <[ip:=i]> it !! ip = Some i) by (destruct Hg; apply list_lookup_insert_eq; by eapply lookup_lt_Some).
  pose proof (get_inode_ftx dv SZ out dk cb sb _ _ _ _ _ _ _ _ _ _ Hf Hip) as Eg.
  unfold wp, iput, mbind, M_bind. rewrite Ha. cbn [gets]. rewrite Eg.
  assert ((in_ref i =? 1) && negb (in_valid i =? 0) && (di_nlink (in_d i) =? 0) = false) as ->.
  { destruct Hg as [ip i H1 H2 _ _|ip i _ _ _]; cbn [in_ref in_valid set_ref]; [by bfalse (in_ref i + 1 =? 1)|done]. }
  cbn [mret M_ret modify]. rewrite Hr. eexists _, _, _. split; [done|].
  pose proof (ftx_upd_inode dv SZ out dk cb sb _ _ _ _ _ _ _ _ ip _ (fun i => set_ref (in_ref i - 1) i) Hf Hip) as H1.
  by rewrite list_insert_insert_eq in H1.
Qed.

Lemma dirlink_loop_ok N L g it km dp i fuel k c s :
  F [] [] L g sb it km c s -> it !! dp = Some i -> in_dev i = dv -> sized g (in_d i) -> room SZ 0 2 L ->
  di_size (in_d i) = Z.of_nat (16 * N) -> (k <= N)%nat -> (N - k <= fuel)%nat ->
  let es := drop k (entries (contents g (in_d i))) in
  wp (dirlink_loop dp (16 * Z.of_nat k) fuel) c s (fun r c' s' =>
    r = 16 * Z.of_nat (k + from_option fst (length es) (list_find unused es)) /\ F [] [] L g sb it km c' s').
Proof.
  intros Hf Hip Hdev Hz Hr HN. cbn zeta. set (f := contents g (in_d i)).
  assert (Hlf : length f = (16 * N)%nat) by (unfold f; rewrite contents_length, HN; lia).
  assert (Hle : length (entries f) = N) by (rewrite length_entries, Hlf, Nat.mul_comm; by apply Nat.div_mul).
  revert k c s Hf. induction fuel as [|fuel IH]; intros k c s Hf Hk Hfuel; cbn [dirlink_loop];
    wgets; rewrite (get_inode_ftx dv SZ out dk cb sb _ _ _ _ _ _ _ _ _ _ Hf Hip), HN.
  all: destruct (Z.ltb_spec (16 * Z.of_nat k) (Z.of_nat (16 * N))) as [Hlt|Hge]; [try lia|].
  1, 3: apply wp_ret; rewrite drop_ge by lia; split; [cbn; lia|done].
  wrun read_de_ok; [exact Hcore|exact Hlog|exact Hf|exact Hip|done|done|done|lia|]. intros de c1 s1 [-> H1]. fold f.
  rewrite (drop_entries f N k Hlf) by lia. cbn [list_find]. unfold unused at 1.
  destruct (Z.eqb_spec (de_inum (dirent_at f k)) 0) as [E0|E0].
  - apply wp_ret. rewrite decide_True by done. split; [cbn; lia|done].
  - rewrite decide_False by done. replace (16 * Z.of_nat k + DIRENT) with (16 * Z.of_nat (S k)) by (change DIRENT with 16; lia).
    eapply wp_mono; [apply (IH (S k) c1 s1 H1); lia|]. intros r c2 s2 [-> H2]. split; [|done].
    destruct (list_find _ _) as [[j de]|]; cbn; lia.
Qed.

Lemma nblocks_entry k : nblocks (16 * Z.of_nat k) 16 = 1%nat.
Proof. unfold nblocks. bfalse (16 <=? 0). csz. dlia. Qed.

(** What linking [name] to [inum] makes of the entries. *)
Definition linked (name : list Z) (inum : Z) : dirent := mkDirent inum (strncpy (arr name) 0 (Z.to_nat DIRSIZ)).
Definition dir_add (name : list Z) (inum : Z) (f : list Z) : list dirent :=
  take (dir_free f) (entries f) ++ linked name inum :: drop (S (dir_free f)) (entries f).

Lemma linked_wf name inum : 0 <= inum < 2 ^ 16 -> dirent_wf (linked name inum).
Proof. intros H. split; [done|]. apply strncpy_spec. Qed.

Lemma linked_byte name inum : Forall is_byte name -> Forall is_byte (de_encode (linked name inum)).
Proof. intros H. apply Forall_app. split; [apply le_bytes_byte|]. apply strncpy_byte. by apply arr_byte. Qed.

Lemma dirlink_absent k N L g it km c s name inum dp i :
  let f := contents g (in_d i) in
  F [] [] L g sb it km c s -> it !! dp = Some i -> in_dev i = dv -> 0 <= in_inum i < sb_ninodes sb -> meta_used g sb ->
  file_ok g sb (in_d i) -> sized g (in_d i) ->
  (forall x, x ∈ [di_type (in_d i); di_major (in_d i); di_minor (in_d i); di_nlink (in_d i)] -> - 2 ^ 15 <= x < 2 ^ 15) ->
  di_type (in_d i) = T_DIR -> di_size (in_d i) = Z.of_nat (16 * N) -> (exists x, x ∈ it /\ in_ref x = 0) ->
  Z.of_nat (16 * S (dir_free f)) <= MAXFILE * BSIZE -> nfree g sb (1 + indw (in_d i)) -> room SZ (4 + k) 2 L ->
  Forall is_byte name -> 0 <= inum < 2 ^ 16 -> dir_find name f = None ->
  wp (dirlink dp name inum) c s (fun r c' s' => exists g' d' L',
    r = 0 /\ F [] [] L' g' sb (<[dp := set_d d' i]> it) km c' s' /\ room SZ k 2 L' /\
    writei_post sb (in_inum i) (16 * Z.of_nat (dir_free f)) (de_encode (linked name inum)) g (in_d i) g' d' /\
    entries (contents g' d') = dir_add name inum f).
Proof.
  intros f Hf Hip Hdev Hi Hm Hfo Hz Hsh Ht HN Hx Hmax Hnf Hr Hby Hin Hno.
  assert (Hr0 : room SZ 0 2 L) by (eapply room_le; [exact Hr|lia|lia]).
  assert (Hlf : length f = (16 * N)%nat) by (unfold f; rewrite contents_length, HN; lia).
  assert (Hle : length (entries f) = N) by (rewrite length_entries, Hlf, Nat.mul_comm; by apply Nat.div_mul).
  destruct (dir_free_spec f) as [Hfr _].
  unfold dirlink. wrun (dirlookup_ok dv SZ out dk cb Hcore Hlog Hit sb N L g it km c s name dp i Hf); try done.
  fold f. rewrite Hno. intros r c1 s1 [-> H1].
  wgets. rewrite (get_inode_ftx dv SZ out dk cb sb _ _ _ _ _ _ _ _ _ _ H1 Hip).
  wrun (dirlink_loop_ok N L g it km dp i (Z.to_nat (di_size (in_d i) / DIRENT + 1)) 0 c1 s1 H1); try done; [lia| |].
  { rewrite HN. change DIRENT with 16. dlia. }
  cbn zeta. rewrite drop_0. fold f. fold (dir_free f). intros r c2 s2 [-> H2]. rewrite Nat.add_0_l. cbn zeta.
  change (mkDirent inum (strncpy (arr name) 0 (Z.to_nat DIRSIZ))) with (linked name inum).
  pose proof (de_encode_length _ (dew_name _ (linked_wf name inum Hin))) as Hl16.
  pose proof (writei_ok dv SZ out dk cb Hcore Hlog Hout sb Hs k L g it km c2 s2 dp i (16 * Z.of_nat (dir_free f))
    (de_encode (linked name inum)) H2 Hm Hip Hdev Hi Hfo Hz Hsh) as HW.
  cbn zeta in HW. rewrite Hl16 in HW. change (Z.of_nat 16) with 16 in HW. rewrite nblocks_entry in HW. change DIRENT with 16.
  wrun HW; [lia|lia|by apply linked_byte|done|eapply room_le; [exact Hr|lia|lia]|].
  intros r c3 s3 (g' & d' & L' & -> & H3 & HP & Hr'). btrue (16 =? 16). cbn [negb]. apply wp_ret. exists g', d', L'. split_and!; try done.
  rewrite (wp_contents _ _ _ _ _ _ _ _ HP). fold f. replace (Z.to_nat (16 * Z.of_nat (dir_free f))) with (16 * dir_free f)%nat by lia.
  apply (entries_put f N); [by apply linked_wf|done|lia].
Qed.

(** A name that exists is not linked again; the table keeps its references. *)
Lemma dirlink_present N L g it km c s name inum dp i kd :
  F [] [] L g sb it km c s -> it !! dp = Some i -> in_dev i = dv -> sized g (in_d i) -> room SZ 0 2 L ->
  di_type (in_d i) = T_DIR -> di_size (in_d i) = Z.of_nat (16 * N) -> (exists x, x ∈ it /\ in_ref x = 0) ->
  dir_find name (contents g (in_d i)) = Some kd ->
  wp (dirlink dp name inum) c s (fun r c' s' => r = -1 /\ exists ip i',
    igot dv (de_inum kd.2) it ip i' /\ F [] [] L g sb (<[ip := set_ref (in_ref i' - 1) i']> it) km c' s').
Proof.
  intros Hf Hip Hdev Hz Hr Ht HN Hx Hk. unfold dirlink.
  wrun (dirlookup_ok dv SZ out dk cb Hcore Hlog Hit sb N L g it km c s name dp i Hf); try done.
  rewrite Hk. destruct kd as [k de]. intros r c1 s1 (ip & i' & -> & Hg & H1).
  wrun (iput_igot [] [] L g it km c1 s1 _ ip i' Hg H1). intros [] c2 s2 H2. apply wp_ret. eauto.
Qed.
End dirlink.
