(* ===== verification/FsSpec.v ===== *)
(** * What the file system promises: files as byte strings, directories as maps

    The theorems about fs.c that callers rely on, over the states [ftx] of a
    transaction: readi returns a part of the contents, writei replaces a part
    and leaves the other files alone, dirlookup finds the first entry with
    the name and dirlink adds one. *)

From Stdlib Require Import ZArith Lia.
From stdpp Require Import base gmap list numbers strings.
From S2P Require Import Prelude Riscv Core Spinlock Wp Kstring Kalloc Vm Sleeplock Bio BioAbs Log LogOps Fs FsTx FsBitmap FsFile FsIo FsWrite FsInode FsDir.
Local Open Scope Z_scope.

(** A hart in kernel code: the locks that fs.c takes are free. *)
Record fs_core (cb : core) : Prop := mkFsCore {
  fc_bio : bio_core cb;
  fc_log : lock_free LkLog cb;
  fc_itable : lock_free LkItable cb
}.

(** Slot [ip] of the inode table holds the inode [i], with a consistent file. *)
Record file_at (dv : Z) (sb : superblock) (g : Z -> list Z) (it : list inode) (ip : nat) (i : inode) : Prop := mkFileAt {
  fa_slot : it !! ip = Some i;
  fa_dev : in_dev i = dv;
  fa_inum : 0 <= in_inum i < sb_ninodes sb;
  fa_file : file_ok g sb (in_d i);
  fa_sized : sized g (in_d i);
  fa_short : forall x, x ∈ [di_type (in_d i); di_major (in_d i); di_minor (in_d i); di_nlink (in_d i)] -> - 2 ^ 15 <= x < 2 ^ 15
}.

(** The slot holds a directory of [N] entries. *)
Definition dir_at (dv : Z) (sb : superblock) (g : Z -> list Z) (it : list inode) (dp : nat) (i : inode) (N : nat) : Prop :=
  file_at dv sb g it dp i /\ di_type (in_d i) = T_DIR /\ di_size (in_d i) = Z.of_nat (16 * N).

(** The table has a slot for another inode. *)
Definition slot_free (it : list inode) : Prop := exists x, x ∈ it /\ in_ref x = 0.

Lemma file_at_post dv sb g it ip i off l g' d' :
  file_at dv sb g it ip i -> writei_post sb (in_inum i) off l g (in_d i) g' d' ->
  file_at dv sb g' (<[ip := set_d d' i]> it) ip (set_d d' i).
Proof.
  intros [H1 H2 H3 H4 H5 H6] HP. destruct (wp_file _ _ _ _ _ _ _ _ HP). split; try done.
  - apply list_lookup_insert_eq. by eapply lookup_lt_Some.
  - pose proof (wp_same _ _ _ _ _ _ _ _ HP) as E. injection E as E1 E2 E3 E4. cbn [in_d set_d]. by rewrite E1, E2, E3, E4.
Qed.

(** What readi reads, without the overflow check. *)
Lemma read_len_eq size off n :
  0 <= off < 2 ^ 32 -> 0 <= n < 2 ^ 32 -> 0 <= size < 2 ^ 32 ->
  read_len size off n = if 2 ^ 32 <=? off + n then 0 else Z.max 0 (Z.min n (size - off)).
Proof.
  intros Ho Hn Hs. unfold read_len, u32. destruct (Z.leb_spec (2 ^ 32) (off + n)).
  - rewrite <-(Z.mod_unique (off + n) (2 ^ 32) 1 (off + n - 2 ^ 32)) by lia. bdestruct_all.
  - rewrite (Z.mod_small (off + n)) by lia. bdestruct_all.
Qed.

Section spec.
Context (dv SZ out : Z) (dk : disk) (cb : core) (sb : superblock).
Notation F := (ftx dv SZ out dk cb).
Implicit Types (it : list inode) (km : kmem) (s : fsst) (g : Z -> list Z) (L : gset Z) (l name : list Z).

(** C25: readi into kernel memory (user_dst = 0) copies out the part of the
    contents that [off] and [n] name, cut at the end of the file, and nothing
    when [off + n] overflows 32 bits; it changes no block and no inode. *)
Theorem readi_spec L g it km c s ip i off n :
  fs_core cb -> F [] [] L g sb it km c s -> file_at dv sb g it ip i -> room SZ 0 2 L -> 0 <= off < 2 ^ 32 -> 0 <= n < 2 ^ 32 ->
  wp (readi ip ToLocal off n) c s (fun x c' s' =>
    let r := if 2 ^ 32 <=? off + n then 0 else Z.max 0 (Z.min n (di_size (in_d i) - off)) in
    x = (r, slice (Z.to_nat off) (Z.to_nat r) (contents g (in_d i))) /\ F [] [] L g sb it km c' s').
Proof.
  intros [Hb Hl _] Hf [H1 H2 H3 H4 H5 H6] Hr Ho Hn. pose proof H5 as [Hsz _].
  assert (Hs32 : 0 <= di_size (in_d i) < 2 ^ 32) by (csz; lia).
  eapply wp_mono; [eapply (readi_ok dv SZ out dk cb Hb Hl sb 2 [] L g it km c s ip i off n Hf H1 H2 H5); try done|].
  - intros b Hb'. by apply elem_of_nil in Hb'.
  - simpl. lia.
  - intros x c' s' [-> H7]. cbn zeta. rewrite <-read_len_eq by done. split; [|done].
    pose proof (read_len_range _ off n Ho Hn Hs32) as [Hr1 Hr2]. set (r := read_len _ _ _) in *.
    destruct (Z.eq_dec r 0) as [->|Hr0]; [done|]. f_equal. rewrite frange_contents; [done|lia|].
    assert (off <= di_size (in_d i)); [|lia]. destruct (Z.le_gt_cases off (di_size (in_d i))); [done|].
    unfold r, read_len in Hr0. destruct (Z.ltb_spec (di_size (in_d i)) off); [done|lia].
Qed.

(** C7: writei of [l] at an offset within the file or at its end stores all of
    [l]: the contents are overwritten there, the inode on disk is the one in
    memory, every other inode is as before and no other file changes.  It
    logs at most the data blocks and three more, so it never panics while
    that much room is left. *)
Theorem writei_spec k L g it km c s ip i off l :
  let n := Z.of_nat (length l) in
  fs_core cb -> sb_ok sb -> 1 <= out -> F [] [] L g sb it km c s -> meta_used g sb -> file_at dv sb g it ip i ->
  0 <= off <= di_size (in_d i) -> off + n <= MAXFILE * BSIZE -> Forall is_byte l ->
  nfree g sb (nblocks off n + indw (in_d i)) -> room SZ (nblocks off n + 3 + k) 2 L ->
  wp (writei ip (FromLocal l) off n) c s (fun r c' s' => exists g' d' L',
    r = n /\ F [] [] L' g' sb (<[ip := set_d d' i]> it) km c' s' /\
    writei_post sb (in_inum i) off l g (in_d i) g' d' /\ room SZ k 2 L').
Proof. intros n [Hb Hl _] Hs Ho Hf Hm [H1 H2 H3 H4 H5 H6]. by apply writei_ok. Qed.

(** writei does nothing and returns -1 when the offset is beyond the end of
    the file, when [off + n] overflows, or past the largest file. *)
Theorem writei_rejects src L g it km c s ip i off n :
  F [] [] L g sb it km c s -> it !! ip = Some i -> 0 <= off < 2 ^ 32 -> 0 <= n < 2 ^ 32 ->
  di_size (in_d i) < off \/ 2 ^ 32 <= off + n \/ MAXFILE * BSIZE < off + n ->
  writei ip src off n c s = Ok (-1) c s.
Proof.
  intros Hf Hip Ho Hn Hbad. unfold writei. rewrite bind_gets, (get_inode_ftx dv SZ out dk cb sb _ _ _ _ _ _ _ _ _ _ Hf Hip).
  destruct (Z.ltb_spec (di_size (in_d i)) off), (Z.ltb_spec (u32 (off + n)) off); try done. cbn [orb].
  assert (off + n < 2 ^ 32).
  { unfold u32 in *. destruct (Z.lt_ge_cases (off + n) (2 ^ 32)); [done|].
    rewrite <-(Z.mod_unique (off + n) (2 ^ 32) 1 (off + n - 2 ^ 32)) in *; lia. }
  assert (u32 (off + n) = off + n) as E by (unfold u32; apply Z.mod_small; lia). rewrite E.
  destruct (Z.ltb_spec (MAXFILE * BSIZE) (off + n)); [done|]. lia.
Qed.

(** What writei wrote, readi reads. *)
Theorem write_read L g it km c s ip i off l :
  let n := Z.of_nat (length l) in
  fs_core cb -> sb_ok sb -> 1 <= out -> F [] [] L g sb it km c s -> meta_used g sb -> file_at dv sb g it ip i ->
  0 <= off <= di_size (in_d i) -> off + n <= MAXFILE * BSIZE -> Forall is_byte l ->
  nfree g sb (nblocks off n + indw (in_d i)) -> room SZ (nblocks off n + 3) 2 L ->
  wp (_ ← writei ip (FromLocal l) off n; readi ip ToLocal off n) c s (fun r _ _ => r = (n, l)).
Proof.
  intros n Hc Hs Ho Hf Hm Hfa H0 Hmax Hby Hnf Hr. pose proof Hc as [Hb Hl _]. pose proof Hfa as [H1 H2 H3 H4 H5 H6].
  wrun (writei_ok dv SZ out dk cb Hb Hl Ho sb Hs 0 L g it km c s ip i off l Hf Hm H1 H2 H3 H4 H5 H6 H0 Hmax Hby Hnf);
    [by rewrite Nat.add_0_r|]. intros r c1 s1 (g' & d' & L' & -> & Hf' & HP & Hr').
  destruct (file_at_post dv sb g it ip i off l g' d' Hfa HP) as [E1 E2 _ _ E5 _].
  assert (Hc' := wp_contents _ _ _ _ _ _ _ _ HP). pose proof E5 as [Hsz' _]. cbn [in_d set_d] in Hsz'.
  assert (Hlen : length (overwrite (Z.to_nat off) l (contents g (in_d i))) = Z.to_nat (di_size d')) by (rewrite <-Hc'; apply contents_length).
  rewrite overwrite_length in Hlen by (rewrite contents_length; lia).
  assert (Hfit : off + n <= di_size d') by lia. assert (H32 : di_size d' < 2 ^ 32) by (csz; lia).
  eapply wp_mono; [eapply (readi_ok dv SZ out dk cb Hb Hl sb 2 [] L' g' _ km c1 s1 ip _ off n Hf' E1 E2 E5); try lia|].
  - intros b Hb'. by apply elem_of_nil in Hb'.
  - exact Hr'.
  - simpl. lia.
  - intros x c2 s2 [-> _]. cbn [in_d set_d]. rewrite read_len_fits by lia. f_equal.
    rewrite frange_contents, Hc' by lia. unfold n. rewrite Nat2Z.id. apply slice_overwrite. rewrite contents_length. lia.
Qed.

(** dirlookup returns the inode of the first used entry with the name, and
    its offset, or null when there is none; it changes nothing but the
    reference count of the inode. *)
Theorem dirlookup_spec N L g it km c s name dp i :
  fs_core cb -> F [] [] L g sb it km c s -> dir_at dv sb g it dp i N -> slot_free it -> room SZ 0 2 L ->
  wp (dirlookup dp name) c s (fun r c' s' =>
    match dir_find name (contents g (in_d i)) with
    | None => r = None /\ F [] [] L g sb it km c' s'
    | Some (k, de) => exists ip i', r = Some (ip, 16 * Z.of_nat k) /\ igot dv (de_inum de) it ip i' /\
        F [] [] L g sb (<[ip := i']> it) km c' s'
    end).
Proof. intros [Hb Hl Hi] Hf ([H1 H2 _ _ H5 _] & Ht & HN) Hsl Hr. by eapply dirlookup_ok. Qed.

(** The conditions under which dirlink can add an entry. *)
Definition can_link (g : Z -> list Z) (i : inode) (inum : Z) (name : list Z) : Prop :=
  Z.of_nat (16 * S (dir_free (contents g (in_d i)))) <= MAXFILE * BSIZE /\ nfree g sb (1 + indw (in_d i)) /\
  Forall is_byte name /\ 0 < inum < 2 ^ 16.

Lemma linked_names name inum : Forall is_byte name -> inum <> 0 -> names name (linked name inum).
Proof. intros Hb Hi. split; [done|]. by apply namecmp_strncpy. Qed.

Lemma dir_find_add f name inum name' :
  Forall is_byte name -> inum <> 0 -> dir_find name f = None ->
  let es := dir_add name inum f in
  list_find (names name) es = Some (dir_free f, linked name inum) /\
  (namecmp name' (strncpy (arr name) 0 (Z.to_nat DIRSIZ)) <> 0 -> list_find (names name') es = dir_find name' f).
Proof.
  intros Hb Hi Hno es. destruct (dir_free_spec f) as [Hfr Hu]. split.
  - apply find_put; [done|done|by apply linked_names|done].
  - intros Hne. apply find_put; [done|done|]. by intros [_ ?].
Qed.

(** C8: dirlink of a name that the directory does not have puts an entry in the
    first unused place, or at the end: from then on the name is found there,
    and every other name is found, or not, as before.  The rest of the file
    system is untouched, as for writei. *)
Theorem dirlink_spec k N L g it km c s name inum dp i :
  let f := contents g (in_d i) in
  fs_core cb -> sb_ok sb -> 1 <= out -> F [] [] L g sb it km c s -> meta_used g sb -> dir_at dv sb g it dp i N ->
  slot_free it -> can_link g i inum name -> room SZ (4 + k) 2 L -> dir_find name f = None ->
  wp (dirlink dp name inum) c s (fun r c' s' => exists g' d' L',
    r = 0 /\ F [] [] L' g' sb (<[dp := set_d d' i]> it) km c' s' /\ room SZ k 2 L' /\
    writei_post sb (in_inum i) (16 * Z.of_nat (dir_free f)) (de_encode (linked name inum)) g (in_d i) g' d' /\
    dir_find name (contents g' d') = Some (dir_free f, linked name inum) /\
    forall name', namecmp name' (strncpy (arr name) 0 (Z.to_nat DIRSIZ)) <> 0 ->
      dir_find name' (contents g' d') = dir_find name' f).
Proof.
  intros f [Hb Hl Hi] Hs Ho Hf Hm ([H1 H2 H3 H4 H5 H6] & Ht & HN) Hsl (Hmax & Hnf & Hby & Hin) Hr Hno.
  eapply wp_mono; [eapply (dirlink_absent dv SZ out dk cb Hb Hl Hi Ho sb Hs k N L g it km c s name inum dp i); try done; lia|].
  intros r c' s' (g' & d' & L' & -> & H7 & H8 & HP & He). exists g', d', L'. split_and!; try done.
  - unfold dir_find. rewrite He. by apply (dir_find_add f name inum name); [|lia|].
  - intros name' Hne. unfold dir_find at 1. rewrite He. apply (dir_find_add f name inum name'); [done|lia|done|done].
Qed.

(** dirlink of a name that exists returns -1 and changes no block; the count
    of the inode that was found goes up and down again. *)
Theorem dirlink_exists N L g it km c s name inum dp i kd :
  fs_core cb -> F [] [] L g sb it km c s -> dir_at dv sb g it dp i N -> slot_free it -> room SZ 0 2 L ->
  dir_find name (contents g (in_d i)) = Some kd ->
  wp (dirlink dp name inum) c s (fun r c' s' => r = -1 /\ exists it',
    F [] [] L g sb it' km c' s' /\ in_ref <$> it' = in_ref <$> it).
Proof.
  intros [Hb Hl Hi] Hf ([H1 H2 _ _ H5 _] & Ht & HN) Hsl Hr Hk.
  eapply wp_mono; [eapply (dirlink_present dv SZ out dk cb Hb Hl Hi sb N L g it km c s name inum dp i kd); try done|].
  intros r c' s' [-> (ip & i' & Hg & H7)]. split; [done|]. eexists. split; [exact H7|].
  rewrite list_fmap_insert. apply list_insert_id. rewrite list_lookup_fmap.
  destruct Hg as [ip x E _ _ _|ip x E Hx _]; rewrite E; cbn; f_equal; lia.
Qed.

Lemma slot_free_set it dp i d : it !! dp = Some i -> slot_free it -> slot_free (<[dp := set_d d i]> it).
Proof.
  intros Hi (x & Hx & H0). apply list_elem_of_lookup in Hx as [j Hj]. destruct (decide (j = dp)) as [->|Hne].
  - assert (x = i) as -> by congruence. exists (set_d d i). split; [|done].
    apply list_elem_of_lookup. exists dp. apply list_lookup_insert_eq. by eapply lookup_lt_Some.
  - exists x. split; [|done]. apply list_elem_of_lookup. exists j. by rewrite list_lookup_insert_ne.
Qed.

(** After dirlink, dirlookup of the name gives the inode it was linked to. *)
Theorem dirlink_dirlookup N L g it km c s name inum dp i :
  fs_core cb -> sb_ok sb -> 1 <= out -> F [] [] L g sb it km c s -> meta_used g sb -> dir_at dv sb g it dp i N ->
  slot_free it -> can_link g i inum name -> room SZ 4 2 L -> dir_find name (contents g (in_d i)) = None ->
  wp (_ ← dirlink dp name inum; dirlookup dp name) c s (fun r _ s' => exists ip off i',
    r = Some (ip, off) /\ fs_itable s' !! ip = Some i' /\ in_dev i' = dv /\ in_inum i' = inum /\ 0 < in_ref i').
Proof.
  intros Hc Hs Ho Hf Hm (Hfa & Ht & HN) Hsl (Hmax & Hnf & Hby & Hin) Hr Hno. pose proof Hc as [Hb Hl Hi]. pose proof Hfa as [H1 H2 H3 H4 H5 H6].
  set (f := contents g (in_d i)) in *.
  wrun (dirlink_absent dv SZ out dk cb Hb Hl Hi Ho sb Hs 0 N L g it km c s name inum dp i); try done; [lia|].
  intros r c1 s1 (g' & d' & L' & -> & H7 & H8 & HP & He).
  destruct (file_at_post dv sb g it dp i _ _ g' d' Hfa HP) as [E1 E2 _ _ E5 _].
  pose proof (wp_same _ _ _ _ _ _ _ _ HP) as Es. injection Es as Et _ _ _. pose proof (wp_contents _ _ _ _ _ _ _ _ HP) as Hco. fold f in Hco.
  assert (Hlf : length f = (16 * N)%nat) by (unfold f; rewrite contents_length, HN; lia).
  destruct (dir_free_spec f) as [Hfr _]. rewrite length_entries, Hlf, Nat.mul_comm, Nat.div_mul in Hfr by done.
  destruct (entries_put f N (dir_free f) (linked name inum)) as [Hl2 _]; [apply linked_wf; lia|done|done|].
  replace (Z.to_nat (16 * Z.of_nat (dir_free f))) with (16 * dir_free f)%nat in Hco by lia. rewrite <-Hco, contents_length in Hl2.
  eapply wp_mono; [eapply (dirlookup_ok dv SZ out dk cb Hb Hl Hi sb (Nat.max N (S (dir_free f))) L' g' _ km c1 s1 name dp _ H7 E1 E2 E5 H8)|].
  - cbn [in_d set_d]. congruence.
  - cbn [in_d set_d]. destruct E5. cbn [in_d set_d] in *. lia.
  - by apply slot_free_set.
  - intros r c2 s2. cbn [in_d set_d]. unfold dir_find. rewrite He. fold f.
    rewrite (proj1 (dir_find_add f name inum name Hby ltac:(lia) Hno)).
    intros (ip & i' & -> & Hg & (_ & -> & _)). exists ip, (16 * Z.of_nat (dir_free f)), i'. split; [done|].
    destruct Hg as [ip x E Hx Hd Hn|ip x E Hx _]; (split; [apply list_lookup_insert_eq; by eapply lookup_lt_Some|]);
      cbn [in_dev in_inum in_ref set_ref de_inum linked] in *; split_and!; (done || lia).
Qed.
End spec.

(** ** A file system as mkfs makes it *)

Module Example.
Definition sb : superblock := mkSuperblock 0x10203040 1000 954 200 30 2 32 45.
(** Blocks 0 to 45, and 46 for the root directory, are in use. *)
Definition bitmap : list Z := repeat 255 5 ++ [127] ++ repeat 0 1018.
Definition dot : dirent := mkDirent 1 (46 :: repeat 0 13).
Definition dotdot : dirent := mkDirent 1 (46 :: 46 :: repeat 0 12).
Definition rootdir : list Z := de_encode dot ++ de_encode dotdot ++ repeat 0 992.
Definition dk : disk := mkDisk (<[46 := rootdir]> (<[45 := bitmap]> ∅)) [].
Definition g : Z -> list Z := disk_read dk.

Definition root_d : dinode := mkDinode T_DIR 0 0 1 32 (46 :: repeat 0 12).
Definition file_d : dinode := mkDinode T_FILE 0 0 1 0 (repeat 0 13).
Definition iroot : inode := mkInode 1 1 1 1 root_d.
Definition ifile : inode := mkInode 1 2 1 1 file_d.
Definition itable : list inode := [iroot; ifile; mkInode 0 0 0 0 file_d].
Definition kmem0 : kmem := mkKmem 0 0 ∅.
Definition core0 : core :=
  mkCore 0 SSTATUS_SIE 0 1 (Some ex_proc) {[ LkLog := mkSpinlock 0 "log" None; LkItable := mkSpinlock 0 "itable" None ]} [] ∅.

Lemma byte_list l : forallb (fun x => (0 <=? x) && (x <? 256)) l = true -> Forall is_byte l.
Proof.
  intros H. apply Forall_forall. intros x Hx%list_elem_of_In. apply forallb_forall with (x := x) in H; [|done].
  unfold is_byte. lia.
Qed.

Lemma dk_ok b : blk_ok (disk_read dk b).
Proof.
  unfold disk_read, dk. cbn [dk_blocks]. destruct (decide (b = 46)) as [->|H1].
  { rewrite lookup_insert_eq. split; [done|]. by apply byte_list. }
  rewrite lookup_insert_ne by done. destruct (decide (b = 45)) as [->|H2].
  { rewrite lookup_insert_eq. split; [done|]. by apply byte_list. }
  rewrite lookup_insert_ne by done. apply zero_blk_ok.
Qed.

Lemma ftx0 : exists c s, fs_core c /\ ftx 1 30 1 dk c [] [] ∅ g sb itable kmem0 c s.
Proof.
  destruct (binit_ok 1 core0 dk) as (c & s0 & _ & Hc & _ & Hlk & Ha0); [split_and!; done|done|done|apply dk_ok|].
  exists c, (mkFsst sb itable (mkLogst (ex_log 1) s0) kmem0). split.
  - split; [done| |]; (apply Hlk; [done|done|by eexists]).
  - split_and!; try done. exists [], (fun _ => 0). cbn [fs_log ls_log ls_bio].
    split_and!; try done; [by rewrite woke_nil|apply opened_nil|constructor|constructor].
Qed.

Lemma sb_good : sb_ok sb.
Proof. by split. Qed.

Lemma meta : meta_used g sb.
Proof.
  assert (H : forallb (fun b => negb (is_free g sb b)) (seqZ 0 46) = true) by by vm_compute.
  intros b Hb. apply forallb_forall with (x := b) in H; [by apply negb_true_iff|]. apply list_elem_of_In, elem_of_seqZ.
  change (sb_bmapstart sb) with 45 in Hb. lia.
Qed.

Lemma free_blocks : nfree g sb 2.
Proof.
  exists {[47; 48]}. split; [by vm_compute|]. intros b [->%elem_of_singleton| ->%elem_of_singleton]%elem_of_union; by vm_compute.
Qed.

Lemma room0 k : (k <= 20)%nat -> room 30 k 2 ∅.
Proof. intros H. unfold room. rewrite size_empty. change HEAD with 30%nat. lia. Qed.

Lemma faddr_root bn : 0 <= bn < MAXFILE -> faddr g root_d bn = if bn =? 0 then 46 else 0.
Proof.
  intros Hb. unfold faddr. change (ind root_d) with 0. change (0 =? 0) with true. cbn match. unfold addr_at.
  destruct (Z.eqb_spec bn 0) as [->|Hn]; [done|]. destruct (Z.ltb_spec bn NDIRECT) as [Hl|]; [|done].
  change (nth (Z.to_nat bn) (46 :: repeat 0 12) 0 = 0). destruct (Z.to_nat bn) as [|k] eqn:E; [lia|]. apply nth_repeat.
Qed.

Lemma faddr_file bn : 0 <= bn < MAXFILE -> faddr g file_d bn = 0.
Proof.
  intros Hb. unfold faddr. change (ind file_d) with 0. change (0 =? 0) with true. cbn match. unfold addr_at.
  destruct (bn <? NDIRECT); [|done]. apply (nth_repeat (0 : Z)).
Qed.

Lemma short_ok d : forallb (fun x => (- 2 ^ 15 <=? x) && (x <? 2 ^ 15)) [di_type d; di_major d; di_minor d; di_nlink d] = true ->
  forall x, x ∈ [di_type d; di_major d; di_minor d; di_nlink d] -> - 2 ^ 15 <= x < 2 ^ 15.
Proof. intros H x Hx%list_elem_of_In. apply forallb_forall with (x := x) in H; [lia|done]. Qed.

Lemma file_good : file_at 1 sb g itable 1 ifile.
Proof.
  split; try done.
  - split; [done|by left|intros bn Hb; rewrite faddr_file by done; auto| |]; intros bn; intros; by rewrite faddr_file in * by done.
  - split; [done|]. intros x Hx. cbn in Hx. lia.
  - by apply short_ok.
Qed.

Lemma root_good : dir_at 1 sb g itable 0 iroot 2.
Proof.
  split; [|done]. split; try done.
  - split; [done|by left| | |].
    + intros bn Hb. rewrite faddr_root by done. case_match; [right; by vm_compute|by left].
    + intros bn bn' Hb Hb'. rewrite !faddr_root by done. destruct (Z.eqb_spec bn 0), (Z.eqb_spec bn' 0); (done || lia).
    + intros bn Hb. rewrite faddr_root by done. by case_match.
  - split; [done|]. intros x Hx. cbn in Hx. rewrite faddr_root by (csz; dlia).
    assert (x / BSIZE = 0) as -> by (csz; dlia). done.
  - by apply short_ok.
Qed.

Lemma slot : slot_free itable.
Proof. exists (mkInode 0 0 0 0 file_d). split; [by right; right; left|done]. Qed.
End Example.

(** "ab" written to the empty file. *)
Lemma writei_spec_witness : exists c s,
  wp (writei 1 (FromLocal [97; 98]) 0 2) c s (fun r _ _ => r = 2).
Proof.
  destruct Example.ftx0 as (c & s & Hc & Hf). exists c, s.
  eapply wp_mono; [apply (writei_spec 1 30 1 Example.dk c Example.sb 0 ∅ Example.g Example.itable Example.kmem0 c s 1 Example.ifile 0 [97; 98]
    Hc Example.sb_good ltac:(lia) Hf Example.meta Example.file_good ltac:(done) ltac:(done) (Example.byte_list [97; 98] eq_refl)
    Example.free_blocks (Example.room0 4 ltac:(lia)))|].
  intros r c' s' (_ & _ & _ & -> & _). reflexivity.
Defined.

Lemma writei_rejects_witness : exists c s, writei 1 (FromLocal [97]) 1 1 c s = Ok (-1) c s.
Proof.
  destruct Example.ftx0 as (c & s & Hc & Hf). exists c, s.
  apply (writei_rejects 1 30 1 Example.dk c Example.sb (FromLocal [97]) ∅ Example.g Example.itable Example.kmem0 c s 1 Example.ifile 1 1 Hf);
    [reflexivity|lia|lia|left; cbn; lia].
Defined.

Lemma readi_spec_witness : exists c s,
  wp (readi 0 ToLocal 16 100) c s (fun x _ _ => x = (16, de_encode Example.dotdot)).
Proof.
  destruct Example.ftx0 as (c & s & Hc & Hf). exists c, s.
  eapply wp_mono; [apply (readi_spec 1 30 1 Example.dk c Example.sb ∅ Example.g Example.itable Example.kmem0 c s 0 Example.iroot 16 100
    Hc Hf (proj1 Example.root_good) (Example.room0 0 ltac:(lia))); lia|].
  intros x c' s' [-> _]. vm_compute. reflexivity.
Defined.

Lemma write_read_witness : exists c s,
  wp (_ ← writei 1 (FromLocal [97; 98]) 0 2; readi 1 ToLocal 0 2) c s (fun r _ _ => r = (2, [97; 98])).
Proof.
  destruct Example.ftx0 as (c & s & Hc & Hf). exists c, s.
  apply (write_read 1 30 1 Example.dk c Example.sb ∅ Example.g Example.itable Example.kmem0 c s 1 Example.ifile 0 [97; 98]
    Hc Example.sb_good ltac:(lia) Hf Example.meta Example.file_good ltac:(done) ltac:(done) (Example.byte_list [97; 98] eq_refl)
    Example.free_blocks (Example.room0 4 ltac:(lia))).
Defined.

Lemma dirlookup_spec_witness : exists c s,
  wp (dirlookup 0 [46; 46]) c s (fun r _ _ => exists ip, r = Some (ip, 16)).
Proof.
  destruct Example.ftx0 as (c & s & Hc & Hf). exists c, s.
  eapply wp_mono; [apply (dirlookup_spec 1 30 1 Example.dk c Example.sb 2 ∅ Example.g Example.itable Example.kmem0 c s [46; 46] 0 Example.iroot
    Hc Hf Example.root_good Example.slot (Example.room0 0 ltac:(lia)))|].
  assert (dir_find [46; 46] (contents Example.g (in_d Example.iroot)) = Some (1%nat, Example.dotdot)) as -> by (vm_compute; reflexivity).
  intros r c' s' (ip & i' & -> & _). exists ip. reflexivity.
Defined.

Lemma ex_can_link : can_link Example.sb Example.g Example.iroot 2 [97].
Proof. split_and!; [by vm_compute|apply Example.free_blocks|by apply Example.byte_list|lia|lia]. Qed.

Lemma dirlink_spec_witness : exists c s, wp (dirlink 0 [97] 2) c s (fun r _ _ => r = 0).
Proof.
  destruct Example.ftx0 as (c & s & Hc & Hf). exists c, s.
  eapply wp_mono; [apply (dirlink_spec 1 30 1 Example.dk c Example.sb 0 2 ∅ Example.g Example.itable Example.kmem0 c s [97] 2 0 Example.iroot
    Hc Example.sb_good ltac:(lia) Hf Example.meta Example.root_good Example.slot ex_can_link (Example.room0 4 ltac:(lia)));
    vm_compute; reflexivity|].
  intros r c' s' (_ & _ & _ & -> & _). reflexivity.
Defined.

Lemma dirlink_exists_witness : exists c s, wp (dirlink 0 [46] 2) c s (fun r _ _ => r = -1).
Proof.
  destruct Example.ftx0 as (c & s & Hc & Hf). exists c, s.
  eapply wp_mono; [apply (dirlink_exists 1 30 1 Example.dk c Example.sb 2 ∅ Example.g Example.itable Example.kmem0 c s [46] 2 0 Example.iroot
    (0%nat, Example.dot) Hc Hf Example.root_good Example.slot (Example.room0 0 ltac:(lia))); vm_compute; reflexivity|].
  intros r c' s' [-> _]. reflexivity.
Defined.

Lemma dirlink_dirlookup_witness : exists c s,
  wp (_ ← dirlink 0 [97] 2; dirlookup 0 [97]) c s (fun r _ s' => exists ip off i', r = Some (ip, off) /\ fs_itable s' !! ip = Some i' /\ in_inum i' = 2).
Proof.
  destruct Example.ftx0 as (c & s & Hc & Hf). exists c, s.
  eapply wp_mono; [apply (dirlink_dirlookup 1 30 1 Example.dk c Example.sb 2 ∅ Example.g Example.itable Example.kmem0 c s [97] 2 0 Example.iroot
    Hc Example.sb_good ltac:(lia) Hf Example.meta Example.root_good Example.slot ex_can_link (Example.room0 4 ltac:(lia)));
    vm_compute; reflexivity|].
  intros r c' s' (ip & off & i' & -> & H1 & _ & H2 & _). exists ip, off, i'. done.
Defined.
