(* ===== verification/FsTrunc.v ===== *)
(** * Truncating files: itrunc of kernel/fs.c

    itrunc marks exactly the blocks of the file free, and the inode, in
    memory and on disk, has none left. *)

From Stdlib Require Import ZArith Lia.
From stdpp Require Import base gmap list numbers strings.
From S2P Require Import Prelude Riscv Core Spinlock Wp Kstring Kalloc Vm Sleeplock Bio BioAbs Log LogOps Fs FsTx FsBitmap FsFile FsIo FsWrite FsInode FsDir FsSpec.
Local Open Scope Z_scope.

(** [g'] is [g] with the blocks of [P] marked free. *)
Record freed (sb : superblock) (g g' : Z -> list Z) (P : Z -> Prop) : Prop := mkFreed {
  fr_rest : forall b, b <> sb_bmapstart sb -> g' b = g b;
  fr_bit : forall b, 0 <= b -> is_free g' sb b = true <-> is_free g sb b = true \/ P b
}.

(** The blocks of a file: the data blocks below [k], and the indirect block. *)
Definition blocks_below (g : Z -> list Z) (d : dinode) (k b : Z) : Prop :=
  exists bn, 0 <= bn < k /\ b = faddr g d bn /\ b <> 0.
Definition blocks_of (g : Z -> list Z) (d : dinode) (b : Z) : Prop :=
  blocks_below g d MAXFILE b \/ b = ind d /\ b <> 0.

(** The inode with the first [k] addresses cleared. *)
Definition cleared (k : nat) (d : dinode) : dinode := with_addrs d (repeat 0 k ++ drop k (di_addrs d)).

Section freed.
Context (sb : superblock) (Hs : sb_ok sb).
Implicit Types (g : Z -> list Z) (d : dinode).

Lemma freed_refl g : freed sb g g (fun _ => False).
Proof. split; [done|]. intros b _. naive_solver. Qed.

Lemma freed_iff g g' P Q : freed sb g g' P -> (forall b, P b <-> Q b) -> freed sb g g' Q.
Proof. intros [H1 H2] HPQ. split; [done|]. intros b Hb. by rewrite <-HPQ, H2. Qed.

Lemma freed_step g g' P b :
  freed sb g g' P -> data_blk sb b -> blk_ok (g' (sb_bmapstart sb)) ->
  freed sb g (upd g' (sb_bmapstart sb) (clear_bit (g' (sb_bmapstart sb)) b)) (fun x => P x \/ x = b).
Proof.
  intros [H1 H2] Hd Hk. unfold data_blk in Hd. pose proof (sb_bm sb Hs). pose proof (sb_range sb b Hs ltac:(lia)) as [_ HB].
  split.
  - intros x Hx. rewrite upd_ne by done. auto.
  - intros x Hx. unfold is_free at 1. rewrite upd_eq, bit_free_clear by (done || lia). fold (is_free g' sb x).
    destruct (Z.eqb_spec x b) as [->|Hne]; [naive_solver|]. rewrite H2 by done. naive_solver.
Qed.

Lemma in_use_freed g g' P b : freed sb g g' P -> in_use g sb b -> ~ P b -> is_free g' sb b = false.
Proof.
  intros [_ H2] [Hd Hu] Hp. apply (data_pos sb Hs) in Hd. destruct (is_free g' sb b) eqn:E; [|done].
  apply H2 in E as [?|?]; [congruence|done|lia].
Qed.

Lemma blocks_below_S g d k b : 0 <= k ->
  (blocks_below g d k b \/ (b = faddr g d k /\ faddr g d k <> 0)) <-> blocks_below g d (k + 1) b.
Proof.
  intros Hk. split.
  - intros [(bn & Hb & E & Hn)|[-> Hn]]; [exists bn; split; [lia|done]|exists k; split; [lia|done]].
  - intros (bn & Hb & -> & Hn). destruct (decide (bn = k)) as [->|]; [by right|left]. exists bn. split; [lia|done].
Qed.

Lemma cleared_0 d : cleared 0 d = d.
Proof. by destruct d. Qed.

Lemma cleared_len k d : (k <= length (di_addrs d))%nat -> length (di_addrs (cleared k d)) = length (di_addrs d).
Proof. intros H. cbn. rewrite length_app, repeat_length, length_drop. lia. Qed.

Lemma addr_cleared k j d : length (di_addrs d) = 13%nat -> (k <= 13)%nat -> Z.of_nat k <= j -> addr_at j (cleared k d) = addr_at j d.
Proof.
  intros Hl Hk Hj. unfold addr_at. cbn [cleared with_addrs di_addrs]. rewrite app_nth2 by (rewrite repeat_length; lia).
  rewrite repeat_length, !nth_lookup, lookup_drop. do 2 f_equal. lia.
Qed.

(** Clearing one more, whether the address was zero or not. *)
Lemma cleared_S k d : (k < length (di_addrs d))%nat -> set_addr (Z.of_nat k) 0 (cleared k d) = cleared (S k) d.
Proof.
  intros Hk. unfold set_addr, cleared, with_addrs. cbn [di_addrs di_type di_major di_minor di_nlink di_size]. f_equal. rewrite Nat2Z.id.
  destruct (lookup_lt_is_Some_2 (di_addrs d) k Hk) as [a Ha]. rewrite (drop_S _ a) by done.
  rewrite insert_app_r_alt by (by rewrite repeat_length). rewrite repeat_length, Nat.sub_diag. cbn [insert list_insert].
  change (0 :: drop (S k) (di_addrs d)) with ([0] ++ drop (S k) (di_addrs d)). rewrite app_assoc. f_equal.
  by rewrite <-Nat.add_1_r, repeat_app.
Qed.

Lemma cleared_zero k d : (k < length (di_addrs d))%nat -> addr_at (Z.of_nat k) d = 0 -> cleared k d = cleared (S k) d.
Proof.
  intros Hk Ha. rewrite <-cleared_S by done. unfold set_addr. destruct d as [t1 t2 t3 t4 sz l]. unfold cleared, with_addrs. cbn in *.
  f_equal. symmetry. rewrite Nat2Z.id. apply list_insert_id. unfold addr_at in Ha. cbn in Ha. rewrite Nat2Z.id in Ha.
  destruct (lookup_lt_is_Some_2 l k Hk) as [a Hla]. rewrite (nth_lookup_Some _ _ _ _ Hla) in Ha. subst a.
  rewrite lookup_app_r by (by rewrite repeat_length). rewrite repeat_length, Nat.sub_diag, lookup_drop, Nat.add_0_r. done.
Qed.
End freed.

Section itrunc.
Context (dv SZ out : Z) (dk : disk) (cb : core).
Hypothesis (Hcore : bio_core cb) (Hlog : lock_free LkLog cb) (Hout : 1 <= out).
Notation F := (ftx dv SZ out dk cb).
Context (sb : superblock) (Hs : sb_ok sb).
Context (k : nat) (L : gset Z) (g : Z -> list Z) (it : list inode) (km : kmem) (ip : nat) (i : inode).
Hypothesis (Hip : it !! ip = Some i) (Hdev : in_dev i = dv) (Hf : file_ok g sb (in_d i)).
Hypothesis (HL : sb_bmapstart sb ∈ L) (Hr : room SZ (S k) 2 L).

(** The state when the blocks of [P] are free and [n] addresses cleared. *)
Definition truncating (H : list (nat * Z)) (n : nat) (P : Z -> Prop) (c : core) (s : fsst) : Prop :=
  exists g', F H [] L g' sb (<[ip := set_d (cleared n (in_d i)) i]> it) km c s /\ freed sb g g' P.

Lemma trunc_inode H n P c s : truncating H n P c s -> get_inode ip s = set_d (cleared n (in_d i)) i.
Proof.
  intros (g' & HF & _). eapply (get_inode_ftx dv SZ out dk cb sb); [exact HF|].
  apply list_lookup_insert_eq. by eapply lookup_lt_Some.
Qed.

Lemma trunc_bfree H n P c s b :
  truncating H n P c s -> (length H < 2)%nat -> sb_bmapstart sb ∉ H.*2 -> data_blk sb b -> is_free g sb b = false -> ~ P b ->
  wp (bfree dv b) c s (fun _ c' s' => truncating H n (fun x => P x \/ x = b) c' s').
Proof.
  intros (g' & HF & Hfr) Hh HH Hd Hu HP. eapply wp_mono.
  - eapply (bfree_ok dv SZ out dk cb Hcore Hlog Hout k 2 H [] L g' sb _ km c s b HF); try done; [|apply not_elem_of_nil].
    eapply in_use_freed; [exact Hs|exact Hfr|by split|done].
  - intros [] c' s' H1. replace ({[sb_bmapstart sb]} ∪ L) with L in H1 by set_solver. eexists. split; [exact H1|].
    apply freed_step; try done. by eapply ftx_blk.
Qed.

Lemma trunc_iff H n P Q c s : truncating H n P c s -> (forall b, P b <-> Q b) -> truncating H n Q c s.
Proof. intros (g' & HF & Hfr) HPQ. exists g'. split; [done|]. by eapply freed_iff. Qed.

Lemma trunc_clear H n P c s :
  truncating H n P c s -> (n < 13)%nat -> truncating H (S n) P c (upd_d ip (set_addr (Z.of_nat n) 0) s).
Proof.
  intros (g' & HF & Hfr) Hn. exists g'. split; [|done].
  assert (Hlt : (ip < length it)%nat) by by eapply lookup_lt_Some.
  pose proof (ftx_upd_inode dv SZ out dk cb sb _ _ _ _ _ _ _ _ ip _ (fun i => set_d (set_addr (Z.of_nat n) 0 (in_d i)) i) HF
    ltac:(by apply list_lookup_insert_eq)) as H1.
  rewrite list_insert_insert_eq in H1. cbn [in_d set_d] in H1. rewrite cleared_S, set_d_idem in H1 by (rewrite (fo_len _ _ _ Hf); lia).
  exact H1.
Qed.

(** Block [bn] of the file is in use and is none of those below. *)
Lemma block_in_use bn : 0 <= bn < MAXFILE -> faddr g (in_d i) bn <> 0 ->
  data_blk sb (faddr g (in_d i) bn) /\ is_free g sb (faddr g (in_d i) bn) = false /\
  ~ blocks_below g (in_d i) bn (faddr g (in_d i) bn).
Proof.
  intros Hb Hn. destruct (fo_blk _ _ _ Hf bn Hb) as [?|[Hd Hu]]; [done|]. split_and!; [done|done|].
  intros (bn' & Hb' & E & _). apply (fo_inj _ _ _ Hf) in E; lia || done.
Qed.

Lemma below_skip bn b : 0 <= bn -> faddr g (in_d i) bn = 0 -> blocks_below g (in_d i) bn b <-> blocks_below g (in_d i) (bn + 1) b.
Proof. intros Hb E. rewrite <-blocks_below_S by done. rewrite E. naive_solver. Qed.

Lemma below_free bn b : 0 <= bn -> faddr g (in_d i) bn <> 0 ->
  (blocks_below g (in_d i) bn b \/ b = faddr g (in_d i) bn) <-> blocks_below g (in_d i) (bn + 1) b.
Proof. intros Hb E. rewrite <-blocks_below_S by done. naive_solver. Qed.

Lemma direct_loop c s :
  truncating [] 0 (fun _ => False) c s ->
  wp (forM (seqZ 0 NDIRECT) (fun j =>
        x ← gets (get_inode ip);
        if negb (addr_at j (in_d x) =? 0) then
          _ ← bfree (in_dev x) (addr_at j (in_d x));
          modify (upd_d ip (set_addr j 0))
        else mret tt)) c s
    (fun _ c' s' => truncating [] 12 (blocks_below g (in_d i) NDIRECT) c' s').
Proof.
  intros H0. apply (wp_seqZ (fun j => truncating [] (Z.to_nat j) (blocks_below g (in_d i) j))); [done| |].
  { eapply trunc_iff; [exact H0|]. intros b. split; [done|]. intros (bn & Hb & _). lia. }
  intros j c1 s1 Hj H1. change NDIRECT with 12 in Hj. wgets. rewrite (trunc_inode _ _ _ _ _ H1). cbn [in_d set_d in_dev]. rewrite Hdev.
  rewrite addr_cleared by (lia || apply (fo_len _ _ _ Hf)).
  assert (Ea : addr_at j (in_d i) = faddr g (in_d i) j) by (unfold faddr; change NDIRECT with 12; by btrue (j <? 12)).
  rewrite Ea. replace (Z.to_nat (j + 1)) with (S (Z.to_nat j)) by lia. destruct (Z.eqb_spec (faddr g (in_d i) j) 0) as [E|E]; cbn [negb].
  - apply wp_ret. destruct H1 as (g' & HF & Hfr). exists g'. rewrite <-cleared_zero.
    + split; [done|]. eapply freed_iff; [exact Hfr|]. intros b. apply below_skip; lia || done.
    + rewrite (fo_len _ _ _ Hf). lia.
    + rewrite Z2Nat.id by lia. congruence.
  - destruct (block_in_use j) as (Hd & Hu & Hn); [cst; lia|done|].
    wrun (trunc_bfree _ _ _ _ _ _ H1); [simpl; lia|apply not_elem_of_nil|done|done|done|]. intros [] c2 s2 H2.
    apply wp_modify. rewrite <-(Z2Nat.id j) at 3 by lia. apply trunc_clear; [|lia]. eapply trunc_iff; [exact H2|].
    intros b. apply below_free; lia || done.
Qed.

Lemma indirect_loop bp c s :
  ind (in_d i) <> 0 -> truncating [(bp, ind (in_d i))] 12 (blocks_below g (in_d i) NDIRECT) c s ->
  wp (forM (seqZ 0 NINDIRECT) (fun j =>
        a ← bdata bp;
        if negb (ind_at j a =? 0) then bfree dv (ind_at j a) else mret tt)) c s
    (fun _ c' s' => truncating [(bp, ind (in_d i))] 12 (blocks_below g (in_d i) MAXFILE) c' s').
Proof.
  intros Hi H0. assert (Hib : ind (in_d i) <> sb_bmapstart sb).
  { destruct (fo_ind _ _ _ Hf) as [?|[Hd _]]; [done|]. apply (data_pos sb Hs) in Hd. lia. }
  apply (wp_seqZ (fun j => truncating [(bp, ind (in_d i))] 12 (blocks_below g (in_d i) (NDIRECT + j)))); [done|by rewrite Z.add_0_r|].
  intros j c1 s1 Hj H1. pose proof H1 as (g' & HF & Hfr).
  wrun f_bdata; [exact HF|by left|]. intros a c2 s2 (-> & -> & ->). rewrite (fr_rest _ _ _ _ Hfr) by done.
  assert (Ea : ind_at j (g (ind (in_d i))) = faddr g (in_d i) (NDIRECT + j)).
  { unfold faddr. bfalse (ind (in_d i) =? 0). cst. bfalse (12 + j <? 12). f_equal. lia. }
  rewrite Ea, Z.add_assoc. assert (Hb : 0 <= NDIRECT + j < MAXFILE) by (cst; lia).
  destruct (Z.eqb_spec (faddr g (in_d i) (NDIRECT + j)) 0) as [E|E]; cbn [negb].
  - apply wp_ret. eapply trunc_iff; [exact H1|]. intros b. apply below_skip; lia || done.
  - destruct (block_in_use (NDIRECT + j)) as (Hd & Hu & Hn); [done|done|].
    eapply wp_mono; [apply (trunc_bfree [(bp, ind (in_d i))] 12 (blocks_below g (in_d i) (NDIRECT + j)) c1 s1); try done|].
    + simpl. lia.
    + cbn. intros E'%list_elem_of_singleton. by symmetry in E'.
    + intros [] c2 s2 H2. eapply trunc_iff; [exact H2|]. intros b. apply below_free; lia || done.
Qed.

(** All the blocks are free and all the addresses cleared. *)
Lemma itrunc_blocks {A} (rest : M fsst A) Q c s :
  truncating [] 0 (fun _ => False) c s ->
  (forall c' s', truncating [] 13 (blocks_of g (in_d i)) c' s' -> wp rest c' s' Q) ->
  wp (_ ← forM (seqZ 0 NDIRECT) (fun i =>
        x ← gets (get_inode ip);
        if negb (addr_at i (in_d x) =? 0) then
          _ ← bfree (in_dev x) (addr_at i (in_d x));
          modify (upd_d ip (set_addr i 0))
        else mret tt);
      x ← gets (get_inode ip);
      _ ← (if negb (addr_at NDIRECT (in_d x) =? 0) then
         bp ← fbio (bread (in_dev x) (addr_at NDIRECT (in_d x)));
         _ ← forM (seqZ 0 NINDIRECT) (fun j =>
               a ← bdata bp;
               if negb (ind_at j a =? 0) then bfree (in_dev x) (ind_at j a) else mret tt);
         _ ← fbio (brelse bp);
         _ ← bfree (in_dev x) (addr_at NDIRECT (in_d x));
         modify (upd_d ip (set_addr NDIRECT 0))
       else mret tt);
      rest) c s Q.
Proof.
  intros H0 Hrest. wrun direct_loop; [exact H0|]. intros [] c1 s1 H1. wgets.
  wbind. eapply (wp_mono _ _ _ (fun _ => truncating [] 13 (blocks_of g (in_d i)))); [|intros [] c' s'; apply Hrest]. rewrite (trunc_inode _ _ _ _ _ H1). cbn [in_d set_d in_dev].
  rewrite Hdev, addr_cleared by (lia || done || apply (fo_len _ _ _ Hf)). fold (ind (in_d i)).
  destruct (Z.eqb_spec (ind (in_d i)) 0) as [Ei|Ei]; cbn [negb].
  - apply wp_ret. destruct H1 as (g' & HF & Hfr). exists g'. rewrite <-(cleared_zero 12).
    + split; [done|]. eapply freed_iff; [exact Hfr|]. intros b. split.
      * intros (bn & Hb & E). left. exists bn. split; [cst; lia|done].
      * intros [(bn & Hb & -> & Hn)|[-> ?]]; [|done]. exists bn. split; [|done]. unfold faddr in Hn.
        destruct (Z.ltb_spec bn NDIRECT); [lia|]. by rewrite Ei in Hn.
    + rewrite (fo_len _ _ _ Hf). lia.
    + exact Ei.
  - destruct (fo_ind _ _ _ Hf) as [?|[Hd Hu]]; [done|].
    destruct H1 as (g1 & HF1 & Hfr1). wrun f_bread; [exact Hcore|exact HF1|apply not_elem_of_nil|exact Hr|simpl; lia|]. intros bp c2 s2 H2.
    wrun (indirect_loop bp c2 s2 Ei); [by exists g1|]. intros [] c3 s3 (g3 & HF3 & Hfr3).
    wrun f_brelse; [exact Hcore|exact Hlog|exact HF3|apply not_elem_of_nil|]. intros [] c4 s4 H4.
    wrun (trunc_bfree [] 12 (blocks_below g (in_d i) MAXFILE) c4 s4 (ind (in_d i))); try done; [by exists g3|simpl; lia|apply not_elem_of_nil| |].
    + intros (bn & Hb & E & Hn). rewrite E in Hn. by apply (fo_nind _ _ _ Hf bn Hb Hn).
    + intros [] c5 s5 H5. apply wp_modify. change NDIRECT with (Z.of_nat 12). apply trunc_clear; [|lia].
      eapply trunc_iff; [exact H5|]. intros b. unfold blocks_of. naive_solver.
Qed.
End itrunc.

(** What itrunc does to the disk. *)
Record itrunc_post (sb : superblock) (inum : Z) (g : Z -> list Z) (d : dinode) (g' : Z -> list Z) (d' : dinode) : Prop := mkItruncPost {
  it_d : d' = mkDinode (di_type d) (di_major d) (di_minor d) (di_nlink d) 0 (repeat 0 13);
  it_inode : dinode_of g' sb inum = d';
  it_inodes : forall j, 0 <= j < sb_ninodes sb -> j <> inum -> dinode_of g' sb j = dinode_of g sb j;
  it_free : forall b, 0 <= b -> is_free g' sb b = true <-> is_free g sb b = true \/ blocks_of g d b;
  it_files : forall d2, file_ok g sb d2 -> apart g d d2 ->
    file_ok g' sb d2 /\ forall x, 0 <= x < MAXFILE * BSIZE -> fget g' d2 x = fget g d2 x;
  it_meta : meta_used g' sb
}.

Section post.
Context (sb : superblock) (Hs : sb_ok sb).

Lemma blocks_data g d b : file_ok g sb d -> blocks_of g d b -> data_blk sb b.
Proof.
  intros Hf [(bn & Hb & -> & Hn)|[-> Hn]].
  - by destruct (fo_blk _ _ _ Hf bn Hb) as [?|[? _]].
  - by destruct (fo_ind _ _ _ Hf) as [?|[? _]].
Qed.

(** Files apart keep their blocks. *)
Lemma freed_file g g' d d2 :
  freed sb g g' (blocks_of g d) -> file_ok g sb d2 -> apart g d d2 ->
  file_ok g' sb d2 /\ forall x, 0 <= x < MAXFILE * BSIZE -> fget g' d2 x = fget g d2 x.
Proof.
  intros Hfr Hf [A1 A2].
  assert (Hu : forall x, in_use g sb x -> x <> 0 -> (x <> ind d /\ forall bn', 0 <= bn' < MAXFILE -> x <> faddr g d bn') -> in_use g' sb x).
  { intros x Hx H0 [B1 B2]. split; [apply Hx|]. eapply in_use_freed; [done|exact Hfr|done|].
    intros [(bn & Hb & E & _)|[E _]]; [by apply (B2 bn)|done]. }
  assert (Hbm : forall x, in_use g sb x -> g' x = g x).
  { intros x [Hd _]. apply (fr_rest _ _ _ _ Hfr). apply (data_pos sb Hs) in Hd. lia. }
  assert (Ef : forall bn, faddr g' d2 bn = faddr g d2 bn).
  { intros bn. apply faddr_ext. intros Hi. apply Hbm. by destruct (fo_ind _ _ _ Hf). }
  split.
  - destruct Hf as [F1 F2 F3 F4 F5]. split; try done.
    + destruct F2 as [?|F2]; [by left|]. destruct (Z.eq_dec (ind d2) 0); [by left|right]. by apply Hu, A2.
    + intros bn Hb. rewrite Ef. destruct (F3 bn Hb) as [?|F3']; [by left|].
      destruct (Z.eq_dec (faddr g d2 bn) 0); [by left|right]. by apply Hu, A1.
    + intros bn bn' Hb Hb'. rewrite !Ef. auto.
    + intros bn Hb. rewrite Ef. auto.
  - intros x Hx. unfold fget, fbyte. rewrite Ef. destruct (Z.eqb_spec (faddr g d2 (x / BSIZE)) 0); [done|].
    rewrite Hbm; [done|]. assert (Hb : 0 <= x / BSIZE < MAXFILE) by (csz; dlia). by destruct (fo_blk _ _ _ Hf _ Hb).
Qed.

Lemma freed_post inum g g' d :
  0 <= inum < sb_ninodes sb -> meta_used g sb -> file_ok g sb d -> (forall b, blk_ok (g' b)) ->
  (forall x, x ∈ [di_type d; di_major d; di_minor d; di_nlink d] -> - 2 ^ 15 <= x < 2 ^ 15) ->
  freed sb g g' (blocks_of g d) ->
  let d' := set_size 0 (cleared 13 d) in itrunc_post sb inum g d (iupdated sb inum d' g') d'.
Proof.
  intros Hi Hm Hf Hk Hsh Hfr d'. pose proof (iblock_range sb inum Hs Hi) as [Hib _].
  assert (Ed : d' = mkDinode (di_type d) (di_major d) (di_minor d) (di_nlink d) 0 (repeat 0 13)).
  { unfold d', set_size, cleared, with_addrs. cbn. rewrite drop_ge by (rewrite (fo_len _ _ _ Hf); lia). done. }
  assert (Hm' : meta_used g' sb).
  { intros b Hb. pose proof (sb_bm sb Hs). destruct (is_free g' sb b) eqn:E; [|done].
    apply (fr_bit _ _ _ _ Hfr) in E as [E|E]; [rewrite Hm in E by done; done|apply (blocks_data g d) in E; [unfold data_blk in E; lia|done]|lia]. }
  pose proof (iupdated_evolves sb inum d' g' Hs Hi Hm') as E2.
  split; [done| | | | |].
  - apply iupdated_same; try done. rewrite Ed. split; try done. by apply Forall_replicate || (apply Forall_forall; intros x Hx%list_elem_of_In%repeat_spec; cbn; subst; lia).
  - intros j Hj Hne. rewrite iupdated_other; try done; [|lia|by rewrite Ed]. unfold dinode_of. f_equal.
    pose proof (iblock_range sb j Hs Hj) as [Hjb _]. apply (fr_rest _ _ _ _ Hfr). lia.
  - intros b Hb. rewrite <-(fr_bit _ _ _ _ Hfr b Hb). unfold is_free, iupdated. rewrite upd_ne by lia. done.
  - intros d2 F2 A. destruct (freed_file g g' d d2 Hfr F2 A) as [F3 Hg3].
    assert (Hn : forall b, in_use g' sb b -> b <> IBLOCK inum sb) by (intros b [Hd _]; unfold data_blk in Hd; lia).
    assert (B1 : ind d2 <> 0 -> ind d2 <> IBLOCK inum sb) by (intros ?; apply Hn; by destruct (fo_ind _ _ _ F3)).
    assert (B2 : forall bn, 0 <= bn < MAXFILE -> faddr g' d2 bn <> 0 -> faddr g' d2 bn <> IBLOCK inum sb)
      by (intros bn Hb ?; apply Hn; by destruct (fo_blk _ _ _ F3 bn Hb)).
    split; [by apply (file_ok_evolves sb Hs _ _ _ _ d2 E2 F3)|].
    intros x Hx. rewrite (fget_evolves sb Hs _ _ _ _ d2 x E2 F3 B1 B2 Hx). auto.
  - apply (ev_meta _ _ _ _ _ E2).
Qed.
End post.

(** C14: itrunc empties a file: exactly its blocks, data and indirect, become free;
    the inode in memory and on disk has size 0 and no blocks; the other
    inodes and files are as before.  It logs only the bitmap and the inode. *)
Theorem itrunc_spec dv SZ out dk cb sb k L g it km c s ip i :
  fs_core cb -> sb_ok sb -> 1 <= out -> ftx dv SZ out dk cb [] [] L g sb it km c s -> meta_used g sb ->
  file_at dv sb g it ip i -> room SZ (2 + k) 2 L ->
  wp (itrunc ip) c s (fun _ c' s' => exists g' d' L',
    ftx dv SZ out dk cb [] [] L' g' sb (<[ip := set_d d' i]> it) km c' s' /\
    itrunc_post sb (in_inum i) g (in_d i) g' d' /\ room SZ k 2 L').
Proof.
  intros [Hb Hl _] Hs Ho HF Hm [H1 H2 H3 H4 H5 H6] Hr.
  set (L0 := {[sb_bmapstart sb]} ∪ L). assert (Hr0 : room SZ (S k) 2 L0) by (apply room_add; eapply room_le; [exact Hr|lia|lia]).
  assert (HF0 : ftx dv SZ out dk cb [] [] L0 g sb it km c s) by (eapply ftx_weaken; [done|done|done|exact HF|set_solver|auto]).
  unfold itrunc.
  eapply (itrunc_blocks dv SZ out dk cb Hb Hl Ho sb Hs k L0 g it km ip i H1 H2 H4); [set_solver|done| |].
  { exists g. rewrite cleared_0. split; [|apply freed_refl]. rewrite list_insert_id by (by rewrite H1; destruct i). done. }
  intros c1 s1 (g1 & HF1 & Hfr).
  assert (Hlt : (ip < length it)%nat) by by eapply lookup_lt_Some.
  assert (Hip1 : forall d, <[ip:=set_d d i]> it !! ip = Some (set_d d i)) by (intros; by apply list_lookup_insert_eq).
  wmod. pose proof (ftx_upd_inode dv SZ out dk cb sb _ _ _ _ _ _ _ _ ip _ (fun i => set_d (set_size 0 (in_d i)) i) HF1 (Hip1 _)) as HF2.
  rewrite list_insert_insert_eq in HF2. cbn [in_d set_d] in HF2. rewrite set_d_idem in HF2.
  eapply wp_mono; [eapply (iupdate_ok dv SZ out dk cb Hb Hl Ho sb Hs k 2 [] L0 g1 _ km c1 _ ip _ HF2 (Hip1 _)); try done|].
  - change (length (di_addrs (cleared 13 (in_d i))) = 13%nat). rewrite cleared_len; rewrite (fo_len _ _ _ H4); done.
  - apply not_elem_of_nil.
  - simpl. lia.
  - intros [] c2 s2 HF3. eexists _, _, _. split; [exact HF3|]. split; [|by apply room_add].
    apply freed_post; try done. intros b. by eapply ftx_blk.
Qed.

Lemma itrunc_spec_witness : exists c s,
  wp (itrunc 0) c s (fun _ _ s' => exists d', fs_itable s' !! 0%nat = Some (set_d d' Example.iroot) /\ di_size d' = 0).
Proof.
  destruct Example.ftx0 as (c & s & Hc & Hf). exists c, s.
  eapply wp_mono; [apply (itrunc_spec 1 30 1 Example.dk c Example.sb 0 ∅ Example.g Example.itable Example.kmem0 c s 0 Example.iroot
    Hc Example.sb_good ltac:(lia) Hf Example.meta (proj1 Example.root_good) (Example.room0 2 ltac:(lia)))|].
  intros [] c' s' (g' & d' & L' & (_ & -> & _) & HP & _). exists d'. split; [reflexivity|]. rewrite (it_d _ _ _ _ _ _ HP). reflexivity.
Defined.

Lemma bfree_twice_witness : exists c s, bfree 1 47 c s = Panic "freeing free block".
Proof.
  destruct Example.ftx0 as (c & s & [Hb _ _] & Hf). exists c, s.
  apply (bfree_twice 1 30 1 Example.dk c Hb 0 2 [] [] ∅ Example.g Example.sb Example.itable Example.kmem0 c s 47 Hf Example.sb_good);
    [split; reflexivity|vm_compute; reflexivity|apply not_elem_of_nil|apply Example.room0; lia|simpl; lia].
Defined.
