(* ===== verification/FsPath.v ===== *)
(** * Path names: skipelem, ilock, iput, namex of kernel/fs.c

    [elems] splits a path into its elements, and [resolve] follows them from a
    directory to an inode number.  [namex_ok]: namex returns the inode that
    [resolve] gives, with one reference more than before, or null; all other
    reference counts are as they were and no lock stays held. *)

From Stdlib Require Import ZArith Lia.
From stdpp Require Import base gmap list numbers strings.
From S2P Require Import Prelude Riscv Core Spinlock Wp Kstring Kalloc Vm Sleeplock Bio BioAbs Log LogOps Fs FsTx FsBitmap FsFile FsIo FsWrite FsInode FsDir FsSpec.
Local Open Scope Z_scope.

(** ** The elements of a path *)

(** The elements of [p], which ends at a NUL or with the list, where [cur] has
    been read of the first one. *)
Fixpoint elems_from (cur p : list Z) : list (list Z) :=
  let done := match cur with [] => [] | _ => [cur] end in
  match p with
  | [] => done
  | x :: p => if x =? 0 then done else if x =? SLASH then done ++ elems_from [] p else elems_from (cur ++ [x]) p
  end.
Definition elems (p : list Z) : list (list Z) := elems_from [] p.

(** What skipelem stores for the element [e]. *)
Definition stored (e : list Z) : list Z := if DIRSIZ <=? Z.of_nat (length e) then take (Z.to_nat DIRSIZ) e else e ++ [0].

Lemma elems_skip p : elems (skip_slashes p) = elems p.
Proof. induction p as [|x p IH]; [done|]. cbn [skip_slashes]. destruct (Z.eqb_spec x SLASH) as [->|]; [exact IH|done]. Qed.

Lemma skip_slashes_length p : (length (skip_slashes p) <= length p)%nat.
Proof. induction p as [|x p IH]; [done|]. cbn. case_match; cbn; lia. Qed.

Lemma skip_slashes_hd p : hd0 (skip_slashes p) <> SLASH.
Proof. induction p as [|x p IH]; [done|]. cbn. destruct (Z.eqb_spec x SLASH); done. Qed.

(** Unless the path is over, its first element is what [path_elem] takes. *)
Lemma elems_path_elem cur p :
  cur ++ (path_elem p).1 <> [] -> elems_from cur p = (cur ++ (path_elem p).1) :: elems (path_elem p).2.
Proof.
  revert cur. induction p as [|x p IH]; intros cur; cbn [path_elem elems_from].
  - cbn. rewrite app_nil_r. by destruct cur.
  - destruct (Z.eqb_spec x 0) as [->|H0]; cbn [negb andb].
    { rewrite andb_false_r. cbn [fst snd]. rewrite app_nil_r. by destruct cur. }
    destruct (Z.eqb_spec x SLASH) as [->|Hs]; cbn [negb andb].
    { cbn [fst snd]. rewrite app_nil_r. by destruct cur. }
    destruct (path_elem p) as [e r] eqn:E. cbn [fst snd] in *. intros _. rewrite IH by (by destruct cur). by rewrite <-app_assoc.
Qed.

Lemma path_elem_length p : (length (path_elem p).1 + length (path_elem p).2 = length p)%nat.
Proof.
  induction p as [|x p IH]; [done|]. cbn [path_elem]. destruct (_ && _); [|done].
  destruct (path_elem p) as [e r]. cbn in *. lia.
Qed.

Lemma elems_nil p : hd0 p <> SLASH -> elems p = [] <-> hd0 p = 0.
Proof.
  intros Hs. destruct p as [|x p]; [done|]. cbn [hd0] in *. unfold elems. cbn [elems_from].
  destruct (Z.eqb_spec x 0) as [->|H0]; [done|]. destruct (Z.eqb_spec x SLASH); [done|]. split; [|done].
  rewrite elems_path_elem by (by destruct (path_elem p).1). by destruct (path_elem p).1.
Qed.

(** skipelem takes the first element off the path. *)
Lemma skipelem_elems p :
  match elems p with
  | [] => skipelem p = None
  | e :: es => exists rest, skipelem p = Some (rest, stored e) /\ elems rest = es /\ (length rest < length p)%nat /\
      (hd0 rest =? 0) = match es with [] => true | _ => false end
  end.
Proof.
  rewrite <-elems_skip. pose proof (skip_slashes_hd p) as Hs. pose proof (skip_slashes_length p) as Hl.
  unfold skipelem. set (q := skip_slashes p) in *. destruct (Z.eqb_spec (hd0 q) 0) as [H0|H0].
  { by rewrite (proj2 (elems_nil q Hs) H0). }
  destruct q as [|x q]; [done|]. cbn [hd0] in *. pose proof (path_elem_length (x :: q)) as Hp.
  assert (Hne : (path_elem (x :: q)).1 <> []).
  { cbn [path_elem]. destruct (Z.eqb_spec x SLASH), (Z.eqb_spec x 0); try done. cbn [negb andb]. by destruct (path_elem q). }
  unfold elems at 1. rewrite (elems_path_elem [] (x :: q)) by done. rewrite app_nil_l.
  destruct (path_elem (x :: q)) as [e r]. cbn [fst snd] in *. exists (skip_slashes r).
  pose proof (skip_slashes_length r). pose proof (skip_slashes_hd r) as Hr. split_and!; [done|by rewrite elems_skip| |].
  - destruct e; [done|]. cbn [length] in *. lia.
  - rewrite <-elems_skip. apply elems_nil in Hr. destruct (Z.eqb_spec (hd0 (skip_slashes r)) 0); case_match; naive_solver.
Qed.

(** The name that skipelem stores compares like the element. *)
Lemma strncmp_ext p p' q i n : (forall j, (i <= j < i + n)%nat -> p j = p' j) -> strncmp p q i n = strncmp p' q i n.
Proof.
  revert i. induction n as [|n IH]; intros i H; [done|]. cbn [strncmp]. rewrite (H i) by lia. case_match; [|done].
  apply IH. intros j Hj. apply H. lia.
Qed.

Lemma arr_stored e j : (j < 14)%nat -> arr (stored e) j = arr e j.
Proof.
  intros Hj. unfold arr, stored. change DIRSIZ with 14. destruct (Z.leb_spec 14 (Z.of_nat (length e))).
  - change (Z.to_nat 14) with 14%nat. rewrite !nth_lookup. by rewrite lookup_take_lt.
  - destruct (Nat.lt_ge_cases j (length e)); [by rewrite app_nth1|]. rewrite app_nth2, (nth_overflow e) by lia.
    by destruct (j - length e)%nat as [|[]].
Qed.

Lemma dir_find_stored e f : dir_find (stored e) f = dir_find e f.
Proof.
  unfold dir_find. apply list_find_ext. intros de. unfold names, namecmp.
  by rewrite (strncmp_ext _ (arr e)) by (intros j Hj; apply arr_stored; change (Z.to_nat DIRSIZ) with 14%nat in Hj; lia).
Qed.

(** ** Following a path *)

Section walk.
Context (sb : superblock) (g : Z -> list Z).

Fixpoint walk_path (inum : Z) (es : list (list Z)) : option Z :=
  match es with
  | [] => Some inum
  | e :: es =>
      let d := dinode_of g sb inum in
      if di_type d =? T_DIR then
        match dir_find e (contents g d) with Some (_, de) => walk_path (de_inum de) es | None => None end
      else None
  end.

(** The inode at the end of the path, or the directory of its last element. *)
Definition resolve (parent : bool) (inum : Z) (es : list (list Z)) : option Z :=
  if parent then
    match es with
    | [] => None
    | _ => n ← walk_path inum (removelast es); if di_type (dinode_of g sb n) =? T_DIR then Some n else None
    end
  else walk_path inum es.

Lemma resolve_step parent inum e es :
  parent && bool_decide (es = []) = false ->
  resolve parent inum (e :: es) =
    let d := dinode_of g sb inum in
    if di_type d =? T_DIR then
      match dir_find e (contents g d) with Some (_, de) => resolve parent (de_inum de) es | None => None end
    else None.
Proof.
  destruct parent; [|done]. destruct es as [|e' es]; [done|]. intros _. unfold resolve.
  change (removelast (e :: e' :: es)) with (e :: removelast (e' :: es)). cbn [walk_path].
  destruct (_ =? T_DIR); [|done]. by destruct (dir_find _ _) as [[? de]|].
Qed.

(** Inodes in use: a set [P] that contains, with a directory, the inodes of
    its entries. *)
Definition live (P : Z -> Prop) : Prop := forall inum, P inum ->
  let d := dinode_of g sb inum in
  di_type d <> 0 /\ di_nlink d <> 0 /\
  (di_type d = T_DIR -> sized g d /\ (exists N, di_size d = Z.of_nat (16 * N)) /\
    forall de, de ∈ entries (contents g d) -> de_inum de <> 0 -> P (de_inum de)).

Lemma live_find P inum e k de :
  live P -> P inum -> di_type (dinode_of g sb inum) = T_DIR ->
  dir_find e (contents g (dinode_of g sb inum)) = Some (k, de) -> P (de_inum de).
Proof.
  intros HP Hi Ht Hf. destruct (HP _ Hi) as (_ & _ & H). destruct (H Ht) as (_ & _ & Hall).
  apply list_find_Some in Hf as (Hk & [Hn _] & _). apply Hall; [|done]. by eapply list_elem_of_lookup_2.
Qed.
End walk.

(** ** The inode table *)

(** The references to inode [n]. *)
Definition held (n : Z) (i : inode) : nat := if decide (in_inum i = n) then Z.to_nat (in_ref i) else 0%nat.
Definition refs (it : list inode) (n : Z) : nat := sum_list_with (held n) it.
(** The inodes with references. *)
Definition inums (it : list inode) : gset Z := list_to_set (in_inum <$> filter (fun i => 0 < in_ref i) it).

(** [it'] has one reference more than [it], to the inode [o], or none. *)
Definition took (it : list inode) (o : option Z) (it' : list inode) : Prop :=
  length it' = length it /\ forall n, refs it' n = (refs it n + if decide (o = Some n) then 1 else 0)%nat.

Lemma sum_insert {A} (f : A -> nat) l k x y :
  l !! k = Some x -> (sum_list_with f (<[k := y]> l) + f x = sum_list_with f l + f y)%nat.
Proof.
  revert k. induction l as [|z l IH]; intros [|k] H; try done; simpl in *.
  - injection H as ->. lia.
  - specialize (IH k H). lia.
Qed.

Lemma sum_ge {A} (f : A -> nat) l k x : l !! k = Some x -> (f x <= sum_list_with f l)%nat.
Proof. revert k. induction l as [|z l IH]; intros [|k] H; try done; cbn in *; [injection H as ->; lia|]. specialize (IH k H). lia. Qed.

Lemma elem_of_inums it n : n ∈ inums it <-> (0 < refs it n)%nat.
Proof.
  unfold inums, refs. rewrite elem_of_list_to_set, list_elem_of_fmap. split.
  - intros (i & -> & [Hr [k Hk]%list_elem_of_lookup]%list_elem_of_filter).
    pose proof (sum_ge (held (in_inum i)) it k i Hk) as H.
    assert (held (in_inum i) i = Z.to_nat (in_ref i)) as E by (unfold held; by rewrite decide_True). lia.
  - induction it as [|i it IH]; cbn [sum_list_with]; [lia|]. intros H. destruct (decide (0 < held n i)%nat) as [Hh|Hh].
    + unfold held in Hh. case_decide; [|lia]. exists i. split; [done|]. rewrite list_elem_of_filter. split; [lia|by left].
    + destruct IH as (x & -> & Hx); [lia|]. exists x. split; [done|]. rewrite list_elem_of_filter in *. destruct Hx. split; [done|by right].
Qed.

Lemma took_size it o it' : took it o it' -> (size (inums it') <= S (size (inums it)))%nat.
Proof.
  intros [_ H]. transitivity (size (inums it ∪ match o with Some n => {[n]} | None => ∅ end)).
  - apply subseteq_size. intros n. rewrite elem_of_union, !elem_of_inums, H. case_decide as E; [|intros; left; lia]. subst o. set_solver.
  - destruct o as [n|]; [|rewrite union_empty_r_L; lia]. rewrite size_union_alt.
    transitivity (size (inums it) + size ({[n]} : gset Z))%nat; [|rewrite size_singleton; lia].
    apply Nat.add_le_mono_l, subseteq_size. set_solver.
Qed.

(** The table is in order: counts are not negative, an inode has one slot, and
    what has been read of an inode is what the disk has. *)
Record table_ok (dv : Z) (sb : superblock) (g : Z -> list Z) (it : list inode) : Prop := mkTableOk {
  to_ref : forall ip i, it !! ip = Some i -> 0 <= in_ref i;
  to_dev : forall ip i, it !! ip = Some i -> 0 < in_ref i -> in_dev i = dv;
  to_uniq : forall a b x y, it !! a = Some x -> it !! b = Some y -> 0 < in_ref x -> 0 < in_ref y -> in_inum x = in_inum y -> a = b;
  to_valid : forall ip i, it !! ip = Some i -> 0 < in_ref i -> in_valid i <> 0 -> in_d i = dinode_of g sb (in_inum i)
}.

(** Slot [ip] holds inode [inum], with a reference. *)
Definition slot_of (it : list inode) (ip : nat) (inum : Z) : Prop :=
  exists i, it !! ip = Some i /\ in_inum i = inum /\ 0 < in_ref i.

Section table.
Context (dv : Z) (sb : superblock) (g : Z -> list Z).
Notation ok := (table_ok dv sb g).

Lemma table_slot it : ok it -> (size (inums it) < length it)%nat -> slot_free it.
Proof.
  intros Hok Hs. destruct (decide (Forall (fun i => 0 < in_ref i) it)) as [Hall|Hn].
  - exfalso. assert (NoDup (in_inum <$> it)) as Hnd.
    { apply NoDup_alt. intros a b n. rewrite !list_lookup_fmap_Some. intros (x & Ex & Ha) (y & Ey & Hb).
      eapply (to_uniq _ _ _ _ Hok a b x y); [done|done| | |congruence]; by apply (proj1 (Forall_lookup _ _) Hall) in Ha, Hb. }
    assert (list_to_set (in_inum <$> it) ⊆ inums it) as Hsub%subseteq_size.
    { intros n. rewrite elem_of_list_to_set, list_elem_of_fmap. intros (i & -> & Hi). apply elem_of_list_to_set, list_elem_of_fmap.
      exists i. split; [done|]. apply list_elem_of_filter. split; [by apply (proj1 (Forall_forall _ _) Hall)|done]. }
    rewrite size_list_to_set, length_fmap in Hsub by done. lia.
  - apply not_Forall_Exists in Hn; [|apply _]. apply Exists_exists in Hn as (x & Hx & Hr). exists x. split; [done|].
    apply list_elem_of_lookup in Hx as [k Hk]. pose proof (to_ref _ _ _ _ Hok k x Hk).
    assert (~ 0 < in_ref x) by exact Hr. lia.
Qed.

(** Replacing an entry by one for the same inode. *)
Lemma table_set it ip i j :
  ok it -> it !! ip = Some i -> 0 < in_ref i -> 0 <= in_ref j -> in_dev j = dv -> in_inum j = in_inum i ->
  (0 < in_ref j -> in_valid j <> 0 -> in_d j = dinode_of g sb (in_inum j)) -> ok (<[ip := j]> it).
Proof.
  intros [H1 H2 H3 H4] Hi Hr Hj Hd Hn Hv. split.
  - intros k x [(<- & -> & _)|[_ ?]]%list_lookup_insert_Some; eauto.
  - intros k x [(<- & -> & _)|[_ ?]]%list_lookup_insert_Some; eauto.
  - intros a b x y [(<- & -> & _)|[? Ha]]%list_lookup_insert_Some [(<- & -> & _)|[? Hb]]%list_lookup_insert_Some Hx Hy E; try done.
    + eapply (H3 ip b i y); try done. congruence.
    + eapply (H3 a ip x i); try done. congruence.
    + by eapply (H3 a b x y).
  - intros k x [(<- & -> & _)|[_ ?]]%list_lookup_insert_Some; eauto.
Qed.

Lemma igot_ok inum it ip i : ok it -> igot dv inum it ip i ->
  ok (<[ip := i]> it) /\ took it (Some inum) (<[ip := i]> it) /\ slot_of (<[ip := i]> it) ip inum.
Proof.
  intros Hok Hg. assert (Hl : exists x, it !! ip = Some x) by (destruct Hg; eauto). destruct Hl as [x0 Hx0].
  pose proof (lookup_lt_Some _ _ _ Hx0) as Hlt. split_and!.
  - destruct Hg as [ip i Hi Hr Hd Hn|ip i Hi Hr Hno].
    + apply (table_set it ip i); try done; [cbn; lia|]. cbn. intros _ Hv. by eapply to_valid.
    + destruct Hok as [H1 H2 H3 H4]. split.
      * intros k x [(<- & <- & _)|[_ ?]]%list_lookup_insert_Some; [cbn; lia|eauto].
      * intros k x [(<- & <- & _)|[_ ?]]%list_lookup_insert_Some; [done|eauto].
      * intros a b x y [(<- & <- & _)|[? Ha]]%list_lookup_insert_Some [(<- & <- & _)|[? Hb]]%list_lookup_insert_Some Hx Hy E; try done.
        -- by destruct (Hno b y Hb Hy (H2 _ _ Hb Hy)).
        -- by destruct (Hno a x Ha Hx (H2 _ _ Ha Hx)).
        -- by eapply (H3 a b x y).
      * intros k x [(<- & <- & _)|[_ ?]]%list_lookup_insert_Some; [done|eauto].
  - split; [by rewrite length_insert|]. intros n. unfold refs.
    destruct Hg as [ip i Hi Hr Hd Hn|ip i Hi Hr Hno].
    + pose proof (sum_insert (held n) it ip i (set_ref (in_ref i + 1) i) Hi) as H. unfold held in H at 2 4. cbn [in_inum in_ref set_ref] in H.
      rewrite (decide_ext (Some inum = Some n) (in_inum i = n)) by (split; [intros [= ->]; done|intros <-; by f_equal]).
      case_decide; lia.
    + pose proof (sum_insert (held n) it ip i (mkInode dv inum 1 0 (in_d i)) Hi) as H. unfold held in H at 2 4. cbn [in_inum in_ref] in H.
      rewrite Hr in H. rewrite (decide_ext (Some inum = Some n) (inum = n)) by (split; [intros [= ->]; done|by intros ->]).
      change (Z.to_nat 1) with 1%nat in H. change (Z.to_nat 0) with 0%nat in H. repeat case_decide; lia.
  - eexists. split; [by apply list_lookup_insert_eq|]. destruct Hg; cbn; split; (done || lia).
Qed.

(** iget keeps what else has references. *)
Lemma igot_slot inum it ip i jp n : igot dv inum it ip i -> slot_of it jp n -> slot_of (<[ip := i]> it) jp n.
Proof.
  intros Hg (j & Hj & Hn & Hr). destruct (decide (ip = jp)) as [->|Hne]; [|exists j; by rewrite list_lookup_insert_ne].
  exists i. split; [apply list_lookup_insert_eq; by eapply lookup_lt_Some|].
  destruct Hg as [jp i Hi Hri _ Hni|jp i Hi Hri _]; assert (i = j) as -> by congruence; cbn; split; (done || lia).
Qed.

(** A reference is dropped. *)
Lemma put_ok it ip i : ok it -> it !! ip = Some i -> 0 < in_ref i ->
  let it' := <[ip := set_ref (in_ref i - 1) i]> it in
  ok it' /\ took it' (Some (in_inum i)) it.
Proof.
  intros Hok Hi Hr it'. split.
  - apply (table_set it ip i); try done; [cbn; lia|exact (to_dev _ _ _ _ Hok ip i Hi Hr)|]. cbn. intros _ Hv. by eapply to_valid.
  - split; [unfold it'; by rewrite length_insert|]. intros n. unfold refs, it'.
    pose proof (sum_insert (held n) it ip i (set_ref (in_ref i - 1) i) Hi) as H. unfold held in H at 2 4. cbn [in_inum in_ref set_ref] in H.
    rewrite (decide_ext (Some (in_inum i) = Some n) (in_inum i = n)) by (split; [intros [= ->]; done|by intros ->]).
    case_decide; lia.
Qed.
End table.

(** ** Locking inodes *)

Lemma wp_bind_ok {S A B} (m : M S A) (k : A -> M S B) a c s c' s' Q :
  m c s = Ok a c' s' -> wp (k a) c' s' Q -> wp (a ← m; k a) c s Q.
Proof. intros Hm Hk. apply wp_bind. by exists a, c', s'. Qed.

Lemma fs_core_shold ip cb : fs_core cb -> fs_core (shold (SlInode ip) cb).
Proof.
  intros [(H1 & H2 & H3 & H4) H5 H6]. split; [|by apply lock_free_shold|by apply lock_free_shold].
  split_and!; [by apply shold_wf|by apply lock_free_shold| |done]. intros i Hi. apply slock_free_shold; [done|auto].
Qed.

Section lock.
Context (dv SZ out : Z) (dk : disk) (cb : core) (sb : superblock).
Hypothesis (Hc : fs_core cb).
Notation F := (ftx dv SZ out dk).
Implicit Types (it : list inode) (km : kmem) (s : fsst) (g : Z -> list Z) (L : gset Z).

Lemma ftx_core L g it km c s : F cb [] [] L g sb it km c s -> exists tr, c = woke tr cb.
Proof. intros (_ & _ & _ & tr & f & -> & _). by exists tr. Qed.

Lemma ftx_at L g it km c s cb1 cb2 tr : F cb1 [] [] L g sb it km c s -> F cb2 [] [] L g sb it km (woke tr cb2) s.
Proof. intros (H1 & H2 & H3 & tr' & f & -> & H4). split_and!; try done. exists tr, f. split; [done|exact H4]. Qed.

(** The inode as ilock leaves it. *)
Definition load g (i : inode) : inode :=
  mkInode (in_dev i) (in_inum i) (in_ref i) (if in_valid i =? 0 then 1 else in_valid i) (dinode_of g sb (in_inum i)).

(** ilock locks the inode and reads it from the disk if need be. *)
Lemma ilock_ok L g it km c s ip i :
  F cb [] [] L g sb it km c s -> table_ok dv sb g it -> it !! ip = Some i -> 0 < in_ref i ->
  slock_free (SlInode ip) cb -> di_type (dinode_of g sb (in_inum i)) <> 0 -> room SZ 0 1 L ->
  wp (ilock ip) c s (fun _ c' s' => F (shold (SlInode ip) cb) [] [] L g sb (<[ip := load g i]> it) km c' s').
Proof.
  intros Hf Hok Hi Hr Hl Ht Hroom. destruct (ftx_core _ _ _ _ _ _ Hf) as [tr ->]. pose proof (fs_core_shold ip cb Hc) as Hc'.
  pose proof (get_inode_ftx dv SZ out dk cb sb _ _ _ _ _ _ _ _ _ _ Hf Hi) as Eg.
  assert (H1 : F (shold (SlInode ip) cb) [] [] L g sb it km (shold (SlInode ip) (woke tr cb)) s).
  { rewrite shold_woke. by eapply ftx_at. }
  destruct (fc_bio _ Hc) as (Hwf & _ & _ & p & Hp).
  unfold ilock. wgets. rewrite Eg. bfalse (in_ref i <? 1).
  eapply wp_bind_ok; [apply (acquiresleep_ok (SlInode ip) (woke tr cb) s p); [by apply woke_wf|by apply slock_free_woke|done]|].
  wgets. rewrite Eg. unfold load. destruct (Z.eqb_spec (in_valid i) 0) as [Hv|Hv].
  - wgets. assert (fs_sb s = sb) as -> by apply Hf. rewrite (to_dev _ _ _ _ Hok ip i Hi Hr).
    wrun f_bread; [apply Hc'|exact H1|apply not_elem_of_nil|exact Hroom|simpl; lia|]. intros bp c1 s1 H2.
    wrun f_bdata; [exact H2|by left|]. intros x c2 s2 (-> & -> & ->).
    wmod.
    pose proof (ftx_upd_inode dv SZ out dk _ sb _ _ _ _ _ _ _ _ ip i (set_d (dinode_of g sb (in_inum i))) H2 Hi) as H3.
    wrun f_brelse; [apply Hc'|apply Hc'|exact H3|apply not_elem_of_nil|]. intros [] c3 s3 H4.
    wmod. fold (dinode_of g sb (in_inum i)). bfalse (di_type (dinode_of g sb (in_inum i)) =? 0).
    apply wp_ret. pose proof (lookup_lt_Some _ _ _ Hi) as Hlt.
    pose proof (ftx_upd_inode dv SZ out dk _ sb _ _ _ _ _ _ _ _ ip _ (set_valid 1) H4 (list_lookup_insert_eq _ _ _ Hlt)) as H5.
    rewrite list_insert_insert_eq in H5. unfold set_valid, set_d in H5. cbn in H5. by rewrite (to_dev _ _ _ _ Hok ip i Hi Hr) in H5.
  - apply wp_ret. rewrite <-(to_valid _ _ _ _ Hok ip i Hi Hr Hv). rewrite list_insert_id; [done|]. by destruct i.
Qed.

(** iunlock wakes the processes that wait for the lock. *)
Lemma iunlock_ok L g it km c s ip i :
  F (shold (SlInode ip) cb) [] [] L g sb it km c s -> it !! ip = Some i -> 0 < in_ref i -> slock_free (SlInode ip) cb ->
  wp (iunlock ip) c s (fun _ c' s' => F cb [] [] L g sb it km c' s').
Proof.
  intros Hf Hi Hr Hl. pose proof (get_inode_ftx dv SZ out dk _ sb _ _ _ _ _ _ _ _ _ _ Hf Hi) as Eg.
  assert (exists tr, c = shold (SlInode ip) (woke tr cb)) as [tr ->].
  { destruct Hf as (_ & _ & _ & tr & f & -> & _). exists tr. by rewrite shold_woke. }
  destruct (fc_bio _ Hc) as (Hwf & _ & _ & p & Hp).
  unfold iunlock. eapply wp_bind_ok; [apply (holdingsleep_ok (SlInode ip) (woke tr cb) s p); [by apply woke_wf|by apply slock_free_woke|done]|].
  wgets. rewrite Eg. bfalse (in_ref i <? 1). cbn [negb orb].
  eexists _, _, _. split; [apply releasesleep_ok; [by apply woke_wf|by apply slock_free_woke]|].
  rewrite woke_woke. by eapply ftx_at.
Qed.

(** iput drops a reference; an inode with links is not freed. *)
Lemma iput_ok L g it km c s ip i :
  F cb [] [] L g sb it km c s -> it !! ip = Some i -> (in_valid i <> 0 -> di_nlink (in_d i) <> 0) ->
  wp (iput ip) c s (fun _ c' s' => F cb [] [] L g sb (<[ip := set_ref (in_ref i - 1) i]> it) km c' s').
Proof.
  intros Hf Hi Hn. destruct (itable_lock dv SZ out dk cb (fc_bio _ Hc) (fc_itable _ Hc) sb _ _ _ _ _ _ _ _ Hf) as [Ha Hr].
  unfold iput. eapply wp_bind_ok; [apply Ha|]. wgets. rewrite (get_inode_ftx dv SZ out dk cb sb _ _ _ _ _ _ _ _ _ _ Hf Hi).
  assert ((in_ref i =? 1) && negb (in_valid i =? 0) && (di_nlink (in_d i) =? 0) = false) as ->.
  { destruct (Z.eqb_spec (in_valid i) 0), (Z.eqb_spec (di_nlink (in_d i)) 0); rewrite ?andb_false_r; try done. by destruct Hn. }
  apply wp_bind, wp_ret. wmod. eexists _, _, _. split; [apply Hr|].
  apply (ftx_upd_inode dv SZ out dk cb sb _ _ _ _ _ _ _ _ ip i (fun i => set_ref (in_ref i - 1) i) Hf Hi).
Qed.

Lemma idup_ok L g it km c s ip i :
  F cb [] [] L g sb it km c s -> it !! ip = Some i ->
  wp (idup ip) c s (fun r c' s' => r = ip /\ F cb [] [] L g sb (<[ip := set_ref (in_ref i + 1) i]> it) km c' s').
Proof.
  intros Hf Hi. destruct (itable_lock dv SZ out dk cb (fc_bio _ Hc) (fc_itable _ Hc) sb _ _ _ _ _ _ _ _ Hf) as [Ha Hr].
  unfold idup. eapply wp_bind_ok; [apply Ha|]. wmod. eapply wp_bind_ok; [apply Hr|]. apply wp_ret. split; [done|].
  apply (ftx_upd_inode dv SZ out dk cb sb _ _ _ _ _ _ _ _ ip i (fun i => set_ref (in_ref i + 1) i) Hf Hi).
Qed.
End lock.

(** ** namex *)

Lemma took_next it0 m it n it1 it2 :
  took it0 (Some m) it -> took it (Some n) it1 -> took it2 (Some m) it1 -> took it0 (Some n) it2.
Proof.
  intros [L1 H1] [L2 H2] [L3 H3]. split; [congruence|]. intros k. specialize (H1 k). specialize (H2 k). specialize (H3 k).
  repeat case_decide; lia.
Qed.

Lemma took_back it0 m it it2 : took it0 (Some m) it -> took it2 (Some m) it -> took it0 None it2.
Proof.
  intros [L1 H1] [L3 H3]. split; [congruence|]. intros k. specialize (H1 k). specialize (H3 k). repeat case_decide; (done || lia).
Qed.

Lemma took_none it0 o it it1 : took it0 o it -> took it None it1 -> took it0 o it1.
Proof.
  intros [L1 H1] [L2 H2]. split; [congruence|]. intros k. specialize (H1 k). specialize (H2 k). repeat case_decide; (done || lia).
Qed.

Section namex.
Context (dv SZ out : Z) (dk : disk) (cb : core) (sb : superblock).
Notation F := (ftx dv SZ out dk).
Implicit Types (it : list inode) (km : kmem) (s : fsst) (g : Z -> list Z) (L : gset Z).

Lemma load_table g it ip i : table_ok dv sb g it -> it !! ip = Some i -> 0 < in_ref i ->
  table_ok dv sb g (<[ip := load sb g i]> it) /\ took it None (<[ip := load sb g i]> it).
Proof.
  intros Hok Hi Hr. split.
  - apply (table_set dv sb g it ip i); try done; [cbn; lia|]. exact (to_dev _ _ _ _ Hok ip i Hi Hr).
  - split; [by rewrite length_insert|]. intros n. unfold refs.
    pose proof (sum_insert (held n) it ip i (load sb g i) Hi) as H. change (held n (load sb g i)) with (held n i) in H.
    rewrite decide_False by done. lia.
Qed.

Lemma put_slot g it ip i jp n :
  let it' := <[ip := set_ref (in_ref i - 1) i]> it in
  table_ok dv sb g it -> it !! ip = Some i -> slot_of it jp n -> (0 < refs it' n)%nat -> slot_of it' jp n.
Proof.
  intros it' Hok Hi (j & Hj & Hn & Hr) Hpos. apply elem_of_inums, elem_of_list_to_set, list_elem_of_fmap in Hpos.
  destruct Hpos as (x & Ex & [Hx [k Hk]%list_elem_of_lookup]%list_elem_of_filter).
  assert (k = jp) as ->; [|by exists x].
  unfold it' in Hk. apply list_lookup_insert_Some in Hk as [(<- & <- & _)|[_ Hk]]; cbn [in_inum in_ref set_ref] in *.
  - eapply (to_uniq _ _ _ _ Hok ip jp i j); try done; [lia|congruence].
  - eapply (to_uniq _ _ _ _ Hok k jp x j); try done. congruence.
Qed.

Hypothesis (Hc : fs_core cb).

Lemma iunlockput_ok L g it km c s ip inum :
  F (shold (SlInode ip) cb) [] [] L g sb it km c s -> table_ok dv sb g it -> slot_of it ip inum -> slock_free (SlInode ip) cb ->
  di_nlink (dinode_of g sb inum) <> 0 ->
  wp (iunlockput ip) c s (fun _ c' s' => exists it', F cb [] [] L g sb it' km c' s' /\ table_ok dv sb g it' /\
    took it' (Some inum) it /\ forall jp n, slot_of it jp n -> (0 < refs it' n)%nat -> slot_of it' jp n).
Proof.
  intros Hf Hok (i & Hi & <- & Hr) Hl Hn. unfold iunlockput. wrun iunlock_ok; [exact Hc|exact Hf|exact Hi|done|done|]. intros [] c1 s1 H1.
  eapply wp_mono; [eapply iput_ok; [exact Hc|exact H1|exact Hi|]|].
  - intros Hv. by rewrite (to_valid _ _ _ _ Hok ip i Hi Hr Hv).
  - intros [] c2 s2 H2. eexists. split; [exact H2|]. destruct (put_ok dv sb g it ip i Hok Hi Hr) as [H3 H4]. split_and!; [done|done|].
    intros jp n. by apply (put_slot g).
Qed.

(** The result of following the path: an inode with a reference more, or
    null. *)
Definition namex_post g it0 parent inum es (r : option nat * list Z) it' : Prop :=
  table_ok dv sb g it' /\ took it0 (resolve sb g parent inum es) it' /\
  match resolve sb g parent inum es with
  | None => r.1 = None
  | Some n => exists ip, r.1 = Some ip /\ slot_of it' ip n /\ (parent = true -> r.2 = stored (List.last es []))
  end.

Context (P : Z -> Prop) (L : gset Z) (g : Z -> list Z) (it0 : list inode) (km : kmem).
Hypothesis (HP : live sb g P) (Hroom : room SZ 0 2 L) (Hslots : (S (S (size (inums it0))) <= length it0)%nat).
Hypothesis (Hsl : forall ip, (ip < length it0)%nat -> slock_free (SlInode ip) cb).

(** The state at the head of the loop. *)
Definition at_inode it ip inum c s : Prop :=
  F cb [] [] L g sb it km c s /\ table_ok dv sb g it /\ took it0 (Some inum) it /\ slot_of it ip inum /\ P inum.
Definition in_inode it ip inum c s : Prop :=
  F (shold (SlInode ip) cb) [] [] L g sb it km c s /\ table_ok dv sb g it /\ took it0 (Some inum) it /\ P inum /\
  slock_free (SlInode ip) cb /\ exists i, it !! ip = Some i /\ in_inum i = inum /\ 0 < in_ref i /\ in_d i = dinode_of g sb inum.

Lemma in_slot it ip inum c s : in_inode it ip inum c s -> slot_of it ip inum.
Proof. intros (_ & _ & _ & _ & _ & i & ? & ? & ? & _). by exists i. Qed.

Lemma enter_ok it ip inum c s : at_inode it ip inum c s ->
  wp (ilock ip) c s (fun _ c' s' => exists it', in_inode it' ip inum c' s').
Proof.
  intros (Hf & Hok & Htk & (i & Hi & <- & Hr) & Hin). destruct (HP _ Hin) as (Ht & _ & _).
  assert (Hlt : (ip < length it)%nat) by (by eapply lookup_lt_Some). pose proof (proj1 Htk) as Hlen.
  assert (Hl : slock_free (SlInode ip) cb) by (apply Hsl; lia).
  eapply wp_mono; [eapply ilock_ok; [exact Hc|exact Hf|exact Hok|exact Hi|done|done|done|]|].
  { eapply room_le; [exact Hroom|lia|lia]. }
  intros [] c1 s1 H1. destruct (load_table g it ip i Hok Hi Hr) as [H2 H3]. eexists. split_and!; [exact H1|done|by eapply took_none|done|done|].
  exists (load sb g i). split_and!; [by apply list_lookup_insert_eq|done|done|done].
Qed.

(** Giving up at the inode. *)
Lemma leave_ok it ip inum c s : in_inode it ip inum c s ->
  wp (iunlockput ip) c s (fun _ c' s' => exists it', F cb [] [] L g sb it' km c' s' /\ table_ok dv sb g it' /\ took it0 None it').
Proof.
  intros Hin. pose proof (in_slot _ _ _ _ _ Hin) as Hs. destruct Hin as (Hf & Hok & Htk & Hin & Hl & _). destruct (HP _ Hin) as (_ & Hn & _).
  eapply wp_mono; [by eapply iunlockput_ok|]. intros [] c1 s1 (it' & H1 & H2 & H3 & _). exists it'. split_and!; [done|done|by eapply took_back].
Qed.

(** Looking up the next element, and going there. *)
Lemma next_ok it ip inum e c s :
  in_inode it ip inum c s -> di_type (dinode_of g sb inum) = T_DIR ->
  wp (dirlookup ip (stored e)) c s (fun r c' s' =>
    match dir_find e (contents g (dinode_of g sb inum)) with
    | None => r = None /\ in_inode it ip inum c' s'
    | Some (_, de) => exists np off, r = Some (np, off) /\
        wp (iunlockput ip) c' s' (fun _ c'' s'' => exists it', at_inode it' np (de_inum de) c'' s'')
    end).
Proof.
  intros Hin Ht. pose proof (in_slot _ _ _ _ _ Hin) as Hs. pose proof Hin as (Hf & Hok & Htk & Hp & Hl & i & Hi & Hn & Hr & Hd).
  destruct (HP _ Hp) as (_ & Hnl & Hdir). destruct (Hdir Ht) as (Hz & [N HN] & _). destruct (fs_core_shold ip cb Hc) as [Hb Hlg Hit].
  pose proof (took_size _ _ _ Htk) as Hsz. pose proof (proj1 Htk) as Hlen.
  eapply wp_mono; [eapply (dirlookup_ok dv SZ out dk _ Hb Hlg Hit sb N L g it km c s (stored e) ip i Hf Hi)|]; rewrite ?Hd; try done.
  { exact (to_dev _ _ _ _ Hok ip i Hi Hr). }
  { apply (table_slot dv sb g); [done|lia]. }
  rewrite dir_find_stored. intros r c1 s1. destruct (dir_find e _) as [[k de]|] eqn:Ef; [|intros [-> H1]; split; [done|]].
  2: { split_and!; try done. by exists i. }
  intros (np & i' & -> & Hg & H1). exists np, (16 * Z.of_nat k). split; [done|].
  destruct (igot_ok dv sb g _ _ _ _ Hok Hg) as (H2 & H3 & H4).
  eapply wp_mono; [eapply iunlockput_ok; [exact H1|exact H2|by eapply igot_slot|done|done]|].
  intros [] c2 s2 (it' & H5 & H6 & H7 & H8). exists it'. pose proof (took_next _ _ _ _ _ _ Htk H3 H7) as H9.
  split_and!; [done|done|done| |by eapply live_find]. apply H8; [done|]. rewrite (proj2 H9), decide_True by done. lia.
Qed.

(** The path is over. *)
Lemma end_ok (parent : bool) (name : list Z) it ip inum c s : at_inode it ip inum c s ->
  wp (if parent then _ ← iput ip; mret (None, name) else mret (Some ip, name) : M fsst (option nat * list Z)) c s (fun r c' s' => exists it',
    F cb [] [] L g sb it' km c' s' /\ namex_post g it0 parent inum [] r it').
Proof.
  intros (Hf & Hok & Htk & Hs & Hin). destruct (HP _ Hin) as (_ & Hn & _). destruct parent.
  - destruct Hs as (i & Hi & <- & Hr). wrun iput_ok; [exact Hc|exact Hf|exact Hi| |].
    { intros Hv. by rewrite (to_valid _ _ _ _ Hok ip i Hi Hr Hv). }
    intros [] c1 s1 H1. apply wp_ret. destruct (put_ok dv sb g it ip i Hok Hi Hr) as [H3 H4]. eexists. split; [exact H1|].
    split_and!; [done|by eapply took_back|done].
  - apply wp_ret. exists it. split; [done|]. split_and!; [done|done|]. by exists ip.
Qed.

Lemma post_none parent inum es name it' : table_ok dv sb g it' -> took it0 None it' ->
  resolve sb g parent inum es = None -> namex_post g it0 parent inum es (None, name) it'.
Proof. intros H1 H2 H3. unfold namex_post. by rewrite H3. Qed.

Lemma namex_loop_ok fuel : forall path parent name ip inum it c s,
  at_inode it ip inum c s -> (length path <= fuel)%nat ->
  wp (namex_loop ip path parent name fuel) c s (fun r c' s' => exists it',
    F cb [] [] L g sb it' km c' s' /\ namex_post g it0 parent inum (elems path) r it').
Proof.
  induction fuel as [|fuel IH]; intros path parent name ip inum it c s Hat Hfuel;
    cbn [namex_loop]; pose proof (skipelem_elems path) as Hsk; destruct (elems path) as [|e es] eqn:Ees.
  1, 3: rewrite Hsk; by eapply end_ok.
  all: destruct Hsk as (rest & -> & Eres & Hlt & Hhd).
  { lia. }
  cbn beta iota.
  wrun enter_ok; [exact Hat|]. intros [] c1 s1 (it1 & H1). wgets.
  pose proof H1 as (Hf1 & Hok1 & Htk1 & Hp & Hl & i & Hi & <- & Hr & Hd).
  rewrite (get_inode_ftx dv SZ out dk _ sb _ _ _ _ _ _ _ _ _ _ Hf1 Hi), Hd.
  destruct (Z.eqb_spec (di_type (dinode_of g sb (in_inum i))) T_DIR) as [Ht|Ht]; cbn [negb].
  2: { wrun leave_ok; [exact H1|]. intros [] c2 s2 (it2 & H2 & H3 & H4). apply wp_ret. exists it2. split; [done|].
       apply post_none; [done|done|]. destruct es, parent; cbn [resolve removelast walk_path mbind option_bind]; by rewrite (proj2 (Z.eqb_neq _ _) Ht). }
  rewrite Hhd. destruct (parent && match es with [] => true | _ => false end) eqn:Epar.
  - destruct parent; [|done]. destruct es; [|done]. wrun iunlock_ok; [exact Hc|exact Hf1|exact Hi|done|done|]. intros [] c2 s2 H2. apply wp_ret.
    exists it1. split; [done|]. unfold namex_post. cbn [resolve removelast walk_path mbind option_bind]. rewrite (proj2 (Z.eqb_eq _ _) Ht).
    split_and!; [done|done|]. exists ip. split_and!; [done|by exists i|done].
  - assert (Hres := resolve_step sb g parent (in_inum i) e es). cbn zeta in Hres. rewrite (proj2 (Z.eqb_eq _ _) Ht) in Hres.
    wrun next_ok; [exact H1|done|]. intros r c2 s2. destruct (dir_find e _) as [[k de]|] eqn:Ef.
    + intros (np & off & -> & Hw). apply wp_bind. eapply wp_mono; [exact Hw|]. intros [] c3 s3 (it3 & H3).
      eapply wp_mono; [apply (IH rest parent (stored e) np (de_inum de) it3 c3 s3 H3); lia|].
      intros r c4 s4 (it4 & H4 & H5). exists it4. split; [done|]. rewrite Eres in H5. unfold namex_post in *. rewrite Hres by (by destruct parent, es).
      destruct H5 as (A1 & A2 & A3). split_and!; [done|done|]. destruct (resolve sb g parent (de_inum de) es); [|done].
      destruct A3 as (ip' & B1 & B2 & B3). exists ip'. split_and!; [done|done|]. intros ->. rewrite B3 by done. by destruct es.
    + intros [-> H2]. wrun leave_ok; [exact H2|]. intros [] c3 s3 (it3 & H3 & H4 & H5). apply wp_ret. exists it3. split; [done|].
      apply post_none; [done|done|]. rewrite Hres; [done|by destruct parent, es].
Qed.
End namex.

(** Where the path starts: the root, or the current directory. *)
Definition starts (cb : core) (it : list inode) (path : list Z) (inum : Z) : Prop :=
  if hd0 path =? SLASH then inum = ROOTINO else exists p, c_proc cb = Some p /\ slot_of it (cp_cwd p) inum.

(** The state in which paths are followed: the table is in order, no inode is
    locked, and there are slots for two more. *)
Record table_ready (sb : superblock) (g : Z -> list Z) (cb : core) (it : list inode) : Prop := mkTableReady {
  tr_ok : table_ok ROOTDEV sb g it;
  tr_free : forall ip, (ip < length it)%nat -> slock_free (SlInode ip) cb;
  tr_slots : (size (inums it) + 2 <= length it)%nat
}.

Lemma namex_ok SZ out dk cb sb P L g it km c s path parent inum :
  fs_core cb -> ftx ROOTDEV SZ out dk cb [] [] L g sb it km c s -> room SZ 0 2 L -> table_ready sb g cb it ->
  live sb g P -> P inum -> starts cb it path inum ->
  wp (namex path parent) c s (fun r c' s' => exists it',
    ftx ROOTDEV SZ out dk cb [] [] L g sb it' km c' s' /\ namex_post ROOTDEV sb g it parent inum (elems path) r it').
Proof.
  intros Hc Hf Hroom [Hok Hsl Hslots] HP Hin Hst. unfold starts in Hst. unfold namex.
  apply wp_bind, wp_mono with (Q := fun ip c' s' => exists it1, at_inode ROOTDEV SZ out dk cb sb P L g it km it1 ip inum c' s').
  2: { intros ip c1 s1 (it1 & H1). eapply namex_loop_ok; [exact Hc|exact HP|exact Hroom|lia|exact Hsl|exact H1|done]. }
  destruct (hd0 path =? SLASH); [subst inum|].
  - eapply wp_mono; [eapply iget_ok; [apply Hc|apply Hc|exact Hf|apply (table_slot ROOTDEV sb g); [done|lia]]|].
    intros ip c1 s1 (i & Hg & H1). destruct (igot_ok _ _ _ _ _ _ _ Hok Hg) as (H2 & H3 & H4). by eexists.
  - destruct Hst as (p & Hp & i & Hi & <- & Hr). destruct (ftx_core _ _ _ _ _ _ _ _ _ _ _ _ Hf) as [tr ->].
    destruct (fc_bio _ Hc) as (Hwf & _). eapply wp_bind_ok; [apply myproc_ok; by apply woke_wf|]. cbn [c_proc woke]. rewrite Hp.
    eapply wp_mono; [eapply idup_ok; [exact Hc|exact Hf|exact Hi]|]. intros ip c1 s1 [-> H1].
    destruct (igot_ok _ sb g _ _ _ _ Hok (igot_found ROOTDEV (in_inum i) it (cp_cwd p) i Hi Hr (to_dev _ _ _ _ Hok _ _ Hi Hr) eq_refl)) as (H2 & H3 & H4).
    by eexists.
Qed.

(** C10: namex follows the elements of the path from the root or the current
    directory, through directories only: it returns the inode at the end (or
    the directory of the last element, and that element, for nameiparent) with
    one more reference, or null when a directory on the way is not one or has
    no such entry.  No other reference count changes, no block changes, no
    lock stays held. *)
Theorem namex_spec SZ out dk cb sb P L g it km c s path parent inum :
  fs_core cb -> ftx ROOTDEV SZ out dk cb [] [] L g sb it km c s -> room SZ 0 2 L -> table_ready sb g cb it ->
  live sb g P -> P inum -> starts cb it path inum ->
  wp (namex path parent) c s (fun r c' s' => exists it',
    ftx ROOTDEV SZ out dk cb [] [] L g sb it' km c' s' /\ table_ok ROOTDEV sb g it' /\
    took it (resolve sb g parent inum (elems path)) it' /\
    match resolve sb g parent inum (elems path) with
    | None => r.1 = None
    | Some n => exists ip, r.1 = Some ip /\ slot_of it' ip n /\ (parent = true -> r.2 = stored (List.last (elems path) []))
    end).
Proof. apply namex_ok. Qed.
