(* ===== verification/Uart.v ===== *)
(** * The serial port driver: kernel/uart.c

    The 16550 device is outside the sources.  Of its documented behaviour the
    model has what the driver observes: bit 0 of LSR says whether a received
    byte waits in RHR, bit 5 whether THR accepts a byte, and reading RHR
    removes the byte.  When the transmitter is ready is up to the device:
    [ud_idle] lists the answers to the coming reads of LSR (after the last
    one the transmitter stays ready). *)

From Stdlib Require Import ZArith Lia.
From stdpp Require Import base gmap list numbers strings.
From S2P Require Import Prelude Ring Riscv Core Spinlock Sleeplock.
Local Open Scope Z_scope.

Definition RHR : Z := 0.
Definition THR : Z := 0.
Definition IER : Z := 1.
Definition IER_RX_ENABLE : Z := Z.shiftl 1 0.
Definition IER_TX_ENABLE : Z := Z.shiftl 1 1.
Definition FCR : Z := 2.
Definition FCR_FIFO_ENABLE : Z := Z.shiftl 1 0.
Definition FCR_FIFO_CLEAR : Z := Z.shiftl 3 1.
Definition LCR : Z := 3.
Definition LCR_EIGHT_BITS : Z := Z.shiftl 3 0.
Definition LCR_BAUD_LATCH : Z := Z.shiftl 1 7.
Definition LSR : Z := 5.
Definition LSR_RX_READY : Z := Z.shiftl 1 0.
Definition LSR_TX_IDLE : Z := Z.shiftl 1 5.
Definition UART_TX_BUF_SIZE : Z := 32.

Record uart : Type := mkUart {
  uart_tx_buf : list Z;
  uart_tx_w : Z;               (* write next to uart_tx_buf[uart_tx_w % UART_TX_BUF_SIZE] *)
  uart_tx_r : Z;               (* read next from uart_tx_buf[uart_tx_r % UART_TX_BUF_SIZE] *)
  panicked : Z;                (* printf.c *)
  ud_in : list Z;              (* device: received bytes *)
  ud_idle : list bool;         (* device: readiness of the transmitter *)
  ud_out : list (Z * Z)        (* device: register writes, oldest first *)
}.

Definition WriteReg (reg v : Z) : M uart unit :=
  modify (fun u => mkUart (uart_tx_buf u) (uart_tx_w u) (uart_tx_r u) (panicked u) (ud_in u) (ud_idle u)
                     (ud_out u ++ [(reg, u8 v)])).

Definition ReadLSR : M uart Z := fun c u =>
  let ready := match ud_idle u with [] => true | b :: _ => b end in
  let rx := match ud_in u with [] => 0 | _ => LSR_RX_READY end in
  Ok (Z.lor rx (if ready then LSR_TX_IDLE else 0)) c
    (mkUart (uart_tx_buf u) (uart_tx_w u) (uart_tx_r u) (panicked u) (ud_in u) (tail (ud_idle u)) (ud_out u)).

Definition ReadRHR : M uart Z := fun c u =>
  Ok (u8 (hd 0 (ud_in u))) c
    (mkUart (uart_tx_buf u) (uart_tx_w u) (uart_tx_r u) (panicked u) (tail (ud_in u)) (ud_idle u) (ud_out u)).

Definition uartinit : M uart unit :=
  _ ← WriteReg IER 0;
  _ ← WriteReg LCR LCR_BAUD_LATCH;
  _ ← WriteReg 0 3;
  _ ← WriteReg 1 0;
  _ ← WriteReg LCR LCR_EIGHT_BITS;
  _ ← WriteReg FCR (Z.lor FCR_FIFO_ENABLE FCR_FIFO_CLEAR);
  _ ← WriteReg IER (Z.lor IER_TX_ENABLE IER_RX_ENABLE);
  initlock LkUartTx "uart".

(** At most [UART_TX_BUF_SIZE] bytes wait in the buffer. *)
Fixpoint uartstart_loop (fuel : nat) : M uart unit :=
  u ← get;
  if uart_tx_w u =? uart_tx_r u then mret tt else
  match fuel with
  | O => nofuel
  | S fuel =>
      lsr ← ReadLSR;
      if Z.land lsr LSR_TX_IDLE =? 0 then mret tt else
      u ← get;
      let c := nth (Z.to_nat (uart_tx_r u mod UART_TX_BUF_SIZE)) (uart_tx_buf u) 0 in
      _ ← put (mkUart (uart_tx_buf u) (uart_tx_w u) (u64 (uart_tx_r u + 1)) (panicked u) (ud_in u) (ud_idle u) (ud_out u));
      _ ← wakeup ChUartTxR;
      _ ← WriteReg THR c;
      uartstart_loop fuel
  end.
Definition uartstart : M uart unit := uartstart_loop (Z.to_nat UART_TX_BUF_SIZE).

(** [for(;;);] of a hart after a panic. *)
Definition freeze {S A} : M S A := panic "panicked".

(** The while loop of [uartputc], entered again after every sleep. *)
Definition uartputc_loop (c : Z) : M uart unit :=
  u ← get;
  if uart_tx_w u =? u64 (uart_tx_r u + UART_TX_BUF_SIZE) then sleep ChUartTxR LkUartTx else
  _ ← put (mkUart (<[Z.to_nat (uart_tx_w u mod UART_TX_BUF_SIZE) := u8 c]> (uart_tx_buf u)) (u64 (uart_tx_w u + 1))
             (uart_tx_r u) (panicked u) (ud_in u) (ud_idle u) (ud_out u));
  _ ← uartstart;
  release LkUartTx.

Definition uartputc (c : Z) : M uart unit :=
  _ ← acquire LkUartTx;
  u ← get;
  if negb (panicked u =? 0) then freeze else uartputc_loop c.

(** Waiting for the transmitter. *)
Fixpoint uart_wait (fuel : nat) : M uart unit :=
  lsr ← ReadLSR;
  if Z.land lsr LSR_TX_IDLE =? 0
  then match fuel with O => nofuel | S fuel => uart_wait fuel end
  else mret tt.

Definition uartputc_sync (c : Z) : M uart unit :=
  _ ← push_off;
  u ← get;
  if negb (panicked u =? 0) then freeze else
  _ ← uart_wait (length (ud_idle u));
  _ ← WriteReg THR c;
  pop_off.

Definition uartgetc : M uart Z :=
  lsr ← ReadLSR;
  if negb (Z.land lsr 1 =? 0) then ReadRHR else mret (-1).

(** ** The transmit buffer as a queue *)

Definition tx_queue (u : uart) : list Z := rq (2 ^ 64) UART_TX_BUF_SIZE (uart_tx_buf u) (uart_tx_r u) (uart_tx_w u).
Definition uart_ok (u : uart) : Prop :=
  rq_ok (2 ^ 64) UART_TX_BUF_SIZE (uart_tx_buf u) (uart_tx_r u) (uart_tx_w u) /\ Forall is_byte (uart_tx_buf u).
(** The bytes given to the transmitter since the baud rate was set. *)
Definition sent (u : uart) : list Z := snd <$> filter (fun x => x.1 = THR) (ud_out u).

Lemma tx_div : (UART_TX_BUF_SIZE | 2 ^ 64).
Proof. by exists (2 ^ 59). Qed.

Lemma land_lsr (rx : Z) (ready : bool) : (rx = 0 \/ rx = LSR_RX_READY) ->
  (Z.land (Z.lor rx (if ready then LSR_TX_IDLE else 0)) LSR_TX_IDLE =? 0) = negb ready.
Proof. by intros [->| ->]; destruct ready. Qed.

Lemma read_lsr_idle u : exists rx, (rx = 0 \/ rx = LSR_RX_READY) /\ forall c,
  ReadLSR c u = Ok (Z.lor rx (if match ud_idle u with [] => true | b :: _ => b end then LSR_TX_IDLE else 0)) c
    (mkUart (uart_tx_buf u) (uart_tx_w u) (uart_tx_r u) (panicked u) (ud_in u) (tail (ud_idle u)) (ud_out u)).
Proof.
  exists (match ud_in u with [] => 0 | _ => LSR_RX_READY end). split; [by destruct (ud_in u); auto|done].
Qed.

Lemma front_byte u : uart_ok u -> is_byte (rq_front UART_TX_BUF_SIZE (uart_tx_buf u) (uart_tx_r u)).
Proof.
  intros [(Hd & _) Hb]. unfold rq_front. rewrite nth_lookup.
  destruct (uart_tx_buf u !! _) as [x|] eqn:E; simpl; [|done]. by eapply Forall_lookup_1.
Qed.

(** [uartstart] moves bytes from the buffer to the transmitter in order and
    never runs out of turns. *)
Lemma uartstart_loop_ok fuel u c :
  uart_ok u -> (length (tx_queue u) <= fuel)%nat ->
  exists u' tr, uartstart_loop fuel c u = Ok tt (woke tr c) u' /\ uart_ok u' /\
    sent u' ++ tx_queue u' = sent u ++ tx_queue u /\
    (length (tx_queue u') <= length (tx_queue u))%nat /\ panicked u' = panicked u /\ ud_in u' = ud_in u /\
    Forall (eq ChUartTxR) tr.
Proof.
  revert u c. induction fuel as [|fuel IH]; intros u c Hok Hf; cbn [uartstart_loop]; rewrite bind_get;
    rewrite Z.eqb_sym, (rq_empty (2 ^ 64) UART_TX_BUF_SIZE ltac:(done) ltac:(done) (uart_tx_buf u)) by apply Hok;
    fold (tx_queue u);
    (destruct (tx_queue u) as [|x q] eqn:Eq; [exists u, []; rewrite woke_nil; by rewrite Eq|]);
    [simpl in Hf; lia|].
  cbn [length]. bfalse (Z.of_nat (S (length q)) =? 0).
  destruct (read_lsr_idle u) as (rx & Hrx & Hlsr). erewrite bind_ok by apply Hlsr. rewrite land_lsr by done.
  set (u1 := mkUart _ _ _ _ _ (tail _) _).
  destruct (match ud_idle u with [] => true | b :: _ => b end); cbn [negb].
  2:{ exists u1, []. rewrite woke_nil. change (tx_queue u1) with (tx_queue u). rewrite Eq. done. }
  rewrite bind_get. rewrite bind_put.
  destruct (rq_pop (2 ^ 64) UART_TX_BUF_SIZE ltac:(done) ltac:(done) tx_div (uart_tx_buf u) (uart_tx_r u) (uart_tx_w u) x q)
    as (Hok' & Hx & Hq'); [apply Hok|exact Eq|].
  pose proof (front_byte u Hok) as Hby. unfold wakeup. rewrite bind_modifyc.
  unfold WriteReg. rewrite bind_modify. cbn [uart_tx_buf uart_tx_w uart_tx_r panicked ud_in ud_idle ud_out u1].
  match goal with |- context [uartstart_loop fuel _ ?u2] => set (u2' := u2) end.
  destruct (IH u2' (add_woken ChUartTxR c)) as (u' & tr & Hr & Hok2 & Hsum & Hlen & Hpan & Hin & Htr).
  { split; [exact Hok'|apply Hok]. }
  { change (tx_queue u2') with (rq (2 ^ 64) UART_TX_BUF_SIZE (uart_tx_buf u) (u64 (uart_tx_r u + 1)) (uart_tx_w u)).
    unfold u64. rewrite Hq'. simpl in Hf. lia. }
  exists u', (ChUartTxR :: tr). rewrite Hr, add_woken_woke, woke_woke.
  assert (Hq2 : tx_queue u2' = q) by exact Hq'. rewrite Hq2 in *. split; [done|]. split; [done|].
  split; [|split; [simpl; lia|split_and!; [done|done|by constructor]]].
  rewrite Hsum. unfold sent. cbn [ud_out u2']. rewrite filter_app, fmap_app. cbn.
  fold (rq_front UART_TX_BUF_SIZE (uart_tx_buf u) (uart_tx_r u)). rewrite Hx in *.
  rewrite u8_small by done. by rewrite <- app_assoc.
Qed.

(** Bytes given to [uartputc] reach the transmitter in order, without loss or
    duplication: what has been sent followed by what waits in the buffer grows
    by the byte at its end.  The caller sleeps exactly when the buffer is full. *)
Theorem uartputc_fifo c u ch :
  core_wf c -> lock_free LkUartTx c -> uart_ok u -> panicked u = 0 ->
  (Z.of_nat (length (tx_queue u)) = UART_TX_BUF_SIZE /\ uartputc ch c u = Blocked ChUartTxR c u) \/
  (exists u' tr, uartputc ch c u = Ok tt (woke tr c) u' /\ uart_ok u' /\
     sent u' ++ tx_queue u' = sent u ++ tx_queue u ++ [u8 ch]).
Proof.
  intros Hwf Hf Hok Hp. unfold uartputc. erewrite bind_ok by by apply acquire_free. rewrite bind_get, Hp.
  change (negb (0 =? 0)) with false. cbv iota. unfold uartputc_loop. rewrite bind_get.
  assert ((uart_tx_w u =? u64 (uart_tx_r u + UART_TX_BUF_SIZE)) = (Z.of_nat (length (tx_queue u)) =? UART_TX_BUF_SIZE))
    as -> by (apply (rq_full (2 ^ 64) UART_TX_BUF_SIZE); [done|done|apply Hok]).
  destruct (Z.eqb_spec (Z.of_nat (length (tx_queue u))) UART_TX_BUF_SIZE) as [E|E].
  { left. split; [done|]. by apply sleep_hold. }
  right. rewrite bind_put.
  destruct (rq_push (2 ^ 64) UART_TX_BUF_SIZE ltac:(done) ltac:(done) tx_div (uart_tx_buf u) (uart_tx_r u) (uart_tx_w u) (u8 ch))
    as [Hok' Hq']; [apply Hok|exact E|].
  match goal with |- context [(uartstart ≫= _) _ ?u2] => set (u2' := u2) end.
  assert (uart_ok u2') as Hok2 by (split; [exact Hok'|apply Forall_insert; [apply Hok|apply u8_range]]).
  destruct (uartstart_loop_ok (Z.to_nat UART_TX_BUF_SIZE) u2' (hold LkUartTx c)) as (u' & tr & Hr & Hok3 & Hsum & _ & _ & _ & _);
    [done|pose proof (rq_le (2 ^ 64) UART_TX_BUF_SIZE ltac:(done) _ _ _ (proj1 Hok2)); unfold tx_queue; lia|].
  exists u', tr. erewrite bind_ok by exact Hr. rewrite hold_woke, release_hold by done.
  split; [done|]. split; [done|]. rewrite Hsum. f_equal. exact Hq'.
Qed.

(** The transmitter is ready for one byte and then busy: a byte waits in the
    buffer when the next one is written. *)
Definition ex_ucore : core := mkCore 0 SSTATUS_SIE 0 1 None {[ LkUartTx := mkSpinlock 0 "uart" None ]} [] ∅.
Definition ex_uart : uart := mkUart (<[31%nat := 65]> (repeat 0 32)) 0 (2 ^ 64 - 1) 0 [] [true; false] [].

Lemma uartputc_fifo_witness : exists u' tr, uartputc 66 ex_ucore ex_uart = Ok tt (woke tr ex_ucore) u' /\
  sent u' ++ tx_queue u' = [65; 66].
Proof.
  destruct (uartputc_fifo ex_ucore ex_uart 66) as [[H _]|(u' & tr & Hr & _ & Hs)].
  - split_and!; done.
  - by exists "uart".
  - split; [by split_and!|apply (bool_decide_unpack _); vm_compute; exact I].
  - reflexivity.
  - exfalso. revert H. vm_compute. discriminate.
  - exists u', tr. split; [exact Hr|]. rewrite Hs. vm_compute. reflexivity.
Defined.
