(* ===== verification/Virtio.v ===== *)
(** * The disk driver: kernel/virtio_disk.c

    The driver and the device share descriptors and two rings.  Addresses
    that the driver gives to the device are named by what they point to.
    The state holds the driver's variables, the shared memory, the fields of
    the buffers that the driver uses, the values of the device's registers
    ([vd_reg]) and the register writes.  [virtio_disk_rw] is split where it
    sleeps.  What the device does is in VirtioSpec.v. *)

From Stdlib Require Import ZArith Lia.
From stdpp Require Import base gmap list numbers strings.
From S2P Require Import Prelude Riscv Core Spinlock Sleeplock Bio.
Local Open Scope Z_scope.

(** ** virtio.h *)

Definition VIRTIO_MMIO_MAGIC_VALUE : Z := 0x000.
Definition VIRTIO_MMIO_VERSION : Z := 0x004.
Definition VIRTIO_MMIO_DEVICE_ID : Z := 0x008.
Definition VIRTIO_MMIO_VENDOR_ID : Z := 0x00c.
Definition VIRTIO_MMIO_DEVICE_FEATURES : Z := 0x010.
Definition VIRTIO_MMIO_DRIVER_FEATURES : Z := 0x020.
Definition VIRTIO_MMIO_GUEST_PAGE_SIZE : Z := 0x028.
Definition VIRTIO_MMIO_QUEUE_SEL : Z := 0x030.
Definition VIRTIO_MMIO_QUEUE_NUM_MAX : Z := 0x034.
Definition VIRTIO_MMIO_QUEUE_NUM : Z := 0x038.
Definition VIRTIO_MMIO_QUEUE_PFN : Z := 0x040.
Definition VIRTIO_MMIO_QUEUE_NOTIFY : Z := 0x050.
Definition VIRTIO_MMIO_INTERRUPT_STATUS : Z := 0x060.
Definition VIRTIO_MMIO_INTERRUPT_ACK : Z := 0x064.
Definition VIRTIO_MMIO_STATUS : Z := 0x070.
Definition VIRTIO_CONFIG_S_ACKNOWLEDGE : Z := 1.
Definition VIRTIO_CONFIG_S_DRIVER : Z := 2.
Definition VIRTIO_CONFIG_S_DRIVER_OK : Z := 4.
Definition VIRTIO_CONFIG_S_FEATURES_OK : Z := 8.
Definition VIRTIO_BLK_F_RO : Z := 5.
Definition VIRTIO_BLK_F_SCSI : Z := 7.
Definition VIRTIO_BLK_F_CONFIG_WCE : Z := 11.
Definition VIRTIO_BLK_F_MQ : Z := 12.
Definition VIRTIO_F_ANY_LAYOUT : Z := 27.
Definition VIRTIO_RING_F_INDIRECT_DESC : Z := 28.
Definition VIRTIO_RING_F_EVENT_IDX : Z := 29.
Definition NUM : Z := 8.
Definition VRING_DESC_F_NEXT : Z := 1.
Definition VRING_DESC_F_WRITE : Z := 2.
Definition VIRTIO_BLK_T_IN : Z := 0.
Definition VIRTIO_BLK_T_OUT : Z := 1.

(** What a descriptor's address refers to. *)
Inductive vaddr : Type :=
| VNull
| VOp (i : Z)             (* &disk.ops[i] *)
| VData (b : nat)         (* b->data *)
| VStatus (i : Z).        (* &disk.info[i].status *)

(** struct virtq_desc *)
Record virtq_desc : Type := mkDesc { ds_addr : vaddr; ds_len : Z; ds_flags : Z; ds_next : Z }.
(** struct virtio_blk_req *)
Record virtio_blk_req : Type := mkReq { rq_type : Z; rq_reserved : Z; rq_sector : Z }.

(** The fields of [struct buf] that the driver uses. *)
Record vbuf : Type := mkVbuf { vb_blockno : Z; vb_data : list Z; vb_disk : Z }.

(** struct disk, with the rings it points to. *)
Record vdisk : Type := mkVdisk {
  vd_desc : list virtq_desc;
  vd_avail_idx : Z;
  vd_avail_ring : list Z;
  vd_used_dev : Z;             (* used->idx, written by the device *)
  vd_used_ring : list Z;       (* used->ring[].id *)
  vd_free : list Z;            (* is a descriptor free? *)
  vd_used_idx : Z;             (* we've looked this far in used *)
  vd_info_b : list (option nat);
  vd_info_status : list Z;
  vd_ops : list virtio_blk_req;
  vd_bufs : gmap nat vbuf;
  vd_reg : Z -> Z;             (* device: the registers as they read *)
  vd_out : list (Z * Z)        (* device: register writes, oldest first *)
}.

Definition set_vd_desc (x : list virtq_desc) (s : vdisk) : vdisk :=
  mkVdisk x (vd_avail_idx s) (vd_avail_ring s) (vd_used_dev s) (vd_used_ring s) (vd_free s) (vd_used_idx s) (vd_info_b s) (vd_info_status s) (vd_ops s) (vd_bufs s) (vd_reg s) (vd_out s).
Definition set_vd_avail_idx (x : Z) (s : vdisk) : vdisk :=
  mkVdisk (vd_desc s) x (vd_avail_ring s) (vd_used_dev s) (vd_used_ring s) (vd_free s) (vd_used_idx s) (vd_info_b s) (vd_info_status s) (vd_ops s) (vd_bufs s) (vd_reg s) (vd_out s).
Definition set_vd_avail_ring (x : list Z) (s : vdisk) : vdisk :=
  mkVdisk (vd_desc s) (vd_avail_idx s) x (vd_used_dev s) (vd_used_ring s) (vd_free s) (vd_used_idx s) (vd_info_b s) (vd_info_status s) (vd_ops s) (vd_bufs s) (vd_reg s) (vd_out s).
Definition set_vd_used_dev (x : Z) (s : vdisk) : vdisk :=
  mkVdisk (vd_desc s) (vd_avail_idx s) (vd_avail_ring s) x (vd_used_ring s) (vd_free s) (vd_used_idx s) (vd_info_b s) (vd_info_status s) (vd_ops s) (vd_bufs s) (vd_reg s) (vd_out s).
Definition set_vd_used_ring (x : list Z) (s : vdisk) : vdisk :=
  mkVdisk (vd_desc s) (vd_avail_idx s) (vd_avail_ring s) (vd_used_dev s) x (vd_free s) (vd_used_idx s) (vd_info_b s) (vd_info_status s) (vd_ops s) (vd_bufs s) (vd_reg s) (vd_out s).
Definition set_vd_free (x : list Z) (s : vdisk) : vdisk :=
  mkVdisk (vd_desc s) (vd_avail_idx s) (vd_avail_ring s) (vd_used_dev s) (vd_used_ring s) x (vd_used_idx s) (vd_info_b s) (vd_info_status s) (vd_ops s) (vd_bufs s) (vd_reg s) (vd_out s).
Definition set_vd_used_idx (x : Z) (s : vdisk) : vdisk :=
  mkVdisk (vd_desc s) (vd_avail_idx s) (vd_avail_ring s) (vd_used_dev s) (vd_used_ring s) (vd_free s) x (vd_info_b s) (vd_info_status s) (vd_ops s) (vd_bufs s) (vd_reg s) (vd_out s).
Definition set_vd_info_b (x : list (option nat)) (s : vdisk) : vdisk :=
  mkVdisk (vd_desc s) (vd_avail_idx s) (vd_avail_ring s) (vd_used_dev s) (vd_used_ring s) (vd_free s) (vd_used_idx s) x (vd_info_status s) (vd_ops s) (vd_bufs s) (vd_reg s) (vd_out s).
Definition set_vd_info_status (x : list Z) (s : vdisk) : vdisk :=
  mkVdisk (vd_desc s) (vd_avail_idx s) (vd_avail_ring s) (vd_used_dev s) (vd_used_ring s) (vd_free s) (vd_used_idx s) (vd_info_b s) x (vd_ops s) (vd_bufs s) (vd_reg s) (vd_out s).
Definition set_vd_ops (x : list virtio_blk_req) (s : vdisk) : vdisk :=
  mkVdisk (vd_desc s) (vd_avail_idx s) (vd_avail_ring s) (vd_used_dev s) (vd_used_ring s) (vd_free s) (vd_used_idx s) (vd_info_b s) (vd_info_status s) x (vd_bufs s) (vd_reg s) (vd_out s).
Definition set_vd_bufs (x : gmap nat vbuf) (s : vdisk) : vdisk :=
  mkVdisk (vd_desc s) (vd_avail_idx s) (vd_avail_ring s) (vd_used_dev s) (vd_used_ring s) (vd_free s) (vd_used_idx s) (vd_info_b s) (vd_info_status s) (vd_ops s) x (vd_reg s) (vd_out s).
Definition set_vd_out (x : list (Z * Z)) (s : vdisk) : vdisk :=
  mkVdisk (vd_desc s) (vd_avail_idx s) (vd_avail_ring s) (vd_used_dev s) (vd_used_ring s) (vd_free s) (vd_used_idx s) (vd_info_b s) (vd_info_status s) (vd_ops s) (vd_bufs s) (vd_reg s) x.

Definition desc0 : virtq_desc := mkDesc VNull 0 0 0.
Definition get_desc (i : Z) (s : vdisk) : virtq_desc := nth (Z.to_nat i) (vd_desc s) desc0.
Definition put_desc (i : Z) (d : virtq_desc) (s : vdisk) : vdisk := set_vd_desc (<[Z.to_nat i := d]> (vd_desc s)) s.
Definition put_free (i v : Z) (s : vdisk) : vdisk := set_vd_free (<[Z.to_nat i := v]> (vd_free s)) s.
Definition free_at (i : Z) (s : vdisk) : Z := nth (Z.to_nat i) (vd_free s) 0.
Definition vbuf0 : vbuf := mkVbuf 0 [] 0.
Definition get_vbuf (b : nat) (s : vdisk) : vbuf := default vbuf0 (vd_bufs s !! b).
Definition put_vbuf (b : nat) (x : vbuf) (s : vdisk) : vdisk := set_vd_bufs (<[b := x]> (vd_bufs s)) s.
Definition set_disk_flag (v : Z) (x : vbuf) : vbuf := mkVbuf (vb_blockno x) (vb_data x) v.
Definition set_data (v : list Z) (x : vbuf) : vbuf := mkVbuf (vb_blockno x) v (vb_disk x).

Definition Rd (r : Z) : M vdisk Z := gets (fun s => vd_reg s r).
Definition Wr (r v : Z) : M vdisk unit := modify (fun s => set_vd_out (vd_out s ++ [(r, u32 v)]) s).

(** ** Operations *)

Definition clear_feature (features bit : Z) : Z := Z.land features (Z.lnot (Z.shiftl 1 bit)).

(** [pages] is the address of disk.pages. *)
Definition virtio_disk_init (pages : Z) : M vdisk unit :=
  _ ← initlock LkVdisk "virtio_disk";
  magic ← Rd VIRTIO_MMIO_MAGIC_VALUE;
  version ← Rd VIRTIO_MMIO_VERSION;
  device ← Rd VIRTIO_MMIO_DEVICE_ID;
  vendor ← Rd VIRTIO_MMIO_VENDOR_ID;
  if negb (magic =? 0x74726976) || negb (version =? 1) || negb (device =? 2) || negb (vendor =? 0x554d4551)
  then panic "could not find virtio disk" else
  let status := VIRTIO_CONFIG_S_ACKNOWLEDGE in
  _ ← Wr VIRTIO_MMIO_STATUS status;
  let status := Z.lor status VIRTIO_CONFIG_S_DRIVER in
  _ ← Wr VIRTIO_MMIO_STATUS status;
  features ← Rd VIRTIO_MMIO_DEVICE_FEATURES;
  let features := clear_feature features VIRTIO_BLK_F_RO in
  let features := clear_feature features VIRTIO_BLK_F_SCSI in
  let features := clear_feature features VIRTIO_BLK_F_CONFIG_WCE in
  let features := clear_feature features VIRTIO_BLK_F_MQ in
  let features := clear_feature features VIRTIO_F_ANY_LAYOUT in
  let features := clear_feature features VIRTIO_RING_F_EVENT_IDX in
  let features := clear_feature features VIRTIO_RING_F_INDIRECT_DESC in
  _ ← Wr VIRTIO_MMIO_DRIVER_FEATURES features;
  let status := Z.lor status VIRTIO_CONFIG_S_FEATURES_OK in
  _ ← Wr VIRTIO_MMIO_STATUS status;
  let status := Z.lor status VIRTIO_CONFIG_S_DRIVER_OK in
  _ ← Wr VIRTIO_MMIO_STATUS status;
  _ ← Wr VIRTIO_MMIO_GUEST_PAGE_SIZE PGSIZE;
  _ ← Wr VIRTIO_MMIO_QUEUE_SEL 0;
  max ← Rd VIRTIO_MMIO_QUEUE_NUM_MAX;
  if max =? 0 then panic "virtio disk has no queue 0" else
  if max <? NUM then panic "virtio disk max queue too short" else
  _ ← Wr VIRTIO_MMIO_QUEUE_NUM NUM;
  (* memset(disk.pages, 0, sizeof(disk.pages)) *)
  _ ← modify (fun s => set_vd_desc (repeat desc0 8) (set_vd_avail_idx 0 (set_vd_avail_ring (repeat 0 8)
         (set_vd_used_dev 0 (set_vd_used_ring (repeat 0 8) s)))));
  _ ← Wr VIRTIO_MMIO_QUEUE_PFN (Z.shiftr pages PGSHIFT);
  forM (seqZ 0 NUM) (fun i => modify (put_free i 1)).

Fixpoint alloc_scan (l : list Z) (i : Z) : Z :=
  match l with
  | [] => -1
  | f :: l => if negb (f =? 0) then i else alloc_scan l (i + 1)
  end.

Definition alloc_desc : M vdisk Z :=
  s ← get;
  let i := alloc_scan (vd_free s) 0 in
  if i <? 0 then mret (-1) else _ ← modify (put_free i 0); mret i.

Definition free_desc (i : Z) : M vdisk unit :=
  if NUM <=? i then panic "free_desc 1" else
  s ← get;
  if negb (free_at i s =? 0) then panic "free_desc 2" else
  _ ← modify (put_desc i desc0);
  _ ← modify (put_free i 1);
  wakeup ChVdiskFree.

(** A chain has at most NUM descriptors. *)
Fixpoint free_chain_loop (i : Z) (fuel : nat) : M vdisk unit :=
  match fuel with
  | O => nofuel
  | S fuel =>
      s ← get;
      let flag := ds_flags (get_desc i s) in
      let nxt := ds_next (get_desc i s) in
      _ ← free_desc i;
      if negb (Z.land flag VRING_DESC_F_NEXT =? 0) then free_chain_loop nxt fuel else mret tt
  end.
Definition free_chain (i : Z) : M vdisk unit := free_chain_loop i (Z.to_nat NUM).

(** [None] is -1. *)
Definition alloc3_desc : M vdisk (option (Z * Z * Z)) :=
  i0 ← alloc_desc;
  if i0 <? 0 then mret None else
  i1 ← alloc_desc;
  if i1 <? 0 then _ ← free_desc i0; mret None else
  i2 ← alloc_desc;
  if i2 <? 0 then _ ← free_desc i0; _ ← free_desc i1; mret None else
  mret (Some (i0, i1, i2)).

(** Formatting the three descriptors. *)
Definition format_req (b : nat) (write : bool) (sector i0 i1 i2 : Z) (s : vdisk) : vdisk :=
  let s := set_vd_ops (<[Z.to_nat i0 := mkReq (if write then VIRTIO_BLK_T_OUT else VIRTIO_BLK_T_IN) 0 sector]> (vd_ops s)) s in
  let s := put_desc i0 (mkDesc (VOp i0) 16 VRING_DESC_F_NEXT i1) s in
  let s := put_desc i1 (mkDesc (VData b) BSIZE (Z.lor (if write then 0 else VRING_DESC_F_WRITE) VRING_DESC_F_NEXT) i2) s in
  let s := set_vd_info_status (<[Z.to_nat i0 := 0xff]> (vd_info_status s)) s in
  put_desc i2 (mkDesc (VStatus i0) 1 VRING_DESC_F_WRITE 0) s.

(** [virtio_disk_rw] from the call, or from waking up while waiting for
    descriptors, to the first sleep on the buffer: the head of the chain. *)
Definition virtio_disk_submit (b : nat) (write : bool) : M vdisk Z :=
  _ ← acquire LkVdisk;
  x ← gets (get_vbuf b);
  let sector := u32 (vb_blockno x * (BSIZE / 512)) in
  r ← alloc3_desc;
  match r with
  | None => sleep ChVdiskFree LkVdisk
  | Some (i0, i1, i2) =>
      _ ← modify (format_req b write sector i0 i1 i2);
      _ ← modify (put_vbuf b (set_disk_flag 1 x));
      _ ← modify (fun s => set_vd_info_b (<[Z.to_nat i0 := Some b]> (vd_info_b s)) s);
      _ ← modify (fun s => set_vd_avail_ring (<[Z.to_nat (vd_avail_idx s mod NUM) := i0]> (vd_avail_ring s)) s);
      _ ← modify (fun s => set_vd_avail_idx (u16 (vd_avail_idx s + 1)) s);
      _ ← Wr VIRTIO_MMIO_QUEUE_NOTIFY 0;
      mret i0
  end.

(** The loop that waits for the request with head [i0], with the lock held:
    from the test of [b->disk] to the return. *)
Definition virtio_disk_wait (b : nat) (i0 : Z) : M vdisk unit :=
  x ← gets (get_vbuf b);
  if vb_disk x =? 1 then sleep (ChBuf b) LkVdisk else
  _ ← modify (fun s => set_vd_info_b (<[Z.to_nat i0 := None]> (vd_info_b s)) s);
  _ ← free_chain i0;
  release LkVdisk.

Definition virtio_rw (b : nat) (write : bool) : M vdisk unit :=
  i0 ← virtio_disk_submit b write;
  virtio_disk_wait b i0.

Fixpoint intr_loop (fuel : nat) : M vdisk unit :=
  s ← get;
  if negb (vd_used_idx s =? vd_used_dev s) then
    match fuel with
    | O => nofuel
    | S fuel =>
        let id := nth (Z.to_nat (vd_used_idx s mod NUM)) (vd_used_ring s) 0 in
        if negb (nth (Z.to_nat id) (vd_info_status s) 0 =? 0) then panic "virtio_disk_intr status" else
        match nth (Z.to_nat id) (vd_info_b s) None with
        | None => fault "virtio_disk_intr: null buf"
        | Some b =>
            _ ← modify (fun s => put_vbuf b (set_disk_flag 0 (get_vbuf b s)) s);
            _ ← wakeup (ChBuf b);
            _ ← modify (fun s => set_vd_used_idx (u16 (vd_used_idx s + 1)) s);
            intr_loop fuel
        end
    end
  else mret tt.

Definition virtio_disk_intr : M vdisk unit :=
  _ ← acquire LkVdisk;
  st ← Rd VIRTIO_MMIO_INTERRUPT_STATUS;
  _ ← Wr VIRTIO_MMIO_INTERRUPT_ACK (Z.land st 3);
  _ ← intr_loop (Z.to_nat (2 ^ 16));
  release LkVdisk.
