(* ===== verification/VirtioSpec.v ===== *)
(** * Disk requests: correctness of kernel/virtio_disk.c with its device

    Processes submit requests, the device takes them from the ring and
    completes them in any order, interrupts report completions and processes
    find their request done, in any interleaving ([step]).  What the device
    does is not in the sources: [device_fetch] and [device_complete] are the
    part of the virtio specification (legacy block device) that the driver
    relies on.  The requests in progress are recorded next to the state of
    the driver; a request takes effect on the disk when the device completes
    it.  [inv] relates the record to the descriptors and rings. *)

From Stdlib Require Import ZArith Lia.
From stdpp Require Import base gmap list numbers strings relations.
From S2P Require Import Prelude Riscv Core Spinlock Wp Sleeplock Bio Virtio.
Local Open Scope Z_scope.

(** ** The device *)

Record device : Type := mkDevice {
  dv_seen : Z;              (* how far it has looked in the avail ring *)
  dv_work : list Z;         (* the heads of the chains it works on *)
  dv_disk : disk
}.

(** It takes the next chain of the avail ring. *)
Definition device_fetch (s : vdisk) (v : device) : option device :=
  if dv_seen v =? vd_avail_idx s then None
  else Some (mkDevice (u16 (dv_seen v + 1)) (dv_work v ++ [nth (Z.to_nat (dv_seen v mod NUM)) (vd_avail_ring s) 0]) (dv_disk v)).

(** The chain of descriptors that starts at [h]: the flag NEXT continues it. *)
Definition has_flag (d : virtq_desc) (f : Z) : bool := negb (Z.land (ds_flags d) f =? 0).
Fixpoint desc_chain (h : Z) (s : vdisk) (fuel : nat) : list virtq_desc :=
  match fuel with
  | O => []
  | S fuel =>
      let d := get_desc h s in
      d :: (if has_flag d VRING_DESC_F_NEXT then desc_chain (ds_next d) s fuel else [])
  end.

(** A block request: 16 bytes for the device to read, the data, which the
    device reads or writes according to the type, and one byte for the device
    to write.  The flag WRITE tells which; the data is whole sectors.  The
    model has requests within one block, which the device treats as a unit. *)
Definition well_formed (d0 d1 d2 : virtq_desc) (rq : virtio_blk_req) : bool :=
  (ds_len d0 =? 16) && negb (has_flag d0 VRING_DESC_F_WRITE) &&
  (ds_len d2 =? 1) && has_flag d2 VRING_DESC_F_WRITE &&
  (if has_flag d1 VRING_DESC_F_WRITE then rq_type rq =? VIRTIO_BLK_T_IN else rq_type rq =? VIRTIO_BLK_T_OUT) &&
  (ds_len d1 mod 512 =? 0) && (0 <=? ds_len d1) && (rq_sector rq mod 2 * 512 + ds_len d1 <=? BSIZE).

(** It completes the chain with head [h]: it carries out the request, moving
    as many bytes as the descriptor of the data says, writes the status and
    puts the head into the used ring.  A chain that is not a request has no
    defined effect. *)
Definition device_complete (h : Z) (s : vdisk) (v : device) : option (vdisk * device) :=
  match desc_chain h s (Z.to_nat NUM) with
  | [d0; d1; d2] =>
      match ds_addr d0, ds_addr d1, ds_addr d2 with
      | VOp o, VData b, VStatus i =>
          let rq := nth (Z.to_nat o) (vd_ops s) (mkReq 0 0 0) in
          if well_formed d0 d1 d2 rq then
            let blk := rq_sector rq / 2 in
            let off := Z.to_nat (rq_sector rq mod 2 * 512) in
            let n := Z.to_nat (ds_len d1) in
            let old := disk_read (dv_disk v) blk in
            let data := vb_data (get_vbuf b s) in
            let '(s, d) := if rq_type rq =? VIRTIO_BLK_T_OUT
                           then (s, disk_write (dv_disk v) blk (take off old ++ take n data ++ drop (off + n) old))
                           else (put_vbuf b (set_data (take n (drop off old) ++ drop n data) (get_vbuf b s)) s, dv_disk v) in
            let s := set_vd_info_status (<[Z.to_nat i := 0]> (vd_info_status s)) s in
            let s := set_vd_used_ring (<[Z.to_nat (vd_used_dev s mod NUM) := h]> (vd_used_ring s)) s in
            let s := set_vd_used_dev (u16 (vd_used_dev s + 1)) s in
            Some (s, mkDevice (dv_seen v) (filter (fun x => x <> h) (dv_work v)) d)
          else None
      | _, _, _ => None
      end
  | _ => None
  end.

(** ** Requests *)

Inductive phase : Type := Pending | Completed | Seen.
#[export] Instance phase_eq_dec : EqDecision phase.
Proof. solve_decision. Defined.

(** [q_data]: what is written, or what was read. *)
Record request : Type := mkRq {
  q_b : nat; q_write : bool; q_blk : Z;
  q_i0 : Z; q_i1 : Z; q_i2 : Z;
  q_phase : phase; q_data : list Z
}.
#[export] Instance request_eq_dec : EqDecision request.
Proof. solve_decision. Defined.
Definition idxs (r : request) : list Z := [q_i0 r; q_i1 r; q_i2 r].
Definition set_q (p : phase) (l : list Z) (r : request) : request :=
  mkRq (q_b r) (q_write r) (q_blk r) (q_i0 r) (q_i1 r) (q_i2 r) p l.

Record sys : Type := mkSys { y_s : vdisk; y_dev : device; y_reqs : list request }.

(** What completing a request does to the disk, and what it returns. *)
Definition effect (r : request) (d : disk) : disk := if q_write r then disk_write d (q_blk r) (q_data r) else d.
Definition result (r : request) (d : disk) : list Z := if q_write r then q_data r else disk_read d (q_blk r).

Definition idle (y : sys) (b : nat) : Prop := forall r, r ∈ y_reqs y -> q_b r <> b.

(** The request that a submission with head [i0] makes. *)
Definition submitted (b : nat) (w : bool) (i0 : Z) (s s' : vdisk) : request :=
  mkRq b w (vb_blockno (get_vbuf b s)) i0 (ds_next (get_desc i0 s')) (ds_next (get_desc (ds_next (get_desc i0 s')) s')) Pending
    (vb_data (get_vbuf b s)).

(** A buffer holds a block; so does every place of the disk. *)
Definition vb_ok (x : vbuf) : Prop := 0 <= vb_blockno x < 2 ^ 31 /\ length (vb_data x) = Z.to_nat BSIZE.
Definition disk_ok (d : disk) : Prop := forall b, length (disk_read d b) = Z.to_nat BSIZE.

Definition good (c : core) : Prop := core_wf c /\ lock_free LkVdisk c.

(** The device's completion as recorded: the requests with head [h] take
    effect. *)
Definition complete (h : Z) (d : disk) (r : request) : request :=
  if q_i0 r =? h then set_q Completed (result r d) r else r.
Definition see (r : request) : request :=
  match q_phase r with Completed => set_q Seen (q_data r) r | _ => r end.

Inductive step (y : sys) : sys -> Prop :=
| step_store b l blk :        (* a process changes a buffer that no request uses *)
    idle y b -> vb_ok (mkVbuf blk l 0) ->
    step y (mkSys (put_vbuf b (mkVbuf blk l 0) (y_s y)) (y_dev y) (y_reqs y))
| step_submit c b w i0 c' s' : (* virtio_disk_rw up to its first sleep on the buffer *)
    good c -> idle y b -> is_Some (vd_bufs (y_s y) !! b) -> virtio_disk_submit b w c (y_s y) = Ok i0 c' s' ->
    step y (mkSys s' (y_dev y) (submitted b w i0 (y_s y) s' :: y_reqs y))
| step_full c b w c' s' :     (* it finds no descriptors and sleeps *)
    good c -> idle y b -> is_Some (vd_bufs (y_s y) !! b) -> virtio_disk_submit b w c (y_s y) = Blocked ChVdiskFree c' s' ->
    step y (mkSys s' (y_dev y) (y_reqs y))
| step_fetch v' :
    device_fetch (y_s y) (y_dev y) = Some v' -> step y (mkSys (y_s y) v' (y_reqs y))
| step_complete h s' v' :
    h ∈ dv_work (y_dev y) -> device_complete h (y_s y) (y_dev y) = Some (s', v') ->
    step y (mkSys s' v' (complete h (dv_disk (y_dev y)) <$> y_reqs y))
| step_intr c c' s' :
    good c -> virtio_disk_intr c (y_s y) = Ok tt c' s' -> step y (mkSys s' (y_dev y) (see <$> y_reqs y))
| step_return c c' s' rs1 r rs2 : (* the process finds its request done and returns *)
    good c -> y_reqs y = rs1 ++ r :: rs2 -> virtio_disk_wait (q_b r) (q_i0 r) (hold LkVdisk c) (y_s y) = Ok tt c' s' ->
    step y (mkSys s' (y_dev y) (rs1 ++ rs2)).

(** After virtio_disk_init; the buffers have no request. *)
Definition initial (y : sys) : Prop :=
  exists c s0 c' pages, virtio_disk_init pages c s0 = Ok tt c' (y_s y) /\
    length (vd_free s0) = 8%nat /\ length (vd_info_b s0) = 8%nat /\ length (vd_info_status s0) = 8%nat /\ length (vd_ops s0) = 8%nat /\
    vd_used_idx s0 = 0 /\ (forall b x, vd_bufs s0 !! b = Some x -> vb_ok x) /\ disk_ok (dv_disk (y_dev y)) /\
    dv_seen (y_dev y) = 0 /\ dv_work (y_dev y) = [] /\ y_reqs y = [].

(** ** The invariant *)

Lemma nth_insertZ {A} (l : list A) i j x d :
  0 <= i < Z.of_nat (length l) -> 0 <= j -> nth (Z.to_nat j) (<[Z.to_nat i := x]> l) d = if i =? j then x else nth (Z.to_nat j) l d.
Proof.
  intros Hi Hj. rewrite !nth_lookup. destruct (Z.eqb_spec i j) as [->|Hne].
  - rewrite list_lookup_insert_eq by lia. done.
  - by rewrite list_lookup_insert_ne by lia.
Qed.

Definition in8 (i : Z) : Prop := 0 <= i < 8.

Record shape (s : vdisk) : Prop := {
  sh_desc : length (vd_desc s) = 8%nat;
  sh_avail : length (vd_avail_ring s) = 8%nat;
  sh_used : length (vd_used_ring s) = 8%nat;
  sh_free : length (vd_free s) = 8%nat;
  sh_info_b : length (vd_info_b s) = 8%nat;
  sh_status : length (vd_info_status s) = 8%nat;
  sh_ops : length (vd_ops s) = 8%nat
}.

(** Exactly the descriptors [U] are in use. *)
Definition in_use (s : vdisk) (U : list Z) : Prop :=
  forall i, in8 i -> free_at i s = if decide (i ∈ U) then 0 else 1.

Lemma get_desc_put i j d s : shape s -> in8 i -> 0 <= j -> get_desc j (put_desc i d s) = if i =? j then d else get_desc j s.
Proof. intros [] Hi Hj. unfold get_desc, put_desc, in8 in *. cbn. apply nth_insertZ; lia. Qed.
Lemma free_at_put i j v s : shape s -> in8 i -> 0 <= j -> free_at j (put_free i v s) = if i =? j then v else free_at j s.
Proof. intros [] Hi Hj. unfold free_at, put_free, in8 in *. cbn. apply nth_insertZ; lia. Qed.

Lemma shape_put_desc i d s : shape s -> shape (put_desc i d s).
Proof. intros []. split; cbn; rewrite ?length_insert; done. Qed.
Lemma shape_put_free i v s : shape s -> shape (put_free i v s).
Proof. intros []. split; cbn; rewrite ?length_insert; done. Qed.

(** *** Descriptors *)

Lemma alloc_scan_spec l i :
  (alloc_scan l i = -1 /\ Forall (fun f => f = 0) l) \/
  exists k, alloc_scan l i = i + Z.of_nat k /\ exists f, l !! k = Some f /\ f <> 0.
Proof.
  revert i. induction l as [|f l IH]; intros i; [by left|]. cbn [alloc_scan].
  destruct (Z.eqb_spec f 0) as [->|Hf]; cbn [negb].
  - destruct (IH (i + 1)) as [[-> H]|(k & -> & H)]; [left; split; [done|by constructor]|right; exists (S k); split; [lia|done]].
  - right. exists 0%nat. split; [lia|]. by exists f.
Qed.

Lemma alloc_desc_ok c s U :
  shape s -> in_use s U ->
  ((forall i, in8 i -> i ∈ U) /\ alloc_desc c s = Ok (-1) c s) \/
  (exists i, in8 i /\ i ∉ U /\ alloc_desc c s = Ok i c (put_free i 0 s) /\ in_use (put_free i 0 s) (i :: U)).
Proof.
  intros Hs HU. unfold alloc_desc. mred. pose proof (sh_free _ Hs) as Hl.
  destruct (alloc_scan_spec (vd_free s) 0) as [[-> Hz]|(k & -> & f & Hk & Hf)].
  - left. split; [|done]. intros i Hi. specialize (HU i Hi). case_decide; [done|]. exfalso. unfold free_at in HU.
    rewrite Forall_forall in Hz. rewrite (Hz (nth (Z.to_nat i) (vd_free s) 0)) in HU; [lia|].
    apply list_elem_of_lookup. exists (Z.to_nat i). apply nth_Some. unfold in8 in Hi. lia.
  - right. pose proof (lookup_lt_Some _ _ _ Hk). exists (0 + Z.of_nat k). assert (in8 (0 + Z.of_nat k)) as Hi by (unfold in8; lia).
    bfalse (0 + Z.of_nat k <? 0). split_and!; [done| |done|].
    + pose proof (HU _ Hi) as Hu. unfold free_at in Hu. replace (Z.to_nat (0 + Z.of_nat k)) with k in Hu by lia.
      rewrite (nth_lookup_Some _ _ _ _ Hk) in Hu. by case_decide.
    + intros j Hj. rewrite free_at_put by (done || unfold in8 in *; lia). specialize (HU j Hj).
      destruct (Z.eqb_spec (0 + Z.of_nat k) j) as [<-|Hne]; [by rewrite decide_True by left|].
      rewrite HU. do 2 case_decide; try done; set_solver.
Qed.

Lemma free_desc_ok c s i U :
  shape s -> in8 i -> i ∉ U -> in_use s (i :: U) ->
  free_desc i c s = Ok tt (add_woken ChVdiskFree c) (put_free i 1 (put_desc i desc0 s)) /\
  in_use (put_free i 1 (put_desc i desc0 s)) U.
Proof.
  intros Hs Hi Hn HU. split.
  - unfold free_desc, NUM. unfold in8 in Hi. bfalse (8 <=? i). mred. rewrite (HU i Hi), decide_True by left. done.
  - intros j Hj. rewrite free_at_put by (try apply shape_put_desc; done || unfold in8 in *; lia). specialize (HU j Hj).
    destruct (Z.eqb_spec i j) as [<-|Hne]; [by rewrite decide_False|]. change (free_at j (put_desc i desc0 s)) with (free_at j s).
    rewrite HU. do 2 case_decide; try done; set_solver.
Qed.

(** Two states that differ in descriptors outside [U] and in free marks. *)
Record same_but (U : list Z) (s s' : vdisk) : Prop := {
  sb_desc : forall i, i ∈ U -> in8 i -> get_desc i s' = get_desc i s;
  sb_rest : s' = set_vd_desc (vd_desc s') (set_vd_free (vd_free s') s)
}.

Lemma same_but_refl U s : same_but U s s.
Proof. split; [done|by destruct s]. Qed.
Lemma same_but_trans U s s1 s2 : same_but U s s1 -> same_but U s1 s2 -> same_but U s s2.
Proof. intros [A1 A2] [B1 B2]. split; [intros i Hi H8; by rewrite B1, A1|]. rewrite B2, A2. by destruct s. Qed.
Lemma same_but_put_free U i v s : same_but U s (put_free i v s).
Proof. split; [done|by destruct s]. Qed.
Lemma same_but_put_desc U i d s : shape s -> in8 i -> i ∉ U -> same_but U s (put_desc i d s).
Proof.
  intros Hs H8 Hi. split; [|by destruct s]. intros j Hj Hj8. rewrite get_desc_put by (done || unfold in8 in *; lia).
  destruct (Z.eqb_spec i j); [by subst|done].
Qed.

Lemma free_desc_same c s i U :
  shape s -> in8 i -> i ∉ U -> in_use s (i :: U) ->
  exists s', free_desc i c s = Ok tt (add_woken ChVdiskFree c) s' /\ shape s' /\ in_use s' U /\ same_but U s s'.
Proof.
  intros Hs Hi Hn HU. destruct (free_desc_ok c s i U Hs Hi Hn HU) as [E H']. eexists. split; [exact E|]. split_and!; [|done|].
  - by apply shape_put_free, shape_put_desc.
  - eapply same_but_trans; [by apply same_but_put_desc|apply same_but_put_free].
Qed.

Lemma in_use_perm s U U' : (forall i, i ∈ U <-> i ∈ U') -> in_use s U -> in_use s U'.
Proof. intros Hp HU i Hi. rewrite (HU i Hi). specialize (Hp i). do 2 case_decide; tauto. Qed.

(** Fewer than three descriptors are free. *)
Definition crowded (U : list Z) : Prop := forall i j k, in8 i -> in8 j -> in8 k -> NoDup [i; j; k] -> i ∈ U \/ j ∈ U \/ k ∈ U.

Lemma crowded_le2 U a b : (forall i, in8 i -> i ∈ a :: b :: U) -> crowded U.
Proof.
  intros H i j k Hi Hj Hk Hnd. apply H in Hi, Hj, Hk. rewrite !elem_of_cons in *. rewrite !NoDup_cons, !elem_of_cons in Hnd.
  destruct Hnd as (Hi' & Hj' & _). destruct Hi as [->|[->|?]]; [| |by left]; (destruct Hj as [->|[->|?]]; [| |by right; left]);
    try tauto; (destruct Hk as [->|[->|?]]; [| |by right; right]); tauto.
Qed.

Lemma alloc3_ok c s U :
  shape s -> in_use s U ->
  (exists i0 i1 i2 s', alloc3_desc c s = Ok (Some (i0, i1, i2)) c s' /\ NoDup [i0; i1; i2] /\ Forall in8 [i0; i1; i2] /\
     (forall i, i ∈ [i0; i1; i2] -> i ∉ U) /\ shape s' /\ in_use s' ([i0; i1; i2] ++ U) /\ forall V, same_but V s s') \/
  (exists ws s', alloc3_desc c s = Ok None (woke ws c) s' /\ shape s' /\ in_use s' U /\ same_but U s s' /\ crowded U).
Proof.
  intros Hs HU. unfold alloc3_desc.
  destruct (alloc_desc_ok c s U Hs HU) as [[Hall E]|(i0 & H0 & N0 & E & HU0)].
  { right. exists [], s. rewrite woke_nil. erewrite bind_ok by exact E. split_and!; try done; [apply same_but_refl|].
    apply (crowded_le2 _ 0 0). intros i Hi. do 2 right. by apply Hall. }
  erewrite bind_ok by exact E. clear E. unfold in8 in H0. bfalse (i0 <? 0). apply (shape_put_free i0 0) in Hs as Hs0.
  set (s0 := put_free i0 0 s) in *.
  destruct (alloc_desc_ok c s0 (i0 :: U) Hs0 HU0) as [[Hall E]|(i1 & H1 & N1 & E & HU1)].
  { erewrite bind_ok by exact E. cbn [Z.ltb Z.compare]. destruct (free_desc_same c s0 i0 U) as (s' & E' & ? & ? & Hsb); try done.
    right. exists [ChVdiskFree], s'. erewrite bind_ok by exact E'. split_and!; try done.
    - eapply same_but_trans; [apply same_but_put_free|done].
    - apply (crowded_le2 _ 0 i0). intros i Hi. right. by apply Hall. }
  erewrite bind_ok by exact E. clear E. unfold in8 in H1. bfalse (i1 <? 0). apply (shape_put_free i1 0) in Hs0 as Hs1.
  set (s1 := put_free i1 0 s0) in *.
  destruct (alloc_desc_ok c s1 (i1 :: i0 :: U) Hs1 HU1) as [[Hall E]|(i2 & H2 & N2 & E & HU2)].
  { erewrite bind_ok by exact E. cbn [Z.ltb Z.compare].
    destruct (free_desc_same c s1 i0 (i1 :: U)) as (s2 & E1 & ? & ? & Hsb1); [done|done|set_solver|by eapply in_use_perm; [|done]; set_solver|].
    erewrite bind_ok by exact E1.
    destruct (free_desc_same (add_woken ChVdiskFree c) s2 i1 U) as (s3 & E2 & ? & ? & Hsb2); [done|done|set_solver|done|].
    right. exists [ChVdiskFree; ChVdiskFree], s3. erewrite bind_ok by exact E2. split_and!; try done.
    - unfold mret, M_ret. by rewrite !add_woken_woke, woke_woke.
    - eapply same_but_trans; [apply (same_but_put_free _ i0)|]. eapply same_but_trans; [apply (same_but_put_free _ i1)|].
      eapply same_but_trans; [|done]. destruct Hsb1 as [D1 D2]. split; [|done]. intros i Hi. apply D1. by right.
    - apply (crowded_le2 _ i1 i0). done. }
  erewrite bind_ok by exact E. clear E. unfold in8 in H2. bfalse (i2 <? 0). left.
  exists i0, i1, i2, (put_free i2 0 s1). split_and!; [done| | | | | |].
  - repeat (apply NoDup_cons; split; [set_solver|]). by apply NoDup_nil.
  - repeat constructor; unfold in8; lia.
  - set_solver.
  - by apply shape_put_free.
  - eapply in_use_perm; [|exact HU2]. set_solver.
  - intros V. eapply same_but_trans; [apply (same_but_put_free _ i0)|]. eapply same_but_trans; [apply (same_but_put_free _ i1)|apply same_but_put_free].
Qed.

(** *** The rings *)

(** The entries of the ring from the index [from] on. *)
Definition ring_seg (R : list Z) (from : Z) (l : list Z) : Prop :=
  forall k h, l !! k = Some h -> nth (Z.to_nat ((from + Z.of_nat k) mod 8)) R 0 = h.

Lemma mod8_u16 x : u16 x mod 8 = x mod 8.
Proof.
  unfold u16. rewrite <- (Znumtheory.Zmod_div_mod 8 (2 ^ 16) x); [done|lia|lia|]. by exists 8192.
Qed.

Lemma ring_seg_cons R from h l : ring_seg R from (h :: l) -> nth (Z.to_nat (from mod 8)) R 0 = h /\ ring_seg R (u16 (from + 1)) l.
Proof.
  intros H. split.
  - specialize (H 0%nat h eq_refl). by rewrite Z.add_0_r in H.
  - intros k x Hk. specialize (H (S k) x Hk). rewrite <- H. do 2 f_equal.
    rewrite <- Zplus_mod_idemp_l, mod8_u16, Zplus_mod_idemp_l. f_equal. lia.
Qed.

Lemma ring_seg_snoc R from l x :
  length R = 8%nat -> (length l < 8)%nat -> ring_seg R from l ->
  ring_seg (<[Z.to_nat ((from + Z.of_nat (length l)) mod 8) := x]> R) from (l ++ [x]).
Proof.
  intros HR Hl H k h Hk. pose proof (Z.mod_pos_bound (from + Z.of_nat (length l)) 8). pose proof (Z.mod_pos_bound (from + Z.of_nat k) 8).
  rewrite nth_insertZ by lia. apply lookup_app_Some in Hk as [Hk|[Hk1 Hk2]].
  - pose proof (lookup_lt_Some _ _ _ Hk) as Hlt. destruct (Z.eqb_spec ((from + Z.of_nat (length l)) mod 8) ((from + Z.of_nat k) mod 8)) as [E|E]; [|by apply H].
    exfalso. assert ((Z.of_nat (length l) - Z.of_nat k) mod 8 = 0) as Hz.
    { replace (Z.of_nat (length l) - Z.of_nat k) with (from + Z.of_nat (length l) - (from + Z.of_nat k)) by lia.
      rewrite Zminus_mod, E, Z.sub_diag. done. }
    rewrite Z.mod_small in Hz by lia. lia.
  - destruct (k - length l)%nat as [|j] eqn:Ek; [|by destruct j]. cbn in Hk2. injection Hk2 as ->.
    replace k with (length l) by lia. by rewrite Z.eqb_refl.
Qed.

Lemma ring_seg_ext R R' from l : (forall i, 0 <= i < 8 -> nth (Z.to_nat i) R' 0 = nth (Z.to_nat i) R 0) -> ring_seg R from l -> ring_seg R' from l.
Proof. intros E H k h Hk. rewrite E; [by apply H|]. apply Z.mod_pos_bound. lia. Qed.

(** *** The invariant *)

Record formatted (s : vdisk) (r : request) : Prop := {
  fm_d0 : get_desc (q_i0 r) s = mkDesc (VOp (q_i0 r)) 16 VRING_DESC_F_NEXT (q_i1 r);
  fm_d1 : get_desc (q_i1 r) s = mkDesc (VData (q_b r)) BSIZE (Z.lor (if q_write r then 0 else VRING_DESC_F_WRITE) VRING_DESC_F_NEXT) (q_i2 r);
  fm_d2 : get_desc (q_i2 r) s = mkDesc (VStatus (q_i0 r)) 1 VRING_DESC_F_WRITE 0;
  fm_op : nth (Z.to_nat (q_i0 r)) (vd_ops s) (mkReq 0 0 0)
            = mkReq (if q_write r then VIRTIO_BLK_T_OUT else VIRTIO_BLK_T_IN) 0 (u32 (q_blk r * (BSIZE / 512)));
  fm_b : nth (Z.to_nat (q_i0 r)) (vd_info_b s) None = Some (q_b r);
  fm_buf : vd_bufs s !! q_b r = Some (mkVbuf (q_blk r) (q_data r) (if decide (q_phase r = Seen) then 0 else 1));
  fm_status : q_phase r <> Pending -> nth (Z.to_nat (q_i0 r)) (vd_info_status s) 0 = 0
}.

Definition all_idx (rs : list request) : list Z := concat (idxs <$> rs).

Record rings (y : sys) (pend compl : list Z) : Prop := {
  rg_avail : ring_seg (vd_avail_ring (y_s y)) (dv_seen (y_dev y)) pend;
  rg_avail_idx : vd_avail_idx (y_s y) = u16 (dv_seen (y_dev y) + Z.of_nat (length pend));
  rg_used : ring_seg (vd_used_ring (y_s y)) (vd_used_idx (y_s y)) compl;
  rg_used_idx : vd_used_dev (y_s y) = u16 (vd_used_idx (y_s y) + Z.of_nat (length compl));
  rg_nodup : NoDup (pend ++ dv_work (y_dev y) ++ compl);
  rg_pending : forall h, h ∈ pend ++ dv_work (y_dev y) <-> exists r, r ∈ y_reqs y /\ q_i0 r = h /\ q_phase r = Pending;
  rg_compl : forall h, h ∈ compl <-> exists r, r ∈ y_reqs y /\ q_i0 r = h /\ q_phase r = Completed;
  rg_range : 0 <= dv_seen (y_dev y) < 2 ^ 16 /\ 0 <= vd_used_idx (y_s y) < 2 ^ 16
}.

Record inv (y : sys) : Prop := {
  iv_shape : shape (y_s y);
  iv_use : in_use (y_s y) (all_idx (y_reqs y));
  iv_nodup : NoDup (all_idx (y_reqs y));
  iv_in8 : Forall in8 (all_idx (y_reqs y));
  iv_bufs : NoDup (q_b <$> y_reqs y);
  iv_fmt : forall r, r ∈ y_reqs y -> formatted (y_s y) r;
  iv_blk : forall b x, vd_bufs (y_s y) !! b = Some x -> vb_ok x;
  iv_disk : disk_ok (dv_disk (y_dev y));
  iv_rings : exists pend compl, rings y pend compl
}.

Lemma elem_concat {A} (f : A -> list Z) l i : i ∈ concat (f <$> l) <-> exists x, x ∈ l /\ i ∈ f x.
Proof.
  induction l as [|x l IH]; cbn [fmap list_fmap concat].
  - split; [intros H; by apply elem_of_nil in H|intros (r & H & _); by apply elem_of_nil in H].
  - rewrite elem_of_app, IH. setoid_rewrite elem_of_cons. split.
    + intros [H|(x' & H1 & H2)]; eauto.
    + intros (x' & [->|H1] & H2); eauto.
Qed.
Lemma elem_all_idx rs i : i ∈ all_idx rs <-> exists r, r ∈ rs /\ i ∈ idxs r.
Proof. apply elem_concat. Qed.

Lemma length_all_idx rs : length (all_idx rs) = (3 * length rs)%nat.
Proof. unfold all_idx. induction rs as [|r rs IH]; [done|]. cbn [fmap list_fmap concat length]. rewrite length_app, IH. cbn. lia. Qed.

Lemma NoDup_in8 l : NoDup l -> Forall in8 l -> (length l <= 8)%nat.
Proof.
  intros Hn Hl. change 8%nat with (length (seqZ 0 8)). apply submseteq_length, NoDup_submseteq; [done|].
  intros i Hi. rewrite Forall_forall in Hl. apply elem_of_seqZ. specialize (Hl i Hi). unfold in8 in Hl. lia.
Qed.

Lemma requests_le2 y : inv y -> (length (y_reqs y) <= 2)%nat.
Proof. intros Hi. pose proof (NoDup_in8 _ (iv_nodup _ Hi) (iv_in8 _ Hi)) as Hl. rewrite length_all_idx in Hl. lia. Qed.

Lemma req_in8 y r : inv y -> r ∈ y_reqs y -> in8 (q_i0 r) /\ in8 (q_i1 r) /\ in8 (q_i2 r).
Proof.
  intros Hi Hr. pose proof (iv_in8 _ Hi) as H8. rewrite Forall_forall in H8.
  split_and!; apply H8, elem_all_idx; exists r; (split; [done|]); unfold idxs; set_solver.
Qed.

Lemma concat_nodup_inj {A} (f : A -> list Z) l x y i :
  NoDup (concat (f <$> l)) -> x ∈ l -> y ∈ l -> i ∈ f x -> i ∈ f y -> x = y.
Proof.
  induction l as [|a l IH]; intros Hn Hx Hy Hix Hiy; [by apply elem_of_nil in Hx|].
  cbn [fmap list_fmap concat] in Hn. apply NoDup_app in Hn as (_ & Hd & Hn).
  assert (forall z, z ∈ l -> i ∈ f z -> i ∈ concat (f <$> l)) as Hc by (intros z Hz Hi; apply elem_concat; eauto).
  apply elem_of_cons in Hx as [->|Hx], Hy as [->|Hy]; [done| | |by apply IH].
  - exfalso. apply (Hd i Hix). by apply (Hc y).
  - exfalso. apply (Hd i Hiy). by apply (Hc x).
Qed.

(** A descriptor belongs to one request. *)
Lemma req_inj y r r' i : inv y -> r ∈ y_reqs y -> r' ∈ y_reqs y -> i ∈ idxs r -> i ∈ idxs r' -> r = r'.
Proof. intros Hi. apply concat_nodup_inj, (iv_nodup _ Hi). Qed.
Lemma req_head_inj y r r' : inv y -> r ∈ y_reqs y -> r' ∈ y_reqs y -> q_i0 r = q_i0 r' -> r = r'.
Proof. intros Hi Hr Hr' E. apply (req_inj y r r' (q_i0 r)); try done; unfold idxs; [|rewrite E]; left. Qed.

Lemma rings_length y pend compl :
  inv y -> rings y pend compl -> (length pend + length (dv_work (y_dev y)) + length compl <= 2)%nat.
Proof.
  intros Hi Hr. trans (length (y_reqs y)); [|by apply requests_le2]. rewrite <- (length_fmap q_i0).
  replace (length pend + length (dv_work (y_dev y)) + length compl)%nat with (length (pend ++ dv_work (y_dev y) ++ compl)) by (rewrite !length_app; lia).
  apply submseteq_length, NoDup_submseteq; [apply (rg_nodup _ _ _ Hr)|]. intros h Hh. apply list_elem_of_fmap.
  rewrite app_assoc, elem_of_app in Hh. rewrite (rg_pending _ _ _ Hr), (rg_compl _ _ _ Hr) in Hh.
  destruct Hh as [(r & ? & ? & _)|(r & ? & ? & _)]; eauto.
Qed.

(** ** The steps keep the invariant *)

Lemma formatted_frame s s' r :
  formatted s r -> (forall i, i ∈ idxs r -> get_desc i s' = get_desc i s) ->
  nth (Z.to_nat (q_i0 r)) (vd_ops s') (mkReq 0 0 0) = nth (Z.to_nat (q_i0 r)) (vd_ops s) (mkReq 0 0 0) ->
  nth (Z.to_nat (q_i0 r)) (vd_info_b s') None = nth (Z.to_nat (q_i0 r)) (vd_info_b s) None ->
  nth (Z.to_nat (q_i0 r)) (vd_info_status s') 0 = nth (Z.to_nat (q_i0 r)) (vd_info_status s) 0 ->
  vd_bufs s' !! q_b r = vd_bufs s !! q_b r -> formatted s' r.
Proof.
  intros [F0 F1 F2 F3 F4 F5 F6] Hd Ho Hb Hst Hbuf.
  split; rewrite ?Hd, ?Ho, ?Hb, ?Hst, ?Hbuf by (unfold idxs; set_solver); done.
Qed.

Lemma same_but_formatted U s s' r :
  same_but U s s' -> (forall i, i ∈ idxs r -> i ∈ U /\ in8 i) -> formatted s r -> formatted s' r.
Proof.
  intros [Hd Hrest] HU Hf. apply (formatted_frame s); [done|intros i Hi; destruct (HU i Hi); by apply Hd| | | |]; by rewrite Hrest.
Qed.

Lemma same_but_inv y s' : inv y -> shape s' -> in_use s' (all_idx (y_reqs y)) -> same_but (all_idx (y_reqs y)) (y_s y) s' ->
  inv (mkSys s' (y_dev y) (y_reqs y)).
Proof.
  intros [I1 I2 I3 I4 I5 I6 I7 I9 (pend & compl & Hr)] Hs HU Hsb. pose proof (sb_rest _ _ _ Hsb) as Hrest.
  split; cbn [y_s y_dev y_reqs]; try done.
  - intros r Hin. eapply same_but_formatted; [done| |by apply I6]. intros i Hi. assert (i ∈ all_idx (y_reqs y)) by (apply elem_all_idx; eauto).
    split; [done|]. by rewrite Forall_forall in I4; apply I4.
  - rewrite Hrest. done.
  - exists pend, compl. destruct Hr. rewrite Hrest. split; done.
Qed.

(** The state in which [virtio_disk_submit] leaves the driver. *)
Definition submit_state (b : nat) (w : bool) (x : vbuf) (i0 i1 i2 : Z) (s : vdisk) : vdisk :=
  let s := format_req b w (u32 (vb_blockno x * (BSIZE / 512))) i0 i1 i2 s in
  let s := put_vbuf b (set_disk_flag 1 x) s in
  let s := set_vd_info_b (<[Z.to_nat i0 := Some b]> (vd_info_b s)) s in
  let s := set_vd_avail_ring (<[Z.to_nat (vd_avail_idx s mod NUM) := i0]> (vd_avail_ring s)) s in
  let s := set_vd_avail_idx (u16 (vd_avail_idx s + 1)) s in
  set_vd_out (vd_out s ++ [(VIRTIO_MMIO_QUEUE_NOTIFY, u32 0)]) s.

Section submit.
Context (b : nat) (w : bool) (x : vbuf) (i0 i1 i2 : Z) (s : vdisk).
Hypothesis Hs : shape s.
Hypothesis Hnd : NoDup [i0; i1; i2].
Hypothesis H8 : Forall in8 [i0; i1; i2].
Let s' := submit_state b w x i0 i1 i2 s.

Lemma submit_shape : shape s'.
Proof using Hs. destruct Hs. split; cbn; rewrite ?length_insert; done. Qed.

Lemma submit_desc j :
  0 <= j -> get_desc j s' =
    if i2 =? j then mkDesc (VStatus i0) 1 VRING_DESC_F_WRITE 0
    else if i1 =? j then mkDesc (VData b) BSIZE (Z.lor (if w then 0 else VRING_DESC_F_WRITE) VRING_DESC_F_NEXT) i2
    else if i0 =? j then mkDesc (VOp i0) 16 VRING_DESC_F_NEXT i1 else get_desc j s.
Proof using Hs H8.
  intros Hj. rewrite !Forall_cons in H8. destruct H8 as (A & B & C & _). unfold in8 in *. destruct Hs.
  unfold s', submit_state, get_desc. cbn. rewrite !nth_insertZ by (rewrite ?length_insert; lia). done.
Qed.

Lemma submit_formatted : formatted s' (mkRq b w (vb_blockno x) i0 i1 i2 Pending (vb_data x)).
Proof using Hs Hnd H8.
  pose proof H8 as H8'. rewrite !Forall_cons in H8'. destruct H8' as (A & B & C & _). unfold in8 in *. destruct Hs.
  rewrite !NoDup_cons, !elem_of_cons in Hnd. destruct Hnd as (N1 & N2 & _).
  split; cbn [q_b q_write q_blk q_i0 q_i1 q_i2 q_phase q_data].
  - rewrite submit_desc by lia. bfalse (i2 =? i0). bfalse (i1 =? i0). by btrue (i0 =? i0).
  - rewrite submit_desc by lia. bfalse (i2 =? i1). by btrue (i1 =? i1).
  - rewrite submit_desc by lia. by btrue (i2 =? i2).
  - unfold s', submit_state. cbn. rewrite nth_insertZ by lia. by btrue (i0 =? i0).
  - unfold s', submit_state. cbn. rewrite nth_insertZ by lia. by btrue (i0 =? i0).
  - unfold s', submit_state. cbn. rewrite lookup_insert_eq. by rewrite decide_False by done.
  - done.
Qed.

Lemma submit_other r : formatted s r -> (forall i, i ∈ idxs r -> i ∉ [i0; i1; i2] /\ in8 i) -> q_b r <> b -> formatted s' r.
Proof using Hs H8.
  intros Hf Hi Hb. destruct (Hi (q_i0 r)) as [N0 R0]; [left|]. pose proof H8 as H8'. rewrite !Forall_cons in H8'. destruct H8' as (A & B & C & _).
  unfold in8 in *. rewrite !not_elem_of_cons in N0. destruct N0 as (N0 & _). destruct Hs. apply (formatted_frame s); [done| | | | |].
  - intros i Hin. destruct (Hi i Hin) as [N R]. rewrite !not_elem_of_cons in N. destruct N as (? & ? & ? & _).
    rewrite submit_desc by (unfold in8 in *; lia). bfalse (i2 =? i). bfalse (i1 =? i). by bfalse (i0 =? i).
  - unfold s', submit_state. cbn. rewrite nth_insertZ by lia. by bfalse (i0 =? q_i0 r).
  - unfold s', submit_state. cbn. rewrite nth_insertZ by lia. by bfalse (i0 =? q_i0 r).
  - unfold s', submit_state. cbn. rewrite nth_insertZ by lia. by bfalse (i0 =? q_i0 r).
  - unfold s', submit_state. cbn. by rewrite lookup_insert_ne by done.
Qed.
End submit.

Lemma submit_inv y b w x i0 i1 i2 s1 :
  inv y -> idle y b -> vd_bufs (y_s y) !! b = Some x -> NoDup [i0; i1; i2] -> Forall in8 [i0; i1; i2] ->
  (forall i, i ∈ [i0; i1; i2] -> i ∉ all_idx (y_reqs y)) -> shape s1 -> in_use s1 ([i0; i1; i2] ++ all_idx (y_reqs y)) ->
  (forall V, same_but V (y_s y) s1) ->
  inv (mkSys (submit_state b w x i0 i1 i2 s1) (y_dev y) (mkRq b w (vb_blockno x) i0 i1 i2 Pending (vb_data x) :: y_reqs y)).
Proof.
  intros Hinv Hidle Hx Hnd H8 Hfresh Hs1 HU1 Hsb. pose proof Hinv as [I1 I2 I3 I4 I5 I6 I7 I9 (pend & compl & Hr)].
  assert (exists D FL, s1 = set_vd_desc D (set_vd_free FL (y_s y))) as (D & FL & ->) by (eexists _, _; apply (sb_rest _ _ _ (Hsb []))).
  split; cbn [y_s y_dev y_reqs].
  - by apply submit_shape.
  - done.
  - change (NoDup ([i0; i1; i2] ++ all_idx (y_reqs y))). apply NoDup_app. done.
  - change (Forall in8 ([i0; i1; i2] ++ all_idx (y_reqs y))). by apply Forall_app.
  - cbn. apply NoDup_cons. split; [|done]. intros Hin. apply list_elem_of_fmap in Hin as (r & E & Hin). by apply (Hidle r Hin).
  - intros r Hin. apply elem_of_cons in Hin as [->|Hin]; [by apply submit_formatted|].
    assert (forall i, i ∈ idxs r -> i ∈ all_idx (y_reqs y) /\ in8 i) as Hri.
    { intros i Hi. assert (i ∈ all_idx (y_reqs y)) by (apply elem_all_idx; eauto). split; [done|]. by rewrite Forall_forall in I4; apply I4. }
    apply submit_other; [done|done| | |by apply Hidle].
    + eapply same_but_formatted; [apply (Hsb (all_idx (y_reqs y)))|done|by apply I6].
    + intros i Hi. destruct (Hri i Hi). split; [|done]. intros Hc. by apply (Hfresh i Hc).
  - intros b' z Hz. unfold submit_state in Hz. cbn in Hz.
    apply lookup_insert_Some in Hz as [[<- <-]|[_ Hz]]; [exact (I7 _ _ Hx)|exact (I7 _ _ Hz)].
  - done.
  - pose proof (rings_length _ _ _ Hinv Hr) as Hlen. destruct Hr as [R1 R2 R3 R4 R5 R6 R7 R8]. exists (pend ++ [i0]), compl.
    split; cbn [y_s y_dev y_reqs]; unfold submit_state; cbn.
    + rewrite R2. unfold NUM. rewrite mod8_u16. apply ring_seg_snoc; [apply (sh_avail _ I1)|lia|done].
    + rewrite R2, length_app. cbn [length]. unfold u16. rewrite Zplus_mod_idemp_l. f_equal. lia.
    + done.
    + done.
    + assert (i0 ∉ pend ++ dv_work (y_dev y) ++ compl) as Hn.
      { rewrite app_assoc, elem_of_app, R6, R7. intros Hin. apply (Hfresh i0); [left|]. apply elem_all_idx.
        destruct Hin as [(r & ? & <- & _)|(r & ? & <- & _)]; exists r; (split; [done|left]). }
      rewrite <- app_assoc. cbn [app]. rewrite <- Permutation_middle. by apply NoDup_cons.
    + intros h. rewrite <- app_assoc, !elem_of_app, list_elem_of_singleton. specialize (R6 h). rewrite elem_of_app in R6.
      setoid_rewrite elem_of_cons. split.
      * intros [H|[->|H]]; [|eexists; split; [by left|done]|]; (destruct (proj1 R6) as (r & ? & ? & ?); [tauto|exists r; tauto]).
      * intros (r & [->|H] & <- & Hp); [tauto|]. assert (q_i0 r ∈ pend \/ q_i0 r ∈ dv_work (y_dev y)); [|tauto]. apply R6. eauto.
    + intros h. rewrite R7. setoid_rewrite elem_of_cons. split.
      * intros (r & ? & ? & ?). exists r. tauto.
      * intros (r & [->|H] & ? & Hp); [done|]. eauto.
    + done.
Qed.

Lemma submit_ok y c b w x :
  inv y -> good c -> idle y b -> vd_bufs (y_s y) !! b = Some x ->
  (exists i0 s', virtio_disk_submit b w c (y_s y) = Ok i0 (hold LkVdisk c) s' /\
     inv (mkSys s' (y_dev y) (submitted b w i0 (y_s y) s' :: y_reqs y))) \/
  (exists ws s', virtio_disk_submit b w c (y_s y) = Blocked ChVdiskFree (woke ws c) s' /\
     inv (mkSys s' (y_dev y) (y_reqs y)) /\ crowded (all_idx (y_reqs y))).
Proof.
  intros Hinv [Hwf Hlk] Hidle Hx. pose proof Hinv as [I1 I2 _ _ _ _ _ _ _]. unfold virtio_disk_submit.
  erewrite bind_ok by (by apply acquire_free). rewrite bind_gets. unfold get_vbuf. rewrite Hx. cbn [default].
  destruct (alloc3_ok (hold LkVdisk c) (y_s y) (all_idx (y_reqs y)) I1 I2)
    as [(i0 & i1 & i2 & s1 & E & Hnd & H8 & Hfr & Hs1 & HU1 & Hsb)|(ws & s1 & E & Hs1 & HU1 & Hsb & Hcr)].
  - left. erewrite bind_ok by exact E. exists i0, (submit_state b w x i0 i1 i2 s1). split; [done|].
    assert (submitted b w i0 (y_s y) (submit_state b w x i0 i1 i2 s1) = mkRq b w (vb_blockno x) i0 i1 i2 Pending (vb_data x)) as ->.
    { destruct (submit_formatted b w x i0 i1 i2 s1 Hs1 Hnd H8) as [F0 F1 _ _ _ _ _]. cbn [q_i0 q_i1] in F0, F1.
      unfold submitted, get_vbuf. rewrite Hx, F0. cbn [ds_next default]. rewrite F1. done. }
    by apply submit_inv.
  - right. erewrite bind_ok by exact E. exists ws, s1. split; [|split; [by apply same_but_inv|done]].
    rewrite hold_woke. by rewrite sleep_hold.
Qed.

Lemma store_inv y b l blk :
  inv y -> idle y b -> vb_ok (mkVbuf blk l 0) -> inv (mkSys (put_vbuf b (mkVbuf blk l 0) (y_s y)) (y_dev y) (y_reqs y)).
Proof.
  intros [I1 I2 I3 I4 I5 I6 I7 I9 (pend & compl & Hr)] Hidle Hblk. split; cbn [y_s y_dev y_reqs]; try done.
  - by destruct I1.
  - intros r Hin. apply (formatted_frame (y_s y)); try done; [by apply I6|]. cbn. rewrite lookup_insert_ne; [done|].
    intros ->. by apply (Hidle r Hin).
  - intros b' z Hz. cbn in Hz. apply lookup_insert_Some in Hz as [[<- <-]|[_ Hz]]; [done|exact (I7 _ _ Hz)].
  - exists pend, compl. by destruct Hr.
Qed.

Lemma u16_small x : 0 <= x < 2 ^ 16 -> u16 x = x.
Proof. apply Z.mod_small. Qed.
Lemma fetch_inv y v' : inv y -> device_fetch (y_s y) (y_dev y) = Some v' -> inv (mkSys (y_s y) v' (y_reqs y)).
Proof.
  intros Hinv. pose proof Hinv as [I1 I2 I3 I4 I5 I6 I7 I9 (pend & compl & Hr)]. destruct Hr as [R1 R2 R3 R4 R5 R6 R7 [R8 R9]].
  unfold device_fetch. destruct (Z.eqb_spec (dv_seen (y_dev y)) (vd_avail_idx (y_s y))) as [|Hne]; intros [= <-].
  destruct pend as [|h pend]. { exfalso. apply Hne. rewrite R2. cbn. rewrite Z.add_0_r. by rewrite u16_small. }
  apply ring_seg_cons in R1 as [Hh R1]. unfold NUM. rewrite Hh.
  split; cbn [y_s y_dev y_reqs]; try done. exists pend, compl.
  split; cbn [y_s y_dev y_reqs dv_seen dv_work]; try done.
  - rewrite R2. cbn [length]. unfold u16. rewrite Zplus_mod_idemp_l. f_equal. lia.
  - replace (pend ++ (dv_work (y_dev y) ++ [h]) ++ compl) with ((pend ++ dv_work (y_dev y)) ++ h :: compl) by (by rewrite <- !app_assoc).
    rewrite <- Permutation_middle. by rewrite <- app_assoc.
  - intros h'. rewrite <- R6. clear. set_solver.
  - split; [apply u16_range|done].
Qed.

(** Requests other than the one whose buffer or status changes. *)
Lemma req_b_inj y r r' : inv y -> r ∈ y_reqs y -> r' ∈ y_reqs y -> q_b r = q_b r' -> r = r'.
Proof.
  intros Hi Hr Hr' E. pose proof (iv_bufs _ Hi) as Hn. apply list_elem_of_lookup in Hr as [i Hi1], Hr' as [j Hj].
  assert (i = j) as ->; [|congruence]. eapply NoDup_lookup; [exact Hn|by rewrite list_lookup_fmap, Hi1|]. by rewrite list_lookup_fmap, Hj, E.
Qed.

Lemma complete_other y h d r r' : inv y -> r ∈ y_reqs y -> q_i0 r = h -> r' ∈ y_reqs y -> r' <> r -> complete h d r' = r'.
Proof.
  intros Hi Hr <- Hr' Hne. unfold complete. destruct (Z.eqb_spec (q_i0 r') (q_i0 r)) as [E|]; [|done].
  exfalso. apply Hne. by eapply req_head_inj.
Qed.

(** The state after the device has completed a request. *)
Definition complete_state (r : request) (d : disk) (s : vdisk) : vdisk :=
  let s := set_vd_bufs (<[q_b r := mkVbuf (q_blk r) (result r d) 1]> (vd_bufs s)) s in
  let s := set_vd_info_status (<[Z.to_nat (q_i0 r) := 0]> (vd_info_status s)) s in
  let s := set_vd_used_ring (<[Z.to_nat (vd_used_dev s mod NUM) := q_i0 r]> (vd_used_ring s)) s in
  set_vd_used_dev (u16 (vd_used_dev s + 1)) s.

Lemma desc_chain_ok s r : formatted s r ->
  desc_chain (q_i0 r) s (Z.to_nat NUM) =
    [mkDesc (VOp (q_i0 r)) 16 VRING_DESC_F_NEXT (q_i1 r);
     mkDesc (VData (q_b r)) BSIZE (Z.lor (if q_write r then 0 else VRING_DESC_F_WRITE) VRING_DESC_F_NEXT) (q_i2 r);
     mkDesc (VStatus (q_i0 r)) 1 VRING_DESC_F_WRITE 0].
Proof.
  intros [F0 F1 F2 _ _ _ _]. change (Z.to_nat NUM) with 8%nat. cbn [desc_chain]. rewrite F0.
  change (has_flag (mkDesc (VOp (q_i0 r)) 16 VRING_DESC_F_NEXT (q_i1 r)) VRING_DESC_F_NEXT) with true. cbv iota. cbn [ds_next].
  rewrite F1. destruct (q_write r); cbn [has_flag ds_flags Z.lor Z.land Z.eqb negb]; cbv iota; cbn; by rewrite F2.
Qed.

(** A transfer of a whole block. *)
Lemma whole_block (old data : list Z) : length old = Z.to_nat BSIZE -> length data = Z.to_nat BSIZE ->
  take (Z.to_nat BSIZE) (drop 0 old) ++ drop (Z.to_nat BSIZE) data = old /\
  take 0 old ++ take (Z.to_nat BSIZE) data ++ drop (0 + Z.to_nat BSIZE) old = data.
Proof.
  intros H1 H2. rewrite !take_0, !drop_0. cbn [app Nat.add].
  rewrite (take_ge old), (drop_ge data), (take_ge data), (drop_ge old), !app_nil_r by lia. done.
Qed.

Lemma device_complete_ok y r :
  inv y -> r ∈ y_reqs y -> q_phase r = Pending ->
  device_complete (q_i0 r) (y_s y) (y_dev y) =
    Some (complete_state r (dv_disk (y_dev y)) (y_s y),
          mkDevice (dv_seen (y_dev y)) (filter (fun x => x <> q_i0 r) (dv_work (y_dev y))) (effect r (dv_disk (y_dev y)))).
Proof.
  intros Hinv Hr Hp. destruct (iv_fmt _ Hinv r Hr) as [F0 F1 F2 F3 F4 F5 F6]. destruct (iv_blk _ Hinv _ _ F5) as [Hblk Hlen].
  cbn [vb_blockno vb_data] in Hblk, Hlen. destruct (whole_block (disk_read (dv_disk (y_dev y)) (q_blk r)) (q_data r)) as [Hin Hout];
    [apply (iv_disk _ Hinv)|done|].
  unfold device_complete. rewrite (desc_chain_ok _ _ (iv_fmt _ Hinv r Hr)). cbn [ds_addr ds_len]. rewrite F3.
  change (BSIZE / 512) with 2. unfold u32. rewrite Z.mod_small by lia.
  assert (forall w, well_formed (mkDesc (VOp (q_i0 r)) 16 VRING_DESC_F_NEXT (q_i1 r))
    (mkDesc (VData (q_b r)) BSIZE (Z.lor (if w : bool then 0 else VRING_DESC_F_WRITE) VRING_DESC_F_NEXT) (q_i2 r))
    (mkDesc (VStatus (q_i0 r)) 1 VRING_DESC_F_WRITE 0)
    (mkReq (if w then VIRTIO_BLK_T_OUT else VIRTIO_BLK_T_IN) 0 (q_blk r * 2)) = true) as ->.
  { intros w. unfold well_formed. cbn [rq_sector]. rewrite Z.mod_mul by done. by destruct w. }
  cbn [rq_type rq_sector]. rewrite Z.div_mul, Z.mod_mul by done. change (Z.to_nat (0 * 512)) with 0%nat. cbv zeta.
  unfold get_vbuf. rewrite F5, Hp. cbn [default vb_data from_option id decide]. rewrite Hin, Hout.
  unfold complete_state, effect, result, set_data. rewrite decide_False by done.
  destruct (q_write r); cbn; [|done]. do 2 f_equal. destruct (y_s y). cbn in *. unfold set_vd_bufs. cbn. rewrite insert_id; [done|].
  rewrite F5, Hp. by rewrite decide_False.
Qed.
Lemma disk_ok_write d b x : disk_ok d -> length x = Z.to_nat BSIZE -> disk_ok (disk_write d b x).
Proof.
  intros Hd Hx b'. unfold disk_read, disk_write. cbn. destruct (decide (b = b')) as [->|Hne]; [by rewrite lookup_insert_eq|].
  rewrite lookup_insert_ne by done. apply Hd.
Qed.

(** A change of the phases and data of requests. *)
Record same_req (f : request -> request) : Prop := {
  sq_idxs : forall r, idxs (f r) = idxs r;
  sq_b : forall r, q_b (f r) = q_b r
}.
Lemma all_idx_map f rs : same_req f -> all_idx (f <$> rs) = all_idx rs.
Proof. intros [Hf _]. unfold all_idx. f_equal. rewrite <- list_fmap_compose. apply list_fmap_ext. intros i r _. apply Hf. Qed.
Lemma q_b_map f (rs : list request) : same_req f -> q_b <$> (f <$> rs) = q_b <$> rs.
Proof. intros [_ Hf]. rewrite <- list_fmap_compose. apply list_fmap_ext. intros i r _. apply Hf. Qed.
Lemma q_i0_map f r : same_req f -> q_i0 (f r) = q_i0 r.
Proof. intros [Hf _]. pose proof (Hf r) as E. by injection E. Qed.

Lemma complete_same h d : same_req (complete h d).
Proof. split; intros r; unfold complete; by case_match. Qed.
Lemma see_same : same_req see.
Proof. split; intros r; unfold see; by case_match. Qed.

Lemma complete_rings y r pend compl :
  inv y -> r ∈ y_reqs y -> q_phase r = Pending -> q_i0 r ∈ dv_work (y_dev y) -> rings y pend compl ->
  rings (mkSys (complete_state r (dv_disk (y_dev y)) (y_s y))
    (mkDevice (dv_seen (y_dev y)) (filter (fun x => x <> q_i0 r) (dv_work (y_dev y))) (effect r (dv_disk (y_dev y))))
    (complete (q_i0 r) (dv_disk (y_dev y)) <$> y_reqs y)) pend (compl ++ [q_i0 r]).
Proof.
  intros Hinv Hr Hp Hw Hrg. pose proof (iv_shape _ Hinv) as I1. set (d := dv_disk (y_dev y)).
  pose proof (rings_length _ _ _ Hinv Hrg) as Hlen. destruct Hrg as [R1 R2 R3 R4 R5 R6 R7 [R8 R9]].
  assert (complete (q_i0 r) d r = set_q Completed (result r d) r) as Ec by (unfold complete; by rewrite Z.eqb_refl).
  assert (forall h, h ∈ filter (fun x => x <> q_i0 r) (dv_work (y_dev y)) <-> h <> q_i0 r /\ h ∈ dv_work (y_dev y)) as Hfil
    by (intros h; by rewrite list_elem_of_filter).
  split; cbn [y_s y_dev y_reqs dv_seen dv_work]; unfold complete_state; cbn; try done.
  - rewrite R4. unfold NUM. rewrite mod8_u16. apply ring_seg_snoc; [apply (sh_used _ I1)|lia|done].
  - rewrite R4, length_app. cbn [length]. unfold u16. rewrite Zplus_mod_idemp_l. f_equal. lia.
  - rewrite NoDup_app in R5 |- *. rewrite NoDup_app in R5 |- *. rewrite NoDup_app.
    destruct R5 as (N1 & N2 & N3 & N4 & N5). split_and!; [done| |by apply NoDup_filter| |done| |apply NoDup_singleton].
    + intros h Hh Hc. specialize (N2 h Hh). rewrite !elem_of_app, Hfil, list_elem_of_singleton in Hc. rewrite elem_of_app in N2.
      destruct Hc as [[_ ?]|[?| ->]]; tauto.
    + intros h Hh Hc. rewrite elem_of_app, list_elem_of_singleton in Hc. apply Hfil in Hh as [Hh1 Hh2]. specialize (N4 h Hh2). tauto.
    + intros h Hh Hc%list_elem_of_singleton. subst. by apply (N4 (q_i0 r)).
  - intros h. specialize (R6 h). rewrite elem_of_app in R6 |- *. rewrite Hfil. setoid_rewrite list_elem_of_fmap.
    assert (q_i0 r ∉ pend) as Hnp. { rewrite NoDup_app in R5. destruct R5 as (_ & N2 & _). intros Hc. apply (N2 _ Hc), elem_of_app. by left. }
    split.
    + intros Hh. assert (h <> q_i0 r) as Hne by (destruct Hh as [Hh|[? _]]; [by intros ->|done]).
      destruct (proj1 R6) as (r' & Hin & <- & Hp'); [tauto|]. exists r'. split; [|done]. exists r'. split; [|done].
      symmetry. apply (complete_other y (q_i0 r) d r r'); try done. by intros ->.
    + intros (r2 & (r' & -> & Hin) & <- & Hp'). destruct (decide (r' = r)) as [->|Hne]; [by rewrite Ec in Hp'|].
      rewrite (complete_other y (q_i0 r) d r r') in * by done.
      assert (q_i0 r' <> q_i0 r) by (intros E; by apply Hne; eapply req_head_inj). destruct (proj2 R6); [eauto|tauto|tauto].
  - intros h. rewrite elem_of_app, list_elem_of_singleton, R7. setoid_rewrite list_elem_of_fmap. split.
    + intros [(r' & Hin & <- & Hp')| ->].
      * exists r'. split; [|done]. exists r'. split; [|done]. symmetry. apply (complete_other y (q_i0 r) d r r'); try done. intros ->. congruence.
      * exists (set_q Completed (result r d) r). split; [|done]. by exists r.
    + intros (r2 & (r' & -> & Hin) & <- & Hp'). destruct (decide (r' = r)) as [->|Hne]; [right; by rewrite Ec|].
      rewrite (complete_other y (q_i0 r) d r r') in * by done. left. eauto.
Qed.

Lemma complete_inv y r :
  inv y -> r ∈ y_reqs y -> q_phase r = Pending -> q_i0 r ∈ dv_work (y_dev y) ->
  inv (mkSys (complete_state r (dv_disk (y_dev y)) (y_s y))
    (mkDevice (dv_seen (y_dev y)) (filter (fun x => x <> q_i0 r) (dv_work (y_dev y))) (effect r (dv_disk (y_dev y))))
    (complete (q_i0 r) (dv_disk (y_dev y)) <$> y_reqs y)).
Proof.
  intros Hinv Hr Hp Hw. pose proof Hinv as [I1 I2 I3 I4 I5 I6 I7 I9 (pend & compl & Hrg)]. set (d := dv_disk (y_dev y)).
  destruct (req_in8 _ _ Hinv Hr) as (Ri0 & _ & _). unfold in8 in Ri0.
  assert (complete (q_i0 r) d r = set_q Completed (result r d) r) as Ec by (unfold complete; by rewrite Z.eqb_refl).
  split; cbn [y_s y_dev y_reqs]; rewrite ?all_idx_map, ?q_b_map by apply complete_same; try done.
  - destruct I1. split; cbn; rewrite ?length_insert; done.
  - intros r2 Hin. apply list_elem_of_fmap in Hin as (r' & -> & Hin). destruct (decide (r' = r)) as [->|Hne].
    + rewrite Ec. destruct (I6 r Hr) as [F0 F1 F2 F3 F4 F5 F6].
      split; cbn [set_q q_b q_write q_blk q_i0 q_i1 q_i2 q_phase q_data]; try done; unfold complete_state; cbn.
      * by rewrite lookup_insert_eq.
      * intros _. rewrite nth_insertZ by (rewrite ?(sh_status _ I1); lia). by btrue (q_i0 r =? q_i0 r).
    + rewrite (complete_other y (q_i0 r) d r r') by done. apply (formatted_frame (y_s y)); [by apply I6|done|done|done| |]; cbn.
      * destruct (req_in8 _ _ Hinv Hin) as (Ri' & _ & _). unfold in8 in Ri'. rewrite nth_insertZ by (rewrite ?(sh_status _ I1); lia).
        destruct (Z.eqb_spec (q_i0 r) (q_i0 r')) as [E|]; [|done]. exfalso. apply Hne. by eapply req_head_inj.
      * rewrite lookup_insert_ne; [done|]. intros E. apply Hne. by eapply req_b_inj.
  - intros b z Hz. cbn in Hz. destruct (I6 r Hr) as [_ _ _ _ _ F5 _]. pose proof (I7 _ _ F5) as Hok.
    apply lookup_insert_Some in Hz as [[<- <-]|[_ Hz]]; [|exact (I7 _ _ Hz)].
    destruct (I7 _ _ F5) as [Hb Hl]. split; [exact Hb|]. unfold result. cbn in *. destruct (q_write r); [exact Hl|apply I9].
  - unfold effect. destruct (q_write r); [|exact I9]. apply disk_ok_write; [exact I9|].
    destruct (I6 r Hr) as [_ _ _ _ _ F5 _]. apply (I7 _ _ F5).
  - exists pend, (compl ++ [q_i0 r]). by apply complete_rings.
Qed.

Lemma rings_used y pend compl : inv y -> rings y pend compl -> compl <> [] -> vd_used_idx (y_s y) <> vd_used_dev (y_s y).
Proof.
  intros Hinv Hrg Hne. pose proof (rings_length _ _ _ Hinv Hrg). destruct Hrg as [_ _ _ R4 _ _ _ [_ R9]]. rewrite R4. unfold u16. intros E.
  rewrite <- (Z.mod_small (vd_used_idx (y_s y)) (2 ^ 16)) in E at 1 by done.
  assert ((vd_used_idx (y_s y) + Z.of_nat (length compl) - vd_used_idx (y_s y)) mod 2 ^ 16 = 0) as E0 by (rewrite Zminus_mod, <- E, Z.sub_diag; done).
  destruct compl; [done|]. cbn [length] in *. rewrite Z.mod_small in E0; lia.
Qed.

(** *** Interrupts *)

Definition see_one (h : Z) (r : request) : request := if q_i0 r =? h then set_q Seen (q_data r) r else r.
Lemma see_one_same h : same_req (see_one h).
Proof. split; intros r; unfold see_one; by case_match. Qed.
Lemma see_one_other y h r r' : inv y -> r ∈ y_reqs y -> q_i0 r = h -> r' ∈ y_reqs y -> r' <> r -> see_one h r' = r'.
Proof.
  intros Hi Hr <- Hr' Hne. unfold see_one. destruct (Z.eqb_spec (q_i0 r') (q_i0 r)) as [E|]; [|done].
  exfalso. apply Hne. by eapply req_head_inj.
Qed.

Definition see_state (r : request) (s : vdisk) : vdisk :=
  set_vd_used_idx (u16 (vd_used_idx s + 1)) (put_vbuf (q_b r) (mkVbuf (q_blk r) (q_data r) 0) s).

Lemma see_rings y r pend compl :
  inv y -> r ∈ y_reqs y -> q_phase r = Completed -> rings y pend (q_i0 r :: compl) ->
  rings (mkSys (see_state r (y_s y)) (y_dev y) (see_one (q_i0 r) <$> y_reqs y)) pend compl.
Proof.
  intros Hinv Hr Hp [R1 R2 R3 R4 R5 R6 R7 [R8 R9]].
  assert (see_one (q_i0 r) r = set_q Seen (q_data r) r) as Ec by (unfold see_one; by rewrite Z.eqb_refl).
  apply ring_seg_cons in R3 as [_ R3].
  split; cbn [y_s y_dev y_reqs]; try done.
  - unfold see_state. cbn. rewrite R4. cbn [length]. unfold u16. rewrite Zplus_mod_idemp_l. f_equal. lia.
  - rewrite app_assoc in R5. rewrite <- Permutation_middle in R5. apply NoDup_cons in R5 as [_ R5]. by rewrite <- app_assoc in R5.
  - intros h. rewrite R6. setoid_rewrite list_elem_of_fmap. split.
    + intros (r' & Hin & <- & Hp'). exists r'. split; [|done]. exists r'. split; [|done].
      symmetry. apply (see_one_other y (q_i0 r) r r'); try done. intros ->. congruence.
    + intros (r2 & (r' & -> & Hin) & <- & Hp'). destruct (decide (r' = r)) as [->|Hne]; [by rewrite Ec in Hp'|].
      rewrite (see_one_other y (q_i0 r) r r') in * by done. eauto.
  - intros h. specialize (R7 h). rewrite elem_of_cons in R7. setoid_rewrite list_elem_of_fmap.
    assert (q_i0 r ∉ compl) as Hnc.
    { rewrite app_assoc in R5. rewrite <- Permutation_middle in R5. apply NoDup_cons in R5 as [R5 _]. rewrite elem_of_app in R5. tauto. }
    split.
    + intros Hh. destruct (proj1 R7) as (r' & Hin & <- & Hp'); [by right|]. exists r'. split; [|done]. exists r'. split; [|done].
      symmetry. apply (see_one_other y (q_i0 r) r r'); try done. by intros ->.
    + intros (r2 & (r' & -> & Hin) & <- & Hp'). destruct (decide (r' = r)) as [->|Hne]; [by rewrite Ec in Hp'|].
      rewrite (see_one_other y (q_i0 r) r r') in * by done.
      assert (q_i0 r' <> q_i0 r) by (intros E; by apply Hne; eapply req_head_inj). destruct (proj2 R7); [eauto|done|done].
  - split; [done|apply u16_range].
Qed.

Lemma see_inv y r pend compl :
  inv y -> r ∈ y_reqs y -> q_phase r = Completed -> rings y pend (q_i0 r :: compl) ->
  inv (mkSys (see_state r (y_s y)) (y_dev y) (see_one (q_i0 r) <$> y_reqs y)).
Proof.
  intros Hinv Hr Hp Hrg. pose proof Hinv as [I1 I2 I3 I4 I5 I6 I7 I9 _].
  assert (see_one (q_i0 r) r = set_q Seen (q_data r) r) as Ec by (unfold see_one; by rewrite Z.eqb_refl).
  split; cbn [y_s y_dev y_reqs]; rewrite ?all_idx_map, ?q_b_map by apply see_one_same; try done.
  - by destruct I1.
  - intros r2 Hin. apply list_elem_of_fmap in Hin as (r' & -> & Hin). destruct (decide (r' = r)) as [->|Hne].
    + rewrite Ec. destruct (I6 r Hr) as [F0 F1 F2 F3 F4 F5 F6].
      split; cbn [set_q q_b q_write q_blk q_i0 q_i1 q_i2 q_phase q_data]; try done; unfold see_state; cbn.
      * by rewrite lookup_insert_eq.
      * intros _. apply F6. congruence.
    + rewrite (see_one_other y (q_i0 r) r r') by done. apply (formatted_frame (y_s y)); [by apply I6|done|done|done|done|]. cbn.
      rewrite lookup_insert_ne; [done|]. intros E. apply Hne. by eapply req_b_inj.
  - intros b z Hz. cbn in Hz. destruct (I6 r Hr) as [_ _ _ _ _ F5 _]. pose proof (I7 _ _ F5) as Hok.
    apply lookup_insert_Some in Hz as [[<- <-]|[_ Hz]]; [done|exact (I7 _ _ Hz)].
  - exists pend, compl. by apply see_rings.
Qed.

Lemma see_see_one y r : inv y -> r ∈ y_reqs y -> q_phase r = Completed -> see <$> (see_one (q_i0 r) <$> y_reqs y) = see <$> y_reqs y.
Proof.
  intros Hinv Hr Hp. rewrite <- list_fmap_compose. apply list_fmap_ext. intros i r' Hi. apply list_elem_of_lookup_2 in Hi. cbn.
  destruct (decide (r' = r)) as [->|Hne].
  - unfold see_one, see. rewrite Z.eqb_refl. cbn. by rewrite Hp.
  - by rewrite (see_one_other y (q_i0 r) r r').
Qed.

Lemma intr_loop_ok pend compl y c fuel :
  inv y -> rings y pend compl -> (length compl <= fuel)%nat ->
  exists ws s', intr_loop fuel c (y_s y) = Ok tt (woke ws c) s' /\ inv (mkSys s' (y_dev y) (see <$> y_reqs y)) /\
    (forall r, r ∈ y_reqs y -> q_phase r = Completed -> ChBuf (q_b r) ∈ ws).
Proof.
  revert y c fuel. induction compl as [|h compl IH]; intros y c fuel Hinv Hrg Hf; pose proof Hrg as [_ _ R3 R4 _ _ R7 [_ R9]].
  - exists [], (y_s y). rewrite woke_nil. cbn in R4. rewrite Z.add_0_r, u16_small in R4 by done. split_and!.
    + destruct fuel; cbn [intr_loop]; mred; rewrite R4, Z.eqb_refl; done.
    + assert (see <$> y_reqs y = y_reqs y) as ->; [|by destruct y]. rewrite <- list_fmap_id. apply list_fmap_ext. intros i r Hi.
      unfold see. destruct (q_phase r) eqn:Ep; try done. apply list_elem_of_lookup_2 in Hi.
      assert (q_i0 r ∈ []) as Hn by (apply R7; eauto). by apply elem_of_nil in Hn.
    + intros r Hr Hp. assert (q_i0 r ∈ []) as Hn by (apply R7; eauto). by apply elem_of_nil in Hn.
  - pose proof (rings_length _ _ _ Hinv Hrg) as Hlen. cbn in Hlen.
    destruct (proj1 (R7 h)) as (r & Hr & <- & Hp); [left|]. apply ring_seg_cons in R3 as [Hh _].
    destruct fuel as [|fuel]; [cbn in Hf; lia|]. cbn [intr_loop]. rewrite bind_get.
    assert (vd_used_idx (y_s y) =? vd_used_dev (y_s y) = false) as -> by (by eapply Z.eqb_neq, rings_used).
    cbn [negb]. unfold NUM. rewrite Hh. destruct (iv_fmt _ Hinv r Hr) as [_ _ _ _ F4 F5 F6]. rewrite F6 by congruence. cbn [Z.eqb negb].
    rewrite F4. rewrite bind_modify. unfold wakeup. rewrite bind_modifyc, bind_modify.
    unfold get_vbuf. rewrite F5. cbn [default set_disk_flag vb_blockno vb_data].
    destruct (IH (mkSys (see_state r (y_s y)) (y_dev y) (see_one (q_i0 r) <$> y_reqs y)) (add_woken (ChBuf (q_b r)) c) fuel)
      as (ws & s' & E & Hi' & Hw).
    { by eapply see_inv. } { by apply see_rings. } { cbn in Hf. lia. }
    exists (ChBuf (q_b r) :: ws), s'. split_and!.
    + rewrite add_woken_woke, woke_woke in E. exact E.
    + cbn [y_dev y_reqs] in Hi'. by rewrite (see_see_one y r) in Hi'.
    + intros r' Hr' Hp'. destruct (decide (r' = r)) as [->|Hne]; [left|right]. apply (Hw r'); [|done].
      cbn [y_reqs]. apply list_elem_of_fmap. exists r'. split; [|done]. symmetry. by apply (see_one_other y (q_i0 r) r r').
Qed.

Lemma intr_ok y c :
  inv y -> good c ->
  exists ws s', virtio_disk_intr c (y_s y) = Ok tt (woke ws c) s' /\ inv (mkSys s' (y_dev y) (see <$> y_reqs y)) /\
    (forall r, r ∈ y_reqs y -> q_phase r = Completed -> ChBuf (q_b r) ∈ ws).
Proof.
  intros Hinv [Hwf Hlk]. unfold virtio_disk_intr, Rd, Wr. erewrite bind_ok by (by apply acquire_free). rewrite bind_gets. rewrite bind_modify.
  set (s1 := set_vd_out _ _). assert (inv (mkSys s1 (y_dev y) (y_reqs y))) as Hinv1.
  { destruct Hinv as [[] I2 I3 I4 I5 I6 I7 I9 (pend & compl & [])]. split; cbn [y_s y_dev y_reqs]; try done; [intros r Hr; by destruct (I6 r Hr)|].
    by exists pend, compl. }
  destruct (iv_rings _ Hinv1) as (pend & compl & Hrg). pose proof (rings_length _ _ _ Hinv1 Hrg).
  destruct (intr_loop_ok pend compl _ (hold LkVdisk c) (Z.to_nat (2 ^ 16)) Hinv1 Hrg) as (ws & s' & E & Hi & Hw); [lia|].
  exists ws, s'. split_and!; [|done|done]. erewrite bind_ok by exact E. rewrite hold_woke. by apply release_hold.
Qed.

(** *** Return *)

Lemma same_but_sub (U V : list Z) s s' : (forall i, i ∈ V -> i ∈ U) -> same_but U s s' -> same_but V s s'.
Proof. intros HV [H1 H2]. split; [|done]. intros i Hi. apply H1, HV, Hi. Qed.

Lemma free_chain_ok c s b (w : bool) i0 i1 i2 U :
  shape s -> Forall in8 [i0; i1; i2] -> NoDup ([i0; i1; i2] ++ U) -> in_use s ([i0; i1; i2] ++ U) ->
  get_desc i0 s = mkDesc (VOp i0) 16 VRING_DESC_F_NEXT i1 ->
  get_desc i1 s = mkDesc (VData b) BSIZE (Z.lor (if w then 0 else VRING_DESC_F_WRITE) VRING_DESC_F_NEXT) i2 ->
  get_desc i2 s = mkDesc (VStatus i0) 1 VRING_DESC_F_WRITE 0 ->
  exists s', free_chain i0 c s = Ok tt (woke [ChVdiskFree; ChVdiskFree; ChVdiskFree] c) s' /\ shape s' /\ in_use s' U /\ same_but U s s'.
Proof.
  intros Hs H8 Hnd HU D0 D1 D2. rewrite !Forall_cons in H8. destruct H8 as (A0 & A1 & A2 & _).
  cbn [app] in Hnd. apply NoDup_cons in Hnd as [N0 Hnd]. apply NoDup_cons in Hnd as [N1 Hnd]. apply NoDup_cons in Hnd as [N2 _].
  destruct (free_desc_same c s i0 (i1 :: i2 :: U)) as (s1 & E0 & Hs1 & HU1 & Hsb1); try done.
  set (c1 := add_woken ChVdiskFree c) in *.
  destruct (free_desc_same c1 s1 i1 (i2 :: U)) as (s2 & E1 & Hs2 & HU2 & Hsb2); try done. set (c2 := add_woken ChVdiskFree c1) in *.
  destruct (free_desc_same c2 s2 i2 U) as (s3 & E2 & Hs3 & HU3 & Hsb3); try done.
  assert (get_desc i1 s1 = get_desc i1 s) as G1 by (apply (sb_desc _ _ _ Hsb1); [left|done]).
  assert (get_desc i2 s2 = get_desc i2 s) as G2.
  { rewrite (sb_desc _ _ _ Hsb2) by (done || left). apply (sb_desc _ _ _ Hsb1); [right; left|done]. }
  exists s3. split_and!; [|done|done|].
  - unfold free_chain. change (Z.to_nat NUM) with 8%nat. cbn [free_chain_loop]. rewrite bind_get, D0. erewrite bind_ok by exact E0.
    cbn [ds_flags ds_next]. change (Z.land VRING_DESC_F_NEXT VRING_DESC_F_NEXT =? 0) with false. cbn [negb].
    rewrite bind_get, G1, D1. erewrite bind_ok by exact E1. cbn [ds_flags ds_next].
    assert (Z.land (Z.lor (if w then 0 else VRING_DESC_F_WRITE) VRING_DESC_F_NEXT) VRING_DESC_F_NEXT =? 0 = false) as -> by (by destruct w).
    cbn [negb]. rewrite bind_get, G2, D2. erewrite bind_ok by exact E2. cbn [ds_flags].
    change (Z.land VRING_DESC_F_WRITE VRING_DESC_F_NEXT =? 0) with true. cbn [negb]. unfold c2, c1. by rewrite !add_woken_woke, !woke_woke.
  - eapply same_but_trans; [eapply same_but_sub; [|exact Hsb1]; set_solver|].
    eapply same_but_trans; [eapply same_but_sub; [|exact Hsb2]; set_solver|done].
Qed.

Lemma all_idx_split rs1 r rs2 : all_idx (rs1 ++ r :: rs2) ≡ₚ idxs r ++ all_idx (rs1 ++ rs2).
Proof.
  unfold all_idx. rewrite !fmap_app, !fmap_cons, !concat_app. cbn [concat].
  rewrite (Permutation_app_comm (concat (idxs <$> rs1))), <- !app_assoc. f_equiv. apply Permutation_app_comm.
Qed.

Lemma return_inv y rs1 r rs2 s' :
  inv y -> y_reqs y = rs1 ++ r :: rs2 -> q_phase r = Seen -> shape s' -> in_use s' (all_idx (rs1 ++ rs2)) ->
  same_but (all_idx (rs1 ++ rs2)) (set_vd_info_b (<[Z.to_nat (q_i0 r) := None]> (vd_info_b (y_s y))) (y_s y)) s' ->
  inv (mkSys s' (y_dev y) (rs1 ++ rs2)).
Proof.
  intros Hinv E Hp Hs' HU' Hsb. pose proof Hinv as [I1 I2 I3 I4 I5 I6 I7 I9 (pend & compl & [R1 R2 R3 R4 R5 R6 R7 R8])].
  assert (exists D FL, s' = set_vd_desc D (set_vd_free FL (set_vd_info_b (<[Z.to_nat (q_i0 r) := None]> (vd_info_b (y_s y))) (y_s y))))
    as (D & FL & Es') by (eexists _, _; apply (sb_rest _ _ _ Hsb)).
  assert (r ∈ y_reqs y) as Hr by (rewrite E; apply elem_of_app; right; left).
  assert (forall q, q ∈ rs1 ++ rs2 -> q ∈ y_reqs y) as Hsub by (intros q; rewrite E, !elem_of_app, elem_of_cons; tauto).
  pose proof I3 as I3'. rewrite E, all_idx_split in I3'. apply NoDup_app in I3' as (_ & Hdis & Hnd).
  pose proof I4 as I4'. rewrite E, all_idx_split in I4'. apply Forall_app in I4' as [Ir8 Irest8].
  assert (forall q, q ∈ rs1 ++ rs2 -> q <> r) as Hne.
  { intros q Hq ->. apply (Hdis (q_i0 r)); [left|]. apply elem_all_idx. exists r. split; [done|left]. }
  split; cbn [y_s y_dev y_reqs]; try done.
  - rewrite E, fmap_app, fmap_cons, <- Permutation_middle in I5. apply NoDup_cons in I5 as [_ I5]. by rewrite fmap_app.
  - intros q Hq. eapply same_but_formatted; [exact Hsb| |].
    + intros i Hi. assert (i ∈ all_idx (rs1 ++ rs2)) by (apply elem_all_idx; eauto). split; [done|]. by rewrite Forall_forall in Irest8; apply Irest8.
    + apply (formatted_frame (y_s y)); try done; [by apply I6, Hsub|]. cbn.
      destruct (req_in8 _ _ Hinv Hr) as (R0 & _), (req_in8 _ _ Hinv (Hsub q Hq)) as (Q0 & _). unfold in8 in *.
      rewrite nth_insertZ by (rewrite ?(sh_info_b _ I1); lia).
      destruct (Z.eqb_spec (q_i0 r) (q_i0 q)) as [Eq|]; [|done]. exfalso. apply (Hne q Hq). by eapply req_head_inj; [|apply Hsub| |].
  - rewrite Es'. done.
  - assert (forall ph h, ph <> Seen -> (exists q, q ∈ rs1 ++ rs2 /\ q_i0 q = h /\ q_phase q = ph) <-> exists q, q ∈ y_reqs y /\ q_i0 q = h /\ q_phase q = ph) as Hiff.
    { intros ph h Hph. split; intros (q & Hq & ? & Hqp); exists q; (split; [|done]); [by apply Hsub|].
      rewrite E, elem_of_app, elem_of_cons in Hq. rewrite elem_of_app. destruct Hq as [?|[->|?]]; [tauto|congruence|tauto]. }
    exists pend, compl. split; cbn [y_s y_dev y_reqs]; rewrite ?Es'; try done; intros h; rewrite Hiff by done; done.
Qed.

Lemma wait_ok y c rs1 r rs2 :
  inv y -> good c -> y_reqs y = rs1 ++ r :: rs2 ->
  if decide (q_phase r = Seen)
  then exists s', virtio_disk_wait (q_b r) (q_i0 r) (hold LkVdisk c) (y_s y) = Ok tt (woke [ChVdiskFree; ChVdiskFree; ChVdiskFree] c) s' /\
         inv (mkSys s' (y_dev y) (rs1 ++ rs2)) /\ vd_bufs s' = vd_bufs (y_s y)
  else virtio_disk_wait (q_b r) (q_i0 r) (hold LkVdisk c) (y_s y) = Blocked (ChBuf (q_b r)) c (y_s y).
Proof.
  intros Hinv [Hwf Hlk] E. pose proof Hinv as [I1 I2 I3 I4 I5 I6 I7 I9 _].
  assert (r ∈ y_reqs y) as Hr by (rewrite E; apply elem_of_app; right; left). destruct (I6 r Hr) as [F0 F1 F2 F3 F4 F5 F6].
  unfold virtio_disk_wait. rewrite bind_gets. unfold get_vbuf. rewrite F5. cbn [default from_option id vb_disk].
  destruct (decide (q_phase r = Seen)) as [Hp|Hp]; cbn [Z.eqb Pos.eqb].
  - rewrite bind_modify. set (s1 := set_vd_info_b _ _).
    rewrite E, all_idx_split in I2 || (rewrite E in I2; apply (in_use_perm _ _ (idxs r ++ all_idx (rs1 ++ rs2))) in I2; [|by intros i; rewrite all_idx_split]).
    rewrite E, all_idx_split in I3, I4. apply Forall_app in I4 as [I4 _].
    destruct (free_chain_ok (hold LkVdisk c) s1 (q_b r) (q_write r) (q_i0 r) (q_i1 r) (q_i2 r) (all_idx (rs1 ++ rs2)))
      as (s' & Ef & Hs' & HU' & Hsb); try done.
    { destruct I1. split; cbn; rewrite ?length_insert; done. }
    exists s'. erewrite bind_ok by exact Ef. rewrite hold_woke. split_and!; [by apply release_hold|by eapply return_inv|].
    pose proof (sb_rest _ _ _ Hsb) as Hrest. rewrite Hrest. done.
  - by rewrite sleep_hold.
Qed.

(** ** Reachable states *)

Definition same_out (s s' : vdisk) : Prop := exists o, s' = set_vd_out o s.
Lemma same_out_refl s : same_out s s.
Proof. exists (vd_out s). by destruct s. Qed.
Lemma bind_rd {A} r (f : Z -> M vdisk A) s0 c s a c' s' :
  same_out s0 s -> (Rd r ≫= f) c s = Ok a c' s' -> exists v s1, same_out s0 s1 /\ f v c s1 = Ok a c' s'.
Proof. intros Hs E. unfold Rd in E. rewrite bind_gets in E. eauto. Qed.
Lemma bind_wr {A} r v (f : unit -> M vdisk A) s0 c s a c' s' :
  same_out s0 s -> (Wr r v ≫= f) c s = Ok a c' s' -> exists s1, same_out s0 s1 /\ f tt c s1 = Ok a c' s'.
Proof. intros [o ->] E. unfold Wr in E. rewrite bind_modify in E. eexists. split; [|exact E]. by eexists. Qed.

Lemma init_fields pages c s0 c' s :
  virtio_disk_init pages c s0 = Ok tt c' s ->
  vd_desc s = repeat desc0 8 /\ vd_avail_idx s = 0 /\ vd_avail_ring s = repeat 0 8 /\ vd_used_dev s = 0 /\ vd_used_ring s = repeat 0 8 /\
  vd_used_idx s = vd_used_idx s0 /\ vd_info_b s = vd_info_b s0 /\ vd_info_status s = vd_info_status s0 /\ vd_ops s = vd_ops s0 /\
  vd_bufs s = vd_bufs s0 /\ (length (vd_free s0) = 8%nat -> vd_free s = repeat 1 8).
Proof.
  intros E. unfold virtio_disk_init, initlock in E. rewrite bind_modifyc in E.
  pose proof (same_out_refl s0) as Hs1.
  repeat (first [apply (bind_rd _ _ _ _ _ _ _ _ Hs1) in E as (? & ? & Hs & E); clear Hs1; rename Hs into Hs1
                |apply (bind_wr _ _ _ _ _ _ _ _ _ Hs1) in E as (? & Hs & E); clear Hs1; rename Hs into Hs1
                |case_match; [done|]]; cbv zeta in E; cbv beta in E).
  rewrite bind_modify in E.
  destruct Hs1 as [o ->]. unfold Wr in E. rewrite bind_modify in E. change (seqZ 0 NUM) with [0; 1; 2; 3; 4; 5; 6; 7] in E. cbn [forM] in E.
  rewrite !bind_modify in E. injection E as _ <-. split_and!; try done. intros Hl. cbn.
  by destruct (vd_free s0) as [|f0 [|f1 [|f2 [|f3 [|f4 [|f5 [|f6 [|f7 [|]]]]]]]]].
Qed.

Lemma vinitial_inv y : initial y -> inv y.
Proof.
  intros (c & s0 & c' & pages & E & L1 & L2 & L3 & L4 & Hu & Hb & Hdk & Hseen & Hwork & Hreqs).
  destruct (init_fields _ _ _ _ _ E) as (E1 & E2 & E3 & E4 & E5 & E6 & E7 & E8 & E9 & E10 & E11). specialize (E11 L1).
  split; rewrite ?Hreqs; try done.
  - split; by rewrite ?E1, ?E3, ?E5, ?E7, ?E8, ?E9, ?E11.
  - intros i Hi. rewrite decide_False by (intros Hn; by apply elem_of_nil in Hn). unfold free_at. rewrite E11.
    unfold in8 in Hi. assert (i = 0 \/ i = 1 \/ i = 2 \/ i = 3 \/ i = 4 \/ i = 5 \/ i = 6 \/ i = 7) as Hc by lia.
    by repeat (destruct Hc as [->|Hc]; [done|]); subst.
  - apply NoDup_nil_2.
  - apply NoDup_nil_2.
  - intros r Hn. by apply elem_of_nil in Hn.
  - by rewrite E10.
  - exists [], []. split; rewrite ?Hreqs, ?Hwork, ?Hseen, ?E2, ?E4, ?E6, ?Hu; try done; try (apply NoDup_nil_2).
    + intros h. split; [intros Hn; by apply elem_of_nil in Hn|intros (r & Hn & _); by apply elem_of_nil in Hn].
    + intros h. split; [intros Hn; by apply elem_of_nil in Hn|intros (r & Hn & _); by apply elem_of_nil in Hn].
Qed.

Lemma vstep_inv y y' : inv y -> step y y' -> inv y'.
Proof.
  intros Hinv Hstep. destruct Hstep as [b l blk Hi Hb|c b w i0 c' s' Hg Hi [x Hx] E|c b w c' s' Hg Hi [x Hx] E|v' E|h s' v' Hh E|c c' s' Hg E|c c' s' rs1 r rs2 Hg Er E].
  - by apply store_inv.
  - destruct (submit_ok y c b w x Hinv Hg Hi Hx) as [(j & s2 & E' & H')|(ws & s2 & E' & _)]; [|congruence].
    rewrite E in E'. by injection E' as -> _ ->.
  - destruct (submit_ok y c b w x Hinv Hg Hi Hx) as [(j & s2 & E' & H')|(ws & s2 & E' & H' & _)]; [congruence|].
    rewrite E in E'. by injection E' as _ ->.
  - by apply fetch_inv.
  - destruct (iv_rings _ Hinv) as (pend & compl & Hr). destruct (proj1 (rg_pending _ _ _ Hr h)) as (r & Hin & <- & Hp); [apply elem_of_app; by right|].
    rewrite (device_complete_ok y r Hinv Hin Hp) in E. injection E as <- <-. by apply complete_inv.
  - destruct (intr_ok y c Hinv Hg) as (ws & s2 & E' & H' & _). rewrite E in E'. by injection E' as _ ->.
  - pose proof (wait_ok y c rs1 r rs2 Hinv Hg Er) as Hw. case_decide; [|congruence].
    destruct Hw as (s2 & E' & H' & _). rewrite E in E'. by injection E' as _ ->.
Qed.

Lemma vreachable_inv y0 y : initial y0 -> rtc step y0 y -> inv y.
Proof. intros H0 Hr. apply vinitial_inv in H0. induction Hr; eauto using vstep_inv. Qed.

Lemma crowded_full rs : NoDup (all_idx rs) -> crowded (all_idx rs) -> (2 <= length rs)%nat.
Proof.
  intros Hnd Hc. set (L := filter (fun i => i ∉ all_idx rs) (seqZ 0 8)).
  assert (length L <= 2)%nat as HL.
  { destruct L as [|i [|j [|k L']]] eqn:EL; cbn [length]; try lia. exfalso.
    assert (forall x, x ∈ i :: j :: k :: L' -> x ∉ all_idx rs /\ in8 x) as Hx.
    { intros x Hx. rewrite <- EL in Hx. apply list_elem_of_filter in Hx as [? Hx%elem_of_seqZ]. split; [done|unfold in8; lia]. }
    assert (NoDup (i :: j :: k :: L')) as HnL by (rewrite <- EL; apply NoDup_filter, NoDup_seqZ).
    destruct (Hx i) as [A1 A2]; [set_solver|]. destruct (Hx j) as [B1 B2]; [set_solver|]. destruct (Hx k) as [C1 C2]; [set_solver|].
    destruct (Hc i j k A2 B2 C2) as [?|[?|?]]; try done. change (i :: j :: k :: L') with ([i; j; k] ++ L') in HnL. by apply NoDup_app in HnL as [? _]. }
  assert (seqZ 0 8 ⊆+ all_idx rs ++ L) as Hsub.
  { apply NoDup_submseteq; [apply NoDup_seqZ|]. intros i Hi. rewrite elem_of_app. destruct (decide (i ∈ all_idx rs)); [by left|right].
    by apply list_elem_of_filter. }
  apply submseteq_length in Hsub. rewrite length_app, length_all_idx in Hsub. change (length (seqZ 0 8)) with 8%nat in Hsub. lia.
Qed.

(** What the driver promises in the state [y]. *)
Record disk_promise (y : sys) (c : core) : Prop := {
  (* a call starts a request, or sleeps because two are in progress *)
  dp_submit : forall b w x, idle y b -> vd_bufs (y_s y) !! b = Some x ->
    (exists i0 s', virtio_disk_submit b w c (y_s y) = Ok i0 (hold LkVdisk c) s') \/
    (exists ws s', virtio_disk_submit b w c (y_s y) = Blocked ChVdiskFree (woke ws c) s' /\ (2 <= length (y_reqs y))%nat);
  (* the device understands every chain it is given, and carries out the request *)
  dp_device : forall h, h ∈ dv_work (y_dev y) -> exists r s' v', r ∈ y_reqs y /\ q_i0 r = h /\
    device_complete h (y_s y) (y_dev y) = Some (s', v') /\ dv_disk v' = effect r (dv_disk (y_dev y)) /\
    vb_data (get_vbuf (q_b r) s') = result r (dv_disk (y_dev y));
  (* an interrupt wakes the processes whose requests are complete *)
  dp_intr : exists ws s', virtio_disk_intr c (y_s y) = Ok tt (woke ws c) s' /\
    forall r, r ∈ y_reqs y -> q_phase r = Completed -> ChBuf (q_b r) ∈ ws;
  (* a process returns with the result of its request, once that has been seen; before, it sleeps *)
  dp_return : forall r, r ∈ y_reqs y -> q_phase r = Seen ->
    exists ws s', virtio_disk_wait (q_b r) (q_i0 r) (hold LkVdisk c) (y_s y) = Ok tt (woke ws c) s' /\
      ChVdiskFree ∈ ws /\ vd_bufs s' !! q_b r = Some (mkVbuf (q_blk r) (q_data r) 0);
  dp_wait : forall r, r ∈ y_reqs y -> q_phase r <> Seen ->
    virtio_disk_wait (q_b r) (q_i0 r) (hold LkVdisk c) (y_s y) = Blocked (ChBuf (q_b r)) c (y_s y);
  (* a completed request that no interrupt has reported is still in the used ring *)
  dp_used : forall r, r ∈ y_reqs y -> q_phase r = Completed -> vd_used_idx (y_s y) <> vd_used_dev (y_s y)
}.

Lemma inv_promise y c : inv y -> good c -> disk_promise y c.
Proof.
  intros Hinv Hg. split.
  - intros b w x Hi Hx. destruct (submit_ok y c b w x Hinv Hg Hi Hx) as [(i0 & s' & E & _)|(ws & s' & E & _ & Hc)]; [left|right]; [eauto|].
    exists ws, s'. split; [done|]. apply crowded_full; [apply (iv_nodup _ Hinv)|done].
  - intros h Hh. destruct (iv_rings _ Hinv) as (pend & compl & Hr).
    destruct (proj1 (rg_pending _ _ _ Hr h)) as (r & Hin & <- & Hp); [apply elem_of_app; by right|].
    eexists r, _, _. rewrite (device_complete_ok y r Hinv Hin Hp). split_and!; try done. unfold get_vbuf, complete_state. cbn.
    by rewrite lookup_insert_eq.
  - destruct (intr_ok y c Hinv Hg) as (ws & s' & E & _ & Hw). eauto.
  - intros r Hr Hp. destruct (list_elem_of_split _ _ Hr) as (rs1 & rs2 & E). pose proof (wait_ok y c rs1 r rs2 Hinv Hg E) as Hw.
    rewrite decide_True in Hw by done. destruct Hw as (s' & Ew & _ & Hb). eexists _, s'. split; [exact Ew|]. split; [left|].
    rewrite Hb. destruct (iv_fmt _ Hinv r Hr) as [_ _ _ _ _ F5 _]. by rewrite F5, decide_True.
  - intros r Hr Hp. destruct (list_elem_of_split _ _ Hr) as (rs1 & rs2 & E). pose proof (wait_ok y c rs1 r rs2 Hinv Hg E) as Hw.
    by rewrite decide_False in Hw.
  - intros r Hr Hp. destruct (iv_rings _ Hinv) as (pend & compl & Hrg). apply (rings_used y pend compl Hinv Hrg).
    intros ->. assert (q_i0 r ∈ []) as Hn by (apply (rg_compl _ _ _ Hrg); eauto). by apply elem_of_nil in Hn.
Qed.

(** C4: The driver and the device implement block reads and writes: in every
    state that any interleaving of calls, device steps, interrupts and
    returns leads to, no call panics; a call starts its request or sleeps
    because two others are in progress; the device finds in each chain the
    request as it was made and applies it to the disk; completions are
    reported and wake the caller, who returns with the data of the block. *)
Theorem disk_requests y0 y c : initial y0 -> rtc step y0 y -> good c -> disk_promise y c.
Proof. intros H0 Hr Hg. apply inv_promise; [by eapply vreachable_inv|done]. Qed.

(** A device with the registers that virtio_disk_init expects, and a buffer
    for block 7. *)
Definition ex_vdisk : vdisk :=
  mkVdisk [] 0 [] 0 [] (repeat 0 8) 0 (repeat None 8) (repeat 0 8) (repeat (mkReq 0 0 0) 8) {[3%nat := mkVbuf 7 (repeat 1 1024) 0]}
    (fun r => if r =? 0 then 0x74726976 else if r =? 4 then 1 else if r =? 8 then 2 else if r =? 0xc then 0x554d4551 else 8) [].
Definition ex_vcore : core := mkCore 0 2 0 1 None {[LkVdisk := mkSpinlock 0 "virtio_disk" None]} [] ∅.
Definition ex_inited : vdisk := match virtio_disk_init 0x80010000 ex_vcore ex_vdisk with Ok _ _ s => s | _ => ex_vdisk end.
Definition ex_sys : sys := mkSys ex_inited (mkDevice 0 [] (mkDisk ∅ [])) [].

Lemma ex_sys_initial : initial ex_sys.
Proof.
  exists ex_vcore, ex_vdisk. eexists _, 0x80010000. split; [by vm_compute|]. split_and!; try done.
  intros b x Hx. unfold ex_vdisk in Hx. cbn [vd_bufs] in Hx. apply lookup_singleton_Some in Hx as [_ <-]. split; [cbn; lia|done].
Qed.

Lemma ex_vgood : good ex_vcore.
Proof. split; [done|]. by exists "virtio_disk". Qed.

(** The buffer is written: the request is submitted, the device takes it and
    completes it, and the interrupt reports it. *)
Lemma ex_written : exists y r, rtc step ex_sys y /\ r ∈ y_reqs y /\ q_phase r = Seen /\
  disk_read (dv_disk (y_dev y)) 7 = repeat 1 1024.
Proof.
  do 2 eexists. split; [eapply rtc_l; [|eapply rtc_l; [|eapply rtc_l; [|eapply rtc_once]]]|].
  - eapply (step_submit _ ex_vcore 3 true); [exact ex_vgood| |by eexists|vm_compute; reflexivity].
    intros r Hr. by apply elem_of_nil in Hr.
  - eapply step_fetch. vm_compute. reflexivity.
  - eapply (step_complete _ 0); [left|vm_compute; reflexivity].
  - eapply (step_intr _ ex_vcore); [exact ex_vgood|vm_compute; reflexivity].
  - cbn [y_reqs fmap list_fmap]. split; [left|]. split; vm_compute; reflexivity.
Qed.

Lemma disk_requests_witness : exists y r, r ∈ y_reqs y /\ q_phase r = Seen /\
  disk_read (dv_disk (y_dev y)) 7 = repeat 1 1024 /\ disk_promise y ex_vcore.
Proof.
  destruct ex_written as (y & r & Hy & Hr & Hp & Hd). exists y, r. split; [exact Hr|]. split; [exact Hp|]. split; [exact Hd|].
  exact (disk_requests ex_sys y ex_vcore ex_sys_initial Hy ex_vgood).
Defined.
