(* ===== verification/Kst.v ===== *)
(** * The state of the kernel above the file system

    The remaining global variables of the kernel, with the data types of
    proc.h, file.h and console.c, and the lenses that run the code of the
    components below in this state. *)

From Stdlib Require Import ZArith Lia.
From stdpp Require Import base gmap list numbers strings.
From S2P Require Import Prelude Riscv Core Spinlock Kstring Kalloc Vm Sleeplock Bio Log Pipe Fs Uart Virtio.
Local Open Scope Z_scope.

(** ** file.h *)

Inductive ftype : Type := FD_NONE | FD_PIPE | FD_INODE | FD_DEVICE.
#[export] Instance ftype_eq_dec : EqDecision ftype.
Proof. solve_decision. Defined.

Record file : Type := mkFile {
  f_type : ftype;
  f_ref : Z;              (* reference count *)
  f_readable : Z;
  f_writable : Z;
  f_pipe : Z;             (* FD_PIPE *)
  f_ip : nat;             (* FD_INODE and FD_DEVICE *)
  f_off : Z;              (* FD_INODE *)
  f_major : Z             (* FD_DEVICE *)
}.

(** Whether the function pointers are set; the only values ever stored are
    consoleread and consolewrite. *)
Record devsw : Type := mkDevsw { dv_read : bool; dv_write : bool }.
Definition CONSOLE : Z := 1.

(** ** console.c *)

Record cons : Type := mkCons {
  cs_buf : list Z;
  cs_r : Z;               (* Read index *)
  cs_w : Z;               (* Write index *)
  cs_e : Z                (* Edit index *)
}.

(** ** proc.h *)

Inductive procstate : Type := UNUSED | USED | SLEEPING | RUNNABLE | RUNNING | ZOMBIE.
#[export] Instance procstate_eq_dec : EqDecision procstate.
Proof. solve_decision. Defined.

(** [struct context]: the return address, the stack pointer and s0 to s11. *)
Record context : Type := mkContext { cx_ra : Z; cx_sp : Z; cx_s : list Z }.

(** The lock of entry [i] of proc[] is [LkProc i].  The trapframe is in
    memory, at the address [p_trapframe]. *)
Record proc : Type := mkProc {
  p_state : procstate;
  p_chan : option chan;        (* If non-zero, sleeping on chan *)
  p_killed : Z;                (* If non-zero, have been killed *)
  p_xstate : Z;                (* Exit status to be returned to parent's wait *)
  p_pid : Z;                   (* Process ID *)
  p_parent : option nat;       (* Parent process *)
  p_kstack : Z;                (* Virtual address of kernel stack *)
  p_sz : Z;                    (* Size of process memory (bytes) *)
  p_pagetable : Z;             (* User page table *)
  p_trapframe : Z;             (* data page for trampoline.S *)
  p_context : context;         (* swtch() here to run process *)
  p_ofile : list (option nat); (* Open files *)
  p_cwd : option nat;          (* Current directory *)
  p_name : list Z              (* Process name (debugging) *)
}.

(** Addresses that the linker chooses. *)
Record symbols : Type := mkSymbols {
  sy_etext : Z;
  sy_trampoline : Z;
  sy_uservec : Z;
  sy_userret : Z;
  sy_forkret : Z;
  sy_usertrap : Z;
  sy_kernelvec : Z;
  sy_main : Z;
  sy_timervec : Z;
  sy_timer_scratch : Z;
  sy_disk_pages : Z
}.

(** Control and status registers, other than sstatus which is in [core]. *)
Inductive csr : Type :=
| Mstatus | Mepc | Medeleg | Mideleg | Sie | Pmpaddr0 | Pmpcfg0 | Mhartid | Mscratch | Mtvec | Mie
| Satp | Stvec | Sepc | Scause | Stval | Sip | Time.
#[export] Instance csr_eq_dec : EqDecision csr.
Proof. solve_decision. Defined.

Record kst : Type := mkKst {
  k_fs : fsst;                 (* file system, memory and disk *)
  k_pipes : gmap Z pipe;       (* by the address of their page *)
  k_ftable : list file;
  k_devsw : list devsw;
  k_cons : cons;
  k_uart : uart;
  k_locking : Z;               (* printf.c: pr.locking *)
  k_proc : list proc;
  k_initproc : option nat;
  k_nextpid : Z;
  k_first : Z;                 (* forkret: static int first *)
  k_ticks : Z;
  k_kpgtbl : Z;
  k_syms : symbols;
  k_csr : csr -> Z;            (* registers of the hart that runs *)
  k_mmio : list (Z * Z);       (* stores to the PLIC and the CLINT, oldest first *)
  k_claims : list Z;           (* device: the answers to the coming claims at the PLIC *)
  k_started : Z;               (* main.c *)
  k_vdisk : vdisk              (* virtio_disk.c *)
}.

Definition set_k_fs (x : fsst) (s : kst) : kst :=
  mkKst x (k_pipes s) (k_ftable s) (k_devsw s) (k_cons s) (k_uart s) (k_locking s) (k_proc s) (k_initproc s) (k_nextpid s) (k_first s) (k_ticks s) (k_kpgtbl s) (k_syms s) (k_csr s) (k_mmio s) (k_claims s) (k_started s) (k_vdisk s).
Definition set_k_pipes (x : gmap Z pipe) (s : kst) : kst :=
  mkKst (k_fs s) x (k_ftable s) (k_devsw s) (k_cons s) (k_uart s) (k_locking s) (k_proc s) (k_initproc s) (k_nextpid s) (k_first s) (k_ticks s) (k_kpgtbl s) (k_syms s) (k_csr s) (k_mmio s) (k_claims s) (k_started s) (k_vdisk s).
Definition set_k_ftable (x : list file) (s : kst) : kst :=
  mkKst (k_fs s) (k_pipes s) x (k_devsw s) (k_cons s) (k_uart s) (k_locking s) (k_proc s) (k_initproc s) (k_nextpid s) (k_first s) (k_ticks s) (k_kpgtbl s) (k_syms s) (k_csr s) (k_mmio s) (k_claims s) (k_started s) (k_vdisk s).
Definition set_k_devsw (x : list devsw) (s : kst) : kst :=
  mkKst (k_fs s) (k_pipes s) (k_ftable s) x (k_cons s) (k_uart s) (k_locking s) (k_proc s) (k_initproc s) (k_nextpid s) (k_first s) (k_ticks s) (k_kpgtbl s) (k_syms s) (k_csr s) (k_mmio s) (k_claims s) (k_started s) (k_vdisk s).
Definition set_k_cons (x : cons) (s : kst) : kst :=
  mkKst (k_fs s) (k_pipes s) (k_ftable s) (k_devsw s) x (k_uart s) (k_locking s) (k_proc s) (k_initproc s) (k_nextpid s) (k_first s) (k_ticks s) (k_kpgtbl s) (k_syms s) (k_csr s) (k_mmio s) (k_claims s) (k_started s) (k_vdisk s).
Definition set_k_uart (x : uart) (s : kst) : kst :=
  mkKst (k_fs s) (k_pipes s) (k_ftable s) (k_devsw s) (k_cons s) x (k_locking s) (k_proc s) (k_initproc s) (k_nextpid s) (k_first s) (k_ticks s) (k_kpgtbl s) (k_syms s) (k_csr s) (k_mmio s) (k_claims s) (k_started s) (k_vdisk s).
Definition set_k_locking (x : Z) (s : kst) : kst :=
  mkKst (k_fs s) (k_pipes s) (k_ftable s) (k_devsw s) (k_cons s) (k_uart s) x (k_proc s) (k_initproc s) (k_nextpid s) (k_first s) (k_ticks s) (k_kpgtbl s) (k_syms s) (k_csr s) (k_mmio s) (k_claims s) (k_started s) (k_vdisk s).
Definition set_k_proc (x : list proc) (s : kst) : kst :=
  mkKst (k_fs s) (k_pipes s) (k_ftable s) (k_devsw s) (k_cons s) (k_uart s) (k_locking s) x (k_initproc s) (k_nextpid s) (k_first s) (k_ticks s) (k_kpgtbl s) (k_syms s) (k_csr s) (k_mmio s) (k_claims s) (k_started s) (k_vdisk s).
Definition set_k_initproc (x : option nat) (s : kst) : kst :=
  mkKst (k_fs s) (k_pipes s) (k_ftable s) (k_devsw s) (k_cons s) (k_uart s) (k_locking s) (k_proc s) x (k_nextpid s) (k_first s) (k_ticks s) (k_kpgtbl s) (k_syms s) (k_csr s) (k_mmio s) (k_claims s) (k_started s) (k_vdisk s).
Definition set_k_nextpid (x : Z) (s : kst) : kst :=
  mkKst (k_fs s) (k_pipes s) (k_ftable s) (k_devsw s) (k_cons s) (k_uart s) (k_locking s) (k_proc s) (k_initproc s) x (k_first s) (k_ticks s) (k_kpgtbl s) (k_syms s) (k_csr s) (k_mmio s) (k_claims s) (k_started s) (k_vdisk s).
Definition set_k_first (x : Z) (s : kst) : kst :=
  mkKst (k_fs s) (k_pipes s) (k_ftable s) (k_devsw s) (k_cons s) (k_uart s) (k_locking s) (k_proc s) (k_initproc s) (k_nextpid s) x (k_ticks s) (k_kpgtbl s) (k_syms s) (k_csr s) (k_mmio s) (k_claims s) (k_started s) (k_vdisk s).
Definition set_k_ticks (x : Z) (s : kst) : kst :=
  mkKst (k_fs s) (k_pipes s) (k_ftable s) (k_devsw s) (k_cons s) (k_uart s) (k_locking s) (k_proc s) (k_initproc s) (k_nextpid s) (k_first s) x (k_kpgtbl s) (k_syms s) (k_csr s) (k_mmio s) (k_claims s) (k_started s) (k_vdisk s).
Definition set_k_kpgtbl (x : Z) (s : kst) : kst :=
  mkKst (k_fs s) (k_pipes s) (k_ftable s) (k_devsw s) (k_cons s) (k_uart s) (k_locking s) (k_proc s) (k_initproc s) (k_nextpid s) (k_first s) (k_ticks s) x (k_syms s) (k_csr s) (k_mmio s) (k_claims s) (k_started s) (k_vdisk s).
Definition set_k_syms (x : symbols) (s : kst) : kst :=
  mkKst (k_fs s) (k_pipes s) (k_ftable s) (k_devsw s) (k_cons s) (k_uart s) (k_locking s) (k_proc s) (k_initproc s) (k_nextpid s) (k_first s) (k_ticks s) (k_kpgtbl s) x (k_csr s) (k_mmio s) (k_claims s) (k_started s) (k_vdisk s).
Definition set_k_csr (x : csr -> Z) (s : kst) : kst :=
  mkKst (k_fs s) (k_pipes s) (k_ftable s) (k_devsw s) (k_cons s) (k_uart s) (k_locking s) (k_proc s) (k_initproc s) (k_nextpid s) (k_first s) (k_ticks s) (k_kpgtbl s) (k_syms s) x (k_mmio s) (k_claims s) (k_started s) (k_vdisk s).
Definition set_k_mmio (x : list (Z * Z)) (s : kst) : kst :=
  mkKst (k_fs s) (k_pipes s) (k_ftable s) (k_devsw s) (k_cons s) (k_uart s) (k_locking s) (k_proc s) (k_initproc s) (k_nextpid s) (k_first s) (k_ticks s) (k_kpgtbl s) (k_syms s) (k_csr s) x (k_claims s) (k_started s) (k_vdisk s).
Definition set_k_claims (x : list Z) (s : kst) : kst :=
  mkKst (k_fs s) (k_pipes s) (k_ftable s) (k_devsw s) (k_cons s) (k_uart s) (k_locking s) (k_proc s) (k_initproc s) (k_nextpid s) (k_first s) (k_ticks s) (k_kpgtbl s) (k_syms s) (k_csr s) (k_mmio s) x (k_started s) (k_vdisk s).
Definition set_k_started (x : Z) (s : kst) : kst :=
  mkKst (k_fs s) (k_pipes s) (k_ftable s) (k_devsw s) (k_cons s) (k_uart s) (k_locking s) (k_proc s) (k_initproc s) (k_nextpid s) (k_first s) (k_ticks s) (k_kpgtbl s) (k_syms s) (k_csr s) (k_mmio s) (k_claims s) x (k_vdisk s).
Definition set_k_vdisk (x : vdisk) (s : kst) : kst :=
  mkKst (k_fs s) (k_pipes s) (k_ftable s) (k_devsw s) (k_cons s) (k_uart s) (k_locking s) (k_proc s) (k_initproc s) (k_nextpid s) (k_first s) (k_ticks s) (k_kpgtbl s) (k_syms s) (k_csr s) (k_mmio s) (k_claims s) (k_started s) x.

(** ** Lenses *)

Definition kl_fs : lens fsst kst :=
  mkLens k_fs (fun x s => set_k_fs x s)
    (fun s t => eq_refl) (fun t => match t with mkKst _ _ _ _ _ _ _ _ _ _ _ _ _ _ _ _ _ _ _ => eq_refl end) (fun s s' t => eq_refl).
Definition kl_uart : lens uart kst :=
  mkLens k_uart (fun x s => set_k_uart x s)
    (fun s t => eq_refl) (fun t => match t with mkKst _ _ _ _ _ _ _ _ _ _ _ _ _ _ _ _ _ _ _ => eq_refl end) (fun s s' t => eq_refl).
Definition kl_vdisk : lens vdisk kst :=
  mkLens k_vdisk (fun x s => set_k_vdisk x s)
    (fun s t => eq_refl) (fun t => match t with mkKst _ _ _ _ _ _ _ _ _ _ _ _ _ _ _ _ _ _ _ => eq_refl end) (fun s s' t => eq_refl).

Definition lens_comp {R S T} (l1 : lens R S) (l2 : lens S T) : lens R T.
Proof.
  refine (mkLens (fun t => lens_get l1 (lens_get l2 t)) (fun r t => lens_set l2 (lens_set l1 r (lens_get l2 t)) t) _ _ _).
  - intros r t. by rewrite lens_get_set, lens_get_set.
  - intros t. by rewrite lens_set_get, lens_set_get.
  - intros r r' t. by rewrite lens_get_set, lens_set_set, lens_set_set.
Defined.

Definition kl_log : lens logst kst := lens_comp fs_logl kl_fs.
Definition kl_kmem : lens kmem kst := lens_comp fs_kmeml kl_fs.

(** The pipes and the memory they copy from and to. *)
Definition kl_pipe : lens pipest kst.
Proof.
  refine (mkLens (fun t => mkPipest (fs_kmem (k_fs t)) (k_pipes t))
    (fun x t => set_k_pipes (ps_pipes x) (lens_set kl_kmem (ps_kmem x) t)) _ _ _).
  - by intros [].
  - by intros [[] ? ? ? ? ? ? ? ? ? ? ? ? ? ? ? ? ? ?].
  - done.
Defined.

Definition mem (s : kst) : memory := km_mem (fs_kmem (k_fs s)).

Definition proc0 : proc :=
  mkProc UNUSED None 0 0 0 None 0 0 0 0 (mkContext 0 0 []) (repeat None (Z.to_nat NOFILE)) None (repeat 0 16).
Definition get_proc (i : nat) (s : kst) : proc := nth i (k_proc s) proc0.
Definition set_p_state (x : procstate) (p : proc) : proc :=
  mkProc x (p_chan p) (p_killed p) (p_xstate p) (p_pid p) (p_parent p) (p_kstack p) (p_sz p) (p_pagetable p) (p_trapframe p) (p_context p) (p_ofile p) (p_cwd p) (p_name p).
Definition set_p_chan (x : option chan) (p : proc) : proc :=
  mkProc (p_state p) x (p_killed p) (p_xstate p) (p_pid p) (p_parent p) (p_kstack p) (p_sz p) (p_pagetable p) (p_trapframe p) (p_context p) (p_ofile p) (p_cwd p) (p_name p).
Definition set_p_killed (x : Z) (p : proc) : proc :=
  mkProc (p_state p) (p_chan p) x (p_xstate p) (p_pid p) (p_parent p) (p_kstack p) (p_sz p) (p_pagetable p) (p_trapframe p) (p_context p) (p_ofile p) (p_cwd p) (p_name p).
Definition set_p_xstate (x : Z) (p : proc) : proc :=
  mkProc (p_state p) (p_chan p) (p_killed p) x (p_pid p) (p_parent p) (p_kstack p) (p_sz p) (p_pagetable p) (p_trapframe p) (p_context p) (p_ofile p) (p_cwd p) (p_name p).
Definition set_p_pid (x : Z) (p : proc) : proc :=
  mkProc (p_state p) (p_chan p) (p_killed p) (p_xstate p) x (p_parent p) (p_kstack p) (p_sz p) (p_pagetable p) (p_trapframe p) (p_context p) (p_ofile p) (p_cwd p) (p_name p).
Definition set_p_parent (x : option nat) (p : proc) : proc :=
  mkProc (p_state p) (p_chan p) (p_killed p) (p_xstate p) (p_pid p) x (p_kstack p) (p_sz p) (p_pagetable p) (p_trapframe p) (p_context p) (p_ofile p) (p_cwd p) (p_name p).
Definition set_p_kstack (x : Z) (p : proc) : proc :=
  mkProc (p_state p) (p_chan p) (p_killed p) (p_xstate p) (p_pid p) (p_parent p) x (p_sz p) (p_pagetable p) (p_trapframe p) (p_context p) (p_ofile p) (p_cwd p) (p_name p).
Definition set_p_sz (x : Z) (p : proc) : proc :=
  mkProc (p_state p) (p_chan p) (p_killed p) (p_xstate p) (p_pid p) (p_parent p) (p_kstack p) x (p_pagetable p) (p_trapframe p) (p_context p) (p_ofile p) (p_cwd p) (p_name p).
Definition set_p_pagetable (x : Z) (p : proc) : proc :=
  mkProc (p_state p) (p_chan p) (p_killed p) (p_xstate p) (p_pid p) (p_parent p) (p_kstack p) (p_sz p) x (p_trapframe p) (p_context p) (p_ofile p) (p_cwd p) (p_name p).
Definition set_p_trapframe (x : Z) (p : proc) : proc :=
  mkProc (p_state p) (p_chan p) (p_killed p) (p_xstate p) (p_pid p) (p_parent p) (p_kstack p) (p_sz p) (p_pagetable p) x (p_context p) (p_ofile p) (p_cwd p) (p_name p).
Definition set_p_context (x : context) (p : proc) : proc :=
  mkProc (p_state p) (p_chan p) (p_killed p) (p_xstate p) (p_pid p) (p_parent p) (p_kstack p) (p_sz p) (p_pagetable p) (p_trapframe p) x (p_ofile p) (p_cwd p) (p_name p).
Definition set_p_ofile (x : list (option nat)) (p : proc) : proc :=
  mkProc (p_state p) (p_chan p) (p_killed p) (p_xstate p) (p_pid p) (p_parent p) (p_kstack p) (p_sz p) (p_pagetable p) (p_trapframe p) (p_context p) x (p_cwd p) (p_name p).
Definition set_p_cwd (x : option nat) (p : proc) : proc :=
  mkProc (p_state p) (p_chan p) (p_killed p) (p_xstate p) (p_pid p) (p_parent p) (p_kstack p) (p_sz p) (p_pagetable p) (p_trapframe p) (p_context p) (p_ofile p) x (p_name p).
Definition set_p_name (x : list Z) (p : proc) : proc :=
  mkProc (p_state p) (p_chan p) (p_killed p) (p_xstate p) (p_pid p) (p_parent p) (p_kstack p) (p_sz p) (p_pagetable p) (p_trapframe p) (p_context p) (p_ofile p) (p_cwd p) x.

(** ** The current process

    The components below see the fields of the current process that they use
    as [c_proc]; [view_of] is that view and [upd_proc], which stores to an
    entry of proc[], keeps it up to date. *)

Definition view_of (i : nat) (p : proc) : curproc :=
  mkCurproc i (p_pid p) (p_killed p) (p_pagetable p) (p_sz p) (default 0%nat (p_cwd p)).

Definition upd_proc (i : nat) (f : proc -> proc) : M kst unit := fun c s =>
  let p := f (get_proc i s) in
  let c' := match c_proc c with
            | Some cp => if decide (cp_idx cp = i) then set_proc (Some (view_of i p)) c else c
            | None => c
            end in
  Ok tt c' (set_k_proc (<[i := p]> (k_proc s)) s).

(** [myproc()] where the code uses the result without a test. *)
Definition myproc_idx : M kst nat :=
  p ← myproc;
  match p with None => fault "myproc()" | Some p => mret (cp_idx p) end.
