(* ===== verification/KstExample.v ===== *)
(** * A concrete kernel state

    A hart with interrupts on that holds no lock, running the first process;
    eight pages are free and the device answers at once.  The theorems about
    the kernel as a whole are instantiated at this state. *)

From Stdlib Require Import ZArith Lia.
From stdpp Require Import base gmap list numbers strings.
From S2P Require Import Prelude Riscv Core Spinlock Kstring Kalloc Vm Sleeplock Bio BioAbs Log LogOps Fs Uart Virtio Kst.
Local Open Scope Z_scope.

Definition exk_locks : gmap lockid spinlock :=
  list_to_map ((fun lk => (lk, mkSpinlock 0 "lock" None)) <$>
    [LkKmem; LkCons; LkUartTx; LkPid; LkWait; LkFtable; LkItable; LkLog; LkBcache; LkTicks; LkPr] ++ (LkProc <$> seq 0 64)).
Definition exk_core : core :=
  mkCore 0 SSTATUS_SIE 0 1 (Some (mkCurproc 0 1 0 0 0 0)) exk_locks [] ∅.

(** Pages 1 to 8 after the kernel, each with the address of the next. *)
Definition exk_page (k : Z) : Z := KERNBASE + k * 4096.
Definition exk_mem : memory :=
  foldr (fun k m => store64 m (exk_page k) (if k =? 8 then 0 else exk_page (k + 1))) ∅ (seqZ 1 8).
Definition exk_kmem : kmem := mkKmem (exk_page 1) (exk_page 1) exk_mem.

Definition exk_fs : fsst :=
  mkFsst (mkSuperblock 0 0 0 0 0 0 0 0) [] (mkLogst (mkLog 2 30 0 0 1 0 (repeat 0 30)) (bcache0 (mkDisk ∅ []))) exk_kmem.

Definition exk_proc (i : nat) : proc :=
  mkProc (if decide (i = 0%nat) then RUNNING else UNUSED) None 0 0 (if decide (i = 0%nat) then 1 else 0) None 0 0 0 0
    (mkContext 0 0 []) (repeat None 16) None (repeat 0 16).

Definition exk_kst : kst :=
  mkKst exk_fs ∅ (repeat (mkFile FD_NONE 0 0 0 0 0 0 0) 100) (repeat (mkDevsw false false) 10) (mkCons (repeat 0 128) 0 0 0)
    (mkUart (repeat 0 32) 0 0 0 [] [] []) 1 (exk_proc <$> seq 0 64) (Some 0%nat) 2 0 0 0
    (mkSymbols 0 0x80007000 0 0 0x80001000 0 0 0 0 0 0) (fun _ => 0) [] [] 1
    (mkVdisk [] 0 [] 0 [] [] 0 [] [] [] ∅ (fun _ => 0) []).

Lemma exk_core_wf : core_wf exk_core.
Proof. by split_and!. Qed.

Lemma exk_proc_locks i : (i < 64)%nat -> lock_free (LkProc i) exk_core.
Proof.
  intros Hi. exists "lock". change (exk_locks !! LkProc i = Some (mkSpinlock 0 "lock" None)).
  do 64 (destruct i as [|i]; [by vm_compute|]). lia.
Qed.
