(* ===== verification/Sched.v ===== *)
(** * Switching between processes: sleep, wakeup, sched and scheduler of kernel/proc.c

    A process gives up the cpu by calling [swtch] inside [sched]; for the
    model the outcome of its kernel code is then [Blocked].  [klift] runs the
    code of a lower component in the kernel state: the wakeups it issued are
    carried out on proc[], and where it sleeps the process table records it. *)

From Stdlib Require Import ZArith Lia.
From stdpp Require Import base gmap list numbers strings relations.
From S2P Require Import Prelude Riscv Core Spinlock Sleeplock Kst.
Local Open Scope Z_scope.

Definition procs : list nat := seq 0 (Z.to_nat NPROC).

Definition proc_wakeup (ch : chan) : M kst unit :=
  forM procs (fun i =>
    me ← myproc;
    if decide (cp_idx <$> me = Some i) then mret tt else
    _ ← acquire (LkProc i);
    p ← gets (get_proc i);
    _ ← when (bool_decide (p_state p = SLEEPING) && bool_decide (p_chan p = Some ch))
          (upd_proc i (set_p_state RUNNABLE));
    release (LkProc i)).

(** Up to the call of [swtch]; [ch] is what the process waits for. *)
Definition sched {A} (ch : chan) : M kst A :=
  p ← myproc_idx;
  c ← getc;
  if negb (holding (LkProc p) c) then panic "sched p->lock" else
  if negb (c_noff c =? 1) then panic "sched locks" else
  s ← get;
  if bool_decide (p_state (get_proc p s) = RUNNING) then panic "sched running" else
  if intr_get c then panic "sched interruptible" else
  blocked ch.

Definition proc_sleep {A} (ch : chan) (lk : lockid) : M kst A :=
  p ← myproc_idx;
  _ ← acquire (LkProc p);
  _ ← release lk;
  _ ← upd_proc p (fun p => set_p_state SLEEPING (set_p_chan (Some ch) p));
  sched ch.

Definition yield : M kst unit :=
  p ← myproc_idx;
  _ ← acquire (LkProc p);
  _ ← upd_proc p (set_p_state RUNNABLE);
  sched ChNone.

(** The body of the loop of [scheduler] for entry [i], up to [swtch]: whether
    the process was chosen. *)
Definition scheduler_try (i : nat) : M kst bool :=
  _ ← acquire (LkProc i);
  p ← gets (get_proc i);
  if bool_decide (p_state p = RUNNABLE) then
    _ ← upd_proc i (set_p_state RUNNING);
    p ← gets (get_proc i);
    _ ← modifyc (set_proc (Some (view_of i p)));
    mret true
  else
    _ ← release (LkProc i);
    mret false.

(** After [swtch] came back to the scheduler. *)
Definition scheduler_back (i : nat) : M kst unit :=
  _ ← modifyc (set_proc None);
  release (LkProc i).

(** One round over the table; a chosen process runs in between, as [run]. *)
Definition scheduler_round (run : nat -> M kst unit) : M kst unit :=
  _ ← modifyc intr_on;
  forM procs (fun i =>
    b ← scheduler_try i;
    if (b : bool) then _ ← run i; scheduler_back i else mret tt).

(** ** Running lower components *)

(** Carry out the wakeups issued by a component. *)
Definition clear_woken (c : core) : core :=
  mkCore (c_tp c) (c_sstatus c) (c_noff c) (c_intena c) (c_proc c) (c_locks c) [] (c_slocks c).
Definition deliver : M kst unit :=
  c ← getc;
  _ ← modifyc clear_woken;
  forM (c_woken c) proc_wakeup.

(** A component that sleeps has released its lock. *)
Definition sleep_on {A} (ch : chan) : M kst A :=
  p ← myproc_idx;
  _ ← acquire (LkProc p);
  _ ← upd_proc p (fun p => set_p_state SLEEPING (set_p_chan (Some ch) p));
  sched ch.

Definition klift {S A} (l : lens S kst) (m : M S A) : M kst A := fun c s =>
  match lift l m c s with
  | Ok a c' s' => (_ ← deliver; mret a) c' s'
  | Blocked ch c' s' => (_ ← deliver; sleep_on ch) c' s'
  | r => r
  end.
