(* ===== verification/Printf.v ===== *)
(** * Formatted output: kernel/printf.c, and consputc of kernel/console.c

    Characters are bytes.  [printf] takes its variable arguments as a list;
    an argument that is missing is a fault. *)

From Stdlib Require Import ZArith Lia Ascii.
From stdpp Require Import base gmap list numbers strings.
From S2P Require Import Prelude Riscv Core Spinlock Uart Kst.
Local Open Scope Z_scope.

(** The bytes of a string literal. *)
Definition str (s : string) : list Z := (fun a => Z.of_N (N_of_ascii a)) <$> String.list_ascii_of_string s.

Definition BACKSPACE : Z := 0x100.

Definition consputc (c : Z) : M uart unit :=
  if c =? BACKSPACE then
    _ ← uartputc_sync 8; _ ← uartputc_sync 32; uartputc_sync 8
  else uartputc_sync c.

(** digits[] *)
Definition digit (d : Z) : Z := nth (Z.to_nat d) (str "0123456789abcdef") 0.

(** The do loop of [printint]: the bytes stored in [buf], the lowest digit
    first; the last one is stored when the quotient is 0. *)
Fixpoint printint_digits (x base : Z) (fuel : nat) : list Z :=
  match fuel with
  | O => []
  | S fuel => digit (x mod base) :: (if x / base =? 0 then [] else printint_digits (x / base) base fuel)
  end.

(** The characters in the order of output.  [x] is a 32-bit unsigned int, so
    32 turns are enough for every base from 2 on. *)
Definition printint_chars (xx base : Z) (sign : bool) : list Z :=
  let neg := sign && (xx <? 0) in
  let x := if neg then u32 (- xx) else u32 xx in
  let buf := printint_digits x base 32 in
  rev (if neg then buf ++ [45] else buf).

Definition printint (xx base : Z) (sign : bool) : M uart unit :=
  forM (printint_chars xx base sign) consputc.

(** The digit [i] of [x], from the highest: [x] has been shifted [i] times. *)
Fixpoint printptr_loop (x : Z) (k : nat) : M uart unit :=
  match k with
  | O => mret tt
  | S k => _ ← consputc (digit (Z.shiftr x 60)); printptr_loop (u64 (Z.shiftl x 4)) k
  end.

Definition printptr (x : Z) : M uart unit :=
  _ ← consputc 48;
  _ ← consputc 120;
  printptr_loop x 16.

Inductive parg : Type :=
| PInt (z : Z)
| PPtr (z : Z)
| PStr (s : option (list Z)).      (* None is the null pointer *)

(** The characters of a string up to its NUL. *)
Fixpoint printstr (s : list Z) : M uart unit :=
  match s with
  | [] => mret tt
  | c :: s => if c =? 0 then mret tt else _ ← consputc c; printstr s
  end.

(** The for loop of [printf]; the format ends at a NUL or at its end. *)
Fixpoint printf_loop (fmt : list Z) (ap : list parg) : M uart unit :=
  match fmt with
  | [] => mret tt
  | c :: fmt =>
      if c =? 0 then mret tt else
      if negb (c =? 37) then _ ← consputc c; printf_loop fmt ap else
      match fmt with
      | [] => mret tt
      | c :: fmt =>
          if c =? 0 then mret tt else
          if c =? 100 then                                       (* 'd' *)
            match ap with PInt z :: ap => _ ← printint z 10 true; printf_loop fmt ap | _ => fault "va_arg" end
          else if c =? 120 then                                  (* 'x' *)
            match ap with PInt z :: ap => _ ← printint z 16 true; printf_loop fmt ap | _ => fault "va_arg" end
          else if c =? 112 then                                  (* 'p' *)
            match ap with PPtr z :: ap => _ ← printptr z; printf_loop fmt ap | _ => fault "va_arg" end
          else if c =? 115 then                                  (* 's' *)
            match ap with
            | PStr s :: ap => _ ← printstr (default (str "(null)") s); printf_loop fmt ap
            | _ => fault "va_arg"
            end
          else if c =? 37 then _ ← consputc 37; printf_loop fmt ap
          else _ ← consputc 37; _ ← consputc c; printf_loop fmt ap
      end
  end.

Definition printf (fmt : list Z) (ap : list parg) : M kst unit :=
  locking ← gets k_locking;
  _ ← when (negb (locking =? 0)) (acquire LkPr);
  _ ← lift kl_uart (printf_loop fmt ap);
  when (negb (locking =? 0)) (release LkPr).

Definition set_panicked (u : uart) : uart :=
  mkUart (uart_tx_buf u) (uart_tx_w u) (uart_tx_r u) 1 (ud_in u) (ud_idle u) (ud_out u).

(** What [panic] does before the hart loops forever. *)
Definition kpanic (s : list Z) : M kst unit :=
  _ ← modify (set_k_locking 0);
  _ ← printf (str "panic: ") [];
  _ ← printf s [];
  _ ← printf [10] [];
  modify (fun k => set_k_uart (set_panicked (k_uart k)) k).

Definition printfinit : M kst unit :=
  _ ← initlock LkPr "pr";
  modify (set_k_locking 1).

(** ** The digits of a number *)

Definition digit_value (c : Z) : Z := if c <? 97 then c - 48 else c - 87.
Definition digits_value (base : Z) (l : list Z) : Z := foldr (fun c v => digit_value c + base * v) 0 l.

Lemma digit_value_digit d : 0 <= d < 16 -> digit_value (digit d) = d.
Proof.
  intros Hd. assert (d ∈ seqZ 0 16) as Hin by (apply elem_of_seqZ; lia). revert d Hd Hin.
  enough (Forall (fun d => digit_value (digit d) = d) (seqZ 0 16)) as H by (intros; by eapply (proj1 (Forall_forall _ _) H)).
  apply (bool_decide_unpack _). vm_compute. exact I.
Qed.

Lemma printint_digits_value base fuel x :
  2 <= base <= 16 -> 0 <= x < 2 ^ Z.of_nat fuel -> digits_value base (printint_digits x base fuel) = x.
Proof.
  intros Hb. revert x. induction fuel as [|fuel IH]; intros x Hx; [simpl in *; lia|].
  cbn [printint_digits digits_value foldr]. pose proof (Z.mod_pos_bound x base ltac:(lia)).
  rewrite digit_value_digit by lia. pose proof (Z.div_mod x base ltac:(lia)).
  destruct (Z.eqb_spec (x / base) 0) as [E|E]; [simpl; lia|].
  fold (digits_value base (printint_digits (x / base) base fuel)). rewrite IH; [lia|].
  split; [apply Z.div_pos; lia|]. rewrite Nat2Z.inj_succ, Z.pow_succ_r in Hx by lia.
  apply Z.div_lt_upper_bound; nia.
Qed.

Lemma printint_digits_nosign base fuel x : 2 <= base <= 16 -> 0 <= x -> Forall (fun c => c <> 45) (printint_digits x base fuel).
Proof.
  intros Hb. revert x. induction fuel as [|fuel IH]; intros x Hx; cbn [printint_digits]; constructor.
  - pose proof (Z.mod_pos_bound x base ltac:(lia)). intros E.
    pose proof (digit_value_digit (x mod base) ltac:(lia)) as Hd. rewrite E in Hd. unfold digit_value in Hd. simpl in Hd. lia.
  - case_match; [constructor|]. apply IH. apply Z.div_pos; lia.
Qed.

(** Reading a number as it was printed: an optional minus sign and digits. *)
Definition parse_int (base : Z) (l : list Z) : Z :=
  match l with
  | 45 :: l => - digits_value base (rev l)
  | _ => digits_value base (rev l)
  end.

(** [printint] with sign prints the number: reading its output back in the
    same base gives the argument, for every 32-bit int, in decimal and in
    hexadecimal. *)
Theorem printint_roundtrip xx base :
  2 <= base <= 16 -> - 2 ^ 31 <= xx < 2 ^ 31 -> parse_int base (printint_chars xx base true) = xx.
Proof.
  intros Hb Hx. unfold printint_chars. cbn [andb].
  destruct (Z.ltb_spec xx 0) as [Hn|Hn].
  - rewrite rev_app_distr. cbn [rev app parse_int]. rewrite rev_involutive, u32_small by lia.
    rewrite printint_digits_value by lia. lia.
  - rewrite u32_small by lia. pose proof (printint_digits_nosign base 32 xx Hb Hn) as Hs.
    pose proof (printint_digits_value base 32 xx Hb ltac:(lia)) as Hv.
    set (l := printint_digits xx base 32) in *. clearbody l.
    assert (parse_int base (rev l) = digits_value base (rev (rev l))) as ->; [|by rewrite rev_involutive].
    destruct (rev l) as [|c r] eqn:E; [done|]. unfold parse_int.
    assert (c <> 45) by (eapply (proj1 (Forall_forall _ _) Hs); apply elem_of_rev; rewrite E; set_solver).
    repeat (case_match; try done).
Qed.

Lemma printint_roundtrip_witness :
  printint_chars (- 2 ^ 31) 10 true = str "-2147483648" /\ parse_int 10 (printint_chars (- 2 ^ 31) 10 true) = - 2 ^ 31.
Proof. split; [reflexivity|]. apply (printint_roundtrip (- 2 ^ 31) 10); lia. Defined.
