(* ===== verification/Console.v ===== *)
(** * The console: kernel/console.c, uartintr of kernel/uart.c and procdump of kernel/proc.c

    Input goes through a circular buffer with three indices: [r] up to [w] are
    the bytes of finished lines, [w] up to [e] the line being edited. *)

From Stdlib Require Import ZArith Lia.
From stdpp Require Import base gmap list numbers strings relations.
From S2P Require Import Prelude Ring Riscv Core Spinlock Sleeplock Fs Uart Kst Sched Printf.
Local Open Scope Z_scope.

Definition INPUT_BUF : Z := 128.
(** Control-x *)
Definition Ctl (x : Z) : Z := x - 64.
Definition NL : Z := 10.

(** ** Operations *)

Definition state_name (st : procstate) : list Z :=
  match st with
  | UNUSED => str "unused"
  | SLEEPING => str "sleep "
  | RUNNABLE => str "runble"
  | RUNNING => str "run   "
  | ZOMBIE => str "zombie"
  | USED => str "???"                 (* no entry in states[] *)
  end.

Definition procdump : M kst unit :=
  _ ← printf [NL] [];
  forM procs (fun i =>
    p ← gets (get_proc i);
    if bool_decide (p_state p = UNUSED) then mret tt else
    _ ← printf (str "%d %s %s") [PInt (p_pid p); PStr (Some (state_name (p_state p))); PStr (Some (p_name p))];
    printf [NL] []).

Fixpoint consolewrite_loop (src : mem_src) (n i : Z) (fuel : nat) : M kst Z :=
  if i <? n then
    match fuel with
    | O => nofuel
    | S fuel =>
        r ← lift kl_fs (either_copyin (src_add src i) 1);
        if r.1 =? -1 then mret i else
        _ ← klift kl_uart (uartputc (nth 0 r.2 0));
        consolewrite_loop src n (i + 1) fuel
    end
  else mret i.

Definition consolewrite (src : mem_src) (n : Z) : M kst Z := consolewrite_loop src n 0 (Z.to_nat n).

Definition set_r (x : Z) (k : cons) : cons := mkCons (cs_buf k) x (cs_w k) (cs_e k).
Definition set_w (x : Z) (k : cons) : cons := mkCons (cs_buf k) (cs_r k) x (cs_e k).
Definition set_e (x : Z) (k : cons) : cons := mkCons (cs_buf k) (cs_r k) (cs_w k) x.
Definition upd_cons (f : cons -> cons) (s : kst) : kst := set_k_cons (f (k_cons s)) s.

(** The outer while loop of [consoleread] with the lock held: [inl] is the
    result, [inr] the call of sleep with the locals [dst] and [n]. *)
Fixpoint consoleread_loop (target : Z) (dst : mem_dst) (n : Z) (fuel : nat) : M kst (Z + mem_dst * Z) :=
  if 0 <? n then
    match fuel with
    | O => nofuel
    | S fuel =>
        k ← gets k_cons;
        if cs_r k =? cs_w k then
          p ← myproc;
          match p with
          | None => fault "consoleread: myproc()"
          | Some p => if negb (cp_killed p =? 0) then _ ← release LkCons; mret (inl (-1))
                      else mret (inr (dst, n))
          end
        else
        let c := nth (Z.to_nat (cs_r k mod INPUT_BUF)) (cs_buf k) 0 in
        _ ← modify (upd_cons (set_r (u32 (cs_r k + 1))));
        if c =? Ctl 68 then                      (* end-of-file *)
          _ ← when (n <? target) (modify (upd_cons (fun k => set_r (u32 (cs_r k - 1)) k)));
          _ ← release LkCons; mret (inl (target - n))
        else
        r ← lift kl_fs (either_copyout dst [c]);
        if r.1 =? -1 then _ ← release LkCons; mret (inl (target - n)) else
        if c =? NL then _ ← release LkCons; mret (inl (target - (n - 1)))
        else consoleread_loop target (dst_add dst 1) (n - 1) fuel
    end
  else _ ← release LkCons; mret (inl (target - n)).

Definition consoleread_run (target : Z) (dst : mem_dst) (n : Z) : M kst (Z + mem_dst * Z) :=
  _ ← acquire LkCons;
  consoleread_loop target dst n (Z.to_nat n).

Definition consoleread (dst : mem_dst) (n : Z) : M kst Z :=
  r ← consoleread_run n dst n;
  match r with inl v => mret v | inr _ => proc_sleep ChConsR LkCons end.

(** The while loop for ^U. *)
Fixpoint kill_line (fuel : nat) : M kst unit :=
  k ← gets k_cons;
  if negb (cs_e k =? cs_w k) && negb (nth (Z.to_nat (u32 (cs_e k - 1) mod INPUT_BUF)) (cs_buf k) 0 =? NL) then
    match fuel with
    | O => nofuel
    | S fuel =>
        _ ← modify (upd_cons (set_e (u32 (cs_e k - 1))));
        _ ← lift kl_uart (consputc BACKSPACE);
        kill_line fuel
    end
  else mret tt.

Definition consoleintr (c : Z) : M kst unit :=
  _ ← acquire LkCons;
  _ ← (if c =? Ctl 80 then procdump                                    (* ^P *)
       else if c =? Ctl 85 then kill_line (Z.to_nat INPUT_BUF)          (* ^U *)
       else if (c =? Ctl 72) || (c =? 127) then                        (* Backspace *)
         k ← gets k_cons;
         if negb (cs_e k =? cs_w k) then
           _ ← modify (upd_cons (set_e (u32 (cs_e k - 1))));
           lift kl_uart (consputc BACKSPACE)
         else mret tt
       else
         k ← gets k_cons;
         if negb (c =? 0) && (u32 (cs_e k - cs_r k) <? INPUT_BUF) then
           let c := if c =? 13 then NL else c in
           _ ← lift kl_uart (consputc c);
           _ ← modify (upd_cons (fun k =>
                 mkCons (<[Z.to_nat (cs_e k mod INPUT_BUF) := u8 c]> (cs_buf k)) (cs_r k) (cs_w k) (u32 (cs_e k + 1))));
           k ← gets k_cons;
           if (c =? NL) || (c =? Ctl 68) || (cs_e k =? u32 (cs_r k + INPUT_BUF)) then
             _ ← modify (upd_cons (fun k => set_w (cs_e k) k));
             proc_wakeup ChConsR
           else mret tt
         else mret tt);
  release LkCons.

(** The while loop of [uartintr]: every received byte goes to the console. *)
Fixpoint uartintr_loop (fuel : nat) : M kst unit :=
  c ← lift kl_uart uartgetc;
  if c =? -1 then mret tt else
  match fuel with
  | O => nofuel
  | S fuel => _ ← consoleintr c; uartintr_loop fuel
  end.

Definition uartintr : M kst unit :=
  u ← gets k_uart;
  _ ← uartintr_loop (length (ud_in u));
  _ ← acquire LkUartTx;
  _ ← klift kl_uart uartstart;
  release LkUartTx.

Definition consoleinit : M kst unit :=
  _ ← initlock LkCons "cons";
  _ ← lift kl_uart uartinit;
  modify (fun s => set_k_devsw (<[Z.to_nat CONSOLE := mkDevsw true true]> (k_devsw s)) s).
