(* ===== verification/File.v ===== *)
(** * Open files: kernel/file.c, and pipealloc of kernel/pipe.c *)

From Stdlib Require Import ZArith Lia.
From stdpp Require Import base gmap list numbers strings.
From S2P Require Import Prelude Riscv Core Spinlock Kstring Kalloc Vm Sleeplock Bio Log Pipe Fs Uart Kst Sched Printf Console.
Local Open Scope Z_scope.

Definition file0 : file := mkFile FD_NONE 0 0 0 0 0 0 0.
Definition get_file (f : nat) (s : kst) : file := nth f (k_ftable s) file0.
Definition upd_file (f : nat) (g : file -> file) (s : kst) : kst :=
  set_k_ftable (<[f := g (get_file f s)]> (k_ftable s)) s.

Definition set_fref (r : Z) (f : file) : file :=
  mkFile (f_type f) r (f_readable f) (f_writable f) (f_pipe f) (f_ip f) (f_off f) (f_major f).
Definition set_ftype (t : ftype) (f : file) : file :=
  mkFile t (f_ref f) (f_readable f) (f_writable f) (f_pipe f) (f_ip f) (f_off f) (f_major f).
Definition set_off (o : Z) (f : file) : file :=
  mkFile (f_type f) (f_ref f) (f_readable f) (f_writable f) (f_pipe f) (f_ip f) o (f_major f).

Definition fileinit : M kst unit := initlock LkFtable "ftable".

(** The first entry with [ref == 0]. *)
Fixpoint free_file (l : list file) (i : nat) : option nat :=
  match l with
  | [] => None
  | f :: l => if f_ref f =? 0 then Some i else free_file l (S i)
  end.

Definition filealloc : M kst (option nat) :=
  _ ← acquire LkFtable;
  t ← gets k_ftable;
  match free_file t 0 with
  | Some f =>
      _ ← modify (upd_file f (set_fref 1));
      _ ← release LkFtable;
      mret (Some f)
  | None =>
      _ ← release LkFtable;
      mret None
  end.

Definition filedup (f : nat) : M kst nat :=
  _ ← acquire LkFtable;
  x ← gets (get_file f);
  if f_ref x <? 1 then panic "filedup" else
  _ ← modify (upd_file f (set_fref (f_ref x + 1)));
  _ ← release LkFtable;
  mret f.

Definition fileclose (f : nat) : M kst unit :=
  _ ← acquire LkFtable;
  x ← gets (get_file f);
  if f_ref x <? 1 then panic "fileclose" else
  _ ← modify (upd_file f (set_fref (f_ref x - 1)));
  if 0 <? f_ref x - 1 then release LkFtable else
  ff ← gets (get_file f);
  _ ← modify (upd_file f (fun x => set_ftype FD_NONE (set_fref 0 x)));
  _ ← release LkFtable;
  match f_type ff with
  | FD_PIPE => klift kl_pipe (pipeclose (f_pipe ff) (f_writable ff))
  | FD_INODE | FD_DEVICE =>
      _ ← klift kl_log begin_op;
      _ ← klift kl_fs (iput (f_ip ff));
      klift kl_log end_op
  | FD_NONE => mret tt
  end.

(** The bytes of a [struct stat]: dev, ino, type, nlink and, aligned to 8, size. *)
Definition stat_bytes (st : stat) : list Z :=
  le_bytes 4 (st_dev st) ++ le_bytes 4 (st_ino st) ++ le_bytes 2 (st_type st) ++ le_bytes 2 (st_nlink st) ++
  le_bytes 4 0 ++ le_bytes 8 (st_size st).

Definition filestat (f : nat) (addr : Z) : M kst Z :=
  p ← myproc_idx;
  x ← gets (get_file f);
  match f_type x with
  | FD_INODE | FD_DEVICE =>
      _ ← klift kl_fs (ilock (f_ip x));
      st ← klift kl_fs (stati (f_ip x));
      _ ← klift kl_fs (iunlock (f_ip x));
      s ← get;
      r ← lift kl_kmem (copyout (p_pagetable (get_proc p s)) addr (stat_bytes st) 24);
      if r <? 0 then mret (-1) else mret 0
  | _ => mret (-1)
  end.

Definition dev_of (major : Z) (s : kst) : devsw := nth (Z.to_nat major) (k_devsw s) (mkDevsw false false).

Definition fileread (f : nat) (addr n : Z) : M kst Z :=
  x ← gets (get_file f);
  if f_readable x =? 0 then mret (-1) else
  match f_type x with
  | FD_PIPE => klift kl_pipe (piperead (f_pipe x) addr n)
  | FD_DEVICE =>
      s ← get;
      if (f_major x <? 0) || (NDEV <=? f_major x) || negb (dv_read (dev_of (f_major x) s)) then mret (-1)
      else consoleread (ToUser addr) n
  | FD_INODE =>
      _ ← klift kl_fs (ilock (f_ip x));
      r ← klift kl_fs (readi (f_ip x) (ToUser addr) (f_off x) (u32 n));
      _ ← when (0 <? r.1) (modify (upd_file f (fun x => set_off (u32 (f_off x + r.1)) x)));
      _ ← klift kl_fs (iunlock (f_ip x));
      mret r.1
  | FD_NONE => panic "fileread"
  end.

Definition filewrite_max : Z := ((MAXOPBLOCKS - 1 - 1 - 2) / 2) * BSIZE.

(** The while loop over the chunks; the value is [i]. *)
Fixpoint filewrite_loop (f : nat) (addr n i : Z) (fuel : nat) : M kst Z :=
  if i <? n then
    match fuel with
    | O => nofuel
    | S fuel =>
        let n1 := n - i in
        let n1 := if filewrite_max <? n1 then filewrite_max else n1 in
        _ ← klift kl_log begin_op;
        x ← gets (get_file f);
        _ ← klift kl_fs (ilock (f_ip x));
        x ← gets (get_file f);
        r ← klift kl_fs (writei (f_ip x) (FromUser (u64 (addr + i))) (f_off x) n1);
        _ ← when (0 <? r) (modify (upd_file f (fun x => set_off (u32 (f_off x + r)) x)));
        _ ← klift kl_fs (iunlock (f_ip x));
        _ ← klift kl_log end_op;
        if negb (r =? n1) then mret i else filewrite_loop f addr n (i + r) fuel
    end
  else mret i.

(** [kl] is what pipewrite reads from [pr->killed]. *)
Definition filewrite (kl : nat -> bool) (f : nat) (addr n : Z) : M kst Z :=
  x ← gets (get_file f);
  if f_writable x =? 0 then mret (-1) else
  match f_type x with
  | FD_PIPE => klift kl_pipe (pipewrite (f_pipe x) addr n kl)
  | FD_DEVICE =>
      s ← get;
      if (f_major x <? 0) || (NDEV <=? f_major x) || negb (dv_write (dev_of (f_major x) s)) then mret (-1)
      else consolewrite (FromUser addr) n
  | FD_INODE =>
      i ← filewrite_loop f addr n 0 (Z.to_nat n);
      mret (if i =? n then n else -1)
  | FD_NONE => panic "filewrite"
  end.

(** ** pipealloc *)

(** [None] is -1; [Some (f0, f1)] are the files for reading and writing. *)
Definition pipealloc : M kst (option (nat * nat)) :=
  let bad (f0 f1 : option nat) (pi : Z) : M kst (option (nat * nat)) :=
    _ ← when (negb (pi =? 0)) (lift kl_kmem (kfree pi));
    _ ← match f0 with Some f => fileclose f | None => mret tt end;
    _ ← match f1 with Some f => fileclose f | None => mret tt end;
    mret None in
  f0 ← filealloc;
  match f0 with
  | None => bad None None 0
  | Some a =>
      f1 ← filealloc;
      match f1 with
      | None => bad (Some a) None 0
      | Some b =>
          pi ← lift kl_kmem kalloc;
          if pi =? 0 then bad (Some a) (Some b) 0 else
          _ ← modify (fun s => set_k_pipes (<[pi := mkPipe (repeat 5 (Z.to_nat PIPESIZE)) 0 0 1 1]> (k_pipes s)) s);
          _ ← initlock (LkPipe pi) "pipe";
          _ ← modify (upd_file a (fun x => mkFile FD_PIPE (f_ref x) 1 0 pi (f_ip x) (f_off x) (f_major x)));
          _ ← modify (upd_file b (fun x => mkFile FD_PIPE (f_ref x) 0 1 pi (f_ip x) (f_off x) (f_major x)));
          mret (Some (a, b))
      end
  end.
