(* ===== verification/Proc.v ===== *)
(** * Processes: kernel/proc.c, and the kernel page table of kernel/vm.c

    An entry of proc[] is named by its index.  Fields of the trapframe are
    loads and stores in the memory of the model. *)

From Stdlib Require Import ZArith Lia.
From stdpp Require Import base gmap list numbers strings.
From S2P Require Import Prelude Riscv Core Spinlock Kstring Kalloc Vm Sleeplock Bio Log Pipe Fs Uart Kst Sched Printf Console File.
Local Open Scope Z_scope.

(** ** The kernel page table *)

Definition proc_mapstacks (kpgtbl : Z) : M kmem unit :=
  forM (seqZ 0 NPROC) (fun i =>
    pa ← kalloc;
    if pa =? 0 then panic "kalloc" else
    kvmmap kpgtbl (KSTACK i) pa PGSIZE (Z.lor PTE_R PTE_W)).

Definition kvmmake (etext trampoline : Z) : M kmem Z :=
  kpgtbl ← kalloc;
  _ ← modify (upd_mem (fun m => memset m kpgtbl 0 PGSIZE));
  _ ← kvmmap kpgtbl UART0 UART0 PGSIZE (Z.lor PTE_R PTE_W);
  _ ← kvmmap kpgtbl VIRTIO0 VIRTIO0 PGSIZE (Z.lor PTE_R PTE_W);
  _ ← kvmmap kpgtbl PLIC PLIC 0x400000 (Z.lor PTE_R PTE_W);
  _ ← kvmmap kpgtbl KERNBASE KERNBASE (u64 (etext - KERNBASE)) (Z.lor PTE_R PTE_X);
  _ ← kvmmap kpgtbl etext etext (u64 (PHYSTOP - etext)) (Z.lor PTE_R PTE_W);
  _ ← kvmmap kpgtbl TRAMPOLINE trampoline PGSIZE (Z.lor PTE_R PTE_X);
  _ ← proc_mapstacks kpgtbl;
  mret kpgtbl.

Definition kvminit : M kst unit :=
  s ← get;
  k ← lift kl_kmem (kvmmake (sy_etext (k_syms s)) (sy_trampoline (k_syms s)));
  modify (set_k_kpgtbl k).

Definition w_csr (r : csr) (v : Z) : M kst unit :=
  modify (fun s => set_k_csr (fun r' => if decide (r' = r) then u64 v else k_csr s r') s).
Definition r_csr (r : csr) : M kst Z := gets (fun s => k_csr s r).

Definition kvminithart : M kst unit :=
  k ← gets k_kpgtbl;
  w_csr Satp (MAKE_SATP k).

(** ** Fields of the trapframe *)

Definition TF_kernel_satp : Z := 0.
Definition TF_kernel_sp : Z := 8.
Definition TF_kernel_trap : Z := 16.
Definition TF_epc : Z := 24.
Definition TF_kernel_hartid : Z := 32.
Definition TF_sp : Z := 48.
Definition TF_a0 : Z := 112.
Definition TF_a1 : Z := 120.
Definition TF_a7 : Z := 168.
(** sizeof(struct trapframe) *)
Definition TF_SIZE : nat := 288.

Definition tf_get (p : nat) (off : Z) : M kst Z :=
  gets (fun s => load64 (mem s) (p_trapframe (get_proc p s) + off)).
Definition upd_kmem (f : memory -> memory) : M kst unit := lift kl_kmem (modify (upd_mem f)).
Definition tf_set (p : nat) (off v : Z) : M kst unit :=
  s ← get;
  upd_kmem (fun m => store64 m (p_trapframe (get_proc p s) + off) v).

(** ** Allocation *)

Definition procinit : M kst unit :=
  _ ← initlock LkPid "nextpid";
  _ ← initlock LkWait "wait_lock";
  forM procs (fun i =>
    _ ← initlock (LkProc i) "proc";
    upd_proc i (set_p_kstack (KSTACK (Z.of_nat i)))).

Definition allocpid : M kst Z :=
  _ ← acquire LkPid;
  pid ← gets k_nextpid;
  _ ← modify (set_k_nextpid (s32 (pid + 1)));
  _ ← release LkPid;
  mret pid.

Definition proc_freepagetable (pagetable sz : Z) : M kmem unit :=
  _ ← uvmunmap pagetable TRAMPOLINE 1 false;
  _ ← uvmunmap pagetable TRAPFRAME 1 false;
  uvmfree pagetable sz.

Definition proc_pagetable (trampoline trapframe : Z) : M kmem Z :=
  pagetable ← uvmcreate;
  if pagetable =? 0 then mret 0 else
  r ← mappages pagetable TRAMPOLINE PGSIZE trampoline (Z.lor PTE_R PTE_X);
  if r <? 0 then _ ← uvmfree pagetable 0; mret 0 else
  r ← mappages pagetable TRAPFRAME PGSIZE trapframe (Z.lor PTE_R PTE_W);
  if r <? 0 then
    _ ← uvmunmap pagetable TRAMPOLINE 1 false;
    _ ← uvmfree pagetable 0;
    mret 0
  else mret pagetable.

Definition freeproc (i : nat) : M kst unit :=
  p ← gets (get_proc i);
  _ ← when (negb (p_trapframe p =? 0)) (lift kl_kmem (kfree (p_trapframe p)));
  _ ← upd_proc i (set_p_trapframe 0);
  _ ← when (negb (p_pagetable p =? 0)) (lift kl_kmem (proc_freepagetable (p_pagetable p) (p_sz p)));
  upd_proc i (fun p =>
    mkProc UNUSED None 0 0 0 None (p_kstack p) 0 0 (p_trapframe p) (p_context p) (p_ofile p) (p_cwd p)
      (<[0%nat := 0]> (p_name p))).

(** The search of [allocproc]: the entry found, its lock held. *)
Fixpoint allocproc_scan (l : list nat) : M kst (option nat) :=
  match l with
  | [] => mret None
  | i :: l =>
      _ ← acquire (LkProc i);
      p ← gets (get_proc i);
      if bool_decide (p_state p = UNUSED) then mret (Some i)
      else _ ← release (LkProc i); allocproc_scan l
  end.

Definition allocproc : M kst (option nat) :=
  r ← allocproc_scan procs;
  match r with
  | None => mret None
  | Some i =>
      pid ← allocpid;
      _ ← upd_proc i (fun p => set_p_state USED (set_p_pid pid p));
      tf ← lift kl_kmem kalloc;
      _ ← upd_proc i (set_p_trapframe tf);
      if tf =? 0 then _ ← freeproc i; _ ← release (LkProc i); mret None else
      s ← get;
      pt ← lift kl_kmem (proc_pagetable (sy_trampoline (k_syms s)) tf);
      _ ← upd_proc i (set_p_pagetable pt);
      if pt =? 0 then _ ← freeproc i; _ ← release (LkProc i); mret None else
      _ ← upd_proc i (fun p =>
            set_p_context (mkContext (sy_forkret (k_syms s)) (u64 (p_kstack p + PGSIZE)) (repeat 0 12)) p);
      mret (Some i)
  end.

(** ** The first process *)

Definition initcode : list Z :=
  [0x17; 0x05; 0x00; 0x00; 0x13; 0x05; 0x45; 0x02;
   0x97; 0x05; 0x00; 0x00; 0x93; 0x85; 0x35; 0x02;
   0x93; 0x08; 0x70; 0x00; 0x73; 0x00; 0x00; 0x00;
   0x93; 0x08; 0x20; 0x00; 0x73; 0x00; 0x00; 0x00;
   0xef; 0xf0; 0x9f; 0xff; 0x2f; 0x69; 0x6e; 0x69;
   0x74; 0x00; 0x00; 0x24; 0x00; 0x00; 0x00; 0x00;
   0x00; 0x00; 0x00; 0x00].

(** [safestrcpy(name, src, 16)]: bytes past the ones stored stay. *)
Definition set_name (src : list Z) (p : proc) : proc :=
  set_p_name (splice 0 (safestrcpy (arr src) 16) (p_name p)) p.

Definition userinit : M kst unit :=
  r ← allocproc;
  _ ← modify (set_k_initproc r);
  match r with
  | None => fault "userinit: null process"
  | Some p =>
      s ← get;
      _ ← lift kl_kmem (uvminit (p_pagetable (get_proc p s)) initcode (Z.of_nat (length initcode)));
      _ ← upd_proc p (set_p_sz PGSIZE);
      _ ← tf_set p TF_epc 0;
      _ ← tf_set p TF_sp PGSIZE;
      _ ← upd_proc p (set_name (str "initcode"));
      cwd ← klift kl_fs (namei (str "/"));
      _ ← upd_proc p (set_p_cwd cwd);
      _ ← upd_proc p (set_p_state RUNNABLE);
      release (LkProc p)
  end.

(** ** Growing, forking, exiting, waiting *)

Definition growproc (n : Z) : M kst Z :=
  p ← myproc_idx;
  x ← gets (get_proc p);
  let sz := u32 (p_sz x) in
  if 0 <? n then
    r ← lift kl_kmem (uvmalloc (p_pagetable x) sz (u32 (sz + n)));
    if u32 r =? 0 then mret (-1) else
    _ ← upd_proc p (set_p_sz (u32 r));
    mret 0
  else if n <? 0 then
    r ← lift kl_kmem (uvmdealloc (p_pagetable x) sz (u32 (sz + n)));
    _ ← upd_proc p (set_p_sz (u32 r));
    mret 0
  else
    _ ← upd_proc p (set_p_sz sz);
    mret 0.

Definition fork : M kst Z :=
  p ← myproc_idx;
  r ← allocproc;
  match r with
  | None => mret (-1)
  | Some np =>
      s ← get;
      r ← lift kl_kmem (uvmcopy (p_pagetable (get_proc p s)) (p_pagetable (get_proc np s)) (p_sz (get_proc p s)));
      if r <? 0 then
        _ ← freeproc np;
        _ ← release (LkProc np);
        mret (-1)
      else
      _ ← upd_proc np (set_p_sz (p_sz (get_proc p s)));
      _ ← upd_kmem (fun m => wrl m (p_trapframe (get_proc np s)) (rdn m (p_trapframe (get_proc p s)) TF_SIZE));
      _ ← tf_set np TF_a0 0;
      _ ← forM (seq 0 (Z.to_nat NOFILE)) (fun i =>
            x ← gets (get_proc p);
            match nth i (p_ofile x) None with
            | Some f => g ← filedup f; upd_proc np (fun y => set_p_ofile (<[i := Some g]> (p_ofile y)) y)
            | None => mret tt
            end);
      x ← gets (get_proc p);
      _ ← match p_cwd x with
          | Some d => cwd ← klift kl_fs (idup d); upd_proc np (set_p_cwd (Some cwd))
          | None => fault "fork: idup(0)"
          end;
      _ ← upd_proc np (set_name (p_name x));
      pid ← gets (fun s => p_pid (get_proc np s));
      _ ← release (LkProc np);
      _ ← acquire LkWait;
      _ ← upd_proc np (set_p_parent (Some p));
      _ ← release LkWait;
      _ ← acquire (LkProc np);
      _ ← upd_proc np (set_p_state RUNNABLE);
      _ ← release (LkProc np);
      mret pid
  end.

Definition wakeup_parent (p : option nat) : M kst unit :=
  match p with Some i => proc_wakeup (ChProc i) | None => mret tt end.

Definition reparent (p : nat) : M kst unit :=
  forM procs (fun pp =>
    x ← gets (get_proc pp);
    if bool_decide (p_parent x = Some p) then
      init ← gets k_initproc;
      _ ← upd_proc pp (set_p_parent init);
      wakeup_parent init
    else mret tt).

Definition exit (status : Z) : M kst unit :=
  p ← myproc_idx;
  init ← gets k_initproc;
  if bool_decide (Some p = init) then panic "init exiting" else
  _ ← forM (seq 0 (Z.to_nat NOFILE)) (fun fd =>
        x ← gets (get_proc p);
        match nth fd (p_ofile x) None with
        | Some f => _ ← fileclose f; upd_proc p (fun y => set_p_ofile (<[fd := None]> (p_ofile y)) y)
        | None => mret tt
        end);
  _ ← klift kl_log begin_op;
  x ← gets (get_proc p);
  _ ← match p_cwd x with Some d => klift kl_fs (iput d) | None => fault "exit: iput(0)" end;
  _ ← klift kl_log end_op;
  _ ← upd_proc p (set_p_cwd None);
  _ ← acquire LkWait;
  _ ← reparent p;
  x ← gets (get_proc p);
  _ ← wakeup_parent (p_parent x);
  _ ← acquire (LkProc p);
  _ ← upd_proc p (fun y => set_p_state ZOMBIE (set_p_xstate status y));
  _ ← release LkWait;
  _ ← sched (A := unit) ChNone;
  panic "zombie exit".

(** The for loop of [wait]: [inl] is the result, [inr] is havekids. *)
Fixpoint wait_scan (l : list nat) (p : nat) (addr : Z) (havekids : bool) : M kst (Z + bool) :=
  match l with
  | [] => mret (inr havekids)
  | np :: l =>
      x ← gets (get_proc np);
      if bool_decide (p_parent x = Some p) then
        _ ← acquire (LkProc np);
        x ← gets (get_proc np);
        if bool_decide (p_state x = ZOMBIE) then
          me ← gets (get_proc p);
          r ← (if negb (addr =? 0)
               then lift kl_kmem (copyout (p_pagetable me) addr (le_bytes 4 (p_xstate x)) 4)
               else mret 0);
          if r <? 0 then
            _ ← release (LkProc np);
            _ ← release LkWait;
            mret (inl (-1))
          else
          _ ← freeproc np;
          _ ← release (LkProc np);
          _ ← release LkWait;
          mret (inl (p_pid x))
        else
        _ ← release (LkProc np);
        wait_scan l p addr true
      else wait_scan l p addr havekids
  end.

(** One turn of the for(;;) loop; after a sleep it is entered again. *)
Definition wait (addr : Z) : M kst Z :=
  p ← myproc_idx;
  _ ← acquire LkWait;
  r ← wait_scan procs p addr false;
  match r with
  | inl v => mret v
  | inr havekids =>
      x ← gets (get_proc p);
      if negb havekids || negb (p_killed x =? 0) then _ ← release LkWait; mret (-1)
      else proc_sleep (ChProc p) LkWait
  end.

Fixpoint kill_scan (l : list nat) (pid : Z) : M kst Z :=
  match l with
  | [] => mret (-1)
  | i :: l =>
      _ ← acquire (LkProc i);
      p ← gets (get_proc i);
      if p_pid p =? pid then
        _ ← upd_proc i (set_p_killed 1);
        _ ← when (bool_decide (p_state p = SLEEPING)) (upd_proc i (set_p_state RUNNABLE));
        _ ← release (LkProc i);
        mret 0
      else
      _ ← release (LkProc i);
      kill_scan l pid
  end.
Definition kill (pid : Z) : M kst Z := kill_scan procs pid.
