(* ===== verification/ProcSpec.v ===== *)
(** * Processes: wakeup and kill of kernel/proc.c

    What the loops over proc[] do to the table, under the locks they take. *)

From Stdlib Require Import ZArith Lia.
From stdpp Require Import base gmap list numbers strings.
From S2P Require Import Prelude Riscv Core Spinlock Kstring Kalloc Vm Sleeplock Fs Kst KstExample Sched Proc.
Local Open Scope Z_scope.

(** The running process, if any. *)
Definition me (c : core) : option nat := cp_idx <$> c_proc c.

(** The locks of the processes of [P] can be taken. *)
Definition proc_locks (P : nat -> Prop) (c : core) : Prop :=
  core_wf c /\ forall i, (i < Z.to_nat NPROC)%nat -> P i -> lock_free (LkProc i) c.

(** [l'] is [l] with entries [j] up to [j + n] changed by [f]. *)
Definition mapped (f : nat -> proc -> proc) (j n : nat) (l l' : list proc) : Prop :=
  forall i, l' !! i = if decide (j <= i < j + n)%nat then f i <$> l !! i else l !! i.

(** A loop over entries of proc[] whose body changes its own entry only. *)
Lemma forM_mapped f body j n c s :
  (forall i s, (j <= i < j + n)%nat -> (i < length (k_proc s))%nat ->
     body i c s = Ok tt c (set_k_proc (<[i := f i (get_proc i s)]> (k_proc s)) s)) ->
  (j + n <= length (k_proc s))%nat ->
  exists l', forM (seq j n) body c s = Ok tt c (set_k_proc l' s) /\ mapped f j n (k_proc s) l'.
Proof.
  revert j s. induction n as [|n IH]; intros j s Hb Hl; cbn [seq forM].
  - exists (k_proc s). split; [by destruct s|]. intros i. case_decide; [lia|done].
  - set (s1 := set_k_proc (<[j := f j (get_proc j s)]> (k_proc s)) s).
    destruct (IH (S j) s1) as (l' & Hr & Hm).
    { intros i s' Hi. apply Hb. lia. }
    { cbn. rewrite length_insert. lia. }
    exists l'. split; [by erewrite bind_ok by (apply Hb; lia)|].
    intros i. rewrite Hm. cbn [s1 k_proc set_k_proc]. destruct (decide (i = j)) as [->|Hne].
    + rewrite decide_False, decide_True by lia. rewrite list_lookup_insert_eq by lia.
      destruct (lookup_lt_is_Some_2 (k_proc s) j) as [p Hp]; [lia|]. rewrite Hp. cbn. do 2 f_equal. unfold get_proc. by apply nth_lookup_Some.
    + rewrite list_lookup_insert_ne by done. repeat case_decide; (done || lia).
Qed.

Lemma mapped_all f l l' : mapped f 0 (length l) l l' -> l' = imap f l.
Proof.
  intros H. apply list_eq. intros i. rewrite H, list_lookup_imap. case_decide; [done|]. by rewrite lookup_ge_None_2 by lia.
Qed.

(** ** wakeup *)

Definition asleep_on (ch : chan) (c : core) (i : nat) (p : proc) : Prop :=
  me c <> Some i /\ p_state p = SLEEPING /\ p_chan p = Some ch.
#[global] Instance asleep_dec ch c i p : Decision (asleep_on ch c i p).
Proof. unfold asleep_on. apply _. Defined.

Definition waken (ch : chan) (c : core) (i : nat) (p : proc) : proc :=
  if decide (asleep_on ch c i p) then set_p_state RUNNABLE p else p.

Lemma upd_proc_other i f c s :
  me c <> Some i -> upd_proc i f c s = Ok tt c (set_k_proc (<[i := f (get_proc i s)]> (k_proc s)) s).
Proof.
  intros H. unfold upd_proc, me in *. destruct (c_proc c) as [cp|]; [|done]. by rewrite decide_False by naive_solver.
Qed.

Lemma me_hold lk c : me (hold lk c) = me c.
Proof. unfold me. by rewrite hold_proc. Qed.

Lemma waken_hold ch lk c i p : waken ch (hold lk c) i p = waken ch c i p.
Proof.
  assert (asleep_on ch (hold lk c) i p <-> asleep_on ch c i p) by (unfold asleep_on; by rewrite me_hold).
  unfold waken. repeat case_decide; tauto.
Qed.

Lemma set_k_proc_id s : set_k_proc (k_proc s) s = s.
Proof. by destruct s. Qed.

Lemma insert_get i s : (i < length (k_proc s))%nat -> <[i := get_proc i s]> (k_proc s) = k_proc s.
Proof.
  intros H. apply list_insert_id. destruct (lookup_lt_is_Some_2 (k_proc s) i H) as [p Hp]. rewrite Hp. f_equal. symmetry. by apply nth_lookup_Some.
Qed.

Lemma wakeup_ok ch c s :
  proc_locks (fun i => me c <> Some i) c -> length (k_proc s) = Z.to_nat NPROC ->
  proc_wakeup ch c s = Ok tt c (set_k_proc (imap (waken ch c) (k_proc s)) s).
Proof.
  intros [Hwf Hlk] Hlen. unfold proc_wakeup, procs.
  match goal with |- forM _ ?b _ _ = _ => destruct (forM_mapped (waken ch c) b 0 (Z.to_nat NPROC) c s) as (l' & Hr & Hm) end;
    [|lia|rewrite Hr; rewrite <-Hlen in Hm; by rewrite (mapped_all _ _ _ Hm)].
  intros i s' Hi Hl. erewrite bind_ok by by apply myproc_ok. fold (me c). case_decide as Hme.
  - unfold waken. rewrite decide_False by (by intros []). rewrite insert_get, set_k_proc_id by done. done.
  - assert (Hf : lock_free (LkProc i) c) by (apply Hlk; [lia|done]). erewrite bind_ok by by apply acquire_free.
    rewrite bind_gets. unfold waken.
    destruct (decide (asleep_on ch c i (get_proc i s'))) as [(_ & H1 & H2)|Hno].
    + rewrite !bool_decide_eq_true_2 by done. cbn [andb when].
      erewrite bind_ok by (apply upd_proc_other; by rewrite me_hold). by apply release_hold.
    + replace (bool_decide _ && bool_decide _) with false; [|symmetry; apply not_true_iff_false; rewrite andb_true_iff, !bool_decide_eq_true;
        intros [? ?]; by apply Hno]. cbn [when]. rewrite bind_ret.
      rewrite insert_get, set_k_proc_id by done. by apply release_hold.
Qed.

(** wakeup makes exactly the processes asleep on the channel, the caller
    excepted, runnable; it changes nothing else and leaves no lock held. *)
Theorem wakeup_spec ch c s :
  proc_locks (fun i => me c <> Some i) c -> length (k_proc s) = Z.to_nat NPROC ->
  proc_wakeup ch c s = Ok tt c (set_k_proc (imap (waken ch c) (k_proc s)) s).
Proof. apply wakeup_ok. Qed.

(** ** kill *)

Definition mark_killed (p : proc) : proc :=
  let p := set_p_killed 1 p in if decide (p_state p = SLEEPING) then set_p_state RUNNABLE p else p.

(** The process sees its own killed flag. *)
Definition see_killed (i : nat) (p : proc) (c : core) : core :=
  if decide (me c = Some i) then set_proc (Some (view_of i p)) c else c.

Lemma upd_proc_me i f c s :
  upd_proc i f c s = Ok tt (see_killed i (f (get_proc i s)) c) (set_k_proc (<[i := f (get_proc i s)]> (k_proc s)) s).
Proof.
  unfold upd_proc, see_killed, me. destruct (c_proc c) as [cp|]; [|done]. cbn.
  destruct (decide (cp_idx cp = i)), (decide (Some (cp_idx cp) = Some i)); (done || congruence).
Qed.

Lemma see_killed_hold i p lk c : see_killed i p (hold lk c) = hold lk (see_killed i p c).
Proof. unfold see_killed. rewrite me_hold. case_decide; [apply hold_set_proc|done]. Qed.

Lemma see_killed_wf i p lk c : core_wf c -> lock_free lk c -> core_wf (see_killed i p c) /\ lock_free lk (see_killed i p c).
Proof. unfold see_killed. by case_decide. Qed.

Lemma see_killed_twice i p q c : see_killed i p (see_killed i q c) = see_killed i p c.
Proof.
  unfold see_killed. destruct (decide (me c = Some i)) as [H|H]; [|by rewrite decide_False].
  by rewrite decide_True.
Qed.

(** One entry of the table: marked, or left alone. *)
Lemma kill_entry i pid l c s :
  core_wf c -> lock_free (LkProc i) c -> (i < length (k_proc s))%nat ->
  kill_scan (i :: l) pid c s =
    let p := get_proc i s in
    if p_pid p =? pid then Ok 0 (see_killed i (mark_killed p) c) (set_k_proc (<[i := mark_killed p]> (k_proc s)) s)
    else kill_scan l pid c s.
Proof.
  intros Hwf Hf Hl. cbn [kill_scan]. erewrite bind_ok by by apply acquire_free. rewrite bind_gets. cbn zeta.
  set (p := get_proc i s). destruct (p_pid p =? pid); [|by erewrite bind_ok by by apply release_hold].
  erewrite bind_ok by apply upd_proc_me. fold p. rewrite see_killed_hold. unfold mark_killed. cbn [set_p_killed p_state].
  destruct (see_killed_wf i (set_p_killed 1 p) (LkProc i) c Hwf Hf) as [Hwf1 Hf1].
  destruct (decide (p_state p = SLEEPING)) as [Hs|Hs].
  - rewrite bool_decide_eq_true_2 by done. cbn [when]. erewrite bind_ok by apply upd_proc_me.
    rewrite see_killed_hold, see_killed_twice.
    destruct (see_killed_wf i (set_p_state RUNNABLE (set_p_killed 1 p)) (LkProc i) c Hwf Hf) as [Hwf2 Hf2].
    assert (get_proc i (set_k_proc (<[i:=set_p_killed 1 p]> (k_proc s)) s) = set_p_killed 1 p) as ->.
    { unfold get_proc. cbn [k_proc set_k_proc]. apply nth_lookup_Some. by apply list_lookup_insert_eq. }
    erewrite bind_ok by by apply release_hold. cbn [k_proc set_k_proc]. by rewrite list_insert_insert_eq.
  - rewrite bool_decide_eq_false_2 by done. cbn [when]. rewrite bind_ret. by erewrite bind_ok by by apply release_hold.
Qed.

Definition has_pid (pid : Z) (p : proc) : Prop := p_pid p = pid.
#[global] Instance has_pid_dec pid p : Decision (has_pid pid p).
Proof. unfold has_pid. apply _. Defined.

Lemma kill_scan_spec pid c s n j :
  proc_locks (fun _ => True) c -> (j + n)%nat = Z.to_nat NPROC -> length (k_proc s) = Z.to_nat NPROC ->
  kill_scan (seq j n) pid c s =
    match list_find (has_pid pid) (drop j (k_proc s)) with
    | Some (k, p) => Ok 0 (see_killed (j + k) (mark_killed p) c) (set_k_proc (<[(j + k)%nat := mark_killed p]> (k_proc s)) s)
    | None => Ok (-1) c s
    end.
Proof.
  intros [Hwf Hlk] Hjn Hlen. revert j Hjn. induction n as [|n IH]; intros j Hjn; cbn [seq].
  - rewrite drop_ge by lia. done.
  - rewrite kill_entry; [|done|apply Hlk; [lia|done]|lia]. cbn zeta.
    destruct (lookup_lt_is_Some_2 (k_proc s) j) as [p Hp]; [lia|]. rewrite (drop_S _ _ _ Hp). cbn [list_find].
    assert (get_proc j s = p) as -> by (by apply nth_lookup_Some).
    destruct (Z.eqb_spec (p_pid p) pid) as [E|E].
    + rewrite decide_True by done. by rewrite Nat.add_0_r.
    + rewrite decide_False by done. rewrite IH by lia. destruct (list_find _ _) as [[k q]|]; [|done]. cbn.
      by rewrite Nat.add_succ_r.
Qed.

(** kill marks the first process of the table that has the pid, making it
    runnable if it sleeps, and returns 0; without one it returns -1 and
    changes nothing.  No other process is touched. *)
Theorem kill_spec pid c s :
  proc_locks (fun _ => True) c -> length (k_proc s) = Z.to_nat NPROC ->
  kill pid c s =
    match list_find (has_pid pid) (k_proc s) with
    | Some (i, p) => Ok 0 (see_killed i (mark_killed p) c) (set_k_proc (<[i := mark_killed p]> (k_proc s)) s)
    | None => Ok (-1) c s
    end.
Proof. intros Hc Hlen. unfold kill, procs. by rewrite (kill_scan_spec pid c s _ 0). Qed.

(** ** A slot that is not in use can be killed *)

Definition is_unused (p : proc) : Prop := p_state p = UNUSED.
#[global] Instance is_unused_dec p : Decision (is_unused p).
Proof. unfold is_unused. apply _. Defined.

Lemma allocproc_scan_spec c s n j :
  proc_locks (fun _ => True) c -> (j + n)%nat = Z.to_nat NPROC -> length (k_proc s) = Z.to_nat NPROC ->
  allocproc_scan (seq j n) c s =
    match list_find is_unused (drop j (k_proc s)) with
    | Some (k, _) => Ok (Some (j + k)%nat) (hold (LkProc (j + k)) c) s
    | None => Ok None c s
    end.
Proof.
  intros [Hwf Hlk] Hjn Hlen. revert j Hjn. induction n as [|n IH]; intros j Hjn; cbn [seq allocproc_scan].
  - by rewrite drop_ge by lia.
  - assert (Hf : lock_free (LkProc j) c) by (apply Hlk; [lia|done]). erewrite bind_ok by by apply acquire_free.
    rewrite bind_gets. destruct (lookup_lt_is_Some_2 (k_proc s) j) as [p Hp]; [lia|]. rewrite (drop_S _ _ _ Hp). cbn [list_find].
    assert (get_proc j s = p) as -> by (by apply nth_lookup_Some). destruct (decide (is_unused p)) as [E|E].
    + rewrite bool_decide_eq_true_2 by done. by rewrite Nat.add_0_r.
    + rewrite bool_decide_eq_false_2 by done. erewrite bind_ok by by apply release_hold. rewrite IH by lia.
      destruct (list_find _ _) as [[k q]|]; [|done]. cbn. by rewrite Nat.add_succ_r.
Qed.

(** What leaves the killed flags and the number of entries alone. *)
Definition keeps_killed (s s' : kst) : Prop :=
  length (k_proc s') = length (k_proc s) /\ forall i, p_killed (get_proc i s') = p_killed (get_proc i s).

Lemma keeps_refl s : keeps_killed s s.
Proof. done. Qed.
Lemma keeps_trans s1 s2 s3 : keeps_killed s1 s2 -> keeps_killed s2 s3 -> keeps_killed s1 s3.
Proof. intros [H1 H2] [H3 H4]. split; [congruence|]. intros i. by rewrite H4, H2. Qed.

Lemma keeps_upd i f c s c' s' :
  upd_proc i f c s = Ok tt c' s' -> (forall p, p_killed (f p) = p_killed p) -> keeps_killed s s'.
Proof.
  intros H Hf. injection H as _ <-. split; [apply length_insert|]. intros j. unfold get_proc. cbn [k_proc set_k_proc].
  destruct (decide (i = j)) as [<-|Hne]; [|by rewrite !nth_lookup, list_lookup_insert_ne].
  rewrite !nth_lookup. destruct (decide (i < length (k_proc s))%nat).
  - rewrite list_lookup_insert_eq by done. cbn. by rewrite Hf.
  - by rewrite list_insert_ge by lia.
Qed.

Lemma keeps_lift {A} (m : M kmem A) c s a c' s' : lift kl_kmem m c s = Ok a c' s' -> keeps_killed s s'.
Proof. unfold lift. case_match; intros [=]. by subst. Qed.

Lemma acquire_state lk c (s : kst) a c' s' : acquire lk c s = Ok a c' s' -> s' = s.
Proof. unfold acquire, push_off, modifyc, getc, mbind, M_bind. by repeat case_match; intros [=]. Qed.
Lemma release_state lk c (s : kst) a c' s' : release lk c s = Ok a c' s' -> s' = s.
Proof.
  unfold release, pop_off, modifyc, getc, mbind, M_bind. by repeat (case_match; simplify_eq); intros [=].
Qed.

Lemma keeps_allocpid c s pid c' s' : allocpid c s = Ok pid c' s' -> keeps_killed s s'.
Proof.
  unfold allocpid. intros ([] & c1 & s1 & ->%acquire_state & H)%bind_inv. rewrite bind_gets in H.
  apply bind_inv in H as ([] & c2 & s2 & [= <- <-] & H). apply bind_inv in H as ([] & c3 & s3 & ->%release_state & [= _ _ <-]).
  done.
Qed.

(** allocproc does not reset the killed flag of the slot it takes. *)
Lemma allocproc_keeps c s i c' s' :
  proc_locks (fun _ => True) c -> length (k_proc s) = Z.to_nat NPROC -> allocproc c s = Ok (Some i) c' s' ->
  fst <$> list_find is_unused (k_proc s) = Some i /\ keeps_killed s s'.
Proof.
  intros Hc Hlen. unfold allocproc, procs.
  pose proof (allocproc_scan_spec c s (Z.to_nat NPROC) 0 Hc eq_refl Hlen) as Hs. rewrite drop_0 in Hs.
  destruct (list_find is_unused (k_proc s)) as [[k p]|]; erewrite bind_ok by exact Hs; [|intros [=]].
  intros (pid & c1 & s1 & H1%keeps_allocpid & H)%bind_inv.
  apply bind_inv in H as ([] & c2 & s2 & H2%keeps_upd & H); [|done].
  apply bind_inv in H as (tf & c3 & s3 & H3%keeps_lift & H).
  apply bind_inv in H as ([] & c4 & s4 & H4%keeps_upd & H); [|done].
  destruct (tf =? 0); [by apply bind_inv in H as (? & ? & ? & _ & (? & ? & ? & _ & [=])%bind_inv)|]. rewrite bind_get in H.
  apply bind_inv in H as (pt & c5 & s5 & H5%keeps_lift & H).
  apply bind_inv in H as ([] & c6 & s6 & H6%keeps_upd & H); [|done].
  destruct (pt =? 0); [by apply bind_inv in H as (? & ? & ? & _ & (? & ? & ? & _ & [=])%bind_inv)|].
  apply bind_inv in H as ([] & c7 & s7 & H7%keeps_upd & [= <- _ <-]); [|done].
  split; [done|]. eauto 10 using keeps_trans.
Qed.

(** C38: kill(0): the slots of proc[] that are not in use have pid 0, so the first
    of them is marked killed and kill reports success.  allocproc does not
    clear the mark: the next process to be created is killed from the start. *)
Theorem kill_zero c s i :
  proc_locks (fun _ => True) c -> length (k_proc s) = Z.to_nat NPROC -> me c <> Some i ->
  (forall p, p ∈ k_proc s -> p_state p = UNUSED <-> p_pid p = 0) -> fst <$> list_find is_unused (k_proc s) = Some i ->
  exists s', kill 0 c s = Ok 0 c s' /\ p_killed (get_proc i s') = 1 /\
    forall j c2 s2, allocproc c s' = Ok (Some j) c2 s2 -> j = i /\ p_killed (get_proc j s2) = 1.
Proof.
  intros Hc Hlen Hme Hpid Hun. destruct (list_find is_unused (k_proc s)) as [[k p]|] eqn:Ef; [|done]. injection Hun as ->.
  apply list_find_Some in Ef as (Hi & Hu & Hmin).
  assert (Ekill : list_find (has_pid 0) (k_proc s) = Some (i, p)).
  { apply list_find_Some. split_and!; [done|by apply Hpid; [by eapply list_elem_of_lookup_2|]|].
    intros j y Hj Hlt Hy. apply (Hmin j y Hj Hlt). apply Hpid; [by eapply list_elem_of_lookup_2|done]. }
  assert (Hk : kill 0 c s = Ok 0 c (set_k_proc (<[i := mark_killed p]> (k_proc s)) s)).
  { unfold kill, procs. rewrite (kill_scan_spec 0 c s _ 0), drop_0, Ekill by done. unfold see_killed. by rewrite decide_False. }
  eexists. split; [exact Hk|]. set (s' := set_k_proc _ s).
  assert (Hst : p_state (mark_killed p) = UNUSED) by (unfold mark_killed; cbn; rewrite Hu; by rewrite decide_False).
  assert (Hkl : get_proc i s' = mark_killed p).
  { unfold get_proc. apply nth_lookup_Some. cbn. apply list_lookup_insert_eq. by eapply lookup_lt_Some. }
  assert (Hki : p_killed (mark_killed p) = 1) by (unfold mark_killed; by case_match).
  split; [by rewrite Hkl|]. intros j c2 s2 Ha. apply allocproc_keeps in Ha as [Hf [_ Hkeep]]; [|done|by cbn; rewrite length_insert].
  assert (j = i) as ->; [|split; [done|]; by rewrite Hkeep, Hkl].
  destruct (list_find is_unused (k_proc s')) as [[j' q]|] eqn:E; [|done]. injection Hf as ->.
  assert (Hex : list_find is_unused (k_proc s') = Some (i, mark_killed p)); [|congruence].
  apply list_find_Some. cbn. split_and!; [apply list_lookup_insert_eq; by eapply lookup_lt_Some|done|].
  intros x y Hx Hlt. rewrite list_lookup_insert_ne in Hx by lia. by apply (Hmin x).
Qed.

(** ** At a concrete state *)

Lemma exk_all_locks P : proc_locks P exk_core.
Proof. split; [apply exk_core_wf|]. intros i Hi _. by apply exk_proc_locks. Qed.

(** Process 5 sleeps on the ticks. *)
Definition exk_asleep : kst :=
  set_k_proc (<[5%nat := set_p_chan (Some ChTicks) (set_p_state SLEEPING (exk_proc 5))]> (k_proc exk_kst)) exk_kst.

Lemma wakeup_spec_witness : exists s', proc_wakeup ChTicks exk_core exk_asleep = Ok tt exk_core s' /\
  p_state (get_proc 5 s') = RUNNABLE.
Proof.
  eexists. split; [apply (wakeup_spec ChTicks exk_core exk_asleep (exk_all_locks _)); reflexivity|vm_compute; reflexivity].
Defined.

Lemma kill_spec_witness : exists c' s', kill 1 exk_core exk_kst = Ok 0 c' s' /\ p_killed (get_proc 0 s') = 1.
Proof.
  eexists _, _. split; [rewrite (kill_spec 1 exk_core exk_kst (exk_all_locks _) eq_refl); vm_compute list_find; reflexivity|].
  vm_compute. reflexivity.
Defined.

Lemma exk_pids p : p ∈ k_proc exk_kst -> p_state p = UNUSED <-> p_pid p = 0.
Proof.
  intros (i & -> & _)%list_elem_of_fmap. unfold exk_proc. case_decide; [done|done].
Qed.

Lemma kill_zero_witness : exists s', kill 0 exk_core exk_kst = Ok 0 exk_core s' /\ p_killed (get_proc 1 s') = 1 /\
  forall j c2 s2, allocproc exk_core s' = Ok (Some j) c2 s2 -> j = 1%nat /\ p_killed (get_proc j s2) = 1.
Proof.
  apply (kill_zero exk_core exk_kst 1 (exk_all_locks _)); [reflexivity|discriminate|exact exk_pids|vm_compute; reflexivity].
Defined.

(** The child really is created, and killed. *)
Lemma kill_zero_child :
  match kill 0 exk_core exk_kst with
  | Ok _ c s => match allocproc c s with Ok (Some j) _ s2 => p_killed (get_proc j s2) = 1 | _ => False end
  | _ => False
  end.
Proof. vm_compute. reflexivity. Qed.
