(* ===== verification/ConsoleSpec.v ===== *)
(** * The console's line discipline

    The input buffer of console.c as two byte strings: the finished lines that
    consoleread may take, and the line being edited.  consoleintr implements
    the editing of the line, whatever the values of the free-running indices,
    and sends the echo to the serial port. *)

From Stdlib Require Import ZArith Lia.
From stdpp Require Import base gmap list numbers strings.
From S2P Require Import Prelude Ring Riscv Core Spinlock Wp Sleeplock Fs Uart Kst KstExample Sched Printf Console Proc ProcSpec.
Local Open Scope Z_scope.

(** ** The abstract console *)

Record line : Type := mkLine {
  ln_ready : list Z;      (* finished lines *)
  ln_edit : list Z        (* the line being typed *)
}.

Definition ends_line (x : Z) : bool := (x =? NL) || (x =? Ctl 68).

(** One character typed. *)
Definition type_char (ch : Z) (l : line) : line :=
  if ch =? Ctl 85 then mkLine (ln_ready l) []
  else if (ch =? Ctl 72) || (ch =? 127) then mkLine (ln_ready l) (take (length (ln_edit l) - 1) (ln_edit l))
  else if (ch =? 0) || (INPUT_BUF <=? Z.of_nat (length (ln_ready l ++ ln_edit l))) then l
  else
    let ch := if ch =? 13 then NL else ch in
    let e := ln_edit l ++ [ch] in
    if ends_line ch || (Z.of_nat (length (ln_ready l ++ e)) =? INPUT_BUF) then mkLine (ln_ready l ++ e) []
    else mkLine (ln_ready l) e.

(** Whether it finishes a line, or fills the buffer. *)
Definition finishes (ch : Z) (l : line) : bool :=
  negb ((ch =? Ctl 85) || (ch =? Ctl 72) || (ch =? 127) || (ch =? 0) || (INPUT_BUF <=? Z.of_nat (length (ln_ready l ++ ln_edit l)))) &&
  (ends_line (if ch =? 13 then NL else ch) || (Z.of_nat (length (ln_ready l ++ ln_edit l)) + 1 =? INPUT_BUF)).

(** What the terminal is sent: the character, or a backspace, a blank and a
    backspace for each character erased. *)
Definition erase : list Z := [8; 32; 8].
Definition echo (ch : Z) (l : line) : list Z :=
  if ch =? Ctl 85 then concat (repeat erase (length (ln_edit l)))
  else if (ch =? Ctl 72) || (ch =? 127) then match ln_edit l with [] => [] | _ => erase end
  else if (ch =? 0) || (INPUT_BUF <=? Z.of_nat (length (ln_ready l ++ ln_edit l))) then []
  else [if ch =? 13 then NL else ch].

(** ** The buffer *)

Notation W32 := (2 ^ 32) (only parsing).

Definition line_of (k : cons) : line := mkLine (rq W32 INPUT_BUF (cs_buf k) (cs_r k) (cs_w k)) (rq W32 INPUT_BUF (cs_buf k) (cs_w k) (cs_e k)).

(** The three indices are in order. *)
Record cons_ring (k : cons) : Prop := mkConsRing {
  co_ring : rq_ok W32 INPUT_BUF (cs_buf k) (cs_r k) (cs_e k);
  co_w : 0 <= cs_w k < W32;
  co_split : wsub W32 (cs_e k) (cs_r k) = wsub W32 (cs_w k) (cs_r k) + wsub W32 (cs_e k) (cs_w k)
}.
(** A finished line is not edited any more. *)
Definition cons_ok (k : cons) : Prop := cons_ring k /\ NL ∉ ln_edit (line_of k).

Lemma buf_div : (INPUT_BUF | W32).
Proof. by exists (2 ^ 25). Qed.
Lemma dist_range x y : 0 <= wsub W32 x y < W32.
Proof. by apply (wsub_range W32 INPUT_BUF). Qed.

Lemma line_app k : cons_ring k -> ln_ready (line_of k) ++ ln_edit (line_of k) = rq W32 INPUT_BUF (cs_buf k) (cs_r k) (cs_e k).
Proof. intros Hk. symmetry. apply rq_split; [done|done|apply buf_div|apply Hk]. Qed.

Lemma line_full k : cons_ring k -> Z.of_nat (length (ln_ready (line_of k) ++ ln_edit (line_of k))) = u32 (cs_e k - cs_r k).
Proof. intros Hk. rewrite line_app, rq_length by done. pose proof (dist_range (cs_e k) (cs_r k)). rewrite Z2Nat.id by lia. done. Qed.

(** The part being edited is a ring of its own. *)
Lemma edit_ring k : cons_ring k -> rq_ok W32 INPUT_BUF (cs_buf k) (cs_w k) (cs_e k).
Proof.
  intros [(H1 & H2 & H3 & H4) Hw Hs]. unfold rq_ok. split_and!; try done; try apply Hw; try apply H3.
  pose proof (dist_range (cs_w k) (cs_r k)). lia.
Qed.

Lemma edit_empty k : cons_ring k -> (cs_e k =? cs_w k) = (Z.of_nat (length (ln_edit (line_of k))) =? 0).
Proof. intros Hk. rewrite Z.eqb_sym. by apply rq_empty, edit_ring. Qed.

(** Dropping the last character. *)
Lemma cons_back k :
  cons_ring k -> cs_e k <> cs_w k ->
  let k' := set_e (u32 (cs_e k - 1)) k in
  cons_ring k' /\ line_of k' = mkLine (ln_ready (line_of k)) (take (length (ln_edit (line_of k)) - 1) (ln_edit (line_of k))).
Proof.
  intros Hk Hne k'. pose proof (edit_ring k Hk) as He. destruct Hk as [Hr Hw Hs].
  assert (H0 : 0 < wsub W32 (cs_e k) (cs_w k)).
  { pose proof (dist_range (cs_e k) (cs_w k)). destruct (Z.eq_dec (wsub W32 (cs_e k) (cs_w k)) 0) as [E|]; [|lia].
    apply wsub_zero in E; [done|apply He|done]. }
  assert (Hne2 : cs_e k <> cs_r k).
  { intros E. pose proof (dist_range (cs_w k) (cs_r k)). assert (wsub W32 (cs_e k) (cs_r k) = 0) by (apply wsub_zero; [apply He|apply Hr|done]). lia. }
  destruct (rq_unpush W32 INPUT_BUF eq_refl eq_refl _ _ _ He Hne) as [H1 H2].
  destruct (rq_unpush W32 INPUT_BUF eq_refl eq_refl _ _ _ Hr Hne2) as [H3 _].
  split; [|unfold line_of, k', u32; cbn [set_e cs_buf cs_r cs_w cs_e]; by rewrite H2].
  split; [exact H3|done|]. unfold k'; cbn [set_e cs_buf cs_r cs_w cs_e]. unfold u32.
  pose proof (dist_range (cs_w k) (cs_r k)). rewrite !(wsub_pred W32 INPUT_BUF) by (done || lia). lia.
Qed.

(** Storing one more. *)
Lemma cons_push k x :
  cons_ring k -> Z.of_nat (length (ln_ready (line_of k) ++ ln_edit (line_of k))) < INPUT_BUF ->
  let k' := mkCons (<[Z.to_nat (cs_e k mod INPUT_BUF) := x]> (cs_buf k)) (cs_r k) (cs_w k) (u32 (cs_e k + 1)) in
  cons_ring k' /\ line_of k' = mkLine (ln_ready (line_of k)) (ln_edit (line_of k) ++ [x]).
Proof.
  intros Hk Hlen k'. pose proof (edit_ring k Hk) as He. pose proof (line_app k Hk) as Happ. rewrite Happ in Hlen. pose proof Hk as [Hr Hw Hs].
  destruct (rq_push W32 INPUT_BUF eq_refl eq_refl buf_div _ _ _ x Hr) as [R1 R2]; [lia|].
  destruct (rq_push W32 INPUT_BUF eq_refl eq_refl buf_div _ _ _ x He) as [E1 E2].
  { rewrite rq_length in *. pose proof (dist_range (cs_w k) (cs_r k)). lia. }
  assert (Hk' : cons_ring k').
  { split; [exact R1|done|]. unfold k'; cbn [cs_buf cs_r cs_w cs_e]. unfold u32. rewrite rq_length in Hlen. change INPUT_BUF with 128 in Hlen.
    pose proof (dist_range (cs_w k) (cs_r k)). pose proof (dist_range (cs_e k) (cs_w k)).
    rewrite !(wsub_succ W32 INPUT_BUF) by (done || lia). lia. }
  split; [done|]. pose proof (line_app k' Hk') as Happ'.
  assert (Ee : ln_edit (line_of k') = ln_edit (line_of k) ++ [x]) by exact E2.
  assert (Er : ln_ready (line_of k') = ln_ready (line_of k)).
  { apply (app_inv_tail (ln_edit (line_of k) ++ [x])). rewrite <-Ee at 1. rewrite Happ', app_assoc, Happ. exact R2. }
  destruct (line_of k'). cbn in *. by subst.
Qed.

(** Finishing the line. *)
Lemma cons_commit k :
  cons_ring k -> let k' := set_w (cs_e k) k in
  cons_ok k' /\ line_of k' = mkLine (ln_ready (line_of k) ++ ln_edit (line_of k)) [].
Proof.
  intros Hk k'. rewrite line_app by done. destruct Hk as [Hr Hw Hs].
  assert (Hz : wsub W32 (cs_e k) (cs_e k) = 0) by (unfold wsub; by rewrite Z.sub_diag).
  assert (El : line_of k' = mkLine (rq W32 INPUT_BUF (cs_buf k) (cs_r k) (cs_e k)) []).
  { unfold line_of. unfold k'; cbn [set_w cs_buf cs_r cs_w cs_e]. f_equal. apply nil_length_inv. by rewrite rq_length, Hz. }
  split; [|done]. split; [|rewrite El; apply not_elem_of_nil]. split; [done|apply Hr|]. unfold k'; cbn [set_w cs_buf cs_r cs_w cs_e]. lia.
Qed.

Lemma not_in_take (x : Z) n l : x ∉ l -> x ∉ take n l.
Proof. intros H Hin. apply H. rewrite <-(take_drop n l). apply elem_of_app. by left. Qed.

(** The character before [e] is the last of the line. *)
Lemma last_char k :
  cons_ring k -> cs_e k <> cs_w k -> nth (Z.to_nat (u32 (cs_e k - 1) mod INPUT_BUF)) (cs_buf k) 0 ∈ ln_edit (line_of k).
Proof.
  intros Hk Hne. pose proof (edit_ring k Hk) as He. pose proof (dist_range (cs_e k) (cs_w k)) as Hd.
  assert (H0 : 0 < wsub W32 (cs_e k) (cs_w k)).
  { destruct (Z.eq_dec (wsub W32 (cs_e k) (cs_w k)) 0) as [E|]; [|lia]. apply wsub_zero in E; [done|apply He|apply Hk]. }
  set (j := (Z.to_nat (wsub W32 (cs_e k) (cs_w k)) - 1)%nat). apply (list_elem_of_lookup_2 _ j).
  cbn [line_of ln_edit]. rewrite rq_lookup by lia. do 3 f_equal. unfold u32.
  rewrite <-(wrap_index W32 INPUT_BUF eq_refl eq_refl buf_div (cs_w k + Z.of_nat j)). f_equal.
  replace (cs_w k + Z.of_nat j) with (cs_w k - 1 + wsub W32 (cs_e k) (cs_w k)) by lia.
  unfold wsub. rewrite Z.add_mod_idemp_r by done. f_equal. lia.
Qed.

(** ** The operations *)

(** [out] was written to the transmitter, and nothing else happened to the port. *)
Record uart_live (u : uart) (out : list Z) (u' : uart) : Prop := mkUartLive {
  ul_panicked : panicked u' = 0;
  ul_in : ud_in u' = ud_in u;
  ul_out : ud_out u' = ud_out u ++ (pair THR <$> out);
  ul_tx : uart_tx_buf u' = uart_tx_buf u /\ uart_tx_w u' = uart_tx_w u /\ uart_tx_r u' = uart_tx_r u
}.
Lemma uart_live_nil u : panicked u = 0 -> uart_live u [] u.
Proof. intros H. split; try done. by rewrite app_nil_r. Qed.
Lemma uart_live_app u o1 u1 o2 u2 : uart_live u o1 u1 -> uart_live u1 o2 u2 -> uart_live u (o1 ++ o2) u2.
Proof.
  intros [A1 A2 A3 (A4 & A5 & A6)] [B1 B2 B3 (B4 & B5 & B6)]. split; [done|congruence| |split_and!; congruence].
  by rewrite B3, A3, fmap_app, app_assoc.
Qed.

Lemma uart_wait_ok fuel c u :
  panicked u = 0 -> (length (ud_idle u) <= fuel)%nat -> wp (uart_wait fuel) c u (fun _ c' u' => c' = c /\ uart_live u [] u').
Proof.
  revert u. induction fuel as [|fuel IH]; intros u Hp Hl; destruct (read_lsr_idle u) as (rx & Hrx & Hrun);
    cbn [uart_wait]; wbind; eexists _, _, _; (split; [apply Hrun|]); cbn beta; rewrite land_lsr by done.
  - destruct (ud_idle u); [|simpl in Hl; lia]. apply wp_ret. split; [done|]. split; try done. by rewrite app_nil_r.
  - destruct (ud_idle u) as [|[] l] eqn:E; cbn [negb]; [apply wp_ret; split; [done|]; split; try done; by rewrite app_nil_r..|].
    eapply wp_mono; [apply IH; [done|simpl in *; lia]|]. intros [] c' u' [-> [? ? ? ?]]. by split.
Qed.

Lemma uartputc_sync_ok x c u :
  core_wf c -> panicked u = 0 -> 0 <= x < 256 -> wp (uartputc_sync x) c u (fun _ c' u' => c' = c /\ uart_live u [x] u').
Proof.
  intros Hwf Hp Hx. unfold uartputc_sync. wbind. eexists _, _, _. split; [reflexivity|]. cbn beta.
  wbind. eexists _, _, _. split; [reflexivity|]. cbn beta. rewrite Hp. cbn [negb Z.eqb].
  wrun uart_wait_ok; [done|done|]. intros [] c1 u1 [-> [L1 L2 L3 L4]]. wbind. apply wp_modify. eexists _, _, _. split; [by apply pop_push|].
  split; [done|]. split; cbn; try done. rewrite L3, u8_small, app_nil_r by lia. done.
Qed.

(** [consputc] sends the character, or erases one. *)
Definition sends (x : Z) : list Z := if x =? BACKSPACE then erase else [x].
Lemma echo_ok x c s :
  core_wf c -> panicked (k_uart s) = 0 -> x = BACKSPACE \/ 0 <= x < 256 ->
  wp (lift kl_uart (consputc x)) c s (fun _ c' s' => c' = c /\ exists u', uart_live (k_uart s) (sends x) u' /\ s' = set_k_uart u' s).
Proof.
  intros Hwf Hp Hx. apply wp_lift. unfold consputc, sends. change (lens_get kl_uart s) with (k_uart s).
  assert (Hone : forall y u, panicked u = 0 -> 0 <= y < 256 -> wp (uartputc_sync y) c u (fun _ c' u' => c' = c /\ uart_live u [y] u'))
    by (intros; by apply uartputc_sync_ok).
  destruct (Z.eqb_spec x BACKSPACE) as [->|Hne].
  - wrun Hone; [done|done|]. intros [] c1 u1 [-> L1]. wrun Hone; [apply L1|done|]. intros [] c2 u2 [-> L2].
    eapply wp_mono; [apply (Hone _ u2 (ul_panicked _ _ _ L2)); done|]. intros [] c3 u3 [-> L3]. split; [done|]. exists u3. split; [|done].
    apply (uart_live_app _ [8; 32] u2); [|done]. by apply (uart_live_app _ [8] u1).
  - destruct Hx as [?|Hx]; [done|]. eapply wp_mono; [by apply Hone|]. intros [] c1 u1 [-> H1]. split; [done|]. by exists u1.
Qed.

(** The state after a character was handled: the new buffer, the bytes sent,
    and whether the readers were woken. *)
Definition typed (c : core) (s : kst) (k : cons) (out : list Z) (wake : bool) (s' : kst) : Prop :=
  exists u, uart_live (k_uart s) out u /\
    s' = set_k_proc (if wake then imap (waken ChConsR c) (k_proc s) else k_proc s) (set_k_uart u (set_k_cons k s)).
Lemma typed_same c s k : panicked (k_uart s) = 0 -> k_cons s = k -> typed c s k [] false s.
Proof. intros Hp <-. exists (k_uart s). split; [by apply uart_live_nil|by destruct s]. Qed.

(** ^U removes the whole line being edited. *)
Lemma kill_line_ok fuel c s :
  core_wf c -> panicked (k_uart s) = 0 -> cons_ok (k_cons s) -> (length (ln_edit (line_of (k_cons s))) <= fuel)%nat ->
  wp (kill_line fuel) c s (fun _ c' s' => c' = c /\ exists k, cons_ok k /\ line_of k = mkLine (ln_ready (line_of (k_cons s))) [] /\
    typed c s k (concat (repeat erase (length (ln_edit (line_of (k_cons s)))))) false s').
Proof.
  intros Hwf. revert s. induction fuel as [|fuel IH]; intros s Hp Hk Hl; cbn [kill_line]; wgets; set (k := k_cons s) in *;
    destruct Hk as [Hr Hnl]; rewrite (edit_empty k Hr).
  all: destruct (Z.eqb_spec (Z.of_nat (length (ln_edit (line_of k)))) 0) as [E|E]; cbn [negb andb]; [|try lia].
  1, 2: apply wp_ret; split; [done|]; exists k; assert (ln_edit (line_of k) = []) as E' by (apply nil_length_inv; lia);
    (split_and!; [done|rewrite <-E'; by destruct (line_of k)|rewrite E'; by apply typed_same]).
  assert (Hne : cs_e k <> cs_w k) by (intros Ec; pose proof (edit_empty k Hr) as H; rewrite Ec, Z.eqb_refl in H; lia).
  pose proof (last_char k Hr Hne) as Hlast.
  destruct (Z.eqb_spec (nth (Z.to_nat (u32 (cs_e k - 1) mod INPUT_BUF)) (cs_buf k) 0) NL) as [Ex|Ex]; [by rewrite Ex in Hlast|]. cbn [negb].
  destruct (cons_back k Hr Hne) as [Hr1 Hl1]. set (k1 := set_e (u32 (cs_e k - 1)) k) in *.
  wmod. change (upd_cons (set_e (u32 (cs_e k - 1))) s) with (set_k_cons k1 s).
  wrun (echo_ok BACKSPACE c (set_k_cons k1 s) Hwf Hp (or_introl eq_refl)). intros [] c1 s1 [-> (u1 & L1 & ->)].
  eapply wp_mono; [apply IH|].
  - exact (ul_panicked _ _ _ L1).
  - split; [done|]. cbn [k_cons set_k_cons set_k_uart]. rewrite Hl1. cbn [ln_edit]. by apply not_in_take.
  - cbn [k_cons set_k_cons set_k_uart]. rewrite Hl1. cbn [ln_edit]. rewrite length_take. lia.
  - intros [] c2 s2 [-> (k2 & Hk2 & Hl2 & u2 & L2 & ->)]. split; [done|]. exists k2. split; [done|].
    cbn [k_cons k_uart set_k_cons set_k_uart] in Hl2, L1, L2. rewrite Hl1 in Hl2, L2. split; [done|]. exists u2. split; [|by destruct s].
    cbn [ln_edit] in L2. rewrite length_take in L2.
    replace (length (ln_edit (line_of k))) with (S ((length (ln_edit (line_of k)) - 1) `min` length (ln_edit (line_of k)))) by lia.
    exact (uart_live_app _ _ _ _ _ L1 L2).
Qed.

(** A character that is stored. *)
Lemma store_char_ok ch c s :
  core_wf c -> proc_locks (fun i => me c <> Some i) c -> length (k_proc s) = Z.to_nat NPROC -> panicked (k_uart s) = 0 ->
  cons_ok (k_cons s) -> 0 <= ch < 256 -> ch <> 13 ->
  let l := line_of (k_cons s) in Z.of_nat (length (ln_ready l ++ ln_edit l)) < INPUT_BUF ->
  let fin := ends_line ch || (Z.of_nat (length (ln_ready l ++ ln_edit l)) + 1 =? INPUT_BUF) in
  wp (_ ← lift kl_uart (consputc ch);
      _ ← modify (upd_cons (fun k =>
            mkCons (<[Z.to_nat (cs_e k mod INPUT_BUF) := u8 ch]> (cs_buf k)) (cs_r k) (cs_w k) (u32 (cs_e k + 1))));
      k ← gets k_cons;
      if (ch =? NL) || (ch =? Ctl 68) || (cs_e k =? u32 (cs_r k + INPUT_BUF)) then
        _ ← modify (upd_cons (fun k => set_w (cs_e k) k));
        proc_wakeup ChConsR
      else mret tt) c s (fun _ c' s' => c' = c /\ exists k, cons_ok k /\
    line_of k = (if fin then mkLine (ln_ready l ++ ln_edit l ++ [ch]) [] else mkLine (ln_ready l) (ln_edit l ++ [ch])) /\ typed c s k [ch] fin s').
Proof.
  intros Hwf Hpl Hlen Hp [Hr Hnl] Hch H13 l Hfull fin. set (k := k_cons s) in *.
  wrun (echo_ok ch c s Hwf Hp (or_intror Hch)). intros [] c1 s1 [-> (u1 & HU & ->)]. wmod. wgets.
  unfold sends in HU. assert (ch =? BACKSPACE = false) as Ebs by (apply Z.eqb_neq; unfold BACKSPACE; lia). rewrite Ebs in HU.
  assert (u8 ch = ch) as -> by (apply u8_small; lia).
  destruct (cons_push k ch Hr Hfull) as [Hr1 Hl1]. set (k1 := mkCons _ _ _ _) in Hr1, Hl1.
  change (upd_cons _ (set_k_uart u1 s)) with (set_k_cons k1 (set_k_uart u1 s)). cbn [k_cons set_k_cons].
  assert (Efull : (cs_e k1 =? u32 (cs_r k1 + INPUT_BUF)) = (Z.of_nat (length (ln_ready l ++ ln_edit l)) + 1 =? INPUT_BUF)).
  { unfold u32. rewrite (rq_full W32 INPUT_BUF eq_refl eq_refl (cs_buf k1)) by apply (co_ring _ Hr1).
    rewrite <-line_app, Hl1 by done. cbn [ln_ready ln_edit]. rewrite app_assoc, (length_app _ [ch]). simpl length. f_equal. lia. }
  rewrite Efull. change ((ch =? NL) || (ch =? Ctl 68)) with (ends_line ch). fold fin. destruct fin eqn:Ef.
  - wmod. destruct (cons_commit k1 Hr1) as [Hk2 Hl2]. change (upd_cons _ _) with (set_k_cons (set_w (cs_e k1) k1) (set_k_uart u1 s)).
    eexists _, _, _. split; [apply wakeup_ok; [done|exact Hlen]|]. split; [done|]. exists (set_w (cs_e k1) k1). split; [done|].
    split; [by rewrite Hl2, Hl1|]. exists u1. split; [done|]. by destruct s.
  - apply wp_ret. split; [done|]. exists k1. split; [|split; [done|]].
    + split; [done|]. rewrite Hl1. cbn [ln_edit]. intros [Hin|Hin%list_elem_of_singleton]%elem_of_app; [done|].
      unfold fin, ends_line in Ef. rewrite <-Hin in Ef. done.
    + exists u1. split; [done|]. by destruct s.
Qed.

(** C28: consoleintr edits the line as [type_char] says, sends exactly the
    bytes of [echo] to the terminal, and wakes the readers exactly when a line
    is finished or the buffer is full; it changes nothing else.  (^P, which
    dumps the process table, is excepted.) *)
Theorem consoleintr_spec ch c s :
  0 <= ch < 256 -> ch <> Ctl 80 -> lock_free LkCons c -> proc_locks (fun i => me c <> Some i) c ->
  length (k_proc s) = Z.to_nat NPROC -> panicked (k_uart s) = 0 -> cons_ok (k_cons s) ->
  wp (consoleintr ch) c s (fun _ c' s' => c' = c /\ exists k, cons_ok k /\
    line_of k = type_char ch (line_of (k_cons s)) /\
    typed c s k (echo ch (line_of (k_cons s))) (finishes ch (line_of (k_cons s))) s').
Proof.
  intros Hch HP Hlk [Hwf Hpl] Hlen Hp Hk. unfold consoleintr. wbind. apply wp_acquire; [done|].
  bfalse (ch =? Ctl 80). pose proof (hold_wf LkCons c Hwf) as Hwf'. pose proof Hk as [Hr Hnl]. set (k := k_cons s) in *.
  assert (Hpl' : proc_locks (fun i => me (hold LkCons c) <> Some i) (hold LkCons c)).
  { split; [done|]. intros i Hi Hm. rewrite me_hold in Hm. apply lock_free_hold; [done|auto]. }
  assert (Htyped : forall k' o w s', typed (hold LkCons c) s k' o w s' -> typed c s k' o w s').
  { intros k' o w s' (u & H1 & H2). exists u. split; [done|]. rewrite H2. destruct w; [|done]. f_equal. apply imap_ext.
    intros i p _. apply waken_hold. }
  match goal with |- wp _ _ _ ?P => set (Q := P) end.
  assert (Hrel : forall a s' k' o w, (a = hold LkCons c) -> cons_ok k' -> line_of k' = type_char ch (line_of k) -> o = echo ch (line_of k) -> w = finishes ch (line_of k) ->
    typed (hold LkCons c) s k' o w s' -> wp (release LkCons) a s' Q).
  { intros a s' k' o w -> H1 H2 -> -> H3. apply wp_release; [done|done|]. split; [done|]. exists k'. auto. }
  clearbody Q. unfold type_char, finishes, echo in Hrel.
  wbind. destruct (ch =? Ctl 85); cbn [orb negb andb] in Hrel.
  { eapply wp_mono; [apply kill_line_ok; [done|done|done|]|].
    - apply Nat2Z.inj_le. rewrite Z2Nat.id by done. apply (rq_le W32 INPUT_BUF eq_refl _ _ _ (edit_ring k Hr)).
    - intros [] c1 s1 [-> (k1 & Hk1 & Hl1 & Ht1)]. by eapply Hrel. }
  destruct ((ch =? Ctl 72) || (ch =? 127)) eqn:Eb; cbn [orb negb andb] in Hrel.
  { wgets. fold k. rewrite (edit_empty k Hr). destruct (Z.eqb_spec (Z.of_nat (length (ln_edit (line_of k)))) 0) as [E|E]; cbn [negb].
    - assert (ln_edit (line_of k) = []) as E' by (apply nil_length_inv; lia). rewrite E' in Hrel.
      apply wp_ret. eapply (Hrel _ _ k [] false); [done|done| |done|done|by apply typed_same].
      destruct (line_of k). cbn in *. by subst.
    - assert (Hne : cs_e k <> cs_w k) by (intros Ec; pose proof (edit_empty k Hr) as H; rewrite Ec, Z.eqb_refl in H; lia).
      destruct (cons_back k Hr Hne) as [Hr1 Hl1]. set (k1 := set_e (u32 (cs_e k - 1)) k) in *.
      wmod. change (upd_cons (set_e (u32 (cs_e k - 1))) s) with (set_k_cons k1 s).
      eapply wp_mono; [apply (echo_ok BACKSPACE _ (set_k_cons k1 s) Hwf' Hp (or_introl eq_refl))|]. intros [] c1 s1 [-> (u1 & HU & ->)].
      eapply (Hrel _ _ k1 erase false); [done| |done| |done|exists u1; split; [exact HU|by destruct s]].
      2: { destruct (ln_edit (line_of k)); [done|done]. }
      split; [done|]. rewrite Hl1. cbn [ln_edit]. by apply not_in_take. }
  wgets. fold k. rewrite <-line_full by done. set (l := line_of k) in *.
  destruct (Z.eqb_spec ch 0) as [E0|E0]; cbn [orb negb andb] in *.
  { apply wp_ret. eapply (Hrel _ _ k [] false); try done. by apply typed_same. }
  destruct (Z.leb_spec INPUT_BUF (Z.of_nat (length (ln_ready l ++ ln_edit l)))) as [Hf|Hf]; cbn [orb negb andb] in *.
  { bfalse (Z.of_nat (length (ln_ready l ++ ln_edit l)) <? INPUT_BUF).
    apply wp_ret. eapply (Hrel _ _ k [] false); try done. by apply typed_same. }
  btrue (Z.of_nat (length (ln_ready l ++ ln_edit l)) <? INPUT_BUF). cbn zeta in *. set (ch' := if ch =? 13 then NL else ch) in *.
  assert (Hch' : 0 <= ch' < 256 /\ ch' <> 13).
  { unfold ch'. destruct (Z.eqb_spec ch 13); [|lia]. split; [|done]. unfold NL. lia. }
  eapply wp_mono; [apply (store_char_ok ch' _ s Hwf' Hpl' Hlen Hp Hk); [apply Hch'|apply Hch'|exact Hf]|].
  intros [] c1 s1 [-> (k1 & Hk1 & Hl1 & Ht1)]. eapply Hrel; [done|exact Hk1| |reflexivity|reflexivity|exact Ht1].
  rewrite Hl1. fold k l. rewrite (app_assoc (ln_ready l)), (length_app _ [ch']). simpl (length [ch']).
  replace (Z.of_nat (length (ln_ready l ++ ln_edit l) + 1)) with (Z.of_nat (length (ln_ready l ++ ln_edit l)) + 1) by lia. done.
Qed.

Lemma exk_cons_ok : cons_ok (k_cons exk_kst).
Proof.
  split; [|apply not_elem_of_nil]. split; [by vm_compute|by vm_compute|done].
Qed.

Lemma consoleintr_spec_witness :
  wp (consoleintr 10) exk_core exk_kst (fun _ c' s' => c' = exk_core /\ ln_ready (line_of (k_cons s')) = [10] /\
    ud_out (k_uart s') = ud_out (k_uart exk_kst) ++ [(THR, 10)]).
Proof.
  eapply wp_mono; [apply (consoleintr_spec 10 exk_core exk_kst); [lia|discriminate|by exists "lock"|apply exk_all_locks|reflexivity|reflexivity|apply exk_cons_ok]|].
  intros [] c' s' [-> (k & _ & Hl & u & Hu & ->)]. split; [reflexivity|]. cbn [k_cons k_uart set_k_proc set_k_uart set_k_cons].
  split; [rewrite Hl; vm_compute; reflexivity|]. exact (ul_out _ _ _ Hu).
Defined.
