(* ===== verification/Syscall.v ===== *)
(** * System call arguments and exec: kernel/syscall.c (fetching), kernel/exec.c

    Strings are fetched into a buffer; the bytes of the buffer up to and with
    the NUL are the value. *)

From Stdlib Require Import ZArith Lia.
From stdpp Require Import base gmap list numbers strings.
From S2P Require Import Prelude Riscv Core Spinlock Kstring Kalloc Vm Sleeplock Bio Log Pipe Fs Uart Kst Sched Printf Console File Proc.
Local Open Scope Z_scope.

Definition ld64 (off : nat) (l : list Z) : Z := le_val (slice off 8 l).

(** [None] is -1; otherwise the value stored at [ip]. *)
Definition fetchaddr (addr : Z) : M kst (option Z) :=
  p ← myproc_idx;
  x ← gets (get_proc p);
  if (p_sz x <=? addr) || (p_sz x <? u64 (addr + 8)) then mret None else
  r ← lift kl_kmem (copyin (p_pagetable x) addr 8);
  if negb (r.1 =? 0) then mret None else mret (Some (ld64 0 r.2)).

(** [None] is an error; otherwise the length of the string and the buffer. *)
Definition fetchstr (addr max : Z) : M kst (option (Z * list Z)) :=
  p ← myproc_idx;
  x ← gets (get_proc p);
  r ← lift kl_kmem (copyinstr (p_pagetable x) addr max);
  match r with
  | None => mret None
  | Some buf =>
      match strlen (arr buf) 0 (S (length buf)) with
      | Some n => mret (Some (Z.of_nat n, buf))
      | None => nofuel
      end
  end.

Definition argraw (n : Z) : M kst Z :=
  p ← myproc_idx;
  if (0 <=? n) && (n <=? 5) then tf_get p (TF_a0 + 8 * n) else panic "argraw".

Definition argint (n : Z) : M kst Z := v ← argraw n; mret (s32 v).
Definition argaddr (n : Z) : M kst Z := argraw n.
Definition argstr (n max : Z) : M kst (option (Z * list Z)) :=
  addr ← argaddr n;
  fetchstr addr max.

(** ** exec.c *)

Definition ELF_MAGIC : Z := 0x464C457F.
Definition ELF_PROG_LOAD : Z := 1.

(** The fields that exec uses of struct elfhdr (64 bytes) and struct proghdr (56 bytes). *)
Record elfhdr : Type := mkElfhdr { eh_magic : Z; eh_entry : Z; eh_phoff : Z; eh_phnum : Z }.
Definition elfhdr_decode (l : list Z) : elfhdr := mkElfhdr (ld32 0 l) (ld64 24 l) (ld64 32 l) (ld16 56 l).
Definition ELFHDR : Z := 64.

Record proghdr : Type := mkProghdr { ph_type : Z; ph_off : Z; ph_vaddr : Z; ph_filesz : Z; ph_memsz : Z }.
Definition proghdr_decode (l : list Z) : proghdr :=
  mkProghdr (ld32 0 l) (ld64 8 l) (ld64 16 l) (ld64 32 l) (ld64 40 l).
Definition PROGHDR : Z := 56.

Fixpoint loadseg_loop (pagetable va : Z) (ip : nat) (offset sz i : Z) (fuel : nat) : M kst Z :=
  if i <? sz then
    match fuel with
    | O => nofuel
    | S fuel =>
        pa ← lift kl_kmem (walkaddr pagetable (u64 (va + i)));
        if pa =? 0 then panic "loadseg: address should exist" else
        let n := if sz - i <? PGSIZE then sz - i else PGSIZE in
        r ← klift kl_fs (readi ip (ToKern pa) (u32 (offset + i)) n);
        if negb (r.1 =? n) then mret (-1) else loadseg_loop pagetable va ip offset sz (u32 (i + PGSIZE)) fuel
    end
  else mret 0.

(** [offset] and [sz] are 32-bit. *)
Definition loadseg (pagetable va : Z) (ip : nat) (offset sz : Z) : M kst Z :=
  loadseg_loop pagetable va ip (u32 offset) (u32 sz) 0 (Z.to_nat (u32 sz / PGSIZE + 1)).

(** The loop over the program headers: whether it succeeded, and [sz]. *)
Fixpoint exec_load (pagetable : Z) (ip : nat) (off sz : Z) (k : nat) : M kst (bool * Z) :=
  match k with
  | O => mret (true, sz)
  | S k =>
      r ← klift kl_fs (readi ip ToLocal (u32 off) PROGHDR);
      if negb (r.1 =? PROGHDR) then mret (false, sz) else
      let ph := proghdr_decode r.2 in
      if negb (ph_type ph =? ELF_PROG_LOAD) then exec_load pagetable ip (s32 (off + PROGHDR)) sz k else
      if ph_memsz ph <? ph_filesz ph then mret (false, sz) else
      if u64 (ph_vaddr ph + ph_memsz ph) <? ph_vaddr ph then mret (false, sz) else
      sz1 ← lift kl_kmem (uvmalloc pagetable sz (u64 (ph_vaddr ph + ph_memsz ph)));
      if sz1 =? 0 then mret (false, sz) else
      if negb (ph_vaddr ph mod PGSIZE =? 0) then mret (false, sz1) else
      r ← loadseg pagetable (ph_vaddr ph) ip (ph_off ph) (ph_filesz ph);
      if r <? 0 then mret (false, sz1) else exec_load pagetable ip (s32 (off + PROGHDR)) sz1 k
  end.

(** The string at a kernel address, with its NUL; it fits into a page. *)
Definition kstr (a : Z) (s : kst) : option (list Z) :=
  n ← strlen (fun i => rd (mem s) (a + Z.of_nat i)) 0 (Z.to_nat PGSIZE);
  Some (rdn (mem s) a (S n)).

(** The loop that pushes the argument strings: [None] is goto bad; otherwise
    the stack pointer and [ustack] without its final 0. *)
Fixpoint exec_args (pagetable stackbase : Z) (argv : list Z) (argc sp : Z) (ustack : list Z)
    : M kst (option (Z * list Z)) :=
  match argv with
  | [] => mret (Some (sp, ustack))
  | a :: argv =>
      if MAXARG <=? argc then mret None else
      s ← get;
      match kstr a s with
      | None => nofuel
      | Some bs =>
          let sp := u64 (sp - Z.of_nat (length bs)) in
          let sp := sp - sp mod 16 in
          if sp <? stackbase then mret None else
          r ← lift kl_kmem (copyout pagetable sp bs (Z.of_nat (length bs)));
          if r <? 0 then mret None else exec_args pagetable stackbase argv (argc + 1) sp (ustack ++ [sp])
      end
  end.

(** The part of the path after the last slash. *)
Fixpoint last_elem (last s : list Z) : list Z :=
  match s with
  | [] => last
  | c :: s' => if c =? 0 then last else last_elem (if c =? SLASH then s' else last) s'
  end.

(** [argv] are the addresses before the null pointer. *)
Definition exec (path : list Z) (argv : list Z) : M kst Z :=
  p ← myproc_idx;
  let bad (pagetable sz : Z) (ip : option nat) : M kst Z :=
    _ ← when (negb (pagetable =? 0)) (lift kl_kmem (proc_freepagetable pagetable sz));
    _ ← match ip with
        | Some ip => _ ← klift kl_fs (iunlockput ip); klift kl_log end_op
        | None => mret tt
        end;
    mret (-1) in
  _ ← klift kl_log begin_op;
  ip ← klift kl_fs (namei path);
  match ip with
  | None => _ ← klift kl_log end_op; mret (-1)
  | Some ip =>
      _ ← klift kl_fs (ilock ip);
      r ← klift kl_fs (readi ip ToLocal 0 ELFHDR);
      if negb (r.1 =? ELFHDR) then bad 0 0 (Some ip) else
      let elf := elfhdr_decode r.2 in
      if negb (eh_magic elf =? ELF_MAGIC) then bad 0 0 (Some ip) else
      s ← get;
      pagetable ← lift kl_kmem (proc_pagetable (sy_trampoline (k_syms s)) (p_trapframe (get_proc p s)));
      if pagetable =? 0 then bad 0 0 (Some ip) else
      r ← exec_load pagetable ip (s32 (eh_phoff elf)) 0 (Z.to_nat (eh_phnum elf));
      if negb r.1 then bad pagetable r.2 (Some ip) else
      _ ← klift kl_fs (iunlockput ip);
      _ ← klift kl_log end_op;
      x ← gets (get_proc p);
      let oldsz := p_sz x in
      let sz := PGROUNDUP r.2 in
      sz1 ← lift kl_kmem (uvmalloc pagetable sz (u64 (sz + 2 * PGSIZE)));
      if sz1 =? 0 then bad pagetable sz None else
      let sz := sz1 in
      _ ← lift kl_kmem (uvmclear pagetable (u64 (sz - 2 * PGSIZE)));
      let stackbase := sz - PGSIZE in
      a ← exec_args pagetable stackbase argv 0 sz [];
      match a with
      | None => bad pagetable sz None
      | Some (sp, ustack) =>
          let argc := Z.of_nat (length ustack) in
          let sp := u64 (sp - (argc + 1) * 8) in
          let sp := sp - sp mod 16 in
          if sp <? stackbase then bad pagetable sz None else
          r ← lift kl_kmem (copyout pagetable sp ((ustack ++ [0]) ≫= le_bytes 8) ((argc + 1) * 8));
          if r <? 0 then bad pagetable sz None else
          _ ← tf_set p TF_a1 sp;
          _ ← upd_proc p (set_name (last_elem path path));
          x ← gets (get_proc p);
          let oldpagetable := p_pagetable x in
          _ ← upd_proc p (fun x => set_p_sz sz (set_p_pagetable pagetable x));
          _ ← tf_set p TF_epc (eh_entry elf);
          _ ← tf_set p TF_sp sp;
          _ ← lift kl_kmem (proc_freepagetable oldpagetable oldsz);
          mret argc
      end
  end.
