(* ===== verification/Sysproc.v ===== *)
(** * System calls on processes: kernel/sysproc.c *)

From Stdlib Require Import ZArith Lia.
From stdpp Require Import base gmap list numbers strings.
From S2P Require Import Prelude Riscv Core Spinlock Kstring Kalloc Vm Sleeplock Bio Log Pipe Fs Uart Kst Sched Printf Console File Proc Syscall.
Local Open Scope Z_scope.

(** The system calls return uint64; -1 is [u64 (-1)]. *)

Definition sys_exit : M kst Z :=
  n ← argint 0;
  _ ← exit n;
  mret 0.

Definition sys_getpid : M kst Z :=
  p ← myproc_idx;
  x ← gets (get_proc p);
  mret (u64 (p_pid x)).

Definition sys_fork : M kst Z := r ← fork; mret (u64 r).

Definition sys_wait : M kst Z :=
  p ← argaddr 0;
  r ← wait p;
  mret (u64 r).

(** [addr] is an int. *)
Definition sys_sbrk : M kst Z :=
  n ← argint 0;
  p ← myproc_idx;
  x ← gets (get_proc p);
  let addr := s32 (p_sz x) in
  r ← growproc n;
  if r <? 0 then mret (u64 (-1)) else mret (u64 addr).

(** The while loop of [sys_sleep] with tickslock held, from its test to the
    return or to the call of sleep; it is entered again when the process has
    woken up and taken the lock.  The comparison is unsigned. *)
Definition sys_sleep_loop (ticks0 n : Z) : M kst Z :=
  ticks ← gets k_ticks;
  if u32 (ticks - ticks0) <? u32 n then
    p ← myproc_idx;
    x ← gets (get_proc p);
    if negb (p_killed x =? 0) then
      _ ← release LkTicks;
      mret (u64 (-1))
    else proc_sleep ChTicks LkTicks
  else
    _ ← release LkTicks;
    mret 0.

Definition sys_sleep : M kst Z :=
  n ← argint 0;
  _ ← acquire LkTicks;
  ticks0 ← gets k_ticks;
  sys_sleep_loop ticks0 n.

Definition sys_kill : M kst Z :=
  pid ← argint 0;
  r ← kill pid;
  mret (u64 r).

Definition sys_uptime : M kst Z :=
  _ ← acquire LkTicks;
  xticks ← gets k_ticks;
  _ ← release LkTicks;
  mret xticks.
