(* ===== verification/Sysfile.v ===== *)
(** * System calls on files: kernel/sysfile.c *)

From Stdlib Require Import ZArith Lia.
From stdpp Require Import base gmap list numbers strings.
From S2P Require Import Prelude Riscv Core Spinlock Kstring Kalloc Vm Sleeplock Bio Log Pipe Fs Uart Kst Sched Printf Console File Proc Syscall.
Local Open Scope Z_scope.

Definition has (omode flag : Z) : bool := negb (Z.land omode flag =? 0).

Definition err : M kst Z := mret (u64 (-1)).

(** ** File descriptors *)

(** [None] is -1; otherwise the descriptor and the file. *)
Definition argfd (n : Z) : M kst (option (nat * nat)) :=
  fd ← argint n;
  if (fd <? 0) || (NOFILE <=? fd) then mret None else
  p ← myproc_idx;
  x ← gets (get_proc p);
  match nth (Z.to_nat fd) (p_ofile x) None with
  | None => mret None
  | Some f => mret (Some (Z.to_nat fd, f))
  end.

(** The first null pointer. *)
Fixpoint free_fd (l : list (option nat)) (i : nat) : option nat :=
  match l with
  | [] => None
  | None :: _ => Some i
  | Some _ :: l => free_fd l (S i)
  end.

Definition set_ofile (p fd : nat) (f : option nat) : M kst unit :=
  upd_proc p (fun x => set_p_ofile (<[fd := f]> (p_ofile x)) x).

(** [None] is -1. *)
Definition fdalloc (f : nat) : M kst (option nat) :=
  p ← myproc_idx;
  x ← gets (get_proc p);
  match free_fd (take (Z.to_nat NOFILE) (p_ofile x)) 0 with
  | Some fd => _ ← set_ofile p fd (Some f); mret (Some fd)
  | None => mret None
  end.

Definition sys_dup : M kst Z :=
  r ← argfd 0;
  match r with
  | None => err
  | Some (_, f) =>
      fd ← fdalloc f;
      match fd with
      | None => err
      | Some fd => _ ← filedup f; mret (Z.of_nat fd)
      end
  end.

Definition sys_read : M kst Z :=
  r ← argfd 0;
  match r with
  | None => err
  | Some (_, f) =>
      n ← argint 2;
      p ← argaddr 1;
      r ← fileread f p n;
      mret (u64 r)
  end.

(** [kl] is what pipewrite reads from [pr->killed]. *)
Definition sys_write (kl : nat -> bool) : M kst Z :=
  r ← argfd 0;
  match r with
  | None => err
  | Some (_, f) =>
      n ← argint 2;
      p ← argaddr 1;
      r ← filewrite kl f p n;
      mret (u64 r)
  end.

Definition sys_close : M kst Z :=
  r ← argfd 0;
  match r with
  | None => err
  | Some (fd, f) =>
      p ← myproc_idx;
      _ ← set_ofile p fd None;
      _ ← fileclose f;
      mret 0
  end.

Definition sys_fstat : M kst Z :=
  r ← argfd 0;
  match r with
  | None => err
  | Some (_, f) =>
      st ← argaddr 1;
      r ← filestat f st;
      mret (u64 r)
  end.

(** ** Links *)

Definition get_ip (ip : nat) (s : kst) : inode := get_inode ip (k_fs s).
Definition add_nlink (ip : nat) (k : Z) : M kst unit :=
  lift kl_fs (modify (upd_d ip (fun d => set_nlink (s16 (di_nlink d + k)) d))).

Definition sys_link : M kst Z :=
  old ← argstr 0 MAXPATH;
  match old with
  | None => err
  | Some (_, old) =>
  new ← argstr 1 MAXPATH;
  match new with
  | None => err
  | Some (_, new) =>
      _ ← klift kl_log begin_op;
      ip ← klift kl_fs (namei old);
      match ip with
      | None => _ ← klift kl_log end_op; err
      | Some ip =>
          let bad : M kst Z :=
            _ ← klift kl_fs (ilock ip);
            _ ← add_nlink ip (-1);
            _ ← klift kl_fs (iupdate ip);
            _ ← klift kl_fs (iunlockput ip);
            _ ← klift kl_log end_op;
            err in
          _ ← klift kl_fs (ilock ip);
          i ← gets (get_ip ip);
          if di_type (in_d i) =? T_DIR then
            _ ← klift kl_fs (iunlockput ip);
            _ ← klift kl_log end_op;
            err
          else
          _ ← add_nlink ip 1;
          _ ← klift kl_fs (iupdate ip);
          _ ← klift kl_fs (iunlock ip);
          dn ← klift kl_fs (nameiparent new);
          match dn with
          | (None, _) => bad
          | (Some dp, name) =>
              _ ← klift kl_fs (ilock dp);
              d ← gets (get_ip dp);
              i ← gets (get_ip ip);
              r ← (if negb (in_dev d =? in_dev i) then mret (-1) else klift kl_fs (dirlink dp name (in_inum i)));
              if r <? 0 then _ ← klift kl_fs (iunlockput dp); bad else
              _ ← klift kl_fs (iunlockput dp);
              _ ← klift kl_fs (iput ip);
              _ ← klift kl_log end_op;
              mret 0
          end
      end
  end
  end.

(** [off] is an int, compared as unsigned with the size. *)
Fixpoint isdirempty_loop (dp : nat) (off : Z) (fuel : nat) : M fsst bool :=
  d ← gets (get_inode dp);
  if off <? di_size (in_d d) then
    match fuel with
    | O => nofuel
    | S fuel =>
        de ← read_de dp off "isdirempty: readi";
        if negb (de_inum de =? 0) then mret false else isdirempty_loop dp (u32 (off + DIRENT)) fuel
    end
  else mret true.

Definition isdirempty (dp : nat) : M fsst bool :=
  d ← gets (get_inode dp);
  isdirempty_loop dp (2 * DIRENT) (Z.to_nat (di_size (in_d d) / DIRENT + 1)).

Definition sys_unlink : M kst Z :=
  path ← argstr 0 MAXPATH;
  match path with
  | None => err
  | Some (_, path) =>
      _ ← klift kl_log begin_op;
      dn ← klift kl_fs (nameiparent path);
      match dn with
      | (None, _) => _ ← klift kl_log end_op; err
      | (Some dp, name) =>
          let bad : M kst Z := _ ← klift kl_fs (iunlockput dp); _ ← klift kl_log end_op; err in
          _ ← klift kl_fs (ilock dp);
          if (namecmp name (str ".") =? 0) || (namecmp name (str "..") =? 0) then bad else
          r ← klift kl_fs (dirlookup dp name);
          match r with
          | None => bad
          | Some (ip, off) =>
              _ ← klift kl_fs (ilock ip);
              i ← gets (get_ip ip);
              if di_nlink (in_d i) <? 1 then panic "unlink: nlink < 1" else
              e ← (if di_type (in_d i) =? T_DIR then klift kl_fs (isdirempty ip) else mret true);
              if negb e then _ ← klift kl_fs (iunlockput ip); bad else
              r ← klift kl_fs (writei dp (FromLocal (repeat 0 (Z.to_nat DIRENT))) off DIRENT);
              if negb (r =? DIRENT) then panic "unlink: writei" else
              i ← gets (get_ip ip);
              _ ← when (di_type (in_d i) =? T_DIR) (_ ← add_nlink dp (-1); klift kl_fs (iupdate dp));
              _ ← klift kl_fs (iunlockput dp);
              _ ← add_nlink ip (-1);
              _ ← klift kl_fs (iupdate ip);
              _ ← klift kl_fs (iunlockput ip);
              _ ← klift kl_log end_op;
              mret 0
          end
      end
  end.

(** ** Creating and opening *)

(** [None] is the null pointer; the inode returned is locked. *)
Definition create (path : list Z) (type major minor : Z) : M kst (option nat) :=
  dn ← klift kl_fs (nameiparent path);
  match dn with
  | (None, _) => mret None
  | (Some dp, name) =>
      _ ← klift kl_fs (ilock dp);
      r ← klift kl_fs (dirlookup dp name);
      match r with
      | Some (ip, _) =>
          _ ← klift kl_fs (iunlockput dp);
          _ ← klift kl_fs (ilock ip);
          i ← gets (get_ip ip);
          if (type =? T_FILE) && ((di_type (in_d i) =? T_FILE) || (di_type (in_d i) =? T_DEVICE)) then mret (Some ip)
          else _ ← klift kl_fs (iunlockput ip); mret None
      | None =>
          d ← gets (get_ip dp);
          ip ← klift kl_fs (ialloc (in_dev d) type);
          _ ← klift kl_fs (ilock ip);
          _ ← lift kl_fs (modify (upd_d ip (fun d => mkDinode (di_type d) major minor 1 (di_size d) (di_addrs d))));
          _ ← klift kl_fs (iupdate ip);
          i ← gets (get_ip ip);
          _ ← when (type =? T_DIR)
                (_ ← add_nlink dp 1;
                 _ ← klift kl_fs (iupdate dp);
                 r ← klift kl_fs (dirlink ip (str ".") (in_inum i));
                 if r <? 0 then panic "create dots" else
                 d ← gets (get_ip dp);
                 r ← klift kl_fs (dirlink ip (str "..") (in_inum d));
                 if r <? 0 then panic "create dots" else mret tt);
          r ← klift kl_fs (dirlink dp name (in_inum i));
          if r <? 0 then panic "create: dirlink" else
          _ ← klift kl_fs (iunlockput dp);
          mret (Some ip)
      end
  end.

(** The first part of [sys_open]: the inode, locked; [None] is return -1. *)
Definition open_inode (path : list Z) (omode : Z) : M kst (option nat) :=
  if has omode O_CREATE then
    ip ← create path T_FILE 0 0;
    match ip with
    | None => _ ← klift kl_log end_op; mret None
    | Some ip => mret (Some ip)
    end
  else
    ip ← klift kl_fs (namei path);
    match ip with
    | None => _ ← klift kl_log end_op; mret None
    | Some ip =>
        _ ← klift kl_fs (ilock ip);
        i ← gets (get_ip ip);
        if (di_type (in_d i) =? T_DIR) && negb (omode =? O_RDONLY) then
          _ ← klift kl_fs (iunlockput ip);
          _ ← klift kl_log end_op;
          mret None
        else mret (Some ip)
    end.

(** The stores to the fields of [f]. *)
Definition open_file (ip : nat) (d : dinode) (omode : Z) (f : file) : file :=
  let r := if has omode O_WRONLY then 0 else 1 in
  let w := if has omode O_WRONLY || has omode O_RDWR then 1 else 0 in
  if di_type d =? T_DEVICE
  then mkFile FD_DEVICE (f_ref f) r w (f_pipe f) ip (f_off f) (di_major d)
  else mkFile FD_INODE (f_ref f) r w (f_pipe f) ip 0 (f_major f).

Definition sys_open : M kst Z :=
  path ← argstr 0 MAXPATH;
  match path with
  | None => err
  | Some (_, path) =>
      omode ← argint 1;
      _ ← klift kl_log begin_op;
      ip ← open_inode path omode;
      match ip with
      | None => err
      | Some ip =>
          let bad : M kst Z := _ ← klift kl_fs (iunlockput ip); _ ← klift kl_log end_op; err in
          i ← gets (get_ip ip);
          let d := in_d i in
          if (di_type d =? T_DEVICE) && ((di_major d <? 0) || (NDEV <=? di_major d)) then bad else
          f ← filealloc;
          match f with
          | None => bad
          | Some f =>
              fd ← fdalloc f;
              match fd with
              | None => _ ← fileclose f; bad
              | Some fd =>
                  _ ← modify (upd_file f (open_file ip d omode));
                  _ ← when (has omode O_TRUNC && (di_type d =? T_FILE)) (klift kl_fs (itrunc ip));
                  _ ← klift kl_fs (iunlock ip);
                  _ ← klift kl_log end_op;
                  mret (Z.of_nat fd)
              end
          end
      end
  end.

(** The end of sys_mkdir and sys_mknod. *)
Definition created (ip : option nat) : M kst Z :=
  match ip with
  | None => _ ← klift kl_log end_op; err
  | Some ip =>
      _ ← klift kl_fs (iunlockput ip);
      _ ← klift kl_log end_op;
      mret 0
  end.

Definition sys_mkdir : M kst Z :=
  _ ← klift kl_log begin_op;
  path ← argstr 0 MAXPATH;
  match path with
  | None => created None
  | Some (_, path) => ip ← create path T_DIR 0 0; created ip
  end.

(** The parameters [major] and [minor] of [create] are shorts. *)
Definition sys_mknod : M kst Z :=
  _ ← klift kl_log begin_op;
  path ← argstr 0 MAXPATH;
  match path with
  | None => created None
  | Some (_, path) =>
      major ← argint 1;
      minor ← argint 2;
      ip ← create path T_DEVICE (s16 major) (s16 minor);
      created ip
  end.

Definition sys_chdir : M kst Z :=
  p ← myproc_idx;
  _ ← klift kl_log begin_op;
  path ← argstr 0 MAXPATH;
  match path with
  | None => _ ← klift kl_log end_op; err
  | Some (_, path) =>
      ip ← klift kl_fs (namei path);
      match ip with
      | None => _ ← klift kl_log end_op; err
      | Some ip =>
          _ ← klift kl_fs (ilock ip);
          i ← gets (get_ip ip);
          if negb (di_type (in_d i) =? T_DIR) then
            _ ← klift kl_fs (iunlockput ip);
            _ ← klift kl_log end_op;
            err
          else
          _ ← klift kl_fs (iunlock ip);
          x ← gets (get_proc p);
          _ ← match p_cwd x with Some d => klift kl_fs (iput d) | None => fault "chdir: iput(0)" end;
          _ ← klift kl_log end_op;
          _ ← upd_proc p (set_p_cwd (Some ip));
          mret 0
      end
  end.

(** ** exec and pipe *)

(** The for loop of [sys_exec] from [i] on; [argv] are the pages allocated so
    far.  [inl] is goto bad. *)
Fixpoint sys_exec_args (uargv i : Z) (argv : list Z) (k : nat) : M kst (list Z + list Z) :=
  match k with
  | O => mret (inl argv)                                  (* i >= NELEM(argv) *)
  | S k =>
      uarg ← fetchaddr (u64 (uargv + 8 * i));
      match uarg with
      | None => mret (inl argv)
      | Some uarg =>
          if uarg =? 0 then mret (inr argv) else
          pa ← lift kl_kmem kalloc;
          if pa =? 0 then mret (inl argv) else
          r ← fetchstr uarg PGSIZE;
          match r with
          | None => mret (inl (argv ++ [pa]))
          | Some (_, bs) =>
              _ ← upd_kmem (fun m => wrl m pa bs);
              sys_exec_args uargv (i + 1) (argv ++ [pa]) k
          end
      end
  end.

Definition free_args (argv : list Z) : M kst unit := forM argv (fun pa => lift kl_kmem (kfree pa)).

Definition sys_exec : M kst Z :=
  path ← argstr 0 MAXPATH;
  match path with
  | None => err
  | Some (_, path) =>
      uargv ← argaddr 1;
      r ← sys_exec_args uargv 0 [] (Z.to_nat MAXARG);
      match r with
      | inl argv => _ ← free_args argv; err
      | inr argv =>
          ret ← exec path argv;
          _ ← free_args argv;
          mret (u64 ret)
      end
  end.

Definition sys_pipe : M kst Z :=
  p ← myproc_idx;
  fdarray ← argaddr 0;
  r ← pipealloc;
  match r with
  | None => err
  | Some (rf, wf) =>
      let close : M kst Z := _ ← fileclose rf; _ ← fileclose wf; err in
      fd0 ← fdalloc rf;
      match fd0 with
      | None => close
      | Some fd0 =>
          fd1 ← fdalloc wf;
          match fd1 with
          | None => _ ← set_ofile p fd0 None; close
          | Some fd1 =>
              let bad : M kst Z := _ ← set_ofile p fd0 None; _ ← set_ofile p fd1 None; close in
              x ← gets (get_proc p);
              r ← lift kl_kmem (copyout (p_pagetable x) fdarray (le_bytes 4 (Z.of_nat fd0)) 4);
              if r <? 0 then bad else
              r ← lift kl_kmem (copyout (p_pagetable x) (u64 (fdarray + 4)) (le_bytes 4 (Z.of_nat fd1)) 4);
              if r <? 0 then bad else mret 0
          end
      end
  end.
