(* ===== verification/Trap.v ===== *)
(** * Traps: the dispatch of kernel/syscall.c, kernel/trap.c, kernel/plic.c and forkret

    Stores to the registers of the PLIC are recorded in [k_mmio]; what it
    answers to a claim comes from [k_claims]. *)

From Stdlib Require Import ZArith Lia.
From stdpp Require Import base gmap list numbers strings.
From S2P Require Import Prelude Riscv Core Spinlock Kstring Kalloc Vm Sleeplock Bio Log Pipe Fs Uart Virtio Kst Sched Printf Console File Proc Syscall Sysproc Sysfile.
Local Open Scope Z_scope.

(** ** syscall *)

Definition SYS_fork : Z := 1.
Definition SYS_exit : Z := 2.
Definition SYS_wait : Z := 3.
Definition SYS_pipe : Z := 4.
Definition SYS_read : Z := 5.
Definition SYS_kill : Z := 6.
Definition SYS_exec : Z := 7.
Definition SYS_fstat : Z := 8.
Definition SYS_chdir : Z := 9.
Definition SYS_dup : Z := 10.
Definition SYS_getpid : Z := 11.
Definition SYS_sbrk : Z := 12.
Definition SYS_sleep : Z := 13.
Definition SYS_uptime : Z := 14.
Definition SYS_open : Z := 15.
Definition SYS_write : Z := 16.
Definition SYS_mknod : Z := 17.
Definition SYS_unlink : Z := 18.
Definition SYS_link : Z := 19.
Definition SYS_mkdir : Z := 20.
Definition SYS_close : Z := 21.

(** The designated initializers of the array [syscalls]. *)
Definition syscalls_init (kl : nat -> bool) : list (Z * M kst Z) :=
  [(SYS_fork, sys_fork); (SYS_exit, sys_exit); (SYS_wait, sys_wait); (SYS_pipe, sys_pipe);
   (SYS_read, sys_read); (SYS_kill, sys_kill); (SYS_exec, sys_exec); (SYS_fstat, sys_fstat);
   (SYS_chdir, sys_chdir); (SYS_dup, sys_dup); (SYS_getpid, sys_getpid); (SYS_sbrk, sys_sbrk);
   (SYS_sleep, sys_sleep); (SYS_uptime, sys_uptime); (SYS_open, sys_open); (SYS_write, sys_write kl);
   (SYS_mknod, sys_mknod); (SYS_unlink, sys_unlink); (SYS_link, sys_link); (SYS_mkdir, sys_mkdir);
   (SYS_close, sys_close)].

(** The array: [None] is a null pointer, as in entry 0. *)
Definition syscalls (kl : nat -> bool) : list (option (M kst Z)) :=
  foldl (fun a e => <[Z.to_nat e.1 := Some e.2]> a) (repeat None 22) (syscalls_init kl).

Definition syscall (kl : nat -> bool) : M kst unit :=
  p ← myproc_idx;
  a7 ← tf_get p TF_a7;
  let num := s32 a7 in
  match (if (0 <? num) && (num <? Z.of_nat (length (syscalls kl)))
         then nth (Z.to_nat num) (syscalls kl) None else None) with
  | Some f =>
      r ← f;
      tf_set p TF_a0 r
  | None =>
      x ← gets (get_proc p);
      _ ← printf (str "%d %s: unknown sys call %d" ++ [NL]) [PInt (p_pid x); PStr (Some (p_name x)); PInt num];
      tf_set p TF_a0 (u64 (-1))
  end.

(** ** plic.c *)

Definition mmio_write (a v : Z) : M kst unit := modify (fun s => set_k_mmio (k_mmio s ++ [(a, v)]) s).

Definition plicinit : M kst unit :=
  _ ← mmio_write (PLIC + UART0_IRQ * 4) 1;
  mmio_write (PLIC + VIRTIO0_IRQ * 4) 1.

Definition plicinithart : M kst unit :=
  c ← getc;
  let hart := cpuid c in
  _ ← mmio_write (PLIC_SENABLE hart) (Z.lor (Z.shiftl 1 UART0_IRQ) (Z.shiftl 1 VIRTIO0_IRQ));
  mmio_write (PLIC_SPRIORITY hart) 0.

(** The load of the claim register; 0 when nothing is pending. *)
Definition plic_claim : M kst Z :=
  l ← gets k_claims;
  match l with
  | [] => mret 0
  | irq :: l => _ ← modify (set_k_claims l); mret (s32 irq)
  end.

Definition plic_complete (irq : Z) : M kst unit :=
  c ← getc;
  mmio_write (PLIC_SCLAIM (cpuid c)) (u32 irq).

(** ** trap.c *)

Definition trapinit : M kst unit := initlock LkTicks "time".

Definition trapinithart : M kst unit :=
  s ← get;
  w_csr Stvec (sy_kernelvec (k_syms s)).

Definition clockintr : M kst unit :=
  _ ← acquire LkTicks;
  _ ← modify (fun s => set_k_ticks (u32 (k_ticks s + 1)) s);
  _ ← proc_wakeup ChTicks;
  release LkTicks.

Definition devintr : M kst Z :=
  scause ← r_csr Scause;
  if negb (Z.land scause 0x8000000000000000 =? 0) && (Z.land scause 0xff =? 9) then
    irq ← plic_claim;
    _ ← (if irq =? UART0_IRQ then uartintr
         else if irq =? VIRTIO0_IRQ then klift kl_vdisk virtio_disk_intr
         else when (negb (irq =? 0)) (printf (str "unexpected interrupt irq=%d" ++ [NL]) [PInt irq]));
    _ ← when (negb (irq =? 0)) (plic_complete irq);
    mret 1
  else if scause =? 0x8000000000000001 then
    c ← getc;
    _ ← when (cpuid c =? 0) clockintr;
    sip ← r_csr Sip;
    _ ← w_csr Sip (Z.land sip (Z.lnot 2));
    mret 2
  else mret 0.

(** The value is the call at the end: the address of userret in the
    trampoline page and its two arguments. *)
Definition usertrapret : M kst (Z * Z * Z) :=
  p ← myproc_idx;
  _ ← modifyc intr_off;
  s ← get;
  let sy := k_syms s in
  _ ← w_csr Stvec (TRAMPOLINE + (sy_uservec sy - sy_trampoline sy));
  satp ← r_csr Satp;
  _ ← tf_set p TF_kernel_satp satp;
  x ← gets (get_proc p);
  _ ← tf_set p TF_kernel_sp (u64 (p_kstack x + PGSIZE));
  _ ← tf_set p TF_kernel_trap (sy_usertrap sy);
  c ← getc;
  _ ← tf_set p TF_kernel_hartid (c_tp c);
  let x := Z.land (c_sstatus c) (Z.lnot SSTATUS_SPP) in
  let x := Z.lor x SSTATUS_SPIE in
  _ ← modifyc (set_sstatus x);
  epc ← tf_get p TF_epc;
  _ ← w_csr Sepc epc;
  y ← gets (get_proc p);
  let satp := MAKE_SATP (p_pagetable y) in
  mret (TRAMPOLINE + (sy_userret sy - sy_trampoline sy), TRAPFRAME, satp).

Definition usertrap (kl : nat -> bool) : M kst (Z * Z * Z) :=
  c ← getc;
  if negb (Z.land (c_sstatus c) SSTATUS_SPP =? 0) then panic "usertrap: not from user mode" else
  s ← get;
  _ ← w_csr Stvec (sy_kernelvec (k_syms s));
  p ← myproc_idx;
  sepc ← r_csr Sepc;
  _ ← tf_set p TF_epc sepc;
  scause ← r_csr Scause;
  which_dev ←
    (if scause =? 8 then
       x ← gets (get_proc p);
       _ ← when (negb (p_killed x =? 0)) (exit (-1));
       epc ← tf_get p TF_epc;
       _ ← tf_set p TF_epc (u64 (epc + 4));
       _ ← modifyc intr_on;
       _ ← syscall kl;
       mret 0
     else
       which_dev ← devintr;
       if negb (which_dev =? 0) then mret which_dev else
       x ← gets (get_proc p);
       _ ← printf (str "usertrap(): unexpected scause %p pid=%d" ++ [NL]) [PPtr scause; PInt (p_pid x)];
       sepc ← r_csr Sepc;
       stval ← r_csr Stval;
       _ ← printf (str "            sepc=%p stval=%p" ++ [NL]) [PPtr sepc; PPtr stval];
       _ ← upd_proc p (set_p_killed 1);
       mret 0);
  x ← gets (get_proc p);
  _ ← when (negb (p_killed x =? 0)) (exit (-1));
  _ ← when (which_dev =? 2) yield;
  usertrapret.

Definition kerneltrap : M kst unit :=
  sepc ← r_csr Sepc;
  c ← getc;
  let sstatus := c_sstatus c in
  scause ← r_csr Scause;
  if Z.land sstatus SSTATUS_SPP =? 0 then panic "kerneltrap: not from supervisor mode" else
  if intr_get c then panic "kerneltrap: interrupts enabled" else
  which_dev ← devintr;
  if which_dev =? 0 then
    _ ← printf (str "scause %p" ++ [NL]) [PPtr scause];
    sepc ← r_csr Sepc;
    stval ← r_csr Stval;
    _ ← printf (str "sepc=%p stval=%p" ++ [NL]) [PPtr sepc; PPtr stval];
    panic "kerneltrap"
  else
  me ← myproc;
  s ← get;
  _ ← when ((which_dev =? 2) &&
            match me with
            | None => false
            | Some me => bool_decide (p_state (get_proc (cp_idx me) s) = RUNNING)
            end) yield;
  _ ← w_csr Sepc sepc;
  modifyc (set_sstatus sstatus).

(** proc.c: where a new process starts in the kernel. *)
Definition forkret : M kst (Z * Z * Z) :=
  p ← myproc_idx;
  _ ← release (LkProc p);
  first ← gets k_first;
  _ ← when (negb (first =? 0))
        (_ ← modify (set_k_first 0);
         klift kl_fs (fsinit ROOTDEV));
  usertrapret.
