(* ===== verification/Keeps.v ===== *)
(** * The process that runs stays the same

    Code of the components below the process table (the allocator, virtual
    memory, the block cache, the log, the file system, pipes, the serial port)
    never changes which process the hart runs: where it returns or goes to
    sleep, [myproc()] is the entry of proc[] that it was before. *)

From Stdlib Require Import ZArith Lia.
From stdpp Require Import base gmap list numbers strings.
From S2P Require Import Prelude Riscv Core Spinlock Kstring Kalloc Vm Sleeplock Bio Log Pipe Fs Uart Kst Printf.
Local Open Scope Z_scope.

Definition who (c : core) : option nat := cp_idx <$> c_proc c.

Definition kept {S A} (m : M S A) : Prop := forall c s,
  match m c s with Ok _ c' _ | Blocked _ c' _ => who c' = who c | _ => True end.

(** ** Rules *)

Create HintDb kept.

Lemma kept_bind {S A B} (m : M S A) (f : A -> M S B) : kept m -> (forall a, kept (f a)) -> kept (m ≫= f).
Proof.
  intros Hm Hf c s. unfold mbind, M_bind. specialize (Hm c s). destruct (m c s) as [a c' s'| | | | |]; try done.
  specialize (Hf a c' s'). destruct (f a c' s'); congruence.
Qed.
Lemma kept_ret {S A} (a : A) : kept (S := S) (mret a).
Proof. done. Qed.
Lemma kept_get {S} : kept (get (S := S)).
Proof. done. Qed.
Lemma kept_gets {S A} (f : S -> A) : kept (gets f).
Proof. done. Qed.
Lemma kept_modify {S} (f : S -> S) : kept (modify f).
Proof. done. Qed.
Lemma kept_getc {S} : kept (getc (S := S)).
Proof. done. Qed.
Lemma kept_modifyc {S} f : (forall c, who (f c) = who c) -> kept (S := S) (modifyc f).
Proof. intros H c s. apply H. Qed.
Lemma kept_stop {S A} (r : core -> S -> res S A) : (forall c s, match r c s with Ok _ _ _ | Blocked _ _ _ => False | _ => True end) -> kept r.
Proof. intros H c s. specialize (H c s). by destruct (r c s). Qed.
Lemma kept_panic {S A} msg : kept (S := S) (A := A) (panic msg).
Proof. done. Qed.
Lemma kept_fault {S A} msg : kept (S := S) (A := A) (fault msg).
Proof. done. Qed.
Lemma kept_nofuel {S A} : kept (S := S) (A := A) nofuel.
Proof. done. Qed.
Lemma kept_blocked {S A} ch : kept (S := S) (A := A) (blocked ch).
Proof. done. Qed.
Lemma kept_when {S} b (m : M S unit) : kept m -> kept (when b m).
Proof. by destruct b. Qed.
Lemma kept_forM {S X} (l : list X) (f : X -> M S unit) : (forall x, kept (f x)) -> kept (forM l f).
Proof. intros H. induction l as [|x l IH]; [done|]. by apply kept_bind. Qed.
Lemma kept_lift {S T A} (l : lens S T) (m : M S A) : kept m -> kept (lift l m).
Proof. intros H c t. unfold lift. specialize (H c (lens_get l t)). by destruct (m c (lens_get l t)). Qed.
Lemma kept_bio {A} (m : M bcache A) : kept m -> kept (bio m).
Proof. apply kept_lift. Qed.
Lemma kept_flog {A} (m : M logst A) : kept m -> kept (flog m).
Proof. apply kept_lift. Qed.
Lemma kept_fbio {A} (m : M bcache A) : kept m -> kept (fbio m).
Proof. intros H. by apply kept_flog, kept_bio. Qed.
#[export] Hint Resolve kept_ret kept_get kept_gets kept_modify kept_getc kept_panic kept_fault kept_nofuel kept_blocked : kept.

Lemma who_push_off c : who (push_off_core c) = who c.
Proof. unfold who. by rewrite push_proc. Qed.

(** Unfold nothing: follow the structure of the code and use the lemmas about
    the functions it calls. *)
Ltac kept_by tac :=
  repeat (cbn zeta beta;
    lazymatch goal with
    | |- kept (forM _ _) => apply kept_forM; intros ?
    | |- kept (mbind _ _) => apply kept_bind; [|intros ?]
    | |- kept (when _ _) => apply kept_when
    | |- kept (lift _ _) => apply kept_lift
    | |- kept (bio _) => apply kept_bio
    | |- kept (flog _) => apply kept_flog
    | |- kept (fbio _) => apply kept_fbio
    | |- kept (modifyc _) => apply kept_modifyc; intros ?; solve [done | apply who_push_off]
    | |- kept (fun _ _ => _) => first [done | apply kept_stop; done]
    | |- kept (match ?x with _ => _ end) => destruct x
    | |- _ => solve [auto with kept | tac]
    end).
Ltac kept := kept_by fail.

(** ** Locks *)

Lemma kept_push_off {S} : kept (push_off (S := S)).
Proof. unfold push_off. kept. Qed.
#[export] Hint Resolve kept_push_off : kept.
Lemma kept_pop_off {S} : kept (pop_off (S := S)).
Proof. unfold pop_off. kept. Qed.
#[export] Hint Resolve kept_pop_off : kept.
Lemma kept_initlock {S} lk name : kept (initlock (S := S) lk name).
Proof. unfold initlock. kept. Qed.
#[export] Hint Resolve kept_initlock : kept.
Lemma kept_acquire {S} lk : kept (acquire (S := S) lk).
Proof. unfold acquire. kept. Qed.
#[export] Hint Resolve kept_acquire : kept.
Lemma kept_release {S} lk : kept (release (S := S) lk).
Proof. unfold release. kept. Qed.
#[export] Hint Resolve kept_release : kept.
Lemma kept_myproc {S} : kept (myproc (S := S)).
Proof. unfold myproc. kept. Qed.
#[export] Hint Resolve kept_myproc : kept.
Lemma kept_sleep {S} {A} ch lk : kept (sleep (S := S) (A := A) ch lk).
Proof. unfold sleep. kept. Qed.
#[export] Hint Resolve kept_sleep : kept.
Lemma kept_wakeup {S} ch : kept (wakeup (S := S) ch).
Proof. unfold wakeup. kept. Qed.
#[export] Hint Resolve kept_wakeup : kept.
Lemma kept_initsleeplock {S} lk name : kept (initsleeplock (S := S) lk name).
Proof. unfold initsleeplock. kept. Qed.
#[export] Hint Resolve kept_initsleeplock : kept.
Lemma kept_acquiresleep {S} lk : kept (acquiresleep (S := S) lk).
Proof. unfold acquiresleep. kept. Qed.
#[export] Hint Resolve kept_acquiresleep : kept.
Lemma kept_releasesleep {S} lk : kept (releasesleep (S := S) lk).
Proof. unfold releasesleep. kept. Qed.
#[export] Hint Resolve kept_releasesleep : kept.
Lemma kept_holdingsleep {S} lk : kept (holdingsleep (S := S) lk).
Proof. unfold holdingsleep. kept. Qed.
#[export] Hint Resolve kept_holdingsleep : kept.

(** ** The allocator and virtual memory *)

Lemma kept_kfree pa : kept (kfree pa).
Proof. unfold kfree. kept. Qed.
#[export] Hint Resolve kept_kfree : kept.
Lemma kept_kalloc : kept (kalloc).
Proof. unfold kalloc. kept. Qed.
#[export] Hint Resolve kept_kalloc : kept.
Lemma kept_freerange_loop p pa_end fuel : kept (freerange_loop p pa_end fuel).
Proof. revert p pa_end. induction fuel as [|fuel IH]; intros; cbn [freerange_loop]; kept. Qed.
#[export] Hint Resolve kept_freerange_loop : kept.
Lemma kept_freerange pa_start pa_end : kept (freerange pa_start pa_end).
Proof. unfold freerange. kept. Qed.
#[export] Hint Resolve kept_freerange : kept.
Lemma kept_kinit : kept (kinit).
Proof. unfold kinit. kept. Qed.
#[export] Hint Resolve kept_kinit : kept.
Lemma kept_rdpte pte : kept (rdpte pte).
Proof. unfold rdpte. kept. Qed.
#[export] Hint Resolve kept_rdpte : kept.
Lemma kept_wrpte pte v : kept (wrpte pte v).
Proof. unfold wrpte. kept. Qed.
#[export] Hint Resolve kept_wrpte : kept.
Lemma kept_walk_loop pagetable va alloc level : kept (walk_loop pagetable va alloc level).
Proof. revert pagetable va alloc. induction level as [|level IH]; intros; cbn [walk_loop]; kept. Qed.
#[export] Hint Resolve kept_walk_loop : kept.
Lemma kept_walk pagetable va alloc : kept (walk pagetable va alloc).
Proof. unfold walk. kept. Qed.
#[export] Hint Resolve kept_walk : kept.
Lemma kept_walkaddr pagetable va : kept (walkaddr pagetable va).
Proof. unfold walkaddr. kept. Qed.
#[export] Hint Resolve kept_walkaddr : kept.
Lemma kept_mappages_loop pagetable a last pa perm fuel : kept (mappages_loop pagetable a last pa perm fuel).
Proof. revert pagetable a last pa perm. induction fuel as [|fuel IH]; intros; cbn [mappages_loop]; kept. Qed.
#[export] Hint Resolve kept_mappages_loop : kept.
Lemma kept_mappages pagetable va size pa perm : kept (mappages pagetable va size pa perm).
Proof. unfold mappages. kept. Qed.
#[export] Hint Resolve kept_mappages : kept.
Lemma kept_kvmmap kpgtbl va pa sz perm : kept (kvmmap kpgtbl va pa sz perm).
Proof. unfold kvmmap. kept. Qed.
#[export] Hint Resolve kept_kvmmap : kept.
Lemma kept_uvmunmap_loop pagetable a top do_free fuel : kept (uvmunmap_loop pagetable a top do_free fuel).
Proof. revert pagetable a top do_free. induction fuel as [|fuel IH]; intros; cbn [uvmunmap_loop]; kept. Qed.
#[export] Hint Resolve kept_uvmunmap_loop : kept.
Lemma kept_uvmunmap pagetable va npages do_free : kept (uvmunmap pagetable va npages do_free).
Proof. unfold uvmunmap. kept. Qed.
#[export] Hint Resolve kept_uvmunmap : kept.
Lemma kept_uvmcreate : kept (uvmcreate).
Proof. unfold uvmcreate. kept. Qed.
#[export] Hint Resolve kept_uvmcreate : kept.
Lemma kept_uvminit pagetable src sz : kept (uvminit pagetable src sz).
Proof. unfold uvminit. kept. Qed.
#[export] Hint Resolve kept_uvminit : kept.
Lemma kept_uvmdealloc pagetable oldsz newsz : kept (uvmdealloc pagetable oldsz newsz).
Proof. unfold uvmdealloc. kept. Qed.
#[export] Hint Resolve kept_uvmdealloc : kept.
Lemma kept_uvmalloc_loop pagetable a oldsz newsz fuel : kept (uvmalloc_loop pagetable a oldsz newsz fuel).
Proof. revert pagetable a oldsz newsz. induction fuel as [|fuel IH]; intros; cbn [uvmalloc_loop]; kept. Qed.
#[export] Hint Resolve kept_uvmalloc_loop : kept.
Lemma kept_uvmalloc pagetable oldsz newsz : kept (uvmalloc pagetable oldsz newsz).
Proof. unfold uvmalloc. kept. Qed.
#[export] Hint Resolve kept_uvmalloc : kept.
Lemma kept_freewalk depth pagetable : kept (freewalk depth pagetable).
Proof. revert pagetable. induction depth as [|depth IH]; intros; cbn [freewalk]; kept. Qed.
#[export] Hint Resolve kept_freewalk : kept.
Lemma kept_uvmfree pagetable sz : kept (uvmfree pagetable sz).
Proof. unfold uvmfree. kept. Qed.
#[export] Hint Resolve kept_uvmfree : kept.
Lemma kept_uvmcopy_loop old new i sz fuel : kept (uvmcopy_loop old new i sz fuel).
Proof. revert old new i sz. induction fuel as [|fuel IH]; intros; cbn [uvmcopy_loop]; kept. Qed.
#[export] Hint Resolve kept_uvmcopy_loop : kept.
Lemma kept_uvmcopy old new sz : kept (uvmcopy old new sz).
Proof. unfold uvmcopy. kept. Qed.
#[export] Hint Resolve kept_uvmcopy : kept.
Lemma kept_uvmclear pagetable va : kept (uvmclear pagetable va).
Proof. unfold uvmclear. kept. Qed.
#[export] Hint Resolve kept_uvmclear : kept.
Lemma kept_copyout_loop pagetable dstva src len fuel : kept (copyout_loop pagetable dstva src len fuel).
Proof. revert pagetable dstva src len. induction fuel as [|fuel IH]; intros; cbn [copyout_loop]; kept. Qed.
#[export] Hint Resolve kept_copyout_loop : kept.
Lemma kept_copyout pagetable dstva src len : kept (copyout pagetable dstva src len).
Proof. unfold copyout. kept. Qed.
#[export] Hint Resolve kept_copyout : kept.
Lemma kept_copyin_loop pagetable srcva len acc fuel : kept (copyin_loop pagetable srcva len acc fuel).
Proof. revert pagetable srcva len acc. induction fuel as [|fuel IH]; intros; cbn [copyin_loop]; kept. Qed.
#[export] Hint Resolve kept_copyin_loop : kept.
Lemma kept_copyin pagetable srcva len : kept (copyin pagetable srcva len).
Proof. unfold copyin. kept. Qed.
#[export] Hint Resolve kept_copyin : kept.
Lemma kept_copyinstr_loop pagetable srcva max acc fuel : kept (copyinstr_loop pagetable srcva max acc fuel).
Proof. revert pagetable srcva max acc. induction fuel as [|fuel IH]; intros; cbn [copyinstr_loop]; kept. Qed.
#[export] Hint Resolve kept_copyinstr_loop : kept.
Lemma kept_copyinstr pagetable srcva max : kept (copyinstr pagetable srcva max).
Proof. unfold copyinstr. kept. Qed.
#[export] Hint Resolve kept_copyinstr : kept.

(** ** Blocks and the log *)

Lemma kept_binit : kept (binit).
Proof. unfold binit. kept. Qed.
#[export] Hint Resolve kept_binit : kept.
Lemma kept_bget dev blockno : kept (bget dev blockno).
Proof. unfold bget. kept. Qed.
#[export] Hint Resolve kept_bget : kept.
Lemma kept_virtio_disk_rw b write : kept (virtio_disk_rw b write).
Proof. unfold virtio_disk_rw. kept. Qed.
#[export] Hint Resolve kept_virtio_disk_rw : kept.
Lemma kept_bread dev blockno : kept (bread dev blockno).
Proof. unfold bread. kept. Qed.
#[export] Hint Resolve kept_bread : kept.
Lemma kept_bwrite b : kept (bwrite b).
Proof. unfold bwrite. kept. Qed.
#[export] Hint Resolve kept_bwrite : kept.
Lemma kept_brelse b : kept (brelse b).
Proof. unfold brelse. kept. Qed.
#[export] Hint Resolve kept_brelse : kept.
Lemma kept_bpin b : kept (bpin b).
Proof. unfold bpin. kept. Qed.
#[export] Hint Resolve kept_bpin : kept.
Lemma kept_bunpin b : kept (bunpin b).
Proof. unfold bunpin. kept. Qed.
#[export] Hint Resolve kept_bunpin : kept.
Lemma kept_read_head : kept (read_head).
Proof. unfold read_head. kept. Qed.
#[export] Hint Resolve kept_read_head : kept.
Lemma kept_write_head : kept (write_head).
Proof. unfold write_head. kept. Qed.
#[export] Hint Resolve kept_write_head : kept.
Lemma kept_install_trans recovering : kept (install_trans recovering).
Proof. unfold install_trans. kept. Qed.
#[export] Hint Resolve kept_install_trans : kept.
Lemma kept_recover_from_log : kept (recover_from_log).
Proof. unfold recover_from_log. kept. Qed.
#[export] Hint Resolve kept_recover_from_log : kept.
Lemma kept_initlog dev sb : kept (initlog dev sb).
Proof. unfold initlog. kept. Qed.
#[export] Hint Resolve kept_initlog : kept.
Lemma kept_begin_op : kept (begin_op).
Proof. unfold begin_op. kept. Qed.
#[export] Hint Resolve kept_begin_op : kept.
Lemma kept_write_log : kept (write_log).
Proof. unfold write_log. kept. Qed.
#[export] Hint Resolve kept_write_log : kept.
Lemma kept_commit : kept (commit).
Proof. unfold commit. kept. Qed.
#[export] Hint Resolve kept_commit : kept.
Lemma kept_end_op : kept (end_op).
Proof. unfold end_op. kept. Qed.
#[export] Hint Resolve kept_end_op : kept.
Lemma kept_log_write b : kept (log_write b).
Proof. unfold log_write. kept. Qed.
#[export] Hint Resolve kept_log_write : kept.

(** ** The file system *)

Lemma kept_bdata bp : kept (bdata bp).
Proof. unfold bdata. kept. Qed.
#[export] Hint Resolve kept_bdata : kept.
Lemma kept_set_bdata bp x : kept (set_bdata bp x).
Proof. unfold set_bdata. kept. Qed.
#[export] Hint Resolve kept_set_bdata : kept.
Lemma kept_readsb dev : kept (readsb dev).
Proof. unfold readsb. kept. Qed.
#[export] Hint Resolve kept_readsb : kept.
Lemma kept_fsinit dev : kept (fsinit dev).
Proof. unfold fsinit. kept. Qed.
#[export] Hint Resolve kept_fsinit : kept.
Lemma kept_bzero dev bno : kept (bzero dev bno).
Proof. unfold bzero. kept. Qed.
#[export] Hint Resolve kept_bzero : kept.
Lemma kept_balloc_loop dev b fuel : kept (balloc_loop dev b fuel).
Proof. revert dev b. induction fuel as [|fuel IH]; intros; cbn [balloc_loop]; kept. Qed.
#[export] Hint Resolve kept_balloc_loop : kept.
Lemma kept_balloc dev : kept (balloc dev).
Proof. unfold balloc. kept. Qed.
#[export] Hint Resolve kept_balloc : kept.
Lemma kept_bfree dev b : kept (bfree dev b).
Proof. unfold bfree. kept. Qed.
#[export] Hint Resolve kept_bfree : kept.
Lemma kept_iinit : kept (iinit).
Proof. unfold iinit. kept. Qed.
#[export] Hint Resolve kept_iinit : kept.
Lemma kept_iget dev inum : kept (iget dev inum).
Proof. unfold iget. kept. Qed.
#[export] Hint Resolve kept_iget : kept.
Lemma kept_ialloc_loop dev type inum fuel : kept (ialloc_loop dev type inum fuel).
Proof. revert dev type inum. induction fuel as [|fuel IH]; intros; cbn [ialloc_loop]; kept. Qed.
#[export] Hint Resolve kept_ialloc_loop : kept.
Lemma kept_ialloc dev type : kept (ialloc dev type).
Proof. unfold ialloc. kept. Qed.
#[export] Hint Resolve kept_ialloc : kept.
Lemma kept_iupdate ip : kept (iupdate ip).
Proof. unfold iupdate. kept. Qed.
#[export] Hint Resolve kept_iupdate : kept.
Lemma kept_idup ip : kept (idup ip).
Proof. unfold idup. kept. Qed.
#[export] Hint Resolve kept_idup : kept.
Lemma kept_ilock ip : kept (ilock ip).
Proof. unfold ilock. kept. Qed.
#[export] Hint Resolve kept_ilock : kept.
Lemma kept_iunlock ip : kept (iunlock ip).
Proof. unfold iunlock. kept. Qed.
#[export] Hint Resolve kept_iunlock : kept.
Lemma kept_bmap ip bn : kept (bmap ip bn).
Proof. unfold bmap. kept. Qed.
#[export] Hint Resolve kept_bmap : kept.
Lemma kept_itrunc ip : kept (itrunc ip).
Proof. unfold itrunc. kept. Qed.
#[export] Hint Resolve kept_itrunc : kept.
Lemma kept_iput ip : kept (iput ip).
Proof. unfold iput. kept. Qed.
#[export] Hint Resolve kept_iput : kept.
Lemma kept_iunlockput ip : kept (iunlockput ip).
Proof. unfold iunlockput. kept. Qed.
#[export] Hint Resolve kept_iunlockput : kept.
Lemma kept_stati ip : kept (stati ip).
Proof. unfold stati. kept. Qed.
#[export] Hint Resolve kept_stati : kept.
Lemma kept_either_copyout dst src : kept (either_copyout dst src).
Proof. unfold either_copyout. kept. Qed.
#[export] Hint Resolve kept_either_copyout : kept.
Lemma kept_either_copyin src len : kept (either_copyin src len).
Proof. unfold either_copyin. kept. Qed.
#[export] Hint Resolve kept_either_copyin : kept.
Lemma kept_readi_loop ip dst off n tot acc fuel : kept (readi_loop ip dst off n tot acc fuel).
Proof. revert ip dst off n tot acc. induction fuel as [|fuel IH]; intros; cbn [readi_loop]; kept. Qed.
#[export] Hint Resolve kept_readi_loop : kept.
Lemma kept_readi ip dst off n : kept (readi ip dst off n).
Proof. unfold readi. kept. Qed.
#[export] Hint Resolve kept_readi : kept.
Lemma kept_writei_loop ip src off n tot fuel : kept (writei_loop ip src off n tot fuel).
Proof. revert ip src off n tot. induction fuel as [|fuel IH]; intros; cbn [writei_loop]; kept. Qed.
#[export] Hint Resolve kept_writei_loop : kept.
Lemma kept_writei ip src off n : kept (writei ip src off n).
Proof. unfold writei. kept. Qed.
#[export] Hint Resolve kept_writei : kept.
Lemma kept_read_de dp off msg : kept (read_de dp off msg).
Proof. unfold read_de. kept. Qed.
#[export] Hint Resolve kept_read_de : kept.
Lemma kept_dirlookup_loop dp name off fuel : kept (dirlookup_loop dp name off fuel).
Proof. revert dp name off. induction fuel as [|fuel IH]; intros; cbn [dirlookup_loop]; kept. Qed.
#[export] Hint Resolve kept_dirlookup_loop : kept.
Lemma kept_dirlookup dp name : kept (dirlookup dp name).
Proof. unfold dirlookup. kept. Qed.
#[export] Hint Resolve kept_dirlookup : kept.
Lemma kept_dirlink_loop dp off fuel : kept (dirlink_loop dp off fuel).
Proof. revert dp off. induction fuel as [|fuel IH]; intros; cbn [dirlink_loop]; kept. Qed.
#[export] Hint Resolve kept_dirlink_loop : kept.
Lemma kept_dirlink dp name inum : kept (dirlink dp name inum).
Proof. unfold dirlink. kept. Qed.
#[export] Hint Resolve kept_dirlink : kept.
Lemma kept_namex_loop ip path nameiparent name fuel : kept (namex_loop ip path nameiparent name fuel).
Proof. revert ip path nameiparent name. induction fuel as [|fuel IH]; intros; cbn [namex_loop]; kept. Qed.
#[export] Hint Resolve kept_namex_loop : kept.
Lemma kept_namex path nameiparent : kept (namex path nameiparent).
Proof. unfold namex. kept. Qed.
#[export] Hint Resolve kept_namex : kept.
Lemma kept_namei path : kept (namei path).
Proof. unfold namei. kept. Qed.
#[export] Hint Resolve kept_namei : kept.
Lemma kept_nameiparent path : kept (nameiparent path).
Proof. unfold nameiparent. kept. Qed.
#[export] Hint Resolve kept_nameiparent : kept.

(** ** Pipes and the serial port *)

Lemma kept_get_pipe pi : kept (get_pipe pi).
Proof. unfold get_pipe. kept. Qed.
#[export] Hint Resolve kept_get_pipe : kept.
Lemma kept_put_pipe pi p : kept (put_pipe pi p).
Proof. unfold put_pipe. kept. Qed.
#[export] Hint Resolve kept_put_pipe : kept.
Lemma kept_pipeclose pi writable : kept (pipeclose pi writable).
Proof. unfold pipeclose. kept. Qed.
#[export] Hint Resolve kept_pipeclose : kept.
Lemma kept_pipewrite_end pi i : kept (pipewrite_end pi i).
Proof. unfold pipewrite_end. kept. Qed.
#[export] Hint Resolve kept_pipewrite_end : kept.
Lemma kept_pipewrite_loop pagetable pi addr n i kl fuel : kept (pipewrite_loop pagetable pi addr n i kl fuel).
Proof. revert pagetable pi addr n i kl. induction fuel as [|fuel IH]; intros; cbn [pipewrite_loop]; kept. Qed.
#[export] Hint Resolve kept_pipewrite_loop : kept.
Lemma kept_pipewrite_run pagetable pi addr n i kl : kept (pipewrite_run pagetable pi addr n i kl).
Proof. unfold pipewrite_run. kept. Qed.
#[export] Hint Resolve kept_pipewrite_run : kept.
Lemma kept_pipewrite pi addr n kl : kept (pipewrite pi addr n kl).
Proof. unfold pipewrite. kept. Qed.
#[export] Hint Resolve kept_pipewrite : kept.
Lemma kept_piperead_loop pagetable pi addr n i fuel : kept (piperead_loop pagetable pi addr n i fuel).
Proof. revert pagetable pi addr n i. induction fuel as [|fuel IH]; intros; cbn [piperead_loop]; kept. Qed.
#[export] Hint Resolve kept_piperead_loop : kept.
Lemma kept_piperead_run pagetable pi addr n killed : kept (piperead_run pagetable pi addr n killed).
Proof. unfold piperead_run. kept. Qed.
#[export] Hint Resolve kept_piperead_run : kept.
Lemma kept_piperead pi addr n : kept (piperead pi addr n).
Proof. unfold piperead. kept. Qed.
#[export] Hint Resolve kept_piperead : kept.
Lemma kept_WriteReg reg v : kept (WriteReg reg v).
Proof. unfold WriteReg. kept. Qed.
#[export] Hint Resolve kept_WriteReg : kept.
Lemma kept_ReadLSR : kept (ReadLSR).
Proof. unfold ReadLSR. kept. Qed.
#[export] Hint Resolve kept_ReadLSR : kept.
Lemma kept_ReadRHR : kept (ReadRHR).
Proof. unfold ReadRHR. kept. Qed.
#[export] Hint Resolve kept_ReadRHR : kept.
Lemma kept_uartinit : kept (uartinit).
Proof. unfold uartinit. kept. Qed.
#[export] Hint Resolve kept_uartinit : kept.
Lemma kept_uartstart_loop fuel : kept (uartstart_loop fuel).
Proof. induction fuel as [|fuel IH]; cbn [uartstart_loop]; kept. Qed.
#[export] Hint Resolve kept_uartstart_loop : kept.
Lemma kept_uartstart : kept (uartstart).
Proof. unfold uartstart. kept. Qed.
#[export] Hint Resolve kept_uartstart : kept.
Lemma kept_freeze {S} {A} : kept (freeze (S := S) (A := A)).
Proof. unfold freeze. kept. Qed.
#[export] Hint Resolve kept_freeze : kept.
Lemma kept_uartputc_loop c : kept (uartputc_loop c).
Proof. unfold uartputc_loop. kept. Qed.
#[export] Hint Resolve kept_uartputc_loop : kept.
Lemma kept_uartputc c : kept (uartputc c).
Proof. unfold uartputc. kept. Qed.
#[export] Hint Resolve kept_uartputc : kept.
Lemma kept_uart_wait fuel : kept (uart_wait fuel).
Proof. induction fuel as [|fuel IH]; cbn [uart_wait]; kept. Qed.
#[export] Hint Resolve kept_uart_wait : kept.
Lemma kept_uartputc_sync c : kept (uartputc_sync c).
Proof. unfold uartputc_sync. kept. Qed.
#[export] Hint Resolve kept_uartputc_sync : kept.
Lemma kept_uartgetc : kept (uartgetc).
Proof. unfold uartgetc. kept. Qed.
#[export] Hint Resolve kept_uartgetc : kept.
Lemma kept_consputc c : kept (consputc c).
Proof. unfold consputc. kept. Qed.
#[export] Hint Resolve kept_consputc : kept.
Lemma kept_printint xx base sign : kept (printint xx base sign).
Proof. unfold printint. kept. Qed.
#[export] Hint Resolve kept_printint : kept.
Lemma kept_printptr_loop x k : kept (printptr_loop x k).
Proof. revert x. induction k as [|k IH]; intros; cbn [printptr_loop]; kept. Qed.
#[export] Hint Resolve kept_printptr_loop : kept.
Lemma kept_printptr x : kept (printptr x).
Proof. unfold printptr. kept. Qed.
#[export] Hint Resolve kept_printptr : kept.
Lemma kept_printstr s : kept (printstr s).
Proof. induction s as [|? s IH]; cbn [printstr]; kept. Qed.
#[export] Hint Resolve kept_printstr : kept.
Lemma kept_printf_loop fmt ap : kept (printf_loop fmt ap).
Proof.
  assert (H : forall n fmt ap, (length fmt <= n)%nat -> kept (printf_loop fmt ap)); [|by apply (H (length fmt))].
  clear. intros n. induction n as [|n IH]; intros [|c [|c' fmt]] ap Hl; cbn [length] in Hl; try lia; cbn [printf_loop]; kept_by ltac:(apply IH; cbn [length] in *; lia).
Qed.
#[export] Hint Resolve kept_printf_loop : kept.
