(* ===== verification/FileRefs.v ===== *)
(** * Open files are counted: an invariant of all system calls

    The reference count of an entry of the file table is the number of file
    descriptors, over all processes, that refer to it, plus the references
    that calls in progress hold; a process that is gone has no open file.
    Every system call preserves this, whatever it returns. *)

From Stdlib Require Import ZArith Lia.
From stdpp Require Import base gmap list numbers strings.
From S2P Require Import Prelude Riscv Core Spinlock Kstring Kalloc Vm Sleeplock Bio Log Pipe Fs Uart Virtio Kst KstExample Sched Printf Console File Proc Syscall Sysproc Sysfile Trap Keeps.
Local Open Scope Z_scope.

(** ** Counting *)

Section sum.
Context {A : Type}.
Implicit Types (g : A -> Z) (l : list A).

Definition sumZ g l : Z := foldr (fun a n => g a + n) 0 l.

Lemma sumZ_cons g a l : sumZ g (a :: l) = g a + sumZ g l.
Proof. done. Qed.
Lemma sumZ_insert g l i a b : l !! i = Some a -> sumZ g (<[i := b]> l) = sumZ g l - g a + g b.
Proof.
  revert i. induction l as [|x l IH]; intros [|i] Hi; cbn [lookup list_lookup] in Hi; try done.
  - injection Hi as ->. change (<[0%nat := b]> (a :: l)) with (b :: l). rewrite !sumZ_cons. lia.
  - change (<[S i := b]> (x :: l)) with (x :: <[i := b]> l). rewrite !sumZ_cons, (IH i Hi). lia.
Qed.
End sum.

(** 1 if the two are the same file. *)
Definition one (f g : nat) : Z := if decide (f = g) then 1 else 0.
Definition refers (f : nat) (o : option nat) : Z := match o with Some g => one f g | None => 0 end.
Definition count (f : nat) (l : list (option nat)) : Z := sumZ (refers f) l.
Definition total (f : nat) (ls : list (list (option nat))) : Z := sumZ (count f) ls.

Lemma total_set f ls p l fd u v : ls !! p = Some l -> l !! fd = Some u ->
  total f (<[p := <[fd := v]> l]> ls) = total f ls - refers f u + refers f v.
Proof. intros Hp Hf. unfold total. rewrite (sumZ_insert _ _ _ _ _ Hp). unfold count. rewrite (sumZ_insert _ _ _ _ _ Hf). lia. Qed.

(** ** The invariant *)

Definition fref (s : kst) (f : nat) : Z := f_ref (get_file f s).
Definition ofs (s : kst) : list (list (option nat)) := p_ofile <$> k_proc s.
Definition gone (st : procstate) : bool := bool_decide (st = UNUSED) || bool_decide (st = ZOMBIE).
Definition gone_at (s : kst) (i : nat) : Prop := exists p, k_proc s !! i = Some p /\ gone (p_state p) = true.
Definition no_files : list (option nat) := repeat None (Z.to_nat NOFILE).

(** [x] are the references of calls in progress, [w] the process that runs. *)
Record acct (x : nat -> Z) (w : option nat) (s : kst) : Prop := mkAcct {
  ac_who : forall i, w = Some i -> (i < length (ofs s))%nat /\ ~ gone_at s i;
  ac_len : Forall (fun l => length l = Z.to_nat NOFILE) (ofs s);
  ac_refs : forall f, fref s f = x f + total f (ofs s);
  ac_gone : forall i, gone_at s i -> ofs s !! i = Some no_files;
  ac_procs : length (ofs s) = Z.to_nat NPROC
}.

(** The entry [fd] of the descriptors of process [p]. *)
Definition desc (p fd : nat) (v : option nat) (s : kst) : Prop := exists l, ofs s !! p = Some l /\ l !! fd = Some v.

(** Where a call of process [w] sleeps, the counts are those of the other calls
    [x] and of the descriptors, with what the call itself is doing: it holds
    files that it has allocated and not yet installed, at most two, or it has
    given up the reference of a descriptor of its own that it is about to
    clear.  A process that is gone holds nothing and has no open file. *)
Definition held (H : list nat) (f : nat) : Z := sumZ (one f) H.
Definition in_flight (y : nat -> Z) (w : option nat) (s : kst) : Prop :=
  (exists H, (length H <= 2)%nat /\ (forall i, w = Some i -> gone_at s i -> H = []) /\ forall f, y f = held H f) \/
  (exists p fd g, w = Some p /\ desc p fd (Some g) s /\ forall f, y f = - one f g).
Definition parked (x : nat -> Z) (w : option nat) (s : kst) : Prop :=
  (exists y, in_flight y w s /\ forall f, fref s f = x f + y f + total f (ofs s)) /\
  forall i, gone_at s i -> ofs s !! i = Some no_files.

(** [x] is [b] and at most [n] files. *)
Definition near (b : nat -> Z) (n : nat) (x : nat -> Z) : Prop := exists H, (length H <= n)%nat /\ forall f, x f = b f + held H f.
Lemma acct_parked b x w s : near b 2 x -> acct x w s -> parked b w s.
Proof.
  intros (H & Hl & E) [H1 _ H3 H4 _]. split; [|done]. exists (held H). split.
  - left. exists H. split_and!; [done| |done]. intros i Hi Hg. by destruct (H1 i Hi).
  - intros f. rewrite H3, E. lia.
Qed.
Lemma acct_ext x y w s : (forall f, x f = y f) -> acct x w s -> acct y w s.
Proof. intros E [H1 H2 H3 H4 H5]. split; auto. intros f. by rewrite <- E. Qed.

(** ** Code that leaves the accounts alone *)

Record framed (s s' : kst) : Prop := mkFramed {
  frm_refs : forall f, fref s' f = fref s f;
  frm_files : ofs s' = ofs s;
  frm_gone : forall i, gone_at s' i -> gone_at s i
}.
#[export] Instance framed_preorder : PreOrder framed.
Proof. split; [done|]. intros a b c [A1 A2 A3] [B1 B2 B3]. split; [intros f; by rewrite B1|by rewrite B2|auto]. Qed.

Lemma framed_acct x w s s' : framed s s' -> acct x w s -> acct x w s'.
Proof.
  intros [F1 F2 F3] [H1 H2 H3 H4 H5]. split; rewrite ?F2; auto.
  - intros i Hi. destruct (H1 i Hi). auto.
  - intros f. by rewrite F1.
Qed.
Lemma framed_desc p fd v s s' : framed s s' -> desc p fd v s -> desc p fd v s'.
Proof. intros [_ F _] (l & H). exists l. by rewrite F. Qed.
Lemma framed_parked x w s s' : framed s s' -> parked x w s -> parked x w s'.
Proof.
  intros F [(y & Hy & E) H2]. pose proof F as [F1 F2 F3]. split; [exists y; split|].
  - destruct Hy as [(H & Hl & Hg & Hy)|(p & fd & g & Hw & Hd & Hy)]; [left|right]; [eauto 10|].
    exists p, fd, g. split_and!; [done|by eapply framed_desc|done].
  - intros f. by rewrite F1, F2.
  - intros i Hi. rewrite F2. auto.
Qed.

Definition quiet {A} (m : M kst A) : Prop := forall c s,
  match m c s with Ok _ c' s' | Blocked _ c' s' => framed s s' /\ who c' = who c | _ => True end.
(** It does not change the state at all, nor sleep. *)
Definition local {A} (m : M kst A) : Prop := forall c s,
  match m c s with Ok _ c' s' => s' = s /\ who c' = who c | Blocked _ _ _ => False | _ => True end.

(** *** Rules *)

Create HintDb quiet.

Lemma local_ret {A} (a : A) : local (mret a).
Proof. done. Qed.
Lemma local_get : local get.
Proof. done. Qed.
Lemma local_gets {A} (f : kst -> A) : local (gets f).
Proof. done. Qed.
Lemma local_getc : local getc.
Proof. done. Qed.
Lemma local_modifyc f : (forall c, who (f c) = who c) -> local (modifyc f).
Proof. intros H c s. by split. Qed.
Lemma local_stop {A} (r : core -> kst -> res kst A) : (forall c s, match r c s with Ok _ _ _ | Blocked _ _ _ => False | _ => True end) -> local r.
Proof. intros H c s. specialize (H c s). by destruct (r c s). Qed.
Lemma local_bind {A B} (m : M kst A) (f : A -> M kst B) : local m -> (forall a, local (f a)) -> local (m ≫= f).
Proof.
  intros Hm Hf c s. unfold mbind, M_bind. specialize (Hm c s). destruct (m c s) as [a c' s'| | | | |]; try done.
  destruct Hm as [-> Hw]. specialize (Hf a c' s). destruct (f a c' s); try done. destruct Hf. split; congruence.
Qed.

Ltac local :=
  repeat (cbn zeta beta;
    lazymatch goal with
    | |- local (mbind _ _) => apply local_bind; [|intros ?]
    | |- local (modifyc _) => apply local_modifyc; intros ?; solve [done | apply who_push_off]
    | |- local (fun _ _ => _) => apply local_stop; done
    | |- local (match ?x with _ => _ end) => destruct x
    | |- _ => solve [auto with quiet | done]
    end).
#[export] Hint Resolve local_ret local_get local_gets local_getc : quiet.

Lemma local_acquire lk : local (acquire lk).
Proof. unfold acquire, push_off. local. Qed.
Lemma local_pop_off : local pop_off.
Proof. unfold pop_off. local. Qed.
#[export] Hint Resolve local_acquire local_pop_off : quiet.
Lemma local_release lk : local (release lk).
Proof. unfold release. local. Qed.
Lemma local_myproc : local myproc.
Proof. unfold myproc, push_off. local. Qed.
#[export] Hint Resolve local_release local_myproc : quiet.
Lemma local_myproc_idx : local myproc_idx.
Proof. unfold myproc_idx. local. Qed.
#[export] Hint Resolve local_myproc_idx : quiet.
Lemma local_tf_get p off : local (tf_get p off).
Proof. done. Qed.
#[export] Hint Resolve local_tf_get : quiet.
Lemma local_argraw n : local (argraw n).
Proof. unfold argraw. local. Qed.
#[export] Hint Resolve local_argraw : quiet.
Lemma local_argint n : local (argint n).
Proof. unfold argint. local. Qed.
Lemma local_argaddr n : local (argaddr n).
Proof. apply local_argraw. Qed.
#[export] Hint Resolve local_argint local_argaddr : quiet.
Lemma local_argfd n : local (argfd n).
Proof. unfold argfd. local. Qed.
#[export] Hint Resolve local_argfd : quiet.

Lemma quiet_local {A} (m : M kst A) : local m -> quiet m.
Proof. intros H c s. specialize (H c s). destruct (m c s); try done. by destruct H as [-> H]. Qed.
Lemma quiet_blocked {A} ch : quiet (A := A) (blocked ch).
Proof. done. Qed.
Lemma quiet_bind {A B} (m : M kst A) (f : A -> M kst B) : quiet m -> (forall a, quiet (f a)) -> quiet (m ≫= f).
Proof.
  intros Hm Hf c s. unfold mbind, M_bind. specialize (Hm c s). destruct (m c s) as [a c' s'| | | | |]; try done.
  destruct Hm as [F Hw]. specialize (Hf a c' s'). destruct (f a c' s'); try done; destruct Hf; (split; [by etrans|congruence]).
Qed.
Lemma quiet_when b (m : M kst unit) : quiet m -> quiet (when b m).
Proof. by destruct b. Qed.
Lemma quiet_forM {X} (l : list X) (f : X -> M kst unit) : (forall x, quiet (f x)) -> quiet (forM l f).
Proof. intros H. induction l as [|x l IH]; [by apply quiet_local|]. by apply quiet_bind. Qed.
Lemma quiet_modify f : (forall s, framed s (f s)) -> quiet (modify f).
Proof. intros H c s. by split; [apply H|]. Qed.
Lemma quiet_modifyc f : (forall c, who (f c) = who c) -> quiet (modifyc f).
Proof. intros H. by apply quiet_local, local_modifyc. Qed.

(** The part of the state that the lens selects has neither files nor processes. *)
Definition apart_lens {S} (l : lens S kst) : Prop := forall x s,
  k_ftable (lens_set l x s) = k_ftable s /\ k_proc (lens_set l x s) = k_proc s.
Lemma framed_tables s s' : k_ftable s' = k_ftable s -> k_proc s' = k_proc s -> framed s s'.
Proof.
  intros E1 E2. split; unfold fref, ofs, gone_at, get_file; [intros f; by rewrite E1|by rewrite E2|intros i; by rewrite E2].
Qed.
Lemma quiet_lift {S A} (l : lens S kst) (m : M S A) : kept m -> apart_lens l -> quiet (lift l m).
Proof.
  intros H Hl c s. unfold lift. specialize (H c (lens_get l s)). destruct (m c (lens_get l s)) as [a c' x| | | |ch c' x|]; try done.
  all: destruct (Hl x s); split; [by apply framed_tables|done].
Qed.

(** A store to an entry of proc[] that keeps the files and does not end the process. *)
Lemma upd_proc_at i f c s : (i < length (k_proc s))%nat ->
  exists p, k_proc s !! i = Some p /\ exists c', upd_proc i f c s = Ok tt c' (set_k_proc (<[i := f p]> (k_proc s)) s) /\ who c' = who c.
Proof.
  intros Hi. destruct (lookup_lt_is_Some_2 _ _ Hi) as [p Hp]. exists p. split; [done|]. unfold upd_proc, get_proc.
  rewrite (nth_lookup_Some _ _ _ _ Hp). eexists. split; [done|]. unfold who. destruct (c_proc c) as [cp|] eqn:E; [|by rewrite E].
  case_decide as D; [|by rewrite E]. cbn. by rewrite D.
Qed.
Lemma quiet_upd_proc i f : (forall p, p_ofile (f p) = p_ofile p) -> (forall p, gone (p_state (f p)) = true -> gone (p_state p) = true) ->
  quiet (upd_proc i f).
Proof.
  intros Hf Hg c s. destruct (decide (i < length (k_proc s))%nat) as [Hi|Hi].
  - destruct (upd_proc_at i f c s Hi) as (p & Hp & c' & -> & Hw). split; [|done]. split; [done| |].
    + unfold ofs. cbn. rewrite list_fmap_insert, Hf. apply list_insert_id. by rewrite list_lookup_fmap, Hp.
    + intros j (q & Hq & Hgq). cbn in Hq. destruct (decide (i = j)) as [->|Hne].
      * rewrite list_lookup_insert_eq in Hq by done. injection Hq as <-. exists p. auto.
      * rewrite list_lookup_insert_ne in Hq by done. by exists q.
  - unfold upd_proc. rewrite list_insert_ge by lia. split; [by apply framed_tables|].
    unfold who. destruct (c_proc c) as [cp|] eqn:E; [|by rewrite E]. case_decide as D; [|by rewrite E]. cbn. by rewrite D.
Qed.
Lemma quiet_upd_file f g : (forall x, f_ref (g x) = f_ref x) -> quiet (modify (upd_file f g)).
Proof.
  intros Hg. apply quiet_modify. intros s. split; [|done|done]. intros h. unfold fref, get_file, upd_file. cbn.
  destruct (decide (f < length (k_ftable s))%nat) as [Hf|Hf]; [|by rewrite list_insert_ge by lia].
  destruct (decide (h = f)) as [->|Hne].
  - rewrite nth_lookup, list_lookup_insert_eq by done. cbn. apply Hg.
  - by rewrite !nth_lookup, list_lookup_insert_ne.
Qed.

#[export] Hint Resolve quiet_blocked : quiet.
Lemma kept_isdirempty_loop dp off fuel : kept (isdirempty_loop dp off fuel).
Proof. revert off. induction fuel as [|fuel IH]; intros; cbn [isdirempty_loop]; kept. Qed.
#[export] Hint Resolve kept_isdirempty_loop : kept.
Lemma kept_isdirempty dp : kept (isdirempty dp).
Proof. unfold isdirempty. kept. Qed.
Lemma kept_proc_freepagetable pagetable sz : kept (proc_freepagetable pagetable sz).
Proof. unfold proc_freepagetable. kept. Qed.
Lemma kept_proc_pagetable trampoline trapframe : kept (proc_pagetable trampoline trapframe).
Proof. unfold proc_pagetable. kept. Qed.
#[export] Hint Resolve kept_isdirempty kept_proc_freepagetable kept_proc_pagetable : kept.

Ltac quiet :=
  repeat (cbn zeta beta;
    lazymatch goal with
    | |- quiet (forM _ _) => apply quiet_forM; intros ?
    | |- quiet (mbind _ _) => apply quiet_bind; [|intros ?]
    | |- quiet (when _ _) => apply quiet_when
    | |- quiet (lift _ _) => apply quiet_lift; [kept|done]
    | |- quiet (upd_proc _ _) => apply quiet_upd_proc; [done | by intros []]
    | |- quiet (modify (upd_file _ _)) => apply quiet_upd_file; intros ?; solve [done | unfold open_file; by case_match]
    | |- quiet (modify _) => apply quiet_modify; intros ?; by apply framed_tables
    | |- quiet (modifyc _) => apply quiet_modifyc; intros ?; done
    | |- quiet (match ?x with _ => _ end) => destruct x
    | |- _ => solve [auto with quiet | apply quiet_local; auto with quiet | done]
    end).

(** *** Sleeping and waking *)

Lemma quiet_proc_wakeup ch : quiet (proc_wakeup ch).
Proof. unfold proc_wakeup. quiet. Qed.
#[export] Hint Resolve quiet_proc_wakeup : quiet.
Lemma quiet_sched {A} ch : quiet (sched (A := A) ch).
Proof. unfold sched. quiet. Qed.
#[export] Hint Resolve quiet_sched : quiet.
Lemma quiet_proc_sleep {A} ch lk : quiet (proc_sleep (A := A) ch lk).
Proof. unfold proc_sleep. quiet. Qed.
#[export] Hint Resolve quiet_proc_sleep : quiet.
Lemma quiet_deliver : quiet (deliver).
Proof. unfold deliver. quiet. Qed.
#[export] Hint Resolve quiet_deliver : quiet.
Lemma quiet_sleep_on {A} ch : quiet (sleep_on (A := A) ch).
Proof. unfold sleep_on. quiet. Qed.
#[export] Hint Resolve quiet_sleep_on : quiet.
Lemma quiet_klift {S A} (l : lens S kst) (m : M S A) : kept m -> apart_lens l -> quiet (klift l m).
Proof.
  intros H Hl c s. unfold klift. pose proof (quiet_lift l m H Hl c s) as F. destruct (lift l m c s) as [a c' s'| | | |ch c' s'|]; try done; destruct F as [F Hw].
  - assert (Q : quiet (_ ← deliver; mret a)) by (apply quiet_bind; [apply quiet_deliver|intros; by apply quiet_local]).
    specialize (Q c' s'). destruct ((_ ← deliver; mret a) c' s'); try done; destruct Q; (split; [by etrans|congruence]).
  - assert (Q : quiet (_ ← deliver; sleep_on (A := A) ch)) by (apply quiet_bind; [apply quiet_deliver|intros; apply quiet_sleep_on]).
    specialize (Q c' s'). destruct ((_ ← deliver; sleep_on ch) c' s'); try done; destruct Q; (split; [by etrans|congruence]).
Qed.
#[export] Hint Extern 1 (quiet (klift _ _)) => apply quiet_klift; [kept|done] : quiet.

(** *** Console and files *)

Lemma quiet_printf fmt ap : quiet (printf fmt ap).
Proof. unfold printf. quiet. Qed.
#[export] Hint Resolve quiet_printf : quiet.
Lemma quiet_consolewrite_loop src n i fuel : quiet (consolewrite_loop src n i fuel).
Proof. revert src n i. induction fuel as [|fuel IH]; intros; cbn [consolewrite_loop]; quiet. Qed.
#[export] Hint Resolve quiet_consolewrite_loop : quiet.
Lemma quiet_consolewrite src n : quiet (consolewrite src n).
Proof. unfold consolewrite. quiet. Qed.
#[export] Hint Resolve quiet_consolewrite : quiet.
Lemma quiet_consoleread_loop target dst n fuel : quiet (consoleread_loop target dst n fuel).
Proof. revert target dst n. induction fuel as [|fuel IH]; intros; cbn [consoleread_loop]; quiet. Qed.
#[export] Hint Resolve quiet_consoleread_loop : quiet.
Lemma quiet_consoleread_run target dst n : quiet (consoleread_run target dst n).
Proof. unfold consoleread_run. quiet. Qed.
#[export] Hint Resolve quiet_consoleread_run : quiet.
Lemma quiet_consoleread dst n : quiet (consoleread dst n).
Proof. unfold consoleread. quiet. Qed.
#[export] Hint Resolve quiet_consoleread : quiet.
Lemma quiet_filestat f addr : quiet (filestat f addr).
Proof. unfold filestat. quiet. Qed.
#[export] Hint Resolve quiet_filestat : quiet.
Lemma quiet_fileread f addr n : quiet (fileread f addr n).
Proof. unfold fileread. quiet. Qed.
#[export] Hint Resolve quiet_fileread : quiet.
Lemma quiet_filewrite_loop f addr n i fuel : quiet (filewrite_loop f addr n i fuel).
Proof. revert f addr n i. induction fuel as [|fuel IH]; intros; cbn [filewrite_loop]; quiet. Qed.
#[export] Hint Resolve quiet_filewrite_loop : quiet.
Lemma quiet_filewrite kl f addr n : quiet (filewrite kl f addr n).
Proof. unfold filewrite. quiet. Qed.
#[export] Hint Resolve quiet_filewrite : quiet.

(** *** Processes *)

Lemma quiet_upd_kmem f : quiet (upd_kmem f).
Proof. unfold upd_kmem. quiet. Qed.
#[export] Hint Resolve quiet_upd_kmem : quiet.
Lemma quiet_tf_set p off v : quiet (tf_set p off v).
Proof. unfold tf_set. quiet. Qed.
#[export] Hint Resolve quiet_tf_set : quiet.
Lemma quiet_allocpid : quiet (allocpid).
Proof. unfold allocpid. quiet. Qed.
#[export] Hint Resolve quiet_allocpid : quiet.
Lemma quiet_growproc n : quiet (growproc n).
Proof. unfold growproc. quiet. Qed.
#[export] Hint Resolve quiet_growproc : quiet.
Lemma quiet_wakeup_parent p : quiet (wakeup_parent p).
Proof. unfold wakeup_parent. quiet. Qed.
#[export] Hint Resolve quiet_wakeup_parent : quiet.
Lemma quiet_reparent p : quiet (reparent p).
Proof. unfold reparent. quiet. Qed.
#[export] Hint Resolve quiet_reparent : quiet.
Lemma quiet_kill_scan l pid : quiet (kill_scan l pid).
Proof. revert pid. induction l as [|? l IH]; intros; cbn [kill_scan]; quiet. Qed.
#[export] Hint Resolve quiet_kill_scan : quiet.
Lemma quiet_kill pid : quiet (kill pid).
Proof. unfold kill. quiet. Qed.
#[export] Hint Resolve quiet_kill : quiet.

(** *** Arguments and exec *)

Lemma quiet_fetchaddr addr : quiet (fetchaddr addr).
Proof. unfold fetchaddr. quiet. Qed.
#[export] Hint Resolve quiet_fetchaddr : quiet.
Lemma quiet_fetchstr addr max : quiet (fetchstr addr max).
Proof. unfold fetchstr. quiet. Qed.
#[export] Hint Resolve quiet_fetchstr : quiet.
Lemma quiet_argstr n max : quiet (argstr n max).
Proof. unfold argstr. quiet. Qed.
#[export] Hint Resolve quiet_argstr : quiet.
Lemma quiet_loadseg_loop pagetable va ip offset sz i fuel : quiet (loadseg_loop pagetable va ip offset sz i fuel).
Proof. revert pagetable va ip offset sz i. induction fuel as [|fuel IH]; intros; cbn [loadseg_loop]; quiet. Qed.
#[export] Hint Resolve quiet_loadseg_loop : quiet.
Lemma quiet_loadseg pagetable va ip offset sz : quiet (loadseg pagetable va ip offset sz).
Proof. unfold loadseg. quiet. Qed.
#[export] Hint Resolve quiet_loadseg : quiet.
Lemma quiet_exec_load pagetable ip off sz k : quiet (exec_load pagetable ip off sz k).
Proof. revert pagetable ip off sz. induction k as [|k IH]; intros; cbn [exec_load]; quiet. Qed.
#[export] Hint Resolve quiet_exec_load : quiet.
Lemma quiet_exec_args pagetable stackbase argv argc sp ustack : quiet (exec_args pagetable stackbase argv argc sp ustack).
Proof. revert pagetable stackbase argc sp ustack. induction argv as [|? argv IH]; intros; cbn [exec_args]; quiet. Qed.
#[export] Hint Resolve quiet_exec_args : quiet.
Lemma quiet_exec path argv : quiet (exec path argv).
Proof. unfold exec. quiet. Qed.
#[export] Hint Resolve quiet_exec : quiet.

(** *** System calls *)

Lemma quiet_sys_read : quiet (sys_read).
Proof. unfold sys_read. quiet. Qed.
#[export] Hint Resolve quiet_sys_read : quiet.
Lemma quiet_sys_write kl : quiet (sys_write kl).
Proof. unfold sys_write. quiet. Qed.
#[export] Hint Resolve quiet_sys_write : quiet.
Lemma quiet_sys_fstat : quiet (sys_fstat).
Proof. unfold sys_fstat. quiet. Qed.
#[export] Hint Resolve quiet_sys_fstat : quiet.
Lemma quiet_add_nlink ip k : quiet (add_nlink ip k).
Proof. unfold add_nlink. quiet. Qed.
#[export] Hint Resolve quiet_add_nlink : quiet.
Lemma quiet_sys_link : quiet (sys_link).
Proof. unfold sys_link. quiet. Qed.
#[export] Hint Resolve quiet_sys_link : quiet.
Lemma quiet_sys_unlink : quiet (sys_unlink).
Proof. unfold sys_unlink. quiet. Qed.
#[export] Hint Resolve quiet_sys_unlink : quiet.
Lemma quiet_create path type major minor : quiet (create path type major minor).
Proof. unfold create. quiet. Qed.
#[export] Hint Resolve quiet_create : quiet.
Lemma quiet_open_inode path omode : quiet (open_inode path omode).
Proof. unfold open_inode. quiet. Qed.
#[export] Hint Resolve quiet_open_inode : quiet.
Lemma quiet_created ip : quiet (created ip).
Proof. unfold created. quiet. Qed.
#[export] Hint Resolve quiet_created : quiet.
Lemma quiet_sys_mkdir : quiet (sys_mkdir).
Proof. unfold sys_mkdir. quiet. Qed.
#[export] Hint Resolve quiet_sys_mkdir : quiet.
Lemma quiet_sys_mknod : quiet (sys_mknod).
Proof. unfold sys_mknod. quiet. Qed.
#[export] Hint Resolve quiet_sys_mknod : quiet.
Lemma quiet_sys_chdir : quiet (sys_chdir).
Proof. unfold sys_chdir. quiet. Qed.
#[export] Hint Resolve quiet_sys_chdir : quiet.
Lemma quiet_sys_exec_args uargv i argv k : quiet (sys_exec_args uargv i argv k).
Proof. revert uargv i argv. induction k as [|k IH]; intros; cbn [sys_exec_args]; quiet. Qed.
#[export] Hint Resolve quiet_sys_exec_args : quiet.
Lemma quiet_free_args argv : quiet (free_args argv).
Proof. unfold free_args. quiet. Qed.
#[export] Hint Resolve quiet_free_args : quiet.
Lemma quiet_sys_exec : quiet (sys_exec).
Proof. unfold sys_exec. quiet. Qed.
#[export] Hint Resolve quiet_sys_exec : quiet.
Lemma quiet_sys_getpid : quiet (sys_getpid).
Proof. unfold sys_getpid. quiet. Qed.
#[export] Hint Resolve quiet_sys_getpid : quiet.
Lemma quiet_sys_sbrk : quiet (sys_sbrk).
Proof. unfold sys_sbrk. quiet. Qed.
#[export] Hint Resolve quiet_sys_sbrk : quiet.
Lemma quiet_sys_sleep_loop ticks0 n : quiet (sys_sleep_loop ticks0 n).
Proof. unfold sys_sleep_loop. quiet. Qed.
#[export] Hint Resolve quiet_sys_sleep_loop : quiet.
Lemma quiet_sys_sleep : quiet (sys_sleep).
Proof. unfold sys_sleep. quiet. Qed.
#[export] Hint Resolve quiet_sys_sleep : quiet.
Lemma quiet_sys_kill : quiet (sys_kill).
Proof. unfold sys_kill. quiet. Qed.
#[export] Hint Resolve quiet_sys_kill : quiet.
Lemma quiet_sys_uptime : quiet (sys_uptime).
Proof. unfold sys_uptime. quiet. Qed.
#[export] Hint Resolve quiet_sys_uptime : quiet.

(** ** Triples

    [P] before, [Q] where the code returns, [parked] where it sleeps, with [b]
    the references of the other calls; nothing is claimed where the kernel
    panics, faults or spins. *)

Definition assertion : Type := option nat -> kst -> Prop.

Definition tri {A} (b : nat -> Z) (P : assertion) (m : M kst A) (Q : A -> assertion) : Prop := forall c s, P (who c) s ->
  match m c s with Ok a c' s' => Q a (who c') s' | Blocked _ c' s' => parked b (who c') s' | _ => True end.

Lemma tri_bind {b} {A B} P (m : M kst A) (f : A -> M kst B) Q R : tri b P m Q -> (forall a, tri b (Q a) (f a) R) -> tri b P (m ≫= f) R.
Proof.
  intros Hm Hf c s HP. unfold mbind, M_bind. specialize (Hm c s HP). destruct (m c s) as [a c' s'| | | | |]; try done.
  by apply Hf.
Qed.
Lemma tri_ret {b} {A} (P : assertion) (a : A) (Q : A -> assertion) : (forall w s, P w s -> Q a w s) -> tri b P (mret a) Q.
Proof. intros H c s. apply H. Qed.
Lemma tri_weaken {b} {A} (P P' : assertion) (m : M kst A) (Q Q' : A -> assertion) :
  tri b P' m Q' -> (forall w s, P w s -> P' w s) -> (forall a w s, Q' a w s -> Q a w s) -> tri b P m Q.
Proof. intros H HP HQ c s Hs. specialize (H c s (HP _ _ Hs)). destruct (m c s); auto. Qed.
Lemma tri_pre {b} {A} (P P' : assertion) (m : M kst A) Q : tri b P' m Q -> (forall w s, P w s -> P' w s) -> tri b P m Q.
Proof. intros H HP. by eapply tri_weaken. Qed.
Lemma tri_local {b} {A} (P : assertion) (m : M kst A) : local m -> tri b P m (fun _ => P).
Proof. intros H c s HP. specialize (H c s). destruct (m c s); try done. by destruct H as [-> ->]. Qed.
Lemma tri_gets {b} {A} (P : assertion) (f : kst -> A) : tri b P (gets f) (fun a w s => P w s /\ a = f s).
Proof. by intros c s HP. Qed.

Ltac tlocal := eapply tri_bind; [apply tri_local; solve [auto with quiet]|intros ?; cbv beta].

(** What [framed] keeps. *)
Definition stable (P : assertion) : Prop := forall w s s', framed s s' -> P w s -> P w s'.
Lemma tri_quiet {b} {A} (P : assertion) (m : M kst A) : quiet m -> stable P -> (forall w s, P w s -> parked b w s) -> tri b P m (fun _ => P).
Proof.
  intros H Hst Hp c s HP. specialize (H c s). destruct (m c s) as [a c' s'| | | |ch c' s'|]; try done; destruct H as [F ->].
  - by eapply Hst.
  - by eapply framed_parked, Hp.
Qed.
Lemma tri_myproc_idx {b} (P : assertion) : tri b P myproc_idx (fun p w s => P w s /\ w = Some p).
Proof.
  intros c s HP. pose proof (local_myproc_idx c s) as H. destruct (myproc_idx c s) as [p c' s'| | | | |] eqn:E; try done.
  destruct H as [-> Hw]. rewrite Hw. split; [done|]. revert E. unfold myproc_idx. intros E. apply bind_inv in E as (me & c1 & s1 & E1 & E2).
  destruct me as [cp|]; [|done]. injection E2 as E2 _ _. unfold myproc in E1. apply bind_inv in E1 as ([] & c2 & s2 & E3 & E1).
  injection E3 as <- <-. rewrite bind_getc in E1. apply bind_inv in E1 as ([] & c3 & s3 & _ & E1). injection E1 as E1 _ _.
  rewrite push_proc in E1. unfold who. rewrite E1. cbn. by rewrite E2.
Qed.

(** ** Files *)

Definition plus (x : nat -> Z) (f : nat) : nat -> Z := fun g => x g + one g f.
Definition minus (x : nat -> Z) (f : nat) : nat -> Z := fun g => x g - one g f.

(** A fact about the descriptors and the processes, not the counts. *)
Definition about_procs (R : assertion) : Prop := forall w s s', k_proc s' = k_proc s -> R w s -> R w s'.
Definition with_acct (x : nat -> Z) (R : assertion) : assertion := fun w s => acct x w s /\ R w s.

Lemma fref_upd f h g s : (f < length (k_ftable s))%nat ->
  fref (upd_file f g s) h = if decide (h = f) then f_ref (g (get_file f s)) else fref s h.
Proof.
  intros Hf. unfold fref, get_file at 1, upd_file. cbn. case_decide as D.
  - subst. by rewrite nth_lookup, list_lookup_insert_eq by done.
  - by rewrite nth_lookup, list_lookup_insert_ne, <- nth_lookup by done.
Qed.

(** A store that sets the count of [f], a file of the table, to [r]. *)
Lemma set_ref_acct x y f g w s : (f < length (k_ftable s))%nat -> acct x w s ->
  (forall h, h <> f -> y h = x h) -> f_ref (g (get_file f s)) = y f + (fref s f - x f) -> acct y w (upd_file f g s).
Proof.
  intros Hf [H1 H2 H3 H4 H5] Hy Hr. split; try done. intros h. rewrite fref_upd by done. change (ofs (upd_file f g s)) with (ofs s).
  case_decide as D; [subst; rewrite Hr, H3; lia|]. rewrite H3, Hy by done. done.
Qed.
Lemma ref_in_table f s : 1 <= fref s f -> (f < length (k_ftable s))%nat.
Proof.
  unfold fref, get_file. intros H. destruct (decide (f < length (k_ftable s))%nat) as [|Hf]; [done|].
  rewrite nth_overflow in H by lia. cbn in H. lia.
Qed.

Lemma free_file_spec l i f : free_file l i = Some f -> exists x, l !! (f - i)%nat = Some x /\ (i <= f)%nat /\ f_ref x = 0.
Proof.
  revert i. induction l as [|x l IH]; intros i H; cbn in H; [done|]. destruct (f_ref x =? 0) eqn:E.
  - injection H as <-. exists x. rewrite Nat.sub_diag. split_and!; [done|lia|by apply Z.eqb_eq].
  - destruct (IH _ H) as (y & Hy & Hle & Hr). exists y. split_and!; [|lia|done]. replace (f - i)%nat with (S (f - S i)) by lia. done.
Qed.

Lemma tri_modify {b} (P : assertion) f (Q : unit -> assertion) : (forall w s, P w s -> Q tt w (f s)) -> tri b P (modify f) Q.
Proof. intros H c s HP. by apply H. Qed.

Lemma filealloc_tri {b} x R : about_procs R ->
  tri b (with_acct x R) filealloc (fun r => with_acct (match r with Some f => plus x f | None => x end) R).
Proof.
  intros HR. unfold filealloc. tlocal. eapply tri_bind; [apply tri_gets|intros t].
  destruct (free_file t 0) as [f|] eqn:E.
  - eapply tri_bind; [apply (tri_modify _ _ (fun _ => with_acct (plus x f) R))|intros ?; tlocal; by apply tri_ret].
    intros w s [[Ha HRs] ->]. destruct (free_file_spec _ _ _ E) as (y & Hy & _ & Hr). rewrite Nat.sub_0_r in Hy.
    split; [|by apply (HR w s)]. assert (Hf : fref s f = 0) by (unfold fref, get_file; by rewrite nth_lookup, Hy).
    eapply set_ref_acct; [by eapply lookup_lt_Some|done| |].
    + intros h Hh. unfold plus, one. case_decide; [done|lia].
    + cbn. unfold plus, one. rewrite Hf. case_decide; [lia|done].
  - tlocal. apply tri_ret. by intros w s [H _].
Qed.

Lemma filedup_tri {b} x R f : about_procs R -> tri b (with_acct x R) (filedup f) (fun g w s => g = f /\ with_acct (plus x f) R w s).
Proof.
  intros HR. unfold filedup. tlocal. eapply tri_bind; [apply tri_gets|intros y].
  destruct (f_ref y <? 1) eqn:E; [by intros c s|]. apply Z.ltb_ge in E.
  eapply tri_bind; [apply (tri_modify _ _ (fun _ => with_acct (plus x f) R))|intros ?; tlocal; by apply tri_ret].
  intros w s [[Ha HRs] ->]. split; [|by apply (HR w s)]. eapply set_ref_acct; [by apply ref_in_table|done| |].
  - intros h Hh. unfold plus, one. case_decide; [done|lia].
  - cbn. unfold plus, one, fref. case_decide; [lia|done].
Qed.

(** Facts that a change of the counts or of the rest of the state keeps. *)
Definition lasting (R : assertion) : Prop := forall w s s',
  ofs s' = ofs s -> (forall i, gone_at s' i -> gone_at s i) -> R w s -> R w s'.
Lemma lasting_about R : lasting R -> about_procs R.
Proof. intros H w s s' E. apply H; [by unfold ofs; rewrite E|]. intros i. unfold gone_at. by rewrite E. Qed.
Lemma lasting_stable x R : lasting R -> stable (with_acct x R).
Proof. intros H w s s' F [Ha HR]. split; [by eapply framed_acct|]. destruct F. by eapply H. Qed.

(** The call may sleep with the references [x]. *)
Definition safe (b x : nat -> Z) (R : assertion) : Prop := forall w s, with_acct x R w s -> parked b w s.
Lemma safe_near {b} x R : near b 2 x -> safe b x R.
Proof. intros H w s [Ha _]. by eapply acct_parked. Qed.
Lemma safe_own {b} f p fd (R : assertion) : (forall w s, R w s -> w = Some p /\ desc p fd (Some f) s) -> safe b (minus b f) R.
Proof.
  intros HR w s [[H1 H2 H3 H4 _] Hs]. destruct (HR _ _ Hs) as [-> Hd]. split; [|done]. exists (fun g => - one g f). split.
  - right. exists p, fd, f. done.
  - intros g. rewrite H3. unfold minus. lia.
Qed.
Lemma tri_pass {b} {A} x R (m : M kst A) : quiet m -> lasting R -> safe b x R -> tri b (with_acct x R) m (fun _ => with_acct x R).
Proof. intros Hq Hl Hs. apply tri_quiet; [done|by apply lasting_stable|done]. Qed.

Lemma fileclose_tri {b} x R f : lasting R -> safe b (minus x f) R ->
  tri b (with_acct x R) (fileclose f) (fun _ => with_acct (minus x f) R).
Proof.
  intros HR Hs. unfold fileclose. tlocal. eapply tri_bind; [apply tri_gets|intros y].
  destruct (f_ref y <? 1) eqn:E; [by intros c s|]. apply Z.ltb_ge in E.
  eapply tri_bind; [apply (tri_modify _ _ (fun _ w s => with_acct (minus x f) R w s /\ fref s f = f_ref y - 1 /\ (f < length (k_ftable s))%nat))|intros ?].
  - intros w s [[Ha HRs] ->]. pose proof (ref_in_table f s E) as Hf. split_and!; [split; [|by apply (lasting_about _ HR w s)]| |].
    + apply (set_ref_acct x); [done|done| |].
      * intros h Hh. unfold minus, one. case_decide; [done|lia].
      * cbn. unfold minus, one, fref. case_decide; [lia|done].
    + rewrite fref_upd by done. by case_decide.
    + unfold upd_file. cbn. by rewrite length_insert.
  - destruct (0 <? f_ref y - 1) eqn:E2.
    { eapply tri_weaken; [apply tri_local; auto with quiet|intros w s H; exact H|]. by intros ? w s [H _]. }
    apply Z.ltb_ge in E2. eapply tri_bind; [apply tri_gets|intros ff].
    eapply tri_bind; [apply (tri_modify _ _ (fun _ => with_acct (minus x f) R))|intros ?; tlocal; apply tri_pass; [quiet|done|done]].
    intros w s [[[Ha HRs] [Hr Hf]] _]. split; [|by apply (lasting_about _ HR w s)].
    apply (set_ref_acct (minus x f)); [done|done|done|]. cbn. lia.
Qed.

(** The state after entry [fd] of the descriptors of [p] became [v]. *)
Record moved (p fd : nat) (v : option nat) (s s' : kst) : Prop := mkMoved {
  mv_table : k_ftable s' = k_ftable s;
  mv_files : exists l, ofs s !! p = Some l /\ ofs s' = <[p := <[fd := v]> l]> (ofs s);
  mv_gone : forall i, gone_at s' i <-> gone_at s i
}.
Lemma upd_ofile_tri {b} (P Q : assertion) p fd v : (forall w s, P w s -> (p < length (ofs s))%nat) ->
  (forall w s s', P w s -> moved p fd v s s' -> Q w s') ->
  tri b P (upd_proc p (fun y => set_p_ofile (<[fd := v]> (p_ofile y)) y)) (fun _ => Q).
Proof.
  intros Hp HQ c s HP. specialize (Hp _ _ HP). unfold ofs in Hp. rewrite length_fmap in Hp.
  destruct (upd_proc_at p (fun y => set_p_ofile (<[fd := v]> (p_ofile y)) y) c s Hp) as (q & Hq & c' & -> & ->).
  eapply HQ; [done|]. split; [done| |].
  - exists (p_ofile q). unfold ofs. cbn. by rewrite list_lookup_fmap, Hq, list_fmap_insert.
  - intros i. unfold gone_at. cbn. destruct (decide (p = i)) as [->|Hne].
    + rewrite list_lookup_insert_eq, Hq by done. split; intros (r & [= <-] & Hg); eauto.
    + by rewrite list_lookup_insert_ne.
Qed.
Lemma moved_acct x y p fd u v w s s' : moved p fd v s s' -> acct x w s -> desc p fd u s -> ~ gone_at s p ->
  (forall g, y g = x g + refers g u - refers g v) -> acct y w s'.
Proof.
  intros [T (l & Hl & E) G] [H1 H2 H3 H4 H5] (l' & Hl' & Hu) Hg Hy. assert (l' = l) as -> by congruence. split.
  - intros i Hi. destruct (H1 i Hi). rewrite E, length_insert. split; [done|]. by rewrite G.
  - rewrite E. apply Forall_insert; [done|]. rewrite length_insert. exact (proj1 (Forall_lookup _ _) H2 _ _ Hl).
  - intros f. unfold fref, get_file. rewrite T. change (fref s f = y f + total f (ofs s')). rewrite E, (total_set f _ _ _ _ _ v Hl Hu), H3, Hy. lia.
  - intros i Hi. apply G in Hi. rewrite E. rewrite list_lookup_insert_ne; [auto|]. by intros ->.
  - by rewrite E, length_insert.
Qed.
Lemma moved_desc p fd v s s' q fd' u : moved p fd v s s' -> (q, fd') <> (p, fd) -> desc q fd' u s -> desc q fd' u s'.
Proof.
  intros [_ (l & Hl & E) _] Hne (l' & Hl' & Hu). unfold desc. rewrite E. destruct (decide (q = p)) as [->|Hq].
  - assert (l' = l) as -> by congruence. exists (<[fd := v]> l). rewrite list_lookup_insert_eq by by eapply lookup_lt_Some.
    rewrite list_lookup_insert_ne by congruence. done.
  - exists l'. by rewrite list_lookup_insert_ne.
Qed.
Lemma moved_same p fd u v s s' : moved p fd v s s' -> desc p fd u s -> desc p fd v s'.
Proof.
  intros [_ (l & Hl & E) _] (l' & Hl' & Hu). assert (l' = l) as -> by congruence. exists (<[fd := v]> l). rewrite E.
  by rewrite !list_lookup_insert_eq by by eapply lookup_lt_Some.
Qed.

(** ** Descriptors *)

Definition top : assertion := fun _ _ => True.
Lemma lasting_top : lasting top.
Proof. done. Qed.
#[export] Hint Resolve lasting_top safe_near : quiet.
Lemma near_refl b n : near b n b.
Proof. exists []. split; [cbn; lia|]. intros f. cbn. lia. Qed.
Lemma near_0 b n x : near b 0 x -> near b n x.
Proof. intros (H & Hl & E). exists H. split; [lia|done]. Qed.
Lemma near_plus b n x f : near b n x -> near b (S n) (plus x f).
Proof. intros (H & Hl & E). exists (f :: H). split; [cbn; lia|]. intros g. unfold plus, held. rewrite E, sumZ_cons. unfold held. lia. Qed.
Lemma plus_minus x f g : minus (plus x f) f g = x g.
Proof. unfold minus, plus. lia. Qed.
Lemma minus_plus x f g : plus (minus x f) f g = x g.
Proof. unfold minus, plus. lia. Qed.
Lemma near_back b n x f : near b n x -> near b n (minus (plus x f) f).
Proof. intros (H & Hl & E). exists H. split; [done|]. intros g. by rewrite plus_minus. Qed.
#[export] Hint Resolve near_refl near_0 near_plus : quiet.

Lemma ofs_proc s p x : k_proc s !! p = Some x -> ofs s !! p = Some (p_ofile x).
Proof. intros H. unfold ofs. by rewrite list_lookup_fmap, H. Qed.
Lemma get_proc_desc p fd f s : nth fd (p_ofile (get_proc p s)) None = Some f -> desc p fd (Some f) s.
Proof.
  unfold get_proc. destruct (k_proc s !! p) as [x|] eqn:E.
  - rewrite (nth_lookup_Some _ _ _ _ E), nth_lookup. destruct (p_ofile x !! fd) as [o|] eqn:Ef; [|done]. cbn. intros ->.
    exists (p_ofile x). split; [by apply ofs_proc|done].
  - rewrite (nth_overflow (k_proc s)) by by apply lookup_ge_None. cbn [p_ofile proc0]. by rewrite nth_repeat.
Qed.
Lemma running_proc p x w s : acct x w s -> w = Some p ->
  exists y, k_proc s !! p = Some y /\ get_proc p s = y /\ length (p_ofile y) = Z.to_nat NOFILE /\ ~ gone_at s p.
Proof.
  intros [H1 H2 _ _ _] Hw. destruct (H1 _ Hw) as [Hl Hg]. unfold ofs in Hl. rewrite length_fmap in Hl.
  destruct (lookup_lt_is_Some_2 _ _ Hl) as [y Hy]. exists y. split_and!; [done| | |done].
  - by apply nth_lookup_Some.
  - exact (proj1 (Forall_lookup _ _) H2 _ _ (ofs_proc _ _ _ Hy)).
Qed.

Lemma argfd_tri {b} (P : assertion) n : tri b P (argfd n) (fun r w s => P w s /\
  match r with Some (fd, f) => exists p, w = Some p /\ desc p fd (Some f) s | None => True end).
Proof.
  unfold argfd. tlocal. destruct (_ || _); [by apply tri_ret|]. eapply tri_bind; [apply tri_myproc_idx|intros p].
  eapply tri_bind; [apply tri_gets|intros y]. destruct (nth (Z.to_nat a) (p_ofile y) None) as [f|] eqn:E.
  - apply tri_ret. intros w s [[HP ->] ->]. split; [done|]. exists p. split; [done|]. by apply get_proc_desc.
  - apply tri_ret. by intros w s [[HP _] _].
Qed.

Lemma free_fd_spec l i fd : free_fd l i = Some fd -> (i <= fd)%nat /\ l !! (fd - i)%nat = Some None.
Proof.
  revert i. induction l as [|[f|] l IH]; intros i H; cbn in H; [done| |].
  - destruct (IH _ H) as [Hle Hn]. split; [lia|]. by replace (fd - i)%nat with (S (fd - S i)) by lia.
  - injection H as <-. split; [lia|]. by rewrite Nat.sub_diag.
Qed.

(** Facts that stay true when the running process gets one more descriptor. *)
Definition grows (f : nat) (R : assertion) : Prop := forall w s s' p fd,
  w = Some p -> desc p fd None s -> moved p fd (Some f) s s' -> R w s -> R w s'.

Lemma fdalloc_tri {b} x R f : lasting R -> grows f R -> tri b (with_acct x R) (fdalloc f) (fun r w s =>
  match r with
  | Some fd => with_acct (minus x f) R w s /\ exists p s0, w = Some p /\ desc p fd (Some f) s /\ R w s0 /\ desc p fd None s0
  | None => with_acct x R w s
  end).
Proof.
  intros HR Hg. unfold fdalloc. eapply tri_bind; [apply tri_myproc_idx|intros p]. eapply tri_bind; [apply tri_gets|intros y].
  destruct (free_fd _ 0) as [fd|] eqn:E; [|by apply tri_ret; intros w s [[H _] _]].
  destruct (free_fd_spec _ _ _ E) as [_ Hn]. rewrite Nat.sub_0_r in Hn. apply lookup_take_Some in Hn as [Hn _].
  assert (Hd : forall w s, acct x w s -> w = Some p -> y = get_proc p s -> desc p fd None s /\ ~ gone_at s p /\ (p < length (ofs s))%nat).
  { intros w s Ha Hw ->. destruct (running_proc _ _ _ _ Ha Hw) as (q & Hq & Eq & _ & Hng). rewrite Eq in Hn. split_and!; [|done|].
    - exists (p_ofile q). split; [by apply ofs_proc|done].
    - by eapply lookup_lt_Some, ofs_proc. }
  eapply tri_bind; [apply (upd_ofile_tri _ (fun w s => with_acct (minus x f) R w s /\
      exists p s0, w = Some p /\ desc p fd (Some f) s /\ R w s0 /\ desc p fd None s0))|].
  - intros w s [[[Ha _] Hw] Hy]. by apply (Hd _ _ Ha Hw Hy).
  - intros w s s' [[[Ha HRs] Hw] Hy] Hm. destruct (Hd _ _ Ha Hw Hy) as (Hf & Hng & _). split; [split|].
    + eapply moved_acct; try done. intros g. cbn. unfold minus. lia.
    + by eapply Hg.
    + exists p, s. split_and!; [done|by eapply moved_same|done..].
  - intros ?. by apply tri_ret.
Qed.

(** Clearing a descriptor of the running process leaves its reference to the call. *)
Lemma clear_tri {b} x (R R' : assertion) p fd f : (forall w s, R w s -> w = Some p /\ desc p fd (Some f) s) ->
  (forall w s s', R w s -> moved p fd None s s' -> R' w s') ->
  tri b (with_acct x R) (set_ofile p fd None) (fun _ => with_acct (plus x f) R').
Proof.
  intros HR HR'. apply upd_ofile_tri.
  - intros w s [Ha Hs]. destruct (HR _ _ Hs) as [-> (l & Hl & _)]. by eapply lookup_lt_Some.
  - intros w s s' [Ha Hs] Hm. destruct (HR _ _ Hs) as [Hw Hd]. split; [|by eapply HR'].
    destruct (running_proc _ _ _ _ Ha Hw) as (_ & _ & _ & _ & Hng). eapply moved_acct; try done. intros g. cbn. unfold plus. lia.
Qed.

(** ** The system calls that open and close *)

(** A call that preserves the invariant, whatever references other calls hold. *)
Definition sound {A} (m : M kst A) : Prop := forall x, tri x (with_acct x top) m (fun _ => with_acct x top).

Lemma sound_quiet {A} (m : M kst A) : quiet m -> sound m.
Proof. intros H x. apply tri_pass; auto with quiet. Qed.
Lemma sound_bind {A B} (m : M kst A) (f : A -> M kst B) : sound m -> (forall a, sound (f a)) -> sound (m ≫= f).
Proof. intros Hm Hf x. eapply tri_bind; [apply Hm|intros a; apply Hf]. Qed.
Lemma with_acct_ext x y (R R' : assertion) w s : (forall f, x f = y f) -> (R w s -> R' w s) -> with_acct x R w s -> with_acct y R' w s.
Proof. intros E HR [Ha Hs]. split; [by eapply acct_ext|auto]. Qed.

(** The running process is [p] and has these descriptors, all different. *)
Definition holds (p : nat) (L : list (nat * nat)) : assertion := fun w s =>
  w = Some p /\ NoDup L.*1 /\ Forall (fun d => desc p d.1 (Some d.2) s) L.
Lemma lasting_holds p L : lasting (holds p L).
Proof. intros w s s' E _ (Hw & Hn & HL). split; [done|]. split; [done|]. eapply Forall_impl; [exact HL|]. intros d. unfold desc. by rewrite E. Qed.
Lemma moved_holds p fd v L s s' w : moved p fd v s s' -> holds p L w s -> (forall d, d ∈ L -> d.1 <> fd) -> holds p L w s'.
Proof.
  intros Hm (Hw & Hn & HL) Hne. split; [done|]. split; [done|]. apply Forall_forall. intros d Hd. eapply moved_desc; [done| |].
  - intros [= E]. by apply (Hne d Hd).
  - exact (proj1 (Forall_forall _ _) HL d Hd).
Qed.
Lemma desc_fun p fd u v s : desc p fd u s -> desc p fd v s -> u = v.
Proof. intros (l & H1 & H2) (l' & H3 & H4). congruence. Qed.
Lemma grows_holds p L f : grows f (holds p L).
Proof.
  intros w s s' q fd Hw Hd Hm HH. pose proof HH as (Hp & _ & HL). assert (q = p) as -> by congruence. eapply moved_holds; [done..|].
  intros d Hin <-. pose proof (proj1 (Forall_forall _ _) HL d Hin) as Hs. by pose proof (desc_fun _ _ _ _ _ Hd Hs).
Qed.
#[export] Hint Resolve lasting_holds grows_holds : quiet.

Lemma err_tri {b} (P : assertion) : tri b P err (fun _ => P).
Proof. by apply tri_ret. Qed.

Lemma sys_close_sound : sound sys_close.
Proof.
  intros x. unfold sys_close. eapply tri_bind; [apply argfd_tri|intros [[fd f]|]]; [|eapply tri_weaken; [apply err_tri|by intros w s [H _]|done]].
  eapply tri_bind; [apply tri_myproc_idx|intros p]. eapply tri_bind.
  - eapply tri_pre; [apply (clear_tri x (holds p [(fd, f)]) top p fd f)|].
    + intros w s (Hw & _ & HL). split; [done|]. by inversion HL.
    + done.
    + intros w s [[[Ha _] (q & Hq & Hd)] Hw]. assert (q = p) as -> by congruence. split; [done|]. split_and!; [done|apply NoDup_singleton|by constructor].
  - intros ?. eapply tri_bind; [apply fileclose_tri; auto with quiet|intros ?].
    + apply safe_near, near_back, near_refl.
    + apply tri_ret. intros w s. apply with_acct_ext; [apply plus_minus|done].
Qed.

Lemma sys_dup_sound : sound sys_dup.
Proof.
  intros x. unfold sys_dup. eapply tri_bind; [apply argfd_tri|intros [[fd f]|]]; [|eapply tri_weaken; [apply err_tri|by intros w s [H _]|done]].
  eapply tri_bind; [eapply tri_pre; [apply (fdalloc_tri x top f); done|by intros w s [H _]]|intros [fd'|]]; [|apply err_tri].
  eapply tri_bind; [eapply tri_pre; [apply (filedup_tri (minus x f) top); done|by intros w s [H _]]|intros g].
  apply tri_ret. intros w s [_ H]. by eapply with_acct_ext; [apply minus_plus| |exact H].
Qed.

Lemma sys_open_sound : sound sys_open.
Proof.
  intros x. unfold sys_open. eapply tri_bind; [apply tri_pass; auto with quiet|intros [[n path]|]]; [|apply err_tri]. tlocal. rename a into omode.
  eapply tri_bind; [apply tri_pass; [quiet|auto with quiet..]|intros ?]. eapply tri_bind; [apply tri_pass; auto with quiet|intros [ip|]]; [|apply err_tri].
  cbv zeta. assert (Hbad : tri x (with_acct x top) (_ ← klift kl_fs (iunlockput ip); _ ← klift kl_log end_op; err) (fun _ => with_acct x top)).
  { apply tri_pass; [unfold err; quiet|auto with quiet..]. }
  tlocal. destruct (_ && _); [done|]. eapply tri_bind; [apply filealloc_tri; done|intros [f|]]; [|done].
  eapply tri_bind; [apply (fdalloc_tri (plus x f) top f); done|intros [fd|]].
  - eapply tri_pre; [|intros w s [H _]; by eapply with_acct_ext; [apply plus_minus| |exact H]]. apply tri_pass; [quiet|auto with quiet..].
  - eapply tri_bind; [apply fileclose_tri; [done|apply safe_near, near_back, near_refl]|intros ?].
    eapply tri_pre; [exact Hbad|]. intros w s H. by eapply with_acct_ext; [apply plus_minus| |exact H].
Qed.

Lemma close_tri {b} x R f : near b 2 x -> lasting R -> tri b (with_acct (plus x f) R) (fileclose f) (fun _ => with_acct x R).
Proof.
  intros Hx HR. eapply tri_weaken; [apply (fileclose_tri (plus x f) R); [done|]|done|].
  - by apply safe_near, near_back.
  - intros ? w s H. by eapply with_acct_ext; [apply plus_minus| |exact H].
Qed.

Definition plus_opt (x : nat -> Z) (o : option nat) : nat -> Z := match o with Some f => plus x f | None => x end.
Lemma close_opt_tri {b} x R o : near b 2 x -> lasting R ->
  tri b (with_acct (plus_opt x o) R) (match o with Some f => fileclose f | None => mret tt end) (fun _ => with_acct x R).
Proof. intros Hx HR. destruct o as [f|]; [by apply close_tri|by apply tri_ret]. Qed.
Lemma near_plus_opt b n x o : near b n x -> near b (S n) (plus_opt x o).
Proof. destruct o; [apply near_plus|]. intros (H & Hl & E). exists H. split; [lia|done]. Qed.
#[export] Hint Resolve near_plus_opt : quiet.

(** The label bad of pipealloc. *)
Lemma pipe_bad_tri {b} x R f0 f1 pi : near b 0 x -> lasting R ->
  tri b (with_acct (plus_opt (plus_opt x f1) f0) R)
    (_ ← when (negb (pi =? 0)) (lift kl_kmem (kfree pi));
     _ ← match f0 with Some f => fileclose f | None => mret tt end;
     _ ← match f1 with Some f => fileclose f | None => mret tt end;
     mret (None : option (nat * nat)))
    (fun r => with_acct (match r with Some (a, b) => plus (plus x b) a | None => x end) R).
Proof.
  intros Hx HR. eapply tri_bind; [apply tri_pass; [quiet|done|auto with quiet]|intros ?].
  eapply tri_bind; [apply close_opt_tri; auto with quiet|intros ?]. eapply tri_bind; [apply close_opt_tri; auto with quiet|intros ?]. by apply tri_ret.
Qed.

Lemma pipealloc_tri {b} x R : near b 0 x -> lasting R ->
  tri b (with_acct x R) pipealloc (fun r => with_acct (match r with Some (a, b) => plus (plus x b) a | None => x end) R).
Proof.
  intros Hx HR. pose proof (lasting_about _ HR) as HR'. unfold pipealloc. cbv zeta.
  pose proof (fun f0 f1 => pipe_bad_tri x R f0 f1 0 Hx HR) as Hbad.
  eapply tri_bind; [by apply filealloc_tri|intros [a|]]; [|apply (Hbad None None)].
  eapply tri_bind; [by apply filealloc_tri|intros [e|]]; [|apply (Hbad (Some a) None)].
  apply (tri_pre _ (with_acct (plus (plus x e) a) R)).
  2: { intros w s H. eapply with_acct_ext; [|done|exact H]. intros g. unfold plus. lia. }
  assert (Hq : safe b (plus (plus x e) a) R) by auto with quiet.
  eapply tri_bind; [apply tri_pass; [quiet|done|done]|intros pi]. destruct (pi =? 0); [apply (Hbad (Some a) (Some e))|].
  do 4 (eapply tri_bind; [apply tri_pass; [unfold initlock; quiet|done|done]|intros ?]). by apply tri_ret.
Qed.

Lemma holds_grow p L fd f w s : holds p L w s ->
  (exists q s0, w = Some q /\ desc q fd (Some f) s /\ holds p L w s0 /\ desc q fd None s0) -> holds p ((fd, f) :: L) w s.
Proof.
  intros (Hw & Hn & HL) (q & s0 & Hq & Hd & (_ & _ & HL0) & Hd0). assert (q = p) as -> by congruence. split; [done|]. split; [|by constructor].
  constructor; [|done]. intros ([fd' g] & E & Hin)%list_elem_of_fmap. cbn in E. subst fd'. pose proof (proj1 (Forall_forall _ _) HL0 _ Hin) as Hs.
  by pose proof (desc_fun _ _ _ _ _ Hd0 Hs).
Qed.
Lemma holds_perm p L L' w s : L ≡ₚ L' -> holds p L w s -> holds p L' w s.
Proof. intros E (Hw & Hn & HL). split_and!; [done|by rewrite <- E|by rewrite <- E]. Qed.
Lemma fdalloc_holds {b} x p L f : tri b (with_acct (plus x f) (holds p L)) (fdalloc f) (fun r =>
  match r with Some fd => with_acct x (holds p ((fd, f) :: L)) | None => with_acct (plus x f) (holds p L) end).
Proof.
  eapply tri_weaken; [apply (fdalloc_tri (plus x f) (holds p L) f); auto with quiet|done|]. intros [fd|] w s H; [|done].
  destruct H as [[Ha HH] Hq]. split; [by eapply acct_ext; [apply plus_minus|]|by apply holds_grow].
Qed.
Lemma clear_holds {b} x p fd f L :
  tri b (with_acct x (holds p ((fd, f) :: L))) (set_ofile p fd None) (fun _ => with_acct (plus x f) (holds p L)).
Proof.
  apply clear_tri.
  - intros w s (Hw & _ & HF). split; [done|]. by inversion HF.
  - intros w s s' (Hw & Hn & HF) Hm. inversion HF; subst. cbn in Hn. apply NoDup_cons in Hn as [Hnin Hn]. eapply moved_holds; [done|by split|].
    intros d Hd E. apply Hnin. apply list_elem_of_fmap. by exists d.
Qed.

Lemma sys_pipe_sound : sound sys_pipe.
Proof.
  intros x. unfold sys_pipe. eapply tri_bind; [apply tri_myproc_idx|intros p]. tlocal. rename a into fdarray.
  eapply tri_bind; [eapply tri_pre; [apply (pipealloc_tri x (holds p [])); auto with quiet|]|intros [[rf wf]|]].
  { intros w s [[Ha _] Hw]. split; [done|]. split_and!; [done|constructor..]. }
  2: { eapply tri_weaken; [apply err_tri|intros w s H; exact H|]. intros ? w s [H _]. by split. }
  cbv zeta. assert (Hclose : forall L, tri x (with_acct (plus (plus x wf) rf) (holds p L)) (_ ← fileclose rf; _ ← fileclose wf; err) (fun _ => with_acct x top)).
  { intros L. eapply tri_bind; [apply close_tri; auto with quiet|intros ?]. eapply tri_bind; [apply close_tri; auto with quiet|intros ?].
    eapply tri_weaken; [apply err_tri|intros w s H; exact H|]. intros ? w s [H _]. by split. }
  eapply tri_bind; [apply fdalloc_holds|intros [fd0|]]; [|apply Hclose].
  eapply tri_bind; [apply fdalloc_holds|intros [fd1|]]; [|eapply tri_bind; [apply clear_holds|intros ?; apply Hclose]].
  assert (Hbad : tri x (with_acct x (holds p [(fd1, wf); (fd0, rf)]))
    (_ ← set_ofile p fd0 None; _ ← set_ofile p fd1 None; _ ← fileclose rf; _ ← fileclose wf; err) (fun _ => with_acct x top)).
  { eapply tri_bind; [eapply tri_pre; [apply (clear_holds x p fd0 rf [(fd1, wf)])|]|intros ?; eapply tri_bind; [apply clear_holds|intros ?]].
    - intros w s [Ha HH]. split; [done|]. by eapply holds_perm; [|exact HH]; apply Permutation_swap.
    - eapply tri_pre; [apply (Hclose [])|]. intros w s H. eapply with_acct_ext; [|done|exact H]. intros g. unfold plus. lia. }
  tlocal. eapply tri_bind; [apply tri_pass; [quiet|auto with quiet..]|intros r]. destruct (r <? 0); [done|].
  eapply tri_bind; [apply tri_pass; [quiet|auto with quiet..]|intros r']. destruct (r' <? 0); [done|].
  apply tri_ret. intros w s [H _]. by split.
Qed.

(** ** Processes *)

(** A slot of the table that is not the running process and has no file. *)
Definition spare (i : nat) : assertion := fun w s => w <> Some i /\ ofs s !! i = Some no_files.
Lemma lasting_spare i : lasting (spare i).
Proof. intros w s s' E _ [H1 H2]. split; [done|by rewrite E]. Qed.
#[export] Hint Resolve lasting_spare : quiet.
Lemma gone_spare x w s i : acct x w s -> gone_at s i -> spare i w s.
Proof. intros [H1 _ _ H4 _] Hg. split; [|auto]. intros Hw. by apply (H1 _ Hw). Qed.

Lemma get_proc_gone s i st : p_state (get_proc i s) = st -> gone st = true -> (i < length (k_proc s))%nat -> gone_at s i.
Proof.
  intros Hs Hg Hi. destruct (lookup_lt_is_Some_2 _ _ Hi) as [q Hq]. exists q. split; [done|].
  unfold get_proc in Hs. rewrite (nth_lookup_Some _ _ _ _ Hq) in Hs. by rewrite Hs.
Qed.

(** The store that ends a process without files. *)
Lemma end_proc_tri {b} x i f : (forall p, p_ofile (f p) = p_ofile p) ->
  tri b (with_acct x (spare i)) (upd_proc i f) (fun _ => with_acct x top).
Proof.
  intros Hf c s [[H1 H2 H3 H4 H5] [Hw Hn]]. assert (Hi : (i < length (k_proc s))%nat).
  { apply lookup_lt_Some in Hn. unfold ofs in Hn. by rewrite length_fmap in Hn. }
  destruct (upd_proc_at i f c s Hi) as (p & Hp & c' & -> & ->). set (s' := set_k_proc _ s).
  assert (E : ofs s' = ofs s).
  { unfold ofs, s'. cbn. rewrite list_fmap_insert, Hf. apply list_insert_id. by rewrite list_lookup_fmap, Hp. }
  assert (G : forall j, i <> j -> gone_at s' j -> gone_at s j).
  { intros j Hj (q & Hq & Hg). exists q. split; [|done]. unfold s' in Hq. cbn in Hq. by rewrite list_lookup_insert_ne in Hq. }
  split; [|done]. split; rewrite ?E; try done.
  - intros j Hj. destruct (H1 j Hj) as [? Hng]. split; [done|]. intros Hg. apply Hng, G; [by intros ->|done].
  - intros j Hg. destruct (decide (i = j)) as [<-|Hne]; [done|auto].
Qed.

Lemma freeproc_tri {b} x i : near b 0 x -> tri b (with_acct x (spare i)) (freeproc i) (fun _ => with_acct x top).
Proof.
  intros Hx. unfold freeproc. tlocal.
  do 3 (eapply tri_bind; [apply tri_pass; [quiet|auto with quiet..]|intros ?]). by apply end_proc_tri.
Qed.

Lemma allocproc_scan_tri {b} x R l : lasting R -> (forall i, i ∈ l -> (i < Z.to_nat NPROC)%nat) ->
  tri b (with_acct x R) (allocproc_scan l) (fun r w s => with_acct x R w s /\ match r with Some i => spare i w s | None => True end).
Proof.
  intros HR. induction l as [|i l IH]; intros Hl; cbn [allocproc_scan]; [by apply tri_ret|].
  tlocal. eapply tri_bind; [apply tri_gets|intros q]. case_bool_decide as E.
  - apply tri_ret. intros w s [[Ha HRs] ->]. split; [done|]. eapply gone_spare; [done|]. eapply get_proc_gone; [exact E|done|].
    pose proof (ac_procs _ _ _ Ha) as Hn. unfold ofs in Hn. rewrite length_fmap in Hn. rewrite Hn. apply Hl. constructor.
  - tlocal. eapply tri_pre; [apply IH|by intros w s [H _]]. intros j Hj. apply Hl. by constructor.
Qed.

(** A slot that fork may fill. *)
Definition fresh (i : nat) : assertion := fun w s => spare i w s /\ ~ gone_at s i.
Lemma lasting_and (R R' : assertion) : lasting R -> lasting R' -> lasting (fun w s => R w s /\ R' w s).
Proof. intros H H' w s s' E G [A B]. split; [by eapply H|by eapply H']. Qed.
Lemma lasting_fresh i : lasting (fresh i).
Proof. intros w s s' E G [A B]. split; [by eapply lasting_spare|auto]. Qed.
Lemma lasting_who p : lasting (fun w _ => w = Some p).
Proof. by intros w s s' _ _ H. Qed.
#[export] Hint Resolve lasting_and lasting_fresh lasting_who : quiet.

Lemma upd_alive_tri {b} x R i f : lasting R -> (forall p, p_ofile (f p) = p_ofile p) -> (forall p, gone (p_state (f p)) = false) ->
  tri b (with_acct x (fun w s => R w s /\ spare i w s)) (upd_proc i f) (fun _ => with_acct x (fun w s => R w s /\ fresh i w s)).
Proof.
  intros HR Hf Hg c s [Ha [HRs Hsp]]. assert (Hi : (i < length (k_proc s))%nat).
  { destruct Hsp as [_ Hn]. apply lookup_lt_Some in Hn. unfold ofs in Hn. by rewrite length_fmap in Hn. }
  assert (Q : quiet (upd_proc i f)) by (apply quiet_upd_proc; [done|]; intros p; by rewrite Hg).
  specialize (Q c s). destruct (upd_proc_at i f c s Hi) as (p & Hp & c' & E & Hw). rewrite E in Q |- *. destruct Q as [F _]. rewrite Hw.
  split; [by eapply framed_acct|]. destruct F as [_ F2 F3]. split; [by eapply HR|]. split; [by eapply lasting_spare|].
  intros (q & Hq & Hgq). cbn in Hq. rewrite list_lookup_insert_eq in Hq by done. injection Hq as <-. by rewrite Hg in Hgq.
Qed.

Lemma allocproc_tri {b} x R : near b 0 x -> lasting R -> tri b (with_acct x R) allocproc (fun r w s =>
  match r with Some i => with_acct x (fun w s => R w s /\ fresh i w s) w s | None => acct x w s end).
Proof.
  intros Hx HR. unfold allocproc. eapply tri_bind; [apply allocproc_scan_tri; [done|]|intros [i|]].
  { intros i Hi. unfold procs in Hi. apply elem_of_seq in Hi. lia. }
  2: { apply tri_ret. by intros w s [[H _] _]. }
  assert (Hfail : tri b (with_acct x (fun w s => R w s /\ fresh i w s)) (_ ← freeproc i; _ ← release (LkProc i); mret (None : option nat))
    (fun r w s => match r with Some i => with_acct x (fun w s => R w s /\ fresh i w s) w s | None => acct x w s end)).
  { eapply tri_bind; [eapply tri_pre; [by apply freeproc_tri|]|intros ?].
    - intros w s [Ha [_ [Hs _]]]. by split.
    - tlocal. apply tri_ret. by intros w s [H _]. }
  eapply tri_bind; [eapply tri_pre; [apply (tri_pass x (fun w s => R w s /\ spare i w s)); auto with quiet|by intros w s [[H1 H2] H3]]|intros pid].
  eapply tri_bind; [by apply upd_alive_tri|intros ?].
  assert (Hs : safe b x (fun w s => R w s /\ fresh i w s)) by auto with quiet.
  do 2 (eapply tri_bind; [apply tri_pass; [quiet|auto with quiet..]|intros ?]). case_match; [exact Hfail|].
  tlocal. do 2 (eapply tri_bind; [apply tri_pass; [quiet|auto with quiet..]|intros ?]). case_match; [exact Hfail|].
  eapply tri_bind; [apply tri_pass; [quiet|auto with quiet..]|intros ?]. by apply tri_ret.
Qed.

(** A loop with an invariant on the index. *)
Lemma forM_tri {b} (I : nat -> assertion) (f : nat -> M kst unit) n k :
  (forall j, (j < n)%nat -> tri b (I j) (f j) (fun _ => I (S j))) -> (k <= n)%nat -> tri b (I (n - k)%nat) (forM (seq (n - k) k) f) (fun _ => I n).
Proof.
  intros Hf. induction k as [|k IH]; intros Hk.
  - apply tri_ret. intros w s. by rewrite Nat.sub_0_r.
  - cbn [seq forM]. eapply tri_bind; [apply Hf; lia|intros ?]. replace (S (n - S k)) with (n - k)%nat by lia. apply IH. lia.
Qed.
Lemma forM_files {b} (I : nat -> assertion) (f : nat -> M kst unit) :
  (forall j, (j < Z.to_nat NOFILE)%nat -> tri b (I j) (f j) (fun _ => I (S j))) ->
  tri b (I 0%nat) (forM (seq 0 (Z.to_nat NOFILE)) f) (fun _ => I (Z.to_nat NOFILE)).
Proof. intros Hf. pose proof (forM_tri I f (Z.to_nat NOFILE) (Z.to_nat NOFILE) Hf) as H. rewrite Nat.sub_diag in H. by apply H. Qed.

(** The descriptors of [i] that the loops of fork and exit have not yet or
    have already gone through are free. *)
Definition unused_desc (i : nat) (D : nat -> Prop) : assertion := fun w s =>
  exists l, ofs s !! i = Some l /\ length l = Z.to_nat NOFILE /\ forall j, D j -> (j < Z.to_nat NOFILE)%nat -> l !! j = Some None.
Lemma lasting_unused_desc i D : lasting (unused_desc i D).
Proof. intros w s s' E _ (l & H). exists l. by rewrite E. Qed.
#[export] Hint Resolve lasting_unused_desc : quiet.
Lemma moved_free i (D D' : nat -> Prop) fd v w s s' : moved i fd v s s' -> unused_desc i D w s ->
  (forall j, D' j -> (j = fd /\ v = None) \/ (j <> fd /\ D j)) -> unused_desc i D' w s'.
Proof.
  intros [_ (l & Hl & E) _] (l' & Hl' & Hn & HD) H. assert (l' = l) as -> by congruence. exists (<[fd := v]> l). rewrite E.
  rewrite list_lookup_insert_eq by by eapply lookup_lt_Some. split; [done|]. rewrite length_insert. split; [done|].
  intros j Hj Hlt. destruct (H j Hj) as [[-> ->]|[Hne Hd]].
  - rewrite list_lookup_insert_eq by lia. done.
  - rewrite list_lookup_insert_ne by done. auto.
Qed.
Lemma no_files_lookup j : (j < Z.to_nat NOFILE)%nat -> no_files !! j = Some None.
Proof. change (Z.to_nat NOFILE) with 16%nat. intros Hj. do 16 (destruct j as [|j]; [done|]). lia. Qed.
Lemma free_all i w s : unused_desc i (fun _ => True) w s -> ofs s !! i = Some no_files.
Proof.
  intros (l & Hl & Hn & H). rewrite Hl. f_equal. apply list_eq_same_length with (n := Z.to_nat NOFILE); [by unfold no_files; rewrite repeat_length|done|].
  intros j a b Hj Ha Hb. rewrite H in Ha by done. rewrite no_files_lookup in Hb by done. congruence.
Qed.

(** The descriptors that fork has still to copy are free in the child. *)
Definition copying (p np k : nat) : assertion := fun w s =>
  w = Some p /\ (~ gone_at s np /\ unused_desc np (fun j => (k <= j)%nat) w s).
Lemma lasting_copying p np k : lasting (copying p np k).
Proof. intros w s s' E G (H1 & H2 & H3). split_and!; [done|auto|by eapply lasting_unused_desc]. Qed.
#[export] Hint Resolve lasting_copying : quiet.
Lemma fork_file_tri {b} x p np i : near b 0 x -> (i < Z.to_nat NOFILE)%nat -> tri b (with_acct x (copying p np i))
  (x ← gets (get_proc p);
   match nth i (p_ofile x) None with
   | Some f => g ← filedup f; upd_proc np (fun y => set_p_ofile (<[i := Some g]> (p_ofile y)) y)
   | None => mret tt
   end) (fun _ => with_acct x (copying p np (S i))).
Proof.
  intros Hx Hi. tlocal. destruct (nth i (p_ofile a) None) as [f|].
  - eapply tri_bind; [apply (filedup_tri x (copying p np i) f), lasting_about; auto with quiet|intros g]. apply upd_ofile_tri.
    + intros w s (_ & _ & _ & _ & (l & Hl & _)). by eapply lookup_lt_Some.
    + intros w s s' (-> & Ha & Hw & Hg & Hf) Hm. split.
      * eapply (moved_acct _ _ _ _ None); try done; [|intros h; cbn; unfold plus; lia].
        destruct Hf as (l & Hl & Hn & HD). exists l. split; [done|]. by apply HD.
      * split; [done|]. split; [by rewrite (mv_gone _ _ _ _ _ Hm)|]. eapply moved_free; [done|done|]. intros j Hj. right. lia.
  - apply tri_ret. intros w s (Ha & Hw & Hg & (l & Hl & Hn & HD)). split; [done|]. split_and!; [done|done|]. exists l. split_and!; [done|done|].
    intros j Hj. apply HD. lia.
Qed.

Lemma fork_sound : sound fork.
Proof.
  intros x. unfold fork. eapply tri_bind; [apply tri_myproc_idx|intros p].
  eapply tri_bind; [eapply tri_pre; [apply (allocproc_tri x (fun w _ => w = Some p)); auto with quiet|by intros w s [[H _] Hw]]|intros [np|]].
  2: { apply tri_ret. by intros w s H. }
  tlocal. eapply tri_bind; [apply tri_pass; [quiet|auto with quiet..]|intros r]. destruct (r <? 0).
  { eapply tri_bind; [eapply tri_pre; [apply (freeproc_tri x np), near_refl|by intros w s [Ha [_ [Hs _]]]]|intros ?]. tlocal. by apply tri_ret. }
  do 3 (eapply tri_bind; [apply tri_pass; [quiet|auto with quiet..]|intros ?]).
  eapply tri_bind; [eapply tri_pre; [apply (forM_files (fun i => with_acct x (copying p np i)))|]|intros ?].
  - intros i Hi. by apply fork_file_tri; [apply near_refl|].
  - intros w s [Ha [Hw [[_ Hs] Hg]]]. split; [done|]. split_and!; [done|done|]. exists no_files. split_and!; [done|by unfold no_files; rewrite repeat_length|].
    intros j _. apply no_files_lookup.
  - eapply tri_weaken; [apply (tri_pass x (copying p np (Z.to_nat NOFILE))); [quiet|auto with quiet..]|intros w s H; exact H|].
    intros ? w s [H _]. by split.
Qed.

(** exit has closed the descriptors below [k]. *)
Definition closing (p k : nat) : assertion := fun w s => w = Some p /\ unused_desc p (fun j => (j < k)%nat) w s.
Lemma lasting_closing p k : lasting (closing p k).
Proof. apply lasting_and; auto with quiet. Qed.
#[export] Hint Resolve lasting_closing : quiet.
Lemma exit_file_tri x p fd : (fd < Z.to_nat NOFILE)%nat -> tri x (with_acct x (closing p fd))
  (x ← gets (get_proc p);
   match nth fd (p_ofile x) None with
   | Some f => _ ← fileclose f; upd_proc p (fun y => set_p_ofile (<[fd := None]> (p_ofile y)) y)
   | None => mret tt
   end) (fun _ => with_acct x (closing p (S fd))).
Proof.
  intros Hi. eapply tri_bind; [apply tri_gets|intros y]. destruct (nth fd (p_ofile y) None) as [f|] eqn:E.
  - set (R := fun w s => closing p fd w s /\ desc p fd (Some f) s).
    assert (HR : lasting R) by (apply lasting_and; [auto with quiet|]; intros w s s' Eo _ (l & H); exists l; by rewrite Eo).
    eapply tri_bind; [eapply tri_pre; [apply (fileclose_tri x R f); [done|]|]|intros ?].
    + apply (safe_own _ p fd). intros w s [[Hw _] Hd]. by split.
    + intros w s [[Ha Hc] ->]. split; [done|]. split; [done|]. by apply get_proc_desc.
    + apply upd_ofile_tri; [intros w s (_ & _ & (l & Hl & _)); by eapply lookup_lt_Some|].
      intros w s s' (Ha & [Hw Hf] & Hd) Hm. split.
      * destruct (running_proc _ _ _ _ Ha Hw) as (_ & _ & _ & _ & Hg). eapply moved_acct; try done. intros g. cbn. unfold minus. lia.
      * split; [done|]. eapply moved_free; [done|done|]. intros j Hj. destruct (decide (j = fd)); [by left|right; split; [done|lia]].
  - apply tri_ret. intros w s [[Ha [Hw (l & Hl & Hn & HD)]] ->]. split; [done|]. split; [done|]. exists l. split_and!; [done|done|].
    intros j Hj Hlt. destruct (decide (j = fd)) as [->|]; [|apply HD; [lia|done]].
    destruct (running_proc _ _ _ _ Ha Hw) as (q & Hq & Eq & _). rewrite Eq in E. assert (l = p_ofile q) as -> by (apply ofs_proc in Hq; congruence).
    destruct (lookup_lt_is_Some_2 (p_ofile q) fd) as [o Ho]; [lia|]. rewrite (nth_lookup_Some _ _ _ _ Ho) in E. by rewrite Ho, E.
Qed.

(** The end of exit: the process, without files, becomes a zombie. *)
Definition ending (p : nat) : assertion := fun w s => w = Some p /\ ofs s !! p = Some no_files.
Lemma lasting_ending p : lasting (ending p).
Proof. intros w s s' E _ [H1 H2]. split; [done|by rewrite E]. Qed.
#[export] Hint Resolve lasting_ending : quiet.
Lemma zombie_tri {b} x p f : near b 0 x -> (forall y, p_ofile (f y) = p_ofile y) ->
  tri b (with_acct x (ending p)) (upd_proc p f) (fun _ => parked b).
Proof.
  intros Hx Hf c s [Ha [Hw Hn]]. assert (Hp : (p < length (k_proc s))%nat).
  { apply lookup_lt_Some in Hn. unfold ofs in Hn. by rewrite length_fmap in Hn. }
  destruct (upd_proc_at p f c s Hp) as (q & Hq & c' & -> & ->). set (s' := set_k_proc _ s).
  assert (E : ofs s' = ofs s).
  { unfold ofs, s'. cbn. rewrite list_fmap_insert, Hf. apply list_insert_id. by rewrite list_lookup_fmap, Hq. }
  assert (G : forall j, p <> j -> gone_at s' j -> gone_at s j).
  { intros j Hj (r & Hr & Hg). exists r. split; [|done]. unfold s' in Hr. cbn in Hr. by rewrite list_lookup_insert_ne in Hr. }
  destruct Hx as (H & Hl & Ex). assert (H = []) as -> by (apply nil_length_inv; lia). pose proof Ha as [_ _ H3 H4 _]. split.
  - exists (held []). split; [left; exists []; split_and!; [cbn; lia|done|done]|]. intros g. rewrite E. change (fref s' g) with (fref s g). by rewrite H3, Ex.
  - intros j Hj. rewrite E. destruct (decide (p = j)) as [<-|Hne]; [done|auto].
Qed.

Lemma exit_sound status : sound (exit status).
Proof.
  intros x. unfold exit. eapply tri_bind; [apply tri_myproc_idx|intros p]. tlocal. case_bool_decide; [by intros c s|].
  eapply tri_bind; [eapply tri_pre; [apply (forM_files (fun i => with_acct x (closing p i)))|]|intros ?].
  - intros fd Hfd. by apply exit_file_tri.
  - intros w s [[Ha _] Hw]. split; [done|]. split; [done|]. destruct (running_proc _ _ _ _ Ha Hw) as (q & Hq & _ & Hn & _).
    exists (p_ofile q). split_and!; [by apply ofs_proc|done|lia].
  - eapply tri_pre; [|intros w s [Ha [Hw Hf]]; assert (He : with_acct x (ending p) w s); [|exact He]].
    + do 9 (eapply tri_bind; [apply tri_pass; [quiet|auto with quiet..]|intros ?]). tlocal.
      eapply tri_bind; [apply zombie_tri; [apply near_refl|done]|intros ?]. tlocal.
      eapply tri_bind; [apply tri_quiet; [auto with quiet|intros w s s'; apply framed_parked|done]|by intros ? c s].
    + split; [done|]. split; [done|]. apply (free_all p w). destruct Hf as (l & Hl & Hn & HD). exists l. split_and!; [done|done|]. intros j _ Hj. by apply HD.
Qed.

Lemma wait_scan_sound l p addr havekids : sound (wait_scan l p addr havekids).
Proof.
  revert havekids. induction l as [|np l IH]; intros havekids x; cbn [wait_scan]; [by apply tri_ret|].
  tlocal. case_bool_decide; [|apply IH]. tlocal. eapply tri_bind; [apply tri_gets|intros y]. case_bool_decide as E.
  2: { tlocal. eapply tri_pre; [apply IH|by intros w s [H' _]]. }
  eapply tri_pre; [|intros w s [[Ha _] Hy]; assert (Hs : with_acct x (spare np) w s); [|exact Hs]].
  - tlocal. eapply tri_bind; [apply tri_pass; [quiet|auto with quiet..]|intros r]. destruct (r <? 0).
    + do 2 tlocal. apply tri_ret. intros w s [Ha _]. by split.
    + eapply tri_bind; [apply freeproc_tri, near_refl|intros ?]. do 2 tlocal. by apply tri_ret.
  - split; [done|]. eapply gone_spare; [done|]. subst y. eapply get_proc_gone; [exact E|done|].
    destruct (decide (np < length (k_proc s))%nat) as [|Hge]; [done|]. unfold get_proc in E. by rewrite nth_overflow in E by lia.
Qed.
Lemma wait_sound addr : sound (wait addr).
Proof.
  unfold wait. repeat (apply sound_bind; [first [apply wait_scan_sound | apply sound_quiet, quiet_local; auto with quiet]|intros ?]).
  case_match; apply sound_quiet; quiet.
Qed.

(** ** Traps *)

Lemma syscalls_sound kl : Forall (fun o => match o with Some f => sound f | None => True end) (syscalls kl).
Proof.
  assert (He : sound sys_exit) by (apply sound_bind; [apply sound_quiet; quiet|intros ?; apply sound_bind; [apply exit_sound|intros ?; apply sound_quiet; quiet]]).
  assert (Hf : sound sys_fork) by (apply sound_bind; [apply fork_sound|intros ?; apply sound_quiet; quiet]).
  assert (Hw : sound sys_wait) by (apply sound_bind; [apply sound_quiet; quiet|intros ?; apply sound_bind; [apply wait_sound|intros ?; apply sound_quiet; quiet]]).
  unfold syscalls. change (repeat None 22) with (replicate 22 (@None (M kst Z))). cbn [syscalls_init foldl].
  repeat (apply Forall_insert; [|first [exact He | exact Hf | exact Hw | apply sys_pipe_sound | apply sys_dup_sound | apply sys_open_sound
    | apply sys_close_sound | apply sound_quiet; solve [apply quiet_sys_write | auto with quiet]]]).
  by apply Forall_replicate.
Qed.

Lemma syscall_sound kl : sound (syscall kl).
Proof.
  unfold syscall. apply sound_bind; [apply sound_quiet; quiet|intros p]. apply sound_bind; [apply sound_quiet; quiet|intros a7]. cbv zeta.
  destruct (if _ && _ then _ else None) as [f|] eqn:E; [|apply sound_quiet; quiet].
  apply sound_bind; [|intros r; apply sound_quiet; quiet]. destruct (_ && _); [|done].
  pose proof (proj1 (Forall_forall _ _) (syscalls_sound kl)) as H.
  destruct (nth_in_or_default (Z.to_nat (s32 a7)) (syscalls kl) None) as [Hin|Hd]; [|congruence].
  apply list_elem_of_In in Hin. rewrite E in Hin. exact (H _ Hin).
Qed.

(** Interrupts. *)
Lemma kept_free_chain_loop i fuel : kept (free_chain_loop i fuel).
Proof. revert i. induction fuel as [|fuel IH]; intros; cbn [free_chain_loop]; unfold free_desc; kept. Qed.
#[export] Hint Resolve kept_free_chain_loop : kept.
Lemma kept_intr_loop fuel : kept (intr_loop fuel).
Proof. induction fuel as [|fuel IH]; cbn [intr_loop]; unfold free_chain; kept. Qed.
#[export] Hint Resolve kept_intr_loop : kept.
Lemma kept_virtio_disk_intr : kept virtio_disk_intr.
Proof. unfold virtio_disk_intr, Rd, Wr. kept. Qed.
#[export] Hint Resolve kept_virtio_disk_intr : kept.

Lemma quiet_procdump : quiet procdump.
Proof. unfold procdump. quiet. Qed.
Lemma quiet_kill_line fuel : quiet (kill_line fuel).
Proof. induction fuel as [|fuel IH]; cbn [kill_line]; quiet. Qed.
#[export] Hint Resolve quiet_procdump quiet_kill_line : quiet.
Lemma quiet_consoleintr c : quiet (consoleintr c).
Proof. unfold consoleintr. quiet. Qed.
#[export] Hint Resolve quiet_consoleintr : quiet.
Lemma quiet_uartintr_loop fuel : quiet (uartintr_loop fuel).
Proof. induction fuel as [|fuel IH]; cbn [uartintr_loop]; quiet. Qed.
#[export] Hint Resolve quiet_uartintr_loop : quiet.
Lemma quiet_uartintr : quiet uartintr.
Proof. unfold uartintr. quiet. Qed.
Lemma quiet_clockintr : quiet clockintr.
Proof. unfold clockintr. quiet. Qed.
Lemma quiet_w_csr r v : quiet (w_csr r v).
Proof. unfold w_csr. quiet. Qed.
Lemma quiet_r_csr r : quiet (r_csr r).
Proof. unfold r_csr. quiet. Qed.
Lemma quiet_plic_claim : quiet plic_claim.
Proof. unfold plic_claim. quiet. Qed.
Lemma quiet_plic_complete irq : quiet (plic_complete irq).
Proof. unfold plic_complete, mmio_write. quiet. Qed.
#[export] Hint Resolve quiet_uartintr quiet_clockintr quiet_w_csr quiet_r_csr quiet_plic_claim quiet_plic_complete : quiet.
Lemma quiet_devintr : quiet devintr.
Proof. unfold devintr. quiet. Qed.
Lemma quiet_yield : quiet yield.
Proof. unfold yield. quiet. Qed.
Lemma quiet_usertrapret : quiet usertrapret.
Proof. unfold usertrapret. quiet. Qed.
#[export] Hint Resolve quiet_devintr quiet_yield quiet_usertrapret : quiet.

Ltac sound :=
  repeat first
    [ apply syscall_sound
    | apply exit_sound
    | apply sound_quiet; solve [quiet]
    | apply sound_bind; [|intros ?]
    | match goal with |- sound (when ?b _) => destruct b; cbn [when] end
    | match goal with |- sound (match ?x with _ => _ end) => destruct x end ].
Lemma usertrap_sound kl : sound (usertrap kl).
Proof. unfold usertrap. sound. Qed.
Lemma kerneltrap_sound : sound kerneltrap.
Proof. unfold kerneltrap. sound. Qed.

(** Where the kernel stops handling a trap. *)
Definition in_order {A} (x : nat -> Z) (r : res kst A) : Prop :=
  match r with
  | Ok _ c s => acct x (who c) s
  | Blocked _ c s => parked x (who c) s
  | _ => True
  end.

(** C9: A trap, from user space (a system call or an interrupt) or from the
    kernel, keeps the file table in order: when the handler returns, the
    reference count of every file is again the number of descriptors that
    refer to it plus what the other calls in progress hold, and a process that
    is gone has no open file.  Where the handler sleeps instead, the counts
    are exact, too, with what the sleeping call itself holds: at most two files
    that it allocated and has not installed, or one reference less for a
    descriptor of its own that it is closing; and a process that has exited
    holds nothing. *)
Theorem open_files_counted kl x c s : acct x (who c) s ->
  in_order x (usertrap kl c s) /\ in_order x (kerneltrap c s).
Proof.
  intros Ha. pose proof (usertrap_sound kl x c s (conj Ha I)) as H. pose proof (kerneltrap_sound x c s (conj Ha I)) as H'. unfold in_order.
  split; [destruct (usertrap kl c s)|destruct (kerneltrap c s)]; try done; [by destruct H|by destruct H'].
Qed.

(** *** Example: a call of pipe that fails *)

(** The first process of [exk_kst] calls pipe; its page table is empty, so the
    descriptors cannot be stored and both files are closed again. *)
Definition ex_trap_kst : kst :=
  set_k_csr (fun r => if decide (r = Scause) then 8 else 0)
    (set_k_fs (mkFsst (fs_sb exk_fs) (fs_itable exk_fs) (fs_log exk_fs)
                 (mkKmem (km_end exk_kmem) (km_freelist exk_kmem) (store64 exk_mem TF_a7 SYS_pipe))) exk_kst).
Definition is_ok {S A} (r : res S A) : bool := match r with Ok _ _ _ => true | _ => false end.

Lemma ex_acct : acct (fun _ => 0) (who exk_core) ex_trap_kst.
Proof.
  assert (E : ofs ex_trap_kst = repeat no_files 64) by reflexivity. split.
  - intros i [= <-]. split; [rewrite E; cbn; lia|]. intros (p & [= <-] & Hg). discriminate.
  - rewrite E. apply Forall_forall. intros l Hl. apply list_elem_of_In, repeat_spec in Hl as ->. reflexivity.
  - intros f. rewrite E. unfold fref, get_file. change (k_ftable ex_trap_kst) with (repeat file0 100). by rewrite nth_repeat.
  - intros i (p & Hp & _). apply ofs_proc in Hp. rewrite Hp, E in *. apply list_elem_of_lookup_2, list_elem_of_In, repeat_spec in Hp. by rewrite Hp.
  - by rewrite E, repeat_length.
Qed.
Lemma ex_trap_returns : is_ok (usertrap (fun _ => false) exk_core ex_trap_kst) = true.
Proof. vm_compute. reflexivity. Qed.

Lemma open_files_counted_witness : exists a c' s',
  usertrap (fun _ => false) exk_core ex_trap_kst = Ok a c' s' /\ acct (fun _ => 0) (who c') s'.
Proof.
  pose proof (proj1 (open_files_counted (fun _ => false) (fun _ => 0) exk_core ex_trap_kst ex_acct)) as H.
  pose proof ex_trap_returns as Hr. destruct (usertrap (fun _ => false) exk_core ex_trap_kst) as [a c' s'|?|?|?|? ? ?|]; try discriminate.
  by exists a, c', s'.
Defined.
