(* ===== verification/Boot.v ===== *)
(** * Booting: kernel/start.c and kernel/main.c *)

From Stdlib Require Import ZArith Lia.
From stdpp Require Import base gmap list numbers strings.
From S2P Require Import Prelude Riscv Core Spinlock Kstring Kalloc Vm Sleeplock Bio Log Pipe Fs Uart Virtio Kst Sched Printf Console File Proc Trap.
Local Open Scope Z_scope.

(** riscv.h *)
Definition MSTATUS_MPP_MASK : Z := Z.shiftl 3 11.
Definition MSTATUS_MPP_S : Z := Z.shiftl 1 11.
Definition MSTATUS_MIE : Z := Z.shiftl 1 3.
Definition SIE_SEIE : Z := Z.shiftl 1 9.
Definition SIE_STIE : Z := Z.shiftl 1 5.
Definition SIE_SSIE : Z := Z.shiftl 1 1.
Definition MIE_MTIE : Z := Z.shiftl 1 7.

Definition w_tp (id : Z) (c : core) : core :=
  mkCore id (c_sstatus c) (c_noff c) (c_intena c) (c_proc c) (c_locks c) (c_woken c) (c_slocks c).

(** Reading CLINT_MTIME is reading [Time]. *)
Definition timerinit : M kst unit :=
  id ← r_csr Mhartid;
  let id := s32 id in
  let interval := 1000000 in
  now ← r_csr Time;
  _ ← mmio_write (CLINT_MTIMECMP id) (u64 (now + interval));
  s ← get;
  let scratch := sy_timer_scratch (k_syms s) + 40 * id in
  _ ← upd_kmem (fun m => store64 m (scratch + 8 * 3) (CLINT_MTIMECMP id));
  _ ← upd_kmem (fun m => store64 m (scratch + 8 * 4) interval);
  _ ← w_csr Mscratch scratch;
  _ ← w_csr Mtvec (sy_timervec (k_syms s));
  x ← r_csr Mstatus;
  _ ← w_csr Mstatus (Z.lor x MSTATUS_MIE);
  x ← r_csr Mie;
  w_csr Mie (Z.lor x MIE_MTIE).

(** Up to the mret instruction. *)
Definition start : M kst unit :=
  x ← r_csr Mstatus;
  let x := Z.land x (Z.lnot MSTATUS_MPP_MASK) in
  let x := Z.lor x MSTATUS_MPP_S in
  _ ← w_csr Mstatus x;
  s ← get;
  _ ← w_csr Mepc (sy_main (k_syms s));
  _ ← w_csr Satp 0;
  _ ← w_csr Medeleg 0xffff;
  _ ← w_csr Mideleg 0xffff;
  x ← r_csr Sie;
  _ ← w_csr Sie (Z.lor (Z.lor (Z.lor x SIE_SEIE) SIE_STIE) SIE_SSIE);
  _ ← w_csr Pmpaddr0 0x3fffffffffffff;
  _ ← w_csr Pmpcfg0 0xf;
  _ ← timerinit;
  id ← r_csr Mhartid;
  modifyc (w_tp (s32 id)).

(** Up to the call of scheduler(); [false] is another turn of the loop that
    waits for [started]. *)
Definition main : M kst bool :=
  c ← getc;
  if cpuid c =? 0 then
    _ ← consoleinit;
    _ ← printfinit;
    _ ← printf [NL] [];
    _ ← printf (str "xv6 kernel is booting" ++ [NL]) [];
    _ ← printf [NL] [];
    _ ← lift kl_kmem kinit;
    _ ← kvminit;
    _ ← kvminithart;
    _ ← procinit;
    _ ← trapinit;
    _ ← trapinithart;
    _ ← plicinit;
    _ ← plicinithart;
    _ ← lift kl_log (bio binit);
    _ ← lift kl_fs iinit;
    _ ← fileinit;
    s ← get;
    _ ← lift kl_vdisk (virtio_disk_init (sy_disk_pages (k_syms s)));
    _ ← userinit;
    _ ← modify (set_k_started 1);
    mret true
  else
    started ← gets k_started;
    if started =? 0 then mret false else
    _ ← printf (str "hart %d starting" ++ [NL]) [PInt (cpuid c)];
    _ ← kvminithart;
    _ ← trapinithart;
    _ ← plicinithart;
    mret true.
