(* ===== verification/User.v ===== *)
(** * User programs: system calls as seen from user space, user/ulib.c and user/printf.c

    A user program runs against an environment that answers its system calls:
    the bytes the coming reads of a descriptor give (in pieces of any size),
    the files that exist, and how much of each write is accepted.  Strings are
    lists of bytes; the end of the list is the terminating NUL. *)

From Stdlib Require Import ZArith Lia.
From stdpp Require Import base gmap list numbers strings.
From S2P Require Import Prelude Printf.
Local Open Scope Z_scope.

(** ** System calls *)

Inductive chunk : Type :=
| Data (l : list Z)      (* bytes that are there at once *)
| ReadErr.               (* a read that fails *)

Record os : Type := mkOs {
  os_fds : gmap Z (list chunk);          (* open descriptors *)
  os_files : gmap (list Z) (list chunk); (* what reading a file gives *)
  os_short : list Z;                     (* results of the coming writes; all that was asked for, when empty *)
  os_out : list (Z * list Z)             (* the writes, oldest first *)
}.

Inductive ures (A : Type) : Type :=
| Ret (a : A) (s : os)
| Exited (code : Z) (s : os)
| Stuck (what : string)          (* undefined behaviour *)
| OutOfFuel.
Arguments Ret {A} a s.
Arguments Exited {A} code s.
Arguments Stuck {A} what.
Arguments OutOfFuel {A}.

Definition U (A : Type) : Type := os -> ures A.
#[export] Instance U_ret : MRet U := fun A a s => Ret a s.
#[export] Instance U_bind : MBind U := fun A B f m s =>
  match m s with
  | Ret a s' => f a s'
  | Exited code s' => Exited code s'
  | Stuck w => Stuck w
  | OutOfFuel => OutOfFuel
  end.

Definition u_exit {A} (code : Z) : U A := fun s => Exited code s.
Definition out_of_fuel {A} : U A := fun _ => OutOfFuel.
Definition stuck {A} (w : string) : U A := fun _ => Stuck w.

(** [read(fd, p, n)]: the result and the bytes stored at [p]. *)
Definition u_read (fd n : Z) : U (Z * list Z) := fun s =>
  match os_fds s !! fd with
  | None => Ret (-1, []) s
  | Some [] => Ret (0, []) s
  | Some (ReadErr :: cs) => Ret (-1, []) (mkOs (<[fd := cs]> (os_fds s)) (os_files s) (os_short s) (os_out s))
  | Some (Data l :: cs) =>
      let d := take (Z.to_nat n) l in
      let l := drop (Z.to_nat n) l in
      Ret (Z.of_nat (length d), d)
        (mkOs (<[fd := if decide (l = []) then cs else Data l :: cs]> (os_fds s)) (os_files s) (os_short s) (os_out s))
  end.

Definition u_write (fd : Z) (l : list Z) : U Z := fun s =>
  let n := match os_short s with [] => Z.of_nat (length l) | r :: _ => r end in
  Ret n (mkOs (os_fds s) (os_files s) (tail (os_short s)) (os_out s ++ [(fd, l)])).

(** The lowest descriptor that is not in use. *)
Fixpoint lowest_fd (m : gmap Z (list chunk)) (fd : Z) (fuel : nat) : Z :=
  match fuel with
  | O => -1
  | S fuel => match m !! fd with None => fd | Some _ => lowest_fd m (fd + 1) fuel end
  end.

Definition u_open (path : list Z) (mode : Z) : U Z := fun s =>
  match os_files s !! path with
  | None => Ret (-1) s
  | Some cs =>
      let fd := lowest_fd (os_fds s) 0 16 in
      if fd <? 0 then Ret (-1) s
      else Ret fd (mkOs (<[fd := cs]> (os_fds s)) (os_files s) (os_short s) (os_out s))
  end.

Definition u_close (fd : Z) : U Z := fun s =>
  match os_fds s !! fd with
  | None => Ret (-1) s
  | Some _ => Ret 0 (mkOs (delete fd (os_fds s)) (os_files s) (os_short s) (os_out s))
  end.

(** ** ulib.c *)

(** [strchr(s, c)] as an offset from [s]. *)
Fixpoint strchr (s : list Z) (c : Z) : option nat :=
  match s with
  | [] => None
  | x :: s => if x =? 0 then None else if x =? c then Some 0%nat else S <$> strchr s c
  end.

(** A string that starts at the head of the list. *)
Fixpoint cstring (s : list Z) : list Z :=
  match s with
  | [] => []
  | x :: s => if x =? 0 then [] else x :: cstring s
  end.

(** The bytes [strcpy] stores, the NUL included. *)
Fixpoint u_strcpy (t : list Z) : list Z :=
  match t with
  | [] => [0]
  | x :: t => if x =? 0 then [0] else x :: u_strcpy t
  end.

Definition u_hd (s : list Z) : Z := match s with [] => 0 | x :: _ => x end.

Fixpoint u_strcmp (p q : list Z) : Z :=
  match p with
  | [] => 0 - u8 (u_hd q)
  | x :: p => if negb (x =? 0) && (x =? u_hd q) then u_strcmp p (tail q) else u8 x - u8 (u_hd q)
  end.

Fixpoint u_strlen_from (s : list Z) (n : Z) : Z :=
  match s with
  | [] => n
  | x :: s => if x =? 0 then n else u_strlen_from s (n + 1)
  end.
Definition u_strlen (s : list Z) : Z := u32 (u_strlen_from s 0).

(** [n = n*10 + *s++ - '0'] on int *)
Fixpoint atoi_from (s : list Z) (n : Z) : Z :=
  match s with
  | [] => n
  | x :: s => if (48 <=? x) && (x <=? 57) then atoi_from s (s32 (n * 10 + x - 48)) else n
  end.
Definition atoi (s : list Z) : Z := atoi_from s 0.

(** The first difference, as [char] (unsigned on RISC-V). *)
Fixpoint u_memcmp (p1 p2 : list Z) (n : nat) : Z :=
  match n with
  | O => 0
  | S n => if negb (u_hd p1 =? u_hd p2) then u_hd p1 - u_hd p2 else u_memcmp (tail p1) (tail p2) n
  end.

(** The loop of [gets]: the bytes stored before the NUL. *)
Fixpoint gets_loop (room : nat) (acc : list Z) : U (list Z) :=
  match room with
  | O => mret acc
  | S room =>
      r ← u_read 0 1;
      if r.1 <? 1 then mret acc
      else
        let c := u_hd r.2 in
        if (c =? 10) || (c =? 13) then mret (acc ++ [c]) else gets_loop room (acc ++ [c])
  end.
(** [gets(buf, max)]: the bytes stored, the NUL included. *)
Definition u_gets (max : Z) : U (list Z) :=
  l ← gets_loop (Z.to_nat (max - 1)) [];
  mret (l ++ [0]).

(** [memmove] within the array [buf], between offsets. *)
Fixpoint u_move_fwd (buf : list Z) (dst src n : nat) : list Z :=
  match n with
  | O => buf
  | S n => u_move_fwd (<[dst := nth src buf 0]> buf) (S dst) (S src) n
  end.
(** [dst] and [src] have had [n] added. *)
Fixpoint u_move_bwd (buf : list Z) (dst src n : nat) : list Z :=
  match n with
  | O => buf
  | S n => u_move_bwd (<[(dst + n)%nat := nth (src + n) buf 0]> buf) dst src n
  end.
Definition u_memmove (buf : list Z) (dst src n : nat) : list Z :=
  if (dst <? src)%nat then u_move_fwd buf dst src n else u_move_bwd buf dst src n.

(** ** printf.c *)

Definition putc (fd c : Z) : U unit := _ ← u_write fd [u8 c]; mret tt.

Fixpoint puts (fd : Z) (l : list Z) : U unit :=
  match l with
  | [] => mret tt
  | c :: l => _ ← putc fd c; puts fd l
  end.

Definition udigit (d : Z) : Z := nth (Z.to_nat d) (str "0123456789ABCDEF") 0.

(** The do loop: the digits stored in [buf], the lowest first. *)
Fixpoint u_digits (x base : Z) (fuel : nat) : list Z :=
  match fuel with
  | O => []
  | S fuel => udigit (x mod base) :: (if x / base =? 0 then [] else u_digits (x / base) base fuel)
  end.

Definition u_int_chars (xx base : Z) (sgn : bool) : list Z :=
  let neg := sgn && (xx <? 0) in
  let x := if neg then u32 (- xx) else u32 xx in
  let buf := u_digits x base 32 in
  rev (if neg then buf ++ [45] else buf).

Definition u_printint (fd xx base : Z) (sgn : bool) : U unit := puts fd (u_int_chars xx base sgn).

Fixpoint u_ptr_loop (fd x : Z) (k : nat) : U unit :=
  match k with
  | O => mret tt
  | S k => _ ← putc fd (udigit (Z.shiftr x 60)); u_ptr_loop fd (u64 (Z.shiftl x 4)) k
  end.
Definition u_printptr (fd x : Z) : U unit :=
  _ ← putc fd 48;
  _ ← putc fd 120;
  u_ptr_loop fd x 16.

(** What [va_arg] gives for a number, and for a string. *)
Definition arg_num (a : parg) : option Z := match a with PInt z | PPtr z => Some z | PStr _ => None end.

(** The for loop of [vprintf]; [state] is true after a percent sign. *)
Fixpoint vprintf (fd : Z) (fmt : list Z) (state : bool) (ap : list parg) : U unit :=
  match fmt with
  | [] => mret tt
  | c :: fmt =>
      if c =? 0 then mret tt else
      if negb state then
        if c =? 37 then vprintf fd fmt true ap
        else _ ← putc fd c; vprintf fd fmt false ap
      else if (c =? 100) || (c =? 108) || (c =? 120) || (c =? 112) || (c =? 99) then  (* d l x p c *)
        match ap with
        | a :: ap =>
            match arg_num a with
            | None => stuck "va_arg"
            | Some z =>
                _ ← (if c =? 100 then u_printint fd (s32 z) 10 true
                     else if c =? 108 then u_printint fd (s32 z) 10 false
                     else if c =? 120 then u_printint fd (s32 z) 16 false
                     else if c =? 112 then u_printptr fd (u64 z)
                     else putc fd (u32 z));
                vprintf fd fmt false ap
            end
        | [] => stuck "va_arg"
        end
      else if c =? 115 then                                                          (* s *)
        match ap with
        | PStr s :: ap =>
            _ ← puts fd (cstring (default (str "(null)") s));
            vprintf fd fmt false ap
        | _ => stuck "va_arg"
        end
      else if c =? 37 then _ ← putc fd c; vprintf fd fmt false ap
      else _ ← putc fd 37; _ ← putc fd c; vprintf fd fmt false ap
  end.
Definition fprintf (fd : Z) (fmt : list Z) (ap : list parg) : U unit := vprintf fd fmt false ap.
Definition u_printf (fmt : list Z) (ap : list parg) : U unit := vprintf 1 fmt false ap.

(** ** Equations *)

Lemma ubind_ret {A B} (m : U A) (f : A -> U B) s a s' : m s = Ret a s' -> (m ≫= f) s = f a s'.
Proof. unfold mbind, U_bind. by intros ->. Qed.

Lemma strchr_app a b c : c <> 0 -> Forall (fun x => x <> 0 /\ x <> c) a -> strchr (a ++ b) c = (fun k => length a + k)%nat <$> strchr b c.
Proof.
  intros Hc. induction 1 as [|x a [H1 H2] _ IH]; cbn [app strchr length].
  - by destruct (strchr b c).
  - bfalse (x =? 0). bfalse (x =? c). rewrite IH. by destruct (strchr b c).
Qed.

Lemma strchr_None l c : Forall (fun x => x <> 0) l -> strchr l c = None <-> c ∉ l.
Proof.
  induction 1 as [|x l Hx _ IH]; cbn [strchr]; [split; [intros _; apply not_elem_of_nil|done]|].
  bfalse (x =? 0). rewrite not_elem_of_cons, <-IH. destruct (Z.eqb_spec x c) as [->|Hne]; [naive_solver|].
  destruct (strchr l c); cbn; naive_solver.
Qed.

Lemma cstring_app a b : Forall (fun x => x <> 0) a -> cstring (a ++ 0 :: b) = a.
Proof. induction 1 as [|x a H _ IH]; cbn [app cstring]; [done|]. bfalse (x =? 0). by rewrite IH. Qed.

Lemma u_move_fwd_lookup n buf dst src i :
  (dst <= src)%nat -> (src + n <= length buf)%nat ->
  u_move_fwd buf dst src n !! i = if decide (dst <= i < dst + n)%nat then buf !! (src + (i - dst))%nat else buf !! i.
Proof.
  revert buf dst src. induction n as [|n IH]; intros buf dst src Hd Hl; cbn [u_move_fwd].
  - case_decide; (done || lia).
  - rewrite IH by (rewrite ?length_insert; lia). destruct (decide (i = dst)) as [->|Hne].
    + rewrite decide_False, decide_True by lia. rewrite list_lookup_insert_eq by lia.
      rewrite Nat.sub_diag, Nat.add_0_r. symmetry. apply nth_Some. lia.
    + rewrite !list_lookup_insert_ne by lia. repeat case_decide; try lia; [|done]. f_equal. lia.
Qed.

Lemma u_move_bwd_lookup n buf dst src i :
  (src <= dst)%nat -> (dst + n <= length buf)%nat ->
  u_move_bwd buf dst src n !! i = if decide (dst <= i < dst + n)%nat then buf !! (src + (i - dst))%nat else buf !! i.
Proof.
  revert buf. induction n as [|n IH]; intros buf Hd Hl; cbn [u_move_bwd].
  - case_decide; (done || lia).
  - rewrite IH by (rewrite ?length_insert; lia). destruct (decide (i = dst + n)%nat) as [->|Hne].
    + rewrite decide_False, decide_True by lia. rewrite list_lookup_insert_eq by lia.
      replace (src + (dst + n - dst))%nat with (src + n)%nat by lia. symmetry. apply nth_Some. lia.
    + repeat case_decide; try lia; by rewrite list_lookup_insert_ne by lia.
Qed.

(** The array after [memmove], for every overlap. *)
Lemma u_memmove_spec buf dst src n :
  (src + n <= length buf)%nat -> (dst + n <= length buf)%nat -> u_memmove buf dst src n = splice dst (slice src n buf) buf.
Proof.
  intros Hs Hd. apply list_eq. intros i. rewrite splice_lookup by (rewrite slice_length; lia).
  rewrite slice_length, slice_lookup by lia. unfold u_memmove.
  destruct (Nat.ltb_spec dst src); [rewrite u_move_fwd_lookup by lia|rewrite u_move_bwd_lookup by lia];
    repeat case_decide; (done || lia).
Qed.

(** ** Input and output *)

(** The bytes that the coming reads can give. *)
Definition chunk_bytes (c : chunk) : list Z := match c with Data l => l | ReadErr => [] end.
Definition pending (fd : Z) (s : os) : list Z := default [] (os_fds s !! fd) ≫= chunk_bytes.

(** A piece of input with bytes that satisfy [P]. *)
Definition good_chunk (P : Z -> Prop) (c : chunk) : Prop :=
  match c with Data l => l <> [] /\ Forall P l | ReadErr => False end.

Lemma read_good P fd n cs s :
  os_fds s !! fd = Some cs -> Forall (good_chunk P) cs -> 0 <= n ->
  exists d cs', u_read fd n s = Ret (Z.of_nat (length d), d) (mkOs (<[fd := cs']> (os_fds s)) (os_files s) (os_short s) (os_out s)) /\
    cs ≫= chunk_bytes = d ++ (cs' ≫= chunk_bytes) /\ Forall (good_chunk P) cs' /\ Forall P d /\
    (length d <= Z.to_nat n)%nat /\ (d = [] -> n = 0 \/ cs = []).
Proof.
  intros Hfd Hcs Hn. unfold u_read. rewrite Hfd. destruct cs as [|[l|] cs]; [| |by apply list.Forall_cons in Hcs as [[] _]].
  - exists [], []. split_and!; try done; [|simpl; lia|by right]. destruct s as [f fs sh o]. cbn in *. by rewrite insert_id.
  - apply list.Forall_cons in Hcs as [[Hl H0] Hcs]. exists (take (Z.to_nat n) l), (if decide (drop (Z.to_nat n) l = []) then cs else Data (drop (Z.to_nat n) l) :: cs).
    split; [done|]. split_and!.
    + cbn [mbind list_bind chunk_bytes]. case_decide as Hd; [rewrite <-(take_drop (Z.to_nat n) l) at 1; by rewrite Hd, app_nil_r|].
      cbn [mbind list_bind chunk_bytes]. by rewrite app_assoc, take_drop.
    + case_decide; [done|]. constructor; [|done]. split; [done|]. by apply Forall_drop.
    + by apply Forall_take.
    + rewrite length_take. lia.
    + intros E. left. assert (length (take (Z.to_nat n) l) = 0%nat) as E' by (by rewrite E). rewrite length_take in E'.
      destruct l; [done|]. simpl in E'. lia.
Qed.

(** [ws] was written, and nothing else happened. *)
Definition printed (s : os) (ws : list (Z * list Z)) (s' : os) : Prop :=
  os_fds s' = os_fds s /\ os_files s' = os_files s /\ os_out s' = os_out s ++ ws.

Lemma printed_nil s : printed s [] s.
Proof. split_and!; [done|done|by rewrite app_nil_r]. Qed.
Lemma printed_trans s1 w1 s2 w2 s3 : printed s1 w1 s2 -> printed s2 w2 s3 -> printed s1 (w1 ++ w2) s3.
Proof. intros (A1 & A2 & A3) (B1 & B2 & B3). split_and!; [congruence|congruence|]. by rewrite B3, A3, app_assoc. Qed.

Lemma write_printed fd l s : exists n s', u_write fd l s = Ret n s' /\ printed s [(fd, l)] s'.
Proof. eexists _, _. split; [reflexivity|]. by split_and!. Qed.

(** ** What printf prints *)

(** The characters of a format with its arguments; [None] when they do not fit
    together, and for %p. *)
Fixpoint format (fmt : list Z) (state : bool) (ap : list parg) : option (list Z) :=
  match fmt with
  | [] => Some []
  | c :: fmt =>
      if c =? 0 then Some [] else
      if negb state then
        if c =? 37 then format fmt true ap else cons c <$> format fmt false ap
      else if (c =? 100) || (c =? 108) || (c =? 120) || (c =? 99) then
        match ap with
        | a :: ap =>
            z ← arg_num a;
            app (if c =? 100 then u_int_chars (s32 z) 10 true
                 else if c =? 108 then u_int_chars (s32 z) 10 false
                 else if c =? 120 then u_int_chars (s32 z) 16 false
                 else [u32 z]) <$> format fmt false ap
        | [] => None
        end
      else if c =? 115 then
        match ap with
        | PStr s :: ap => app (cstring (default (str "(null)") s)) <$> format fmt false ap
        | _ => None
        end
      else if c =? 112 then None
      else if c =? 37 then cons c <$> format fmt false ap
      else (fun l => 37 :: c :: l) <$> format fmt false ap
  end.

Definition char_writes (fd : Z) (l : list Z) : list (Z * list Z) := (fun c => (fd, [u8 c])) <$> l.

Lemma putc_printed fd c s : exists s', putc fd c s = Ret tt s' /\ printed s (char_writes fd [c]) s'.
Proof. destruct (write_printed fd [u8 c] s) as (n & s' & Hw & Hp). exists s'. split; [|done]. unfold putc. by rewrite (ubind_ret _ _ _ _ _ Hw). Qed.

Lemma puts_printed fd l s : exists s', puts fd l s = Ret tt s' /\ printed s (char_writes fd l) s'.
Proof.
  revert s. induction l as [|c l IH]; intros s; cbn [puts]; [exists s; split; [done|apply printed_nil]|].
  destruct (putc_printed fd c s) as (s1 & H1 & P1). destruct (IH s1) as (s2 & H2 & P2). exists s2. split.
  - by rewrite (ubind_ret _ _ _ _ _ H1).
  - exact (printed_trans _ _ _ _ _ P1 P2).
Qed.

Lemma char_writes_app fd l1 l2 : char_writes fd (l1 ++ l2) = char_writes fd l1 ++ char_writes fd l2.
Proof. apply fmap_app. Qed.

(** printing [l] first and the rest after it *)
Lemma print_then {A} fd l rest (m : U A) (k : A -> U unit) s :
  (exists a s1, m s = Ret a s1 /\ printed s (char_writes fd l) s1 /\
     exists s2, k a s1 = Ret tt s2 /\ printed s1 (char_writes fd rest) s2) ->
  exists s', (m ≫= k) s = Ret tt s' /\ printed s (char_writes fd (l ++ rest)) s'.
Proof.
  intros (a & s1 & H1 & P1 & s2 & H2 & P2). exists s2. split; [by rewrite (ubind_ret _ _ _ _ _ H1)|].
  rewrite char_writes_app. by eapply printed_trans.
Qed.

Lemma vprintf_format fd fmt state ap l s :
  format fmt state ap = Some l -> exists s', vprintf fd fmt state ap s = Ret tt s' /\ printed s (char_writes fd l) s'.
Proof.
  revert state ap l s. induction fmt as [|c fmt IH]; intros state ap l s; cbn [format vprintf].
  { intros [= <-]. exists s. split; [done|apply printed_nil]. }
  destruct (c =? 0); [intros [= <-]; exists s; split; [done|apply printed_nil]|].
  assert (Hstep : forall l1 l2 ap' (m : U unit), (forall s, exists s1, m s = Ret tt s1 /\ printed s (char_writes fd l1) s1) ->
    format fmt false ap' = Some l2 -> exists s', (m ≫= fun _ => vprintf fd fmt false ap') s = Ret tt s' /\ printed s (char_writes fd (l1 ++ l2)) s').
  { intros l1 l2 ap' m Hm Hf. apply print_then. destruct (Hm s) as (s1 & H1 & P1). exists tt, s1. split_and!; try done. by apply IH. }
  destruct (negb state).
  { destruct (c =? 37); [apply IH|]. intros (l2 & Hf & ->)%fmap_Some.
    apply (Hstep [c] l2 ap (putc fd c)); [apply putc_printed|done]. }
  destruct (c =? 100) eqn:E1; [|destruct (c =? 108) eqn:E2; [|destruct (c =? 120) eqn:E3; [|destruct (c =? 99) eqn:E4]]]; cbn [orb].
  1-4: destruct ap as [|a ap]; [done|]; destruct (arg_num a) as [z|] eqn:Ea; cbn [mbind option_bind]; [|done];
    intros (l2 & Hf & ->)%fmap_Some; rewrite ?orb_true_r; cbn [orb]; apply Hstep; [|done].
  - apply puts_printed.
  - apply puts_printed.
  - apply puts_printed.
  - destruct (Z.eqb_spec c 112) as [->|]; [done|]. apply putc_printed.
  - destruct (Z.eqb_spec c 112) as [->|E5]; cbn [orb]; [done|]. destruct (c =? 115).
    + destruct ap as [|[z|z|x] ap]; try done. intros (l2 & Hf & ->)%fmap_Some. apply Hstep; [apply puts_printed|done].
    + destruct (c =? 37).
      * intros (l2 & Hf & ->)%fmap_Some. apply (Hstep [c] l2 ap (putc fd c)); [apply putc_printed|done].
      * intros (l2 & Hf & ->)%fmap_Some. apply (print_then fd [37] (c :: l2)). destruct (putc_printed fd 37 s) as (s1 & H1 & P1).
        exists tt, s1. split_and!; try done. apply (print_then fd [c] l2). destruct (putc_printed fd c s1) as (s2 & H2 & P2).
        exists tt, s2. split_and!; try done. by apply IH.
Qed.
