(* ===== verification/Grep.v ===== *)
(** * The grep program: user/grep.c

    The matcher is proved equivalent to a declarative meaning of patterns, and
    the loop that cuts the input into lines to the list of lines of the input,
    however the reads cut it into pieces. *)

From Stdlib Require Import ZArith Lia.
From stdpp Require Import base gmap list numbers strings.
From S2P Require Import Prelude Printf User.
Local Open Scope Z_scope.

Definition CARET : Z := 94.
Definition STAR : Z := 42.
Definition DOLLAR : Z := 36.
Definition DOT : Z := 46.
Definition NEWLINE : Z := 10.

(** ** The matcher *)

(** [matchstar(c, re, text)], with the calls [matchhere(re, ...)] as a parameter. *)
Fixpoint matchstar (here : list Z -> bool) (c : Z) (text : list Z) : bool :=
  here text ||
  match text with
  | [] => false
  | x :: text => if (x =? c) || (c =? DOT) then matchstar here c text else false
  end.

Fixpoint matchhere (re : list Z) (text : list Z) {struct re} : bool :=
  match re with
  | [] => true
  | c :: re' =>
      match re' with
      | s :: re2 =>
          if s =? STAR then matchstar (matchhere re2) c text else
          match text with
          | x :: text' => if (c =? DOT) || (c =? x) then matchhere re' text' else false
          | [] => false
          end
      | [] =>
          if c =? DOLLAR then match text with [] => true | _ => false end else
          match text with
          | x :: text' => if (c =? DOT) || (c =? x) then matchhere re' text' else false
          | [] => false
          end
      end
  end.

Fixpoint match_anywhere (re text : list Z) : bool :=
  matchhere re text || match text with [] => false | _ :: text => match_anywhere re text end.

Definition re_match (re text : list Z) : bool :=
  match re with
  | c :: re' => if c =? CARET then matchhere re' text else match_anywhere re text
  | [] => match_anywhere re text
  end.

(** ** What a pattern means *)

(** [x] is matched by the pattern character [c]. *)
Definition ok_char (c x : Z) : Prop := c = DOT \/ c = x.

(** [here re text]: the pattern matches at the beginning of the text. *)
Inductive here : list Z -> list Z -> Prop :=
| here_nil text : here [] text
| here_star c re a text : Forall (ok_char c) a -> here re text -> here (c :: STAR :: re) (a ++ text)
| here_end : here [DOLLAR] []
| here_char c re x text :
    hd_error re <> Some STAR -> (re = [] -> c <> DOLLAR) -> ok_char c x -> here re text -> here (c :: re) (x :: text).

Lemma matchstar_spec (f : list Z -> bool) (P : list Z -> Prop) c text :
  (forall t, f t = true <-> P t) ->
  matchstar f c text = true <-> exists a b, text = a ++ b /\ Forall (ok_char c) a /\ P b.
Proof.
  intros Hf. induction text as [|x text IH]; cbn [matchstar]; rewrite orb_true_iff, Hf.
  - split.
    + intros [H|H]; [|done]. by exists [], [].
    + intros (a & b & E & _ & H). symmetry in E. apply app_nil in E as [-> ->]. by left.
  - split.
    + intros [H|H]; [by exists [], (x :: text)|]. destruct ((x =? c) || (c =? DOT)) eqn:E; [|done].
      apply IH in H as (a & b & -> & Ha & Hb). exists (x :: a), b. split_and!; try done. constructor; [|done].
      unfold ok_char. lia.
    + intros (a & b & E & Ha & Hb). destruct a as [|y a]; simpl in E; [left; by subst|]. injection E as <- ->. right.
      apply list.Forall_cons in Ha as [Hx Ha]. unfold ok_char in Hx.
      replace ((x =? c) || (c =? DOT)) with true by (symmetry; lia). apply IH. eauto.
Qed.

Lemma char_step c x : (c =? DOT) || (c =? x) = true <-> ok_char c x.
Proof. unfold ok_char. lia. Qed.

(** One character of a pattern that is not starred. *)
Lemma here_char_iff c re text :
  hd_error re <> Some STAR -> (re = [] -> c <> DOLLAR) ->
  here (c :: re) text <-> exists x t, text = x :: t /\ ok_char c x /\ here re t.
Proof.
  intros Hs Hd. split.
  - inversion 1 as [|c' re' a t Ha Hh| |c' re' x t _ _ Hx Hh]; subst; [done|by destruct (Hd eq_refl)|eauto].
  - intros (x & t & -> & Hx & Hh). by constructor.
Qed.

Lemma matchhere_cons c s re text :
  matchhere (c :: s :: re) text =
    if s =? STAR then matchstar (matchhere re) c text else
    match text with
    | x :: text' => if (c =? DOT) || (c =? x) then matchhere (s :: re) text' else false
    | [] => false
    end.
Proof. done. Qed.

Lemma matchhere_spec re text : matchhere re text = true <-> here re text.
Proof.
  remember (length re) as n eqn:En. revert re text En. induction (lt_wf n) as [n _ IH]. intros re text ->.
  destruct re as [|c re']; [split; [constructor|done]|]. destruct re' as [|s re2].
  - cbn [matchhere]. destruct (Z.eqb_spec c DOLLAR) as [->|Hc].
    + destruct text; split; try done; [constructor|]. inversion 1 as [| | |c' re' x t Hs Hd Hx Hh]; subst. by destruct Hd.
    + rewrite here_char_iff by done. destruct text as [|x t]; [split; [done|by intros (? & ? & [=] & _)]|].
      destruct ((c =? DOT) || (c =? x)) eqn:E.
      * split; [|done]. intros _. apply char_step in E. exists x, t. split_and!; [done|done|constructor].
      * split; [done|]. intros (? & ? & [= <- <-] & Hx & _). apply char_step in Hx. congruence.
  - rewrite matchhere_cons. destruct (Z.eqb_spec s STAR) as [->|Hs].
    + rewrite (matchstar_spec _ (here re2)) by (intros t; by apply (IH (length re2)); [simpl; lia|]).
      split.
      * intros (a & b & -> & Ha & Hb). by constructor.
      * inversion 1; subst; [eauto|]. by simpl in *.
    + rewrite here_char_iff by (simpl; congruence). destruct text as [|x t]; [split; [done|by intros (? & ? & [=] & _)]|].
      destruct ((c =? DOT) || (c =? x)) eqn:E.
      * rewrite (IH (length (s :: re2))) by (simpl; lia || done). apply char_step in E. split; [eauto|].
        by intros (? & ? & [= <- <-] & _ & Hh).
      * split; [done|]. intros (? & ? & [= <- <-] & Hx & _). apply char_step in Hx. congruence.
Qed.

Lemma match_anywhere_spec re text : match_anywhere re text = true <-> exists a b, text = a ++ b /\ here re b.
Proof.
  induction text as [|x text IH]; cbn [match_anywhere]; rewrite orb_true_iff, matchhere_spec.
  - split; [intros [H|H]; [by exists [], []|done]|]. intros (a & b & E & H). symmetry in E. apply app_nil in E as [-> ->]. by left.
  - rewrite IH. split.
    + intros [H|(a & b & -> & H)]; [by exists [], (x :: text)|by exists (x :: a), b].
    + intros ([|y a] & b & E & H); simpl in E; [left; by subst|]. injection E as <- ->. right. eauto.
Qed.

(** The meaning of a whole pattern: a leading caret ties it to the beginning
    of the line, otherwise it may match anywhere. *)
Definition re_matches (re text : list Z) : Prop :=
  match re with
  | c :: re' => if decide (c = CARET) then here re' text else exists a b, text = a ++ b /\ here re b
  | [] => True
  end.

(** C30: The matcher accepts exactly the lines the pattern describes. *)
Theorem match_spec re text : re_match re text = true <-> re_matches re text.
Proof.
  unfold re_match, re_matches. destruct re as [|c re'].
  - rewrite match_anywhere_spec. split; [done|]. intros _. exists [], text. split; [done|constructor].
  - destruct (Z.eqb_spec c CARET), (decide (c = CARET)); try done; [apply matchhere_spec|apply match_anywhere_spec].
Qed.

(** ** The loop over the input *)

Definition GREPBUF : Z := 1024.

(** The inner while loop: the buffer and [p] (an offset) at its end. *)
Fixpoint grep_lines (pattern buf : list Z) (p : nat) (fuel : nat) : U (list Z * nat) :=
  match strchr (drop p buf) NEWLINE with
  | None => mret (buf, p)
  | Some k =>
      match fuel with
      | O => out_of_fuel
      | S fuel =>
          let q := (p + k)%nat in
          let buf := <[q := 0]> buf in
          if re_match pattern (cstring (drop p buf)) then
            let buf := <[q := NEWLINE]> buf in
            _ ← u_write 1 (slice p (q + 1 - p) buf);
            grep_lines pattern buf (q + 1) fuel
          else grep_lines pattern buf (q + 1) fuel
      end
  end.

(** The outer while loop.  The buffer is static: it keeps its contents. *)
Fixpoint grep_loop (pattern : list Z) (fd : Z) (buf : list Z) (m : nat) (fuel : nat) : U (list Z) :=
  r ← u_read fd (GREPBUF - Z.of_nat m - 1);
  if 0 <? r.1 then
    match fuel with
    | O => out_of_fuel
    | S fuel =>
        let buf := splice m r.2 buf in
        let m := (m + Z.to_nat r.1)%nat in
        let buf := <[m := 0]> buf in
        x ← grep_lines pattern buf 0 (length buf);
        let buf := x.1 in
        let p := x.2 in
        if (0 <? m)%nat then grep_loop pattern fd (u_memmove buf 0 p (m - p)) (m - p) fuel
        else grep_loop pattern fd buf m fuel
    end
  else mret buf.

Definition grep (pattern : list Z) (fd : Z) (buf : list Z) : U (list Z) := fun s =>
  grep_loop pattern fd buf 0 (length (pending fd s)) s.

(** ** Lines *)

(** The complete lines, and what follows the last newline. *)
Fixpoint split_lines (l : list Z) : list (list Z) * list Z :=
  match l with
  | [] => ([], [])
  | x :: l =>
      let y := split_lines l in
      if x =? NEWLINE then ([] :: y.1, y.2)
      else match y.1 with
           | [] => ([], x :: y.2)
           | a :: ls => ((x :: a) :: ls, y.2)
           end
  end.

Lemma split_none a : NEWLINE ∉ a -> split_lines a = ([], a).
Proof.
  induction a as [|x a IH]; [done|]. intros [Hx Ha]%not_elem_of_cons. cbn [split_lines]. rewrite IH by done.
  bfalse (x =? NEWLINE). done.
Qed.

Lemma split_line a b : NEWLINE ∉ a -> split_lines (a ++ NEWLINE :: b) = (a :: (split_lines b).1, (split_lines b).2).
Proof.
  induction a as [|x a IH]; [done|]. intros [Hx Ha]%not_elem_of_cons. cbn [app split_lines]. rewrite IH by done.
  bfalse (x =? NEWLINE). done.
Qed.

(** The first line of a text, if it has one. *)
Lemma line_cases (l : list Z) : NEWLINE ∉ l \/ exists a b, l = a ++ NEWLINE :: b /\ NEWLINE ∉ a.
Proof.
  induction l as [|x l IH]; [left; apply not_elem_of_nil|]. destruct (decide (x = NEWLINE)) as [->|Hx].
  - right. exists [], l. split; [done|apply not_elem_of_nil].
  - destruct IH as [H|(a & b & -> & Ha)]; [left; by apply not_elem_of_cons|].
    right. exists (x :: a), b. split; [done|]. by apply not_elem_of_cons.
Qed.

Lemma split_rest_nonl l : NEWLINE ∉ (split_lines l).2.
Proof.
  remember (length l) as n eqn:En. revert l En. induction (lt_wf n) as [n _ IH]. intros l ->.
  destruct (line_cases l) as [H|(a & b & -> & Ha)]; [by rewrite split_none|].
  rewrite split_line by done. apply (IH (length b)); [|done]. rewrite length_app. simpl. lia.
Qed.

(** Lines of a text that arrives in two parts. *)
Lemma split_app l1 l2 :
  split_lines (l1 ++ l2) =
    let y := split_lines l1 in let z := split_lines (y.2 ++ l2) in (y.1 ++ z.1, z.2).
Proof.
  remember (length l1) as n eqn:En. revert l1 En. induction (lt_wf n) as [n _ IH]. intros l1 ->.
  destruct (line_cases l1) as [H|(a & b & -> & Ha)].
  - rewrite (split_none l1) by done. cbn. by destruct (split_lines (l1 ++ l2)).
  - rewrite <-app_assoc. cbn [app]. rewrite !split_line by done. cbn zeta. cbn [fst snd].
    rewrite (IH (length b)) by (rewrite ?length_app; simpl; lia || done). done.
Qed.

Lemma split_length l : Forall (fun a => (length a < length l)%nat) (split_lines l).1 /\
  length l = (length (split_lines l).2 + sum_list_with (fun a => S (length a)) (split_lines l).1)%nat.
Proof.
  remember (length l) as n eqn:En. revert l En. induction (lt_wf n) as [n _ IH]. intros l ->.
  destruct (line_cases l) as [H|(a & b & -> & Ha)]; [rewrite split_none by done; split; [constructor|simpl; lia]|].
  rewrite split_line by done. rewrite length_app. cbn [length].
  destruct (IH (length b)) with (l := b) as [H1 H2]; [rewrite length_app; simpl; lia|done|]. split.
  - constructor; [lia|]. eapply Forall_impl; [exact H1|]. cbn. intros; lia.
  - cbn [sum_list_with snd fst]. lia.
Qed.

(** ** What grep prints *)

Definition selected (pattern : list Z) (ls : list (list Z)) : list (Z * list Z) :=
  (fun a => (1, a ++ [NEWLINE])) <$> filter (fun a => re_match pattern a = true) ls.

Lemma selected_cons pattern a ls :
  selected pattern (a :: ls) = (if re_match pattern a then [(1, a ++ [NEWLINE])] else []) ++ selected pattern ls.
Proof. unfold selected. rewrite filter_cons. destruct (re_match pattern a); done. Qed.

Lemma selected_app pattern l1 l2 : selected pattern (l1 ++ l2) = selected pattern l1 ++ selected pattern l2.
Proof. unfold selected. by rewrite filter_app, fmap_app. Qed.

Lemma nonzero_app (a b : list Z) : Forall (fun x => x <> 0) (a ++ b) <-> Forall (fun x => x <> 0) a /\ Forall (fun x => x <> 0) b.
Proof. apply Forall_app. Qed.

Lemma strchr_none a rest : NEWLINE ∉ a -> Forall (fun x => x <> 0) a -> strchr (a ++ 0 :: rest) NEWLINE = None.
Proof.
  intros Hn H0. rewrite strchr_app; [done|done|]. apply Forall_forall. intros x Hx. rewrite Forall_forall in H0.
  split; [auto|]. by intros ->.
Qed.

Lemma strchr_line a b : NEWLINE ∉ a -> Forall (fun x => x <> 0) a -> strchr (a ++ NEWLINE :: b) NEWLINE = Some (length a).
Proof.
  intros Hn H0. rewrite strchr_app; [|done|].
  - cbn. by rewrite Nat.add_0_r.
  - apply Forall_forall. intros x Hx. rewrite Forall_forall in H0. split; [auto|]. by intros ->.
Qed.

(** A line in the buffer, while its newline is replaced by a NUL. *)
Lemma line_in_buf buf p (a b : list Z) :
  drop p buf = a ++ NEWLINE :: b -> Forall (fun x => x <> 0) a ->
  let q := (p + length a)%nat in let buf1 := <[q := 0]> buf in let buf2 := <[q := NEWLINE]> buf1 in
  cstring (drop p buf1) = a /\ slice p (q + 1 - p) buf2 = a ++ [NEWLINE] /\
  drop (q + 1) buf1 = b /\ drop (q + 1) buf2 = b /\ length buf1 = length buf /\ length buf2 = length buf.
Proof.
  intros Hd H0 q buf1 buf2.
  assert (Hp : (p + length a < length buf)%nat).
  { assert (H : length (drop p buf) = length (a ++ NEWLINE :: b)) by (by rewrite Hd). rewrite length_drop, length_app in H. simpl in H. lia. }
  assert (E1 : drop p buf1 = a ++ 0 :: b).
  { unfold buf1. rewrite drop_insert_ge by lia. replace (q - p)%nat with (length a + 0)%nat by lia. rewrite Hd.
    by rewrite insert_app_r. }
  assert (E2 : drop p buf2 = a ++ NEWLINE :: b).
  { unfold buf2. rewrite drop_insert_ge by lia. replace (q - p)%nat with (length a + 0)%nat by lia. rewrite E1. by rewrite insert_app_r. }
  assert (El1 : length buf1 = length buf) by (unfold buf1; by rewrite length_insert).
  assert (El2 : length buf2 = length buf) by (unfold buf2; by rewrite length_insert).
  assert (Hdrop : forall (l : list Z) x, drop p l = a ++ x :: b -> drop (q + 1) l = b).
  { intros l x E. replace (q + 1)%nat with (p + (length a + 1))%nat by lia. rewrite <-drop_drop, E.
    rewrite drop_app_ge by lia. by replace (length a + 1 - length a)%nat with 1%nat by lia. }
  split_and!; eauto.
  - rewrite E1. by apply cstring_app.
  - unfold slice. rewrite E2. replace (q + 1 - p)%nat with (length a + 1)%nat by lia. rewrite take_app_ge by lia.
    by replace (length a + 1 - length a)%nat with 1%nat by lia.
Qed.

Lemma grep_lines_ok pattern fuel buf p txt rest s :
  drop p buf = txt ++ 0 :: rest -> Forall (fun x => x <> 0) txt -> (length txt <= fuel)%nat ->
  let y := split_lines txt in
  exists buf' s', grep_lines pattern buf p fuel s = Ret (buf', (p + (length txt - length y.2))%nat) s' /\
    printed s (selected pattern y.1) s' /\ length buf' = length buf /\
    drop (p + (length txt - length y.2)) buf' = y.2 ++ 0 :: rest.
Proof.
  revert buf p txt s. induction fuel as [|fuel IH]; intros buf p txt s Hd H0 Hl.
  - destruct txt; [|simpl in Hl; lia]. cbn [grep_lines]. rewrite Hd. cbn. rewrite Nat.add_0_r. exists buf, s. split_and!; try done. apply printed_nil.
  - cbn [grep_lines]. rewrite Hd. destruct (line_cases txt) as [Hn|(a & b & -> & Ha)].
    + rewrite strchr_none, split_none by done. cbn [fst snd]. rewrite Nat.sub_diag, Nat.add_0_r. exists buf, s.
      split_and!; try done. apply printed_nil.
    + rewrite <-app_assoc in Hd. cbn [app] in Hd. rewrite <-app_assoc. cbn [app].
      apply nonzero_app in H0 as [H0a [_ H0b]%list.Forall_cons].
      rewrite strchr_line, split_line by done. cbn [fst snd]. rewrite length_app in Hl. cbn [length] in Hl.
      destruct (line_in_buf buf p a (b ++ 0 :: rest) Hd H0a) as (E1 & E2 & E3 & E4 & E5 & E6). cbn zeta. rewrite E1, selected_cons.
      pose proof (proj2 (split_length b)) as Hlb.
      replace (p + (length (a ++ NEWLINE :: b) - length (split_lines b).2))%nat
        with (p + length a + 1 + (length b - length (split_lines b).2))%nat by (rewrite length_app; cbn [length]; lia).
      destruct (re_match pattern a).
      * destruct (write_printed 1 (slice p (p + length a + 1 - p) (<[(p + length a)%nat:=NEWLINE]> (<[(p + length a)%nat:=0]> buf))) s) as (n & s1 & Hw & Hp1).
        rewrite (ubind_ret _ _ _ _ _ Hw). rewrite E2 in Hp1.
        destruct (IH _ (p + length a + 1)%nat b s1 E4 H0b ltac:(lia)) as (buf' & s' & Hr & Hp2 & Hl2 & Hd2).
        exists buf', s'. split_and!; [exact Hr|by eapply printed_trans|congruence|done].
      * destruct (IH _ (p + length a + 1)%nat b s E3 H0b ltac:(lia)) as (buf' & s' & Hr & Hp2 & Hl2 & Hd2).
        exists buf', s'. split_and!; [exact Hr|done|congruence|done].
Qed.

(** grep stops at a line that does not fit into its buffer. *)
Fixpoint until_long (ls : list (list Z)) : list (list Z) :=
  match ls with
  | [] => []
  | a :: ls => if (length a <? 1023)%nat then a :: until_long ls else []
  end.

Lemma until_long_app l1 l2 : Forall (fun a => (length a < 1023)%nat) l1 -> until_long (l1 ++ l2) = l1 ++ until_long l2.
Proof.
  induction 1 as [|a l1 Ha _ IH]; [done|]. cbn [app until_long]. destruct (Nat.ltb_spec (length a) 1023); [|lia]. by rewrite IH.
Qed.

Lemma until_long_full r l : NEWLINE ∉ r -> (1023 <= length r)%nat -> until_long (split_lines (r ++ l)).1 = [].
Proof.
  intros Hn Hl. rewrite split_app, split_none by done. cbn zeta. cbn [fst snd app].
  destruct (line_cases l) as [H|(a & b & -> & Ha)].
  - rewrite split_none; [done|]. rewrite elem_of_app. tauto.
  - rewrite app_assoc, split_line by (rewrite elem_of_app; tauto). cbn [until_long fst].
    destruct (Nat.ltb_spec (length (r ++ a)) 1023) as [H|H]; [|done]. rewrite length_app in H. lia.
Qed.

(** Pieces of input without NUL bytes. *)
Definition text_chunk : chunk -> Prop := good_chunk (fun x => x <> 0).

(** The buffer after a read: what was left over, the new bytes, a NUL. *)
Lemma buf_after_read buf (r d : list Z) :
  length buf = 1024%nat -> take (length r) buf = r -> (length r + length d < 1024)%nat ->
  let buf1 := <[(length r + length d)%nat := 0]> (splice (length r) d buf) in
  buf1 = (r ++ d) ++ 0 :: drop (length r + length d + 1) buf /\ length buf1 = 1024%nat.
Proof.
  intros Hl Hr Hd buf1. assert (Hs : length (splice (length r) d buf) = 1024%nat) by (rewrite length_splice; lia).
  split; [|unfold buf1; by rewrite length_insert]. unfold buf1.
  rewrite insert_take_drop by lia. unfold splice. rewrite Hr, app_assoc.
  rewrite take_app_le by (rewrite length_app; lia). rewrite take_ge by (rewrite length_app; lia). f_equal. f_equal.
  rewrite drop_app_ge by (rewrite length_app; lia). rewrite length_app, drop_drop. f_equal. lia.
Qed.

Lemma grep_stop r cs : NEWLINE ∉ r -> (1023 <= length r)%nat \/ cs = [] ->
  until_long (split_lines (r ++ (cs ≫= chunk_bytes))).1 = [].
Proof. intros Hn [H| ->]; [by apply until_long_full|]. cbn. by rewrite app_nil_r, split_none. Qed.

Lemma split_nonzero l : Forall (fun x => x <> 0) l -> Forall (fun x => x <> 0) (split_lines l).2.
Proof.
  remember (length l) as n eqn:En. revert l En. induction (lt_wf n) as [n _ IH]. intros l -> H0.
  destruct (line_cases l) as [H|(a & b & -> & Ha)]; [by rewrite split_none|].
  rewrite split_line by done. apply Forall_app in H0 as [_ [_ H0]%list.Forall_cons].
  apply (IH (length b)); [rewrite length_app; simpl; lia|done|done].
Qed.

Lemma grep_loop_ok pattern fd fuel buf r cs s :
  length buf = 1024%nat -> take (length r) buf = r -> (length r <= 1023)%nat -> NEWLINE ∉ r -> Forall (fun x => x <> 0) r ->
  os_fds s !! fd = Some cs -> Forall text_chunk cs -> (length (cs ≫= chunk_bytes) <= fuel)%nat ->
  exists buf' s', grep_loop pattern fd buf (length r) fuel s = Ret buf' s' /\ length buf' = 1024%nat /\
    os_files s' = os_files s /\ (exists cs', os_fds s' = <[fd := cs']> (os_fds s)) /\
    os_out s' = os_out s ++ selected pattern (until_long (split_lines (r ++ (cs ≫= chunk_bytes))).1).
Proof.
  revert buf r cs s. induction fuel as [|fuel IH]; intros buf r cs s Hl Hr Hm Hn H0 Hfd Hcs Hf;
    cbn [grep_loop]; change GREPBUF with 1024;
    destruct (read_good (fun x => x <> 0) fd (1024 - Z.of_nat (length r) - 1) cs s Hfd Hcs ltac:(lia)) as (d & cs' & Hrd & Eb & Hcs' & Hd0 & Hdl & Hde);
    rewrite (ubind_ret _ _ _ _ _ Hrd); cbn [fst snd].
  all: destruct (Z.ltb_spec 0 (Z.of_nat (length d))) as [Hlt|Hge].
  1: rewrite Eb, length_app in Hf; lia.
  1, 3: eexists buf, _; split; [reflexivity|]; cbn [os_files os_fds os_out];
    assert (d = []) as Hd by (apply nil_length_inv; lia); rewrite (grep_stop r cs) by first [done | destruct (Hde Hd); [left; lia|by right]];
    split_and!; [done|done|by exists cs'|by rewrite app_nil_r].
  rewrite Nat2Z.id. destruct (buf_after_read buf r d Hl Hr ltac:(lia)) as [Eb1 Hl1]. cbn zeta.
  set (buf1 := <[(length r + length d)%nat:=0]> (splice (length r) d buf)) in *.
  set (s1 := mkOs _ _ _ _).
  assert (H1 : Forall (fun x => x <> 0) (r ++ d)) by (by apply Forall_app).
  destruct (grep_lines_ok pattern (length buf1) buf1 0 (r ++ d) (drop (length r + length d + 1) buf) s1) as (buf2 & s2 & Hg & Hp & Hl2 & Hd2);
    [by rewrite drop_0|done|rewrite length_app; lia|].
  rewrite (ubind_ret _ _ _ _ _ Hg). cbn [fst snd]. rewrite Nat.add_0_l in *.
  pose proof (split_length (r ++ d)) as [Hshort Hlen]. pose proof (split_rest_nonl (r ++ d)) as Hnl.
  set (y := split_lines (r ++ d)) in *. rewrite length_app in *.
  destruct (Nat.ltb_spec 0 (length r + length d)) as [_|]; [|lia].
  replace (length r + length d - (length r + length d - length y.2))%nat with (length y.2) by lia.
  rewrite u_memmove_spec by lia.
  assert (Es : slice (length r + length d - length y.2) (length y.2) buf2 = y.2).
  { unfold slice. rewrite Hd2, take_app_le by lia. by apply take_ge. }
  rewrite Es. destruct Hp as (P1 & P2 & P3). cbn [os_fds os_files os_out s1] in *.
  assert (Hy0 : Forall (fun x => x <> 0) y.2) by (apply (split_nonzero (r ++ d)); done).
  destruct (IH (splice 0 y.2 buf2) y.2 cs' s2) as (buf' & s' & Hrun & Hl' & Hfs & (cs2 & Hfds) & Hout).
  { rewrite length_splice; lia. }
  { unfold splice. rewrite take_0, app_nil_l, take_app_le by lia. by apply take_ge. }
  { lia. } { done. } { done. } { rewrite P1. by rewrite lookup_insert_eq. } { done. } { rewrite Eb, length_app in Hf. lia. }
  exists buf', s'. split; [exact Hrun|]. split_and!; [done|congruence|exists cs2; by rewrite Hfds, P1, insert_insert_eq|].
  rewrite Hout, P3, Eb, app_assoc, (split_app (r ++ d)). cbn zeta. fold y. cbn [fst]. rewrite until_long_app, selected_app, app_assoc; [done|].
  eapply Forall_impl; [exact Hshort|]. cbn. intros; lia.
Qed.

(** C29: grep prints, in their order, the lines of the input that match the
    pattern, however the input is cut into pieces by the reads: all the lines
    that end in a newline, up to the first one that is longer than 1022
    bytes. *)
Theorem grep_spec pattern fd buf cs s :
  length buf = 1024%nat -> os_fds s !! fd = Some cs -> Forall text_chunk cs ->
  exists buf' s', grep pattern fd buf s = Ret buf' s' /\
    os_files s' = os_files s /\ (exists cs', os_fds s' = <[fd := cs']> (os_fds s)) /\
    os_out s' = os_out s ++
      ((fun a => (1, a ++ [NEWLINE])) <$> filter (fun a => re_match pattern a = true) (until_long (split_lines (cs ≫= chunk_bytes)).1)).
Proof.
  intros Hl Hfd Hcs. unfold grep, pending. rewrite Hfd. cbn [default].
  destruct (grep_loop_ok pattern fd (length (cs ≫= chunk_bytes)) buf [] cs s) as (buf' & s' & H1 & _ & H2 & H3 & H4); try done.
  - simpl. lia.
  - apply not_elem_of_nil.
  - exists buf', s'. done.
Qed.

(** ** The program *)

Fixpoint grep_files (pattern : list Z) (buf : list Z) (files : list (list Z)) : U unit :=
  match files with
  | [] => u_exit 0
  | f :: files =>
      fd ← u_open f 0;
      if fd <? 0 then
        _ ← u_printf (str "grep: cannot open %s" ++ [NEWLINE]) [PStr (Some f)];
        u_exit 1
      else
      buf ← grep pattern fd buf;
      _ ← u_close fd;
      grep_files pattern buf files
  end.

Definition grep_main (argv : list (list Z)) : U unit :=
  let buf := repeat 0 (Z.to_nat GREPBUF) in
  match argv with
  | [] | [_] =>
      _ ← fprintf 2 (str "usage: grep pattern [file ...]" ++ [NEWLINE]) [];
      u_exit 1
  | [_; pattern] => _ ← grep pattern 0 buf; u_exit 0
  | _ :: pattern :: files => grep_files pattern buf files
  end.

(** ** An example: the pattern [^a.*c$] and input in three pieces *)

Definition ex_pattern : list Z := str "^a.*c$".
Definition ex_pieces : list chunk := [Data (str "ab"); Data (str "c" ++ [10] ++ str "xc" ++ [10] ++ str "ac"); Data ([10] ++ str "abc")].
Definition ex_os : os := mkOs {[ 0 := ex_pieces ]} ∅ [] [].

Lemma ex_text : Forall text_chunk ex_pieces.
Proof. repeat constructor; try discriminate; (apply Forall_forall; intros x Hx ->; by vm_compute in Hx) || idtac. Qed.

Lemma grep_spec_witness : exists buf' s', grep ex_pattern 0 (repeat 0 1024) ex_os = Ret buf' s' /\
  os_out s' = [(1, str "abc" ++ [10]); (1, str "ac" ++ [10])].
Proof.
  destruct (grep_spec ex_pattern 0 (repeat 0 1024) ex_pieces ex_os eq_refl eq_refl ex_text) as (buf' & s' & H1 & _ & _ & H2).
  exists buf', s'. split; [exact H1|]. rewrite H2. vm_compute. reflexivity.
Defined.
