(* ===== verification/Filters.v ===== *)
(** * Filters: user/cat.c, user/wc.c and user/echo.c *)

From Stdlib Require Import ZArith Lia.
From stdpp Require Import base gmap list numbers strings.
From S2P Require Import Prelude Printf User.
Local Open Scope Z_scope.

(** ** cat *)

Fixpoint cat_loop (fd : Z) (fuel : nat) : U unit :=
  r ← u_read fd 512;
  if 0 <? r.1 then
    match fuel with
    | O => out_of_fuel
    | S fuel =>
        n ← u_write 1 r.2;
        if negb (n =? r.1) then _ ← fprintf 2 (str "cat: write error" ++ [10]) []; u_exit 1
        else cat_loop fd fuel
    end
  else if r.1 <? 0 then _ ← fprintf 2 (str "cat: read error" ++ [10]) []; u_exit 1
  else mret tt.
Definition cat (fd : Z) : U unit := fun s => cat_loop fd (length (pending fd s)) s.

Fixpoint cat_files (files : list (list Z)) : U unit :=
  match files with
  | [] => u_exit 0
  | f :: files =>
      fd ← u_open f 0;
      if fd <? 0 then _ ← fprintf 2 (str "cat: cannot open %s" ++ [10]) [PStr (Some f)]; u_exit 1
      else
      _ ← cat fd;
      _ ← u_close fd;
      cat_files files
  end.
Definition cat_main (argv : list (list Z)) : U unit :=
  match argv with
  | [] | [_] => _ ← cat 0; u_exit 0
  | _ :: files => cat_files files
  end.

(** ** wc *)

Record counts : Type := mkCounts { wc_l : Z; wc_w : Z; wc_c : Z; wc_inword : bool }.

(** " \r\t\n\v" *)
Definition spaces : list Z := [32; 13; 9; 10; 11].

Definition wc_char (k : counts) (x : Z) : counts :=
  let c := s32 (wc_c k + 1) in
  let l := if x =? 10 then s32 (wc_l k + 1) else wc_l k in
  match strchr spaces x with
  | Some _ => mkCounts l (wc_w k) c false
  | None => if negb (wc_inword k) then mkCounts l (s32 (wc_w k + 1)) c true else mkCounts l (wc_w k) c (wc_inword k)
  end.

Fixpoint wc_loop (fd : Z) (k : counts) (fuel : nat) : U counts :=
  r ← u_read fd 512;
  if 0 <? r.1 then
    match fuel with
    | O => out_of_fuel
    | S fuel => wc_loop fd (foldl wc_char k r.2) fuel
    end
  else if r.1 <? 0 then _ ← u_printf (str "wc: read error" ++ [10]) []; u_exit 1
  else mret k.

Definition wc_format : list Z := str "%d %d %d %s" ++ [10].
Definition wc (fd : Z) (name : list Z) : U unit := fun s =>
  (k ← wc_loop fd (mkCounts 0 0 0 false) (length (pending fd s));
   u_printf wc_format [PInt (wc_l k); PInt (wc_w k); PInt (wc_c k); PStr (Some name)]) s.

Fixpoint wc_files (files : list (list Z)) : U unit :=
  match files with
  | [] => u_exit 0
  | f :: files =>
      fd ← u_open f 0;
      if fd <? 0 then _ ← u_printf (str "wc: cannot open %s" ++ [10]) [PStr (Some f)]; u_exit 1
      else
      _ ← wc fd f;
      _ ← u_close fd;
      wc_files files
  end.
Definition wc_main (argv : list (list Z)) : U unit :=
  match argv with
  | [] | [_] => _ ← wc 0 []; u_exit 0
  | _ :: files => wc_files files
  end.

(** ** echo *)

Fixpoint echo_args (args : list (list Z)) : U unit :=
  match args with
  | [] => u_exit 0
  | a :: args =>
      _ ← u_write 1 (take (Z.to_nat (u_strlen a)) a);
      _ ← u_write 1 (if decide (args = []) then [10] else [32]);
      echo_args args
  end.
Definition echo_main (argv : list (list Z)) : U unit := echo_args (tail argv).

(** ** cat copies its input *)

Definition any_chunk : chunk -> Prop := good_chunk (fun _ => True).

(** The bytes written to descriptor 1 by a list of writes. *)
Definition to_stdout (ws : list (Z * list Z)) : list Z := filter (fun w => w.1 = 1) ws ≫= snd.

Lemma to_stdout_app a b : to_stdout (a ++ b) = to_stdout a ++ to_stdout b.
Proof. unfold to_stdout. by rewrite filter_app, bind_app. Qed.

Lemma cat_loop_ok fd fuel cs s :
  os_fds s !! fd = Some cs -> Forall any_chunk cs -> os_short s = [] -> (length (cs ≫= chunk_bytes) <= fuel)%nat ->
  exists s' ws, cat_loop fd fuel s = Ret tt s' /\ (exists cs', os_fds s' = <[fd := cs']> (os_fds s)) /\ os_files s' = os_files s /\
    os_short s' = [] /\ os_out s' = os_out s ++ ws /\ to_stdout ws = cs ≫= chunk_bytes.
Proof.
  revert cs s. induction fuel as [|fuel IH]; intros cs s Hfd Hcs Hsh Hf; cbn [cat_loop];
    destruct (read_good _ fd 512 cs s Hfd Hcs ltac:(lia)) as (d & cs' & Hrd & Eb & Hcs' & _ & Hdl & Hde);
    rewrite (ubind_ret _ _ _ _ _ Hrd); cbn [fst snd]; rewrite Eb, ?length_app in Hf.
  all: destruct (Z.ltb_spec 0 (Z.of_nat (length d))) as [Hlt|Hge]; [try lia|].
  1, 3: assert (d = []) as -> by (apply nil_length_inv; lia); destruct (Hde eq_refl) as [?|Hcs0]; [lia|]; subst cs;
    bfalse (Z.of_nat (length (@nil Z)) <? 0); eexists _, []; split; [reflexivity|];
    cbn [os_fds os_files os_short os_out]; rewrite app_nil_r; split_and!; eauto.
  unfold u_write at 1. rewrite Hsh. unfold mbind at 1, U_bind at 1. rewrite Z.eqb_refl. cbn [negb os_fds os_files os_short os_out tail].
  set (s1 := mkOs _ _ _ _). destruct (IH cs' s1) as (s' & ws & Hr & (cs2 & H1) & H2 & H3 & H4 & H5); [by apply lookup_insert_eq|done|done|lia|].
  exists s', ((1, d) :: ws). split; [exact Hr|]. cbn [s1 os_fds os_files os_out] in *. rewrite Eb. split_and!; try done.
  - exists cs2. by rewrite H1, insert_insert_eq.
  - by rewrite H4, <-app_assoc.
  - change ((1, d) :: ws) with ([(1, d)] ++ ws). rewrite to_stdout_app, H5. f_equal. apply app_nil_r.
Qed.

(** When all writes are accepted, cat copies its input to its output. *)
Theorem cat_spec fd cs s :
  os_fds s !! fd = Some cs -> Forall any_chunk cs -> os_short s = [] ->
  exists s' ws, cat fd s = Ret tt s' /\ os_out s' = os_out s ++ ws /\ to_stdout ws = cs ≫= chunk_bytes.
Proof.
  intros Hfd Hcs Hsh. unfold cat, pending. rewrite Hfd. cbn [default].
  destruct (cat_loop_ok fd _ cs s Hfd Hcs Hsh (Nat.le_refl _)) as (s' & ws & H1 & _ & _ & _ & H2 & H3). eauto.
Qed.

(** ** wc counts *)

Definition space (x : Z) : Prop := x ∈ spaces.
#[global] Instance space_dec x : Decision (space x).
Proof. unfold space. apply _. Defined.

(** A word starts at a byte that is no space, after a space or at the beginning. *)
Definition word_start (l : list Z) (i : nat) : Prop :=
  ~ space (nth i l 0) /\ (i = 0%nat \/ space (nth (i - 1) l 0)).
#[global] Instance word_start_dec l i : Decision (word_start l i).
Proof. unfold word_start. apply _. Defined.

Definition lines (l : list Z) : Z := Z.of_nat (length (filter (fun x => x = 10) l)).
Definition words (l : list Z) : Z := Z.of_nat (length (filter (word_start l) (seq 0 (length l)))).
(** The last byte is part of a word. *)
Definition inside (l : list Z) : bool := match list.last l with Some x => negb (bool_decide (space x)) | None => false end.

Lemma strchr_spaces x : strchr spaces x = None <-> ~ space x.
Proof. apply strchr_None. by repeat constructor. Qed.

Lemma last_nth (l : list Z) : l <> [] -> list.last l = Some (nth (length l - 1) l 0).
Proof. intros Hl. rewrite last_lookup, <-Nat.sub_1_r. apply nth_Some. destruct l; [done|simpl; lia]. Qed.

Lemma filter_ext_in {A} (P Q : A -> Prop) `{!forall x, Decision (P x)} `{!forall x, Decision (Q x)} (l : list A) :
  (forall x, x ∈ l -> P x <-> Q x) -> filter P l = filter Q l.
Proof.
  induction l as [|x l IH]; intros HPQ; [done|]. rewrite !filter_cons. rewrite IH by (intros y Hy; apply HPQ; by right).
  specialize (HPQ x ltac:(by left)). repeat case_decide; tauto.
Qed.

Lemma words_snoc l x : words (l ++ [x]) = words l + (if decide (space x) then 0 else if inside l then 0 else 1).
Proof.
  unfold words. rewrite length_app, seq_app, filter_app, length_app. cbn [length seq].
  assert (filter (word_start (l ++ [x])) (seq 0 (length l)) = filter (word_start l) (seq 0 (length l))) as ->.
  { apply filter_ext_in. intros i Hi. apply elem_of_seq in Hi. unfold word_start. rewrite !app_nth1 by lia. done. }
  assert (Hn : nth (length l) (l ++ [x]) 0 = x) by (by rewrite app_nth2, Nat.sub_diag by lia).
  rewrite filter_cons, filter_nil. cbn [Nat.add].
  assert (word_start (l ++ [x]) (length l) <-> ~ space x /\ inside l = false) as Hw.
  { unfold word_start. rewrite Hn. unfold inside. destruct (decide (l = [])) as [->|Hl]; [cbn; tauto|].
    rewrite last_nth by done. rewrite app_nth1 by (destruct l; [done|simpl; lia]).
    rewrite negb_false_iff, bool_decide_eq_true. destruct l; [done|]. naive_solver. }
  destruct (decide (word_start (l ++ [x]) (length l))) as [H|H], (decide (space x)), (inside l) eqn:E; cbn [length]; try lia; exfalso; intuition congruence.
Qed.

Lemma lines_snoc l x : lines (l ++ [x]) = lines l + (if x =? 10 then 1 else 0).
Proof.
  unfold lines. rewrite filter_app, length_app, filter_cons, filter_nil. destruct (Z.eqb_spec x 10); case_decide; cbn; (lia || done).
Qed.

(** The counts of what has been read, as long as they fit an int. *)
Definition counted (l : list Z) : counts := mkCounts (lines l) (words l) (Z.of_nat (length l)) (inside l).

Lemma counts_le l : lines l <= Z.of_nat (length l) /\ words l <= Z.of_nat (length l).
Proof.
  unfold lines, words. pose proof (length_filter (fun x => x = 10) l). pose proof (length_filter (word_start l) (seq 0 (length l))) as Hw.
  rewrite length_seq in Hw. lia.
Qed.

Lemma wc_char_counted l x : Z.of_nat (length l) + 1 < 2 ^ 31 -> wc_char (counted l) x = counted (l ++ [x]).
Proof.
  intros Hl. pose proof (counts_le l) as [H1 H2]. unfold wc_char, counted. cbn [wc_l wc_w wc_c wc_inword].
  assert (0 <= lines l) by (unfold lines; lia). assert (0 <= words l) by (unfold words; lia).
  rewrite !s32_small by lia. rewrite lines_snoc, words_snoc, length_app. cbn [length].
  assert (inside (l ++ [x]) = negb (bool_decide (space x))) as -> by (unfold inside; by rewrite last_snoc).
  replace (Z.of_nat (length l + 1)) with (Z.of_nat (length l) + 1) by lia.
  destruct (strchr spaces x) eqn:E.
  - assert (space x) as Hs by (destruct (decide (space x)) as [|Hn]; [done|apply strchr_spaces in Hn; congruence]).
    rewrite decide_True, bool_decide_eq_true_2 by done. cbn [negb]. f_equal; [case_match; lia|lia].
  - apply strchr_spaces in E. rewrite decide_False, bool_decide_eq_false_2 by done. cbn [negb].
    destruct (inside l); cbn [negb]; f_equal; try (case_match; lia); lia.
Qed.

Lemma wc_fold l d : Z.of_nat (length l + length d) < 2 ^ 31 -> foldl wc_char (counted l) d = counted (l ++ d).
Proof.
  revert l. induction d as [|x d IH]; intros l Hl; cbn [foldl length] in *; [by rewrite app_nil_r|].
  rewrite wc_char_counted by lia. rewrite IH by (rewrite length_app; simpl; lia). by rewrite <-app_assoc.
Qed.

Lemma wc_loop_ok fd fuel l cs s :
  os_fds s !! fd = Some cs -> Forall any_chunk cs -> (length (cs ≫= chunk_bytes) <= fuel)%nat ->
  Z.of_nat (length l + length (cs ≫= chunk_bytes)) < 2 ^ 31 ->
  exists s', wc_loop fd (counted l) fuel s = Ret (counted (l ++ (cs ≫= chunk_bytes))) s' /\ os_out s' = os_out s.
Proof.
  revert l cs s. induction fuel as [|fuel IH]; intros l cs s Hfd Hcs Hf Hmax; cbn [wc_loop];
    destruct (read_good _ fd 512 cs s Hfd Hcs ltac:(lia)) as (d & cs' & Hrd & Eb & Hcs' & _ & Hdl & Hde);
    rewrite (ubind_ret _ _ _ _ _ Hrd); cbn [fst snd]; rewrite Eb, ?length_app in *.
  all: destruct (Z.ltb_spec 0 (Z.of_nat (length d))) as [Hlt|Hge]; [try lia|].
  1, 3: assert (d = []) as -> by (apply nil_length_inv; lia); destruct (Hde eq_refl) as [?|Hcs0]; [lia|]; subst cs;
    bfalse (Z.of_nat (length (@nil Z)) <? 0); cbn in Eb; rewrite <-Eb, app_nil_r; eauto.
  rewrite wc_fold by lia. set (s1 := mkOs _ _ _ _).
  destruct (IH (l ++ d) cs' s1) as (s' & Hr & Ho); [by apply lookup_insert_eq|done|lia|rewrite length_app; lia|].
  exists s'. split; [|done]. by rewrite app_assoc.
Qed.

(** wc prints the number of lines, words and bytes of its input, however the
    input arrives. *)
Theorem wc_spec fd name cs s :
  os_fds s !! fd = Some cs -> Forall any_chunk cs -> let l := cs ≫= chunk_bytes in Z.of_nat (length l) < 2 ^ 31 ->
  exists s' out, wc fd name s = Ret tt s' /\ os_out s' = os_out s ++ char_writes 1 out /\
    format wc_format false [PInt (lines l); PInt (words l); PInt (Z.of_nat (length l)); PStr (Some name)] = Some out.
Proof.
  intros Hfd Hcs l Hl. unfold wc, pending. rewrite Hfd. cbn [default].
  destruct (wc_loop_ok fd (length l) [] cs s Hfd Hcs (Nat.le_refl _) Hl) as (s1 & Hr & Ho).
  change (counted []) with (mkCounts 0 0 0 false) in Hr. cbn [app] in Hr. fold l in Hr. rewrite (ubind_ret _ _ _ _ _ Hr).
  cbn [wc_l wc_w wc_c counted].
  destruct (format wc_format false [PInt (lines l); PInt (words l); PInt (Z.of_nat (length l)); PStr (Some name)]) as [out|] eqn:E; [|done].
  destruct (vprintf_format 1 _ _ _ _ s1 E) as (s' & Hp & (_ & _ & Hout)). exists s', out. split_and!; [exact Hp| |done]. by rewrite Hout, Ho.
Qed.

Definition exf_pieces : list chunk := [Data (str "to be"); Data (str " or" ++ [10] ++ str "n"); Data (str "ot" ++ [10])].
Definition exf_os : os := mkOs {[ 0 := exf_pieces ]} ∅ [] [].

Lemma exf_any : Forall any_chunk exf_pieces.
Proof. repeat constructor; discriminate. Qed.

Lemma cat_spec_witness : exists s', cat 0 exf_os = Ret tt s' /\ to_stdout (os_out s') = str "to be or" ++ [10] ++ str "not" ++ [10].
Proof.
  destruct (cat_spec 0 exf_pieces exf_os eq_refl exf_any eq_refl) as (s' & ws & H1 & H2 & H3). exists s'. split; [exact H1|].
  rewrite H2. cbn [app os_out exf_os]. rewrite H3. reflexivity.
Defined.

Lemma wc_spec_witness : exists s', wc 0 (str "f") exf_os = Ret tt s' /\ to_stdout (os_out s') = str "2 4 13 f" ++ [10].
Proof.
  destruct (wc_spec 0 (str "f") exf_pieces exf_os eq_refl exf_any eq_refl) as (s' & out & H1 & H2 & H3). exists s'. split; [exact H1|].
  rewrite H2. vm_compute in H3. injection H3 as <-. vm_compute. reflexivity.
Defined.
