(* ===== verification/Umalloc.v ===== *)
(** * The memory allocator of user programs: user/umalloc.c

    Free blocks form a circular list in order of address that starts at the
    static header [base]; a block is a header and the units that follow it.
    The state is the memory of the process up to its break.  [heap_ok] relates
    it to the list of free blocks and the map of the blocks given out: free
    blocks are in order and never adjacent, and no two blocks overlap.  malloc
    and free are specified on the bytes that the free blocks cover, and
    together implement an abstract heap of byte strings. *)

From Stdlib Require Import ZArith Lia.
From stdpp Require Import base gmap list numbers strings relations.
From S2P Require Import Prelude Kstring.
Local Open Scope Z_scope.

Record uheap : Type := mkUheap {
  uh_mem : memory;
  uh_brk : Z;            (* the size of the process *)
  uh_max : Z;            (* sizes above this the kernel refuses *)
  uh_oom : list bool;    (* refusals of the coming calls of sbrk, for want of pages *)
  uh_freep : Z
}.

Inductive hres (A : Type) : Type :=
| HRet (a : A) (s : uheap)
| HFault (p : Z)               (* an access outside the process *)
| HNoFuel.
Arguments HRet {A} a s.
Arguments HFault {A} p.
Arguments HNoFuel {A}.

Definition HM (A : Type) : Type := uheap -> hres A.
#[export] Instance HM_ret : MRet HM := fun A a s => HRet a s.
#[export] Instance HM_bind : MBind HM := fun A B f m s =>
  match m s with
  | HRet a s' => f a s'
  | HFault p => HFault p
  | HNoFuel => HNoFuel
  end.

Definition set_uh_mem (m : memory) (s : uheap) : uheap := mkUheap m (uh_brk s) (uh_max s) (uh_oom s) (uh_freep s).
Definition set_uh_brk (b : Z) (s : uheap) : uheap := mkUheap (uh_mem s) b (uh_max s) (uh_oom s) (uh_freep s).
Definition set_uh_oom (l : list bool) (s : uheap) : uheap := mkUheap (uh_mem s) (uh_brk s) (uh_max s) l (uh_freep s).
Definition set_uh_freep (p : Z) (s : uheap) : uheap := mkUheap (uh_mem s) (uh_brk s) (uh_max s) (uh_oom s) p.

Definition load32 (m : memory) (a : Z) : Z := le_val (rdn m a 4).
Definition store32 (m : memory) (a v : Z) : memory := wrl m a (le_bytes 4 v).

Definition no_fuel {A} : HM A := fun _ => HNoFuel.

(** The fields of a [Header]; its size is 16 bytes. *)
Notation UNIT := 16 (only parsing).

Definition access {A} (a n : Z) (k : HM A) : HM A := fun s =>
  if (0 <=? a) && (a + n <=? uh_brk s) then k s else HFault a.
Definition get_ptr (p : Z) : HM Z := access p 8 (fun s => HRet (load64 (uh_mem s) p) s).
Definition get_size (p : Z) : HM Z := access (p + 8) 4 (fun s => HRet (load32 (uh_mem s) (p + 8)) s).
Definition set_ptr (p v : Z) : HM unit := access p 8 (fun s => HRet tt (set_uh_mem (store64 (uh_mem s) p v) s)).
Definition set_bsize (p v : Z) : HM unit := access (p + 8) 4 (fun s => HRet tt (set_uh_mem (store32 (uh_mem s) (p + 8) v) s)).
Definition get_freep : HM Z := fun s => HRet (uh_freep s) s.
Definition set_freep (p : Z) : HM unit := fun s => HRet tt (set_uh_freep p s).

(** [sbrk(n)] as sys_sbrk and growproc answer it: the old size is returned as
    an [int]; growing may be refused; a negative [n] shrinks the process,
    unless the new size as a [uint] is not smaller. *)
Definition refuses (n : Z) (s : uheap) : bool :=
  (uh_max s <? uh_brk s + n) || match uh_oom s with b :: _ => b | [] => false end.
Definition u_sbrk (n : Z) : HM Z := fun s =>
  let addr := u64 (s32 (uh_brk s)) in
  if 0 <? n then
    let s' := set_uh_oom (tail (uh_oom s)) s in
    if refuses n s then HRet (u64 (-1)) s' else HRet addr (set_uh_brk (u32 (uh_brk s + n)) s')
  else if n <? 0 then
    let sz := u32 (uh_brk s + n) in
    if uh_brk s <=? sz then HRet addr s else HRet addr (set_uh_brk sz s)
  else HRet addr s.

(** The for loop of [free]: the free block after which [bp] belongs. *)
Fixpoint free_find (bp p : Z) (fuel : nat) : HM Z :=
  nx ← get_ptr p;
  if (p <? bp) && (bp <? nx) then mret p
  else if (nx <=? p) && ((p <? bp) || (bp <? nx)) then mret p
  else match fuel with
       | O => no_fuel
       | S fuel => free_find bp nx fuel
       end.

(** The first [if] of [free]: join to the next block. *)
Definition join_next (bp p bsz nx : Z) : HM unit :=
  if u64 (bp + UNIT * bsz) =? nx then
    nsz ← get_size nx;
    _ ← set_bsize bp (u32 (bsz + nsz));
    nx ← get_ptr p;
    nnx ← get_ptr nx;
    set_ptr bp nnx
  else set_ptr bp nx.

(** The second: join to the previous block. *)
Definition join_prev (bp p psz : Z) : HM unit :=
  if u64 (p + UNIT * psz) =? bp then
    bsz ← get_size bp;
    _ ← set_bsize p (u32 (psz + bsz));
    bnx ← get_ptr bp;
    set_ptr p bnx
  else set_ptr p bp.

Definition free (fuel : nat) (ap : Z) : HM unit :=
  let bp := u64 (ap - UNIT) in
  fp ← get_freep;
  p ← free_find bp fp fuel;
  bsz ← get_size bp;
  nx ← get_ptr p;
  _ ← join_next bp p bsz nx;
  psz ← get_size p;
  _ ← join_prev bp p psz;
  set_freep p.

Definition morecore (fuel : nat) (nu : Z) : HM Z :=
  let nu := if nu <? 4096 then 4096 else nu in
  p ← u_sbrk (s32 (nu * UNIT));
  if p =? u64 (-1) then mret 0 else
  _ ← set_bsize p nu;
  _ ← free fuel (u64 (p + UNIT));
  get_freep.

Definition units (nbytes : Z) : Z := u32 ((nbytes + UNIT - 1) / UNIT + 1).

(** The for loop of [malloc]. *)
Fixpoint malloc_loop (fuel0 : nat) (nunits prevp p : Z) (fuel : nat) : HM Z :=
  sz ← get_size p;
  if nunits <=? sz then
    p ← (if sz =? nunits then
           nx ← get_ptr p;
           _ ← set_ptr prevp nx;
           mret p
         else
           _ ← set_bsize p (u32 (sz - nunits));
           sz ← get_size p;
           let p := u64 (p + UNIT * sz) in
           _ ← set_bsize p nunits;
           mret p);
    _ ← set_freep prevp;
    mret (u64 (p + UNIT))
  else
    match fuel with
    | O => no_fuel
    | S fuel =>
        fp ← get_freep;
        if p =? fp then
          p ← morecore fuel0 nunits;
          if p =? 0 then mret 0 else
          nx ← get_ptr p;
          malloc_loop fuel0 nunits p nx fuel
        else
          nx ← get_ptr p;
          malloc_loop fuel0 nunits p nx fuel
    end.

(** [base] is the address of the static header. *)
Definition malloc (base : Z) (fuel : nat) (nbytes : Z) : HM Z :=
  let nunits := units nbytes in
  fp ← get_freep;
  _ ← (if fp =? 0 then
         _ ← set_freep base;
         _ ← set_ptr base base;
         set_bsize base 0
       else mret tt);
  prevp ← get_freep;
  p ← get_ptr prevp;
  malloc_loop fuel nunits prevp p fuel.

(** ** Blocks and the list of free blocks *)

Notation block := (Z * Z)%type.       (* the address of the header, the size in units *)
Definition bend (b : block) : Z := b.1 + UNIT * b.2.
Definition inb (b : block) (x : Z) : Prop := b.1 <= x < bend b.
Definition cover (l : list block) (x : Z) : Prop := exists b, b ∈ l /\ inb b x.

(** In order of address, not adjacent, between [lo] (excluded) and [hi]. *)
Fixpoint blocks (lo hi : Z) (l : list block) : Prop :=
  match l with
  | [] => True
  | b :: l => lo < b.1 /\ 1 <= b.2 /\ bend b <= hi /\ blocks (bend b) hi l
  end.

Definition first (l : list block) (d : Z) : Z := match l with [] => d | b :: _ => b.1 end.

(** The headers in memory, the last pointing to [nx]. *)
Fixpoint chain (m : memory) (l : list block) (nx : Z) : Prop :=
  match l with
  | [] => True
  | b :: l => load64 m b.1 = first l nx /\ load32 m (b.1 + 8) = b.2 /\ chain m l nx
  end.

Lemma blocks_app lo hi l1 l2 :
  blocks lo hi (l1 ++ l2) <-> blocks lo hi l1 /\ blocks (match last l1 with Some b => bend b | None => lo end) hi l2.
Proof.
  revert lo. induction l1 as [|b l1 IH]; intros lo; cbn [app blocks].
  - cbn. tauto.
  - rewrite IH. destruct l1 as [|b1 l1]; [cbn; tauto|].
    change (last (b :: b1 :: l1)) with (last (b1 :: l1)). destruct (last (b1 :: l1)) eqn:E; [tauto|].
    by apply last_None in E.
Qed.

Lemma blocks_mono lo lo' hi hi' l : lo' <= lo -> hi <= hi' -> blocks lo hi l -> blocks lo' hi' l.
Proof.
  revert lo lo'. induction l as [|b l IH]; intros lo lo' Hlo Hhi; cbn [blocks]; [done|].
  intros (?&?&?&?). split_and!; [lia|lia|lia|]. eapply IH; [|done|done]. lia.
Qed.

Lemma blocks_elem lo hi l b : blocks lo hi l -> b ∈ l -> lo < b.1 /\ 1 <= b.2 /\ bend b <= hi.
Proof.
  revert lo. induction l as [|b0 l IH]; intros lo; cbn [blocks]; intros Hb Hin; [by apply elem_of_nil in Hin|].
  destruct Hb as (?&?&?&Hl). apply elem_of_cons in Hin as [->|Hin]; [done|].
  destruct (IH _ Hl Hin) as (?&?&?). unfold bend in *. lia.
Qed.

Lemma blocks_first_lt lo hi l : blocks lo hi l -> l <> [] -> forall d, lo < first l d.
Proof. destruct l as [|b l]; [done|]. by intros (?&?) _ d. Qed.

Lemma cover_nil x : ~ cover [] x.
Proof. intros (b & Hb & _). by apply elem_of_nil in Hb. Qed.
Lemma cover_cons b l x : cover (b :: l) x <-> inb b x \/ cover l x.
Proof.
  unfold cover. setoid_rewrite elem_of_cons. split.
  - intros (b' & [->|Hb] & Hx); [by left|right; eauto].
  - intros [Hx|(b' & Hb & Hx)]; eauto.
Qed.
Lemma cover_app l1 l2 x : cover (l1 ++ l2) x <-> cover l1 x \/ cover l2 x.
Proof. unfold cover. setoid_rewrite elem_of_app. naive_solver. Qed.

Lemma cover_bounds lo hi l x : blocks lo hi l -> cover l x -> lo < x < hi.
Proof.
  intros Hb (b & Hin & Hx). destruct (blocks_elem _ _ _ _ Hb Hin) as (?&?&?). unfold inb in Hx. lia.
Qed.

(** The free bytes determine the list. *)
Lemma cover_inj lo hi l1 l2 :
  blocks lo hi l1 -> blocks lo hi l2 -> (forall x, cover l1 x <-> cover l2 x) -> l1 = l2.
Proof.
  revert lo l2. induction l1 as [|[a s] l1 IH]; intros lo l2 H1 H2 Hc.
  - destruct l2 as [|[b t] l2]; [done|]. exfalso. apply (cover_nil b), Hc, cover_cons. left.
    destruct H2 as (?&?&?&?). unfold inb, bend in *; cbn in *; lia.
  - destruct l2 as [|[b t] l2].
    { exfalso. apply (cover_nil a), Hc, cover_cons. left. destruct H1 as (?&?&?&?). unfold inb, bend in *; cbn in *; lia. }
    destruct H1 as (Ha&Hs&Has&H1), H2 as (Hb&Ht&Hbt&H2). unfold bend in *; cbn [fst snd] in *.
    assert (forall x, cover l1 x -> a + 16 * s < x) as B1 by (intros x Hx; destruct (cover_bounds _ _ _ _ H1 Hx); lia).
    assert (forall x, cover l2 x -> b + 16 * t < x) as B2 by (intros x Hx; destruct (cover_bounds _ _ _ _ H2 Hx); lia).
    assert (forall x, (a <= x < a + 16 * s \/ cover l1 x) <-> (b <= x < b + 16 * t \/ cover l2 x)) as Hc'.
    { intros x. specialize (Hc x). rewrite !cover_cons in Hc. exact Hc. }
    assert (a = b) as <-.
    { assert (a <= b) by (destruct (proj2 (Hc' b)) as [?|Hx]; [lia|lia|apply B1 in Hx; lia]).
      assert (b <= a) by (destruct (proj1 (Hc' a)) as [?|Hx]; [lia|lia|apply B2 in Hx; lia]). lia. }
    assert (s = t) as <-.
    { destruct (Z.lt_trichotomy s t) as [Hl|[?|Hl]]; [exfalso| done|exfalso].
      - destruct (proj2 (Hc' (a + 16 * s))) as [?|Hx]; [lia|lia|]. apply B1 in Hx. lia.
      - destruct (proj1 (Hc' (a + 16 * t))) as [?|Hx]; [lia|lia|]. apply B2 in Hx. lia. }
    f_equal. apply (IH _ _ H1 H2). intros x. specialize (Hc' x). split; intros Hx.
    + pose proof (B1 _ Hx). destruct (proj1 Hc') as [?|?]; [by right|lia|done].
    + pose proof (B2 _ Hx). destruct (proj2 Hc') as [?|?]; [by right|lia|done].
Qed.

Lemma chain_app m l1 l2 nx : chain m (l1 ++ l2) nx <-> chain m l1 (first l2 nx) /\ chain m l2 nx.
Proof.
  induction l1 as [|b l1 IH]; cbn [app chain]; [tauto|]. rewrite IH.
  assert (first (l1 ++ l2) nx = first l1 (first l2 nx)) as -> by (by destruct l1). tauto.
Qed.

Definition same_on (P : Z -> Prop) (m m' : memory) : Prop := forall x, P x -> rd m' x = rd m x.
Definition header (a x : Z) : Prop := a <= x < a + UNIT.

Lemma load32_ext m m' a : (forall b, a <= b < a + 4 -> rd m b = rd m' b) -> load32 m a = load32 m' a.
Proof. intros He. unfold load32. by rewrite (rdn_ext m m'). Qed.

Lemma chain_frame m m' l nx :
  chain m l nx -> (forall b, b ∈ l -> same_on (header b.1) m m') -> chain m' l nx.
Proof.
  induction l as [|b l IH]; cbn [chain]; [done|]. intros (H1 & H2 & H3) Hs.
  assert (same_on (header b.1) m m') as Hb by (apply Hs; left). unfold same_on, header in Hb.
  split_and!.
  - rewrite <- H1. apply load64_ext. intros x Hx. apply Hb. lia.
  - rewrite <- H2. apply load32_ext. intros x Hx. apply Hb. lia.
  - apply IH; [done|]. intros b' Hb'. apply Hs. by right.
Qed.

Lemma load32_store32 m a v : load32 (store32 m a v) a = u32 v.
Proof.
  unfold load32, store32. pose proof (rdn_wrl m a (le_bytes 4 v) (le_bytes_byte 4 v)) as E.
  rewrite le_bytes_length in E. rewrite E, le_val_bytes. done.
Qed.
Lemma rd_store32 m a v b : b < a \/ a + 4 <= b -> rd (store32 m a v) b = rd m b.
Proof.
  intros Hb. unfold store32. rewrite rd_wrl, le_bytes_length.
  destruct (Z.leb_spec a b), (Z.ltb_spec b (a + Z.of_nat 4)); simpl; done || lia.
Qed.

Lemma load64_store32_ne m a v b : b + 8 <= a \/ a + 4 <= b -> load64 (store32 m a v) b = load64 m b.
Proof. intros Hb. apply load64_ext. intros x Hx. apply rd_store32. lia. Qed.
Lemma load32_store64_ne m a v b : b + 4 <= a \/ a + 8 <= b -> load32 (store64 m a v) b = load32 m b.
Proof. intros Hb. apply load32_ext. intros x Hx. apply rd_store64. lia. Qed.
Lemma load32_store32_ne m a v b : b + 4 <= a \/ a + 4 <= b -> load32 (store32 m a v) b = load32 m b.
Proof. intros Hb. apply load32_ext. intros x Hx. apply rd_store32. lia. Qed.

(** *** Merging neighbours, as [free] does it *)

Definition merge_right (b : block) (Y : list block) : block * list block :=
  match Y with
  | n :: Y' => if bend b =? n.1 then ((b.1, b.2 + n.2), Y') else (b, Y)
  | [] => (b, Y)
  end.
Definition merge_left (q b : block) (Y : list block) : list block :=
  if bend q =? b.1 then (q.1, q.2 + b.2) :: Y else q :: b :: Y.

Lemma merge_right_ok lo hi b Y :
  lo < b.1 -> 1 <= b.2 -> bend b <= hi -> blocks (bend b - 1) hi Y ->
  blocks lo hi ((merge_right b Y).1 :: (merge_right b Y).2) /\
  (forall x, cover ((merge_right b Y).1 :: (merge_right b Y).2) x <-> inb b x \/ cover Y x) /\
  (merge_right b Y).1.1 = b.1 /\ 1 <= (merge_right b Y).1.2 /\ (length (merge_right b Y).2 <= length Y)%nat.
Proof.
  intros Hlo Hb Hhi HY. unfold merge_right. destruct Y as [|n Y']; [split_and!; try done; apply cover_cons|].
  destruct HY as (Hn & Hns & Hne & HY'). case_match eqn:E; cbn [fst snd].
  - apply Z.eqb_eq in E. unfold bend in *. cbn [blocks fst snd] in *. split_and!; try lia.
    + unfold bend; cbn; lia.
    + eapply blocks_mono; [| |exact HY']; unfold bend in *; cbn; lia.
    + intros x. rewrite !cover_cons. unfold inb, bend in *. cbn.
      split; [intros [Hx|Hx]|intros [Hx|[Hx|Hx]]]; try tauto; try (left; lia).
      destruct (decide (x < n.1)); [left|right; left]; lia.
    + cbn [length]. lia.
  - apply Z.eqb_neq in E. split_and!; try done; [cbn [blocks]; split_and!; try done; lia|]. intros x. apply cover_cons.
Qed.

Lemma merge_left_ok lo hi q b Y :
  lo < q.1 -> 1 <= q.2 -> 1 <= b.2 -> blocks (bend q - 1) hi (b :: Y) ->
  blocks lo hi (merge_left q b Y) /\
  (forall x, cover (merge_left q b Y) x <-> inb q x \/ cover (b :: Y) x) /\
  (length (merge_left q b Y) <= length Y + 2)%nat.
Proof.
  intros Hlo Hq Hb (H1 & H2 & H3 & HY). unfold merge_left. case_match eqn:E.
  - apply Z.eqb_eq in E. split_and!.
    + cbn [blocks fst snd]. unfold bend in *; cbn [fst snd]. split_and!; try lia.
      eapply blocks_mono; [| |exact HY]; unfold bend in *; cbn; lia.
    + intros x. rewrite !cover_cons. unfold inb, bend in *. cbn.
      split; [intros [Hx|Hx]|intros [Hx|[Hx|Hx]]]; try tauto; try (left; lia).
      destruct (decide (x < b.1)); [left|right; left]; lia.
    + cbn [length]. lia.
  - apply Z.eqb_neq in E. split_and!.
    + cbn [blocks]. split_and!; try done; try lia. unfold bend in *. lia.
    + intros x. apply cover_cons.
    + cbn [length]. lia.
Qed.

(** ** The heap *)

Lemma hbind {A B} (m : HM A) (f : A -> HM B) s a s' : m s = HRet a s' -> (m ≫= f) s = f a s'.
Proof. intros E. unfold mbind, HM_bind. by rewrite E. Qed.

Lemma access_ok {A} p n (k : HM A) s : 0 <= p -> p + n <= uh_brk s -> access p n k s = k s.
Proof. intros. unfold access. btrue (0 <=? p). by btrue (p + n <=? uh_brk s). Qed.
Lemma get_ptr_ok p s : 0 <= p -> p + UNIT <= uh_brk s -> get_ptr p s = HRet (load64 (uh_mem s) p) s.
Proof. intros. unfold get_ptr. rewrite access_ok; [done|lia|lia]. Qed.
Lemma get_size_ok p s : 0 <= p -> p + UNIT <= uh_brk s -> get_size p s = HRet (load32 (uh_mem s) (p + 8)) s.
Proof. intros. unfold get_size. rewrite access_ok; [done|lia|lia]. Qed.
Lemma set_ptr_ok p v s :
  0 <= p -> p + UNIT <= uh_brk s -> set_ptr p v s = HRet tt (set_uh_mem (store64 (uh_mem s) p v) s).
Proof. intros. unfold set_ptr. rewrite access_ok; [done|lia|lia]. Qed.
Lemma set_size_ok p v s :
  0 <= p -> p + UNIT <= uh_brk s -> set_bsize p v s = HRet tt (set_uh_mem (store32 (uh_mem s) (p + 8) v) s).
Proof. intros. unfold set_bsize. rewrite access_ok; [done|lia|lia]. Qed.

Ltac hstep := erewrite hbind; [cbn beta|first [apply get_ptr_ok|apply get_size_ok|apply set_ptr_ok|apply set_size_ok|reflexivity]; cbn [uh_brk set_uh_mem set_uh_freep]; lia].

Ltac hcbn := cbn [uh_mem uh_brk uh_max uh_oom uh_freep set_uh_mem set_uh_freep set_uh_brk set_uh_oom].

Section heap.
Context (base : Z).

Definition ring (fl : list block) : list block := (base, 0) :: fl.

Record free_ok (s : uheap) (fl : list block) : Prop := {
  fo_base : 0 < base;
  fo_brk : base + UNIT <= uh_brk s <= uh_max s;
  fo_max : uh_max s < 2 ^ 31;
  fo_freep : uh_freep s ∈ (ring fl).*1;
  fo_chain : chain (uh_mem s) (ring fl) base;
  fo_blocks : blocks (base + UNIT - 1) (uh_brk s) fl
}.

(** Headers in order of address. *)
Fixpoint asc (lo : Z) (l : list block) : Prop :=
  match l with [] => True | b :: l => lo < b.1 /\ asc b.1 l end.

Lemma blocks_asc lo hi l : blocks lo hi l -> asc lo l.
Proof.
  revert lo. induction l as [|b l IH]; intros lo; cbn [blocks asc]; [done|]. intros (?&?&?&Hl). split; [done|].
  apply IH. eapply blocks_mono; [| |exact Hl]; unfold bend; lia.
Qed.
Lemma ring_asc hi fl : blocks (base + UNIT - 1) hi fl -> asc (base - 1) (ring fl).
Proof.
  intros Hb. split; [cbn; lia|]. cbn. apply (blocks_asc _ hi). eapply blocks_mono; [| |exact Hb]; lia.
Qed.
Lemma asc_app lo l1 l2 : asc lo (l1 ++ l2) -> asc lo l1 /\ asc lo l2.
Proof.
  revert lo. induction l1 as [|b l1 IH]; intros lo; cbn [app asc]; [done|]. intros (Hb & Hl).
  destruct (IH _ Hl) as [H1 H2]. split; [done|]. destruct l2; [done|]. destruct H2. split; [lia|done].
Qed.
Lemma asc_elem lo l b : asc lo l -> b ∈ l -> lo < b.1.
Proof.
  revert lo. induction l as [|b0 l IH]; intros lo; cbn [asc]; intros Ha Hin; [by apply elem_of_nil in Hin|].
  destruct Ha as [? Ha]. apply elem_of_cons in Hin as [->|Hin]; [done|]. specialize (IH _ Ha Hin). lia.
Qed.

Definition reach (s : uheap) (l : list block) : Prop := forall b, b ∈ l -> 0 <= b.1 /\ b.1 + UNIT <= uh_brk s.

Lemma ring_reach s fl : free_ok s fl -> reach s (ring fl).
Proof.
  intros [] b Hb. apply elem_of_cons in Hb as [->|Hb]; [cbn; lia|].
  destruct (blocks_elem _ _ _ _ fo_blocks0 Hb) as (?&?&?). unfold bend in *. lia.
Qed.

Lemma first_app l1 l2 d : first (l1 ++ l2) d = first l1 (first l2 d).
Proof. by destruct l1. Qed.

(** *** The search of [free] *)

Lemma find_fwd s bp q qs Y mid lo fuel :
  asc lo (mid ++ (q, qs) :: Y) -> chain (uh_mem s) (mid ++ (q, qs) :: Y) base -> reach s (mid ++ (q, qs) :: Y) ->
  q < bp -> (Y = [] /\ base <= q \/ Y <> [] /\ bp < first Y base) -> (length mid <= fuel)%nat ->
  free_find bp (first mid q) fuel s = HRet q s.
Proof.
  revert lo fuel. induction mid as [|[p ps] mid IH]; intros lo fuel Ha Hc Hr Hq HY Hf.
  - destruct Hc as (Hn & _). destruct (Hr (q, qs)) as [R1 R2]; [left|]. cbn [fst snd] in *.
    destruct fuel; cbn [free_find first fst]; hstep; rewrite Hn; (destruct HY as [[-> HY]|[_ HY]];
      [cbn [first]; btrue (base <=? q); btrue (q <? bp); destruct (bp <? base); done|btrue (q <? bp); by btrue (bp <? first Y base)]).
  - destruct Ha as [Hp Ha]. destruct Hc as (Hn & _ & Hc). destruct (Hr (p, ps)) as [R1 R2]; [left|]. cbn [fst snd] in *.
    destruct fuel as [|fuel]; [cbn in Hf; lia|]. cbn [free_find first fst]. hstep. rewrite Hn, first_app. cbn [first fst].
    assert (p < first mid q) by (destruct mid as [|[]]; cbn in *; lia).
    assert (first mid q <= q).
    { destruct mid as [|[a sa] mid]; cbn in *; [lia|]. destruct Ha as [? Ha]. apply Z.lt_le_incl, (asc_elem _ _ (q, qs) Ha).
      apply elem_of_app. right. left. }
    bfalse (bp <? first mid q). rewrite andb_false_r. bfalse (first mid q <=? p). cbn [andb].
    eapply IH; try done; [|cbn in Hf; lia]. intros b Hb. apply Hr. by right.
Qed.

Lemma find_back s bp l k :
  asc bp l -> chain (uh_mem s) l base -> reach s l -> base < bp ->
  free_find bp (first l base) (length l + k) s = free_find bp base k s.
Proof.
  induction l as [|[p ps] l IH]; intros Ha Hc Hr Hb; [done|]. destruct Ha as [Hp Ha], Hc as (Hn & _ & Hc).
  destruct (Hr (p, ps)) as [R1 R2]; [left|]. cbn [fst snd] in *. cbn [length Nat.add free_find first fst]. hstep. rewrite Hn.
  bfalse (p <? bp). cbn [andb orb].
  assert (asc bp l) as Ha' by (destruct l as [|[]]; [done|]; cbn in *; destruct Ha; split; [lia|done]).
  assert ((first l base <=? p) && (bp <? first l base) = false) as ->.
  { destruct l as [|[a sa] l]; cbn in *; [by bfalse (bp <? base); rewrite andb_false_r|]. by bfalse (a <=? p). }
  apply IH; try done. intros b Hb'. apply Hr. by right.
Qed.

Lemma free_find_ok s fl bp X q qs Y fuel :
  free_ok s fl -> ring fl = X ++ (q, qs) :: Y -> q < bp -> asc bp Y -> (length fl + 1 <= fuel)%nat ->
  free_find bp (uh_freep s) fuel s = HRet q s.
Proof.
  intros Hok E Hq HY Hf. pose proof (ring_reach _ _ Hok) as Hr. destruct Hok as [Hb1 _ _ Hp Hc Hb].
  apply ring_asc in Hb. rewrite E in Hp, Hc, Hb, Hr.
  assert (length fl + 1 = length X + S (length Y))%nat as Hlen.
  { apply (f_equal length) in E. rewrite length_app in E. cbn in E. lia. }
  assert (base <= q) as Hbq.
  { assert (base - 1 < (q, qs).1); [|cbn in *; lia]. apply (asc_elem _ _ _ Hb), elem_of_app. right. left. }
  assert (Y = [] /\ base <= q \/ Y <> [] /\ bp < first Y base) as HYc.
  { destruct Y as [|[a sa] Y]; [by left|right]. split; [done|]. by destruct HY. }
  rewrite fmap_app, fmap_cons in Hp. cbn [fst] in Hp. rewrite elem_of_app, elem_of_cons in Hp.
  destruct Hp as [Hp|[Hp|Hp]].
  - apply list_elem_of_fmap in Hp as ([p ps] & Ep & Hp). apply list_elem_of_split in Hp as (X1 & X2 & ->). cbn in Ep. rewrite Ep.
    rewrite <- app_assoc in Hb, Hc, Hr. apply asc_app in Hb as [_ Hb]. apply chain_app in Hc as [_ Hc].
    change p with (first ((p, ps) :: X2) q). eapply find_fwd; try done.
    + intros b Hin. apply Hr, elem_of_app. by right.
    + rewrite length_app in Hlen. cbn in *. lia.
  - rewrite Hp. apply asc_app in Hb as [_ Hb]. apply chain_app in Hc as [_ Hc].
    change q with (first [] q) at 1. eapply find_fwd; try done; [|cbn; lia]. intros b Hin. apply Hr, elem_of_app. by right.
  - apply list_elem_of_fmap in Hp as ([p ps] & Ep & Hp). apply list_elem_of_split in Hp as (Y1 & Y2 & ->). cbn in Ep. rewrite Ep.
    apply asc_app in HY as [_ HY]. replace fuel with (length ((p, ps) :: Y2) + (fuel - length ((p, ps) :: Y2)))%nat
      by (rewrite length_app in Hlen; cbn [length] in *; lia).
    change p with (first ((p, ps) :: Y2) base) at 1. rewrite find_back; try done; try lia.
    + replace base with (first X q) at 1; [eapply find_fwd; try done; rewrite length_app in Hlen; cbn [length] in *; lia|].
      unfold ring in E. destruct X as [|[]]; cbn in E |- *; congruence.
    + apply chain_app in Hc as [_ Hc]. destruct Hc as (_ & _ & Hc). by apply chain_app in Hc as [_ Hc].
    + intros b Hin. apply Hr, elem_of_app. right. right. apply elem_of_app. by right.
Qed.

Lemma asc_split bp b0 l lo :
  asc lo (b0 :: l) -> b0.1 < bp -> (forall b, b ∈ l -> b.1 <> bp) ->
  exists X q Y, b0 :: l = X ++ q :: Y /\ q.1 < bp /\ asc bp Y.
Proof.
  revert b0 lo. induction l as [|b l IH]; intros b0 lo [Ha Hl] Hb Hne.
  - by exists [], b0, [].
  - destruct (decide (b.1 < bp)) as [Hlt|Hge].
    + destruct (IH b _ Hl Hlt) as (X & q & Y & -> & Hq & HY); [intros; apply Hne; by right|].
      exists (b0 :: X), q, Y. done.
    + exists [], b0, (b :: l). split_and!; [done|done|]. destruct Hl as [_ Hl]. split; [|done].
      assert (b.1 <> bp) by (apply Hne; left). lia.
Qed.

Definition not_header (a x : Z) : Prop := ~ header a x.

Lemma same_on_store64 m p v : same_on (not_header p) m (store64 m p v).
Proof. intros x Hx. apply rd_store64. unfold not_header, header in Hx. lia. Qed.
Lemma same_on_store32 m p v : same_on (not_header p) m (store32 m (p + 8) v).
Proof. intros x Hx. apply rd_store32. unfold not_header, header in Hx. lia. Qed.
Lemma same_on_trans (P : Z -> Prop) m m1 m2 : same_on P m m1 -> same_on P m1 m2 -> same_on P m m2.
Proof. intros H1 H2 x Hx. rewrite H2, H1 by done. done. Qed.

Lemma join_next_ok s bp n q qs Y :
  0 <= q -> q + UNIT <= bp -> 1 <= n -> bp + UNIT * n <= uh_brk s -> uh_brk s < 2 ^ 31 ->
  chain (uh_mem s) ((q, qs) :: Y) base -> 0 <= base < bp -> blocks (bp + UNIT * n - 1) (uh_brk s) Y ->
  load32 (uh_mem s) (bp + 8) = n ->
  exists m', join_next bp q n (first Y base) s = HRet tt (set_uh_mem m' s) /\
    load64 m' bp = first (merge_right (bp, n) Y).2 base /\ load32 m' (bp + 8) = (merge_right (bp, n) Y).1.2 /\
    same_on (not_header bp) (uh_mem s) m'.
Proof.
  intros Hq Hqb Hn Hbrk Hmax (Hqn & _ & HcY) Hbase HY Hbn. unfold join_next. rewrite (u64_small (bp + UNIT * n)) by lia.
  destruct Y as [|[a sa] Y]; cbn [first fst snd merge_right] in *.
  - bfalse (bp + UNIT * n =? base). rewrite set_ptr_ok by lia. eexists. split; [done|]. cbn [first fst snd merge_right].
    rewrite load64_store64, u64_small, load32_store64_ne by lia. split_and!; [done|done|apply same_on_store64].
  - destruct HcY as (Han & Has & HcY), HY as (Ha & Hsa & Hae & HY). unfold bend in *. cbn [fst snd] in *.
    destruct (bp + UNIT * n =? a) eqn:E.
    + apply Z.eqb_eq in E. hstep. hstep. hstep. cbn [uh_mem set_uh_mem]. rewrite load64_store32_ne, Hqn by lia.
      cbn [first fst]. hstep. cbn [uh_mem set_uh_mem]. rewrite set_ptr_ok by (cbn [uh_brk set_uh_mem]; lia).
      cbn [uh_mem set_uh_mem]. rewrite load64_store32_ne, Han, Has by lia.
      eexists. split; [done|]. cbn [first fst snd]. rewrite load64_store64, load32_store64_ne, load32_store32 by lia.
      assert (0 <= first Y base < 2 ^ 31).
      { destruct Y as [|[c sc] Y]; cbn; [lia|]. destruct HY as (?&?&?&?). unfold bend in *. cbn in *. lia. }
      rewrite u64_small by lia. unfold u32. rewrite Z.mod_mod, Z.mod_small by lia. split_and!; [done|done|].
      eapply same_on_trans; [apply same_on_store32|apply same_on_store64].
    + rewrite set_ptr_ok by lia. eexists. split; [done|]. cbn [first fst snd].
      rewrite load64_store64, u64_small, load32_store64_ne by lia. split_and!; [done|done|apply same_on_store64].
Qed.

Lemma join_prev_ok s bp n q qs Y :
  0 <= q -> 0 <= qs -> q + UNIT <= bp -> q + UNIT * qs <= bp -> 1 <= n -> bp + UNIT * n <= uh_brk s -> uh_brk s < 2 ^ 31 ->
  0 <= first Y base < 2 ^ 31 -> load32 (uh_mem s) (q + 8) = qs ->
  load64 (uh_mem s) bp = first Y base -> load32 (uh_mem s) (bp + 8) = n ->
  exists m', join_prev bp q qs s = HRet tt (set_uh_mem m' s) /\
    chain m' (merge_left (q, qs) (bp, n) []) (first Y base) /\ same_on (not_header q) (uh_mem s) m'.
Proof.
  intros Hq Hqs Hqb Hqe Hn Hbrk Hmax HY Eqs Ebn Ebs. unfold join_prev, merge_left, bend. cbn [fst snd].
  rewrite (u64_small (q + UNIT * qs)) by lia. destruct (q + UNIT * qs =? bp) eqn:E.
  - hstep. rewrite Ebs. hstep. hstep. cbn [uh_mem set_uh_mem]. rewrite load64_store32_ne, Ebn by lia.
    rewrite set_ptr_ok by (cbn [uh_brk set_uh_mem]; lia). eexists. split; [done|]. cbn [chain first fst snd uh_mem set_uh_mem].
    rewrite load64_store64, u64_small, load32_store64_ne, load32_store32 by lia.
    unfold u32. rewrite Z.mod_mod, Z.mod_small by lia. split; [done|].
    eapply same_on_trans; [apply same_on_store32|apply same_on_store64].
  - rewrite set_ptr_ok by lia. eexists. split; [done|]. cbn [chain first fst snd].
    rewrite load64_store64, u64_small, load32_store64_ne by lia.
    rewrite load64_store64_ne, load32_store64_ne by lia. split; [done|apply same_on_store64].
Qed.

(** *** [free] *)

Lemma ring_cases fl X q Y :
  ring fl = X ++ q :: Y ->
  (X = [] /\ q = (base, 0) /\ fl = Y) \/ (exists X', X = (base, 0) :: X' /\ fl = X' ++ q :: Y).
Proof. unfold ring. destruct X as [|x X']; cbn; intros [= <- ->]; [by left|right; eauto]. Qed.

Lemma blocks_sep lo hi X q Y :
  blocks lo hi (X ++ q :: Y) ->
  (forall x, x ∈ X -> bend x < q.1) /\ lo < q.1 /\ 1 <= q.2 /\ bend q <= hi /\ blocks (bend q) hi Y.
Proof.
  revert lo. induction X as [|x X IH]; intros lo; cbn [app blocks].
  - intros (?&?&?&?). split_and!; try done. intros x Hx. by apply elem_of_nil in Hx.
  - intros (?&?&?&Hl). destruct (IH _ Hl) as (Hx & ? & ? & ? & ?). split_and!; try done.
    + intros y Hy. apply elem_of_cons in Hy as [->|Hy]; [lia|by apply Hx].
    + unfold bend in *. lia.
Qed.

(** Where [bp] belongs. *)
Record place (hi : Z) (fl : list block) (bp n : Z) (X : list block) (q : block) (Y : list block) : Prop := {
  pl_ring : ring fl = X ++ q :: Y;
  pl_q : base <= q.1 /\ 0 <= q.2 /\ q.1 + UNIT <= bp /\ bend q <= bp;
  pl_X : forall x, x ∈ X -> x.1 + UNIT <= q.1;
  pl_Y : blocks (bp + UNIT * n - 1) hi Y
}.

Lemma place_exists hi fl bp n :
  blocks (base + UNIT - 1) hi fl -> base + UNIT <= bp -> 1 <= n -> (forall x, inb (bp, n) x -> ~ cover fl x) ->
  exists X q Y, place hi fl bp n X q Y.
Proof.
  intros Hb Hbp Hn Hap.
  assert (forall b x, b ∈ fl -> inb b x -> ~ inb (bp, n) x) as Hap' by (intros b x Hin Hx Hx'; by apply (Hap x Hx'); exists b).
  assert (forall b, b ∈ fl -> b.1 <= bp -> bend b <= bp) as Hbelow.
  { intros b Hin Hle. destruct (blocks_elem _ _ _ _ Hb Hin) as (?&?&?). destruct (decide (bend b <= bp)); [done|].
    exfalso. apply (Hap' b bp); unfold inb, bend in *; cbn in *; try done; lia. }
  destruct (asc_split bp (base, 0) fl (base - 1)) as (X & q & Y & E & Hq & HY).
  { by apply (ring_asc hi). } { cbn. lia. }
  { intros b Hin Heq. destruct (blocks_elem _ _ _ _ Hb Hin) as (?&?&?). pose proof (Hbelow b Hin ltac:(lia)). unfold bend in *. lia. }
  assert (blocks bp hi Y -> blocks (bp + UNIT * n - 1) hi Y) as HYe.
  { destruct Y as [|y Y]; [done|]. intros (?&?&?&?). split_and!; try done.
    assert (y ∈ fl) as Hin.
    { destruct (ring_cases fl X q (y :: Y) E) as [(_&_&->)|(X'&_&->)]; [left|]. apply elem_of_app; right; right; left. }
    destruct (decide (y.1 < bp + UNIT * n)); [|lia]. exfalso. apply (Hap' y y.1 Hin); unfold inb, bend in *; cbn in *; lia. }
  exists X, q, Y. destruct (ring_cases fl X q Y E) as [(->&->&->)|(X'&->&->)].
  - split; [done|cbn; unfold bend; cbn; lia| intros x Hx; by apply elem_of_nil in Hx|]. apply HYe.
    destruct Y as [|y Y]; [done|]. destruct Hb as (?&?&?&?), HY as (?&?). done.
  - destruct (blocks_sep _ _ _ _ _ Hb) as (Hx & ? & ? & ? & HbY).
    assert (bend q <= bp) by (apply Hbelow; [apply elem_of_app; right; left|lia]). unfold bend in *. split; [done|unfold bend; lia| |].
    + intros x Hin. apply elem_of_cons in Hin as [->|Hin]; [cbn; lia|]. specialize (Hx x Hin).
      destruct (blocks_elem _ _ _ x Hb) as (?&?&?); [apply elem_of_app; by left|]. unfold bend in *. lia.
    + apply HYe. destruct Y as [|y Y]; [done|]. destruct HbY as (?&?&?&?), HY as (?&?). done.
Qed.

Lemma ring_insert hi fl bp n X q Y b Y1 :
  place hi fl bp n X q Y -> blocks (base + UNIT - 1) hi fl -> base + UNIT <= bp -> 1 <= n -> bp + UNIT * n <= hi ->
  merge_right (bp, n) Y = (b, Y1) ->
  exists fl', ring fl' = X ++ merge_left q b Y1 /\ blocks (base + UNIT - 1) hi fl' /\
    (forall x, cover fl' x <-> cover fl x \/ inb (bp, n) x) /\ (length fl' <= length fl + 1)%nat.
Proof.
  intros [E (Hq1 & Hq2 & Hq3 & Hq4) HX HY] Hb Hbp Hn Hhi EM.
  destruct (merge_right_ok (Z.max (base + UNIT - 1) (bend q - 1)) hi (bp, n) Y) as (M1 & M2 & M3 & M4 & M5); [cbn; lia|done|done|done|].
  rewrite EM in M1, M2, M3, M4, M5. cbn [fst snd] in *.
  destruct (ring_cases fl X q Y E) as [(->&->&->)|(X'&->&->)].
  - exists (b :: Y1). unfold merge_left. assert (bend (base, 0) =? b.1 = false) as -> by (unfold bend; cbn; lia). split_and!; [done| | |cbn [length]; lia].
    + eapply blocks_mono; [| |exact M1]; lia.
    + intros x. rewrite M2. tauto.
  - apply blocks_app in Hb as [HbX HbY]. destruct HbY as (Hlo & Hq2' & Hqe & HbY).
    destruct (merge_left_ok (match last X' with Some b => bend b | None => base + UNIT - 1 end) hi q b Y1) as (L1 & L2 & L3); [done|done|done| |].
    { eapply blocks_mono; [| |exact M1]; lia. }
    exists (X' ++ merge_left q b Y1). split_and!; [done|apply blocks_app; done| |].
    + intros x. rewrite !cover_app, L2, M2, cover_cons. tauto.
    + rewrite !length_app. cbn [length]. lia.
Qed.

Lemma merge_left_app q b Y : merge_left q b Y = merge_left q b [] ++ Y.
Proof. unfold merge_left. by case_match. Qed.
Lemma merge_left_first q b Y d : first (merge_left q b Y) d = q.1.
Proof. unfold merge_left. by case_match. Qed.

Lemma merge_right_sub b Y : forall y, y ∈ (merge_right b Y).2 -> y ∈ Y.
Proof. unfold merge_right. intros y. destruct Y as [|z Y]; [done|]. case_match; [by right|done]. Qed.

(** What [free] does to the rest of the memory. *)
Definition outside (fl : list block) (bp x : Z) : Prop := ~ cover fl x /\ ~ header base x /\ ~ header bp x.

Lemma free_chain s fl bp n X q Y b Y1 m1 m2 :
  free_ok s fl -> place (uh_brk s) fl bp n X q Y -> 1 <= n -> merge_right (bp, n) Y = (b, Y1) ->
  same_on (not_header bp) (uh_mem s) m1 -> same_on (not_header q.1) m1 m2 ->
  chain m2 (merge_left q b []) (first Y1 base) -> chain m2 (X ++ merge_left q b Y1) base.
Proof.
  intros Hok Hpl Hn EM H1 H2 Hc. destruct Hpl as [E (Q1 & Q2 & Q3 & Q4) HX HY].
  pose proof (fo_chain _ _ Hok) as Hc0. rewrite E in Hc0. apply chain_app in Hc0 as [HcX (Hqn & Hqs & HcY)]. cbn [first fst] in HcX.
  assert (same_on (fun x => not_header bp x /\ not_header q.1 x) (uh_mem s) m2) as H12.
  { intros x [Hx1 Hx2]. rewrite H2, H1 by done. done. }
  apply chain_app. rewrite merge_left_first. split.
  - apply (chain_frame (uh_mem s)); [done|]. intros x Hin y Hy. apply H12. specialize (HX x Hin).
    unfold not_header, header in *. lia.
  - rewrite merge_left_app. apply chain_app. split; [done|].
    apply (chain_frame (uh_mem s)).
    + unfold merge_right in EM. destruct Y as [|y Y]; [by injection EM as <- <-|]. case_match; injection EM as <- <-; [by destruct HcY as (_&_&?)|done].
    + intros y Hin x Hx. apply H12. assert (y ∈ Y) as Hy by (apply (merge_right_sub (bp, n)); by rewrite EM).
      destruct (blocks_elem _ _ _ _ HY Hy) as (?&?&?). unfold not_header, header in *. lia.
Qed.

Lemma free_block s fl bp n fuel :
  free_ok s fl -> base + UNIT <= bp -> 1 <= n -> bp + UNIT * n <= uh_brk s -> load32 (uh_mem s) (bp + 8) = n ->
  (forall x, inb (bp, n) x -> ~ cover fl x) -> (length fl + 1 <= fuel)%nat ->
  exists m q fl', free fuel (bp + UNIT) s = HRet tt (set_uh_freep q (set_uh_mem m s)) /\
    free_ok (set_uh_freep q (set_uh_mem m s)) fl' /\
    (forall x, cover fl' x <-> cover fl x \/ inb (bp, n) x) /\ (length fl' <= length fl + 1)%nat /\
    same_on (outside fl bp) (uh_mem s) m.
Proof.
  intros Hok Hbp Hn Hbrk Hsz Hap Hf. pose proof Hok as [B1 B2 B3 B4 B5 B6].
  destruct (place_exists _ _ _ _ B6 Hbp Hn Hap) as (X & [q qs] & Y & Hpl). pose proof Hpl as [E (Q1 & Q2 & Q3 & Q4) HX HY].
  unfold bend in Q4. cbn [fst snd] in *.
  assert (asc bp Y) as HYa by (apply (blocks_asc _ (uh_brk s)); eapply blocks_mono; [| |exact HY]; lia).
  pose proof B5 as Bc. rewrite E in Bc. apply chain_app in Bc as [_ Bc]. pose proof Bc as (Hqn & Hqs & HcY). cbn [fst snd] in *.
  unfold free. replace (bp + UNIT - UNIT) with bp by lia. rewrite (u64_small bp) by lia. hstep.
  erewrite hbind; [|eapply free_find_ok; try done; lia]. cbn beta. hstep. hstep. rewrite Hsz, Hqn.
  destruct (join_next_ok s bp n q qs Y) as (m1 & E1 & J1 & J2 & J3); try done; try lia.
  erewrite hbind by exact E1. cbn beta. hstep. cbn [uh_mem set_uh_mem].
  assert (load32 m1 (q + 8) = qs) as Hqs1.
  { rewrite <- Hqs. apply load32_ext. intros x Hx. apply J3. unfold not_header, header. lia. }
  rewrite Hqs1. destruct (merge_right (bp, n) Y) as [b Y1] eqn:EM. cbn [fst snd] in *.
  destruct (merge_right_ok (bp - 1) (uh_brk s) (bp, n) Y) as (M1 & M2 & M3 & M4 & M5); [cbn; lia|done|done|done|].
  rewrite EM in M1, M2, M3, M4, M5. cbn [fst snd] in *. destruct M1 as (? & ? & Mb & MY). unfold bend in Mb.
  assert (0 <= first Y1 base < 2 ^ 31) as HY1.
  { destruct Y1 as [|y Y1]; cbn [first]; [lia|]. destruct MY as (?&?&?&?). unfold bend in *. lia. }
  destruct b as [b bs]. cbn [fst snd] in *. subst b.
  destruct (join_prev_ok (set_uh_mem m1 s) bp bs q qs Y1) as (m2 & E2 & J4 & J5); cbn [uh_mem uh_brk set_uh_mem] in *; try done; try lia.
  erewrite hbind by exact E2. cbn beta.
  destruct (ring_insert (uh_brk s) fl bp n X (q, qs) Y (bp, bs) Y1 Hpl B6 Hbp Hn Hbrk EM) as (fl' & R1 & R2 & R3 & R4).
  exists m2, q, fl'. split; [done|]. split_and!; [|done|done|].
  - split; hcbn; try done.
    + rewrite R1, fmap_app. apply elem_of_app. right. unfold merge_left. case_match; left.
    + rewrite R1. eapply (free_chain s fl bp n X (q, qs) Y); try done.
  - intros x (Hx1 & Hx2 & Hx3). rewrite J5, J3; [done|done|]. intros Hh. cbn in Hh.
    destruct (ring_cases fl X (q, qs) Y E) as [(_ & [= -> ->] & _)|(X' & _ & ->)]; [done|].
    apply Hx1. exists (q, qs). split; [apply elem_of_app; right; left|]. apply blocks_sep in B6 as (_&_&?&_). unfold inb, bend, header in *. cbn in *. lia.
Qed.

(** *** Taking a block from the list *)

Definition small (nu : Z) (b : block) : Prop := b.2 < nu.

Lemma first_fit nu (l : list block) :
  Forall (small nu) l \/ exists T1 b T2, l = T1 ++ b :: T2 /\ Forall (small nu) T1 /\ nu <= b.2.
Proof.
  induction l as [|b l IH]; [by left|]. destruct (decide (b.2 < nu)) as [Hb|Hb].
  - destruct IH as [IH|(T1 & c & T2 & -> & H1 & H2)]; [left; by constructor|].
    right. exists (b :: T1), c, T2. split_and!; [done|by constructor|done].
  - right. exists [], b, l. split_and!; [done|done|lia].
Qed.

Lemma scan_skip F nu s T1 : forall prev p fuel,
  chain (uh_mem s) T1 p -> reach s T1 -> Forall (small nu) T1 -> (forall b, b ∈ T1 -> b.1 <> uh_freep s) ->
  malloc_loop F nu prev (first T1 p) (length T1 + fuel) s
    = malloc_loop F nu (match last T1 with Some b => b.1 | None => prev end) p fuel s.
Proof.
  induction T1 as [|b T1 IH]; intros prev p fuel Hc Hr Hs Hf; [done|].
  destruct Hc as (Hn & Hz & Hc). inversion_clear Hs as [|? ? Hb Hs']. destruct (Hr b) as [R1 R2]; [left|].
  cbn [length Nat.add malloc_loop first]. hstep. rewrite Hz. unfold small in Hb. bfalse (nu <=? b.2). hstep.
  assert (b.1 <> uh_freep s) by (apply Hf; left). bfalse (b.1 =? uh_freep s). hstep. rewrite Hn.
  rewrite IH; [|done|by intros c Hin; apply Hr; right|done|by intros c Hin; apply Hf; right].
  destruct T1 as [|c T1]; [done|]. change (last (b :: c :: T1)) with (last (c :: T1)). destruct (last (c :: T1)) eqn:El; [done|].
  by apply last_None in El.
Qed.

(** The order in which [malloc] looks at the blocks. *)
Lemma rotation s fl :
  free_ok s fl -> exists A f B, ring fl = A ++ f :: B /\ f.1 = uh_freep s /\
    chain (uh_mem s) (B ++ A ++ [f]) (first B base) /\ first (B ++ A) f.1 = load64 (uh_mem s) f.1 /\
    (forall b, b ∈ B ++ A -> b.1 <> f.1).
Proof.
  intros Hok. destruct Hok as [_ _ _ Hp Hc Hb]. apply list_elem_of_fmap in Hp as (f & Ef & Hp).
  apply list_elem_of_split in Hp as (A & B & E). exists A, f, B. rewrite E in Hc. apply ring_asc in Hb. rewrite E in Hb.
  apply chain_app in Hc as [HcA (Hf & Hfs & HcB)]. cbn [first] in HcA.
  assert (first A f.1 = base) as HA by (unfold ring in E; destruct A; cbn in *; injection E as <- _; done).
  split_and!; [done|done| | |].
  - rewrite !chain_app. rewrite first_app. cbn [first chain]. rewrite HA. done.
  - rewrite first_app, HA. done.
  - clear -Hb. intros b Hin. apply elem_of_app in Hin as [Hin|Hin].
    + apply asc_app in Hb as [_ [_ Hb]]. pose proof (asc_elem _ _ _ Hb Hin). lia.
    + apply list_elem_of_split in Hin as (A1 & A2 & ->). rewrite <- app_assoc in Hb. apply asc_app in Hb as [_ [_ Hb]].
      assert (b.1 < f.1); [|lia]. apply (asc_elem _ _ _ Hb), elem_of_app. right. left.
Qed.

Lemma rotate_pred fl A f B T1 p T2 :
  ring fl = A ++ f :: B -> B ++ A ++ [f] = T1 ++ p :: T2 -> 1 <= p.2 ->
  exists X pp Y, ring fl = X ++ pp :: p :: Y /\ match last T1 with Some b => b.1 | None => f.1 end = pp.1.
Proof.
  intros E ER Hp.
  assert (forall T, A ++ [f] = p :: T -> False) as Hbase.
  { intros T ET. unfold ring in E. assert (p = (base, 0)) as ->; [|cbn in Hp; lia].
    destruct A as [|a A]; cbn in *; [injection ET as <- _; by injection E as <- _|]. injection ET as <- _. by injection E as <- _. }
  apply app_eq_app in ER as (l & [[-> El]|[-> El]]).
  - destruct l as [|p' l]; [by destruct (Hbase T2)|]. cbn in El. injection El as <- El.
    destruct (exists_last (l := f :: T1)) as (W & pp & EW); [done|].
    exists (A ++ W), pp, l. rewrite E. split.
    + change (f :: T1 ++ p :: l) with ((f :: T1) ++ p :: l). rewrite EW. by rewrite <- !app_assoc.
    + destruct T1 as [|t T1]; [|]. { destruct W as [|? [|]]; cbn in EW; by injection EW as <-. }
      apply (f_equal last) in EW. rewrite last_snoc in EW. change (last (f :: t :: T1)) with (last (t :: T1)) in EW. by rewrite EW.
  - destruct l as [|l0 l _] using rev_ind; [by destruct (Hbase T2)|].
    exists l, l0, (T2 ++ B). split; [|by rewrite app_assoc, last_snoc].
    rewrite E. change (A ++ f :: B) with (A ++ [f] ++ B). rewrite app_assoc, El. by rewrite <- !app_assoc.
Qed.

(** The block [(a, n)] has been taken out of the free list. *)
Record taken (s s' : uheap) (fl fl' : list block) (a n : Z) : Prop := {
  tk_ok : free_ok s' fl';
  tk_state : uh_brk s' = uh_brk s /\ uh_max s' = uh_max s /\ uh_oom s' = uh_oom s;
  tk_size : load32 (uh_mem s') (a + 8) = n;
  tk_range : base + UNIT <= a /\ 1 <= n /\ a + UNIT * n <= uh_brk s;
  tk_cover : forall x, cover fl x <-> cover fl' x \/ inb (a, n) x;
  tk_apart : forall x, inb (a, n) x -> ~ cover fl' x;
  tk_mem : same_on (fun x => ~ cover fl x /\ ~ header base x) (uh_mem s) (uh_mem s');
  tk_length : (length fl' <= length fl)%nat
}.

Lemma blocks_shrink lo hi X p k Y :
  blocks lo hi (X ++ p :: Y) -> 1 <= k < p.2 -> blocks lo hi (X ++ (p.1, p.2 - k) :: Y).
Proof.
  rewrite !blocks_app. intros [HX (?&?&?&HY)] Hk. split; [done|]. cbn [blocks]. unfold bend in *. cbn [fst snd]. split_and!; try lia.
  eapply blocks_mono; [| |exact HY]; lia.
Qed.
Lemma blocks_drop lo hi X p Y : blocks lo hi (X ++ p :: Y) -> blocks lo hi (X ++ Y).
Proof.
  rewrite !blocks_app. intros [HX (?&?&?&HY)]. split; [done|]. eapply blocks_mono; [| |exact HY]; [|lia]. unfold bend in *. lia.
Qed.

(** The rest of the list is away from [p]. *)
Lemma blocks_around lo hi X p Y x :
  blocks lo hi (X ++ p :: Y) -> cover X x \/ cover Y x -> ~ (p.1 <= x <= bend p).
Proof.
  intros Hb Hx. destruct (blocks_sep _ _ _ _ _ Hb) as (HX & _ & _ & _ & HY). destruct Hx as [(b & Hin & Hx)|Hx].
  - specialize (HX b Hin). unfold inb in Hx. lia.
  - pose proof (cover_bounds _ _ _ _ HY Hx). lia.
Qed.

Lemma ring_sep hi fl X q Y :
  blocks (base + UNIT - 1) hi fl -> ring fl = X ++ q :: Y ->
  (forall x, x ∈ X -> x.1 + UNIT <= q.1) /\ (forall y, y ∈ Y -> q.1 + UNIT <= y.1).
Proof.
  intros Hb E. destruct (ring_cases fl X q Y E) as [(->&->&->)|(X'&->&->)].
  - split; [intros x Hx; by apply elem_of_nil in Hx|]. intros y Hy. destruct (blocks_elem _ _ _ _ Hb Hy). cbn. lia.
  - destruct (blocks_sep _ _ _ _ _ Hb) as (HX & ? & ? & ? & HY). split.
    + intros x Hx. apply elem_of_cons in Hx as [->|Hx]; [cbn; lia|]. specialize (HX x Hx).
      destruct (blocks_elem _ _ _ x Hb) as (?&?&?); [apply elem_of_app; by left|]. unfold bend in *. lia.
    + intros y Hy. destruct (blocks_elem _ _ _ _ HY Hy) as (?&?&?). unfold bend in *. lia.
Qed.

(** Headers of the list are free bytes or the bytes of [base]. *)
Lemma ring_headers hi fl b x :
  blocks (base + UNIT - 1) hi fl -> b ∈ ring fl -> header b.1 x -> cover fl x \/ header base x.
Proof.
  intros Hb Hin Hx. apply elem_of_cons in Hin as [->|Hin]; [by right|left]. exists b. split; [done|].
  destruct (blocks_elem _ _ _ _ Hb Hin) as (?&?&?). unfold header, inb, bend in *. lia.
Qed.

Lemma take_exact s fl X pp p Y :
  free_ok s fl -> ring fl = X ++ pp :: p :: Y -> 1 <= p.2 ->
  exists fl', taken s (set_uh_freep pp.1 (set_uh_mem (store64 (uh_mem s) pp.1 (first Y base)) s)) fl fl' p.1 p.2.
Proof.
  intros Hok E Hp. pose proof (ring_reach _ _ Hok) as Hr. destruct Hok as [B1 B2 B3 _ Bc Bb]. rewrite E in Bc, Hr.
  destruct (ring_sep _ _ _ _ _ Bb E) as [S1 S2].
  assert (exists W, fl = W ++ p :: Y /\ ring (W ++ Y) = X ++ pp :: Y) as (W & -> & EW).
  { destruct (ring_cases _ _ _ _ E) as [(->&->&->)|(X'&->&->)]; [by exists []|].
    exists (X' ++ [pp]). unfold ring. by rewrite <- !app_assoc. }
  apply chain_app in Bc as [C1 (C2 & C3 & C4 & C5 & C6)]. cbn [first] in *.
  assert (0 <= first Y base < 2 ^ 31) as HY.
  { destruct Y as [|y Y]; cbn [first]; [lia|]. destruct (Hr y) as [R1 R2]; [|lia]. apply elem_of_app. right. right. right. left. }
  assert (p.1 + UNIT * p.2 <= uh_brk s /\ base + UNIT <= p.1) as [P1 P2].
  { destruct (blocks_elem _ _ _ p Bb) as (?&?&?); [apply elem_of_app; right; left|]. unfold bend in *. lia. }
  assert (forall b, b ∈ X \/ b ∈ Y -> same_on (header b.1) (uh_mem s) (store64 (uh_mem s) pp.1 (first Y base))) as Hfr.
  { intros b Hin x Hx. apply rd_store64. unfold header in Hx. destruct Hin as [Hin|Hin]; [specialize (S1 b Hin); lia|].
    specialize (S2 b ltac:(by right)). lia. }
  exists (W ++ Y). split; hcbn.
  - split; hcbn; try done.
    + rewrite EW, fmap_app. apply elem_of_app. right. left.
    + rewrite EW. apply chain_app. split; [apply (chain_frame (uh_mem s)); [done|intros b Hin; apply Hfr; by left]|].
      cbn [chain]. rewrite load64_store64, u64_small, load32_store64_ne by lia. split_and!; [done|done|].
      apply (chain_frame (uh_mem s)); [done|]. intros b Hin. apply Hfr. by right.
    + by apply (blocks_drop _ _ _ p).
  - done.
  - rewrite load32_store64_ne; [done|]. specialize (S2 p ltac:(left)). lia.
  - split_and!; lia.
  - intros x. rewrite !cover_app, cover_cons. unfold inb, bend. cbn [fst snd]. destruct p. tauto.
  - intros x Hx Hc. apply cover_app in Hc. apply (blocks_around _ _ _ _ _ x Bb) in Hc. unfold inb, bend in *. cbn in *. lia.
  - intros x [Hx1 Hx2]. apply rd_store64. destruct (decide (x < pp.1 \/ pp.1 + 8 <= x)); [done|]. exfalso.
    destruct (ring_headers _ _ pp x Bb) as [?|?]; [rewrite E; apply elem_of_app; right; left|unfold header; lia|done|done].
  - rewrite !length_app. cbn [length]. lia.
Qed.

Lemma take_split s fl X pp p Y nu :
  free_ok s fl -> ring fl = X ++ pp :: p :: Y -> 1 <= nu < p.2 ->
  exists fl', taken s (set_uh_freep pp.1 (set_uh_mem (store32 (store32 (uh_mem s) (p.1 + 8) (p.2 - nu)) (p.1 + UNIT * (p.2 - nu) + 8) nu) s))
    fl fl' (p.1 + UNIT * (p.2 - nu)) nu.
Proof.
  intros Hok E Hp. pose proof (ring_reach _ _ Hok) as Hr. destruct Hok as [B1 B2 B3 _ Bc Bb].
  set (a := p.1 + UNIT * (p.2 - nu)). set (m' := store32 _ _ nu).
  change (X ++ pp :: p :: Y) with (X ++ [pp] ++ p :: Y) in E. rewrite app_assoc in E. destruct (ring_sep _ _ _ _ _ Bb E) as [S1 S2].
  rewrite E in Bc, Hr.
  assert (exists W, fl = W ++ p :: Y /\ forall q, ring (W ++ q :: Y) = (X ++ [pp]) ++ q :: Y) as (W & -> & EW).
  { destruct (ring_cases _ _ _ _ E) as [(Ex&_)|(X'&Ex&->)]; [by destruct X|]. exists X'. split; [done|]. intros q. by rewrite Ex. }
  apply chain_app in Bc as [C1 (C2 & C3 & C4)]. cbn [first] in *.
  destruct (blocks_sep _ _ _ _ _ Bb) as (SX & P2 & P3 & P1 & SY). unfold bend in P1, SY.
  assert (forall x, x < p.1 \/ p.1 + UNIT * p.2 <= x -> rd m' x = rd (uh_mem s) x) as Hm.
  { intros x Hx. unfold m'. rewrite !rd_store32; [done|lia|]. unfold a. lia. }
  assert (forall b, b ∈ X ++ [pp] \/ b ∈ Y -> same_on (header b.1) (uh_mem s) m') as Hfr.
  { intros b Hin x Hx. apply Hm. unfold header in Hx. destruct Hin as [Hin|Hin]; [specialize (S1 b Hin); lia|].
    destruct (blocks_elem _ _ _ _ SY Hin). lia. }
  exists (W ++ (p.1, p.2 - nu) :: Y). split; hcbn.
  - split; hcbn; try done.
    + rewrite EW, !fmap_app. apply elem_of_app. left. apply elem_of_app. right. left.
    + rewrite EW. apply chain_app. split; [apply (chain_frame (uh_mem s)); [done|intros b Hin; apply Hfr; by left]|].
      cbn [chain fst snd]. split_and!.
      * unfold m'. rewrite !load64_store32_ne; [done|lia|]. unfold a. lia.
      * unfold m'. rewrite load32_store32_ne, load32_store32 by (unfold a; lia). unfold u32. rewrite Z.mod_small by lia. done.
      * apply (chain_frame (uh_mem s)); [done|]. intros b Hin. apply Hfr. by right.
    + apply blocks_shrink; [done|lia].
  - done.
  - unfold m'. rewrite load32_store32. unfold u32. rewrite Z.mod_small by lia. done.
  - unfold a. split_and!; lia.
  - intros x. rewrite !cover_app, !cover_cons. unfold inb, bend, a. cbn [fst snd].
    split; [intros [?|[Hx|?]]|intros [[?|[?|?]]|?]]; try tauto; try (right; left; lia).
    destruct (decide (x < p.1 + UNIT * (p.2 - nu))); [left; right; left|right]; lia.
  - intros x Hx Hc. apply cover_app in Hc. rewrite cover_cons in Hc. unfold inb, bend, a in *. cbn [fst snd] in *.
    assert (cover W x \/ cover Y x) as Hc' by (destruct Hc as [?|[?|?]]; [by left|lia|by right]).
    apply (blocks_around _ _ _ _ _ x Bb) in Hc'. unfold bend in Hc'. lia.
  - intros x [Hx1 Hx2]. apply Hm. destruct (decide (x < p.1 \/ p.1 + UNIT * p.2 <= x)); [done|]. exfalso. apply Hx1.
    exists p. split; [apply elem_of_app; right; left|unfold inb, bend; lia].
  - by rewrite !length_app.
Qed.

(** *** The search of [malloc] *)

Lemma malloc_take F nu s fl X pp p Y fuel :
  free_ok s fl -> ring fl = X ++ pp :: p :: Y -> 1 <= nu <= p.2 ->
  exists a s' fl', malloc_loop F nu pp.1 p.1 fuel s = HRet (a + UNIT) s' /\ taken s s' fl fl' a nu.
Proof.
  intros Hok E Hnu. pose proof (ring_reach _ _ Hok) as Hr. rewrite E in Hr. pose proof (fo_chain _ _ Hok) as Hc.
  rewrite E in Hc. apply chain_app in Hc as [_ (_ & _ & Hpn & Hps & _)].
  assert (p ∈ fl) as Hin.
  { destruct (ring_cases fl X pp (p :: Y) E) as [(_&_&->)|(X'&_&->)]; [left|]. apply elem_of_app; right; right; left. }
  destruct (blocks_elem _ _ _ _ (fo_blocks _ _ Hok) Hin) as (P1 & P2 & P3). unfold bend in P3.
  pose proof (fo_base _ _ Hok). pose proof (fo_brk _ _ Hok). pose proof (fo_max _ _ Hok).
  destruct (Hr pp) as [R1 R2]; [apply elem_of_app; right; left|].
  destruct fuel; cbn [malloc_loop]; hstep; rewrite Hps; btrue (nu <=? p.2); (destruct (decide (p.2 = nu)) as [<-|Hne];
    [btrue (p.2 =? p.2); destruct (take_exact s fl X pp p Y Hok E) as (fl' & Ht); [lia|]; do 3 eexists; split; [|exact Ht];
     erewrite hbind; [|hstep; hstep; reflexivity]; cbn beta; rewrite Hpn; hstep; by rewrite (u64_small (p.1 + UNIT)) by lia
    |bfalse (p.2 =? nu); destruct (take_split s fl X pp p Y nu Hok E) as (fl' & Ht); [lia|]; do 3 eexists; split; [|exact Ht];
     assert (load32 (store32 (uh_mem s) (p.1 + 8) (u32 (p.2 - nu))) (p.1 + 8) = p.2 - nu) as Hl
       by (rewrite load32_store32; unfold u32; rewrite Z.mod_mod, Z.mod_small by lia; done);
     erewrite hbind; [|hstep; hstep; cbn [uh_mem set_uh_mem]; rewrite Hl, u64_small by lia; hstep; reflexivity]; cbn beta;
     hstep; rewrite (u32_small (p.2 - nu)) by lia; by rewrite u64_small by lia]).
Qed.

Lemma malloc_found F nu s fl fuel :
  free_ok s fl -> 1 <= nu -> (exists b, b ∈ fl /\ nu <= b.2) -> (length fl + 1 <= fuel)%nat ->
  exists a s' fl', malloc_loop F nu (uh_freep s) (load64 (uh_mem s) (uh_freep s)) fuel s = HRet (a + UNIT) s' /\
    taken s s' fl fl' a nu.
Proof.
  intros Hok Hnu (b & Hb & Hbn) Hf. destruct (rotation s fl Hok) as (A & f & B & E & Ef & Hc & Hfirst & Hne).
  pose proof (ring_reach _ _ Hok) as Hr. rewrite E in Hr.
  destruct (first_fit nu (B ++ A ++ [f])) as [Hs|(T1 & p & T2 & ER & Hs & Hp)].
  - exfalso. assert (b ∈ B ++ A ++ [f]) as Hin.
    { assert (b ∈ ring fl) as Hin by by right. rewrite E in Hin. rewrite !elem_of_app in *. rewrite elem_of_cons in Hin.
      rewrite list_elem_of_singleton. tauto. }
    rewrite Forall_forall in Hs. specialize (Hs b Hin). unfold small in Hs. lia.
  - destruct (rotate_pred fl A f B T1 p T2 E ER) as (X & pp & Y & E2 & Epp); [lia|].
    assert (forall c, c ∈ T1 -> c ∈ B ++ A) as HT1.
    { intros c Hin. rewrite app_assoc in ER. destruct T2 as [|t T2 _] using rev_ind.
      - apply app_inj_tail in ER as [-> _]. done.
      - rewrite app_comm_cons, app_assoc in ER. apply app_inj_tail in ER as [-> _]. apply elem_of_app. by left. }
    assert (length T1 <= length fl)%nat as HlT.
    { apply (f_equal length) in ER, E. rewrite !length_app in *. cbn in *. lia. }
    assert (first T1 p.1 = load64 (uh_mem s) (uh_freep s)) as Hst.
    { rewrite <- Ef, <- Hfirst. transitivity (first (T1 ++ p :: T2) 0); [by rewrite first_app|]. rewrite <- ER, !first_app. done. }
    rewrite <- Hst. replace fuel with (length T1 + (fuel - length T1))%nat by lia. rewrite scan_skip.
    + rewrite <- Ef, Epp. eapply malloc_take; [done|done|lia].
    + rewrite ER in Hc. by apply chain_app in Hc as [Hc _].
    + intros c Hin. apply Hr. apply HT1 in Hin. rewrite elem_of_app in Hin |- *. rewrite elem_of_cons. tauto.
    + done.
    + intros c Hin. rewrite <- Ef. apply Hne, HT1, Hin.
Qed.

Lemma malloc_none F nu s fl fuel :
  free_ok s fl -> 1 <= nu -> Forall (small nu) fl ->
  malloc_loop F nu (uh_freep s) (load64 (uh_mem s) (uh_freep s)) (length fl + S fuel) s =
  (p ← morecore F nu; if p =? 0 then mret 0 else nx ← get_ptr p; malloc_loop F nu p nx fuel) s.
Proof.
  intros Hok Hnu Hs. destruct (rotation s fl Hok) as (A & f & B & E & Ef & Hc & Hfirst & Hne).
  pose proof (ring_reach _ _ Hok) as Hr. rewrite E in Hr.
  assert (Forall (small nu) (ring fl)) as Hs' by (constructor; [unfold small; cbn; lia|done]). rewrite E in Hs'.
  apply Forall_app in Hs' as [HsA HsB]. inversion_clear HsB as [|? ? Hsf HsB'].
  rewrite app_assoc in Hc. apply chain_app in Hc as [Hc (_ & Hfs & _)].
  assert (length fl = length (B ++ A)) as ->. { apply (f_equal length) in E. rewrite !length_app in *. cbn in *. lia. }
  rewrite <- Ef, <- Hfirst. change (first [f] (first B base)) with f.1 in Hc. rewrite scan_skip.
  - cbn [malloc_loop]. destruct (Hr f) as [R1 R2]; [apply elem_of_app; right; left|]. hstep. rewrite Hfs. unfold small in Hsf.
    bfalse (nu <=? f.2). hstep. rewrite Ef. by btrue (uh_freep s =? uh_freep s).
  - done.
  - intros c Hin. apply Hr. rewrite elem_of_app in Hin |- *. rewrite elem_of_cons. tauto.
  - by apply Forall_app.
  - intros c Hin. rewrite <- Ef. by apply Hne.
Qed.

(** *** Growing the heap *)

Lemma blocks_end lo hi l b : blocks lo hi l -> b ∈ l -> ~ cover l (bend b).
Proof.
  intros Hb Hin. apply list_elem_of_split in Hin as (X & Y & ->). intros Hc. rewrite cover_app, cover_cons in Hc.
  destruct (blocks_sep _ _ _ _ _ Hb) as (_ & _ & ? & _).
  destruct Hc as [Hc|[Hc|Hc]]; [|unfold inb in Hc; lia|];
    (eapply (blocks_around _ _ _ _ _ _ Hb); [eauto|unfold bend; lia]).
Qed.

(** A run of free bytes lies in one block. *)
Lemma cover_run lo hi l a n :
  blocks lo hi l -> 1 <= n -> (forall x, inb (a, n) x -> cover l x) -> exists b, b ∈ l /\ n <= b.2.
Proof.
  intros Hb Hn Hc. destruct (Hc a) as (b & Hin & Hx); [unfold inb, bend; cbn; lia|]. exists b. split; [done|].
  destruct (decide (bend b < a + UNIT * n)) as [Hlt|Hge]; [|unfold inb, bend in *; lia].
  exfalso. apply (blocks_end _ _ _ _ Hb Hin), Hc. unfold inb, bend in *. cbn in *. lia.
Qed.

Definition grow (nu : Z) : Z := if nu <? 4096 then 4096 else nu.

Lemma morecore_refused F nu s fl :
  free_ok s fl -> 1 <= nu -> nu * UNIT < 2 ^ 31 -> refuses (grow nu * UNIT) s = true ->
  morecore F nu s = HRet 0 (set_uh_oom (tail (uh_oom s)) s).
Proof.
  intros Hok Hnu Hmax Hr. unfold morecore. fold (grow nu). assert (4096 <= grow nu < 2 ^ 27) by (unfold grow; case_match; lia).
  rewrite s32_small by lia. erewrite hbind; [|unfold u_sbrk; btrue (0 <? grow nu * UNIT); rewrite Hr; reflexivity]. done.
Qed.

Lemma free_ok_sbrk s fl b l m :
  free_ok s fl -> uh_brk s <= b <= uh_max s -> same_on (fun x => x < uh_brk s) (uh_mem s) m ->
  free_ok (set_uh_mem m (set_uh_brk b (set_uh_oom l s))) fl.
Proof.
  intros Hok Hb Hm. pose proof (ring_reach _ _ Hok) as Hr. destruct Hok. split; hcbn; try done; try lia.
  - apply (chain_frame (uh_mem s)); [done|]. intros c Hin x Hx. apply Hm. destruct (Hr c Hin). unfold header in Hx. lia.
  - eapply blocks_mono; [| |done]; lia.
Qed.

Lemma morecore_ok F nu s fl :
  free_ok s fl -> 1 <= nu -> nu * UNIT < 2 ^ 31 -> refuses (grow nu * UNIT) s = false -> (length fl + 1 <= F)%nat ->
  exists m q fl', let s' := set_uh_freep q (set_uh_mem m (set_uh_brk (uh_brk s + grow nu * UNIT) (set_uh_oom (tail (uh_oom s)) s))) in
    morecore F nu s = HRet q s' /\ free_ok s' fl' /\ 0 < q /\ q + UNIT <= uh_brk s' /\
    (forall x, cover fl' x <-> cover fl x \/ inb (uh_brk s, grow nu) x) /\ (length fl' <= length fl + 1)%nat /\
    same_on (fun x => x < uh_brk s /\ ~ cover fl x /\ ~ header base x) (uh_mem s) m.
Proof.
  intros Hok Hnu Hmax Hr Hf. unfold morecore. fold (grow nu). assert (4096 <= grow nu < 2 ^ 27) as Hg by (unfold grow; case_match; lia).
  pose proof Hok as [B1 B2 B3 B4 B5 B6].
  assert (uh_brk s + grow nu * UNIT <= uh_max s) as Hle by (unfold refuses in Hr; apply orb_false_iff in Hr as [Hr _]; lia).
  rewrite s32_small by lia. erewrite hbind; [|unfold u_sbrk; btrue (0 <? grow nu * UNIT); rewrite Hr; reflexivity]. cbn beta.
  rewrite s32_small, u64_small, u32_small by lia. change (u64 (-1)) with (2 ^ 64 - 1). bfalse (uh_brk s =? 2 ^ 64 - 1).
  erewrite hbind; [|apply set_size_ok; cbn; lia]. cbn beta. rewrite u64_small by lia.
  set (s1 := set_uh_mem _ _).
  assert (free_ok s1 fl) as Hok1.
  { apply free_ok_sbrk; [done|lia|]. intros x Hx. cbn. apply rd_store32. lia. }
  destruct (free_block s1 fl (uh_brk s) (grow nu) F) as (m & q & fl' & Ef & Hok' & Hcov & Hlen & Hm); try done; try (cbn; lia).
  { cbn. rewrite load32_store32. by rewrite u32_small by lia. }
  { intros x Hx Hc. apply (cover_bounds _ _ _ _ B6) in Hc. unfold inb in Hx. cbn in Hx. lia. }
  erewrite hbind by exact Ef. exists m, q, fl'. cbn beta.
  assert (0 < q /\ q + UNIT <= uh_brk s1) as [Hq1 Hq2].
  { pose proof (fo_freep _ _ Hok') as Hin. cbn [uh_freep set_uh_freep] in Hin. apply list_elem_of_fmap in Hin as (b & -> & Hin).
    destruct (ring_reach _ _ Hok' b Hin) as [R1 R2]. cbn in R2. split; [|cbn; lia].
    assert (base - 1 < b.1); [|lia]. eapply asc_elem; [|exact Hin]. eapply ring_asc, (fo_blocks _ _ Hok'). }
  split_and!; try done. intros x (Hx1 & Hx2 & Hx3). rewrite Hm.
  - cbn. apply rd_store32. lia.
  - split_and!; [done|done|]. unfold header. lia.
Qed.

(** *** The blocks given out *)

Record alloc_ok (s : uheap) (fl : list block) (al : gmap Z Z) : Prop := {
  ao_range : forall a n, al !! a = Some n -> base + UNIT <= a /\ 1 <= n /\ a + UNIT * n <= uh_brk s;
  ao_size : forall a n, al !! a = Some n -> load32 (uh_mem s) (a + 8) = n;
  ao_apart : forall a n b k x, al !! a = Some n -> al !! b = Some k -> a <> b -> inb (a, n) x -> ~ inb (b, k) x;
  ao_free : forall a n x, al !! a = Some n -> inb (a, n) x -> ~ cover fl x
}.

Definition heap_ok (s : uheap) (fl : list block) (al : gmap Z Z) : Prop := free_ok s fl /\ alloc_ok s fl al.

(** Before the first call of [malloc]. *)
Definition heap_new (s : uheap) : Prop :=
  uh_freep s = 0 /\ 0 < base /\ base + UNIT <= uh_brk s <= uh_max s /\ uh_max s < 2 ^ 31.

Definition heap_rep (s : uheap) (fl : list block) (al : gmap Z Z) : Prop :=
  (heap_new s /\ fl = [] /\ al = ∅) \/ heap_ok s fl al.

(** The bytes that belong to the program. *)
Definition payload (al : gmap Z Z) (x : Z) : Prop := exists a n, al !! a = Some n /\ a + UNIT <= x < a + UNIT * n.

Lemma alloc_frame s s' fl fl' al :
  alloc_ok s fl al -> uh_brk s <= uh_brk s' ->
  (forall a n, al !! a = Some n -> same_on (inb (a, n)) (uh_mem s) (uh_mem s')) ->
  (forall a n x, al !! a = Some n -> inb (a, n) x -> ~ cover fl' x) -> alloc_ok s' fl' al.
Proof.
  intros [A1 A2 A3 A4] Hb Hm Hf. split; try done.
  - intros a n Ha. specialize (A1 a n Ha). lia.
  - intros a n Ha. rewrite <- (A2 a n Ha). apply load32_ext. intros x Hx. apply (Hm a n Ha).
    destruct (A1 a n Ha). unfold inb, bend. cbn. lia.
Qed.

Lemma alloc_add s fl al a n :
  alloc_ok s fl al -> base + UNIT <= a -> 1 <= n -> a + UNIT * n <= uh_brk s -> load32 (uh_mem s) (a + 8) = n ->
  (forall x, inb (a, n) x -> ~ cover fl x) -> (forall b k x, al !! b = Some k -> inb (b, k) x -> ~ inb (a, n) x) ->
  al !! a = None /\ alloc_ok s fl (<[a := n]> al).
Proof.
  intros [A1 A2 A3 A4] Ha Hn Hb Hs Hf Hal. split.
  { destruct (al !! a) as [k|] eqn:E; [|done]. destruct (A1 a k E) as (?&?&?).
    exfalso. apply (Hal a k a E); unfold inb, bend; cbn; lia. }
  split.
  - intros b k [[<- <-]|[_ Hk]]%lookup_insert_Some; [done|by apply A1].
  - intros b k [[<- <-]|[_ Hk]]%lookup_insert_Some; [done|by apply A2].
  - intros b k c j x [[<- <-]|[? Hk]]%lookup_insert_Some [[<- <-]|[? Hj]]%lookup_insert_Some Hne Hx; try done.
    + intros Hx'. by apply (Hal c j x Hj).
    + by apply (Hal b k x Hk).
    + by apply (A3 b k c j).
  - intros b k x [[<- <-]|[_ Hk]]%lookup_insert_Some Hx; [by apply Hf|by apply (A4 b k)].
Qed.

Lemma alloc_delete s fl al a n :
  alloc_ok s fl al -> al !! a = Some n -> alloc_ok s fl (delete a al) /\
  forall b k x, delete a al !! b = Some k -> inb (b, k) x -> ~ inb (a, n) x.
Proof.
  intros [A1 A2 A3 A4] Ha. split; [split|].
  - intros b k [_ Hk]%lookup_delete_Some. by apply A1.
  - intros b k [_ Hk]%lookup_delete_Some. by apply A2.
  - intros b k c j x [? Hk]%lookup_delete_Some [? Hj]%lookup_delete_Some. by apply A3.
  - intros b k x [_ Hk]%lookup_delete_Some. by apply A4.
  - intros b k x [? Hk]%lookup_delete_Some Hx. apply (A3 b k a n); done.
Qed.

Lemma blocks_length lo hi l : blocks lo hi l -> lo <= hi -> UNIT * Z.of_nat (length l) <= hi - lo.
Proof.
  revert lo. induction l as [|b l IH]; intros lo; cbn [blocks length]; [lia|]. intros (?&?&?&Hl) _.
  specialize (IH _ Hl ltac:(lia)). unfold bend in *. lia.
Qed.

(** *** free, as a program sees it *)

Lemma free_heap s fl al a n F :
  heap_ok s fl al -> al !! a = Some n -> (length fl + 1 <= F)%nat ->
  exists s' fl', free F (a + UNIT) s = HRet tt s' /\ heap_ok s' fl' (delete a al) /\
    (forall x, cover fl' x <-> cover fl x \/ inb (a, n) x) /\
    (forall b k, delete a al !! b = Some k -> same_on (inb (b, k)) (uh_mem s) (uh_mem s')) /\
    uh_brk s' = uh_brk s /\ uh_max s' = uh_max s.
Proof.
  intros [Hok Hal] Ha HF. destruct (ao_range _ _ _ Hal a n Ha) as (R1 & R2 & R3).
  destruct (free_block s fl a n F) as (m & q & fl' & E & Hok' & Hc & Hl & Hm); try done.
  { by apply (ao_size _ _ _ Hal). } { intros x. by apply (ao_free _ _ _ Hal). }
  destruct (alloc_delete _ _ _ _ _ Hal Ha) as [Hal' Hap].
  assert (forall b k, delete a al !! b = Some k -> same_on (inb (b, k)) (uh_mem s) m) as Hsame.
  { intros b k Hk x Hx. apply Hm. split_and!; [by apply (ao_free _ _ _ Hal' b k)| |].
    - destruct (ao_range _ _ _ Hal' b k Hk). unfold inb, header in *. cbn in *. lia.
    - intros Hh. apply (Hap b k x Hk Hx). unfold inb, bend, header in *. cbn. lia. }
  eexists _, fl'. split; [exact E|]. split_and!; try done. split; [done|].
  eapply alloc_frame; [exact Hal'|done|done|]. intros b k x Hk Hx. rewrite Hc. intros [Hcx|Hcx].
  - by apply (ao_free _ _ _ Hal' b k x).
  - by apply (Hap b k x).
Qed.
(** *** malloc, as a program sees it *)

Definition keeps (al : gmap Z Z) (s s' : uheap) : Prop :=
  uh_max s' = uh_max s /\ forall b k, al !! b = Some k -> same_on (inb (b, k)) (uh_mem s) (uh_mem s').

Lemma heap_keeps_trans al s s1 s2 : keeps al s s1 -> keeps al s1 s2 -> keeps al s s2.
Proof.
  intros [K1 K2] [K3 K4]. split; [congruence|]. intros b k Hk. eapply same_on_trans; [by apply K2|by apply K4].
Qed.

(** What [malloc] of [nu] units may return. *)
Inductive malloc_post (s : uheap) (fl : list block) (al : gmap Z Z) (nu : Z) : Z -> uheap -> Prop :=
| mp_null s' :
    heap_ok s' fl al -> Forall (small nu) fl -> refuses (grow nu * UNIT) s = true -> uh_brk s' = uh_brk s ->
    malloc_post s fl al nu 0 s'
| mp_block a fl' s' :
    al !! a = None -> heap_ok s' fl' (<[a := nu]> al) ->
    (uh_brk s' = uh_brk s \/ Forall (small nu) fl) ->
    (forall x, cover fl x \/ uh_brk s <= x < uh_brk s' <-> cover fl' x \/ inb (a, nu) x) ->
    (length fl' <= length fl + 1)%nat ->
    malloc_post s fl al nu (a + UNIT) s'.

Lemma taken_heap s s' fl fl' al a n :
  heap_ok s fl al -> taken s s' fl fl' a n -> al !! a = None /\ heap_ok s' fl' (<[a := n]> al) /\ keeps al s s'.
Proof.
  intros [Hok Hal] [T1 (T2 & T2' & _) T3 (T4 & T5 & T6) T7 T8 T9 _].
  assert (forall b k, al !! b = Some k -> same_on (inb (b, k)) (uh_mem s) (uh_mem s')) as Hsame.
  { intros b k Hk x Hx. apply T9. split; [by apply (ao_free _ _ _ Hal b k)|].
    destruct (ao_range _ _ _ Hal b k Hk). unfold inb, header in *. cbn in *. lia. }
  assert (alloc_ok s' fl' al) as Hal'.
  { eapply alloc_frame; [exact Hal|lia|done|]. intros b k x Hk Hx Hc. apply (ao_free _ _ _ Hal b k x Hk Hx), T7. by left. }
  destruct (alloc_add s' fl' al a n) as [Hn Ha]; try done; try lia.
  intros b k x Hk Hx Hc. apply (ao_free _ _ _ Hal b k x Hk Hx), T7. by right.
Qed.

Lemma heap_oom s fl al l : heap_ok s fl al -> heap_ok (set_uh_oom l s) fl al.
Proof. intros [[] []]. done. Qed.

(** After [morecore]. *)
Lemma morecore_heap s s1 fl fl1 al nu :
  heap_ok s fl al -> free_ok s1 fl1 -> uh_max s1 = uh_max s -> uh_brk s <= uh_brk s1 ->
  (forall x, cover fl1 x <-> cover fl x \/ inb (uh_brk s, nu) x) ->
  same_on (fun x => x < uh_brk s /\ ~ cover fl x /\ ~ header base x) (uh_mem s) (uh_mem s1) ->
  heap_ok s1 fl1 al /\ keeps al s s1.
Proof.
  intros [Hok Hal] Hok1 Hmax Hb Hc1 Hm1.
  assert (keeps al s s1) as Hk1.
  { split; [done|]. intros b k Hk x Hx. apply Hm1. destruct (ao_range _ _ _ Hal b k Hk) as (?&?&?).
    split_and!; [unfold inb, bend in *; cbn in *; lia|by apply (ao_free _ _ _ Hal b k)|unfold inb, header in *; cbn in *; lia]. }
  split; [|done]. split; [done|]. eapply alloc_frame; [exact Hal|done|apply Hk1|]. intros b k x Hk Hx. rewrite Hc1. intros [Hc|Hc].
  - by apply (ao_free _ _ _ Hal b k x).
  - destruct (ao_range _ _ _ Hal b k Hk) as (?&?&?). unfold inb, bend in *. cbn in *. lia.
Qed.

Lemma malloc_search F nu s fl al :
  heap_ok s fl al -> 1 <= nu -> nu * UNIT < 2 ^ 31 -> (2 * length fl + 3 <= F)%nat ->
  exists r s', malloc_loop F nu (uh_freep s) (load64 (uh_mem s) (uh_freep s)) F s = HRet r s' /\
    malloc_post s fl al nu r s' /\ keeps al s s'.
Proof.
  intros Hh Hnu Hmax HF. pose proof Hh as [Hok Hal].
  destruct (first_fit nu fl) as [Hs|(T1 & b & T2 & E & _ & Hb)].
  - pose proof (malloc_none F nu s fl (F - length fl - 1) Hok Hnu Hs) as En.
    replace (length fl + S (F - length fl - 1))%nat with F in En by lia. rewrite En.
    destruct (refuses (grow nu * UNIT) s) eqn:Er.
    + erewrite hbind by (by apply (morecore_refused F nu s fl)). eexists _, _. split; [reflexivity|]. split; [|by split].
      apply mp_null; try done. by apply heap_oom.
    + destruct (morecore_ok F nu s fl) as (m & q & fl1 & E1 & Hok1 & Hq & Hq' & Hc1 & Hl1 & Hm1); try done; [lia|].
      cbv zeta in *. set (s1 := set_uh_freep q _) in *. erewrite hbind by exact E1. cbn beta. bfalse (q =? 0).
      assert (4096 <= grow nu /\ nu <= grow nu) by (unfold grow; case_match; lia).
      erewrite hbind by (apply get_ptr_ok; [lia|done]). cbn beta.
      destruct (morecore_heap s s1 fl fl1 al (grow nu)) as [Hh1 Hk1]; try done; [unfold s1; hcbn; lia|].
      destruct (malloc_found F nu s1 fl1 (F - length fl - 1)) as (a & s2 & fl2 & E2 & Ht); try done; [|lia|].
      { destruct (cover_run _ _ _ (uh_brk s) (grow nu) (fo_blocks _ _ Hok1)) as (b & Hin & Hb); [lia| |exists b; split; [done|lia]].
        intros x Hx. apply Hc1. by right. }
      exists (a + UNIT), s2. split; [exact E2|]. destruct (taken_heap _ _ _ _ _ _ _ Hh1 Ht) as (Hn & Hh2 & Hk2).
      split; [|by eapply heap_keeps_trans]. eapply mp_block; try done; [by right| |pose proof (tk_length _ _ _ _ _ _ Ht); lia]. intros x.
      destruct (tk_state _ _ _ _ _ _ Ht) as (-> & _). rewrite <- (tk_cover _ _ _ _ _ _ Ht x), Hc1. unfold inb, bend, s1. hcbn. cbn [fst snd].
      replace (UNIT * grow nu) with (grow nu * UNIT) by lia. tauto.
  - destruct (malloc_found F nu s fl F) as (a & s2 & fl2 & E2 & Ht); try done; [|lia|].
    { exists b. split; [|done]. rewrite E. apply elem_of_app. right. left. }
    exists (a + UNIT), s2. split; [exact E2|]. destruct (taken_heap _ _ _ _ _ _ _ Hh Ht) as (Hn & Hh2 & Hk2).
    split; [|done]. destruct (tk_state _ _ _ _ _ _ Ht) as (Hbrk & _). eapply mp_block; try done; [by left| |pose proof (tk_length _ _ _ _ _ _ Ht); lia]. intros x.
    rewrite <- (tk_cover _ _ _ _ _ _ Ht x), Hbrk. split; [intros [?|?]; [done|lia]|by left].
Qed.

Lemma units_range nbytes :
  0 <= nbytes < 2 ^ 32 -> 1 <= units nbytes /\ nbytes <= UNIT * (units nbytes - 1) < nbytes + UNIT.
Proof.
  intros Hn. unfold units. pose proof (Z.div_mod (nbytes + UNIT - 1) 16). pose proof (Z.mod_pos_bound (nbytes + UNIT - 1) 16).
  rewrite u32_small; lia.
Qed.

(** The list that [malloc] makes at its first call. *)
Definition heap0 (s : uheap) : uheap :=
  set_uh_mem (store32 (store64 (uh_mem s) base base) (base + 8) 0) (set_uh_freep base s).

Lemma heap_init s :
  heap_new s -> (_ ← set_freep base; _ ← set_ptr base base; set_bsize base 0) s = HRet tt (heap0 s) /\ heap_ok (heap0 s) [] ∅.
Proof.
  intros (H1 & H2 & H3 & H4). split.
  - hstep. hstep. by rewrite set_size_ok by (hcbn; lia).
  - split; [|split; intros; simplify_map_eq]. unfold heap0. split; hcbn; try done; [left|].
    cbn [ring chain first fst snd]. rewrite load64_store32_ne, load64_store64, u64_small, load32_store32 by lia. done.
Qed.

(** The state from which the search of [malloc] starts. *)
Lemma malloc_start s fl al :
  heap_rep s fl al ->
  exists s0, heap_ok s0 fl al /\ keeps al s s0 /\ uh_brk s0 = uh_brk s /\ uh_oom s0 = uh_oom s /\
    forall F n, malloc base F n s = malloc_loop F (units n) (uh_freep s0) (load64 (uh_mem s0) (uh_freep s0)) F s0.
Proof.
  assert (forall s0 fl al F n, heap_ok s0 fl al -> (prevp ← get_freep; p ← get_ptr prevp; malloc_loop F (units n) prevp p F) s0 =
    malloc_loop F (units n) (uh_freep s0) (load64 (uh_mem s0) (uh_freep s0)) F s0) as Hrest.
  { intros s0 fl0 al0 F n [Hok _]. hstep. pose proof (fo_freep _ _ Hok) as Hin. apply list_elem_of_fmap in Hin as (b & -> & Hin).
    destruct (ring_reach _ _ Hok b Hin). by hstep. }
  intros [(Hn & -> & ->)|Hh].
  - destruct (heap_init s Hn) as [E Hh]. exists (heap0 s). split_and!; try done.
    intros F n. destruct Hn as (Hf & _). unfold malloc. hstep. rewrite Hf. cbn [Z.eqb]. erewrite hbind by exact E. by eapply Hrest.
  - exists s. split_and!; try done. intros F n. unfold malloc. hstep.
    assert (0 < uh_freep s).
    { destruct Hh as [Hok _]. pose proof (fo_freep _ _ Hok) as Hin. apply list_elem_of_fmap in Hin as (b & -> & Hin).
      pose proof (asc_elem _ _ _ (ring_asc _ _ (fo_blocks _ _ Hok)) Hin). pose proof (fo_base _ _ Hok). lia. }
    bfalse (uh_freep s =? 0). erewrite hbind by reflexivity. by eapply Hrest.
Qed.

Lemma malloc_heap F nbytes s fl al :
  heap_rep s fl al -> 0 <= nbytes <= 2 ^ 31 - 32 -> (2 * length fl + 3 <= F)%nat ->
  exists r s', malloc base F nbytes s = HRet r s' /\ malloc_post s fl al (units nbytes) r s' /\ keeps al s s'.
Proof.
  intros Hrep Hn HF. destruct (units_range nbytes) as [U1 U2]; [lia|].
  destruct (malloc_start s fl al Hrep) as (s0 & Hh & Hk & Hb & Ho & E). rewrite E.
  destruct (malloc_search F (units nbytes) s0 fl al Hh) as (r & s' & Er & Hp & Hk'); [lia|lia|done|].
  exists r, s'. split_and!; [done| |by eapply heap_keeps_trans]. destruct Hk as [Hm _]. destruct Hp.
  - apply mp_null; try done; [|congruence]. unfold refuses in *. by rewrite <- Hm, <- Hb, <- Ho.
  - rewrite Hb in *. by eapply mp_block.
Qed.

(** ** An abstract heap

    Addresses of blocks with the bytes in them.  Blocks do not overlap and
    have at least the size asked for; their bytes change only by stores. *)

Inductive ucall : Type :=
| UMalloc (nbytes : Z)
| UFree (p : Z)
| UStore (p off v : Z).

Definition ucall_run (F : nat) (c : ucall) : HM Z :=
  match c with
  | UMalloc n => malloc base F n
  | UFree p => _ ← free F p; mret 0
  | UStore p off v => access (p + off) 1 (fun s => HRet 0 (set_uh_mem (wr (uh_mem s) (p + off) v) s))
  end.

Definition permitted (H : gmap Z (list Z)) (c : ucall) : Prop :=
  match c with
  | UMalloc n => 0 <= n <= 2 ^ 31 - 32
  | UFree p => is_Some (H !! p)
  | UStore p off v => exists l, H !! p = Some l /\ 0 <= off < Z.of_nat (length l)
  end.

Inductive abs_step (H : gmap Z (list Z)) : ucall -> Z -> gmap Z (list Z) -> Prop :=
| as_null n : abs_step H (UMalloc n) 0 H
| as_new n p l :
    H !! p = None -> p <> 0 -> n <= Z.of_nat (length l) ->
    (forall q k, H !! q = Some k -> p + Z.of_nat (length l) <= q \/ q + Z.of_nat (length k) <= p) ->
    abs_step H (UMalloc n) p (<[p := l]> H)
| as_free p l : H !! p = Some l -> abs_step H (UFree p) 0 (delete p H)
| as_store p l off v : H !! p = Some l -> abs_step H (UStore p off v) 0 (<[p := <[Z.to_nat off := u8 v]> l]> H).

Definition ucontents (s : uheap) (a n : Z) : list Z := rdn (uh_mem s) (a + UNIT) (Z.to_nat (UNIT * (n - 1))).

Definition simulates (s : uheap) (H : gmap Z (list Z)) : Prop :=
  exists fl al, heap_rep s fl al /\
    forall p l, H !! p = Some l <-> exists n, al !! (p - UNIT) = Some n /\ l = ucontents s (p - UNIT) n.

Lemma contents_same s s' a n :
  1 <= n -> same_on (inb (a, n)) (uh_mem s) (uh_mem s') -> ucontents s' a n = ucontents s a n.
Proof. intros Hn Hs. apply rdn_ext. intros x Hx. apply Hs. unfold inb, bend. cbn. lia. Qed.

Lemma apart_le a n b k :
  1 <= n -> 1 <= k -> (forall x, inb (a, n) x -> ~ inb (b, k) x) -> a + UNIT * n <= b \/ b + UNIT * k <= a.
Proof.
  intros Hn Hk Hap. destruct (decide (a <= b)).
  - left. destruct (decide (a + UNIT * n <= b)); [done|]. exfalso. apply (Hap b); unfold inb, bend; cbn; lia.
  - right. destruct (decide (b + UNIT * k <= a)); [done|]. exfalso. apply (Hap a); unfold inb, bend; cbn; lia.
Qed.

Lemma heap_rep_alloc s fl al : heap_rep s fl al -> alloc_ok s fl al.
Proof. intros [(_ & -> & ->)|[_ Ha]]; [|done]. split; intros; simplify_map_eq. Qed.

Lemma heap_rep_length s fl al F :
  heap_rep s fl al -> uh_max s / 8 + 3 <= Z.of_nat F -> (2 * length fl + 3 <= F)%nat.
Proof.
  intros [((_ & ? & ? & ?) & -> & _)|[[B1 B2 B3 _ _ B6] _]] HF; pose proof (Z.div_mod (uh_max s) 8); pose proof (Z.mod_pos_bound (uh_max s) 8).
  - cbn. lia.
  - apply blocks_length in B6; lia.
Qed.

Lemma sim_malloc F s H n :
  simulates s H -> 0 <= n <= 2 ^ 31 - 32 -> uh_max s / 8 + 3 <= Z.of_nat F ->
  exists r s' H', malloc base F n s = HRet r s' /\ abs_step H (UMalloc n) r H' /\ simulates s' H' /\ uh_max s' = uh_max s /\
    (r = 0 -> refuses (grow (units n) * UNIT) s = true).
Proof.
  intros (fl & al & Hrep & HH) Hn HF. pose proof (heap_rep_alloc _ _ _ Hrep) as Hal.
  destruct (malloc_heap F n s fl al Hrep Hn) as (r & s' & E & Hp & Hmax & Hk); [by eapply heap_rep_length|].
  assert (forall p l, H !! p = Some l <-> exists k, al !! (p - UNIT) = Some k /\ l = ucontents s' (p - UNIT) k) as HH'.
  { intros p l. rewrite HH. split; intros (k & Ha & ->); exists k; (split; [done|]); [symmetry|];
      (apply contents_same; [by apply (ao_range _ _ _ Hal) in Ha as (_&?&_)|by apply Hk]). }
  destruct (units_range n) as [U1 U2]; [lia|].
  destruct Hp as [s' Hh Hs Hr Hb|a fl' s' Hnone Hh Hb Hc _].
  - exists 0, s', H. split_and!; [done|constructor| |done|done]. exists fl, al. split; [by right|done].
  - destruct Hh as [Hok' Hal']. destruct (ao_range _ _ _ Hal' a (units n)) as (R1 & R2 & R3); [by simplify_map_eq|].
    pose proof (fo_base _ _ Hok') as Hbase. exists (a + UNIT), s', (<[a + UNIT := ucontents s' a (units n)]> H).
    split_and!; [done| | |done|lia].
    + constructor; [|lia| |].
      * destruct (H !! (a + UNIT)) as [l|] eqn:El; [|done]. apply HH in El as (k & Ha & _).
        replace (a + UNIT - UNIT) with a in Ha by lia. congruence.
      * unfold ucontents. rewrite rdn_length. lia.
      * intros q k Hq. apply HH in Hq as (j & Hj & ->). unfold ucontents. rewrite !rdn_length.
        destruct (ao_range _ _ _ Hal _ _ Hj) as (_ & Hj1 & _).
        destruct (apart_le a (units n) (q - UNIT) j); [lia|lia| |lia|lia]. intros x.
        apply (ao_apart _ _ _ Hal'); [by simplify_map_eq| |congruence]. rewrite lookup_insert_ne by congruence. done.
    + exists fl', (<[a := units n]> al). split; [by right; split|]. intros p l. destruct (decide (p = a + UNIT)) as [->|Hne].
      * replace (a + UNIT - UNIT) with a by lia. rewrite !lookup_insert_eq. naive_solver.
      * rewrite !lookup_insert_ne by lia. apply HH'.
Qed.

Lemma sim_free F s H p l :
  simulates s H -> H !! p = Some l -> uh_max s / 8 + 3 <= Z.of_nat F ->
  exists s', free F p s = HRet tt s' /\ simulates s' (delete p H) /\ uh_max s' = uh_max s.
Proof.
  intros (fl & al & Hrep & HH) Hp HF. pose proof (heap_rep_length _ _ _ _ Hrep HF) as Hlen.
  apply HH in Hp as (n & Ha & ->). destruct Hrep as [(_ & _ & ->)|Hh]; [by simplify_map_eq|].
  destruct (free_heap s fl al (p - UNIT) n F Hh Ha) as (s' & fl' & E & Hh' & Hc & Hk & Hb & Hm); [lia|].
  exists s'. replace (p - UNIT + UNIT) with p in E by lia. split_and!; [done| |done].
  exists fl', (delete (p - UNIT) al). split; [by right|]. intros q l. destruct Hh' as [_ Hal'].
  destruct (decide (q = p)) as [->|Hne]; [rewrite !lookup_delete_eq; naive_solver|].
  rewrite !lookup_delete_ne by lia. rewrite HH. split; intros (k & Hq & ->); exists k; (split; [done|]);
    [symmetry|]; (assert (delete (p - UNIT) al !! (q - UNIT) = Some k) as Hd by (rewrite lookup_delete_ne by lia; done);
     apply contents_same; [by apply (ao_range _ _ _ Hal') in Hd as (_&?&_)|by apply Hk]).
Qed.

Lemma rd_wr_ne m y v x : x <> y -> rd (wr m y v) x = rd m x.
Proof. intros Hx. rewrite rd_wr. by bfalse (y =? x). Qed.

Lemma heap_store s fl al a n y v :
  heap_ok s fl al -> al !! a = Some n -> a + UNIT <= y < a + UNIT * n ->
  heap_ok (set_uh_mem (wr (uh_mem s) y v) s) fl al.
Proof.
  intros [Hok Hal] Ha Hy. assert (inb (a, n) y) as Hin by (unfold inb, bend; cbn; lia).
  pose proof (ao_free _ _ _ Hal a n y Ha Hin) as Hyf. destruct (ao_range _ _ _ Hal a n Ha) as (Hr & _). split.
  - pose proof Hok as [B1 B2 B3 B4 B5 B6]. split; hcbn; try done. apply (chain_frame (uh_mem s)); [done|].
    intros b Hb x Hx. apply rd_wr_ne. intros ->. destruct (ring_headers _ _ b y B6 Hb Hx) as [?|Hh]; [done|]. unfold header in Hh. lia.
  - destruct Hal as [A1 A2 A3 A4]. split; hcbn; try done. intros b k Hb. rewrite <- (A2 b k Hb). apply load32_ext. intros x Hx.
    apply rd_wr_ne. intros ->. destruct (decide (b = a)) as [->|Hne]; [lia|].
    destruct (A1 b k Hb) as (_ & Hk & _). apply (A3 a n b k y Ha Hb); [done|done|]. unfold inb, bend. cbn. lia.
Qed.

Lemma contents_store s a n y v :
  a + UNIT <= y < a + UNIT * n ->
  ucontents (set_uh_mem (wr (uh_mem s) y v) s) a n = <[Z.to_nat (y - (a + UNIT)) := u8 v]> (ucontents s a n).
Proof.
  intros Hy. unfold ucontents. hcbn. apply list_eq. intros i. destruct (decide (i < Z.to_nat (UNIT * (n - 1)))%nat) as [Hi|Hi].
  - rewrite rdn_lookup by done. rewrite rd_wr. destruct (Z.eqb_spec y (a + UNIT + Z.of_nat i)) as [->|Hne].
    + rewrite list_lookup_insert, rdn_length. destruct (decide _) as [|Hd]; [done|lia].
    + rewrite list_lookup_insert_ne by lia. by rewrite rdn_lookup.
  - rewrite !lookup_ge_None_2; [done| |]; rewrite ?length_insert, rdn_length; lia.
Qed.

Lemma sim_store s H p l off v :
  simulates s H -> H !! p = Some l -> 0 <= off < Z.of_nat (length l) ->
  access (p + off) 1 (fun s => HRet 0 (set_uh_mem (wr (uh_mem s) (p + off) v) s)) s
    = HRet 0 (set_uh_mem (wr (uh_mem s) (p + off) v) s) /\
  simulates (set_uh_mem (wr (uh_mem s) (p + off) v) s) (<[p := <[Z.to_nat off := u8 v]> l]> H).
Proof.
  intros (fl & al & Hrep & HH) Hp Hoff. pose proof Hp as Hp'. apply HH in Hp' as (n & Ha & ->).
  destruct Hrep as [(_ & _ & ->)|Hh]; [by simplify_map_eq|]. unfold ucontents in Hoff. rewrite rdn_length in Hoff.
  pose proof Hh as [Hok Hal]. destruct (ao_range _ _ _ Hal _ _ Ha) as (R1 & R2 & R3). pose proof (fo_base _ _ Hok).
  split; [by rewrite access_ok by lia|].
  exists fl, al. split; [right; eapply heap_store; [done|done|lia]|]. intros q k. destruct (decide (q = p)) as [->|Hne].
  - rewrite lookup_insert_eq, Ha. pose proof (contents_store s (p - UNIT) n (p + off) v ltac:(lia)) as Ec.
    replace (p + off - (p - UNIT + UNIT)) with off in Ec by lia. rewrite <- Ec. split; [intros [= <-]; eauto|intros (? & [= <-] & ->); done].
  - rewrite lookup_insert_ne by done. rewrite HH. split; intros (j & Hj & ->); exists j; (split; [done|]); [symmetry|];
      (destruct (ao_range _ _ _ Hal _ _ Hj) as (_ & Hj1 & _); apply contents_same; [done|]; intros x Hx; apply rd_wr_ne; intros ->;
       apply (ao_apart _ _ _ Hal _ _ _ _ (p + off) Ha Hj); [lia|unfold inb, bend; cbn; lia|done]).
Qed.

End heap.

(** C13: malloc, free and stores into blocks implement the abstract heap, as
    long as the heap ends below 2^31 and no request exceeds 2^31 - 32 bytes
    ([malloc_huge] is what happens beyond): every call a program may make
    returns, with a result and an effect of the abstract heap; a null pointer
    only when the kernel refuses to grow the process. *)
Theorem umalloc_refines base F s H c :
  simulates base s H -> permitted H c -> uh_max s / 8 + 3 <= Z.of_nat F ->
  exists r s' H', ucall_run base F c s = HRet r s' /\ abs_step H c r H' /\ simulates base s' H' /\ uh_max s' = uh_max s /\
    (forall n, c = UMalloc n -> r = 0 -> refuses (grow (units n) * UNIT) s = true).
Proof.
  intros Hsim Hp HF. destruct c as [n|p|p off v]; cbn [permitted ucall_run] in *.
  - destruct (sim_malloc base F s H n) as (r & s' & H' & E & Ha & Hs & Hm & Hr); try done.
    exists r, s', H'. split_and!; try done. by intros ? [= ->].
  - destruct Hp as [l Hp]. destruct (sim_free base F s H p l) as (s' & E & Hs & Hm); try done.
    exists 0, s', (delete p H). split_and!; try done; [by erewrite hbind|by econstructor].
  - destruct Hp as (l & Hp & Hoff). destruct (sim_store base s H p l off v) as (E & Hs); try done.
    eexists 0, _, _. split_and!; try done. by econstructor.
Qed.

Definition uheap_ex : uheap := mkUheap ∅ 4096 200000 [] 0.

Lemma uheap_ex_sim : simulates 1000 uheap_ex ∅.
Proof.
  exists [], ∅. split; [left; split_and!; try done; cbn; lia|]. intros p l. split; [intros Hl; simplify_map_eq|intros (n & Hn & _); simplify_map_eq].
Qed.

Lemma umalloc_refines_witness :
  exists r s' H', ucall_run 1000 (Z.to_nat 26000) (UMalloc 100) uheap_ex = HRet r s' /\ abs_step ∅ (UMalloc 100) r H' /\
    simulates 1000 s' H' /\ uh_max s' = 200000 /\ (forall n, UMalloc 100 = UMalloc n -> r = 0 -> refuses (grow (units n) * UNIT) uheap_ex = true).
Proof.
  apply (umalloc_refines 1000 (Z.to_nat 26000) uheap_ex ∅ (UMalloc 100) uheap_ex_sim); [cbn; lia|].
  rewrite Z2Nat.id by lia. by vm_compute.
Defined.

(** free undoes malloc: when a free block is large enough, malloc and free of
    what it returned give back the same list of free blocks, however the
    block was cut. *)
Theorem malloc_free base F s fl al nbytes :
  heap_ok base s fl al -> 0 <= nbytes <= 2 ^ 31 - 32 -> (exists b, b ∈ fl /\ units nbytes <= b.2) -> (2 * length fl + 3 <= F)%nat ->
  exists r s1 s2, malloc base F nbytes s = HRet r s1 /\ free F r s1 = HRet tt s2 /\ heap_ok base s2 fl al.
Proof.
  intros Hh Hn (b & Hin & Hb) HF. destruct (malloc_heap base F nbytes s fl al) as (r & s1 & E & Hp & Hk); [by right|done|done|].
  exists r, s1. destruct Hp as [? _ Hs|a fl1 s1 Hnone Hh1 Hg Hc Hlen].
  - rewrite Forall_forall in Hs. specialize (Hs b Hin). unfold small in Hs. lia.
  - assert (uh_brk s1 = uh_brk s) as Hbrk.
    { destruct Hg as [?|Hs]; [done|]. rewrite Forall_forall in Hs. specialize (Hs b Hin). unfold small in Hs. lia. }
    destruct (free_heap base s1 fl1 _ a (units nbytes) F Hh1) as (s2 & fl2 & E2 & Hh2 & Hc2 & _ & Hb2 & _); [by simplify_map_eq|lia|].
    exists s2. split_and!; [done|done|]. rewrite delete_insert_id in Hh2 by done.
    assert (fl2 = fl) as ->; [|done]. destruct Hh2 as [Hok2 _], Hh as [Hok _].
    eapply cover_inj; [apply (fo_blocks _ _ _ Hok2)|rewrite Hb2, Hbrk; apply (fo_blocks _ _ _ Hok)|].
    intros x. rewrite Hc2, <- Hc, Hbrk. split; [intros [?|?]; [done|lia]|by left].
Qed.

(** A heap with one free block of 10 units, at the address 2000. *)
Definition uheap_one : uheap :=
  mkUheap (store32 (store64 (store32 (store64 ∅ 1000 2000) 1008 0) 2000 1000) 2008 10) 4096 200000 [] 1000.

Lemma uheap_one_ok : heap_ok 1000 uheap_one [(2000, 10)] ∅.
Proof.
  split; [|split; intros; simplify_map_eq]. split; try done; left.
Qed.

Lemma malloc_free_witness :
  exists r s1 s2, malloc 1000 10 40 uheap_one = HRet r s1 /\ free 10 r s1 = HRet tt s2 /\ heap_ok 1000 s2 [(2000, 10)] ∅.
Proof.
  apply (malloc_free 1000 10 uheap_one [(2000, 10)] ∅ 40 uheap_one_ok); [lia| |cbn; lia].
  exists (2000, 10). split; [left|]. by vm_compute.
Defined.

(** A request of two gigabytes or more does not fail: its size overflows the
    [int] argument of sbrk, which then returns the old break without growing
    the process, and malloc writes the header of a new block outside it. *)
Theorem malloc_huge base F s fl al nbytes :
  heap_rep base s fl al -> 0 <= nbytes < 2 ^ 32 -> 2 ^ 31 <= units nbytes * UNIT < 2 ^ 32 - uh_brk s -> (length fl + 1 <= F)%nat ->
  malloc base F nbytes s = HFault (uh_brk s + 8).
Proof.
  intros Hrep Hn Hbig HF. destruct (malloc_start base s fl al Hrep) as (s0 & Hh & [Hm _] & Hb & Ho & E). rewrite E.
  destruct Hh as [Hok Hal]. pose proof Hok as [B1 B2 B3 B4 B5 B6].
  pose proof (malloc_none base F (units nbytes) s0 fl (F - length fl - 1) Hok ltac:(lia)) as En.
  replace (length fl + S (F - length fl - 1))%nat with F in En by lia. rewrite En; clear En.
  2:{ apply Forall_forall. intros b Hin. destruct (blocks_elem _ _ _ _ B6 Hin) as (?&?&?). unfold small, bend in *. lia. }
  rewrite Hb in *. unfold morecore. bfalse (units nbytes <? 4096).
  assert (s32 (units nbytes * UNIT) = units nbytes * UNIT - 2 ^ 32) as Es.
  { unfold s32, sgn. rewrite Z.mod_small by lia. change (32 - 1) with 31. by bfalse (units nbytes * UNIT <? 2 ^ 31). }
  assert (u_sbrk (units nbytes * UNIT - 2 ^ 32) s0 = HRet (uh_brk s) s0) as Esb.
  { unfold u_sbrk. rewrite Hb. bfalse (0 <? units nbytes * UNIT - 2 ^ 32). btrue (units nbytes * UNIT - 2 ^ 32 <? 0).
    assert (u32 (uh_brk s + (units nbytes * UNIT - 2 ^ 32)) = uh_brk s + units nbytes * UNIT) as ->.
    { unfold u32. symmetry. apply (Z.mod_unique _ _ (-1)); lia. }
    btrue (uh_brk s <=? uh_brk s + units nbytes * UNIT). rewrite s32_small, u64_small by lia. done. }
  rewrite Es. unfold mbind, HM_bind. rewrite Esb. change (u64 (-1)) with (2 ^ 64 - 1). bfalse (uh_brk s =? 2 ^ 64 - 1).
  unfold set_bsize, access. rewrite Hb. btrue (0 <=? uh_brk s + 8). by bfalse (uh_brk s + 8 + 4 <=? uh_brk s).
Qed.

Lemma malloc_huge_witness : malloc 1000 3 (2 ^ 31) uheap_ex = HFault 4104.
Proof.
  apply (malloc_huge 1000 3 uheap_ex [] ∅ (2 ^ 31)); [|lia| |cbn; lia].
  - left. split_and!; try done; cbn; lia.
  - vm_compute. done.
Defined.
