(* ===== verification/Sh.v ===== *)
(** * The shell: user/sh.c

    The parser works on the bytes of the line in place: a parsed command is a
    node in memory ([sh_heap]) whose strings are pairs of offsets into the
    line, and [nulterminate] ends them once the whole line is parsed.  The
    node of a simple command is filled with arguments while redirections
    already point to it, so nodes are shared as in the C code.  The part that
    runs commands is a tree of system calls ([uproc]): what the process does
    next, for each answer of the system. *)

From Stdlib Require Import ZArith Lia.
From stdpp Require Import base gmap list numbers strings.
From S2P Require Import Prelude Riscv Kstring Printf User.
Local Open Scope Z_scope.

Definition MAXARGS : nat := 10.

(** ** Commands in memory *)

(** A pointer to a command is the number of its node; 0 is the null pointer.
    Strings are offsets into the line. *)
Inductive node : Type :=
| NExec (argv eargv : list (option nat))
| NRedir (cmd : nat) (file efile : nat) (mode fd : Z)
| NPipe (left right : nat)
| NList (left right : nat)
| NBack (cmd : nat).

Record shst : Type := mkShst {
  sh_buf : list Z;            (* the line *)
  sh_ps : nat;                (* the variable ps points to *)
  sh_heap : gmap nat node;    (* allocated commands *)
  sh_next : nat               (* the next node malloc returns *)
}.

Definition set_ps (k : nat) (s : shst) : shst := mkShst (sh_buf s) k (sh_heap s) (sh_next s).
Definition sh_set_buf (b : list Z) (s : shst) : shst := mkShst b (sh_ps s) (sh_heap s) (sh_next s).
Definition set_heap (h : gmap nat node) (s : shst) : shst := mkShst (sh_buf s) (sh_ps s) h (sh_next s).

(** The parser reads and writes the line and the nodes, and may exit. *)
Definition SH (A : Type) : Type := shst -> U (A * shst).
#[export] Instance SH_ret : MRet SH := fun A a s => mret (a, s).
#[export] Instance SH_bind : MBind SH := fun A B f m s => r ← m s; f r.1 r.2.

Definition sh_do {A} (m : U A) : SH A := fun s => a ← m; mret (a, s).
Definition sh_get {A} (f : shst -> A) : SH A := fun s => mret (f s, s).
Definition sh_mod (f : shst -> shst) : SH unit := fun s => mret (tt, f s).

(** [*s] *)
Definition sh_char (k : nat) : SH Z := fun s =>
  match sh_buf s !! k with Some c => mret (c, s) | None => stuck "read outside the line" end.

(** [*s = c] *)
Definition sh_store (k : nat) (c : Z) : SH unit := fun s =>
  match sh_buf s !! k with Some _ => mret (tt, sh_set_buf (<[k := c]> (sh_buf s)) s) | None => stuck "write outside the line" end.

Definition sh_node (p : nat) : SH node := fun s =>
  match sh_heap s !! p with Some n => mret (n, s) | None => stuck "not a command" end.

(** malloc and the assignments to the fields. *)
Definition sh_new (n : node) : SH nat := fun s =>
  mret (sh_next s, mkShst (sh_buf s) (sh_ps s) (<[sh_next s := n]> (sh_heap s)) (S (sh_next s))).

Definition sh_panic {A} (msg : list Z) : SH A := sh_do (_ ← fprintf 2 (str "%s" ++ [10]) [PStr (Some msg)]; u_exit 1).

Definition execcmd : SH nat := sh_new (NExec (replicate MAXARGS None) (replicate MAXARGS None)).
Definition redircmd (subcmd file efile : nat) (mode fd : Z) : SH nat := sh_new (NRedir subcmd file efile mode fd).
Definition pipecmd (left right : nat) : SH nat := sh_new (NPipe left right).
Definition listcmd (left right : nat) : SH nat := sh_new (NList left right).
Definition backcmd (subcmd : nat) : SH nat := sh_new (NBack subcmd).

(** ** Tokens *)

Definition whitespace : list Z := [32; 9; 13; 10; 11].
Definition sh_symbols : list Z := str "<|>&;()".

Definition is_in (toks : list Z) (c : Z) : bool := match strchr toks c with Some _ => true | None => false end.

(** [while(s < es && test( *s)) s++] *)
Fixpoint skip (test : Z -> bool) (es s : nat) (fuel : nat) : SH nat :=
  if (s <? es)%nat then
    match fuel with
    | O => sh_do out_of_fuel
    | S fuel => c ← sh_char s; if test c then skip test es (S s) fuel else mret s
    end
  else mret s.

Definition skip_white (es s : nat) : SH nat := skip (is_in whitespace) es s es.
Definition skip_word (es s : nat) : SH nat :=
  skip (fun c => negb (is_in whitespace c) && negb (is_in sh_symbols c)) es s es.

Definition LT : Z := 60.
Definition GT : Z := 62.
Definition BAR : Z := 124.
Definition AMP : Z := 38.
Definition SEMI : Z := 59.
Definition LPAR : Z := 40.
Definition RPAR : Z := 41.
Definition PLUS : Z := 43.
Definition WORD : Z := 97.

(** The switch on the first character [c] of a token at [s]: the token and its end. *)
Definition gettoken_end (es s : nat) (c : Z) : SH (Z * nat) :=
  if c =? 0 then mret (c, s)
  else if is_in [BAR; LPAR; RPAR; SEMI; AMP; LT] c then mret (c, S s)
  else if c =? GT then
    c' ← sh_char (S s);
    if c' =? GT then mret (PLUS, S (S s)) else mret (c, S s)
  else e ← skip_word es s; mret (WORD, e).

(** The token, where it starts and where it ends. *)
Definition gettoken (es : nat) : SH (Z * nat * nat) :=
  s ← sh_get sh_ps;
  q ← skip_white es s;
  c ← sh_char q;
  r ← gettoken_end es q c;
  s ← skip_white es r.2;
  _ ← sh_mod (set_ps s);
  mret (r.1, q, r.2).

Definition peek (es : nat) (toks : list Z) : SH bool :=
  s ← sh_get sh_ps;
  s ← skip_white es s;
  _ ← sh_mod (set_ps s);
  c ← sh_char s;
  mret (negb (c =? 0) && is_in toks c).

(** ** Parsing *)

(** The constructor of a redirection for the token [<], [>] or [>>]. *)
Definition redirection (tok : Z) (cmd q eq : nat) : SH nat :=
  if tok =? LT then redircmd cmd q eq O_RDONLY 0
  else if tok =? GT then redircmd cmd q eq (Z.lor (Z.lor O_WRONLY O_CREATE) O_TRUNC) 1
  else if tok =? PLUS then redircmd cmd q eq (Z.lor O_WRONLY O_CREATE) 1
  else mret cmd.

Fixpoint parseredirs (cmd es : nat) (fuel : nat) : SH nat :=
  b ← peek es [LT; GT];
  if b : bool then
    match fuel with
    | O => sh_do out_of_fuel
    | S fuel =>
        t ← gettoken es;
        w ← gettoken es;
        if negb (w.1.1 =? WORD) then sh_panic (str "missing file for redirection")
        else
          cmd ← redirection t.1.1 cmd w.1.2 w.2;
          parseredirs cmd es fuel
    end
  else mret cmd.

(** [cmd->argv[argc] = q; cmd->eargv[argc] = eq] *)
Definition set_arg (cmd argc : nat) (q eq : option nat) : SH unit :=
  n ← sh_node cmd;
  match n with
  | NExec argv eargv =>
      if (argc <? MAXARGS)%nat then sh_mod (fun s => set_heap (<[cmd := NExec (<[argc := q]> argv) (<[argc := eq]> eargv)]> (sh_heap s)) s)
      else sh_do (stuck "argument outside argv")
  | _ => sh_do (stuck "not an execcmd")
  end.

(** The loop of [parseexec]: [cmd] is the node that gets the arguments, [ret]
    the command with the redirections around it. *)
Fixpoint parseexec_loop (cmd ret argc es : nat) (fuel : nat) : SH (nat * nat) :=
  b ← peek es [BAR; RPAR; AMP; SEMI];
  if b : bool then mret (ret, argc)
  else
    t ← gettoken es;
    let '(tok, q, eq) := (t : Z * nat * nat) in
    if tok =? 0 then mret (ret, argc)
    else if negb (tok =? WORD) then sh_panic (str "syntax")
    else
      _ ← set_arg cmd argc (Some q) (Some eq);
      if (MAXARGS <=? S argc)%nat then sh_panic (str "too many args")
      else
        ret ← parseredirs ret es es;
        match fuel with
        | O => sh_do out_of_fuel
        | S fuel => parseexec_loop cmd ret (S argc) es fuel
        end.

Definition parsesimple (es : nat) : SH nat :=
  cmd ← execcmd;
  ret ← parseredirs cmd es es;
  r ← parseexec_loop cmd ret 0 es MAXARGS;
  _ ← set_arg cmd r.2 None None;
  mret r.1.

(** [while(peek(ps, es, "&"))] of parseline *)
Fixpoint parseback (cmd es : nat) (fuel : nat) : SH nat :=
  b ← peek es [AMP];
  if b : bool then
    match fuel with
    | O => sh_do out_of_fuel
    | S fuel => _ ← gettoken es; cmd ← backcmd cmd; parseback cmd es fuel
    end
  else mret cmd.

Fixpoint parseline (es : nat) (fuel : nat) : SH nat :=
  match fuel with
  | O => sh_do out_of_fuel
  | S fuel =>
      cmd ← parsepipe es fuel;
      cmd ← parseback cmd es es;
      b ← peek es [SEMI];
      if b : bool then
        _ ← gettoken es;
        right ← parseline es fuel;
        listcmd cmd right
      else mret cmd
  end
with parsepipe (es : nat) (fuel : nat) : SH nat :=
  match fuel with
  | O => sh_do out_of_fuel
  | S fuel =>
      cmd ← parseexec es fuel;
      b ← peek es [BAR];
      if b : bool then
        _ ← gettoken es;
        right ← parsepipe es fuel;
        pipecmd cmd right
      else mret cmd
  end
with parseexec (es : nat) (fuel : nat) : SH nat :=
  match fuel with
  | O => sh_do out_of_fuel
  | S fuel =>
      b ← peek es [LPAR];
      if b : bool then parseblock es fuel else parsesimple es
  end
with parseblock (es : nat) (fuel : nat) : SH nat :=
  match fuel with
  | O => sh_do out_of_fuel
  | S fuel =>
      b ← peek es [LPAR];
      if negb b then sh_panic (str "parseblock")
      else
        _ ← gettoken es;
        cmd ← parseline es fuel;
        b ← peek es [RPAR];
        if negb b then sh_panic (str "syntax - missing )")
        else
          _ ← gettoken es;
          parseredirs cmd es es
  end.

(** [for(i=0; ecmd->argv[i]; i++) *ecmd->eargv[i] = 0] *)
Fixpoint nulterminate_args (argv eargv : list (option nat)) : SH unit :=
  match argv with
  | [] => sh_do (stuck "argv is not terminated")
  | None :: _ => mret tt
  | Some _ :: argv =>
      match eargv with
      | Some e :: eargv => _ ← sh_store e 0; nulterminate_args argv eargv
      | _ => sh_do (stuck "null pointer")
      end
  end.

Fixpoint nulterminate (cmd : nat) (fuel : nat) : SH nat :=
  if (cmd =? 0)%nat then mret 0%nat
  else
    match fuel with
    | O => sh_do out_of_fuel
    | S fuel =>
        n ← sh_node cmd;
        _ ← match n with
            | NExec argv eargv => nulterminate_args argv eargv
            | NRedir c _ efile _ _ => _ ← nulterminate c fuel; sh_store efile 0
            | NPipe l r => _ ← nulterminate l fuel; _ ← nulterminate r fuel; mret tt
            | NList l r => _ ← nulterminate l fuel; _ ← nulterminate r fuel; mret tt
            | NBack c => _ ← nulterminate c fuel; mret tt
            end;
        mret cmd
    end.

(** The line starts at the beginning of [sh_buf].  Each level of the recursion
    consumes a token or goes on to a nested function, of which there are four. *)
Definition parsecmd : SH nat :=
  buf ← sh_get sh_buf;
  let es := length (cstring buf) in
  _ ← sh_mod (set_ps 0);
  cmd ← parseline es (4 * es + 4);
  _ ← peek es [];
  s ← sh_get sh_ps;
  if negb (s =? es)%nat then
    _ ← sh_do (fprintf 2 (str "leftovers: %s" ++ [10]) [PStr (Some (drop s buf))]);
    sh_panic (str "syntax")
  else
    k ← sh_get sh_next;
    _ ← nulterminate cmd k;
    mret cmd.

(** ** Running commands *)

(** What a process does: its next system call, and how it goes on for each
    answer.  [PDo] is code that only reads, writes and opens files. *)
Inductive uproc : Type :=
| PExit (code : Z)
| PExec (path : list Z) (argv : list (list Z)) (failed : uproc)
| PFork (child parent failed : uproc)
| PWait (k : uproc)
| PClose (fd : Z) (k : uproc)
| PDup (fd : Z) (k : uproc)
| PPipe (k : Z -> Z -> uproc) (failed : uproc)
| POpen (path : list Z) (mode : Z) (k : Z -> uproc)
| PChdir (path : list Z) (k : Z -> uproc)
| PDo {A : Type} (m : U A) (k : A -> uproc).

(** [panic] and [fork1] outside the parser *)
Definition panic_p (msg : list Z) : uproc := PDo (fprintf 2 (str "%s" ++ [10]) [PStr (Some msg)]) (fun _ => PExit 1).
Definition fork1 (child parent : uproc) : uproc := PFork child parent (panic_p (str "fork")).

(** The string at an offset of the line, and the strings of an argv up to the
    null pointer, as exec reads them. *)
Definition string_at (buf : list Z) (p : nat) : list Z := cstring (drop p buf).
Fixpoint argv_strings (buf : list Z) (argv : list (option nat)) : list (list Z) :=
  match argv with
  | Some p :: argv => string_at buf p :: argv_strings buf argv
  | _ => []
  end.

(** Never returns: where the C code breaks out of the switch it exits. *)
Fixpoint runcmd (s : shst) (cmd : nat) (fuel : nat) : uproc :=
  if (cmd =? 0)%nat then PExit 1
  else
    match fuel with
    | O => PDo out_of_fuel (fun e : Empty_set => match e with end)
    | S fuel =>
        match sh_heap s !! cmd with
        | None => panic_p (str "runcmd")
        | Some (NExec argv _) =>
            match argv with
            | Some p :: _ =>
                PExec (string_at (sh_buf s) p) (argv_strings (sh_buf s) argv)
                  (PDo (fprintf 2 (str "exec %s failed" ++ [10]) [PStr (Some (string_at (sh_buf s) p))]) (fun _ => PExit 0))
            | _ => PExit 1
            end
        | Some (NRedir c file _ mode fd) =>
            PClose fd (POpen (string_at (sh_buf s) file) mode (fun r =>
              if r <? 0 then
                PDo (fprintf 2 (str "open %s failed" ++ [10]) [PStr (Some (string_at (sh_buf s) file))]) (fun _ => PExit 1)
              else runcmd s c fuel))
        | Some (NList l r) => fork1 (runcmd s l fuel) (PWait (runcmd s r fuel))
        | Some (NPipe l r) =>
            PPipe (fun p0 p1 =>
              fork1 (PClose 1 (PDup p1 (PClose p0 (PClose p1 (runcmd s l fuel)))))
                (fork1 (PClose 0 (PDup p0 (PClose p0 (PClose p1 (runcmd s r fuel)))))
                   (PClose p0 (PClose p1 (PWait (PWait (PExit 0)))))))
              (panic_p (str "pipe"))
        | Some (NBack c) => fork1 (runcmd s c fuel) (PExit 0)
        end
    end.

(** ** The main loop *)

Definition LINE : Z := 100.

(** The line read, in the array [buf]; -1 at the end of the input. *)
Definition getcmd : U (Z * list Z) :=
  _ ← fprintf 2 (str "$ ") [];
  l ← u_gets LINE;
  let buf := l ++ replicate (Z.to_nat LINE - length l) 0 in
  mret (if u_hd buf =? 0 then -1 else 0, buf).

(** [while((fd = open("console", O_RDWR)) >= 0) ...] *)
Fixpoint open_console (fuel : nat) (k : uproc) : uproc :=
  match fuel with
  | O => PDo out_of_fuel (fun e : Empty_set => match e with end)
  | S fuel =>
      POpen (str "console") O_RDWR (fun fd =>
        if 0 <=? fd then (if 3 <=? fd then PClose fd k else open_console fuel k) else k)
  end.

(** [runcmd(parsecmd(buf))] in the child: the nodes are allocated from the
    empty heap that the child has inherited. *)
Definition run_line (buf : list Z) : uproc :=
  PDo (parsecmd (mkShst buf 0 ∅ 1)) (fun r => runcmd r.2 r.1 (sh_next r.2)).

Fixpoint sh_loop (fuel : nat) : uproc :=
  match fuel with
  | O => PDo out_of_fuel (fun e : Empty_set => match e with end)
  | S fuel =>
      PDo getcmd (fun r =>
        if r.1 <? 0 then PExit 0
        else
          let buf := r.2 in
          if (arr buf 0 =? 99) && (arr buf 1 =? 100) && (arr buf 2 =? 32) then
            let buf := <[(length (cstring buf) - 1)%nat := 0]> buf in
            let dir := string_at buf 3 in
            PChdir dir (fun r =>
              if r <? 0 then PDo (fprintf 2 (str "cannot cd %s" ++ [10]) [PStr (Some dir)]) (fun _ => sh_loop fuel)
              else sh_loop fuel)
          else fork1 (run_line buf) (PWait (sh_loop fuel)))
  end.

(** [fuel] bounds the number of lines read. *)
Definition sh_main (fuel : nat) : uproc := open_console 5 (sh_loop fuel).
