(* ===== verification/ShParse.v ===== *)
(** * Parsing command lines: proofs about user/sh.c

    A declarative grammar of command lines: [lexes] relates the bytes of a
    line to its tokens, [gline] tokens to commands.  [parsecmd] accepts
    exactly the lines of the grammar and builds the command the grammar
    gives, with the words of the line as its strings. *)

From Stdlib Require Import ZArith Lia.
From stdpp Require Import base gmap list numbers strings.
From S2P Require Import Prelude Riscv Kstring Printf User Sh.
Local Open Scope Z_scope.

(** ** Grammar *)

Inductive tok : Type :=
| TSym (c : Z)
| TWord (q e : nat).

Definition white (c : Z) : bool := is_in whitespace c.
Definition wordch (c : Z) : bool := negb (is_in whitespace c) && negb (is_in sh_symbols c).
Definition singles : list Z := [BAR; LPAR; RPAR; SEMI; AMP; LT].

(** The tokens of the line from offset [k] on. *)
Inductive lexes (B : list Z) (es : nat) : nat -> list tok -> Prop :=
| lex_end : lexes B es es []
| lex_white k ts : (k < es)%nat -> white (arr B k) = true -> lexes B es (S k) ts -> lexes B es k ts
| lex_sym k c ts : (k < es)%nat -> arr B k = c -> is_in singles c = true -> lexes B es (S k) ts -> lexes B es k (TSym c :: ts)
| lex_gt k ts : (k < es)%nat -> arr B k = GT -> arr B (S k) <> GT -> lexes B es (S k) ts -> lexes B es k (TSym GT :: ts)
| lex_gtgt k ts : (S k < es)%nat -> arr B k = GT -> arr B (S k) = GT -> lexes B es (S (S k)) ts -> lexes B es k (TSym PLUS :: ts)
| lex_word k e ts : (k < e <= es)%nat -> (forall i, (k <= i < e)%nat -> wordch (arr B i) = true) ->
    (e = es \/ wordch (arr B e) = false) -> lexes B es e ts -> lexes B es k (TWord k e :: ts).

(** Commands; a string is the pair of offsets of a word. *)
Abbreviation word := (nat * nat)%type.
Abbreviation redir := (Z * (nat * nat))%type.
Inductive scmd : Type :=
| SExec (args : list word)
| SRedir (c : scmd) (file : word) (mode fd : Z)
| SPipe (l r : scmd)
| SList (l r : scmd)
| SBack (c : scmd).

Definition is_redir (c : Z) : bool := (c =? LT) || (c =? GT) || (c =? PLUS).
Definition redir_mode (c : Z) : Z :=
  if c =? LT then O_RDONLY else if c =? GT then Z.lor (Z.lor O_WRONLY O_CREATE) O_TRUNC else Z.lor O_WRONLY O_CREATE.
Definition redir_fd (c : Z) : Z := if c =? LT then 0 else 1.
Definition apply_redirs (c : scmd) (rs : list redir) : scmd :=
  fold_left (fun c r => SRedir c r.2 (redir_mode r.1) (redir_fd r.1)) rs c.
Definition backs (n : nat) (c : scmd) : scmd := Nat.iter n SBack c.

(** Redirections, and words with redirections among them. *)
Inductive gredirs : list tok -> list redir -> Prop :=
| gr_nil : gredirs [] []
| gr_cons c q e ts rs : is_redir c = true -> gredirs ts rs -> gredirs (TSym c :: TWord q e :: ts) ((c, (q, e)) :: rs).

Inductive gitems : list tok -> list word -> list redir -> Prop :=
| gi_nil : gitems [] [] []
| gi_word q e ts ws rs : gitems ts ws rs -> gitems (TWord q e :: ts) ((q, e) :: ws) rs
| gi_redir c q e ts ws rs : is_redir c = true -> gitems ts ws rs -> gitems (TSym c :: TWord q e :: ts) ws ((c, (q, e)) :: rs).

Inductive gexec : list tok -> scmd -> Prop :=
| ge_simple ts ws rs : gitems ts ws rs -> (length ws < MAXARGS)%nat -> gexec ts (apply_redirs (SExec ws) rs)
| ge_block ts c ts2 rs : gline ts c -> gredirs ts2 rs -> gexec (TSym LPAR :: ts ++ TSym RPAR :: ts2) (apply_redirs c rs)
with gpipe : list tok -> scmd -> Prop :=
| gp_one ts c : gexec ts c -> gpipe ts c
| gp_pipe ts c ts2 c2 : gexec ts c -> gpipe ts2 c2 -> gpipe (ts ++ TSym BAR :: ts2) (SPipe c c2)
with gline : list tok -> scmd -> Prop :=
| gl_one ts c n : gpipe ts c -> gline (ts ++ replicate n (TSym AMP)) (backs n c)
| gl_list ts c n ts2 c2 : gpipe ts c -> gline ts2 c2 ->
    gline (ts ++ replicate n (TSym AMP) ++ TSym SEMI :: ts2) (SList (backs n c) c2).

(** ** Runs of the parser *)

Lemma sbind_ret {A B} (m : SH A) (f : A -> SH B) s o a s' o' :
  m s o = Ret (a, s') o' -> (m ≫= f) s o = f a s' o'.
Proof. unfold mbind, SH_bind. intros H. by rewrite (ubind_ret _ _ _ _ _ H). Qed.

Lemma sbind_exit {A B} (m : SH A) (f : A -> SH B) s o code o' :
  m s o = Exited code o' -> (m ≫= f) s o = Exited code o'.
Proof. intros H. unfold mbind, SH_bind, mbind, U_bind. by rewrite H. Qed.

Lemma puts_ret fd l o : exists o', puts fd l o = Ret tt o'.
Proof.
  revert o. induction l as [|c l IH]; intros o; [by exists o|]. cbn [puts]. unfold putc.
  edestruct IH as [o' E]. exists o'. erewrite ubind_ret by (by erewrite ubind_ret). exact E.
Qed.

(** Characters that a format prints as they are. *)
Definition plain (l : list Z) : Prop := Forall (fun c => c <> 0 /\ c <> 37) l.

Lemma vprintf_plain fd pre fmt ap o :
  plain pre -> exists o', vprintf fd (pre ++ fmt) false ap o = vprintf fd fmt false ap o'.
Proof.
  intros Hpre. revert o. induction Hpre as [|c pre [H0 H37] _ IH]; intros o; [by exists o|].
  cbn [app vprintf negb]. bfalse (c =? 0). bfalse (c =? 37). unfold putc.
  destruct (u_write fd [u8 c] o) as [n o1| | |] eqn:E1; try done. destruct (IH o1) as [o' E]. exists o'.
  erewrite ubind_ret by (by erewrite ubind_ret by exact E1). exact E.
Qed.

Lemma fprintf_s pre post msg fd o :
  plain pre -> plain post -> exists o', fprintf fd (pre ++ str "%s" ++ post) [PStr (Some msg)] o = Ret tt o'.
Proof.
  intros Hpre Hpost. unfold fprintf. destruct (vprintf_plain fd pre (str "%s" ++ post) [PStr (Some msg)] o Hpre) as [o1 ->].
  change (str "%s") with [37; 115]. cbn [app vprintf Z.eqb Pos.eqb negb default orb].
  destruct (puts_ret fd (cstring msg) o1) as [o2 E2]. erewrite ubind_ret by exact E2.
  destruct (vprintf_plain fd post [] [] o2 Hpost) as [o3 E3]. rewrite app_nil_r in E3. exists o3. by rewrite E3.
Qed.

(** panic prints a message and exits. *)
Lemma sh_panic_exit {A} msg s o : exists o', sh_panic (A := A) msg s o = Exited 1 o'.
Proof.
  destruct (fprintf_s [] [10] msg 2 o) as [o' E]; [by repeat constructor..|]. exists o'. unfold sh_panic, sh_do.
  unfold mbind, U_bind. change ([] ++ str "%s" ++ [10]) with (str "%s" ++ [10]) in E. by rewrite E.
Qed.

(** The classes of characters are disjoint. *)
Lemma is_in_spec l c : Forall (fun x => x <> 0) l -> is_in l c = bool_decide (c ∈ l).
Proof.
  intros Hl. unfold is_in. pose proof (strchr_None l c Hl) as H. destruct (strchr l c); symmetry.
  - apply bool_decide_eq_true. destruct (decide (c ∈ l)) as [?|Hn]; [done|]. by apply H in Hn.
  - apply bool_decide_eq_false. by apply H.
Qed.

(** Case analysis on a character of a class. *)
Ltac by_chars H :=
  rewrite is_in_spec in H by (repeat constructor; done); apply bool_decide_eq_true in H;
  repeat (apply elem_of_cons in H as [->|H]; [by vm_compute|]); by apply elem_of_nil in H.

Lemma white_only c : white c = true -> is_in singles c = false /\ c <> GT /\ wordch c = false /\ c <> 0.
Proof. intros H. unfold white, whitespace in H. by_chars H. Qed.

Lemma single_only c : is_in singles c = true -> white c = false /\ c <> GT /\ wordch c = false /\ c <> 0.
Proof. intros H. unfold singles in H. by_chars H. Qed.

Lemma symbol_cases c : is_in sh_symbols c = true -> is_in singles c = true \/ c = GT.
Proof. intros H. change sh_symbols with [60; 124; 62; 38; 59; 40; 41] in H.
  rewrite is_in_spec in H by (repeat constructor; done). apply bool_decide_eq_true in H.
  repeat (apply elem_of_cons in H as [->|H]; [first [left; by vm_compute|by right]|]). by apply elem_of_nil in H.
Qed.

Lemma word_only c : wordch c = true -> white c = false /\ c <> GT /\ is_in singles c = false.
Proof.
  intros H. destruct (white c) eqn:Hw; [by destruct (white_only _ Hw) as (_ & _ & ? & _); congruence|].
  split_and!; [done|by intros ->|]. destruct (is_in singles c) eqn:Hs; [|done].
  destruct (single_only _ Hs) as (_ & _ & ? & _). congruence.
Qed.

(** ** Simple commands on tokens *)

Fixpoint tredirs (ts : list tok) : option (list redir * list tok) :=
  match ts with
  | TSym c :: ts' =>
      if is_redir c then
        match ts' with
        | TWord q e :: ts'' => r ← tredirs ts''; Some ((c, (q, e)) :: r.1, r.2)
        | _ => None
        end
      else Some ([], ts)
  | _ => Some ([], ts)
  end.

Definition stops : list Z := [BAR; RPAR; AMP; SEMI].

(** Up to [n] words, each with redirections after it. *)
Fixpoint targs (n : nat) (ts : list tok) : option (list word * list redir * list tok) :=
  match ts with
  | [] => Some ([], [], [])
  | TSym c :: _ => if is_in stops c then Some ([], [], ts) else None
  | TWord q e :: ts' =>
      match n with
      | O => None
      | S n => r ← tredirs ts'; a ← targs n r.2; Some ((q, e) :: a.1.1, r.1 ++ a.1.2, a.2)
      end
  end.

Definition tsimple (n : nat) (ts : list tok) : option (list word * list redir * list tok) :=
  r ← tredirs ts; a ← targs n r.2; Some (a.1.1, r.1 ++ a.1.2, a.2).

Lemma tredirs_sound_aux n ts rs rest :
  (length ts <= n)%nat -> tredirs ts = Some (rs, rest) -> exists ts1, ts = ts1 ++ rest /\ gredirs ts1 rs.
Proof.
  revert ts rs rest. induction n as [|n IH]; intros ts rs rest Hn H.
  { destruct ts; simpl in *; [|lia]. simplify_eq. exists []. split; [done|constructor]. }
  destruct ts as [|[c|q e] ts]; simpl in H; [simplify_eq; exists []; split; [done|constructor]| |simplify_eq; exists []; split; [done|constructor]].
  destruct (is_redir c) eqn:Hc; [|simplify_eq; exists []; split; [done|constructor]].
  destruct ts as [|[c'|q e] ts]; [done|done|]. destruct (tredirs ts) as [[rs' rest']|] eqn:E; simplify_eq/=.
  destruct (IH ts rs' rest) as (ts1 & -> & Hg); [lia|done|]. exists (TSym c :: TWord q e :: ts1). split; [done|by constructor].
Qed.

Lemma tredirs_sound ts rs rest : tredirs ts = Some (rs, rest) -> exists ts1, ts = ts1 ++ rest /\ gredirs ts1 rs.
Proof. by apply (tredirs_sound_aux (length ts)). Qed.

(** The next token does not start a redirection. *)
Definition no_redir (ts : list tok) : Prop := match ts with TSym c :: _ => is_redir c = false | _ => True end.

Lemma tredirs_none ts : no_redir ts -> tredirs ts = Some ([], ts).
Proof. destruct ts as [|[c|q e] ts]; simpl; [done| |done]. by intros ->. Qed.

Lemma tredirs_complete ts1 rs rest : gredirs ts1 rs -> no_redir rest -> tredirs (ts1 ++ rest) = Some (rs, rest).
Proof. induction 1 as [|c q e ts rs Hc _ IH]; intros Hr; [by apply tredirs_none|]. simpl. by rewrite Hc, IH. Qed.

Lemma gredirs_items ts1 rs ts2 ws rs2 : gredirs ts1 rs -> gitems ts2 ws rs2 -> gitems (ts1 ++ ts2) ws (rs ++ rs2).
Proof. induction 1; intros; simpl; [done|]. constructor; auto. Qed.

Lemma targs_sound n ts ws rs rest :
  targs n ts = Some (ws, rs, rest) -> exists ts1, ts = ts1 ++ rest /\ gitems ts1 ws rs /\ (length ws <= n)%nat.
Proof.
  revert ts ws rs rest. induction n as [|n IH]; intros [|[c|q e] ts] ws rs rest H; simpl in H; simplify_eq;
    try (exists []; split_and!; [done|constructor|simpl; lia]); try (case_match; simplify_eq; exists []; split_and!; [done|constructor|simpl; lia]).
  destruct (tredirs ts) as [[rs1 ts2]|] eqn:E1; [|done]. simpl in H. destruct (targs n ts2) as [[[ws2 rs2] rest2]|] eqn:E2; simplify_eq/=.
  destruct (tredirs_sound _ _ _ E1) as (t1 & -> & H1). destruct (IH _ _ _ _ E2) as (t2 & -> & H2 & Hl).
  exists (TWord q e :: t1 ++ t2). split_and!; [by simpl; rewrite <- app_assoc|constructor; by apply gredirs_items|simpl; lia].
Qed.

Lemma tsimple_sound n ts ws rs rest :
  tsimple n ts = Some (ws, rs, rest) -> exists ts1, ts = ts1 ++ rest /\ gitems ts1 ws rs /\ (length ws <= n)%nat.
Proof.
  unfold tsimple. destruct (tredirs ts) as [[rs1 ts2]|] eqn:E1; [|done]. simpl. destruct (targs n ts2) as [[[ws2 rs2] rest2]|] eqn:E2; [|done].
  simpl. intros [= <- <- <-]. destruct (tredirs_sound _ _ _ E1) as (t1 & -> & H1). destruct (targs_sound _ _ _ _ _ E2) as (t2 & -> & H2 & Hl).
  exists (t1 ++ t2). split_and!; [by rewrite <- app_assoc|by apply gredirs_items|done].
Qed.

(** What may follow a command of each kind. *)
Definition follow (cs : list Z) (ts : list tok) : Prop := match ts with [] => True | TSym c :: _ => is_in cs c = true | TWord _ _ :: _ => False end.

Lemma follow_no_redir ts : follow stops ts -> no_redir ts.
Proof. destruct ts as [|[c|q e] ts]; simpl; [done| |done]. intros H. unfold stops in H. by_chars H. Qed.

Lemma tsimple_complete ts1 ws rs rest :
  gitems ts1 ws rs -> follow stops rest -> forall n, (length ws <= n)%nat -> tsimple n (ts1 ++ rest) = Some (ws, rs, rest).
Proof.
  intros Hg Hf. induction Hg as [|q e ts ws rs _ IH|c q e ts ws rs Hc _ IH]; intros n Hn; unfold tsimple in *; simpl in *.
  - rewrite tredirs_none by by apply follow_no_redir. simpl. destruct rest as [|[c|q e] rest]; simpl in *; [by destruct n| |done].
    destruct n; simpl; by rewrite Hf.
  - destruct n as [|n]; [lia|]. simpl. specialize (IH n ltac:(lia)).
    destruct (tredirs (ts ++ rest)) as [[rs1 ts2]|]; [|done]. simpl in *. by destruct (targs n ts2) as [[[ws2 rs2] rest2]|]; simplify_eq/=.
  - rewrite Hc. specialize (IH n Hn). destruct (tredirs (ts ++ rest)) as [[rs1 ts2]|]; [|done]. simpl in *.
    by destruct (targs n ts2) as [[[ws2 rs2] rest2]|]; simplify_eq/=.
Qed.

(** ** Commands in memory *)

(** The argument arrays of a simple command: the words, then null pointers. *)
Definition args_ok (ws : list word) (argv eargv : list (option nat)) : Prop :=
  (length ws < MAXARGS)%nat /\
  argv = (Some <$> ws.*1) ++ replicate (MAXARGS - length ws) None /\
  eargv = (Some <$> ws.*2) ++ replicate (MAXARGS - length ws) None.

(** The node [p] holds the command [c]; parts are allocated before the whole. *)
Fixpoint rep (h : gmap nat node) (p : nat) (c : scmd) : Prop :=
  p <> 0%nat /\
  match c with
  | SExec ws => exists argv eargv, h !! p = Some (NExec argv eargv) /\ args_ok ws argv eargv
  | SRedir c w mode fd => exists p', h !! p = Some (NRedir p' w.1 w.2 mode fd) /\ (p' < p)%nat /\ rep h p' c
  | SPipe l r => exists a b, h !! p = Some (NPipe a b) /\ (a < p)%nat /\ (b < p)%nat /\ rep h a l /\ rep h b r
  | SList l r => exists a b, h !! p = Some (NList a b) /\ (a < p)%nat /\ (b < p)%nat /\ rep h a l /\ rep h b r
  | SBack c => exists p', h !! p = Some (NBack p') /\ (p' < p)%nat /\ rep h p' c
  end.

Lemma rep_ext h h' p c : rep h p c -> (forall i, (i <= p)%nat -> h' !! i = h !! i) -> rep h' p c.
Proof.
  revert p. induction c as [ws|c IH w mode fd|l IHl r IHr|l IHl r IHr|c IH]; intros p [H0 H] Hh; split; auto; rewrite Hh by done.
  - done.
  - destruct H as (p' & ? & ? & ?). exists p'. split_and!; auto. apply IH; [done|]. intros. apply Hh. lia.
  - destruct H as (a & b & ? & ? & ? & ? & ?). exists a, b. split_and!; auto; [apply IHl|apply IHr]; auto; intros; apply Hh; lia.
  - destruct H as (a & b & ? & ? & ? & ? & ?). exists a, b. split_and!; auto; [apply IHl|apply IHr]; auto; intros; apply Hh; lia.
  - destruct H as (p' & ? & ? & ?). exists p'. split_and!; auto. apply IH; [done|]. intros. apply Hh. lia.
Qed.

(** [p] is the node [e] with the redirections [rs] around it. *)
Inductive wraps (h : gmap nat node) (e : nat) : nat -> list redir -> Prop :=
| wr_nil : wraps h e e []
| wr_snoc p p' rs c q f : wraps h e p' rs -> (p' < p)%nat ->
    h !! p = Some (NRedir p' q f (redir_mode c) (redir_fd c)) -> wraps h e p (rs ++ [(c, (q, f))]).

Lemma wraps_le h e p rs : wraps h e p rs -> (e <= p)%nat.
Proof. induction 1; lia. Qed.

Lemma wraps_ext h h' e p rs : wraps h e p rs -> (forall i, (e < i <= p)%nat -> h' !! i = h !! i) -> wraps h' e p rs.
Proof.
  induction 1 as [|p p' rs c q f Hw IH Hlt Hp]; intros Hh; [constructor|]. pose proof (wraps_le _ _ _ _ Hw).
  eapply wr_snoc; [apply IH; intros; apply Hh; lia|done|]. by rewrite Hh by lia.
Qed.

Lemma wraps_rep h e p rs c : wraps h e p rs -> rep h e c -> rep h p (apply_redirs c rs).
Proof.
  induction 1 as [|p p' rs r q f Hw IH Hlt Hp]; intros Hr; [done|]. unfold apply_redirs. rewrite fold_left_app. simpl.
  split; [lia|]. exists p'. split_and!; [done|done|]. by apply IH.
Qed.

(** The parser only adds nodes. *)
Record grows (s s' : shst) : Prop := mkGrows {
  gw_buf : sh_buf s' = sh_buf s;
  gw_next : (sh_next s <= sh_next s')%nat;
  gw_heap : forall i, (i < sh_next s)%nat -> sh_heap s' !! i = sh_heap s !! i;
  gw_ps : (sh_ps s <= sh_ps s')%nat
}.

Lemma grows_trans s1 s2 s3 : grows s1 s2 -> grows s2 s3 -> grows s1 s3.
Proof.
  intros [A1 A2 A3 A4] [C1 C2 C3 C4]. split; [congruence|lia| |lia]. intros i Hi. rewrite C3 by lia. by apply A3.
Qed.

Lemma grows_ps s k : (sh_ps s <= k)%nat -> grows s (set_ps k s).
Proof. by split. Qed.

Lemma grows_rep s s' p c : grows s s' -> rep (sh_heap s) p c -> (p < sh_next s)%nat -> rep (sh_heap s') p c.
Proof. intros [] Hr Hp. eapply rep_ext; [done|]. intros i Hi. apply gw_heap0. lia. Qed.

(** A new node. *)
Definition added (n : node) (s : shst) : shst := mkShst (sh_buf s) (sh_ps s) (<[sh_next s := n]> (sh_heap s)) (S (sh_next s)).

Lemma sh_new_ok n s o : sh_new n s o = Ret (sh_next s, added n s) o.
Proof. done. Qed.

Lemma grows_added n s : grows s (added n s).
Proof. split; simpl; [done|lia| |done]. intros i Hi. by rewrite lookup_insert_ne by lia. Qed.

(** The next token, where no white space precedes it. *)
Lemma lexes_token B es j t ts :
  lexes B es j (t :: ts) -> white (arr B j) = false ->
  (exists c, t = TSym c /\ arr B j = c /\ is_in singles c = true /\ lexes B es (S j) ts) \/
  (t = TSym GT /\ arr B j = GT /\ arr B (S j) <> GT /\ lexes B es (S j) ts) \/
  (t = TSym PLUS /\ arr B j = GT /\ arr B (S j) = GT /\ (S j < es)%nat /\ lexes B es (S (S j)) ts) \/
  (exists e, t = TWord j e /\ (j < e <= es)%nat /\ (forall i, (j <= i < e)%nat -> wordch (arr B i) = true) /\
     (e = es \/ wordch (arr B e) = false) /\ lexes B es e ts).
Proof. intros H Hw. inversion H; subst; [congruence|left|right; left|do 2 right; left|do 3 right]; eauto 10. Qed.

Section line.
Context (B : list Z) (es : nat).
Hypothesis Hnz : forall i, (i < es)%nat -> exists c, B !! i = Some c /\ c <> 0.
Hypothesis Hend : B !! es = Some 0.

Lemma char_at k s o : sh_buf s = B -> (k <= es)%nat -> sh_char k s o = Ret (arr B k, s) o.
Proof.
  intros Hb Hk. unfold sh_char, arr. rewrite Hb. destruct (decide (k = es)) as [->|].
  - rewrite Hend. by rewrite (nth_lookup_Some _ _ _ _ Hend).
  - destruct (Hnz k) as (c & Hc & _); [lia|]. rewrite Hc. by rewrite (nth_lookup_Some _ _ _ _ Hc).
Qed.

Lemma char_end : arr B es = 0.
Proof. unfold arr. by rewrite (nth_lookup_Some _ _ _ _ Hend). Qed.

Lemma char_nz k : (k < es)%nat -> arr B k <> 0.
Proof. intros Hk. destruct (Hnz k Hk) as (c & Hc & ?). unfold arr. by rewrite (nth_lookup_Some _ _ _ _ Hc). Qed.

Lemma skip_ok test fuel k s o :
  sh_buf s = B -> (k <= es)%nat -> (es - k <= fuel)%nat ->
  exists k', skip test es k fuel s o = Ret (k', s) o /\ (k <= k' <= es)%nat /\
    (forall i, (k <= i < k')%nat -> test (arr B i) = true) /\ (k' = es \/ test (arr B k') = false).
Proof.
  intros Hb. revert k. induction fuel as [|fuel IH]; intros k Hk Hf; cbn [skip].
  - replace k with es by lia. rewrite Nat.ltb_irrefl. exists es. split_and!; [done|lia..|intros; lia|by left].
  - destruct (Nat.ltb_spec k es).
    + erewrite sbind_ret by (by apply char_at). destruct (test (arr B k)) eqn:E.
      * destruct (IH (S k)) as (k' & Hr & Hk' & Hall & Hstop); [lia|lia|]. exists k'. split_and!; try done; [lia..|].
        intros i Hi. destruct (decide (i = k)) as [->|]; [done|]. apply Hall. lia.
      * exists k. split_and!; [done|lia..|intros; lia|by right].
    + exists k. split_and!; [done|lia..|intros; lia|left; lia].
Qed.

(** White space does not change the tokens. *)
Lemma lexes_skip k k' ts :
  lexes B es k ts -> (k <= k' <= es)%nat -> (forall i, (k <= i < k')%nat -> white (arr B i) = true) -> lexes B es k' ts.
Proof.
  intros H Hk Hw. remember (k' - k)%nat as n eqn:En. revert k H Hk Hw En. induction n as [|n IH]; intros k H Hk Hw En.
  - by replace k' with k by lia.
  - assert (white (arr B k) = true) as Hwk by (apply Hw; lia). apply (IH (S k)); [|lia|intros; apply Hw; lia|lia].
    destruct (white_only _ Hwk) as (H1 & H2 & H3 & H4). inversion H; subst; try done; exfalso; try congruence.
    + lia.
    + assert (wordch (arr B k) = true) by (apply H5; lia). congruence.
Qed.

Lemma lexes_le k ts : lexes B es k ts -> (k <= es)%nat.
Proof. induction 1; lia. Qed.

(** The maximal run of characters of a class. *)
Lemma run_end test k : (k <= es)%nat ->
  exists e, (k <= e <= es)%nat /\ (forall i, (k <= i < e)%nat -> test (arr B i) = true) /\ (e = es \/ test (arr B e) = false).
Proof.
  intros Hk. destruct (skip_ok test es k (mkShst B 0 ∅ 1) (mkOs ∅ ∅ [] [])) as (e & _ & He); [done|done|lia|]. by exists e.
Qed.

(** Every line has tokens. *)
Lemma lexes_total k : (k <= es)%nat -> exists ts, lexes B es k ts.
Proof.
  remember (es - k)%nat as n eqn:En. revert k En. induction (lt_wf n) as [n _ IH]. intros k En Hk.
  destruct (decide (k = es)) as [->|Hne]; [eexists; constructor|]. assert (k < es)%nat as Hlt by lia.
  assert (forall k', (k < k' <= es)%nat -> exists ts, lexes B es k' ts) as Hrec by (intros k' Hk'; apply (IH (es - k')%nat); lia).
  destruct (white (arr B k)) eqn:Ew.
  { destruct (Hrec (S k)) as [ts Hts]; [lia|]. exists ts. by apply lex_white. }
  destruct (wordch (arr B k)) eqn:Ewd.
  { destruct (run_end wordch k Hk) as (e & He & Hall & Hstop). assert (k < e)%nat.
    { destruct (decide (k = e)) as [<-|]; [destruct Hstop; [lia|congruence]|lia]. }
    destruct (Hrec e) as [ts Hts]; [lia|]. eexists. apply (lex_word B es k e ts); [lia|done|done|done]. }
  assert (is_in sh_symbols (arr B k) = true) as Hs.
  { unfold wordch in Ewd. unfold white in Ew. rewrite Ew in Ewd. by destruct (is_in sh_symbols (arr B k)). }
  destruct (symbol_cases _ Hs) as [Hs1|Hgt].
  { destruct (Hrec (S k)) as [ts Hts]; [lia|]. eexists. by eapply lex_sym. }
  destruct (decide (arr B (S k) = GT)) as [Hgg|].
  - assert (S k <> es) as Hne2 by (intros E; rewrite E, char_end in Hgg; done).
    destruct (Hrec (S (S k))) as [ts Hts]; [lia|]. eexists. apply lex_gtgt; [lia|done|done|done].
  - destruct (Hrec (S k)) as [ts Hts]; [lia|]. eexists. by apply lex_gt.
Qed.

(** The first character of a token. *)
Definition tok_first (t : tok) (c : Z) : Prop :=
  match t with TSym d => c = (if d =? PLUS then GT else d) | TWord _ _ => wordch c = true end.
Definition sym_ok (c : Z) : Prop := is_in singles c = true \/ c = GT \/ c = PLUS.

(** Where no white space is left, the next character starts the next token. *)
Lemma lexes_first k ts :
  lexes B es k ts -> k = es \/ white (arr B k) = false ->
  match ts with
  | [] => k = es
  | t :: _ => (k < es)%nat /\ tok_first t (arr B k) /\ (forall c, t = TSym c -> sym_ok c)
  end.
Proof.
  intros H Hw. inversion H; subst; simpl; try done.
  - destruct Hw; [lia|congruence].
  - destruct (single_only _ H2) as (_ & Hg & _). split_and!; [done| |intros c [= <-]; by left].
    destruct (Z.eqb_spec (arr B k) PLUS) as [E|]; [by rewrite E in H2|done].
  - split_and!; [done|done|]. intros c [= <-]. right. by left.
  - split_and!; [lia|done|]. intros c [= <-]. right. by right.
  - split_and!; [lia| |done]. apply H1. lia.
Qed.

Lemma skip_white_ok k ts s o :
  sh_buf s = B -> lexes B es k ts ->
  exists k', skip_white es k s o = Ret (k', s) o /\ (k <= k' <= es)%nat /\ lexes B es k' ts /\
    (k' = es \/ white (arr B k') = false).
Proof.
  intros Hb Hl. pose proof (lexes_le _ _ Hl) as Hk.
  destruct (skip_ok (is_in whitespace) es k s o) as (k' & Hr & Hk' & Hall & Hstop); [done|done|lia|].
  exists k'. split_and!; [done|lia|lia|by eapply lexes_skip|done].
Qed.

(** Whether the next token starts with a character of [toks]. *)
Definition starts (ts : list tok) (toks : list Z) : bool :=
  match ts with TSym c :: _ => is_in toks (if c =? PLUS then GT else c) | _ => false end.

Lemma peek_ok toks k ts s o :
  sh_buf s = B -> sh_ps s = k -> lexes B es k ts -> (forall c, is_in toks c = true -> is_in sh_symbols c = true) ->
  exists k', peek es toks s o = Ret (starts ts toks, set_ps k' s) o /\ (k <= k')%nat /\ lexes B es k' ts /\ (k' = es <-> ts = []).
Proof.
  intros Hb Hps Hl Htoks. destruct (skip_white_ok k ts s o Hb Hl) as (k' & Hr & Hk & Hl' & Hstop).
  exists k'. unfold peek. erewrite sbind_ret by done. rewrite Hps. erewrite sbind_ret by exact Hr.
  erewrite sbind_ret by done. erewrite sbind_ret by (apply char_at; [done|lia]).
  pose proof (lexes_first k' ts Hl' Hstop) as Hf. split_and!; [|lia|done|].
  - do 2 f_equal. destruct ts as [|t ts]; simpl.
    + by rewrite Hf, char_end.
    + destruct Hf as (Hlt & Hf & _). pose proof (char_nz k' Hlt). bfalse (arr B k' =? 0). simpl.
      destruct t as [c|q e]; simpl in Hf; [by rewrite Hf|].
      destruct (is_in toks (arr B k')) eqn:E; [|done]. apply Htoks in E. unfold wordch in Hf. rewrite E in Hf.
      by rewrite andb_false_r in Hf.
  - destruct ts as [|t ts]; [by split|]. destruct Hf as (Hlt & _). split; [lia|done].
Qed.

(** What gettoken returns for a token. *)
Definition tokval (t : tok) (r : Z * nat * nat) : Prop :=
  match t with TSym c => r.1.1 = c | TWord q e => r = (WORD, q, e) end.

Lemma gettoken_end_ok j t ts s o :
  sh_buf s = B -> lexes B es j (t :: ts) -> (j = es \/ white (arr B j) = false) -> (j < es)%nat ->
  exists ret e, gettoken_end es j (arr B j) s o = Ret ((ret, e), s) o /\ (j < e)%nat /\ lexes B es e ts /\ tokval t (ret, j, e).
Proof.
  intros Hb Hl Hstop Hlt. pose proof (char_nz j Hlt) as Hnz0. unfold gettoken_end. bfalse (arr B j =? 0).
  fold singles. destruct Hstop as [?|Hw]; [lia|].
  destruct (lexes_token _ _ _ _ _ Hl Hw) as [(c & -> & <- & Hs & Hl')|[(-> & Hg & Hg2 & Hl')|[(-> & Hg & Hg2 & Hk & Hl')|(e & -> & Hk & Hall & He & Hl')]]].
  - rewrite Hs. eexists _, (S j). split_and!; [done|lia|done|done].
  - rewrite Hg. exists GT, (S j). split_and!; [|lia|done|done].
    change (is_in singles GT) with false. cbn [Z.eqb Pos.eqb GT]. erewrite sbind_ret by (apply char_at; [done|lia]).
    by bfalse (arr B (S j) =? GT).
  - rewrite Hg. exists PLUS, (S (S j)). split_and!; [|lia|done|done].
    change (is_in singles GT) with false. cbn [Z.eqb Pos.eqb GT]. erewrite sbind_ret by (apply char_at; [done|lia]).
    by rewrite Hg2.
  - assert (wordch (arr B j) = true) as Hwd by (apply Hall; lia). destruct (word_only _ Hwd) as (_ & Hng & Hns).
    rewrite Hns. bfalse (arr B j =? GT). exists WORD, e. split_and!; [|lia|done|done].
    destruct (skip_ok wordch es j s o) as (e' & Hr & He' & Hall' & Hstop'); [done|lia|lia|].
    change (skip_word es j) with (skip wordch es j es). erewrite sbind_ret by exact Hr.
    assert (e' = e) as ->; [|done]. destruct (Nat.lt_trichotomy e e') as [?|[?|?]]; [exfalso|done|exfalso].
    + destruct He as [?|He]; [lia|]. rewrite Hall' in He by lia. done.
    + destruct Hstop' as [?|Hs]; [lia|]. rewrite Hall in Hs by lia. done.
Qed.

Lemma gettoken_ok k t ts s o :
  sh_buf s = B -> sh_ps s = k -> lexes B es k (t :: ts) ->
  exists r k', gettoken es s o = Ret (r, set_ps k' s) o /\ (k < k')%nat /\ lexes B es k' ts /\ tokval t r.
Proof.
  intros Hb Hps Hl. destruct (skip_white_ok k (t :: ts) s o Hb Hl) as (j & Hr & Hj & Hl' & Hstop).
  pose proof (lexes_first j (t :: ts) Hl' Hstop) as (Hlt & _ & _).
  assert (exists ret e, gettoken_end es j (arr B j) s o = Ret ((ret, e), s) o /\ (j < e)%nat /\ lexes B es e ts /\ tokval t (ret, j, e))
    as (ret & e & Hsw & He & Hle & Hv) by by apply gettoken_end_ok.
  destruct (skip_white_ok e ts s o Hb Hle) as (k' & Hr' & Hk' & Hl2 & _).
  exists (ret, j, e), k'. split_and!; [|lia|done|done]. unfold gettoken. erewrite sbind_ret by done. rewrite Hps.
  erewrite sbind_ret by exact Hr. erewrite sbind_ret by (apply char_at; [done|lia]).
  erewrite sbind_ret by exact Hsw. by erewrite sbind_ret by exact Hr'.
Qed.

Lemma lexes_sym k c ts : lexes B es k (TSym c :: ts) -> c <> WORD /\ c <> 0 /\ sym_ok c.
Proof.
  intros Hl. pose proof (lexes_le _ _ Hl) as Hk.
  destruct (skip_white_ok k _ (mkShst B 0 ∅ 1) (mkOs ∅ ∅ [] []) eq_refl Hl) as (j & _ & _ & Hl' & Hstop).
  destruct (lexes_first j _ Hl' Hstop) as (_ & _ & Hs). destruct (Hs c eq_refl) as [H|[->| ->]]; [|by split_and!; [..|right; auto]..].
  split_and!; [by intros ->|by apply single_only|by left].
Qed.

Lemma gettoken_nil k s o :
  sh_buf s = B -> sh_ps s = k -> lexes B es k [] ->
  exists r, gettoken es s o = Ret (r, set_ps es s) o /\ r.1.1 = 0.
Proof.
  intros Hb Hps Hl. destruct (skip_white_ok k [] s o Hb Hl) as (j & Hr & Hj & Hl' & Hstop).
  pose proof (lexes_first j [] Hl' Hstop) as ->. exists (0, es, es). split; [|done].
  unfold gettoken. erewrite sbind_ret by done. rewrite Hps. erewrite sbind_ret by exact Hr.
  erewrite sbind_ret by (apply char_at; [done|lia]). rewrite char_end. erewrite sbind_ret by done. cbn [fst snd].
  destruct (skip_white_ok es [] s o Hb Hl') as (j' & Hr' & Hj' & _). replace j' with es in Hr' by lia.
  by erewrite sbind_ret by exact Hr'.
Qed.

(** Whatever comes next is a word or not. *)
Lemma gettoken_word k ts s o :
  sh_buf s = B -> sh_ps s = k -> lexes B es k ts ->
  exists r k', gettoken es s o = Ret (r, set_ps k' s) o /\ (k <= k')%nat /\
    match ts with
    | TWord q e :: ts' => r = (WORD, q, e) /\ (k < k')%nat /\ lexes B es k' ts'
    | TSym c :: ts' => r.1.1 = c /\ c <> WORD /\ c <> 0 /\ (k < k')%nat /\ lexes B es k' ts'
    | [] => r.1.1 = 0 /\ k' = es
    end.
Proof.
  intros Hb Hps Hl. destruct ts as [|t ts].
  - destruct (gettoken_nil k s o Hb Hps Hl) as (r & Hr & H0). exists r, es. split_and!; [done|by eapply lexes_le|done|done].
  - destruct (gettoken_ok k t ts s o Hb Hps Hl) as (r & k' & Hr & Hk & Hl' & Hv). exists r, k'. split_and!; [done|lia|].
    destruct t as [c|q e]; [|by split_and!]. split_and!; [done|..|done|done]; apply (lexes_sym k c ts Hl).
Qed.

Lemma starts_redir ts : starts ts [LT; GT] = match ts with TSym c :: _ => is_redir c | _ => false end.
Proof.
  destruct ts as [|[c|q e] ts]; [done| |done]. unfold starts, is_redir.
  destruct (Z.eqb_spec c PLUS) as [->|Hne]; [done|]. unfold is_in. cbn [strchr].
  change (LT =? 0) with false. change (GT =? 0) with false. rewrite (Z.eqb_sym LT c), (Z.eqb_sym GT c).
  destruct (c =? LT), (c =? GT); done.
Qed.

Lemma redirection_ok c cmd q e s o :
  is_redir c = true ->
  redirection c cmd q e s o = Ret (sh_next s, added (NRedir cmd q e (redir_mode c) (redir_fd c)) s) o.
Proof.
  intros Hc. unfold redirection, redir_mode, redir_fd. destruct (c =? LT) eqn:E1; [done|]. destruct (c =? GT) eqn:E2; [done|].
  destruct (c =? PLUS) eqn:E3; [done|]. unfold is_redir in Hc. by rewrite E1, E2, E3 in Hc.
Qed.

Lemma is_in_tail toks c d : d <> 0 -> is_in toks c = true -> is_in (d :: toks) c = true.
Proof.
  intros Hd. unfold is_in. cbn [strchr]. bfalse (d =? 0). destruct (d =? c); [done|]. by destruct (strchr toks c).
Qed.

Ltac toks_sub := let c := fresh in let H := fresh in intros c H; by_chars H.

Lemma parseredirs_ok fuel cmd e rs0 s o ts :
  sh_buf s = B -> lexes B es (sh_ps s) ts -> (es - sh_ps s <= fuel)%nat -> wraps (sh_heap s) e cmd rs0 -> (cmd < sh_next s)%nat ->
  match tredirs ts with
  | Some (rs, rest) => exists p s', parseredirs cmd es fuel s o = Ret (p, s') o /\ grows s s' /\
      lexes B es (sh_ps s') rest /\ wraps (sh_heap s') e p (rs0 ++ rs) /\ (p < sh_next s')%nat
  | None => exists o', parseredirs cmd es fuel s o = Exited 1 o'
  end.
Proof.
  revert cmd rs0 s ts. induction fuel as [|fuel IH]; intros cmd rs0 s ts Hb Hl Hf Hw Hc.
  all: destruct (peek_ok [LT; GT] (sh_ps s) ts s o Hb eq_refl Hl) as (k & Hp & Hk & Hl' & Hend0); [toks_sub|].
  all: rewrite starts_redir in Hp; cbn [parseredirs]; erewrite (sbind_ret (peek es [LT; GT])) by exact Hp.
  - assert (ts = []) as ->. { apply Hend0. pose proof (lexes_le _ _ Hl'). lia. }
    exists cmd, (set_ps k s). split_and!; [done|by apply grows_ps|done|by rewrite app_nil_r|done].
  - destruct ts as [|[c|q f] ts]; cbn [tredirs].
    1, 3: exists cmd, (set_ps k s); split_and!; [done|by apply grows_ps|done|by rewrite app_nil_r|done].
    destruct (is_redir c) eqn:Hcr.
    2:{ exists cmd, (set_ps k s). split_and!; [done|by apply grows_ps|done|by rewrite app_nil_r|done]. }
    destruct (gettoken_word k (TSym c :: ts) (set_ps k s) o Hb eq_refl Hl') as (r & k1 & Hr & _ & Hrc & _ & _ & Hk1 & Hl1).
    erewrite (sbind_ret (gettoken es)) by exact Hr.
    destruct (gettoken_word k1 ts (set_ps k1 (set_ps k s)) o Hb eq_refl Hl1) as (w & k2 & Hr2 & Hk2 & Hw2).
    erewrite (sbind_ret (gettoken es)) by exact Hr2. rewrite Hrc.
    destruct ts as [|[c'|q f] ts].
    + destruct Hw2 as [-> _]. apply sh_panic_exit.
    + destruct Hw2 as (-> & Hne & _). bfalse (c' =? WORD). apply sh_panic_exit.
    + destruct Hw2 as (-> & Hk3 & Hl3). cbn [fst snd]. rewrite Z.eqb_refl. cbn [negb].
      erewrite sbind_ret by by apply redirection_ok.
      set (s1 := set_ps k2 (set_ps k1 (set_ps k s))). set (n := NRedir cmd q f (redir_mode c) (redir_fd c)).
      assert (grows s (added n s1)) as G.
      { eapply grows_trans; [|apply grows_added]. split; simpl; try done. pose proof (lexes_le _ _ Hl3). lia. }
      assert (lexes B es (sh_ps (added n s1)) ts) as Hl4 by done.
      specialize (IH (sh_next s1) (rs0 ++ [(c, (q, f))]) (added n s1) ts Hb Hl4).
      assert (wraps (sh_heap (added n s1)) e (sh_next s1) (rs0 ++ [(c, (q, f))])) as Hw1.
      { eapply wr_snoc; [|exact Hc|by simpl; rewrite lookup_insert_eq].
        eapply wraps_ext; [exact Hw|]. intros i Hi. simpl. by rewrite lookup_insert_ne by lia. }
      specialize (IH ltac:(simpl; lia) Hw1 ltac:(simpl; lia)).
      destruct (tredirs ts) as [[rs rest]|]; simpl; [|done]. destruct IH as (p & s' & Hrun & Gr & Hlr & Hwr & Hpr).
      exists p, s'. split_and!; [done|by eapply grows_trans|done| |done]. by rewrite <- app_assoc in Hwr.
Qed.

(** ** Arguments *)

Lemma set_arg_ok cmd argc q e argv eargv s o :
  sh_heap s !! cmd = Some (NExec argv eargv) -> (argc < MAXARGS)%nat ->
  set_arg cmd argc q e s o = Ret (tt, set_heap (<[cmd := NExec (<[argc := q]> argv) (<[argc := e]> eargv)]> (sh_heap s)) s) o.
Proof.
  intros Hn Ha. unfold set_arg. erewrite sbind_ret by (unfold sh_node; by rewrite Hn).
  apply Nat.ltb_lt in Ha. by rewrite Ha.
Qed.

Lemma args_insert ws argv eargv q e :
  args_ok ws argv eargv -> (S (length ws) < MAXARGS)%nat ->
  args_ok (ws ++ [(q, e)]) (<[length ws := Some q]> argv) (<[length ws := Some e]> eargv).
Proof.
  intros (_ & -> & ->) Hl. split; [rewrite length_app; simpl; lia|].
  replace (MAXARGS - length ws)%nat with (S (MAXARGS - length (ws ++ [(q, e)]))) by (rewrite length_app; simpl; lia).
  rewrite !fmap_app. cbn [replicate]. rewrite <- !app_assoc. cbn [app fmap list_fmap].
  split; (rewrite insert_app_r_alt by (rewrite !length_fmap; lia)); by rewrite !length_fmap, Nat.sub_diag.
Qed.

Lemma args_end ws argv eargv :
  args_ok ws argv eargv -> <[length ws := None]> argv = argv /\ <[length ws := None]> eargv = eargv.
Proof.
  intros (Hl & -> & ->). replace (MAXARGS - length ws)%nat with (S (MAXARGS - length ws - 1)) by lia. cbn [replicate].
  split; (rewrite insert_app_r_alt by (rewrite !length_fmap; lia)); by rewrite !length_fmap, Nat.sub_diag.
Qed.

Lemma starts_stops ts :
  starts ts [BAR; RPAR; AMP; SEMI] = match ts with TSym c :: _ => is_in stops c | _ => false end.
Proof.
  destruct ts as [|[c|q e] ts]; [done| |done]. unfold starts. by destruct (Z.eqb_spec c PLUS) as [->|].
Qed.

(** The state after the loop over the words of a simple command, whose node is [e]. *)
Definition args_post (s : shst) (o : os) (e : nat) (ws : list word) (rs : list redir) (rest : list tok)
    (r : ures ((nat * nat) * shst)) : Prop :=
  exists p s' argv eargv, r = Ret ((p, length ws), s') o /\
    sh_buf s' = B /\ (sh_next s <= sh_next s')%nat /\ (sh_ps s <= sh_ps s')%nat /\
    (forall i, (i < sh_next s)%nat -> i <> e -> sh_heap s' !! i = sh_heap s !! i) /\
    lexes B es (sh_ps s') rest /\ sh_heap s' !! e = Some (NExec argv eargv) /\ args_ok ws argv eargv /\
    wraps (sh_heap s') e p rs /\ (p < sh_next s')%nat.

Lemma args_post_step s s1 o e ws rs rest r :
  (sh_next s <= sh_next s1)%nat -> (sh_ps s <= sh_ps s1)%nat ->
  (forall i, (i < sh_next s)%nat -> i <> e -> sh_heap s1 !! i = sh_heap s !! i) ->
  args_post s1 o e ws rs rest r -> args_post s o e ws rs rest r.
Proof.
  intros H1 H2 H3 (p & s' & a & ea & -> & P1 & P2 & P3 & P4 & P5). exists p, s', a, ea. split_and!; try done; try lia; try apply P5.
  intros i Hi Hne. rewrite P4 by lia. by apply H3.
Qed.

Lemma parseexec_loop_S cmd ret argc n fuel :
  parseexec_loop cmd ret argc n (S fuel) =
    (b ← peek n [BAR; RPAR; AMP; SEMI];
     if b : bool then mret (ret, argc)
     else
       t ← gettoken n;
       let '(tok, q, eq) := (t : Z * nat * nat) in
       if tok =? 0 then mret (ret, argc)
       else if negb (tok =? WORD) then sh_panic (str "syntax")
       else
         _ ← set_arg cmd argc (Some q) (Some eq);
         if (MAXARGS <=? S argc)%nat then sh_panic (str "too many args")
         else ret ← parseredirs ret n n; parseexec_loop cmd ret (S argc) n fuel).
Proof. done. Qed.

Lemma parseexec_loop_ok fuel e ret ws rs0 s o ts argv eargv R :
  R = parseexec_loop e ret (length ws) es (S fuel) s o ->
  sh_buf s = B -> lexes B es (sh_ps s) ts -> (length ws + S fuel = MAXARGS)%nat ->
  sh_heap s !! e = Some (NExec argv eargv) -> args_ok ws argv eargv ->
  wraps (sh_heap s) e ret rs0 -> (ret < sh_next s)%nat ->
  match targs fuel ts with
  | Some (ws', rs, rest) => args_post s o e (ws ++ ws') (rs0 ++ rs) rest R
  | None => exists o', R = Exited 1 o'
  end.
Proof.
  revert ret ws rs0 s ts argv eargv R. induction fuel as [|fuel IH]; intros ret ws rs0 s ts argv eargv R HR Hb Hl Hf Hn Ha Hw Hc.
  all: destruct (peek_ok [BAR; RPAR; AMP; SEMI] (sh_ps s) ts s o Hb eq_refl Hl) as (k & Hp & Hk & Hl' & Hend0); [toks_sub|].
  all: rewrite starts_stops in Hp; rewrite parseexec_loop_S in HR; erewrite (sbind_ret (peek es _)) in HR by exact Hp.
  all: destruct (gettoken_word k ts (set_ps k s) o Hb eq_refl Hl') as (r & k1 & Hr & Hk1 & Hrc).
  all: destruct ts as [|[c|q f] ts]; cbn [targs].
  1, 4: erewrite (sbind_ret (gettoken es)) in HR by exact Hr; destruct r as [[tok q] f]; simpl in Hrc; destruct Hrc as [-> ->];
    cbn [Z.eqb] in HR; exists ret, (set_ps es (set_ps k s)), argv, eargv; rewrite !app_nil_r; split_and!; simpl; try done; [lia|apply lex_end].
  1, 3: destruct (is_in stops c);
    [exists ret, (set_ps k s), argv, eargv; rewrite !app_nil_r; by split_and!|];
    erewrite (sbind_ret (gettoken es)) in HR by exact Hr; destruct r as [[tok q] f]; simpl in Hrc; destruct Hrc as (-> & H1 & H2 & _);
    replace (c =? 0) with false in HR by (symmetry; by apply Z.eqb_neq);
    replace (c =? WORD) with false in HR by (symmetry; by apply Z.eqb_neq); subst R; apply sh_panic_exit.
  all: destruct Hrc as (-> & Hk2 & Hl2); erewrite (sbind_ret (gettoken es)) in HR by exact Hr; cbn [Z.eqb Pos.eqb WORD negb] in HR;
    erewrite sbind_ret in HR by (apply set_arg_ok; [exact Hn|unfold MAXARGS in *; lia]).
  - replace (MAXARGS <=? S (length ws))%nat with true in HR by (symmetry; apply Nat.leb_le; lia). subst R. apply sh_panic_exit.
  - replace (MAXARGS <=? S (length ws))%nat with false in HR by (symmetry; apply Nat.leb_gt; lia).
    set (s1 := set_heap _ _) in HR. pose proof (args_insert _ _ _ q f Ha ltac:(lia)) as Ha1.
    assert (wraps (sh_heap s1) e ret rs0) as Hw1.
    { eapply wraps_ext; [exact Hw|]. intros i Hi. simpl. by rewrite lookup_insert_ne by lia. }
    pose proof (wraps_le _ _ _ _ Hw) as Hle.
    pose proof (parseredirs_ok es ret e rs0 s1 o ts Hb Hl2 ltac:(simpl; lia) Hw1 Hc) as Hpr.
    destruct (tredirs ts) as [[rs1 ts2]|]; simpl.
    + destruct Hpr as (ret2 & s2 & Hrun & [G1 G2 G3 G4] & Hl3 & Hw2 & Hc2). erewrite sbind_ret in HR by exact Hrun.
      replace (S (length ws)) with (length (ws ++ [(q, f)])) in HR by (rewrite length_app; simpl; lia).
      assert (sh_heap s2 !! e = Some (NExec (<[length ws := Some q]> argv) (<[length ws := Some f]> eargv))) as Hn2.
      { rewrite G3 by (simpl in *; lia). simpl. by rewrite lookup_insert_eq. }
      specialize (IH ret2 (ws ++ [(q, f)]) (rs0 ++ rs1) s2 ts2 _ _ R HR ltac:(by rewrite G1) Hl3 ltac:(rewrite length_app; simpl; lia) Hn2 Ha1 Hw2 Hc2).
      destruct (targs fuel ts2) as [[[ws2 rs2] rest]|]; simpl; [|done]. rewrite <- !app_assoc in IH. cbn [app] in IH.
      eapply args_post_step; [..|exact IH]; [simpl in *; lia|simpl in *; lia|].
      intros i Hi Hne. rewrite G3 by (simpl; lia). simpl. by rewrite lookup_insert_ne.
    + destruct Hpr as [o' Hrun]. erewrite sbind_exit in HR by exact Hrun. eauto.
Qed.

(** ** Whole commands *)

(** The result of a parsing function: a command and the tokens left, or an exit. *)
Definition parsed (s : shst) (o : os) (R : ures (nat * shst)) (res : option (scmd * list tok)) : Prop :=
  match res with
  | Some (c, rest) => exists p s', R = Ret (p, s') o /\ grows s s' /\ lexes B es (sh_ps s') rest /\
      rep (sh_heap s') p c /\ (p < sh_next s')%nat
  | None => exists o', R = Exited 1 o'
  end.

Lemma parsesimple_ok s o ts :
  sh_buf s = B -> lexes B es (sh_ps s) ts -> (1 <= sh_next s)%nat ->
  parsed s o (parsesimple es s o) (a ← tsimple 9 ts; Some (apply_redirs (SExec a.1.1) a.1.2, a.2)).
Proof.
  intros Hb Hl H1. set (e := sh_next s). set (n0 := NExec (replicate MAXARGS None) (replicate MAXARGS None)).
  remember (parsesimple es s o) as R eqn:HR. unfold parsesimple, execcmd in HR. erewrite sbind_ret in HR by apply sh_new_ok.
  fold n0 e in HR. set (s0 := added n0 s) in HR.
  pose proof (parseredirs_ok es e e [] s0 o ts Hb Hl ltac:(simpl; lia) (wr_nil _ _) ltac:(simpl; lia)) as Hr.
  unfold tsimple, parsed. destruct (tredirs ts) as [[rs1 ts2]|]; cbn [mbind option_bind fst snd].
  2:{ destruct Hr as [o' Hr]. erewrite sbind_exit in HR by exact Hr. by exists o'. }
  destruct Hr as (ret & s1 & Hr & [G1 G2 G3 G4] & Hl1 & Hw & Hc). erewrite sbind_ret in HR by exact Hr.
  assert (sh_heap s1 !! e = Some n0) as Hn by (rewrite G3 by (simpl; lia); simpl; by rewrite lookup_insert_eq).
  assert (args_ok [] (replicate MAXARGS None) (replicate MAXARGS None)) as Ha by (split; [unfold MAXARGS; simpl; lia|done]).
  pose proof (parseexec_loop_ok 9 e ret [] rs1 s1 o ts2 _ _ _ eq_refl ltac:(by rewrite G1) Hl1 eq_refl Hn Ha Hw Hc) as Hlp.
  change (length []) with 0%nat in Hlp. change MAXARGS with 10%nat in HR.
  destruct (targs 9 ts2) as [[[ws rs2] rest]|]; cbn [mbind option_bind fst snd].
  2:{ destruct Hlp as [o' Hlp]. erewrite sbind_exit in HR by exact Hlp. by exists o'. }
  destruct Hlp as (p & s2 & argv & eargv & Hlp & P1 & P2 & P3 & P4 & P5 & P6 & P7 & P8 & P9). erewrite sbind_ret in HR by exact Hlp.
  erewrite sbind_ret in HR by (apply set_arg_ok; [exact P6|apply P7]). cbn [fst snd] in HR.
  simpl in P7. destruct (args_end _ _ _ P7) as [E1 E2]. simpl in HR. rewrite E1, E2, insert_id in HR by done.
  exists p, (set_heap (sh_heap s2) s2). simpl in G2. split_and!; [done| |done| |done].
  - split; simpl in *; [congruence|lia| |lia]. intros i Hi. rewrite P4 by (simpl in *; lia). rewrite G3 by (simpl; lia). simpl.
    by rewrite lookup_insert_ne by lia.
  - simpl. eapply wraps_rep; [exact P8|]. split; [lia|]. eauto.
Qed.

Lemma starts_one d ts : d <> 0 -> d <> GT -> d <> PLUS -> starts ts [d] = match ts with TSym c :: _ => c =? d | _ => false end.
Proof.
  intros H0 Hg Hp. destruct ts as [|[c|q e] ts]; [done| |done]. unfold starts, is_in. cbn [strchr]. bfalse (d =? 0).
  destruct (Z.eqb_spec c PLUS) as [->|]; [bfalse (d =? GT); by bfalse (PLUS =? d)|].
  rewrite (Z.eqb_sym d c). by destruct (c =? d).
Qed.

(** The result [res] of parsing [ts] with the grammar [g]: a command is derived
    from the tokens before the rest, and every derivation that is followed by a
    token of [f] or the end of the line is the result. *)
Definition finds (g : list tok -> scmd -> Prop) (f : list Z) (ts : list tok) (res : option (scmd * list tok)) : Prop :=
  (forall c rest, res = Some (c, rest) -> exists ts1, ts = ts1 ++ rest /\ g ts1 c) /\
  (forall ts1 c rest, ts = ts1 ++ rest -> g ts1 c -> follow f rest -> res = Some (c, rest)).

Definition meets (g : list tok -> scmd -> Prop) (f : list Z) (F : SH nat) (s : shst) (ts : list tok) : Prop :=
  forall o, exists res, parsed s o (F s o) res /\ finds g f ts res.

Definition sok (s : shst) : Prop := sh_buf s = B /\ (1 <= sh_next s)%nat.

Lemma sok_grows s s' : sok s -> grows s s' -> sok s'.
Proof. intros [Hb Hn] [G1 G2 _ _]. split; [congruence|lia]. Qed.

Lemma parsed_ps k s o R res : (sh_ps s <= k)%nat -> parsed (set_ps k s) o R res -> parsed s o R res.
Proof.
  intros Hk. destruct res as [[c rest]|]; [|done]. intros (p & s' & HR & Hg & H). exists p, s'. split_and!; try done; try apply H.
  eapply grows_trans; [by apply grows_ps|exact Hg].
Qed.

Lemma gitems_head c ts ws rs : gitems (TSym c :: ts) ws rs -> is_redir c = true.
Proof. by inversion 1. Qed.

Lemma parseexec_step n s ts :
  sok s -> lexes B es (sh_ps s) ts ->
  (forall s' ts', sok s' -> (sh_ps s <= sh_ps s')%nat -> lexes B es (sh_ps s') (TSym LPAR :: ts') ->
     meets gexec stops (parseblock es n) s' (TSym LPAR :: ts')) ->
  meets gexec stops (parseexec es (S n)) s ts.
Proof.
  intros [Hb Hn] Hl Hblk o.
  destruct (peek_ok [LPAR] (sh_ps s) ts s o Hb eq_refl Hl) as (k & Hp & Hk & Hl' & _); [toks_sub|].
  rewrite starts_one in Hp by done. cbn [parseexec].
  destruct (match ts with TSym c :: _ => c =? LPAR | _ => false end) eqn:Eh.
  - destruct ts as [|[c|q e] ts]; try done. apply Z.eqb_eq in Eh as ->.
    destruct (Hblk (set_ps k s) ts (conj Hb Hn) Hk Hl' o) as (res & Hres & H). exists res. split; [|done].
    erewrite sbind_ret by exact Hp. by eapply parsed_ps.
  - eexists. split; [erewrite sbind_ret by exact Hp; by eapply parsed_ps, parsesimple_ok|]. split.
    + intros c rest Hres. destruct (tsimple 9 ts) as [[[ws rs] rest']|] eqn:E; simplify_eq/=.
      destruct (tsimple_sound _ _ _ _ _ E) as (ts1 & -> & Hg & Hlen). exists ts1. split; [done|].
      constructor; [done|unfold MAXARGS; lia].
    + intros ts1 c rest -> Hg Hf. inversion Hg as [? ws rs Hi Hlen|]; subst; [|done].
      rewrite (tsimple_complete ts1 ws rs rest Hi Hf 9) by (unfold MAXARGS in *; lia). done.
Qed.

Lemma gexec_block ts1 c ts rest :
  TSym LPAR :: ts = ts1 ++ rest -> gexec ts1 c -> follow stops rest ->
  exists tsa ca ts2 rs, ts = tsa ++ TSym RPAR :: ts2 ++ rest /\ c = apply_redirs ca rs /\ gline tsa ca /\ gredirs ts2 rs.
Proof.
  intros E Hg Hf. inversion Hg as [? ws rs Hi Hlen|tsa ca ts2 rs Hgl Hgr]; subst.
  - destruct ts1 as [|t ts1]; simpl in E; simplify_eq; [by simpl in Hf|]. by apply gitems_head in Hi.
  - simpl in E. simplify_eq. exists tsa, ca, ts2, rs. split_and!; [by rewrite <- app_assoc|done..].
Qed.

(** The result of a block, from the result of its body. *)
Definition tblock (res : option (scmd * list tok)) : option (scmd * list tok) :=
  match res with
  | Some (c, TSym d :: ts) => if d =? RPAR then r ← tredirs ts; Some (apply_redirs c r.1, r.2) else None
  | _ => None
  end.

Lemma tblock_finds ts res : finds gline [RPAR] ts res -> finds gexec stops (TSym LPAR :: ts) (tblock res).
Proof.
  intros [Hsnd Hcmp]. split.
  - intros c rest E. destruct res as [[c1 [|[d|q e] ts2]]|]; try done. simpl in E.
    destruct (Z.eqb_spec d RPAR) as [->|]; [|done]. destruct (tredirs ts2) as [[rs rest']|] eqn:Er; simplify_eq/=.
    destruct (Hsnd _ _ eq_refl) as (tsa & -> & Hg). destruct (tredirs_sound _ _ _ Er) as (tsb & -> & Hr).
    exists (TSym LPAR :: tsa ++ TSym RPAR :: tsb). split; [|by constructor]. simpl. by rewrite <- app_assoc.
  - intros ts1 c rest E Hg Hf. destruct (gexec_block _ _ _ _ E Hg Hf) as (tsa & ca & ts2 & rs & -> & -> & Hga & Hgr).
    rewrite (Hcmp tsa ca (TSym RPAR :: ts2 ++ rest) eq_refl Hga eq_refl). simpl.
    rewrite (tredirs_complete ts2 rs rest Hgr); [done|by apply follow_no_redir].
Qed.

(** The redirections after a block. *)
Lemma parsed_redirs s s1 o p c ts :
  grows s s1 -> sok s -> lexes B es (sh_ps s1) ts -> rep (sh_heap s1) p c -> (p < sh_next s1)%nat ->
  parsed s o (parseredirs p es es s1 o) (r ← tredirs ts; Some (apply_redirs c r.1, r.2)).
Proof.
  intros Hg Hs Hl Hr Hp. destruct (sok_grows _ _ Hs Hg) as [Hb1 Hn1].
  pose proof (parseredirs_ok es p p [] s1 o ts Hb1 Hl ltac:(lia) (wr_nil _ _) Hp) as H.
  unfold parsed. destruct (tredirs ts) as [[rs rest]|]; cbn [mbind option_bind fst snd]; [|done].
  destruct H as (p2 & s2 & Hrun & Hg2 & Hl2 & Hw & Hp2). exists p2, s2. split_and!; [done|by eapply grows_trans|done| |done].
  eapply wraps_rep; [exact Hw|]. eapply grows_rep; eauto.
Qed.

Lemma parsed_panic s s1 o msg : parsed s o (sh_panic msg s1 o) None.
Proof. apply sh_panic_exit. Qed.

#[local] Opaque sh_panic gettoken peek parseredirs.

Lemma parseblock_S n fuel :
  parseblock n (S fuel) =
    (b ← peek n [LPAR];
     if negb b then sh_panic (str "parseblock")
     else
       _ ← gettoken n;
       cmd ← parseline n fuel;
       b ← peek n [RPAR];
       if negb b then sh_panic (str "syntax - missing )")
       else _ ← gettoken n; parseredirs cmd n n).
Proof. done. Qed.

Lemma parsepipe_S n fuel :
  parsepipe n (S fuel) =
    (cmd ← parseexec n fuel;
     b ← peek n [BAR];
     if b : bool then _ ← gettoken n; right ← parsepipe n fuel; pipecmd cmd right else mret cmd).
Proof. done. Qed.

Lemma parseline_S n fuel :
  parseline n (S fuel) =
    (cmd ← parsepipe n fuel;
     cmd ← parseback cmd n n;
     b ← peek n [SEMI];
     if b : bool then _ ← gettoken n; right ← parseline n fuel; listcmd cmd right else mret cmd).
Proof. done. Qed.

(** A block, whose body the line parser finds. *)
Lemma parseblock_step n s ts :
  sok s -> lexes B es (sh_ps s) (TSym LPAR :: ts) ->
  (forall s', sok s' -> (sh_ps s < sh_ps s')%nat -> lexes B es (sh_ps s') ts -> meets gline [RPAR] (parseline es n) s' ts) ->
  meets gexec stops (parseblock es (S n)) s (TSym LPAR :: ts).
Proof.
  intros Hs Hl Hline o. pose proof Hs as [Hb Hn].
  remember (parseblock es (S n) s o) as R eqn:HR. rewrite parseblock_S in HR.
  destruct (peek_ok [LPAR] (sh_ps s) _ s o Hb eq_refl Hl) as (k & Hp & Hk & Hl1 & _); [toks_sub|].
  rewrite starts_one, Z.eqb_refl in Hp by done. erewrite sbind_ret in HR by exact Hp. cbn [negb] in HR.
  destruct (gettoken_word k _ (set_ps k s) o Hb eq_refl Hl1) as (r & k1 & Hr & _ & _ & _ & _ & Hk1 & Hl2).
  erewrite sbind_ret in HR by exact Hr.
  destruct (Hline (set_ps k1 (set_ps k s)) (conj Hb Hn) ltac:(simpl; lia) Hl2 o) as (res & Hres & Hf).
  exists (tblock res). split; [|by apply tblock_finds]. destruct res as [[c1 rest1]|].
  2:{ destruct Hres as [o' Hres]. erewrite sbind_exit in HR by exact Hres. by exists o'. }
  destruct Hres as (p & s1 & Hrun & Hg1 & Hl3 & Hrep & Hp1). erewrite sbind_ret in HR by exact Hrun.
  assert (grows s s1) as G1 by (eapply grows_trans; [|exact Hg1]; apply (grows_ps s k1); lia).
  destruct (sok_grows _ _ Hs G1) as [Hb1 Hn1].
  destruct (peek_ok [RPAR] (sh_ps s1) _ s1 o Hb1 eq_refl Hl3) as (k2 & Hp2 & Hk2 & Hl4 & _); [toks_sub|].
  rewrite starts_one in Hp2 by done. erewrite sbind_ret in HR by exact Hp2.
  destruct rest1 as [|[d|q e] ts2]; cbn [negb tblock] in *; [rewrite HR; apply parsed_panic| |rewrite HR; apply parsed_panic].
  destruct (Z.eqb_spec d RPAR) as [->|]; cbn [negb] in HR; [|rewrite HR; apply parsed_panic].
  destruct (gettoken_word k2 _ (set_ps k2 s1) o Hb1 eq_refl Hl4) as (r2 & k3 & Hr2 & _ & _ & _ & _ & Hk3 & Hl5).
  erewrite sbind_ret in HR by exact Hr2. rewrite HR.
  eapply (parsed_redirs s (set_ps k3 (set_ps k2 s1)) o p c1 ts2); [|done|done|done|done].
  eapply grows_trans; [exact G1|]. apply (grows_ps s1 k3). lia.
Qed.

(** ** Pipes *)

Lemma parsed_new s s1 o n c rest :
  grows s s1 -> sok s -> lexes B es (sh_ps s1) rest -> rep (sh_heap (added n s1)) (sh_next s1) c ->
  parsed s o (sh_new n s1 o) (Some (c, rest)).
Proof.
  intros Hg Hs Hl Hr. destruct (sok_grows _ _ Hs Hg) as [Hb1 Hn1]. exists (sh_next s1), (added n s1).
  split_and!; [done|eapply grows_trans; [exact Hg|apply grows_added]|done|done|simpl; lia].
Qed.

(** The next token is the symbol [d]. *)
Definition at_sym (d : Z) (ts : list tok) : option (list tok) :=
  match ts with TSym c :: ts' => if c =? d then Some ts' else None | _ => None end.

Lemma at_sym_Some d ts ts' : at_sym d ts = Some ts' <-> ts = TSym d :: ts'.
Proof.
  destruct ts as [|[c|q e] ts]; simpl; [done| |done]. destruct (Z.eqb_spec c d) as [->|]; split; intros; by simplify_eq.
Qed.

Lemma at_sym_starts d ts : d <> 0 -> d <> GT -> d <> PLUS -> starts ts [d] = bool_decide (is_Some (at_sym d ts)).
Proof.
  intros H0 H1 H2. rewrite starts_one by done. destruct ts as [|[c|q e] ts]; simpl; [done| |done]. by destruct (c =? d).
Qed.

(** The end of parsepipe and of parseline: a second command after the symbol [d]. *)
Definition parse_right (d : Z) (F : SH nat) (mk : nat -> nat -> SH nat) (cmd : nat) : SH nat :=
  b ← peek es [d];
  if b : bool then _ ← gettoken es; right ← F; mk cmd right else mret cmd.

Definition tright (d : Z) (mk : scmd -> scmd -> scmd) (c : scmd) (rest : list tok) (res2 : option (scmd * list tok)) : option (scmd * list tok) :=
  match at_sym d rest with Some _ => r ← res2; Some (mk c r.1, r.2) | None => Some (c, rest) end.

Lemma parse_right_ok d F mkn mk g f s s1 o p c rest :
  is_in [BAR; SEMI] d = true -> sok s -> grows s s1 -> lexes B es (sh_ps s1) rest -> rep (sh_heap s1) p c -> (p < sh_next s1)%nat ->
  (forall h q a b ca cb, h !! q = Some (mkn a b) -> (a < q)%nat -> (b < q)%nat -> rep h a ca -> rep h b cb -> rep h q (mk ca cb)) ->
  (forall s' ts', sok s' -> (sh_ps s < sh_ps s')%nat -> lexes B es (sh_ps s') ts' -> meets g f F s' ts') ->
  exists res2, parsed s o (parse_right d F (fun a b => sh_new (mkn a b)) p s1 o) (tright d mk c rest res2) /\
    (forall ts2, at_sym d rest = Some ts2 -> finds g f ts2 res2).
Proof.
  intros Hd Hs Hg Hl Hrep Hp Hmk HF. destruct (sok_grows _ _ Hs Hg) as [Hb1 Hn1].
  assert (d = BAR \/ d = SEMI) as Hd'.
  { unfold is_in in Hd. cbn [strchr] in Hd. destruct (Z.eqb_spec BAR d); [by left|]. destruct (Z.eqb_spec SEMI d); [by right|done]. }
  assert (d <> 0 /\ d <> GT /\ d <> PLUS) as (H0 & H1 & H2) by (by destruct Hd' as [->| ->]).
  destruct (peek_ok [d] (sh_ps s1) rest s1 o Hb1 eq_refl Hl) as (k & Hpk & Hk & Hl1 & _).
  { destruct Hd' as [->| ->]; toks_sub. }
  rewrite at_sym_starts in Hpk by done. unfold tright. destruct (at_sym d rest) as [ts2|] eqn:Ea.
  - apply at_sym_Some in Ea as ->. destruct (gettoken_word k _ (set_ps k s1) o Hb1 eq_refl Hl1) as (r & k1 & Hr & _ & _ & _ & _ & Hk1 & Hl2).
    destruct (HF (set_ps k1 (set_ps k s1)) ts2 (conj Hb1 Hn1)) with (o := o) as (res2 & Hres & Hf); [destruct Hg; simpl; lia|done|].
    exists res2. split; [|by intros ts' [= <-]]. unfold parse_right. erewrite sbind_ret by exact Hpk. cbn [bool_decide decide is_Some_dec].
    erewrite sbind_ret by exact Hr. destruct res2 as [[c2 rest2]|]; cbn [mbind option_bind fst snd].
    + destruct Hres as (p2 & s2 & Hrun & Hg2 & Hl3 & Hrep2 & Hp2). erewrite sbind_ret by exact Hrun.
      assert (grows s1 s2) as G12 by (eapply grows_trans; [apply (grows_ps s1 k1); lia|exact Hg2]).
      apply parsed_new; [by eapply grows_trans|done|done|]. pose proof (gw_next _ _ G12) as Hnx.
      apply (Hmk _ _ p p2); [by simpl; rewrite lookup_insert_eq|lia|done|..].
      * eapply grows_rep; [eapply grows_trans; [exact G12|apply grows_added]|done|done].
      * eapply grows_rep; [apply grows_added|done|done].
    + destruct Hres as [o' Hrun]. exists o'. by erewrite sbind_exit by exact Hrun.
  - exists None. split; [|done]. unfold parse_right. erewrite sbind_ret by exact Hpk.
    exists p, (set_ps k s1). split_and!; [done|eapply grows_trans; [exact Hg|by apply grows_ps]|done|done|done].
Qed.

Lemma follow_sub cs cs' ts : (forall c, is_in cs c = true -> is_in cs' c = true) -> follow cs ts -> follow cs' ts.
Proof. intros H. destruct ts as [|[c|q e] ts]; simpl; auto. Qed.

Lemma follow_not_sym d cs ts : is_in cs d = false -> follow cs ts -> at_sym d ts = None.
Proof.
  intros Hd. destruct ts as [|[c|q e] ts]; simpl; [done| |done]. intros Hc. destruct (Z.eqb_spec c d) as [->|]; [congruence|done].
Qed.

Definition follow_pipe : list Z := [RPAR; AMP; SEMI].

Lemma tpipe_finds ts c rest res2 :
  finds gexec stops ts (Some (c, rest)) -> (forall ts2, at_sym BAR rest = Some ts2 -> finds gpipe follow_pipe ts2 res2) ->
  finds gpipe follow_pipe ts (tright BAR SPipe c rest res2).
Proof.
  intros [Hsnd Hcmp] H2. destruct (Hsnd c rest eq_refl) as (ts1 & -> & Hg1). unfold tright. split.
  - intros c' rest' E. destruct (at_sym BAR rest) as [ts2|] eqn:Ea.
    + apply at_sym_Some in Ea as ->. destruct res2 as [[c2 rest2]|]; simplify_eq/=.
      destruct (proj1 (H2 _ eq_refl) _ _ eq_refl) as (ts3 & -> & Hg3). exists (ts1 ++ TSym BAR :: ts3).
      split; [by rewrite <- app_assoc|by constructor].
    + simplify_eq. exists ts1. split; [done|by constructor].
  - intros ts' c' rest' E Hg Hf. inversion Hg as [? ? He|tsa ca tsb cb Ha Hb]; subst.
    + assert (Some (c, rest) = Some (c', rest')) as [= <- <-].
      { eapply Hcmp; [done|done|]. eapply follow_sub; [|exact Hf]. toks_sub. }
      by rewrite (follow_not_sym BAR follow_pipe _ eq_refl Hf).
    + rewrite <- app_assoc in E. simpl in E.
      assert (Some (c, rest) = Some (ca, TSym BAR :: tsb ++ rest')) as [= <- ->] by by eapply Hcmp.
      cbn [at_sym]. rewrite Z.eqb_refl. rewrite (proj2 (H2 _ eq_refl) tsb cb rest' eq_refl Hb Hf). done.
Qed.

Lemma tpipe_none ts : finds gexec stops ts None -> finds gpipe follow_pipe ts None.
Proof.
  intros [_ Hcmp]. split; [done|]. intros ts' c' rest' E Hg Hf. exfalso. inversion Hg as [? ? He|tsa ca tsb cb Ha Hb]; subst.
  - assert (None = Some (c', rest')); [|done]. eapply Hcmp; [done|done|]. eapply follow_sub; [|exact Hf]. toks_sub.
  - assert (None = Some (ca, TSym BAR :: tsb ++ rest')); [|done]. eapply Hcmp; [|done|done]. by rewrite <- app_assoc.
Qed.

Lemma parsepipe_step n s ts :
  sok s -> lexes B es (sh_ps s) ts -> meets gexec stops (parseexec es n) s ts ->
  (forall s' ts', sok s' -> (sh_ps s < sh_ps s')%nat -> lexes B es (sh_ps s') ts' -> meets gpipe follow_pipe (parsepipe es n) s' ts') ->
  meets gpipe follow_pipe (parsepipe es (S n)) s ts.
Proof.
  intros Hs Hl Hex Hpp o. rewrite parsepipe_S. destruct (Hex o) as ([[c rest]|] & Hres & Hf).
  - destruct Hres as (p & s1 & Hrun & Hg & Hl1 & Hrep & Hp). erewrite sbind_ret by exact Hrun.
    destruct (parse_right_ok BAR (parsepipe es n) NPipe SPipe gpipe follow_pipe s s1 o p c rest) as (res2 & Hr & H2); auto.
    { intros h q a b ca cb H1 H2 H3 H4 H5. split; [lia|]. exists a, b. done. }
    eexists. split; [exact Hr|]. by apply tpipe_finds.
  - destruct Hres as [o' Hrun]. exists None. split; [exists o'; by erewrite sbind_exit by exact Hrun|]. by apply tpipe_none.
Qed.

(** ** Lines *)

Fixpoint amps (ts : list tok) : nat * list tok :=
  match ts with
  | TSym c :: ts' => if c =? AMP then (S (amps ts').1, (amps ts').2) else (0%nat, ts)
  | _ => (0%nat, ts)
  end.

Lemma amps_app ts : ts = replicate (amps ts).1 (TSym AMP) ++ (amps ts).2.
Proof. induction ts as [|[c|q e] ts IH]; simpl; [done| |done]. destruct (Z.eqb_spec c AMP) as [->|]; simpl; [by f_equal|done]. Qed.

Lemma amps_replicate n ts : at_sym AMP ts = None -> amps (replicate n (TSym AMP) ++ ts) = (n, ts).
Proof.
  intros H. induction n as [|n IH]; simpl; [|by rewrite IH]. destruct ts as [|[c|q e] ts]; simpl in *; [done| |done]. by destruct (c =? AMP).
Qed.

Lemma parseback_ok fuel p c s s1 o ts :
  sok s -> grows s s1 -> lexes B es (sh_ps s1) ts -> (es - sh_ps s1 <= fuel)%nat -> rep (sh_heap s1) p c -> (p < sh_next s1)%nat ->
  exists p' s', parseback p es fuel s1 o = Ret (p', s') o /\ grows s s' /\ lexes B es (sh_ps s') (amps ts).2 /\
    rep (sh_heap s') p' (backs (amps ts).1 c) /\ (p' < sh_next s')%nat.
Proof.
  intros Hs. revert p c s1 ts. induction fuel as [|fuel IH]; intros p c s1 ts Hg Hl Hf Hrep Hp; destruct (sok_grows _ _ Hs Hg) as [Hb1 Hn1].
  all: destruct (peek_ok [AMP] (sh_ps s1) ts s1 o Hb1 eq_refl Hl) as (k & Hpk & Hk & Hl1 & Hend0); [toks_sub|].
  all: rewrite starts_one in Hpk by done; cbn [parseback]; erewrite sbind_ret by exact Hpk.
  - assert (ts = []) as ->. { apply Hend0. pose proof (lexes_le _ _ Hl1). lia. }
    exists p, (set_ps k s1). split_and!; [done|eapply grows_trans; [exact Hg|by apply grows_ps]|done..].
  - destruct ts as [|[d|q e] ts].
    1, 3: exists p, (set_ps k s1); split_and!; [done|eapply grows_trans; [exact Hg|by apply grows_ps]|done..].
    cbn [amps]. destruct (Z.eqb_spec d AMP) as [->|].
    2:{ exists p, (set_ps k s1). split_and!; [done|eapply grows_trans; [exact Hg|by apply grows_ps]|done..]. }
    destruct (gettoken_word k _ (set_ps k s1) o Hb1 eq_refl Hl1) as (r & k1 & Hr & _ & _ & _ & _ & Hk1 & Hl2).
    erewrite sbind_ret by exact Hr. unfold backcmd. erewrite sbind_ret by apply sh_new_ok.
    set (s2 := added (NBack p) (set_ps k1 (set_ps k s1))). cbn [fst snd].
    destruct (IH (sh_next s1) (SBack c) s2 ts) as (p' & s' & Hrun & Hg' & Hl' & Hr' & Hp').
    { eapply grows_trans; [exact Hg|]. eapply grows_trans; [apply (grows_ps s1 k1); lia|apply grows_added]. }
    { done. } { simpl. lia. }
    { split; [lia|]. exists p. split_and!; [by simpl; rewrite lookup_insert_eq|done|].
      eapply (grows_rep s1); [|done|done]. eapply grows_trans; [apply (grows_ps s1 k1); lia|apply grows_added]. }
    { simpl. lia. }
    exists p', s'. split_and!; try done. unfold backs in *. by rewrite Nat.iter_succ_r.
Qed.

Lemma follow_amps n ts : follow follow_pipe ts -> follow follow_pipe (replicate n (TSym AMP) ++ ts).
Proof. by destruct n. Qed.

Lemma tline_finds ts c rest res2 :
  finds gpipe follow_pipe ts (Some (c, rest)) -> (forall ts2, at_sym SEMI (amps rest).2 = Some ts2 -> finds gline [RPAR] ts2 res2) ->
  finds gline [RPAR] ts (tright SEMI SList (backs (amps rest).1 c) (amps rest).2 res2).
Proof.
  intros [Hsnd Hcmp] H2. destruct (Hsnd c rest eq_refl) as (ts1 & -> & Hg1). unfold tright. split.
  - intros c' rest' E. pose proof (amps_app rest) as Er. destruct (at_sym SEMI (amps rest).2) as [ts2|] eqn:Ea.
    + apply at_sym_Some in Ea. rewrite Ea in Er. destruct res2 as [[c2 rest2]|]; simplify_eq/=.
      destruct (proj1 (H2 _ eq_refl) _ _ eq_refl) as (ts3 & -> & Hg3).
      exists (ts1 ++ replicate (amps rest).1 (TSym AMP) ++ TSym SEMI :: ts3). split; [|by constructor].
      rewrite Er at 1. by rewrite <- !app_assoc.
    + simplify_eq. exists (ts1 ++ replicate (amps rest).1 (TSym AMP)). split; [by rewrite <- app_assoc, <- Er|by constructor].
  - intros ts' c' rest' E Hg Hf. assert (follow follow_pipe rest') as Hfp by (eapply follow_sub; [|exact Hf]; toks_sub).
    pose proof (follow_not_sym AMP [RPAR] rest' eq_refl Hf) as Hna. pose proof (follow_not_sym SEMI [RPAR] rest' eq_refl Hf) as Hns.
    inversion Hg as [tsa ca m Ha|tsa ca m tsb cb Ha Hb]; subst; rewrite <- !app_assoc in E.
    + assert (Some (c, rest) = Some (ca, replicate m (TSym AMP) ++ rest')) as [= <- ->] by (eapply Hcmp; [done|done|by apply follow_amps]).
      rewrite amps_replicate by done. simpl. by rewrite Hns.
    + assert (Some (c, rest) = Some (ca, replicate m (TSym AMP) ++ TSym SEMI :: tsb ++ rest')) as [= <- ->]
        by (eapply Hcmp; [done|done|by apply follow_amps]).
      rewrite amps_replicate in * by done. cbn [fst snd at_sym] in *. rewrite Z.eqb_refl in *.
      by rewrite (proj2 (H2 _ eq_refl) tsb cb rest' eq_refl Hb Hf).
Qed.

Lemma tline_none ts : finds gpipe follow_pipe ts None -> finds gline [RPAR] ts None.
Proof.
  intros [_ Hcmp]. split; [done|]. intros ts' c' rest' E Hg Hf. exfalso.
  assert (follow follow_pipe rest') as Hfp by (eapply follow_sub; [|exact Hf]; toks_sub).
  inversion Hg as [tsa ca m Ha|tsa ca m tsb cb Ha Hb]; subst.
  - assert (None = Some (ca, replicate m (TSym AMP) ++ rest')); [|done].
    eapply Hcmp; [by rewrite <- app_assoc|done|by apply follow_amps].
  - assert (None = Some (ca, replicate m (TSym AMP) ++ TSym SEMI :: tsb ++ rest')); [|done].
    apply (Hcmp tsa ca); [by rewrite <- !app_assoc|done|by apply follow_amps].
Qed.

Lemma parseline_step n s ts :
  sok s -> lexes B es (sh_ps s) ts -> meets gpipe follow_pipe (parsepipe es n) s ts ->
  (forall s' ts', sok s' -> (sh_ps s < sh_ps s')%nat -> lexes B es (sh_ps s') ts' -> meets gline [RPAR] (parseline es n) s' ts') ->
  meets gline [RPAR] (parseline es (S n)) s ts.
Proof.
  intros Hs Hl Hpp Hln o. rewrite parseline_S. destruct (Hpp o) as ([[c rest]|] & Hres & Hf).
  - destruct Hres as (p & s1 & Hrun & Hg & Hl1 & Hrep & Hp). erewrite sbind_ret by exact Hrun.
    destruct (parseback_ok es p c s s1 o rest) as (p2 & s2 & Hrun2 & Hg2 & Hl2 & Hrep2 & Hp2); auto; [lia|].
    erewrite sbind_ret by exact Hrun2.
    destruct (parse_right_ok SEMI (parseline es n) NList SList gline [RPAR] s s2 o p2 (backs (amps rest).1 c) (amps rest).2) as (res2 & Hr & H2); auto.
    { intros h q a b ca cb H1 H2 H3 H4 H5. split; [lia|]. exists a, b. done. }
    eexists. split; [exact Hr|]. by apply tline_finds.
  - destruct Hres as [o' Hrun]. exists None. split; [exists o'; by erewrite sbind_exit by exact Hrun|]. by apply tline_none.
Qed.

(** Enough fuel for a line: four functions for each character left. *)
Lemma parse_all n :
  (forall s ts, sok s -> lexes B es (sh_ps s) ts -> (4 * (es - sh_ps s) + 4 <= n)%nat -> meets gline [RPAR] (parseline es n) s ts) /\
  (forall s ts, sok s -> lexes B es (sh_ps s) ts -> (4 * (es - sh_ps s) + 3 <= n)%nat -> meets gpipe follow_pipe (parsepipe es n) s ts) /\
  (forall s ts, sok s -> lexes B es (sh_ps s) ts -> (4 * (es - sh_ps s) + 2 <= n)%nat -> meets gexec stops (parseexec es n) s ts) /\
  (forall s ts, sok s -> lexes B es (sh_ps s) (TSym LPAR :: ts) -> (4 * (es - sh_ps s) + 1 <= n)%nat ->
     meets gexec stops (parseblock es n) s (TSym LPAR :: ts)).
Proof.
  induction n as [|n (IH1 & IH2 & IH3 & IH4)]; [split_and!; intros; lia|].
  split_and!; intros s ts Hs Hl Hn; pose proof (lexes_le _ _ Hl).
  - apply parseline_step; [done|done|apply IH2; [done|done|lia]|].
    intros s' ts' Hs' Hps Hl'. pose proof (lexes_le _ _ Hl'). apply IH1; [done|done|lia].
  - apply parsepipe_step; [done|done|apply IH3; [done|done|lia]|].
    intros s' ts' Hs' Hps Hl'. pose proof (lexes_le _ _ Hl'). apply IH2; [done|done|lia].
  - apply parseexec_step; [done|done|]. intros s' ts' Hs' Hps Hl'. pose proof (lexes_le _ _ Hl'). apply IH4; [done|done|lia].
  - apply parseblock_step; [done|done|]. intros s' Hs' Hps Hl'. pose proof (lexes_le _ _ Hl'). apply IH1; [done|done|lia].
Qed.

End line.

(** ** Strings *)

Fixpoint swords (c : scmd) : list word :=
  match c with
  | SExec ws => ws
  | SRedir c w _ _ => swords c ++ [w]
  | SPipe l r | SList l r => swords l ++ swords r
  | SBack c => swords c
  end.

Definition zero_at (b : list Z) (l : list nat) : list Z := fold_left (fun b e => <[e := 0]> b) l b.

Lemma zero_at_length b l : length (zero_at b l) = length b.
Proof. revert b. induction l as [|e l IH]; intros b; simpl; [done|]. unfold zero_at in *. by rewrite IH, length_insert. Qed.

Lemma zero_at_app b l l' : zero_at b (l ++ l') = zero_at (zero_at b l) l'.
Proof. apply fold_left_app. Qed.

Lemma zero_at_lookup b l i :
  (i < length b)%nat -> zero_at b l !! i = if decide (i ∈ l) then Some 0 else b !! i.
Proof.
  revert b. induction l as [|e l IH]; intros b Hi; [by destruct (decide (i ∈ [])) as [?%elem_of_nil|]|].
  unfold zero_at in *. cbn [fold_left]. rewrite IH by by rewrite length_insert.
  destruct (decide (i ∈ l)) as [Hl|Hl], (decide (i ∈ e :: l)) as [Hc|Hc]; rewrite elem_of_cons in Hc; try tauto.
  - by destruct Hc as [->|]; [rewrite list_lookup_insert_eq|].
  - rewrite list_lookup_insert_ne; [done|naive_solver].
Qed.

Lemma sh_store_ok k c s o : (k < length (sh_buf s))%nat -> sh_store k c s o = Ret (tt, sh_set_buf (<[k := c]> (sh_buf s)) s) o.
Proof. intros H. unfold sh_store. destruct (lookup_lt_is_Some_2 _ _ H) as [x Hx]. by rewrite Hx. Qed.

Lemma nulterminate_args_ok ws n s o :
  Forall (fun w => (w.2 < length (sh_buf s))%nat) ws ->
  nulterminate_args ((Some <$> ws.*1) ++ replicate (S n) None) ((Some <$> ws.*2) ++ replicate (S n) None) s o =
    Ret (tt, sh_set_buf (zero_at (sh_buf s) ws.*2) s) o.
Proof.
  revert s. induction ws as [|[q e] ws IH]; intros s Hw; [by destruct s|]. apply Forall_cons in Hw as [He Hw].
  cbn [fmap list_fmap app nulterminate_args]. erewrite sbind_ret by by apply sh_store_ok. rewrite IH; [done|].
  eapply Forall_impl; [exact Hw|]. intros w. simpl. by rewrite length_insert.
Qed.

Lemma nulterminate_ok fuel p c s o :
  rep (sh_heap s) p c -> (p <= fuel)%nat -> Forall (fun w => (w.2 < length (sh_buf s))%nat) (swords c) ->
  nulterminate p fuel s o = Ret (p, sh_set_buf (zero_at (sh_buf s) (swords c).*2) s) o.
Proof.
  revert fuel p s. induction c as [ws|c IH w mode fd|l IHl r IHr|l IHl r IHr|c IH]; intros fuel p s [H0 H] Hf Hw;
    (destruct fuel as [|fuel]; [lia|]); cbn [nulterminate]; (replace (p =? 0)%nat with false by (symmetry; by apply Nat.eqb_neq)).
  - destruct H as (argv & eargv & Hp & Hlen & -> & ->). erewrite sbind_ret by (unfold sh_node; by rewrite Hp).
    replace (MAXARGS - length ws)%nat with (S (MAXARGS - length ws - 1)) by lia. cbn [swords] in *.
    by erewrite sbind_ret by by apply nulterminate_args_ok.
  - destruct H as (p' & Hp & Hlt & Hr). erewrite sbind_ret by (unfold sh_node; by rewrite Hp). cbn [swords] in *.
    apply Forall_app in Hw as [Hw1 Hw2]. apply list.Forall_cons in Hw2 as [Hw2 _].
    erewrite sbind_ret; [done|]. erewrite sbind_ret by (apply IH; [done|lia|done]).
    rewrite sh_store_ok by (simpl; by rewrite zero_at_length). by rewrite fmap_app, zero_at_app.
  - destruct H as (a & b & Hp & Ha & Hb & Hra & Hrb). erewrite sbind_ret by (unfold sh_node; by rewrite Hp). cbn [swords] in *.
    apply Forall_app in Hw as [Hw1 Hw2]. rewrite fmap_app, zero_at_app.
    erewrite sbind_ret; [done|]. erewrite sbind_ret by (apply IHl; [done|lia|done]).
    erewrite sbind_ret by (apply IHr; [done|lia|simpl; by rewrite zero_at_length]). done.
  - destruct H as (a & b & Hp & Ha & Hb & Hra & Hrb). erewrite sbind_ret by (unfold sh_node; by rewrite Hp). cbn [swords] in *.
    apply Forall_app in Hw as [Hw1 Hw2]. rewrite fmap_app, zero_at_app.
    erewrite sbind_ret; [done|]. erewrite sbind_ret by (apply IHl; [done|lia|done]).
    erewrite sbind_ret by (apply IHr; [done|lia|simpl; by rewrite zero_at_length]). done.
  - destruct H as (p' & Hp & Hlt & Hr). erewrite sbind_ret by (unfold sh_node; by rewrite Hp). cbn [swords] in *.
    erewrite sbind_ret; [done|]. erewrite sbind_ret by (apply IH; [done|lia|done]). done.
Qed.

(** The words of a command are words of its tokens. *)
Scheme gexec_mut := Minimality for gexec Sort Prop
  with gpipe_mut := Minimality for gpipe Sort Prop
  with gline_mut := Minimality for gline Sort Prop.

Lemma gredirs_words ts rs r : gredirs ts rs -> r ∈ rs -> TWord r.2.1 r.2.2 ∈ ts.
Proof.
  induction 1 as [|c q e ts rs Hc _ IH]; intros Hr; [by apply elem_of_nil in Hr|].
  apply elem_of_cons in Hr as [->|Hr]; [right; left|]. right. right. by apply IH.
Qed.

Lemma gitems_words ts ws rs :
  gitems ts ws rs -> (forall w, w ∈ ws -> TWord w.1 w.2 ∈ ts) /\ (forall r, r ∈ rs -> TWord r.2.1 r.2.2 ∈ ts).
Proof.
  induction 1 as [|q e ts ws rs _ [IH1 IH2]|c q e ts ws rs Hc _ [IH1 IH2]]; split; intros w Hw; try by apply elem_of_nil in Hw.
  - apply elem_of_cons in Hw as [->|Hw]; [left|]. right. by apply IH1.
  - right. by apply IH2.
  - right. right. by apply IH1.
  - apply elem_of_cons in Hw as [->|Hw]; [right; left|]. right. right. by apply IH2.
Qed.

Lemma apply_redirs_words c rs w : w ∈ swords (apply_redirs c rs) <-> w ∈ swords c \/ w ∈ rs.*2.
Proof.
  unfold apply_redirs. revert c. induction rs as [|r rs IH]; intros c; simpl; [rewrite elem_of_nil; tauto|].
  rewrite IH. cbn [swords]. rewrite elem_of_app, list_elem_of_singleton, elem_of_cons. tauto.
Qed.

Lemma backs_words n c : swords (backs n c) = swords c.
Proof. by induction n. Qed.

Lemma gline_words ts c : gline ts c -> forall w, w ∈ swords c -> TWord w.1 w.2 ∈ ts.
Proof.
  set (P := fun (ts : list tok) (c : scmd) => forall w, w ∈ swords c -> TWord w.1 w.2 ∈ ts). change (gline ts c -> P ts c).
  apply (gline_mut P P P); unfold P; clear.
  - intros ts' ws rs Hi _ w Hw. destruct (gitems_words _ _ _ Hi) as [H1 H2].
    apply apply_redirs_words in Hw as [Hw|(r & -> & Hr)%list_elem_of_fmap]; [by apply H1|by apply H2].
  - intros ts' c' ts2 rs _ IH Hr w Hw. apply apply_redirs_words in Hw as [Hw|(r & -> & Hr')%list_elem_of_fmap].
    + right. apply elem_of_app. left. by apply IH.
    + right. apply elem_of_app. right. right. by eapply gredirs_words.
  - done.
  - intros ts' c' ts2 c2 _ IH1 _ IH2 w [Hw|Hw]%elem_of_app; apply elem_of_app; [left; by apply IH1|right; right; by apply IH2].
  - intros ts' c' n _ IH w Hw. rewrite backs_words in Hw. apply elem_of_app. left. by apply IH.
  - intros ts' c' n ts2 c2 _ IH1 _ IH2 w [Hw|Hw]%elem_of_app; apply elem_of_app.
    + left. apply IH1. by rewrite backs_words in Hw.
    + right. apply elem_of_app. right. right. by apply IH2.
Qed.

(** A word lies inside the line, after the offset where lexing starts, and is
    made of word characters; the next one begins after its end. *)
Lemma lexes_word B es k ts q e :
  lexes B es k ts -> TWord q e ∈ ts -> (k <= q)%nat /\ (q < e <= es)%nat /\ (forall i, (q <= i < e)%nat -> wordch (arr B i) = true).
Proof.
  induction 1 as [|k ts Hk _ _ IH|k c ts Hk _ _ _ IH|k ts Hk _ _ _ IH|k ts Hk _ _ _ IH|k f ts Hk Hall _ _ IH]; intros Hin.
  - by apply elem_of_nil in Hin.
  - destruct (IH Hin) as (? & ? & ?). split_and!; try done; lia.
  - apply elem_of_cons in Hin as [?|Hin]; [done|]. destruct (IH Hin) as (? & ? & ?). split_and!; try done; lia.
  - apply elem_of_cons in Hin as [?|Hin]; [done|]. destruct (IH Hin) as (? & ? & ?). split_and!; try done; lia.
  - apply elem_of_cons in Hin as [?|Hin]; [done|]. destruct (IH Hin) as (? & ? & ?). split_and!; try done; lia.
  - apply elem_of_cons in Hin as [[= -> ->]|Hin]; [split_and!; try done; lia|]. destruct (IH Hin) as (? & ? & ?). split_and!; try done; lia.
Qed.

(** A word that starts where lexing starts is the first token. *)
Lemma lexes_apart B es k ts q1 e1 q2 e2 :
  lexes B es k ts -> TWord q1 e1 ∈ ts -> TWord q2 e2 ∈ ts -> (q1, e1) = (q2, e2) \/ (e1 < q2)%nat \/ (e2 < q1)%nat.
Proof.
  assert (forall k f ts q e, (k < f <= es)%nat -> (f = es \/ wordch (arr B f) = false) -> lexes B es f ts -> TWord q e ∈ ts -> (f < q)%nat) as Hafter.
  { intros k' f ts' q e Hf Hend Hl Hin. destruct (lexes_word _ _ _ _ _ _ Hl Hin) as (Hq & He & Hall).
    destruct (decide (q = f)) as [->|]; [|lia]. destruct Hend as [->|Hend]; [lia|]. rewrite Hall in Hend by lia. done. }
  induction 1 as [|k ts Hk _ _ IH|k c ts Hk _ _ _ IH|k ts Hk _ _ _ IH|k ts Hk _ _ _ IH|k f ts Hk Hall Hf Hl IH]; intros H1 H2.
  - by apply elem_of_nil in H1.
  - by apply IH.
  - apply elem_of_cons in H1 as [?|H1]; [done|]. apply elem_of_cons in H2 as [?|H2]; [done|]. by apply IH.
  - apply elem_of_cons in H1 as [?|H1]; [done|]. apply elem_of_cons in H2 as [?|H2]; [done|]. by apply IH.
  - apply elem_of_cons in H1 as [?|H1]; [done|]. apply elem_of_cons in H2 as [?|H2]; [done|]. by apply IH.
  - apply elem_of_cons in H1, H2. destruct H1 as [[= E1 E2]|H1], H2 as [[= E3 E4]|H2]; subst.
    + by left.
    + right. left. by eapply Hafter.
    + right. right. by eapply Hafter.
    + by apply IH.
Qed.

(** The text of a word. *)
Definition word_text (B : list Z) (w : word) : list Z := slice w.1 (w.2 - w.1) B.

Lemma string_zeroed B es ts ws w :
  (forall i, (i < es)%nat -> exists c, B !! i = Some c /\ c <> 0) -> (es < length B)%nat -> lexes B es 0 ts ->
  (forall w, w ∈ ws -> TWord w.1 w.2 ∈ ts) -> w ∈ ws -> string_at (zero_at B ws.*2) w.1 = word_text B w.
Proof.
  intros Hnz Hlen Hl Hws Hw. destruct w as [q e]. unfold string_at, word_text. simpl.
  destruct (lexes_word _ _ _ _ _ _ Hl (Hws _ Hw)) as (_ & He & _). simpl in He. set (b := zero_at B ws.*2).
  assert (slice q (e - q) b = slice q (e - q) B) as Hs.
  { apply list_eq. intros i. rewrite !slice_lookup. case_decide; [|done]. unfold b.
    rewrite zero_at_lookup by lia. rewrite decide_False; [done|].
    intros ([q' e'] & E & Hin)%list_elem_of_fmap. simpl in E.
    destruct (lexes_word _ _ _ _ _ _ Hl (Hws _ Hin)) as (_ & He' & _). simpl in He'.
    destruct (lexes_apart _ _ _ _ _ _ _ _ Hl (Hws _ Hw) (Hws _ Hin)) as [[= -> ->]|[?|?]]; simpl in *; lia. }
  assert (b !! e = Some 0) as Hz.
  { unfold b. rewrite zero_at_lookup by lia. rewrite decide_True; [done|]. by apply (list_elem_of_fmap_2 snd ws (q, e)). }
  rewrite <- (take_drop (e - q) (drop q b)). fold (slice q (e - q) b). rewrite drop_drop, Hs.
  replace (q + (e - q))%nat with e by lia. rewrite (drop_S b 0 e Hz). apply cstring_app.
  apply Forall_lookup_2. intros i c Hi. rewrite slice_lookup in Hi. case_decide; [|done].
  destruct (Hnz (q + i)%nat) as (c' & Hc & Hne); [lia|]. congruence.
Qed.

(** Commands with their strings. *)
Inductive ctree : Type :=
| CExec (args : list (list Z))
| CRedir (c : ctree) (file : list Z) (mode fd : Z)
| CPipe (l r : ctree)
| CList (l r : ctree)
| CBack (c : ctree).

Fixpoint text (B : list Z) (c : scmd) : ctree :=
  match c with
  | SExec ws => CExec (word_text B <$> ws)
  | SRedir c w mode fd => CRedir (text B c) (word_text B w) mode fd
  | SPipe l r => CPipe (text B l) (text B r)
  | SList l r => CList (text B l) (text B r)
  | SBack c => CBack (text B c)
  end.

(** The command at [p] in memory, as runcmd reads it. *)
Fixpoint stored (s : shst) (p : nat) (t : ctree) : Prop :=
  p <> 0%nat /\
  match t with
  | CExec args => exists argv eargv, sh_heap s !! p = Some (NExec argv eargv) /\ argv_strings (sh_buf s) argv = args
  | CRedir c file mode fd => exists p' q e, sh_heap s !! p = Some (NRedir p' q e mode fd) /\ (p' < p)%nat /\
      string_at (sh_buf s) q = file /\ stored s p' c
  | CPipe l r => exists a b, sh_heap s !! p = Some (NPipe a b) /\ (a < p)%nat /\ (b < p)%nat /\ stored s a l /\ stored s b r
  | CList l r => exists a b, sh_heap s !! p = Some (NList a b) /\ (a < p)%nat /\ (b < p)%nat /\ stored s a l /\ stored s b r
  | CBack c => exists p', sh_heap s !! p = Some (NBack p') /\ (p' < p)%nat /\ stored s p' c
  end.

Lemma argv_strings_ok b B ws n :
  (forall w, w ∈ ws -> string_at b w.1 = word_text B w) ->
  argv_strings b ((Some <$> ws.*1) ++ replicate (S n) None) = word_text B <$> ws.
Proof.
  induction ws as [|w ws IH]; intros Hw; [done|]. cbn [fmap list_fmap app argv_strings]. rewrite Hw by left.
  f_equal. apply IH. intros w' Hw'. apply Hw. by right.
Qed.

Lemma rep_stored h b B s p c :
  sh_heap s = h -> sh_buf s = b -> rep h p c -> (forall w, w ∈ swords c -> string_at b w.1 = word_text B w) -> stored s p (text B c).
Proof.
  intros <- <-. revert p. induction c as [ws|c IH w mode fd|l IHl r IHr|l IHl r IHr|c IH]; intros p [H0 H] Hw; (split; [done|]); cbn [swords] in Hw.
  - destruct H as (argv & eargv & Hp & Hlen & -> & ->). eexists _, _. split; [done|].
    replace (MAXARGS - length ws)%nat with (S (MAXARGS - length ws - 1)) by lia. by apply argv_strings_ok.
  - destruct H as (p' & Hp & Hlt & Hr). eexists _, _, _. split_and!; [done|done| |].
    + apply Hw, elem_of_app. right. by left.
    + apply IH; [done|]. intros w' Hw'. apply Hw, elem_of_app. by left.
  - destruct H as (a & b' & Hp & Ha & Hb & Hra & Hrb). exists a, b'. split_and!; [done..|apply IHl|apply IHr]; try done;
      intros w' Hw'; apply Hw, elem_of_app; auto.
  - destruct H as (a & b' & Hp & Ha & Hb & Hra & Hrb). exists a, b'. split_and!; [done..|apply IHl|apply IHr]; try done;
      intros w' Hw'; apply Hw, elem_of_app; auto.
  - destruct H as (p' & Hp & Hlt & Hr). exists p'. split_and!; [done|done|by apply IH].
Qed.

(** A line has one sequence of tokens. *)
Lemma lexes_det B es k ts ts' : lexes B es k ts -> lexes B es k ts' -> ts = ts'.
Proof.
  intros H. revert ts'. induction H as [|k ts Hk Hw _ IH|k c ts Hk Hc Hs _ IH|k ts Hk Hg Hg2 _ IH|k ts Hk Hg Hg2 _ IH|k e ts Hk Hall He Hl IH]; intros ts' H'.
  - inversion H'; subst; try done; lia.
  - apply IH. destruct (white_only _ Hw) as (? & ? & Hwd & _). inversion H' as [| | | | |k0 e0 ts0 Hk0 Hall0]; subst; try done; try congruence; [lia|].
    rewrite Hall0 in Hwd by lia. done.
  - subst c. destruct (single_only _ Hs) as (Hnw & Hng & Hwd & _).
    inversion H' as [| | | | |k0 e0 ts0 Hk0 Hall0]; subst; try congruence; [lia|f_equal; by apply IH|].
    rewrite Hall0 in Hwd by lia. done.
  - inversion H' as [|? ? ? Hw0|? ? ? ? ? Hs0| | |k0 e0 ts0 Hk0 Hall0]; subst; try congruence;
      [lia|by rewrite Hg in Hw0|by rewrite Hg in Hs0|f_equal; by apply IH|].
    specialize (Hall0 k ltac:(lia)). by rewrite Hg in Hall0.
  - inversion H' as [|? ? ? Hw0|? ? ? ? ? Hs0| | |k0 e0 ts0 Hk0 Hall0]; subst; try congruence;
      [lia|by rewrite Hg in Hw0|by rewrite Hg in Hs0|f_equal; by apply IH|].
    specialize (Hall0 k ltac:(lia)). by rewrite Hg in Hall0.
  - destruct (word_only (arr B k)) as (Hnw & Hng & Hns); [apply Hall; lia|].
    inversion H' as [| | | | |k0 e0 ts0 Hk0 Hall0 He0 Hl0]; subst; try congruence; [lia|].
    assert (e0 = e) as ->.
    { destruct (Nat.lt_trichotomy e e0) as [?|[?|?]]; [exfalso|done|exfalso].
      - destruct He as [?|He]; [lia|]. rewrite Hall0 in He by lia. done.
      - destruct He0 as [?|He0]; [lia|]. rewrite Hall in He0 by lia. done. }
    f_equal. by apply IH.
Qed.

(** ** The parser *)

Lemma cstring_line line rest : Forall (fun c => c <> 0) line -> cstring (line ++ 0 :: rest) = line.
Proof. apply cstring_app. Qed.

Lemma line_chars line rest i : Forall (fun c => c <> 0) line -> (i < length line)%nat -> exists c, (line ++ 0 :: rest) !! i = Some c /\ c <> 0.
Proof.
  intros H Hi. destruct (lookup_lt_is_Some_2 line i Hi) as [c Hc]. exists c. split; [by apply lookup_app_l_Some|].
  by eapply Forall_lookup_1 in H.
Qed.

Lemma line_end line rest : (line ++ 0 :: rest) !! length line = Some 0.
Proof. by rewrite list_lookup_middle. Qed.

Lemma leftovers_exit msg s o :
  exists o', (_ ← sh_do (fprintf 2 (str "leftovers: %s" ++ [10]) [PStr (Some msg)]); sh_panic (A := nat) (str "syntax")) s o = Exited 1 o'.
Proof.
  destruct (fprintf_s (str "leftovers: ") [10] msg 2 o) as [o1 E]; [by repeat constructor..|].
  change (str "leftovers: " ++ str "%s" ++ [10]) with (str "leftovers: %s" ++ [10]) in E.
  destruct (sh_panic_exit (A := nat) (str "syntax") s o1) as [o' E']. exists o'.
  erewrite sbind_ret; [exact E'|]. unfold sh_do. by erewrite ubind_ret by exact E.
Qed.

(** What parsecmd does after the line has been parsed. *)
Definition parsecmd_end (B : list Z) (es cmd : nat) : SH nat :=
  _ ← peek es [];
  s ← sh_get sh_ps;
  if negb (s =? es)%nat then
    _ ← sh_do (fprintf 2 (str "leftovers: %s" ++ [10]) [PStr (Some (drop s B))]);
    sh_panic (str "syntax")
  else
    k ← sh_get sh_next;
    _ ← nulterminate cmd k;
    mret cmd.

Lemma parsecmd_eq line rest o :
  Forall (fun c => c <> 0) line ->
  let B := line ++ 0 :: rest in let es := length line in
  parsecmd (mkShst B 0 ∅ 1) o = (parseline es (4 * es + 4) ≫= parsecmd_end B es) (mkShst B 0 ∅ 1) o.
Proof.
  intros Hline B es. unfold parsecmd. erewrite sbind_ret by done. cbn [sh_buf]. unfold B. rewrite cstring_app by done. fold es.
  by erewrite sbind_ret by done.
Qed.

Section finish.
Context (B : list Z) (es : nat).
Hypothesis Hnz : forall i, (i < es)%nat -> exists c, B !! i = Some c /\ c <> 0.
Hypothesis Hend : B !! es = Some 0.

Lemma parsecmd_end_left cmd s o rest :
  sh_buf s = B -> lexes B es (sh_ps s) rest -> rest <> [] -> exists o', parsecmd_end B es cmd s o = Exited 1 o'.
Proof.
  intros Hb Hl Hne. destruct (peek_ok B es Hnz Hend [] (sh_ps s) rest s o Hb eq_refl Hl) as (k & Hp & _ & _ & Hk); [done|].
  unfold parsecmd_end. erewrite sbind_ret by exact Hp. erewrite sbind_ret by done.
  replace (sh_ps (set_ps k s) =? es)%nat with false; [apply leftovers_exit|]. symmetry. apply Nat.eqb_neq. by intros ->%Hk.
Qed.

Lemma parsecmd_end_ok p c ts s o :
  sh_buf s = B -> lexes B es (sh_ps s) [] -> rep (sh_heap s) p c -> (p < sh_next s)%nat -> lexes B es 0 ts -> gline ts c ->
  exists s', parsecmd_end B es p s o = Ret (p, s') o /\ (p < sh_next s')%nat /\ stored s' p (text B c).
Proof.
  intros Hb Hl Hrep Hp Hlex Hg. destruct (peek_ok B es Hnz Hend [] (sh_ps s) [] s o Hb eq_refl Hl) as (k & Hpk & _ & _ & Hk); [done|].
  pose proof (proj2 Hk eq_refl) as ->. pose proof (gline_words _ _ Hg) as Hw.
  assert (es < length B)%nat as Hlen by by eapply lookup_lt_Some.
  assert (Forall (fun w => (w.2 < length (sh_buf (set_ps es s)))%nat) (swords c)) as Hin.
  { apply Forall_forall. intros w Hw'. destruct (lexes_word _ _ _ _ _ _ Hlex (Hw w Hw')) as (_ & ? & _). simpl. rewrite Hb. lia. }
  eexists. split; [|split].
  - unfold parsecmd_end. erewrite sbind_ret by exact Hpk. erewrite sbind_ret by done.
    cbn [set_ps sh_ps]. rewrite Nat.eqb_refl. cbn [negb]. erewrite sbind_ret by done. erewrite sbind_ret by (apply nulterminate_ok; [exact Hrep|simpl; lia|exact Hin]). done.
  - done.
  - eapply rep_stored; [done|done|exact Hrep|]. simpl. rewrite Hb. intros w Hw'. by eapply string_zeroed.
Qed.

End finish.

Lemma parsecmd_cases line rest o :
  Forall (fun c => c <> 0) line ->
  let B := line ++ 0 :: rest in let es := length line in
  (exists p s' ts c, parsecmd (mkShst B 0 ∅ 1) o = Ret (p, s') o /\ (p < sh_next s')%nat /\
     lexes B es 0 ts /\ gline ts c /\ stored s' p (text B c)) \/
  ((exists o', parsecmd (mkShst B 0 ∅ 1) o = Exited 1 o') /\ forall ts c, lexes B es 0 ts -> ~ gline ts c).
Proof.
  intros Hline B es. set (s := mkShst B 0 ∅ 1).
  assert (forall i, (i < es)%nat -> exists c, B !! i = Some c /\ c <> 0) as Hnz by (intros i; by apply line_chars).
  assert (B !! es = Some 0) as Hend by apply line_end.
  destruct (lexes_total B es Hnz Hend 0) as [ts Hl]; [lia|].
  assert (sok B s) as Hs by (split; [done|simpl; lia]).
  destruct (parse_all B es Hnz Hend (4 * es + 4)) as [Hall _].
  destruct (Hall s ts Hs Hl ltac:(simpl; lia) o) as (res & Hres & Hsnd & Hcmp).
  assert (forall ts' c, lexes B es 0 ts' -> gline ts' c -> res = Some (c, [])) as Huniq.
  { intros ts' c Hl' Hg. pose proof (lexes_det _ _ _ _ _ Hl' Hl) as ->. apply (Hcmp ts c []); [by rewrite app_nil_r|done|done]. }
  assert (parsecmd s o = (parseline es (4 * es + 4) ≫= parsecmd_end B es) s o) as -> by apply (parsecmd_eq line rest o Hline).
  destruct res as [[c rest']|].
  - destruct Hres as (p & s1 & Hrun & [G1 _ _ _] & Hl1 & Hrep & Hp). erewrite sbind_ret by exact Hrun.
    destruct (decide (rest' = [])) as [->|Hne].
    + left. destruct (Hsnd c [] eq_refl) as (ts1 & E & Hg). rewrite app_nil_r in E. subst ts1.
      destruct (parsecmd_end_ok B es Hnz Hend p c ts s1 o) as (s' & Hr & Hp' & Hst); [by rewrite G1|done..|].
      exists p, s', ts, c. by split_and!.
    + right. split; [apply (parsecmd_end_left B es Hnz Hend p s1 o rest'); [by rewrite G1|done|done]|].
      intros ts' c' Hl' Hg. pose proof (Huniq _ _ Hl' Hg). congruence.
  - right. destruct Hres as [o' Hrun]. split; [exists o'; by erewrite sbind_exit by exact Hrun|].
    intros ts' c' Hl' Hg. by pose proof (Huniq _ _ Hl' Hg).
Qed.

(** C5: [parsecmd] accepts exactly the lines of the grammar: it returns the
    command that the line denotes, with every string the text of its word, or
    prints a message and exits with status 1 when the line denotes none.  It
    does so for every line: it neither runs for ever nor accesses memory
    outside the line and the commands it has allocated. *)
Theorem parsecmd_spec line rest o :
  Forall (fun c => c <> 0) line ->
  let B := line ++ 0 :: rest in let es := length line in
  (exists p s' ts c, parsecmd (mkShst B 0 ∅ 1) o = Ret (p, s') o /\ (p < sh_next s')%nat /\
     lexes B es 0 ts /\ gline ts c /\ stored s' p (text B c)) \/
  ((exists o', parsecmd (mkShst B 0 ∅ 1) o = Exited 1 o') /\ forall ts c, lexes B es 0 ts -> ~ gline ts c).
Proof. apply parsecmd_cases. Qed.
