(* ===== verification/ShRun.v ===== *)
(** * Running command lines: proofs about user/sh.c

    What a command means is the list of programs it starts, each with its
    open files ([wires]).  The child of the shell that parses and runs a line
    starts exactly what the line means, whichever system calls fail
    ([runs]). *)

From Stdlib Require Import ZArith Lia.
From stdpp Require Import base gmap list numbers strings.
From S2P Require Import Prelude Riscv Kstring Printf User Sh ShParse.
Local Open Scope Z_scope.

(** ** Running a command *)

(** What a file descriptor refers to; pipes are told apart by a name. *)
Inductive ofile : Type :=
| OFile (path : list Z) (mode : Z)
| OPipeR (name : nat)
| OPipeW (name : nat)
| OInherited (n : Z).

Abbreviation fdt := (gmap Z ofile).

(** A program started with its arguments and open files. *)
Abbreviation started := (list Z * list (list Z) * gmap Z ofile)%type.

(** The lowest descriptor not in use, which open, dup and pipe return. *)
Definition is_lowest (fds : fdt) (fd : Z) : Prop :=
  0 <= fd /\ fds !! fd = None /\ forall i, 0 <= i < fd -> is_Some (fds !! i).

(** The programs a process and its descendants start, whichever system calls
    succeed, in the order of the program text. *)
Inductive runs : uproc -> fdt -> list started -> Prop :=
| runs_exit code fds : runs (PExit code) fds []
| runs_exec path argv k fds : runs (PExec path argv k) fds [(path, argv, fds)]
| runs_exec_failed path argv k fds es : runs k fds es -> runs (PExec path argv k) fds es
| runs_fork c p f fds es1 es2 : runs c fds es1 -> runs p fds es2 -> runs (PFork c p f) fds (es1 ++ es2)
| runs_fork_failed c p f fds es : runs f fds es -> runs (PFork c p f) fds es
| runs_wait k fds es : runs k fds es -> runs (PWait k) fds es
| runs_close fd k fds es : runs k (delete fd fds) es -> runs (PClose fd k) fds es
| runs_dup fd k fds f fd' es : fds !! fd = Some f -> is_lowest fds fd' -> runs k (<[fd' := f]> fds) es -> runs (PDup fd k) fds es
| runs_dup_failed fd k fds es : fds !! fd = None -> runs k fds es -> runs (PDup fd k) fds es
| runs_pipe k f fds name p0 p1 es : is_lowest fds p0 -> is_lowest (<[p0 := OPipeR name]> fds) p1 ->
    runs (k p0 p1) (<[p1 := OPipeW name]> (<[p0 := OPipeR name]> fds)) es -> runs (PPipe k f) fds es
| runs_pipe_failed k f fds es : runs f fds es -> runs (PPipe k f) fds es
| runs_open path mode k fds fd es : is_lowest fds fd -> runs (k fd) (<[fd := OFile path mode]> fds) es -> runs (POpen path mode k) fds es
| runs_open_failed path mode k fds es : runs (k (-1)) fds es -> runs (POpen path mode k) fds es
| runs_chdir path k r fds es : runs (k r) fds es -> runs (PChdir path k) fds es
| runs_do {A} (m : U A) k fds o a o' es : m o = Ret a o' -> runs (k a) fds es -> runs (PDo m k) fds es
| runs_do_exit {A} (m : U A) k fds o code o' : m o = Exited code o' -> runs (PDo m k) fds [].

(** What a command means: the programs of its parts, each with the files its
    context gives it.  A system call that fails leaves out a part. *)
Inductive wires : ctree -> fdt -> list started -> Prop :=
| wires_none t fds : wires t fds []
| wires_exec path args fds : wires (CExec (path :: args)) fds [(path, path :: args, fds)]
| wires_redir c file mode fd fds es : wires c (<[fd := OFile file mode]> fds) es -> wires (CRedir c file mode fd) fds es
| wires_list l r fds es1 es2 : wires l fds es1 -> wires r fds es2 -> wires (CList l r) fds (es1 ++ es2)
| wires_pipe l r fds name es1 es2 : wires l (<[1 := OPipeW name]> fds) es1 -> wires r (<[0 := OPipeR name]> fds) es2 ->
    wires (CPipe l r) fds (es1 ++ es2)
| wires_back c fds es : wires c fds es -> wires (CBack c) fds es.

(** Standard input, output and error are open and nothing else. *)
Definition std (fds : fdt) : Prop := forall fd, is_Some (fds !! fd) <-> 0 <= fd < 3.

Fixpoint redirs_std (t : ctree) : Prop :=
  match t with
  | CExec _ => True
  | CRedir c _ _ fd => (fd = 0 \/ fd = 1) /\ redirs_std c
  | CPipe l r | CList l r => redirs_std l /\ redirs_std r
  | CBack c => redirs_std c
  end.

Lemma std_none fds fd : std fds -> fds !! fd = None <-> ~ 0 <= fd < 3.
Proof. intros H. rewrite <- (H fd), <- eq_None_not_Some. done. Qed.

Lemma std_insert fds fd f : std fds -> 0 <= fd < 3 -> std (<[fd := f]> fds).
Proof.
  intros H Hfd i. destruct (decide (i = fd)) as [->|]; [rewrite lookup_insert_eq|by rewrite lookup_insert_ne].
  split; [done|]. by eexists.
Qed.

(** A descriptor that was closed is the one that is given next. *)
Lemma lowest_closed fds fd fd' : std fds -> 0 <= fd < 3 -> is_lowest (delete fd fds) fd' -> fd' = fd.
Proof.
  intros H Hfd (H0 & Hn & Hlt). destruct (Z.lt_trichotomy fd' fd) as [?|[?|?]]; [exfalso|done|exfalso].
  - rewrite lookup_delete_ne in Hn by lia. apply (std_none _ _ H) in Hn. lia.
  - destruct (Hlt fd ltac:(lia)) as [f Hf]. by rewrite lookup_delete_eq in Hf.
Qed.

Lemma lowest_std fds fd : std fds -> is_lowest fds fd -> fd = 3.
Proof.
  intros H (H0 & Hn & Hlt). apply (std_none _ _ H) in Hn. destruct (decide (fd = 3)) as [|]; [done|].
  assert (is_Some (fds !! 3)) as H3 by (apply Hlt; lia). apply H in H3. lia.
Qed.

Lemma lowest_next fds fd f : std fds -> is_lowest (<[3 := f]> fds) fd -> fd = 4.
Proof.
  intros H (H0 & Hn & Hlt). destruct (decide (fd = 3)) as [->|]; [by rewrite lookup_insert_eq in Hn|].
  rewrite lookup_insert_ne in Hn by lia. apply (std_none _ _ H) in Hn. destruct (decide (fd = 4)); [done|].
  destruct (Hlt 4 ltac:(lia)) as [f' Hf]. rewrite lookup_insert_ne in Hf by done. assert (is_Some (fds !! 4)) as H4 by eauto. apply H in H4. lia.
Qed.

Lemma runs_do_inv {A} (m : U A) (k : A -> uproc) fds es :
  runs (PDo m k) fds es ->
  (exists o a o', m o = Ret a o' /\ runs (k a) fds es) \/ (es = [] /\ exists o code o', m o = Exited code o').
Proof.
  intros H. refine (match H in runs p f e return
    match p with
    | PDo m k => (exists o a o', m o = Ret a o' /\ runs (k a) f e) \/ (e = [] /\ exists o code o', m o = Exited code o')
    | _ => True
    end with runs_do _ _ _ _ _ _ _ _ _ => _ | runs_do_exit _ _ _ _ _ _ _ => _ | _ => I end).
  - left. eauto 10.
  - right. eauto 10.
Qed.

Lemma runs_exit_inv code fds es : runs (PExit code) fds es -> es = [].
Proof. by inversion 1. Qed.

Lemma runs_print {A} (m : U A) code fds es : runs (PDo m (fun _ => PExit code)) fds es -> es = [].
Proof. intros [(_ & _ & _ & _ & H)|[-> _]]%runs_do_inv; [by apply runs_exit_inv in H|done]. Qed.

(** fork1 starts both branches, or prints a message. *)
Lemma runs_fork1 c p fds es :
  runs (fork1 c p) fds es -> es = [] \/ exists es1 es2, es = es1 ++ es2 /\ runs c fds es1 /\ runs p fds es2.
Proof. intros H. inversion H; subst; [right; eauto|left]. by eapply runs_print. Qed.

(** The descriptors of the two sides of a pipe. *)
Lemma pipe_left fds name :
  std fds -> delete 4 (delete 3 (<[1 := OPipeW name]> (delete 1 (<[4 := OPipeW name]> (<[3 := OPipeR name]> fds))))) = <[1 := OPipeW name]> fds.
Proof.
  intros H. apply map_eq. intros i. repeat (rewrite lookup_delete || rewrite lookup_insert). repeat case_decide; subst; try done; try lia.
  - symmetry. apply (std_none _ _ H). lia.
  - symmetry. apply (std_none _ _ H). lia.
Qed.

Lemma pipe_right fds name :
  std fds -> delete 4 (delete 3 (<[0 := OPipeR name]> (delete 0 (<[4 := OPipeW name]> (<[3 := OPipeR name]> fds))))) = <[0 := OPipeR name]> fds.
Proof.
  intros H. apply map_eq. intros i. repeat (rewrite lookup_delete || rewrite lookup_insert). repeat case_decide; subst; try done; try lia.
  - symmetry. apply (std_none _ _ H). lia.
  - symmetry. apply (std_none _ _ H). lia.
Qed.

(** close(fd); dup(p): the descriptor [fd] now refers to what [p] does. *)
Lemma runs_close_dup fd p k f fds es :
  0 <= fd < 3 -> (forall i, 0 <= i < 3 -> is_Some (fds !! i)) -> 3 <= p -> fds !! p = Some f ->
  runs (PClose fd (PDup p k)) fds es -> runs k (<[fd := f]> (delete fd fds)) es.
Proof.
  intros Hfd Hstd Hp Hf H. inversion H as [| | | | | |fd0 k0 fds0 es0 H1| | | | | | | | |]; subst.
  inversion H1 as [| | | | | | |fd1 k1 fds1 f1 fd' es1 Hf1 Hlow H2|fd1 k1 fds1 es1 Hn H2| | | | | | |]; subst.
  - rewrite lookup_delete_ne in Hf1 by lia. simplify_eq. assert (fd' = fd) as ->; [|done].
    destruct Hlow as (H0 & Hn & Hlt). destruct (Z.lt_trichotomy fd' fd) as [?|[?|?]]; [exfalso|done|exfalso].
    + rewrite lookup_delete_ne in Hn by lia. destruct (Hstd fd' ltac:(lia)). congruence.
    + destruct (Hlt fd ltac:(lia)) as [f' Hf']. by rewrite lookup_delete_eq in Hf'.
  - rewrite lookup_delete_ne in Hn by lia. congruence.
Qed.

Lemma runs_close_inv fd k fds es : runs (PClose fd k) fds es -> runs k (delete fd fds) es.
Proof. by inversion 1. Qed.

Lemma runs_wait_inv k fds es : runs (PWait k) fds es -> runs k fds es.
Proof. by inversion 1. Qed.

(** One side of a pipe: [fd] becomes the end [p] of it and both ends are closed. *)
Lemma runs_side fd p name f k fds es :
  std fds -> 0 <= fd < 3 -> <[4 := OPipeW name]> (<[3 := OPipeR name]> fds) !! p = Some f -> 3 <= p ->
  runs (PClose fd (PDup p (PClose 3 (PClose 4 k)))) (<[4 := OPipeW name]> (<[3 := OPipeR name]> fds)) es ->
  runs k (delete 4 (delete 3 (<[fd := f]> (delete fd (<[4 := OPipeW name]> (<[3 := OPipeR name]> fds)))))) es.
Proof.
  intros Hstd Hfd Hf Hp H. do 2 apply runs_close_inv. eapply runs_close_dup; [done| |done|done|done].
  intros i Hi. rewrite !lookup_insert_ne by lia. by apply Hstd.
Qed.

Lemma runcmd_wires t : forall s p fuel fds es,
  stored s p t -> (p <= fuel)%nat -> std fds -> redirs_std t -> runs (runcmd s p fuel) fds es -> wires t fds es.
Proof.
  induction t as [args|c IH file mode fd|l IHl r IHr|l IHl r IHr|c IH]; intros s p fuel fds es [H0 Hst] Hf Hstd Hrd Hr;
    (destruct fuel as [|fuel]; [lia|]); cbn [runcmd] in Hr;
    (replace (p =? 0)%nat with false in Hr by (symmetry; by apply Nat.eqb_neq)).
  - destruct Hst as (argv & eargv & Hp & <-). rewrite Hp in Hr. destruct argv as [|[q|] argv]; cbn [argv_strings].
    1, 3: apply runs_exit_inv in Hr as ->; constructor.
    inversion Hr; subst; [constructor|]. match goal with H : runs _ _ _ |- _ => apply runs_print in H as -> end. constructor.
  - destruct Hst as (p' & q & e & Hp & Hlt & <- & Hst). rewrite Hp in Hr. destruct Hrd as [Hfd Hrd]. apply runs_close_inv in Hr.
    inversion Hr as [| | | | | | | | | | |? ? ? ? fd' ? Hlow H1|? ? ? ? ? H1| | |]; subst.
    + apply (lowest_closed fds fd) in Hlow as ->; [|done|lia]. replace (fd <? 0) with false in H1 by (symmetry; apply Z.ltb_ge; lia).
      constructor. rewrite insert_delete_eq in H1. apply (IH s p' fuel); [done|lia|apply std_insert; [done|lia]|done|done].
    + apply runs_print in H1 as ->. constructor.
  - destruct Hst as (a & b & Hp & Ha & Hb & Hsa & Hsb). rewrite Hp in Hr. destruct Hrd as [Hrl Hrr].
    inversion Hr as [| | | | | | | | |? ? ? name p0 p1 ? Hl0 Hl1 H1|? ? ? ? H1| | | | |]; subst; [|apply runs_print in H1 as ->; constructor].
    apply (lowest_std fds) in Hl0 as ->; [|done]. apply (lowest_next fds) in Hl1 as ->; [|done].
    apply runs_fork1 in H1 as [->|(es1 & es2 & -> & H1 & H2)]; [constructor|].
    eapply (runs_side 1 4 name) in H1; [|done|lia|by rewrite lookup_insert_eq|lia]. rewrite pipe_left in H1 by done.
    apply IHl in H1; [|done|lia|by apply std_insert|done].
    apply runs_fork1 in H2 as [->|(es3 & es4 & -> & H2 & H3)].
    { apply (wires_pipe _ _ _ name); [done|constructor]. }
    eapply (runs_side 0 3 name) in H2; [|done|lia|by rewrite lookup_insert_ne, lookup_insert_eq|lia]. rewrite pipe_right in H2 by done.
    apply IHr in H2; [|done|lia|by apply std_insert|done].
    do 2 apply runs_close_inv in H3. do 2 apply runs_wait_inv in H3. apply runs_exit_inv in H3 as ->. rewrite app_nil_r.
    by apply (wires_pipe _ _ _ name).
  - destruct Hst as (a & b & Hp & Ha & Hb & Hsa & Hsb). rewrite Hp in Hr. destruct Hrd as [Hrl Hrr].
    apply runs_fork1 in Hr as [->|(es1 & es2 & -> & H1 & H2)]; [constructor|]. apply runs_wait_inv in H2.
    constructor; [apply (IHl s a fuel)|apply (IHr s b fuel)]; auto; lia.
  - destruct Hst as (p' & Hp & Hlt & Hst). rewrite Hp in Hr.
    apply runs_fork1 in Hr as [->|(es1 & es2 & -> & H1 & H2)]; [constructor|]. apply runs_exit_inv in H2 as ->. rewrite app_nil_r.
    constructor. apply (IH s p' fuel); auto. lia.
Qed.

(** Redirections are of standard input and output. *)
Lemma apply_redirs_std B c rs : redirs_std (text B c) -> redirs_std (text B (apply_redirs c rs)).
Proof.
  unfold apply_redirs. revert c. induction rs as [|r rs IH]; intros c Hc; [done|]. apply IH. split; [|done].
  unfold redir_fd. destruct (r.1 =? LT); auto.
Qed.

Lemma gline_std B ts c : gline ts c -> redirs_std (text B c).
Proof.
  set (P := fun (_ : list tok) (c : scmd) => redirs_std (text B c)). change (gline ts c -> P ts c).
  apply (gline_mut P P P); unfold P; clear.
  - intros. by apply apply_redirs_std.
  - intros. by apply apply_redirs_std.
  - done.
  - intros. by split.
  - intros ts c n _ H. by induction n.
  - intros ts c n ts2 c2 _ H _ H2. split; [|done]. by induction n.
Qed.

(** Every system call may fail, and then nothing is started. *)
Lemma runs_message pre post msg code fds :
  plain pre -> plain post -> runs (PDo (fprintf 2 (pre ++ str "%s" ++ post) [PStr (Some msg)]) (fun _ => PExit code)) fds [].
Proof.
  intros Hpre Hpost. destruct (fprintf_s pre post msg 2 (mkOs ∅ ∅ [] []) Hpre Hpost) as [o' E].
  eapply runs_do; [exact E|constructor].
Qed.

Lemma runs_panic msg fds : runs (panic_p msg) fds [].
Proof. apply (runs_message [] [10]); by repeat constructor. Qed.

Lemma runcmd_nothing t s p fuel fds : stored s p t -> (p <= fuel)%nat -> runs (runcmd s p fuel) fds [].
Proof.
  intros Hst Hf. destruct fuel as [|fuel]; [destruct t, Hst; lia|]. assert (p <> 0%nat) as H0 by by destruct t, Hst.
  cbn [runcmd]. replace (p =? 0)%nat with false by (symmetry; by apply Nat.eqb_neq). destruct t as [args|c file mode fd|l r|l r|c], Hst as [_ Hst].
  - destruct Hst as (argv & eargv & -> & _). destruct argv as [|[q|] argv]; [constructor| |constructor].
    apply runs_exec_failed, (runs_message (str "exec ") (str " failed" ++ [10])); by repeat constructor.
  - destruct Hst as (p' & q & e & -> & _). apply runs_close, runs_open_failed. cbn [Z.ltb Z.compare].
    apply (runs_message (str "open ") (str " failed" ++ [10])); by repeat constructor.
  - destruct Hst as (a & b & -> & _). apply runs_pipe_failed, runs_panic.
  - destruct Hst as (a & b & -> & _). apply runs_fork_failed, runs_panic.
  - destruct Hst as (p' & -> & _). apply runs_fork_failed, runs_panic.
Qed.

Lemma std_lowest3 fds : std fds -> is_lowest fds 3.
Proof. intros H. split_and!; [lia|apply (std_none _ _ H); lia|]. intros i Hi. by apply H. Qed.

Lemma std_lowest4 fds f : std fds -> is_lowest (<[3 := f]> fds) 4.
Proof.
  intros H. split_and!; [lia|rewrite lookup_insert_ne by done; apply (std_none _ _ H); lia|].
  intros i Hi. destruct (decide (i = 3)) as [->|]; [rewrite lookup_insert_eq; by eexists|]. rewrite lookup_insert_ne by done. apply H. lia.
Qed.

Lemma closed_lowest (fds : fdt) fd : 0 <= fd < 3 -> (forall i, 0 <= i < 3 -> is_Some (fds !! i)) -> is_lowest (delete fd fds) fd.
Proof.
  intros Hfd H. split_and!; [lia|by rewrite lookup_delete_eq|]. intros i Hi. rewrite lookup_delete_ne by lia. apply H. lia.
Qed.

Lemma side_runs fd p name f k fds es :
  std fds -> 0 <= fd < 3 -> <[4 := OPipeW name]> (<[3 := OPipeR name]> fds) !! p = Some f -> 3 <= p ->
  runs k (delete 4 (delete 3 (<[fd := f]> (delete fd (<[4 := OPipeW name]> (<[3 := OPipeR name]> fds)))))) es ->
  runs (PClose fd (PDup p (PClose 3 (PClose 4 k)))) (<[4 := OPipeW name]> (<[3 := OPipeR name]> fds)) es.
Proof.
  intros Hstd Hfd Hf Hp H. apply runs_close. eapply runs_dup; [rewrite lookup_delete_ne by lia; exact Hf| |do 2 apply runs_close; exact H].
  apply closed_lowest; [done|]. intros i Hi. rewrite !lookup_insert_ne by lia. by apply Hstd.
Qed.

(** Whatever the command means can be run. *)
Lemma wires_runcmd t fds es : wires t fds es -> forall s p fuel,
  stored s p t -> (p <= fuel)%nat -> std fds -> redirs_std t -> runs (runcmd s p fuel) fds es.
Proof.
  induction 1 as [t fds|path args fds|c file mode fd fds es H IH|l r fds es1 es2 H1 IH1 H2 IH2|l r fds name es1 es2 H1 IH1 H2 IH2|c fds es H IH];
    intros s p fuel Hst Hf Hstd Hrd; [by eapply runcmd_nothing|..]; destruct Hst as [H0 Hst];
    (destruct fuel as [|fuel]; [lia|]); cbn [runcmd]; (replace (p =? 0)%nat with false by (symmetry; by apply Nat.eqb_neq)).
  - destruct Hst as (argv & eargv & -> & E). destruct argv as [|[q|] argv]; simplify_eq/=. constructor.
  - destruct Hst as (p' & q & e & -> & Hlt & <- & Hst). destruct Hrd as [Hfd Hrd]. apply runs_close.
    apply (runs_open _ _ _ _ fd); [apply closed_lowest; [lia|intros; by apply Hstd]|].
    bfalse (fd <? 0). rewrite insert_delete_eq. apply IH; [done|lia|apply std_insert; [done|lia]|done].
  - destruct Hst as (a & b & -> & Ha & Hb & Hsa & Hsb). destruct Hrd. apply runs_fork; [|constructor]; [apply IH1|apply IH2]; auto; lia.
  - destruct Hst as (a & b & -> & Ha & Hb & Hsa & Hsb). destruct Hrd.
    apply (runs_pipe _ _ _ name 3 4); [by apply std_lowest3|by apply std_lowest4|]. apply runs_fork.
    + eapply (side_runs 1 4 name); [done|lia|by rewrite lookup_insert_eq|lia|]. rewrite pipe_left by done.
      apply IH1; [done|lia|by apply std_insert|done].
    + rewrite <- (app_nil_r es2). apply runs_fork; [|repeat constructor].
      eapply (side_runs 0 3 name); [done|lia|by rewrite lookup_insert_ne, lookup_insert_eq|lia|]. rewrite pipe_right by done.
      apply IH2; [done|lia|by apply std_insert|done].
  - destruct Hst as (p' & -> & Hlt & Hst). rewrite <- (app_nil_r es). apply runs_fork; [|constructor]. apply IH; auto. lia.
Qed.

(** Programs are started with the standard descriptors only. *)
Lemma wires_std t fds es : wires t fds es -> std fds -> redirs_std t -> Forall (fun e : started => std e.2) es.
Proof.
  induction 1 as [t fds|path args fds|c file mode fd fds es H IH|l r fds es1 es2 H1 IH1 H2 IH2|l r fds name es1 es2 H1 IH1 H2 IH2|c fds es H IH];
    intros Hstd Hrd; simpl in Hrd.
  - constructor.
  - by constructor.
  - apply IH; [|by apply Hrd]. apply std_insert; [done|]. destruct Hrd as [[->| ->] _]; lia.
  - destruct Hrd. apply Forall_app. auto.
  - destruct Hrd. apply Forall_app. split; [apply IH1|apply IH2]; try done; by apply std_insert.
  - auto.
Qed.

(** A line denotes one command. *)
Lemma gline_det line rest ts c c' :
  Forall (fun x => x <> 0) line -> lexes (line ++ 0 :: rest) (length line) 0 ts -> gline ts c -> gline ts c' -> c = c'.
Proof.
  intros Hline Hl Hg Hg'. set (B := line ++ 0 :: rest) in *. set (es := length line) in *.
  destruct (parse_all B es) with (n := (4 * es + 4)%nat) as [Hall _]; [intros i; by apply line_chars|apply line_end|].
  destruct (Hall (mkShst B 0 ∅ 1) ts) with (o := mkOs ∅ ∅ [] []) as (res & _ & _ & Hcmp); [split; [done|simpl; lia]|done|simpl; lia|].
  pose proof (Hcmp ts c [] ltac:(by rewrite app_nil_r) Hg I). pose proof (Hcmp ts c' [] ltac:(by rewrite app_nil_r) Hg' I). congruence.
Qed.

(** C6: A line typed at the prompt runs the programs that it denotes with the files
    that it denotes: what the child of the shell and its descendants can
    start is what the command means, no more and no less, and every program
    has just standard input, output and error open.  A line that is not a
    command starts nothing. *)
Theorem run_line_spec line rest fds :
  Forall (fun x => x <> 0) line -> std fds ->
  let B := line ++ 0 :: rest in let es := length line in
  (forall ts c, lexes B es 0 ts -> gline ts c -> forall ev,
     (runs (run_line B) fds ev <-> wires (text B c) fds ev) /\ (runs (run_line B) fds ev -> Forall (fun e : started => std e.2) ev)) /\
  ((forall ts c, lexes B es 0 ts -> ~ gline ts c) -> forall ev, runs (run_line B) fds ev -> ev = []).
Proof.
  intros Hline Hstd B es. split.
  - intros ts c Hl Hg ev. pose proof (gline_std B _ _ Hg) as Hrd.
    assert (forall o, exists p s', parsecmd (mkShst B 0 ∅ 1) o = Ret (p, s') o /\ (p < sh_next s')%nat /\ stored s' p (text B c)) as Hpc.
    { intros o. destruct (parsecmd_cases line rest o Hline) as [(p & s' & ts' & c' & Hr & Hp & Hl' & Hg' & Hst)|[_ Hno]]; [|by destruct (Hno ts c)].
      exists p, s'. split_and!; [done|done|]. pose proof (lexes_det _ _ _ _ _ Hl' Hl) as ->.
      by rewrite (gline_det line rest ts c c'). }
    assert (runs (run_line B) fds ev <-> wires (text B c) fds ev) as Hiff.
    { split.
      - intros [(o & [p s'] & o' & E & Hr)|[-> (o & code & o' & E)]]%runs_do_inv; destruct (Hpc o) as (p1 & s1 & E1 & Hp & Hst);
          rewrite E in E1; simplify_eq. simpl in Hr. eapply runcmd_wires; [exact Hst| |done|done|exact Hr]. lia.
      - intros Hw. destruct (Hpc (mkOs ∅ ∅ [] [])) as (p & s' & E & Hp & Hst). eapply runs_do; [exact E|]. simpl.
        eapply wires_runcmd; [done|exact Hst|lia|done|done]. }
    split; [done|]. intros Hr%Hiff. by eapply wires_std.
  - intros Hno ev [(o & [p s'] & o' & E & Hr)|[-> _]]%runs_do_inv; [|done].
    destruct (parsecmd_cases line rest o Hline) as [(p1 & s1 & ts & c & _ & _ & Hl & Hg & _)|[[o1 E1] _]]; [by destruct (Hno ts c)|].
    unfold B in E. by rewrite E in E1.
Qed.

(** ** A concrete line *)

Definition ex_line : list Z := str "a |b>c".
Definition ex_buf : list Z := ex_line ++ [0].
Definition ex_toks : list tok := [TWord 0 1; TSym BAR; TWord 3 4; TSym GT; TWord 5 6].
Definition ex_cmd : scmd := SPipe (SExec [(0%nat, 1%nat)]) (SRedir (SExec [(3%nat, 4%nat)]) (5%nat, 6%nat) (redir_mode GT) 1).
Definition ex_fds : fdt := <[0 := OInherited 0]> (<[1 := OInherited 1]> (<[2 := OInherited 2]> ∅)).

Lemma ex_line_nz : Forall (fun x => x <> 0) ex_line.
Proof. by repeat constructor. Qed.

Lemma ex_word k : wordch (arr ex_buf k) = true -> forall i, (k <= i < S k)%nat -> wordch (arr ex_buf i) = true.
Proof. intros H i Hi. by replace i with k by lia. Qed.

Lemma ex_lexes : lexes ex_buf (length ex_line) 0 ex_toks.
Proof.
  apply lex_word; [simpl; lia|by apply ex_word|by right|]. apply lex_white; [simpl; lia|done|].
  apply lex_sym; [simpl; lia|done|done|]. apply lex_word; [simpl; lia|by apply ex_word|by right|].
  apply lex_gt; [simpl; lia|done|done|]. apply lex_word; [simpl; lia|by apply ex_word|by left|]. apply lex_end.
Qed.

Lemma ex_gline : gline ex_toks ex_cmd.
Proof.
  change ex_toks with (ex_toks ++ replicate 0 (TSym AMP)). apply (gl_one _ _ 0).
  apply (gp_pipe [TWord 0 1] (SExec [(0%nat, 1%nat)]) [TWord 3 4; TSym GT; TWord 5 6]).
  - apply (ge_simple [TWord 0 1] _ []); [repeat constructor|unfold MAXARGS; simpl; lia].
  - apply gp_one. apply (ge_simple _ [(3%nat, 4%nat)] [(GT, (5%nat, 6%nat))]); [|unfold MAXARGS; simpl; lia].
    apply gi_word, gi_redir; [done|constructor].
Qed.

Lemma ex_fds_std : std ex_fds.
Proof.
  intros fd. unfold ex_fds. rewrite !lookup_insert, lookup_empty. repeat case_decide; split; intros Hfd; (lia || by eexists || by destruct Hfd).
Qed.

Lemma parsecmd_spec_witness :
  exists p s' ts c, parsecmd (mkShst ex_buf 0 ∅ 1) (mkOs ∅ ∅ [] []) = Ret (p, s') (mkOs ∅ ∅ [] []) /\
    lexes ex_buf 6 0 ts /\ gline ts c /\ stored s' p (text ex_buf c).
Proof.
  destruct (parsecmd_spec ex_line [] (mkOs ∅ ∅ [] []) ex_line_nz) as [(p & s' & ts & c & H1 & _ & H2 & H3 & H4)|[_ H]].
  - exists p, s', ts, c. split_and!; [exact H1|exact H2|exact H3|exact H4].
  - destruct (H _ _ ex_lexes ex_gline).
Defined.

Lemma run_line_spec_witness :
  runs (run_line ex_buf) ex_fds
    [(str "a", [str "a"], <[1 := OPipeW 7]> ex_fds);
     (str "b", [str "b"], <[1 := OFile (str "c") (redir_mode GT)]> (<[0 := OPipeR 7]> ex_fds))].
Proof.
  destruct (run_line_spec ex_line [] ex_fds ex_line_nz ex_fds_std) as [H _].
  apply (proj1 (H _ _ ex_lexes ex_gline _)). apply (wires_pipe _ _ _ 7 [_] [_]); [constructor|].
  apply wires_redir. constructor.
Defined.
