(* ===== verification/Mkfs.v ===== *)
(** * The program that makes file systems: mkfs/mkfs.c

    mkfs runs on the host.  Its state is the image file, as a map of the
    sectors written and the number of sectors that the file has, and the
    globals of mkfs.c.  The host is a parameter: its byte order [be] (true for
    big endian), the files that can be opened with what each read of them
    returns, and whether the image can be created.  Host calls on the image
    succeed, except that a read past its end is short, which mkfs checks.  The
    messages on standard output are left out. *)

From Stdlib Require Import ZArith Lia.
From stdpp Require Import base gmap list numbers strings.
From S2P Require Import Prelude Riscv Core Kstring Bio Log Fs FsInode Printf.
Local Open Scope Z_scope.

Record mkst : Type := mkMkst {
  mk_img : gmap Z (list Z);
  mk_end : Z;                (* the size of the image in sectors *)
  mk_sb : superblock;
  mk_freeinode : Z;
  mk_freeblock : Z
}.

(** A run returns, exits with a status, or is aborted by an assertion;
    [MkNoFuel]: the fuel of a loop was not enough. *)
Inductive mkres (A : Type) : Type :=
| MkRet (a : A) (s : mkst)
| MkExit (status : Z) (s : mkst)
| MkAbort (s : mkst)
| MkNoFuel.
Arguments MkRet {A} a s.
Arguments MkExit {A} status s.
Arguments MkAbort {A} s.
Arguments MkNoFuel {A}.

Definition MK (A : Type) : Type := mkst -> mkres A.
#[export] Instance MK_ret : MRet MK := fun A a s => MkRet a s.
#[export] Instance MK_bind : MBind MK := fun A B f m s =>
  match m s with
  | MkRet a s' => f a s'
  | MkExit n s' => MkExit n s'
  | MkAbort s' => MkAbort s'
  | MkNoFuel => MkNoFuel
  end.

Definition mk_gets {A} (f : mkst -> A) : MK A := fun s => MkRet (f s) s.
Definition mk_exit {A} (n : Z) : MK A := fun s => MkExit n s.
Definition mk_assert (b : bool) : MK unit := fun s => if b then MkRet tt s else MkAbort s.
Definition die {A} (msg : list Z) : MK A := mk_exit 1.

Definition set_img (m : gmap Z (list Z)) (e : Z) (s : mkst) : mkst :=
  mkMkst m e (mk_sb s) (mk_freeinode s) (mk_freeblock s).
Definition set_mk_sb (sb : superblock) (s : mkst) : mkst :=
  mkMkst (mk_img s) (mk_end s) sb (mk_freeinode s) (mk_freeblock s).
Definition set_freeinode (n : Z) (s : mkst) : mkst :=
  mkMkst (mk_img s) (mk_end s) (mk_sb s) n (mk_freeblock s).
Definition set_freeblock (n : Z) (s : mkst) : mkst :=
  mkMkst (mk_img s) (mk_end s) (mk_sb s) (mk_freeinode s) n.

(** ** Layout *)

Definition NINODES : Z := 200.
Definition nbitmap : Z := FSSIZE / (BSIZE * 8) + 1.
Definition ninodeblocks : Z := NINODES / IPB + 1.
Definition nlog : Z := LOGSIZE.
Definition nmeta : Z := 2 + nlog + ninodeblocks + nbitmap.
Definition nblocks : Z := FSSIZE - nmeta.
Definition zeroes : list Z := repeat 0 (Z.to_nat BSIZE).

Section host.
Context (be : bool).

(** ** Integers in the memory of the host *)

Definition hbytes (n : nat) (x : Z) : list Z := if be then rev (le_bytes n x) else le_bytes n x.
Definition hval (l : list Z) : Z := le_val (if be then rev l else l).

(** The integer whose bytes in memory are those of [x], lowest first. *)
Definition xshort (x : Z) : Z := hval (le_bytes 2 x).
Definition xint (x : Z) : Z := hval (le_bytes 4 x).

(** ** Sectors *)

(** [lseek(fsfd, sec * BSIZE, 0)]: the product has 32 bits. *)
Definition seek (sec : Z) : Z := u32 (sec * BSIZE) / BSIZE.

Definition wsect (sec : Z) (buf : list Z) : MK unit := fun s =>
  MkRet tt (set_img (<[seek sec := buf]> (mk_img s)) (Z.max (mk_end s) (seek sec + 1)) s).

Definition rsect (sec : Z) : MK (list Z) := fun s =>
  if seek sec <? mk_end s then MkRet (default zeroes (mk_img s !! seek sec)) s
  else die (str "read") s.

(** ** Inodes *)

(** A [struct dinode] in memory, and one at byte [off] of [buf]. *)
Definition dinode_hbytes (d : dinode) : list Z :=
  hbytes 2 (di_type d) ++ hbytes 2 (di_major d) ++ hbytes 2 (di_minor d) ++ hbytes 2 (di_nlink d) ++
  hbytes 4 (di_size d) ++ (di_addrs d ≫= hbytes 4).
Definition dinode_hval (off : nat) (buf : list Z) : dinode :=
  mkDinode (s16 (hval (slice off 2 buf))) (s16 (hval (slice (off + 2) 2 buf))) (s16 (hval (slice (off + 4) 2 buf)))
    (s16 (hval (slice (off + 6) 2 buf))) (hval (slice (off + 8) 4 buf))
    ((fun k => hval (slice (off + 12 + 4 * k) 4 buf)) <$> seq 0 13).

Definition winode (inum : Z) (ip : dinode) : MK unit :=
  sb ← mk_gets mk_sb;
  let bn := u32 (IBLOCK inum sb) in
  buf ← rsect bn;
  wsect bn (splice (dip_off inum) (dinode_hbytes ip) buf).

Definition rinode (inum : Z) : MK dinode :=
  sb ← mk_gets mk_sb;
  buf ← rsect (u32 (IBLOCK inum sb));
  mret (dinode_hval (dip_off inum) buf).

(** [type] is a ushort; the fields are of type short. *)
Definition mk_ialloc (type : Z) : MK Z :=
  inum ← mk_gets mk_freeinode;
  _ ← (fun s => MkRet tt (set_freeinode (u32 (inum + 1)) s));
  _ ← winode inum (mkDinode (s16 (xshort type)) 0 0 (s16 (xshort 1)) (xint 0) (repeat 0 13));
  mret inum.

(** ** Blocks *)

(** [freeblock++] *)
Definition next_block : MK Z := fun s => MkRet (mk_freeblock s) (set_freeblock (u32 (mk_freeblock s + 1)) s).

(** The loop of [balloc] over the first [used] bits. *)
Definition used_map (used : Z) : list Z := foldl set_bit zeroes (seqZ 0 used).

Definition mk_balloc (used : Z) : MK unit :=
  _ ← mk_assert (used <? BSIZE * 8);
  sb ← mk_gets mk_sb;
  wsect (sb_bmapstart sb) (used_map used).

(** Entry [fbn] of the indirect block, allocated if need be. *)
Definition iappend_indirect (din : dinode) (fbn : Z) : MK (dinode * Z) :=
  indirect ← rsect (xint (addr_at NDIRECT din));
  let at' := Z.to_nat (4 * (fbn - NDIRECT)) in
  indirect ← (if hval (slice at' 4 indirect) =? 0 then
                b ← next_block;
                let indirect := splice at' (hbytes 4 (xint b)) indirect in
                _ ← wsect (xint (addr_at NDIRECT din)) indirect;
                mret indirect
              else mret indirect);
  mret (din, xint (hval (slice at' 4 indirect))).

(** The inode and the block number [x] for block [fbn] of the file. *)
Definition iappend_block (din : dinode) (fbn : Z) : MK (dinode * Z) :=
  if fbn <? NDIRECT then
    din ← (if xint (addr_at fbn din) =? 0 then b ← next_block; mret (set_addr fbn (xint b) din) else mret din);
    mret (din, xint (addr_at fbn din))
  else
    din ← (if xint (addr_at NDIRECT din) =? 0 then b ← next_block; mret (set_addr NDIRECT (xint b) din) else mret din);
    iappend_indirect din fbn.

(** [p] are the [n] bytes that are left; each round takes at least one. *)
Fixpoint iappend_loop (din : dinode) (off : Z) (p : list Z) (fuel : nat) : MK (dinode * Z) :=
  match p with
  | [] => mret (din, off)
  | _ =>
      match fuel with
      | O => fun _ => MkNoFuel
      | S fuel =>
          let fbn := off / BSIZE in
          _ ← mk_assert (fbn <? MAXFILE);
          r ← iappend_block din fbn;
          let n1 := Z.min (Z.of_nat (length p)) (u32 ((fbn + 1) * BSIZE - off)) in
          buf ← rsect r.2;
          _ ← wsect r.2 (splice (Z.to_nat (off - fbn * BSIZE)) (take (Z.to_nat n1) p) buf);
          iappend_loop r.1 (u32 (off + n1)) (drop (Z.to_nat n1) p) fuel
      end
  end.

Definition iappend (inum : Z) (p : list Z) : MK unit :=
  din ← rinode inum;
  r ← iappend_loop din (xint (di_size din)) p (length p);
  winode inum (set_size (xint r.2) r.1).

(** ** main *)

(** What strncpy(s, name, n) stores. *)
Definition host_strncpy (name : list Z) (n : nat) : list Z := take n name ++ repeat 0 (n - length name).

(** A [struct dirent] in memory. *)
Definition dirent_bytes (inum : Z) (name : list Z) : list Z := hbytes 2 (xshort inum) ++ name.

(** The bytes of the global [sb]. *)
Definition sb_hbytes (sb : superblock) : list Z :=
  [sb_magic sb; sb_size sb; sb_nblocks sb; sb_ninodes sb; sb_nlog sb; sb_logstart sb; sb_inodestart sb; sb_bmapstart sb]
    ≫= hbytes 4.

Definition sb_init : superblock :=
  mkSuperblock FSMAGIC (xint FSSIZE) (xint nblocks) (xint NINODES) (xint nlog) (xint 2) (xint (2 + nlog))
    (xint (2 + nlog + ninodeblocks)).

(** The name without "user/", and without the underscore. *)
Definition shortname (arg : list Z) : list Z :=
  if bool_decide (take 5 arg = str "user/") then drop 5 arg else arg.
Definition skip_underscore (name : list Z) : list Z :=
  match name with 95 :: name' => name' | _ => name end.

(** What the reads of an opened file return, and which files can be opened. *)
Context (creat : list Z -> bool) (host_open : list Z -> option (list (list Z))).

Fixpoint copy_in (inum : Z) (reads : list (list Z)) : MK unit :=
  match reads with
  | [] | [] :: _ => mret tt
  | buf :: reads => _ ← iappend inum buf; copy_in inum reads
  end.

Definition add_file (rootino : Z) (arg : list Z) : MK unit :=
  let name := shortname arg in
  _ ← mk_assert (bool_decide (47 ∉ name));
  match host_open arg with
  | None => die arg
  | Some reads =>
      inum ← mk_ialloc T_FILE;
      _ ← iappend rootino (dirent_bytes inum (host_strncpy (skip_underscore name) (Z.to_nat DIRSIZ)));
      copy_in inum reads
  end.

Fixpoint add_files (rootino : Z) (args : list (list Z)) : MK unit :=
  match args with
  | [] => mret tt
  | arg :: args => _ ← add_file rootino arg; add_files rootino args
  end.

Fixpoint wzeroes (l : list Z) : MK unit :=
  match l with
  | [] => mret tt
  | i :: l => _ ← wsect i zeroes; wzeroes l
  end.

(** strcpy into the zeroed name of an entry. *)
Definition dot_name (s : list Z) : list Z := splice 0 (s ++ [0]) (repeat 0 (Z.to_nat DIRSIZ)).

(** main up to the loop over the files: the layout, the super block and the
    root directory. *)
Definition mkfs_layout : MK Z :=
  _ ← (fun s => MkRet tt (set_mk_sb sb_init s));
  _ ← (fun s => MkRet tt (set_freeblock nmeta s));
  _ ← wzeroes (seqZ 0 FSSIZE);
  sb ← mk_gets mk_sb;
  _ ← wsect 1 (splice 0 (sb_hbytes sb) zeroes);
  rootino ← mk_ialloc T_DIR;
  _ ← mk_assert (rootino =? ROOTINO);
  _ ← iappend rootino (dirent_bytes rootino (dot_name [46]));
  _ ← iappend rootino (dirent_bytes rootino (dot_name [46; 46]));
  mret rootino.

(** fix size of root inode dir *)
Definition fix_root (rootino : Z) : MK unit :=
  din ← rinode rootino;
  let off := xint (di_size din) in
  let off := u32 ((off / BSIZE + 1) * BSIZE) in
  winode rootino (set_size (xint off) din).

Definition mkfs_main (argv : list (list Z)) : MK unit :=
  match argv with
  | _ :: img :: files =>
      if negb (creat img) then die img else
      rootino ← mkfs_layout;
      _ ← add_files rootino files;
      _ ← fix_root rootino;
      used ← mk_gets mk_freeblock;
      _ ← mk_balloc (s32 used);
      mk_exit 0
  | _ => mk_exit 1
  end.
End host.

(** The globals at the start, and an empty image. *)
Definition mk_start : mkst := mkMkst ∅ 0 (mkSuperblock 0 0 0 0 0 0 0 0) 1 0.
Definition image_of (s : mkst) : disk := mkDisk (mk_img s) [].
