(* ===== verification/MkfsSpec.v ===== *)
(** * What mkfs makes: the image of mkfs/mkfs.c as a file system of kernel/fs.c

    On a little-endian host.  [sim] relates the state of mkfs to the blocks of
    a file system whose bitmap is up to date, although mkfs writes the bitmap
    last; allocating the next block is then what balloc of the kernel does,
    and iappend is a write at the end of a file, so the lemmas about writei
    apply.  [image] is the invariant: the inodes in use have consistent files
    with the contents given, share no blocks, and own every block that is
    marked used. *)

From Stdlib Require Import ZArith Lia.
From stdpp Require Import base gmap list numbers strings.
From S2P Require Import Prelude Riscv Core Spinlock Wp Kstring Kalloc Vm Sleeplock Bio BioAbs Log LogOps Fs FsTx FsBitmap FsFile FsIo FsWrite FsInode FsDir FsSpec Printf Mkfs.
Local Open Scope Z_scope.

Definition sb0 : superblock := mkSuperblock FSMAGIC 1000 954 200 30 2 32 45.
Definition blk (s : mkst) (b : Z) : list Z := disk_read (image_of s) b.

(** ** Little-endian hosts *)

Lemma xint_le x : 0 <= x < 2 ^ 32 -> xint false x = x.
Proof. intros H. unfold xint, hval. rewrite le_val_bytes. by apply Z.mod_small. Qed.
Lemma xshort_le x : 0 <= x < 2 ^ 15 -> xshort false x = x /\ s16 x = x.
Proof.
  intros H. split; [unfold xshort, hval; rewrite le_val_bytes; apply Z.mod_small; change (256 ^ Z.of_nat 2) with 65536; lia|].
  by apply sgn_small.
Qed.
Lemma sb_init_le : sb_init false = sb0.
Proof. by vm_compute. Qed.
Lemma sb0_ok : sb_ok sb0.
Proof. by split. Qed.
Lemma seek_small b : 0 <= b < 1000 -> seek b = b.
Proof. intros H. unfold seek, BSIZE. rewrite u32_small by lia. by apply Z.div_mul. Qed.

(** ** The bitmap *)

Lemma used_map_S n : 0 <= n -> used_map (n + 1) = set_bit (used_map n) n.
Proof. intros H. unfold used_map. rewrite seqZ_app by lia. rewrite foldl_app. by rewrite Z.add_0_l. Qed.

Lemma used_map_spec n : 0 <= n <= 8192 ->
  blk_ok (used_map n) /\ forall b, 0 <= b -> bit_free (used_map n) b = negb (b <? n).
Proof.
  intros [H0 H1]. revert H1. pattern n. apply natlike_ind; [| |done].
  - intros _. split; [apply zero_blk_ok|]. intros b Hb. bfalse (b <? 0). unfold bit_free, used_map. cbn [seqZ foldl].
    change (foldl set_bit zeroes (seqZ 0 0)) with zeroes. unfold zeroes. by rewrite nth_repeat.
  - clear n H0. intros n H0 IH H1. destruct IH as [Hk Hf]; [lia|]. unfold Z.succ. rewrite used_map_S by done.
    assert (Hn : 0 <= n < BPB) by (unfold BPB, BSIZE; lia). split.
    + by apply set_bit_ok.
    + intros b Hb. rewrite bit_free_set, Hf by done.
      destruct (Z.eqb_spec b n), (Z.ltb_spec b n), (Z.ltb_spec b (n + 1)); simpl; (done || lia).
Qed.

(** ** The state and the blocks *)

Record sim (G : Z -> list Z) (s : mkst) : Prop := mkSim {
  sm_sb : mk_sb s = sb0;
  sm_end : mk_end s = 1000;
  sm_fb : 46 <= mk_freeblock s <= 1000;
  sm_img : forall b, G b = if b =? 45 then used_map (mk_freeblock s) else blk s b;
  sm_free : forall b, mk_freeblock s <= b < 1000 -> G b = repeat 0 (Z.to_nat BSIZE);
  sm_blk : forall b, blk_ok (G b)
}.

Lemma sim_is_free G s b : sim G s -> 0 <= b -> is_free G sb0 b = negb (b <? mk_freeblock s).
Proof.
  intros [_ _ Hf Hi _ _] Hb. unfold is_free. rewrite Hi. change (sb_bmapstart sb0 =? 45) with true. cbn match.
  apply used_map_spec; lia.
Qed.
Lemma sim_meta G s : sim G s -> meta_used G sb0.
Proof.
  intros H b Hb. change (sb_bmapstart sb0) with 45 in Hb. rewrite (sim_is_free G s) by (done || lia).
  destruct H as [_ _ Hf _ _ _]. by btrue (b <? mk_freeblock s).
Qed.
Lemma sim_used G s b : sim G s -> in_use G sb0 b -> 46 <= b < mk_freeblock s.
Proof.
  intros H [Hd Hu]. unfold data_blk in Hd. change (sb_bmapstart sb0) with 45 in Hd.
  rewrite (sim_is_free G s) in Hu by (done || lia). destruct (Z.ltb_spec b (mk_freeblock s)); [lia|done].
Qed.

Lemma sim_rsect G s b : sim G s -> 0 <= b < 1000 -> b <> 45 -> rsect b s = MkRet (G b) s.
Proof.
  intros [_ He _ Hi _ _] Hb Hn. unfold rsect. rewrite seek_small, He by done. btrue (b <? 1000). rewrite Hi. by bfalse (b =? 45).
Qed.

Definition put (b : Z) (v : list Z) (s : mkst) : mkst := set_img (<[b := v]> (mk_img s)) (mk_end s) s.

Lemma sim_wsect G s b v :
  sim G s -> 0 <= b < mk_freeblock s -> b <> 45 -> blk_ok v -> wsect b v s = MkRet tt (put b v s) /\ sim (upd G b v) (put b v s).
Proof.
  intros [H1 He Hf Hi Hz Hk] Hb Hn Hv. split.
  - unfold wsect. rewrite seek_small, He by lia. unfold put. rewrite He. by rewrite Z.max_l by lia.
  - split; try done.
    + intros x. unfold upd, blk, disk_read, put, image_of. cbn [mk_img set_img dk_blocks mk_freeblock].
      destruct (Z.eqb_spec x b) as [->|Hx].
      * bfalse (b =? 45). by rewrite lookup_insert_eq.
      * rewrite lookup_insert_ne by done. apply Hi.
    + intros x Hx. cbn [mk_freeblock put set_img] in Hx. rewrite upd_ne by lia. by apply Hz.
    + intros x. unfold upd. by case_match.
Qed.

Lemma sim_next G s :
  let b := mk_freeblock s in sim G s -> b < 1000 ->
  next_block s = MkRet b (set_freeblock (b + 1) s) /\ sim (alloc_blk G sb0 b) (set_freeblock (b + 1) s) /\
  data_blk sb0 b /\ is_free G sb0 b = true.
Proof.
  intros b H Hb. pose proof (sim_is_free G s b H) as Hfr. destruct H as [H1 He Hf Hi Hz Hk]. fold b in Hf, Hi, Hz, Hfr. split_and!.
  - unfold next_block. fold b. by rewrite u32_small by lia.
  - split; try done.
    + cbn [mk_freeblock set_freeblock]. lia.
    + intros x. unfold alloc_blk, upd. change (sb_bmapstart sb0) with 45. cbn [mk_freeblock set_freeblock].
      destruct (Z.eqb_spec x b) as [->|Hx].
      * bfalse (b =? 45). rewrite <-(Hz b) by lia. rewrite Hi. by bfalse (b =? 45).
      * rewrite !Hi. change (45 =? 45) with true. cbn match. destruct (x =? 45); [by rewrite used_map_S by lia|done].
    + intros x Hx. cbn [mk_freeblock set_freeblock] in Hx. unfold alloc_blk. change (sb_bmapstart sb0) with 45.
      rewrite !upd_ne by lia. apply Hz. lia.
    + intros x. unfold alloc_blk, upd. change (sb_bmapstart sb0) with 45. repeat case_match; try done; [apply zero_blk_ok|].
      by apply set_bit_ok.
  - unfold data_blk. change (sb_bmapstart sb0) with 45. change (sb_size sb0) with 1000. lia.
  - rewrite Hfr by lia. by bfalse (b <? b).
Qed.

(** ** The block for a part of a file *)

(** The blocks that a file of [n] bytes takes. *)
Definition cost (n : Z) : Z := (n + BSIZE - 1) / BSIZE + (if NDIRECT * BSIZE <? n then 1 else 0).

(** The new blocks that block [bn] takes. *)
Definition newb (G : Z -> list Z) (d : dinode) (bn : Z) : Z :=
  if faddr G d bn =? 0 then 1 + (if bn <? NDIRECT then 0 else Z.of_nat (indw d)) else 0.

Definition block_post (L : gset Z) (G : Z -> list Z) (d : dinode) (bn : Z) (s : mkst) (a : Z) (G' : Z -> list Z) (d' : dinode) (s' : mkst) : Prop :=
  sim G' s' /\ mk_freeinode s' = mk_freeinode s /\ mk_freeblock s' <= mk_freeblock s + newb G d bn /\
  exists L', bmap_post sb0 G d bn a G' d' L L'.

Lemma file_addr G s d bn : sim G s -> file_ok G sb0 d -> 0 <= bn < NDIRECT \/ bn = NDIRECT ->
  addr_at bn d = 0 \/ 46 <= addr_at bn d < mk_freeblock s.
Proof.
  intros H Hf [Hb| ->].
  - destruct (fo_blk _ _ _ Hf bn) as [E|E]; [cst; lia| |]; unfold faddr in E; cst; revert E; btrue (bn <? 12); intros E; [by left|right].
    by apply (sim_used G).
  - destruct (fo_ind _ _ _ Hf) as [E|E]; [by left|right]. by apply (sim_used G).
Qed.

Lemma xint_addr G s d bn : sim G s -> file_ok G sb0 d -> 0 <= bn < NDIRECT \/ bn = NDIRECT -> xint false (addr_at bn d) = addr_at bn d.
Proof.
  intros H Hf Hb. apply xint_le. pose proof (sm_fb _ _ H). destruct (file_addr G s d bn H Hf Hb); lia.
Qed.

Lemma block_direct G s d bn :
  sim G s -> file_ok G sb0 d -> 0 <= bn < NDIRECT -> mk_freeblock s + newb G d bn <= 1000 ->
  exists G' d' a s', iappend_block false d bn s = MkRet (d', a) s' /\ block_post {[ind d]} G d bn s a G' d' s'.
Proof.
  intros H Hf Hb Hr. unfold iappend_block. btrue (bn <? NDIRECT). cbn match.
  rewrite (xint_addr G s) by auto. unfold newb in Hr.
  assert (Efa : faddr G d bn = addr_at bn d) by (unfold faddr; by btrue (bn <? NDIRECT)).
  assert (Hmx : 0 <= bn < MAXFILE) by (cst; lia).
  destruct (Z.eqb_spec (addr_at bn d) 0) as [E|E].
  - rewrite Efa in Hr. revert Hr. rewrite E, Z.eqb_refl. btrue (bn <? NDIRECT). intros Hr.
    destruct (sim_next G s H) as (Hn & H' & Hd & Hfr); [lia|]. set (b := mk_freeblock s) in *.
    pose proof (sm_fb _ _ H) as Hfb. fold b in Hfb.
    pose proof (direct_post sb0 sb0_ok G d bn b {[ind d]} Hb Hf (sim_meta _ _ H) (sm_blk _ _ H _)
      ltac:(set_solver) ltac:(by rewrite Efa) Hd Hfr) as HP.
    exists (alloc_blk G sb0 b), (set_addr bn b d), b, (set_freeblock (b + 1) s). split.
    + unfold mbind, MK_bind. rewrite Hn. unfold mret, MK_ret. rewrite (xint_le b) by lia.
      assert (Ea : addr_at bn (set_addr bn b d) = b).
      { rewrite addr_at_set by (apply (fo_len _ _ _ Hf) || lia). by rewrite Z.eqb_refl. }
      rewrite Ea, xint_le by lia. done.
    + split_and!; try done.
      * unfold newb. rewrite Efa, E, Z.eqb_refl. btrue (bn <? NDIRECT). cbn. lia.
      * eauto.
  - exists G, d, (addr_at bn d), s. split.
    + unfold mbind, MK_bind, mret, MK_ret. by rewrite (xint_addr G s) by auto.
    + split_and!; try done.
      * unfold newb. rewrite Efa. bfalse (addr_at bn d =? 0). lia.
      * exists {[ind d]}. rewrite <-Efa. apply (old_post sb0 sb0_ok); try done; [by eapply sim_meta|set_solver|by rewrite Efa].
Qed.

Lemma entry_bounds bn : NDIRECT <= bn < MAXFILE -> (Z.to_nat (4 * (bn - NDIRECT)) + 4 <= 1024)%nat.
Proof. intros H. change MAXFILE with 268 in H. cst. lia. Qed.

Lemma block_entry G s d bn :
  sim G s -> file_ok G sb0 d -> NDIRECT <= bn < MAXFILE -> ind d <> 0 -> mk_freeblock s + newb G d bn <= 1000 ->
  exists G' a s', iappend_indirect false d bn s = MkRet (d, a) s' /\ block_post {[ind d]} G d bn s a G' d s'.
Proof.
  intros H Hf Hb Hi Hr. pose proof (sm_fb _ _ H) as Hfb. pose proof (entry_bounds bn Hb) as Hbo.
  destruct (file_addr G s d NDIRECT H Hf) as [?|Hin]; [auto|done|]. fold (ind d) in Hin. unfold iappend_indirect.
  rewrite (xint_addr G s) by auto. fold (ind d). unfold mbind, MK_bind. rewrite (sim_rsect G) by (done || lia).
  assert (Efa : faddr G d bn = le_val (slice (Z.to_nat (4 * (bn - NDIRECT))) 4 (G (ind d)))).
  { unfold faddr. bfalse (bn <? NDIRECT). by bfalse (ind d =? 0). }
  cbv zeta. unfold hval at 1. rewrite <-Efa. unfold newb in Hr.
  assert (Hmx : 0 <= bn < MAXFILE) by (cst; lia). destruct (sm_blk _ _ H (ind d)) as [Hlen Hby].
  destruct (Z.eqb_spec (faddr G d bn) 0) as [E|E].
  - revert Hr. bfalse (bn <? NDIRECT). unfold indw. bfalse (ind d =? 0). intros Hr.
    destruct (sim_next G s H) as (Hn & H' & Hd & Hfr); [lia|]. set (b := mk_freeblock s) in *.
    pose proof (entry_post sb0 sb0_ok G d bn b {[ind d]} Hb Hf (sim_meta _ _ H) (sm_blk _ _ H _) (sm_blk _ _ H _)
      Hi ltac:(set_solver) E Hd Hfr) as HP.
    set (v := splice (Z.to_nat (4 * (bn - NDIRECT))) (hbytes false 4 (xint false b)) (G (ind d))).
    assert (Ev : v = st32 (Z.to_nat (4 * (bn - NDIRECT))) b (G (ind d))) by (unfold v; by rewrite xint_le by lia).
    assert (Hv : blk_ok v) by (rewrite Ev; apply st32_ind_blk; [done|cst; lia]).
    destruct (sim_wsect _ _ (ind d) v H') as [Hw H'']; [cbn [mk_freeblock set_freeblock]; lia|lia|done|].
    assert (Eg : le_val (slice (Z.to_nat (4 * (bn - NDIRECT))) 4 v) = b).
    { rewrite Ev. change (le_val (slice ?o 4 ?l)) with (ld32 o l). rewrite ld32_st32 by lia. apply u32_small. lia. }
    exists (put_entry sb0 G d bn b), b, (put (ind d) v (set_freeblock (b + 1) s)). split.
    + rewrite Hn. cbv beta iota zeta. fold v. rewrite Hw. unfold mret, MK_ret, hval. by rewrite Eg, xint_le by lia.
    + split_and!; try done.
      * unfold put_entry. by rewrite <-Ev.
      * unfold newb. rewrite E, Z.eqb_refl. bfalse (bn <? NDIRECT). cbn [mk_freeblock set_freeblock put set_img]. lia.
      * eauto.
  - exists G, (faddr G d bn), s. split.
    + unfold mret, MK_ret, hval. rewrite <-Efa, xint_le; [done|].
      destruct (fo_blk _ _ _ Hf bn Hmx) as [?|Hu%(sim_used G s)]; (done || lia).
    + split_and!; try done.
      * unfold newb. bfalse (faddr G d bn =? 0). lia.
      * exists {[ind d]}. apply (old_post sb0 sb0_ok); try done; [by eapply sim_meta|set_solver].
Qed.

Lemma block_ok G s d bn :
  sim G s -> file_ok G sb0 d -> 0 <= bn < MAXFILE -> mk_freeblock s + newb G d bn <= 1000 ->
  exists L G' d' a s', iappend_block false d bn s = MkRet (d', a) s' /\ block_post L G d bn s a G' d' s'.
Proof.
  intros H Hf Hb Hr. destruct (Z.lt_ge_cases bn NDIRECT) as [Hlt|Hge].
  { destruct (block_direct G s d bn H Hf ltac:(lia) Hr) as (G' & d' & a & s' & HH). eauto 10. }
  unfold iappend_block. bfalse (bn <? NDIRECT). cbn match. rewrite (xint_addr G s) by auto. fold (ind d).
  destruct (Z.eqb_spec (ind d) 0) as [E|E].
  2: { destruct (block_entry G s d bn H Hf ltac:(lia) E Hr) as (G' & a & s' & HH). eauto 10. }
  assert (Efa : faddr G d bn = 0) by (unfold faddr; bfalse (bn <? NDIRECT); by rewrite E).
  assert (En : newb G d bn = 2) by (unfold newb, indw; rewrite Efa, E; by bfalse (bn <? NDIRECT)). rewrite En in Hr.
  pose proof (sm_fb _ _ H) as Hfb. destruct (sim_next G s H) as (Hn & H' & Hd & Hfr); [lia|]. set (b := mk_freeblock s) in *.
  destruct (new_ind sb0 sb0_ok G d b Hf (sim_meta _ _ H) (sm_blk _ _ H _) E Hd Hfr) as (Hi & Hf' & Hfa).
  set (d0 := set_addr NDIRECT b d) in *. set (G0 := alloc_blk G sb0 b) in *.
  assert (En0 : newb G0 d0 bn = 1).
  { unfold newb, indw. rewrite Hfa, Efa, Hi by done. change (0 =? 0) with true. cbn match. bfalse (bn <? NDIRECT). by bfalse (b =? 0). }
  destruct (block_entry G0 _ d0 bn H' Hf' ltac:(lia) ltac:(lia)) as (G' & a & s' & Hrun & H1 & H2 & H3 & L' & HP);
    [rewrite En0; cbn [mk_freeblock set_freeblock]; lia|].
  exists ∅, G', d0, a, s'. split.
  - unfold mbind, MK_bind. rewrite Hn. cbv beta iota. unfold mret, MK_ret. rewrite xint_le by lia. exact Hrun.
  - rewrite En0 in H3. cbn [mk_freeblock set_freeblock] in H3. split_and!; [done|done|lia|].
    exists L'. apply (ind_post sb0 sb0_ok G d b bn a G' ∅ L' Hf (sim_meta _ _ H) (sm_blk _ _ H _) E Hd Hfr ltac:(lia)).
    rewrite union_empty_r_L. by rewrite Hi in HP.
Qed.

(** ** iappend *)

(** The blocks of a file that ends at [off] reach that far. *)
Definition reaches (G : Z -> list Z) (d : dinode) (off : Z) : Prop :=
  (off mod BSIZE <> 0 -> faddr G d (off / BSIZE) <> 0) /\ (NDIRECT * BSIZE < off -> ind d <> 0).

Lemma newb_cost G d off n :
  reaches G d off -> 0 <= off -> 0 < n -> off mod BSIZE + n <= BSIZE -> newb G d (off / BSIZE) <= cost (off + n) - cost off.
Proof.
  intros [H1 H2] H0 Hn Hm. unfold newb, cost, indw. csz. destruct (decide (off mod 1024 = 0)) as [E|E].
  - replace ((off + n + 1024 - 1) / 1024) with (off / 1024 + 1) by dlia. replace ((off + 1024 - 1) / 1024) with (off / 1024) by dlia.
    destruct (Z.ltb_spec (off / 1024) 12), (Z.ltb_spec (12 * 1024) (off + n)), (Z.ltb_spec (12 * 1024) off), (Z.eqb_spec (ind d) 0);
      try destruct (faddr G d (off / 1024) =? 0); try dlia; exfalso; auto.
  - rewrite (proj2 (Z.eqb_neq _ _) (H1 E)).
    replace ((off + n + 1024 - 1) / 1024) with (off / 1024 + 1) by dlia. replace ((off + 1024 - 1) / 1024) with (off / 1024 + 1) by dlia.
    destruct (Z.ltb_spec (12 * 1024) (off + n)), (Z.ltb_spec (12 * 1024) off); lia.
Qed.

Lemma cost_mono n m : 0 <= n <= m -> cost n <= cost m.
Proof. intros H. unfold cost. csz. destruct (Z.ltb_spec (12 * 1024) n), (Z.ltb_spec (12 * 1024) m); dlia. Qed.

Lemma reaches_wrote G d off l G' d' :
  0 <= off -> off + Z.of_nat (length l) <= MAXFILE * BSIZE -> (0 < length l)%nat -> wrote sb0 G d off l G' d' ->
  reaches G' d' (off + Z.of_nat (length l)).
Proof.
  intros H0 Hmax Hl W. set (e := off + Z.of_nat (length l)) in *.
  assert (Hlast : faddr G' d' ((e - 1) / BSIZE) <> 0) by (apply (wr_blk _ _ _ _ _ _ _ W); exists (e - 1); split; [lia|done]). split.
  - intros Hm. replace (e / BSIZE) with ((e - 1) / BSIZE); [done|]. csz. dlia.
  - intros He Hi. apply Hlast. unfold faddr. rewrite Hi. csz. by rewrite (proj2 (Z.ltb_ge _ _)) by dlia.
Qed.

(** The size of a round. *)
Lemma round_size off (p : list Z) :
  0 <= off < MAXFILE * BSIZE -> p <> [] ->
  let n1 := Z.min (Z.of_nat (length p)) (u32 ((off / BSIZE + 1) * BSIZE - off)) in
  0 < n1 <= Z.of_nat (length p) /\ off mod BSIZE + n1 <= BSIZE /\ off - off / BSIZE * BSIZE = off mod BSIZE.
Proof.
  intros H0 Hp n1. assert (0 < length p)%nat by (destruct p; [done|simpl; lia]).
  unfold n1. csz. rewrite u32_small by dlia. dlia.
Qed.

(** One round: a chunk [c] within a block. *)
Lemma round_ok G s d off c :
  sim G s -> file_ok G sb0 d -> reaches G d off -> 0 <= off -> off + Z.of_nat (length c) <= MAXFILE * BSIZE ->
  (0 < length c)%nat -> off mod BSIZE + Z.of_nat (length c) <= BSIZE -> Forall is_byte c ->
  mk_freeblock s + cost (off + Z.of_nat (length c)) - cost off <= 1000 ->
  exists G1 d1 a s1, iappend_block false d (off / BSIZE) s = MkRet (d1, a) s1 /\ rsect a s1 = MkRet (G1 a) s1 /\
    let v := splice (Z.to_nat (off mod BSIZE)) c (G1 a) in
    wsect a v s1 = MkRet tt (put a v s1) /\ sim (upd G1 a v) (put a v s1) /\ mk_freeinode s1 = mk_freeinode s /\
    wrote sb0 G d off c (upd G1 a v) d1 /\ mk_freeblock s1 <= mk_freeblock s + cost (off + Z.of_nat (length c)) - cost off.
Proof.
  intros H Hf Hre H0 Hmax Hl Hm Hby Hr. pose proof (newb_cost G d off (Z.of_nat (length c)) Hre H0 ltac:(lia) Hm) as Hn.
  assert (Hbn : 0 <= off / BSIZE < MAXFILE) by (csz; dlia).
  destruct (block_ok G s d (off / BSIZE) H Hf Hbn) as (L & G1 & d1 & a & s1 & Hrun & H1 & H2 & H3 & L' & HP); [lia|].
  pose proof (sim_used _ _ _ H1 (bp_use _ _ _ _ _ _ _ _ _ HP)) as Ha. pose proof (sm_fb _ _ H1) as Hfb.
  destruct (sm_blk _ _ H1 a) as [Hlen Hbyte]. assert (Ho : 0 <= off mod BSIZE) by (csz; dlia).
  exists G1, d1, a, s1. split; [done|]. split; [apply sim_rsect; [done|lia|lia]|]. intros v.
  assert (Hv : blk_ok v).
  { split; [|by apply splice_byte]. unfold v. rewrite length_splice; [done|]. rewrite Hlen. csz. lia. }
  destruct (sim_wsect G1 s1 a v H1) as [Hw H1']; [lia|lia|done|]. split_and!; try done; [|lia].
  eapply (wrote_chunk sb0 sb0_ok); try done. lia.
Qed.

Lemma loop_ok fuel : forall p G s d off,
  sim G s -> file_ok G sb0 d -> reaches G d off -> 0 <= off -> off + Z.of_nat (length p) <= MAXFILE * BSIZE ->
  (length p <= fuel)%nat -> Forall is_byte p -> mk_freeblock s + cost (off + Z.of_nat (length p)) - cost off <= 1000 ->
  exists G' d' s', iappend_loop false d off p fuel s = MkRet (d', off + Z.of_nat (length p)) s' /\
    sim G' s' /\ mk_freeinode s' = mk_freeinode s /\ wrote sb0 G d off p G' d' /\
    mk_freeblock s' <= mk_freeblock s + cost (off + Z.of_nat (length p)) - cost off.
Proof.
  assert (Hnil : forall G s d off, sim G s -> file_ok G sb0 d -> exists G' d' s', MkRet (d, off) s = MkRet (d', off + 0) s' /\
    sim G' s' /\ mk_freeinode s' = mk_freeinode s /\ wrote sb0 G d off [] G' d' /\
    mk_freeblock s' <= mk_freeblock s + cost (off + 0) - cost off).
  { intros G s d off H Hf. exists G, d, s. rewrite Z.add_0_r. split_and!; try done; [|lia].
    apply (wrote_nil sb0 sb0_ok); [by eapply sim_meta|done]. }
  induction fuel as [|fuel IH]; intros p G s d off H Hf Hre H0 Hmax Hfu Hby Hr.
  { destruct p; [|simpl in Hfu; lia]. by apply Hnil. }
  destruct (decide (p = [])) as [->|Hp]; [by apply Hnil|].
  assert (Hlp : (0 < length p)%nat) by (destruct p; [done|simpl; lia]).
  assert (Hoff : 0 <= off < MAXFILE * BSIZE) by lia. destruct (round_size off p Hoff Hp) as (Hn1 & Hm1 & Eo).
  set (n1 := Z.min _ _) in Hn1, Hm1.
  set (c := take (Z.to_nat n1) p). set (r := drop (Z.to_nat n1) p).
  assert (Hc : Z.of_nat (length c) = n1) by (unfold c; rewrite length_take; lia).
  assert (Hd : Z.of_nat (length r) = Z.of_nat (length p) - n1) by (unfold r; rewrite length_drop; lia).
  pose proof (cost_mono (off + n1) (off + Z.of_nat (length p)) ltac:(lia)) as Hcm.
  destruct (round_ok G s d off c) as (G1 & d1 & a & s1 & R1 & R2 & R3 & S1 & S2 & W & S3); rewrite ?Hc; try done; try lia;
    [by apply Forall_take|]. rewrite Hc in S3.
  pose proof (reaches_wrote G d off c _ d1 H0 ltac:(lia) ltac:(lia) W) as Hre1. rewrite Hc in Hre1.
  assert (Ee : off + n1 + Z.of_nat (length r) = off + Z.of_nat (length p)) by lia.
  destruct (IH r _ _ d1 (off + n1) S1 (wr_file _ _ _ _ _ _ _ W) Hre1) as (G' & d' & s' & I1 & I2 & I3 & I4 & I5); rewrite ?Ee;
    try lia; [by apply Forall_drop|cbn [mk_freeblock put set_img]; lia|]. rewrite Ee in I1, I5. cbn [mk_freeblock put set_img] in I5.
  exists G', d', s'. split_and!; [|done|by rewrite I3| |lia].
  - destruct p as [|x p]; [done|]. cbn [iappend_loop]. unfold mk_assert, mbind, MK_bind.
    rewrite (proj2 (Z.ltb_lt _ _)) by (csz; dlia). rewrite R1. cbn [fst snd]. rewrite R2.
    fold n1. fold c r. rewrite Eo, R3. rewrite u32_small by (csz; lia). exact I1.
  - rewrite <-(take_drop (Z.to_nat n1) p). eapply (wrote_app sb0 sb0_ok); [done|fold c r; rewrite length_app; lia|exact W|].
    fold c r. by rewrite Hc.
Qed.

Lemma inode_block i : 0 <= i < 200 -> 32 <= IBLOCK i sb0 < 45 /\ (dip_off i + 64 <= 1024)%nat.
Proof. intros H. unfold IBLOCK, dip_off. change IPB with 16. change DINODE with 64. cbn [sb_inodestart sb0]. dlia. Qed.

Lemma rinode_ok G s i : sim G s -> 0 <= i < 200 -> rinode false i s = MkRet (dinode_of G sb0 i) s.
Proof.
  intros H Hi. destruct (inode_block i Hi) as [Hb _]. unfold rinode, mk_gets, mbind, MK_bind. rewrite (sm_sb _ _ H).
  rewrite u32_small by lia. by rewrite (sim_rsect G) by (done || lia).
Qed.

Lemma winode_ok G s i d :
  sim G s -> 0 <= i < 200 -> length (di_addrs d) = 13%nat ->
  exists s', winode false i d s = MkRet tt s' /\ sim (iupdated sb0 i d G) s' /\
    mk_freeinode s' = mk_freeinode s /\ mk_freeblock s' = mk_freeblock s.
Proof.
  intros H Hi Hl. destruct (inode_block i Hi) as [Hb Ho]. unfold winode, mk_gets, mbind, MK_bind. rewrite (sm_sb _ _ H).
  rewrite u32_small by lia. rewrite (sim_rsect G) by (done || lia). pose proof (sm_fb _ _ H).
  destruct (sm_blk _ _ H (IBLOCK i sb0)) as [Hlen Hby].
  set (v := splice (dip_off i) (dinode_hbytes false d) (G (IBLOCK i sb0))).
  assert (Ev : v = dinode_put (dip_off i) d (G (IBLOCK i sb0))) by (rewrite dinode_put_splice by (done || lia); done).
  destruct (sim_wsect G s (IBLOCK i sb0) v H) as [Hw H']; [lia|lia| |].
  { rewrite Ev. apply dinode_put_blk; [done|done|done]. }
  exists (put (IBLOCK i sb0) v s). split_and!; try done. unfold iupdated. by rewrite <-Ev.
Qed.

(** ** The files of the image *)

(** A consistent file of type [t] with contents [f], zeros after its end. *)
Record finode (G : Z -> list Z) (d : dinode) (t : Z) (f : list Z) : Prop := mkFinode {
  fi_file : file_ok G sb0 d;
  fi_sized : sized G d;
  fi_contents : contents G d = f;
  fi_tail : forall x, di_size d <= x < MAXFILE * BSIZE -> fget G d x = 0;
  fi_fields : (di_type d, di_major d, di_minor d, di_nlink d) = (t, 0, 0, 1);
  fi_type : 0 <= t < 2 ^ 15
}.

Definition owns (G : Z -> list Z) (d : dinode) (b : Z) : Prop :=
  ind d = b \/ exists bn, 0 <= bn < MAXFILE /\ faddr G d bn = b.

Definition total (fs : list (Z * list Z)) : Z := foldr (fun x a => cost (Z.of_nat (length x.2)) + a) 0 fs.

(** The inode of the file number [i]. *)
Definition nth_inode (G : Z -> list Z) (i : nat) : dinode := dinode_of G sb0 (1 + Z.of_nat i).

(** The blocks before the inodes: the super block and an empty log. *)
Definition fixed_block (b : Z) : list Z := if b =? 1 then splice 0 (sb_hbytes false sb0) zeroes else zeroes.

(** The inodes from 1 on have the types and contents [fs]. *)
Record image (G : Z -> list Z) (s : mkst) (fs : list (Z * list Z)) : Prop := mkImage {
  im_sim : sim G s;
  im_next : mk_freeinode s = 1 + Z.of_nat (length fs);
  im_len : (length fs < 200)%nat;
  im_file : forall i x, fs !! i = Some x -> finode G (nth_inode G i) x.1 x.2;
  im_apart : forall i j, (i < length fs)%nat -> (j < length fs)%nat -> i <> j -> apart G (nth_inode G i) (nth_inode G j);
  im_own : forall b, data_blk sb0 b -> is_free G sb0 b = false -> exists i, (i < length fs)%nat /\ owns G (nth_inode G i) b;
  im_free : forall j, j = 0 \/ Z.of_nat (length fs) < j < 200 -> dinode_of G sb0 j = dinode0;
  im_fix : forall b, 1 <= b < 32 -> G b = fixed_block b;
  im_cost : mk_freeblock s <= 46 + total fs
}.

Lemma finode_size G d t f : finode G d t f -> di_size d = Z.of_nat (length f).
Proof. intros [_ [Hz _] <- _ _ _]. rewrite contents_length. lia. Qed.

Lemma finode_short G d t f : finode G d t f ->
  forall x, x ∈ [di_type d; di_major d; di_minor d; di_nlink d] -> - 2 ^ 15 <= x < 2 ^ 15.
Proof. intros [_ _ _ _ E Ht]. injection E as -> -> -> ->. intros x Hx. set_unfold in Hx. lia. Qed.

(** A file that keeps its blocks and its bytes is the same file. *)
Lemma finode_ext G G' d t f :
  finode G d t f -> file_ok G' sb0 d -> (forall bn, faddr G' d bn = faddr G d bn) ->
  (forall x, 0 <= x < MAXFILE * BSIZE -> fget G' d x = fget G d x) -> finode G' d t f.
Proof.
  intros [H1 H2 H3 H4 H5 H6] Hf Ef Eg.
  assert (Hz : sized G' d) by (destruct H2 as [? HH]; split; [done|]; intros x Hx; rewrite Ef; auto).
  split; try done.
  - rewrite <-H3. apply list_eq. intros k. rewrite !contents_lookup by done. case_decide; [|done].
    rewrite Eg by (destruct H2; lia). done.
  - intros x Hx. rewrite Eg by (destruct H2; lia). auto.
Qed.

Lemma apart_sym g d d2 : apart g d d2 -> apart g d2 d.
Proof.
  intros [A1 A2]. split.
  - intros bn Hb Hn. split.
    + intros E. destruct A2 as [_ A2]; [congruence|]. by apply (A2 bn Hb).
    + intros bn' Hb' E. destruct (A1 bn' Hb') as [_ A3]; [congruence|]. by apply (A3 bn Hb).
  - intros Hi. split.
    + intros E. destruct A2 as [A3 _]; congruence.
    + intros bn' Hb' E. destruct (A1 bn' Hb') as [A3 _]; congruence.
Qed.

Lemma reaches_sized G d : file_ok G sb0 d -> sized G d -> reaches G d (di_size d).
Proof.
  intros Hf [H0 Hz]. split.
  - intros Hm. replace (di_size d / BSIZE) with ((di_size d - 1) / BSIZE) by (csz; dlia). apply Hz. csz. dlia.
  - intros He Hi. apply (Hz (NDIRECT * BSIZE)); [csz; lia|]. unfold faddr. csz. change (12 * 1024 / 1024 <? 12) with false.
    cbn match. by rewrite Hi.
Qed.

Lemma total_insert fs i x y : fs !! i = Some x ->
  total (<[i := y]> fs) = total fs - cost (Z.of_nat (length x.2)) + cost (Z.of_nat (length y.2)).
Proof.
  revert i. induction fs as [|z fs IH]; intros i Hi; [done|]. destruct i as [|i]; simpl in *.
  - injection Hi as ->. lia.
  - rewrite (IH i) by done. lia.
Qed.

Lemma total_app fs fs' : total (fs ++ fs') = total fs + total fs'.
Proof. induction fs as [|z fs IH]; simpl; [lia|]. rewrite IH. lia. Qed.

(** ** Appending keeps the other files *)

Lemma not_iblock G i b : 0 <= i < 200 -> in_use G sb0 b -> b <> IBLOCK i sb0.
Proof. intros Hi [Hd _]. pose proof (inode_block i Hi). unfold data_blk in Hd. change (sb_bmapstart sb0) with 45 in Hd. lia. Qed.

Section append.
Context (G : Z -> list Z) (i : Z) (d : dinode) (p : list Z) (G1 : Z -> list Z) (d1 : dinode).
Let off := di_size d.
Let d2 := end_size d d1 off (Z.of_nat (length p)).
Let G2 := iupdated sb0 i d2 G1.
Hypothesis (Hi : 0 <= i < 200) (Hm : meta_used G sb0) (Hf : file_ok G sb0 d) (Hz : sized G d).
Hypothesis (Hmax : off + Z.of_nat (length p) <= MAXFILE * BSIZE) (W : wrote sb0 G d off p G1 d1).

Lemma append_evolves :
  evolves G G2 sb0 (fun b => written G d off (length p) b \/ b = IBLOCK i sb0)
    (fun b => written G1 d1 off (length p) b /\ data_blk sb0 b /\ is_free G sb0 b = true).
Proof.
  pose proof (wr_ev _ _ _ _ _ _ _ W) as E1. pose proof (iupdated_evolves sb0 i d2 G1 sb0_ok Hi (ev_meta _ _ _ _ _ E1)) as E2.
  eapply evolves_mono; [exact (evolves_trans sb0 sb0_ok _ _ _ _ _ _ _ E1 E2)|done|]. intuition.
Qed.

Lemma append_other d' :
  file_ok G sb0 d' -> apart G d d' ->
  file_ok G2 sb0 d' /\ (forall bn, faddr G2 d' bn = faddr G d' bn) /\
  forall x, 0 <= x < MAXFILE * BSIZE -> fget G2 d' x = fget G d' x.
Proof.
  intros F A. destruct Hz as [H0 _]. destruct (apart_written G d d' off p) as [A1 A2]; [unfold off; lia|done|done|].
  assert (B1 : ind d' <> 0 -> ~ (written G d off (length p) (ind d') \/ ind d' = IBLOCK i sb0)).
  { intros Hn [HH|HH]; [by apply A1|]. destruct (fo_ind _ _ _ F) as [?|Hu]; [done|]. by apply (not_iblock G i) in Hu. }
  destruct (file_ok_evolves sb0 sb0_ok _ _ _ _ d' append_evolves F B1) as [F' Ef]. split_and!; [done|done|].
  intros x Hx. apply (fget_evolves sb0 sb0_ok _ _ _ _ d' x append_evolves F B1); [|done].
  intros bn Hb Hn [HH|HH]; [by apply (A2 bn Hb Hn)|]. destruct (fo_blk _ _ _ F bn Hb) as [?|Hu]; [done|]. by apply (not_iblock G i) in Hu.
Qed.

(** The file itself: its inode block is not one of its blocks. *)
Lemma append_self : (forall bn, 0 <= bn < MAXFILE -> faddr G2 d2 bn = faddr G1 d1 bn) /\ ind d2 = ind d1.
Proof.
  assert (Ea : di_addrs d2 = di_addrs d1) by apply end_size_addrs.
  split; [|unfold ind, addr_at; by rewrite Ea]. intros bn Hb. rewrite <-(faddr_addrs G1 d2 d1 bn Ea).
  apply faddr_ext. intros Hn. unfold G2, iupdated. apply upd_ne.
  pose proof (wr_file _ _ _ _ _ _ _ W) as F1. unfold ind, addr_at in Hn |- *. rewrite Ea in Hn |- *.
  destruct (fo_ind _ _ _ F1) as [?|[Hd _]]; [done|]. pose proof (inode_block i Hi). unfold data_blk in Hd.
  change (sb_bmapstart sb0) with 45 in Hd. unfold ind, addr_at in Hd. lia.
Qed.

Lemma append_owns b : data_blk sb0 b -> owns G d b -> owns G2 d2 b.
Proof.
  destruct append_self as [S1 S2]. intros Hd [E|(bn & Hb & E)].
  - left. rewrite S2. destruct (wr_ind _ _ _ _ _ _ _ W) as [->|[E0 _]]; [done|].
    apply (data_pos sb0 sb0_ok) in Hd. lia.
  - right. exists bn. split; [done|]. rewrite S1 by done. rewrite (wr_mono _ _ _ _ _ _ _ W); [done|done|].
    apply (data_pos sb0 sb0_ok) in Hd. lia.
Qed.

Lemma append_new b : written G1 d1 off (length p) b -> owns G2 d2 b.
Proof.
  destruct append_self as [S1 S2]. destruct Hz as [H0 _]. intros [->|(bn & Ht & ->)]; [by left|right].
  assert (0 <= bn < MAXFILE) by (eapply (touched_in off p); [unfold off; lia|done|done]). exists bn. split; [done|]. by apply S1.
Qed.

Lemma append_bytes x : 0 <= x < MAXFILE * BSIZE -> fget G2 d2 x = fget G1 d1 x.
Proof.
  intros Hx. destruct append_self as [S1 _]. assert (Hb : 0 <= x / BSIZE < MAXFILE) by (csz; dlia).
  unfold fget, fbyte. rewrite S1 by done. destruct (Z.eqb_spec (faddr G1 d1 (x / BSIZE)) 0) as [|Hn]; [done|].
  do 2 f_equal. unfold G2, iupdated. apply upd_ne. pose proof (inode_block i Hi).
  destruct (fo_blk _ _ _ (wr_file _ _ _ _ _ _ _ W) _ Hb) as [?|[Hd _]]; [done|].
  unfold data_blk in Hd. change (sb_bmapstart sb0) with 45 in Hd. lia.
Qed.

Lemma append_low b : 1 <= b < 32 -> G2 b = G b.
Proof.
  intros Hb. pose proof (inode_block i Hi). destruct Hz as [H0 _].
  apply (ev_keep _ _ _ _ _ append_evolves); [lia|apply Hm; change (sb_bmapstart sb0) with 45; lia|change (sb_bmapstart sb0) with 45; lia|].
  intros [HH|HH]; [|lia].
  apply (written_data sb0) in HH as [?|Hd]; [lia| |unfold off; lia|done|done].
  unfold data_blk in Hd. change (sb_bmapstart sb0) with 45 in Hd. lia.
Qed.
End append.

Lemma overwrite_end p f : overwrite (length f) p f = f ++ p.
Proof. unfold overwrite. by rewrite take_ge, drop_ge, app_nil_r by lia. Qed.

Lemma end_size_set d d1 (p : list Z) :
  (exists l, d1 = with_addrs d l) -> end_size d d1 (di_size d) (Z.of_nat (length p)) = set_size (di_size d + Z.of_nat (length p)) d1.
Proof.
  intros [l ->]. unfold end_size. destruct (Z.ltb_spec (di_size d) (di_size d + Z.of_nat (length p))); [done|].
  replace (di_size d + Z.of_nat (length p)) with (di_size d) by lia. done.
Qed.

(** The file that was appended to. *)
Lemma append_finode G i d t f p G1 d1 :
  0 <= i < 200 -> meta_used G sb0 -> finode G d t f -> Z.of_nat (length f) + Z.of_nat (length p) <= MAXFILE * BSIZE ->
  blk_ok (G1 (IBLOCK i sb0)) -> wrote sb0 G d (di_size d) p G1 d1 ->
  let d2 := end_size d d1 (di_size d) (Z.of_nat (length p)) in let G2 := iupdated sb0 i d2 G1 in
  finode G2 d2 t (f ++ p) /\ dinode_of G2 sb0 i = d2 /\
  (forall j, 0 <= j < 200 -> j <> i -> dinode_of G2 sb0 j = dinode_of G sb0 j) /\
  forall d', file_ok G sb0 d' -> apart G d d' -> apart G2 d2 d'.
Proof.
  intros Hi Hm HF Hmax Hk W d2 G2. pose proof (finode_size _ _ _ _ HF) as Hsz. pose proof (finode_short _ _ _ _ HF) as Hsh.
  destruct HF as [F1 F2 F3 F4 F5 F6]. assert (H0 : 0 <= di_size d <= di_size d) by lia.
  pose proof (wrote_post sb0 i (di_size d) p G d G1 d1 sb0_ok Hi Hm F1 F2 Hsh H0 ltac:(lia) Hk W) as P.
  cbv zeta in P. fold d2 in P. fold G2 in P. destruct P as [[P1 P2] P3 P4 P5 P6 P7 _].
  split_and!; try done; [|by intros d' F A; apply P7]. split; try done.
  - rewrite P3, F3, Hsz, Nat2Z.id. apply overwrite_end.
  - intros x Hx. assert (E2 : di_size d2 = Z.max (di_size d) (di_size d + Z.of_nat (length p))).
    { apply end_size_size. destruct (wr_rest _ _ _ _ _ _ _ W) as [l ->]. done. }
    rewrite (append_bytes G i d p G1 d1 Hi W) by lia. rewrite (wr_bytes _ _ _ _ _ _ _ W) by lia.
    rewrite chunk_in, bool_decide_eq_false_2 by lia. apply F4. lia.
  - by rewrite P4.
Qed.

Lemma image_append G s fs i t f p G1 d1 s2 :
  let d := nth_inode G i in let d2 := end_size d d1 (di_size d) (Z.of_nat (length p)) in
  let G2 := iupdated sb0 (1 + Z.of_nat i) d2 G1 in
  image G s fs -> fs !! i = Some (t, f) -> Z.of_nat (length f) + Z.of_nat (length p) <= MAXFILE * BSIZE ->
  (forall b, blk_ok (G1 b)) -> wrote sb0 G d (di_size d) p G1 d1 -> sim G2 s2 -> mk_freeinode s2 = mk_freeinode s ->
  mk_freeblock s2 <= mk_freeblock s + cost (Z.of_nat (length f) + Z.of_nat (length p)) - cost (Z.of_nat (length f)) ->
  image G2 s2 (<[i := (t, f ++ p)]> fs).
Proof.
  intros d d2 G2 [Hs Hn Hlen Hfile Hap Hown Hfree Hfix Hcost] Hfi Hmax Hk W S2 E2 C2.
  pose proof (Hfile i _ Hfi) as HF. cbn [fst snd] in HF. fold d in HF. pose proof (finode_size _ _ _ _ HF) as Hsz.
  pose proof (lookup_lt_Some _ _ _ Hfi) as Hil. assert (Hnr : 0 <= 1 + Z.of_nat i < 200) by lia. pose proof (sim_meta _ _ Hs) as Hm.
  destruct (append_finode G (1 + Z.of_nat i) d t f p G1 d1 Hnr Hm HF Hmax (Hk _) W) as (HF2 & Ed2 & Eo & Ea).
  fold d2 G2 in HF2, Ed2, Eo, Ea.
  assert (Hmx : di_size d + Z.of_nat (length p) <= MAXFILE * BSIZE) by lia. pose proof (fi_sized _ _ _ _ HF) as Hz.
  assert (En : forall j, (j < length fs)%nat -> j <> i -> nth_inode G2 j = nth_inode G j) by (intros j Hj Hne; apply Eo; lia).
  assert (Hoth : forall j, (j < length fs)%nat -> j <> i -> file_ok G2 sb0 (nth_inode G j) /\
    (forall bn, faddr G2 (nth_inode G j) bn = faddr G (nth_inode G j) bn) /\
    forall x, 0 <= x < MAXFILE * BSIZE -> fget G2 (nth_inode G j) x = fget G (nth_inode G j) x).
  { intros j Hj Hne. destruct (lookup_lt_is_Some_2 fs j Hj) as [y Hy].
    eapply append_other; try done; [apply (Hfile j _ Hy)|apply Hap; (done || lia)]. }
  assert (Hself : nth_inode G2 i = d2) by exact Ed2.
  assert (Happ : forall j, (j < length fs)%nat -> j <> i -> apart G2 d2 (nth_inode G j)).
  { intros j Hj Hne. destruct (Hoth j Hj Hne) as (_ & Ef & _). destruct (lookup_lt_is_Some_2 fs j Hj) as [y Hy].
    apply Ea; [apply (Hfile j _ Hy)|apply Hap; (done || lia)]. }
  split; rewrite ?length_insert; try done.
  - by rewrite E2.
  - intros j x Hj. destruct (decide (j = i)) as [->|Hne].
    + rewrite list_lookup_insert_eq in Hj by done. injection Hj as <-. rewrite Hself. exact HF2.
    + rewrite list_lookup_insert_ne in Hj by done. pose proof (lookup_lt_Some _ _ _ Hj) as Hjl.
      destruct (Hoth j Hjl Hne) as (F' & Ef & Eg). rewrite En by done. by eapply finode_ext; [apply Hfile| | |].
  - intros j k Hj Hk' Hjk. destruct (decide (j = i)) as [->|Hne]; [rewrite Hself, En by (done || lia); by apply Happ; [|lia]|].
    destruct (decide (k = i)) as [->|Hnk]; [rewrite Hself, En by done; apply apart_sym; by apply Happ|].
    rewrite !En by done. destruct (Hoth j Hj Hne) as (_ & Ef & _). destruct (Hoth k Hk' Hnk) as (_ & Ef' & _).
    by apply (apart_ext G (nth_inode G j)); [|apply Ef|apply Ef'|apply Hap].
  - intros b Hd Hu. pose proof (append_evolves G (1 + Z.of_nat i) d p G1 d1 Hnr W) as E. fold d2 G2 in E.
    assert (Hb0 : 0 <= b) by (apply (data_pos sb0 sb0_ok) in Hd; lia). destruct (ev_new _ _ _ _ _ E b Hb0 Hu) as [Hold|(Hw & _ & _)].
    + destruct (Hown b Hd Hold) as (j & Hj & Ho). exists j. split; [done|]. destruct (decide (j = i)) as [->|Hne].
      * rewrite Hself. by eapply append_owns.
      * destruct (Hoth j Hj Hne) as (_ & Ef & _). rewrite En by done. destruct Ho as [?|(bn & Hb & Eb)]; [by left|right].
        exists bn. by rewrite Ef.
    + exists i. split; [done|]. rewrite Hself. by eapply append_new.
  - intros j Hj. rewrite Eo by lia. by apply Hfree.
  - intros b Hb. rewrite (append_low G (1 + Z.of_nat i) d p G1 d1) by (done || apply HF). by apply Hfix.
  - rewrite (total_insert _ _ _ _ Hfi). cbn [snd]. rewrite length_app, Nat2Z.inj_add. lia.
Qed.

Lemma iappend_ok G s fs i t f p :
  image G s fs -> fs !! i = Some (t, f) -> Forall is_byte p -> Z.of_nat (length f) + Z.of_nat (length p) <= MAXFILE * BSIZE ->
  46 + total (<[i := (t, f ++ p)]> fs) <= 1000 ->
  exists G' s', iappend false (1 + Z.of_nat i) p s = MkRet tt s' /\ image G' s' (<[i := (t, f ++ p)]> fs).
Proof.
  intros I Hfi Hby Hmax Htot. pose proof (im_sim _ _ _ I) as Hs. pose proof (im_file _ _ _ I i _ Hfi) as HF.
  cbn [fst snd] in HF. set (d := nth_inode G i) in *. pose proof (im_cost _ _ _ I). pose proof (im_len _ _ _ I).
  pose proof (finode_size _ _ _ _ HF) as Hsz. pose proof (lookup_lt_Some _ _ _ Hfi) as Hil.
  set (n := 1 + Z.of_nat i). assert (Hnr : 0 <= n < 200) by lia.
  rewrite (total_insert _ _ _ _ Hfi) in Htot. cbn [snd] in Htot. rewrite length_app, Nat2Z.inj_add in Htot.
  destruct (loop_ok (length p) p G s d (di_size d)) as (G1 & d1 & s1 & R1 & S1 & E1 & W & C1); try done;
    [apply HF|apply reaches_sized; apply HF|lia|lia|rewrite Hsz; lia|].
  assert (Hl1 : length (di_addrs (set_size (di_size d + Z.of_nat (length p)) d1)) = 13%nat) by apply (fo_len _ _ _ (wr_file _ _ _ _ _ _ _ W)).
  destruct (winode_ok G1 s1 n _ S1 Hnr Hl1) as (s2 & R2 & S2 & E2 & E3). rewrite <-(end_size_set d d1 p) in S2, R2 by apply W.
  eexists _, s2. split.
  - unfold iappend, mbind, MK_bind. rewrite (rinode_ok G) by done. change (dinode_of G sb0 n) with d.
    rewrite xint_le by (csz; lia). rewrite R1. cbn [fst snd]. rewrite xint_le by (csz; lia). rewrite <-(end_size_set d d1 p) by apply W. exact R2.
  - eapply (image_append G s fs i t f p G1 d1 s2); try done; [apply S1|by rewrite E2|]. rewrite E3. rewrite Hsz in C1. lia.
Qed.

(** ** ialloc *)

(** Writing an inode changes no file's blocks. *)
Lemma inode_other G i e d :
  0 <= i < 200 -> meta_used G sb0 -> file_ok G sb0 d ->
  let G' := iupdated sb0 i e G in
  file_ok G' sb0 d /\ (forall bn, faddr G' d bn = faddr G d bn) /\ forall x, 0 <= x < MAXFILE * BSIZE -> fget G' d x = fget G d x.
Proof.
  intros Hi Hm F G'. pose proof (iupdated_evolves sb0 i e G sb0_ok Hi Hm) as E.
  assert (B1 : ind d <> 0 -> ind d <> IBLOCK i sb0).
  { intros Hn. destruct (fo_ind _ _ _ F) as [?|Hu]; [done|]. exact (not_iblock G i _ Hi Hu). }
  destruct (file_ok_evolves sb0 sb0_ok _ _ _ _ d E F B1) as [F' Ef]. split_and!; [done|done|].
  intros x Hx. apply (fget_evolves sb0 sb0_ok _ _ _ _ d x E F B1); [|done].
  intros bn Hb Hn. destruct (fo_blk _ _ _ F bn Hb) as [?|Hu]; [done|]. exact (not_iblock G i _ Hi Hu).
Qed.

Definition fresh_inode (t : Z) : dinode := mkDinode t 0 0 1 0 (repeat 0 13).

Lemma faddr_fresh G t bn : faddr G (fresh_inode t) bn = 0.
Proof.
  unfold faddr, ind, addr_at, fresh_inode. cbn [di_addrs]. rewrite !(nth_repeat (0 : Z)). by destruct (bn <? NDIRECT).
Qed.

Lemma fresh_finode G t : 0 <= t < 2 ^ 15 -> finode G (fresh_inode t) t [].
Proof.
  intros Ht. split; try done.
  - split; [done|by left|intros; left; apply faddr_fresh| |]; intros bn; intros; by rewrite faddr_fresh in *.
  - split; [done|]. cbn. lia.
  - intros x Hx. unfold fget. by rewrite faddr_fresh.
Qed.

Lemma image_ialloc G s fs t s2 :
  let i := 1 + Z.of_nat (length fs) in let G2 := iupdated sb0 i (fresh_inode t) G in
  image G s fs -> (length fs < 199)%nat -> 0 <= t < 2 ^ 15 -> sim G2 s2 -> mk_freeinode s2 = i + 1 ->
  mk_freeblock s2 = mk_freeblock s -> image G2 s2 (fs ++ [(t, [])]).
Proof.
  intros i G2 [Hs Hn Hlen Hfile Hap Hown Hfree Hfix Hcost] Hl Ht S2 E2 E3. pose proof (sim_meta _ _ Hs) as Hm.
  assert (Hi : 0 <= i < 200) by lia. pose proof (inode_block i Hi) as [Hib _]. pose proof (sm_blk _ _ Hs (IBLOCK i sb0)) as Hk.
  assert (Hwf : dinode_wf (fresh_inode t)).
  { split; [|done|done|by repeat constructor]. intros x Hx. cbn in Hx. set_unfold in Hx. lia. }
  assert (Enew : nth_inode G2 (length fs) = fresh_inode t) by by apply iupdated_same.
  assert (Eo : forall j, 0 <= j -> j <> i -> dinode_of G2 sb0 j = dinode_of G sb0 j).
  { intros j Hj Hne. by apply iupdated_other. }
  assert (En : forall j, (j < length fs)%nat -> nth_inode G2 j = nth_inode G j) by (intros j Hj; apply Eo; lia).
  assert (Hoth : forall j y, fs !! j = Some y -> file_ok G2 sb0 (nth_inode G j) /\
    (forall bn, faddr G2 (nth_inode G j) bn = faddr G (nth_inode G j) bn) /\
    forall x, 0 <= x < MAXFILE * BSIZE -> fget G2 (nth_inode G j) x = fget G (nth_inode G j) x).
  { intros j y Hy. apply inode_other; [done|done|apply (Hfile j _ Hy)]. }
  assert (Hlast : forall j, (j < length fs)%nat -> apart G2 (nth_inode G j) (fresh_inode t)).
  { intros j Hj. split; [intros bn Hb; by rewrite faddr_fresh|done]. }
  assert (Hd : is_free G2 sb0 = is_free G sb0).
  { unfold is_free, G2, iupdated. rewrite upd_ne; [done|]. change (sb_bmapstart sb0) with 45. lia. }
  split; rewrite ?length_app; cbn [length]; try done.
  - lia.
  - lia.
  - intros j x Hj. apply lookup_app_Some in Hj as [Hj|[Hj Hj']].
    + destruct (Hoth j x Hj) as (F' & Ef & Eg). rewrite En by (by eapply lookup_lt_Some). eapply finode_ext; try done. by apply Hfile.
    + apply list_lookup_singleton_Some in Hj' as [Hj0 <-]. replace j with (length fs) by lia. rewrite Enew. by apply fresh_finode.
  - intros j k Hj Hk' Hjk. destruct (decide (j = length fs)) as [->|Hne]; [rewrite Enew, En by lia; apply apart_sym, Hlast; lia|].
    destruct (decide (k = length fs)) as [->|Hnk]; [rewrite Enew, En by lia; apply Hlast; lia|].
    destruct (lookup_lt_is_Some_2 fs j) as [y Hy]; [lia|]. destruct (lookup_lt_is_Some_2 fs k) as [z Hz]; [lia|].
    rewrite !En by lia. destruct (Hoth j y Hy) as (_ & Ef & _). destruct (Hoth k z Hz) as (_ & Ef' & _).
    apply (apart_ext G (nth_inode G j)); [done|done|done|]. apply Hap; lia.
  - intros b Hd' Hu. rewrite Hd in Hu. destruct (Hown b Hd' Hu) as (j & Hj & Ho). exists j. split; [lia|]. rewrite En by done.
    destruct (lookup_lt_is_Some_2 fs j Hj) as [y Hy]. destruct (Hoth j y Hy) as (_ & Ef & _).
    destruct Ho as [?|(bn & Hb & Eb)]; [by left|right]. exists bn. by rewrite Ef.
  - intros j Hj. rewrite Eo by lia. apply Hfree. lia.
  - intros b Hb. unfold G2, iupdated. rewrite upd_ne by lia. by apply Hfix.
  - rewrite total_app, E3. replace (total [(t, [])]) with 0 by done. lia.
Qed.

Lemma ialloc_ok G s fs t :
  image G s fs -> (length fs < 199)%nat -> 0 <= t < 2 ^ 15 ->
  exists G' s', mk_ialloc false t s = MkRet (1 + Z.of_nat (length fs)) s' /\ image G' s' (fs ++ [(t, [])]).
Proof.
  intros I Hl Ht. pose proof (im_sim _ _ _ I) as Hs. pose proof (im_next _ _ _ I) as Hn. set (i := 1 + Z.of_nat (length fs)) in *.
  assert (Hs' : sim G (set_freeinode (i + 1) s)) by by destruct Hs.
  destruct (winode_ok G _ i (fresh_inode t) Hs') as (s2 & R & S2 & E2 & E3); [lia|done|].
  eexists _, s2. split.
  - unfold mk_ialloc, mk_gets, mbind, MK_bind. rewrite Hn, u32_small by lia.
    destruct (xshort_le t Ht) as [-> ->]. destruct (xshort_le 1) as [-> ->]; [lia|]. rewrite xint_le by lia.
    change (mkDinode t 0 0 1 0 (repeat 0 13)) with (fresh_inode t). by rewrite R.
  - by apply (image_ialloc G s fs t s2).
Qed.

(** ** The empty image *)

Definition all_zero (s : mkst) : Prop := forall b, blk s b = zeroes.

Lemma wzeroes_ok l : forall s,
  all_zero s -> Forall (fun i => 0 <= i < 1000) l ->
  exists s', wzeroes l s = MkRet tt s' /\ all_zero s' /\ mk_end s' = foldl (fun e i => Z.max e (i + 1)) (mk_end s) l /\
    mk_sb s' = mk_sb s /\ mk_freeinode s' = mk_freeinode s /\ mk_freeblock s' = mk_freeblock s.
Proof.
  induction l as [|i l IH]; intros s Hz Hl; [by exists s|]. inversion Hl as [|? ? Hi Hl']; subst.
  destruct (IH (set_img (<[i := zeroes]> (mk_img s)) (Z.max (mk_end s) (i + 1)) s)) as (s' & R & H); [|done|].
  - intros b. unfold blk, disk_read, image_of. cbn [mk_img set_img dk_blocks]. rewrite lookup_insert. case_decide; [done|]. apply Hz.
  - exists s'. split; [|exact H]. cbn [wzeroes]. unfold mbind, MK_bind, wsect. by rewrite seek_small.
Qed.

Lemma zero_inode j : dinode_decode (dip_off j) zeroes = dinode0.
Proof.
  assert (Hz : forall o n, le_val (slice o n zeroes) = 0).
  { intros o n. apply le_val_zeros. unfold slice. apply Forall_take, Forall_drop, Forall_forall.
    by intros x Hx%list_elem_of_In%repeat_spec. }
  unfold dinode_decode, ld16, ld32. rewrite !Hz. unfold dinode0. f_equal. cbn [seq fmap list_fmap]. by rewrite !Hz.
Qed.

Lemma sb_block : sb_decode (fixed_block 1) = sb0 /\ blk_ok (fixed_block 1).
Proof. split; [by vm_compute|]. split; [done|]. apply (splice_byte 0); [|apply zero_blk_ok]. by apply FsSpec.Example.byte_list. Qed.

Lemma empty_image s :
  mk_sb s = sb0 -> mk_end s = 1000 -> mk_freeblock s = 46 -> mk_freeinode s = 1 -> (forall b, blk s b = if b =? 1 then fixed_block 1 else zeroes) ->
  exists G, image G s [].
Proof.
  intros H1 H2 H3 H4 H5. exists (fun b => if b =? 45 then used_map 46 else blk s b).
  assert (Hs : sim (fun b => if b =? 45 then used_map 46 else blk s b) s).
  { split; try done.
    - lia.
    - by rewrite H3.
    - intros b Hb. bfalse (b =? 45). rewrite H5. by bfalse (b =? 1).
    - intros b. case_match; [by apply used_map_spec|]. rewrite H5. case_match; [apply sb_block|apply zero_blk_ok]. }
  split; try done.
  - simpl. lia.
  - simpl. lia.
  - intros b Hd Hu. rewrite (sim_is_free _ _ _ Hs) in Hu by (apply (data_pos sb0 sb0_ok) in Hd; lia).
    unfold data_blk in Hd. change (sb_bmapstart sb0) with 45 in Hd. revert Hu. rewrite H3. by bfalse (b <? 46).
  - intros j Hj. unfold dinode_of. pose proof (inode_block j) as Hb. rewrite (proj2 (Z.eqb_neq _ _)), H5, (proj2 (Z.eqb_neq _ _)) by lia.
    apply zero_inode.
  - intros b Hb. bfalse (b =? 45). rewrite H5. unfold fixed_block. by destruct (Z.eqb_spec b 1) as [->|].
  - rewrite H3. done.
Qed.

(** ** The files on the command line *)

Definition file_name (arg : list Z) : list Z := skip_underscore (shortname arg).

Definition dot : dirent := mkDirent 1 (46 :: repeat 0 13).
Definition dotdot : dirent := mkDirent 1 (46 :: 46 :: repeat 0 12).
(** The entries of the root directory; the files have the inodes from 2 on. *)
Definition root_entries (args : list (list Z)) : list dirent :=
  dot :: dotdot :: imap (fun k a => linked (file_name a) (2 + Z.of_nat k)) args.
Definition made (args : list (list Z)) (rs : list (list (list Z))) : list (Z * list Z) :=
  (T_DIR, root_entries args ≫= de_encode) :: ((fun r => (T_FILE, concat r)) <$> rs).

Lemma made_length args rs : length (made args rs) = S (length rs).
Proof. unfold made. cbn [length]. by rewrite length_fmap. Qed.

Lemma root_entries_snoc args a :
  root_entries (args ++ [a]) = root_entries args ++ [linked (file_name a) (2 + Z.of_nat (length args))].
Proof. unfold root_entries. rewrite imap_app. cbn. by rewrite Nat.add_0_r. Qed.

Lemma made_snoc args rs a r :
  made (args ++ [a]) (rs ++ [r]) =
  (T_DIR, (root_entries args ≫= de_encode) ++ de_encode (linked (file_name a) (2 + Z.of_nat (length args)))) ::
  ((fun r => (T_FILE, concat r)) <$> rs) ++ [(T_FILE, concat r)].
Proof. unfold made. rewrite root_entries_snoc, bind_app, fmap_app. cbn. by rewrite app_nil_r. Qed.

Lemma linked_length name i : length (de_encode (linked name i)) = 16%nat.
Proof. apply de_encode_length. apply strncpy_spec. Qed.

Lemma root_length args : length (root_entries args ≫= de_encode) = (16 * (2 + length args))%nat.
Proof.
  induction args as [|a args IH] using rev_ind; [done|].
  rewrite root_entries_snoc, bind_app, length_app, IH, length_app. cbn [mbind list_bind length].
  rewrite app_nil_r, linked_length. cbn [length]. lia.
Qed.

Lemma host_strncpy_eq name n : Forall (fun c => 0 < c < 256) name -> host_strncpy name n = strncpy (arr name) 0 n.
Proof.
  assert (Hs : forall l i n, strncpy (fun j => arr l (i + j)%nat) 0 n = strncpy (arr l) i n).
  { intros l i m. revert i. assert (Hg : forall p q i j, (forall k, p (i + k)%nat = q (j + k)%nat) -> strncpy p i m = strncpy q j m).
    { induction m as [|m IH]; intros p q i j E; [done|]. cbn [strncpy]. pose proof (E 0%nat) as E0. rewrite !Nat.add_0_r in E0. rewrite E0.
      f_equal. case_match; [|done]. apply IH. intros k. specialize (E (S k)). by rewrite !Nat.add_succ_r in E. }
    intros i. apply Hg. intros k. done. }
  revert n. induction name as [|c name IH]; intros n Hn; unfold host_strncpy.
  - cbn [length]. rewrite take_nil, Nat.sub_0_r. destruct n; [done|]. by destruct n.
  - inversion Hn as [|? ? Hc Hn']; subst. destruct n as [|n]; [done|]. cbn [strncpy take length].
    change (arr (c :: name) 0) with c. bfalse (c =? 0). cbn [app]. f_equal. rewrite <-Hs.
    change (fun j => arr (c :: name) (1 + j)%nat) with (arr name). by rewrite <-IH.
Qed.

Lemma dirent_bytes_eq i name :
  0 <= i < 2 ^ 15 -> Forall (fun c => 0 < c < 256) name ->
  dirent_bytes false i (host_strncpy name (Z.to_nat DIRSIZ)) = de_encode (linked name i).
Proof.
  intros Hi Hn. unfold dirent_bytes. destruct (xshort_le i Hi) as [-> _]. by rewrite host_strncpy_eq.
Qed.

Lemma total_nonneg fs : 0 <= total fs.
Proof.
  induction fs as [|x fs IH]; [done|]. cbn [total foldr]. pose proof (cost_mono 0 (Z.of_nat (length x.2)) ltac:(lia)) as H.
  change (cost 0) with 0 in H. unfold total in IH. lia.
Qed.

Lemma copy_in_ok reads : forall G s fs i t f,
  image G s fs -> fs !! i = Some (t, f) -> Forall (fun b => b <> []) reads -> Forall is_byte (concat reads) ->
  Z.of_nat (length f) + Z.of_nat (length (concat reads)) <= MAXFILE * BSIZE ->
  46 + total (<[i := (t, f ++ concat reads)]> fs) <= 1000 ->
  exists G' s', copy_in false (1 + Z.of_nat i) reads s = MkRet tt s' /\ image G' s' (<[i := (t, f ++ concat reads)]> fs).
Proof.
  induction reads as [|p reads IH]; intros G s fs i t f I Hi Hne Hb Hm Ht.
  - exists G, s. cbn [concat]. rewrite app_nil_r, list_insert_id by done. done.
  - apply Forall_cons in Hne as [Hp Hne]. cbn [concat] in *. rewrite Forall_app in Hb. destruct Hb as [Hb1 Hb2]. rewrite length_app in Hm.
    pose proof (lookup_lt_Some _ _ _ Hi) as Hl.
    assert (Ht1 : 46 + total (<[i := (t, f ++ p)]> fs) <= 1000).
    { rewrite (total_insert _ _ _ _ Hi) in Ht. rewrite (total_insert _ _ _ _ Hi). cbn [snd] in Ht |- *. rewrite !length_app in Ht |- *.
      pose proof (cost_mono (Z.of_nat (length f + length p)) (Z.of_nat (length f + length (p ++ concat reads))) ltac:(rewrite length_app; lia)). lia. }
    destruct (iappend_ok G s fs i t f p I Hi Hb1 ltac:(lia) Ht1) as (G1 & s1 & R1 & I1).
    destruct (IH G1 s1 _ i t (f ++ p) I1) as (G2 & s2 & R2 & I2); [by rewrite list_lookup_insert_eq|done|done|rewrite length_app; lia| |].
    { by rewrite list_insert_insert_eq, <-app_assoc. }
    exists G2, s2. rewrite list_insert_insert_eq, <-app_assoc in I2. split; [|done].
    destruct p; [done|]. cbn [copy_in]. unfold mbind, MK_bind. by rewrite R1.
Qed.

(** ** main *)

Section main.
Context (creat : list Z -> bool) (host_open : list Z -> option (list (list Z))).

(** The file can be opened, has a name without slash, and is not too long. *)
Record input_ok (a : list Z) (r : list (list Z)) : Prop := mkInputOk {
  io_open : host_open a = Some r;
  io_name : Forall (fun c => 0 < c < 256) a;
  io_slash : 47 ∉ shortname a;
  io_reads : Forall (fun b => b <> []) r;
  io_byte : Forall is_byte (concat r);
  io_size : Z.of_nat (length (concat r)) <= MAXFILE * BSIZE
}.

Lemma file_name_chars a : Forall (fun c => 0 < c < 256) a -> Forall (fun c => 0 < c < 256) (file_name a).
Proof.
  intros H. unfold file_name, shortname. assert (Hs : forall l, Forall (fun c => 0 < c < 256) l -> Forall (fun c => 0 < c < 256) (skip_underscore l)).
  { intros l Hl. unfold skip_underscore. repeat case_match; try done; by inversion Hl. }
  apply Hs. case_bool_decide; [by apply Forall_drop|done].
Qed.

Lemma add_file_ok G s args rs a r :
  image G s (made args rs) -> length args = length rs -> (length args < 198)%nat -> input_ok a r ->
  46 + total (made (args ++ [a]) (rs ++ [r])) <= 1000 ->
  exists G' s', add_file false host_open 1 a s = MkRet tt s' /\ image G' s' (made (args ++ [a]) (rs ++ [r])).
Proof.
  intros I El Hl [H1 H2 H3 H4 H5] Ht. pose proof (file_name_chars a H2) as Hn. rewrite made_snoc in *.
  pose proof (made_length args rs) as Hml.
  destruct (ialloc_ok G s (made args rs) T_FILE I ltac:(lia) ltac:(done)) as (G1 & s1 & R1 & I1).
  replace (1 + Z.of_nat (length (made args rs))) with (2 + Z.of_nat (length args)) in R1 by lia.
  set (e := de_encode (linked (file_name a) (2 + Z.of_nat (length args)))) in *.
  set (root := root_entries args ≫= de_encode) in *. set (files := (fun r => (T_FILE, concat r)) <$> rs) in *.
  assert (Hfl : length files = length rs) by apply length_fmap.
  assert (Hel : length e = 16%nat) by apply linked_length. assert (Hrl : length root = (16 * (2 + length args))%nat) by apply root_length.
  change (made args rs) with ((T_DIR, root) :: files) in *. cbn [app] in I1.
  assert (E0 : <[0%nat := (T_DIR, root ++ e)]> ((T_DIR, root) :: files ++ [(T_FILE, [])]) = (T_DIR, root ++ e) :: files ++ [(T_FILE, [])]) by done.
  assert (Ht0 : total ((T_DIR, root ++ e) :: files ++ [(T_FILE, [])]) <= total ((T_DIR, root ++ e) :: files ++ [(T_FILE, concat r)])).
  { pose proof (total_nonneg [(T_FILE, concat r)]) as Hnn. cbn [total foldr snd] in Hnn |- *. fold (total (files ++ [(T_FILE, [])])).
    fold (total (files ++ [(T_FILE, concat r)])). rewrite !total_app. cbn [total foldr snd length]. change (cost (Z.of_nat 0)) with 0. lia. }
  destruct (iappend_ok G1 s1 _ 0 T_DIR root e I1) as (G2 & s2 & R2 & I2); [done| |unfold MAXFILE, BSIZE; csz; lia|rewrite E0; lia|].
  { apply linked_byte. eapply Forall_impl; [exact Hn|]. unfold is_byte. cbn. lia. }
  rewrite E0 in I2.
  assert (E1 : forall x, <[S (length rs) := x]> ((T_DIR, root ++ e) :: files ++ [(T_FILE, [])]) = (T_DIR, root ++ e) :: files ++ [x]).
  { intros x. change ((T_DIR, root ++ e) :: <[length rs := x]> (files ++ [(T_FILE, [])]) = (T_DIR, root ++ e) :: files ++ [x]).
    f_equal. rewrite <-Hfl, <-(Nat.add_0_r (length files)). by rewrite insert_app_r. }
  destruct (copy_in_ok r G2 s2 _ (S (length rs)) T_FILE [] I2) as (G3 & s3 & R3 & I3); rewrite ?E1; try done.
  { change ((files ++ [(T_FILE, [])]) !! length rs = Some (T_FILE, [])). rewrite <-Hfl. by rewrite lookup_app_r, Nat.sub_diag by lia. }
  rewrite E1 in I3. exists G3, s3. split; [|done].
  unfold add_file, mk_assert, mbind, MK_bind. rewrite bool_decide_eq_true_2, H1 by done. rewrite R1.
  fold (file_name a). rewrite dirent_bytes_eq by (done || lia). fold e. change (1 + Z.of_nat 0) with 1 in R2. rewrite R2.
  replace (2 + Z.of_nat (length args)) with (1 + Z.of_nat (S (length rs))) by lia. done.
Qed.

Lemma made_mono args rs args' rs' : total (made args rs) <= total (made (args ++ args') (rs ++ rs')).
Proof.
  unfold made. cbn [total foldr snd]. fold (total ((fun r => (T_FILE, concat r)) <$> rs)).
  fold (total ((fun r => (T_FILE, concat r)) <$> (rs ++ rs'))). rewrite fmap_app, total_app, !root_length, length_app.
  pose proof (total_nonneg ((fun r => (T_FILE, concat r)) <$> rs')).
  pose proof (cost_mono (Z.of_nat (16 * (2 + length args))) (Z.of_nat (16 * (2 + (length args + length args')))) ltac:(lia)). lia.
Qed.

Lemma add_files_ok args' rs' : forall G s args rs,
  Forall2 input_ok args' rs' -> image G s (made args rs) -> length args = length rs -> (length (args ++ args') <= 198)%nat ->
  46 + total (made (args ++ args') (rs ++ rs')) <= 1000 ->
  exists G' s', add_files false host_open 1 args' s = MkRet tt s' /\ image G' s' (made (args ++ args') (rs ++ rs')).
Proof.
  revert rs'. induction args' as [|a args' IH]; intros rs' G s args rs H I El Hl Ht; inversion H as [|? r ? rs'' Ha Hr]; subst.
  { exists G, s. by rewrite !app_nil_r. }
  rewrite length_app in Hl. cbn [length] in Hl.
  pose proof (made_mono (args ++ [a]) (rs ++ [r]) args' rs'') as Hmono. rewrite <-!app_assoc in Hmono. cbn [app] in Hmono.
  destruct (add_file_ok G s args rs a r I El ltac:(lia) Ha ltac:(lia)) as (G1 & s1 & R1 & I1).
  destruct (IH rs'' G1 s1 (args ++ [a]) (rs ++ [r]) Hr I1) as (G2 & s2 & R2 & I2).
  { rewrite !length_app. cbn [length]. lia. }
  { rewrite !length_app. cbn [length]. lia. }
  { by rewrite <-!app_assoc. }
  exists G2, s2. rewrite <-!app_assoc in I2. split; [|done]. cbn [add_files]. unfold mbind, MK_bind. by rewrite R1.
Qed.
End main.

Lemma first_entries :
  dirent_bytes false 1 (dot_name [46]) = de_encode dot /\ dirent_bytes false 1 (dot_name [46; 46]) = de_encode dotdot.
Proof. done. Qed.

(** The image before the arguments are looked at. *)
Lemma layout_ok : exists G s, mkfs_layout false mk_start = MkRet 1 s /\ image G s (made [] []).
Proof.
  unfold mkfs_layout. rewrite sb_init_le. unfold mbind at 1 2, MK_bind at 1 2.
  set (s0 := set_freeblock nmeta (set_mk_sb sb0 mk_start)).
  destruct (wzeroes_ok (seqZ 0 FSSIZE) s0) as (s1 & R1 & Z1 & E1 & E2 & E3 & E4).
  { intros b. done. }
  { apply Forall_forall. intros x Hx%elem_of_seqZ. unfold FSSIZE in Hx. lia. }
  assert (Ee : mk_end s1 = 1000) by (rewrite E1; vm_compute; reflexivity).
  set (s2 := put 1 (fixed_block 1) s1).
  destruct (empty_image s2 E2 Ee E4 E3) as [G I0].
  { intros b. unfold blk, disk_read, image_of, s2, put. cbn [mk_img set_img dk_blocks]. rewrite lookup_insert.
    destruct (Z.eqb_spec b 1) as [->|Hb]; [reflexivity|]. rewrite decide_False by congruence. apply Z1. }
  destruct (ialloc_ok G s2 [] T_DIR I0 ltac:(simpl; lia) ltac:(unfold T_DIR; lia)) as (G1 & s3 & R3 & I3). cbn [app] in I3.
  destruct (iappend_ok G1 s3 _ 0 T_DIR [] (de_encode dot) I3) as (G2 & s4 & R4 & I4); [done|by repeat constructor|done|by vm_compute|].
  destruct (iappend_ok G2 s4 _ 0 T_DIR (de_encode dot) (de_encode dotdot) I4) as (G3 & s5 & R5 & I5);
    [done|by repeat constructor|done|by vm_compute|].
  exists G3, s5. split; [|exact I5]. destruct first_entries as [F1 F2]. unfold mbind, MK_bind. rewrite R1. unfold mk_gets. rewrite E2.
  change (mk_sb s0) with sb0. change (splice 0 (sb_hbytes false sb0) zeroes) with (fixed_block 1).
  assert (Rw : wsect 1 (fixed_block 1) s1 = MkRet tt s2) by (unfold wsect, s2, put; by rewrite Ee). rewrite Rw.
  change (1 + Z.of_nat (length [])) with 1 in R3. rewrite R3. unfold mk_assert. change (1 =? ROOTINO) with true. cbn match. rewrite F1, F2.
  change (1 + Z.of_nat 0) with 1 in R4, R5. by rewrite R4, R5.
Qed.

(** ** The entries of the root directory *)

Lemma root_entries_wf args : (length args <= 198)%nat -> Forall dirent_wf (root_entries args).
Proof.
  intros Hl. repeat (constructor; [by split|]). apply Forall_lookup. intros k e Hk. rewrite list_lookup_imap in Hk.
  destruct (args !! k) as [a|] eqn:E; [|done]. injection Hk as <-. apply linked_wf. apply lookup_lt_Some in E. lia.
Qed.

(** Entry [k] of a directory that was made by appending entries. *)
Lemma appended_entry es : forall k e rest,
  Forall dirent_wf es -> es !! k = Some e -> dirent_at ((es ≫= de_encode) ++ rest) k = e.
Proof.
  unfold dirent_at. induction es as [|x es IH]; intros k e rest Hwf Hk; [done|]. inversion Hwf as [|? ? Hx Hes]; subst.
  pose proof (de_encode_length x (dew_name _ Hx)) as Hlx. rewrite bind_cons, <-app_assoc. destruct k as [|k].
  - injection Hk as ->. rewrite <-(de_roundtrip e Hx) at 2. f_equal. unfold slice. rewrite drop_0, take_app_le by lia.
    apply take_ge. lia.
  - replace (16 * S k)%nat with (16 + 16 * k)%nat by lia. unfold slice. rewrite <-Hlx at 2. rewrite drop_app_add. by apply IH.
Qed.

Lemma root_find args pad k a :
  let f := (root_entries args ≫= de_encode) ++ repeat 0 pad in
  (length args <= 198)%nat -> Forall (fun c => 0 < c < 256) a -> args !! k = Some a ->
  (forall de, de ∈ take (2 + k) (root_entries args) -> namecmp (file_name a) (de_name de) <> 0) ->
  dir_find (file_name a) f = Some ((2 + k)%nat, linked (file_name a) (2 + Z.of_nat k)).
Proof.
  intros f Hl Ha Hk Hfirst. pose proof (root_entries_wf args Hl) as Hwf. pose proof (root_length args) as Hrl.
  pose proof (lookup_lt_Some _ _ _ Hk) as Hkl. assert (Hnf : (length (root_entries args) = 2 + length args)%nat) by (cbn; by rewrite length_imap).
  assert (Hf : (2 + length args <= length f / 16)%nat).
  { unfold f. rewrite length_app, Hrl. apply Nat.div_le_lower_bound; lia. }
  assert (Hat : forall j e, root_entries args !! j = Some e -> entries f !! j = Some e).
  { intros j e Hj. pose proof (lookup_lt_Some _ _ _ Hj). rewrite entries_lookup by lia. f_equal. by apply appended_entry. }
  assert (Hke : root_entries args !! (2 + k)%nat = Some (linked (file_name a) (2 + Z.of_nat k))).
  { change (imap (fun k a => linked (file_name a) (2 + Z.of_nat k)) args !! k = Some (linked (file_name a) (2 + Z.of_nat k))).
    by rewrite list_lookup_imap, Hk. }
  apply list_find_Some. split_and!; [by apply Hat| |].
  - split; [cbn; lia|]. apply namecmp_strncpy. eapply Forall_impl; [by apply file_name_chars|]. unfold is_byte. cbn. lia.
  - intros j y Hy Hj [_ Hn]. destruct (lookup_lt_is_Some_2 (root_entries args) j) as [e He]; [lia|].
    rewrite (Hat j e He) in Hy. injection Hy as <-. apply (Hfirst e); [|done].
    apply list_elem_of_lookup. exists j. by rewrite lookup_take_lt.
Qed.

(** ** The image *)

(** What the image [g] is, for the files [args] with the contents [rs]: a file
    system of the kernel, with an empty log, in which the root directory has
    the entries of the files, every file has its contents and is found under
    its name by the kernel's search of the root directory (unless an earlier
    entry has the same name up to DIRSIZ characters), no two files share a block, all blocks marked used belong to files, and the other inodes are
    free. *)
Record well_made (g : Z -> list Z) (args : list (list Z)) (rs : list (list (list Z))) : Prop := mkWellMade {
  wm_sb : sb_decode (g 1) = sb0;
  wm_log : forall b, 2 <= b < 32 -> g b = zeroes;
  wm_blk : forall b, blk_ok (g b);
  wm_meta : meta_used g sb0;
  wm_root : exists pad, finode g (dinode_of g sb0 ROOTINO) T_DIR ((root_entries args ≫= de_encode) ++ repeat 0 pad) /\
    ((16 * (2 + length args) + pad) mod 1024 = 0)%nat;
  wm_file : forall i r, rs !! i = Some r -> finode g (dinode_of g sb0 (2 + Z.of_nat i)) T_FILE (concat r);
  wm_find : forall k a, args !! k = Some a ->
    (forall de, de ∈ take (2 + k) (root_entries args) -> namecmp (file_name a) (de_name de) <> 0) ->
    dir_find (file_name a) (contents g (dinode_of g sb0 ROOTINO)) = Some ((2 + k)%nat, linked (file_name a) (2 + Z.of_nat k));
  wm_apart : forall i j, 1 <= i <= 1 + Z.of_nat (length rs) -> 1 <= j <= 1 + Z.of_nat (length rs) -> i <> j ->
    apart g (dinode_of g sb0 i) (dinode_of g sb0 j);
  wm_own : forall b, data_blk sb0 b -> is_free g sb0 b = false ->
    exists i, 1 <= i <= 1 + Z.of_nat (length rs) /\ owns g (dinode_of g sb0 i) b;
  wm_free : forall i, i = 0 \/ 1 + Z.of_nat (length rs) < i < 200 -> dinode_of g sb0 i = dinode0
}.

(** The size of the root directory is rounded up to blocks. *)
Definition round_up (n : Z) : Z := (n / BSIZE + 1) * BSIZE.

Lemma grow_finode G d t f :
  finode G d t f -> Z.of_nat (length f) mod BSIZE <> 0 ->
  let n := round_up (Z.of_nat (length f)) in
  finode G (set_size n d) t (f ++ repeat 0 (Z.to_nat n - length f)).
Proof.
  intros HF Hm n. pose proof (finode_size _ _ _ _ HF) as Hsz. destruct HF as [F1 F2 F3 F4 F5 F6].
  assert (Ea : di_addrs (set_size n d) = di_addrs d) by done.
  assert (Hn : Z.of_nat (length f) <= n <= MAXFILE * BSIZE /\ 0 <= n).
  { destruct F2 as [H0 _]. unfold n, round_up. csz. split; [|dlia]. split; dlia. }
  assert (Hz : sized G (set_size n d)).
  { split; [cbn [di_size set_size]; lia|]. intros x Hx. cbn [di_size set_size] in Hx. rewrite (faddr_addrs _ _ _ _ Ea).
    destruct (Z.lt_ge_cases x (di_size d)) as [Hl|Hl]; [apply F2; lia|].
    destruct (reaches_sized G d F1 F2) as [Hr _]. rewrite Hsz in Hr. replace (x / BSIZE) with (Z.of_nat (length f) / BSIZE); [by apply Hr|].
    unfold n, round_up in Hx. csz. dlia. }
  split; try done.
  - by apply (file_ok_addrs sb0 G d).
  - apply list_eq. intros k. rewrite contents_lookup by done. cbn [di_size set_size]. rewrite (fget_addrs _ _ _ _ Ea).
    destruct (decide (k < length f)%nat) as [Hk|Hk].
    + rewrite lookup_app_l, decide_True by lia. rewrite <-F3, contents_lookup by done. by rewrite decide_True by lia.
    + rewrite lookup_app_r by lia. case_decide as Hk2.
      * rewrite F4 by lia. rewrite nth_Some by (rewrite repeat_length; lia). by rewrite nth_repeat.
      * symmetry. apply lookup_ge_None_2. rewrite repeat_length. lia.
  - intros x Hx. cbn [di_size set_size] in Hx. rewrite (fget_addrs _ _ _ _ Ea). apply F4. lia.
Qed.

Lemma apart_cong g d d2 g' d' d2' :
  ind d' = ind d -> ind d2' = ind d2 -> (forall bn, faddr g' d' bn = faddr g d bn) -> (forall bn, faddr g' d2' bn = faddr g d2 bn) ->
  apart g d d2 -> apart g' d' d2'.
Proof.
  intros E1 E2 E3 E4 [A1 A2]. split.
  - intros bn Hb. rewrite E4, E1. intros Hn. destruct (A1 bn Hb Hn) as [B1 B2]. split; [done|]. intros bn' Hb'. rewrite E3. auto.
  - rewrite E1, E2. intros Hn. destruct (A2 Hn) as [B1 B2]. split; [done|]. intros bn' Hb'. rewrite E3. auto.
Qed.

Lemma cost_round n : 0 <= n <= MAXFILE * BSIZE -> n mod BSIZE <> 0 -> cost (round_up n) = cost n.
Proof.
  intros H Hn. unfold cost, round_up. csz. replace ((n / 1024 + 1) * 1024 + 1024 - 1) with (n / 1024 * 1024 + 2047) by lia.
  destruct (Z.ltb_spec (12 * 1024) n), (Z.ltb_spec (12 * 1024) ((n / 1024 + 1) * 1024)); dlia.
Qed.

(** Rounding up the size of the first file, the root directory. *)
Lemma image_resize G s t f fs s1 :
  let d := dinode_of G sb0 1 in let n := round_up (Z.of_nat (length f)) in let G1 := iupdated sb0 1 (set_size n d) G in
  image G s ((t, f) :: fs) -> Z.of_nat (length f) mod BSIZE <> 0 -> sim G1 s1 -> mk_freeinode s1 = mk_freeinode s ->
  mk_freeblock s1 = mk_freeblock s -> image G1 s1 ((t, f ++ repeat 0 (Z.to_nat n - length f)) :: fs).
Proof.
  intros d n G1 [Hs Hn Hlen Hfile Hap Hown Hfree Hfix Hcost] Hmod S1 E1 E2. pose proof (sim_meta _ _ Hs) as Hm.
  pose proof (Hfile 0%nat _ eq_refl) as HF. cbn [fst snd] in HF. change (nth_inode G 0) with d in HF.
  pose proof (grow_finode G d t f HF Hmod) as HG. cbv zeta in HG. fold n in HG. set (d' := set_size n d) in *.
  assert (Hi : 0 <= 1 < 200) by lia. destruct (inode_block 1 Hi) as [Hib _].
  assert (Hsz : 0 <= n <= MAXFILE * BSIZE) by (destruct (fi_sized _ _ _ _ HG); done).
  assert (Hwf : dinode_wf d').
  { apply (file_ok_wf G sb0 d' sb0_ok); [apply HG|by eapply finode_short|]. cbn [di_size d' set_size]. csz. lia. }
  assert (Ed : nth_inode G1 0 = d') by (apply (iupdated_same sb0 1 d' G sb0_ok Hi Hwf); apply Hs).
  assert (Eo : forall j, 0 <= j -> j <> 1 -> dinode_of G1 sb0 j = dinode_of G sb0 j).
  { intros j Hj Hne. apply (iupdated_other sb0 1 j d' G sb0_ok Hi Hj Hne); [apply Hwf|apply Hs]. }
  assert (En : forall j, nth_inode G1 (S j) = nth_inode G (S j)) by (intros j; apply Eo; lia).
  assert (Hx : forall e, file_ok G sb0 e -> file_ok G1 sb0 e /\ (forall bn, faddr G1 e bn = faddr G e bn) /\
    forall x, 0 <= x < MAXFILE * BSIZE -> fget G1 e x = fget G e x) by (intros e He; by apply inode_other).
  assert (Hsame : forall j, (j < length ((t, f) :: fs))%nat -> ind (nth_inode G1 j) = ind (nth_inode G j) /\
    forall bn, faddr G1 (nth_inode G1 j) bn = faddr G (nth_inode G j) bn).
  { intros j Hj. destruct (lookup_lt_is_Some_2 _ j Hj) as [y Hy]. destruct (Hx _ (fi_file _ _ _ _ (Hfile j y Hy))) as (_ & Ef & _).
    destruct j as [|j]; [|by rewrite En]. rewrite Ed. split; [done|]. intros bn. rewrite <-Ef. done. }
  split; [exact S1| |exact Hlen| | | | | |].
  - rewrite E1. exact Hn.
  - intros j x Hj. destruct j as [|j].
    + injection Hj as <-. rewrite Ed. destruct (Hx d' (fi_file _ _ _ _ HG)) as (F' & Ef & Eg). by eapply finode_ext.
    + rewrite En. pose proof (Hfile (S j) x Hj) as HFj. destruct (Hx _ (fi_file _ _ _ _ HFj)) as (F' & Ef & Eg). by eapply finode_ext.
  - intros j k Hj Hk Hjk. destruct (Hsame j Hj) as [A1 A2]. destruct (Hsame k Hk) as [B1 B2].
    exact (apart_cong G _ _ G1 _ _ A1 B1 A2 B2 (Hap j k Hj Hk Hjk)).
  - intros b Hd Hu. assert (Hu' : is_free G sb0 b = false).
    { revert Hu. unfold is_free, G1, iupdated. rewrite upd_ne; [done|]. change (sb_bmapstart sb0) with 45. lia. }
    destruct (Hown b Hd Hu') as (j & Hj & Ho). exists j. split; [done|]. destruct (Hsame j Hj) as [A1 A2].
    destruct Ho as [E|(bn & Hb & E)]; [left; by rewrite A1|right]. exists bn. split; [done|]. by rewrite A2.
  - intros j Hj. rewrite Eo by (cbn [length] in Hj; lia). by apply Hfree.
  - intros b Hb. unfold G1, iupdated. rewrite upd_ne by lia. by apply Hfix.
  - rewrite E2. cbn [total foldr snd] in Hcost |- *. rewrite length_app, repeat_length.
    replace (Z.of_nat (length f + (Z.to_nat n - length f))) with n; [unfold n; rewrite cost_round; [done| |done]|].
    + pose proof (finode_size _ _ _ _ HF). destruct (fi_sized _ _ _ _ HF). lia.
    + unfold n, round_up in *. csz. dlia.
Qed.

Lemma image_well_made G s args rs pad :
  image G s ((T_DIR, (root_entries args ≫= de_encode) ++ repeat 0 pad) :: ((fun r => (T_FILE, concat r)) <$> rs)) ->
  ((16 * (2 + length args) + pad) mod 1024 = 0)%nat -> (length args <= 198)%nat -> Forall (Forall (fun c => 0 < c < 256)) args ->
  well_made G args rs.
Proof.
  intros [Hs Hn Hlen Hfile Hap Hown Hfree Hfix Hcost] Hpad Hl Hch. cbn [length] in *. rewrite length_fmap in *.
  assert (Ei : forall j, 1 <= j -> dinode_of G sb0 j = nth_inode G (Z.to_nat (j - 1))) by (intros j Hj; unfold nth_inode; f_equal; lia).
  split.
  - rewrite Hfix by lia. apply sb_block.
  - intros b Hb. rewrite Hfix by lia. unfold fixed_block. by bfalse (b =? 1).
  - apply Hs.
  - by eapply sim_meta.
  - exists pad. split; [|done]. apply (Hfile 0%nat _ eq_refl).
  - intros i r Hr. rewrite Ei by lia. replace (Z.to_nat (2 + Z.of_nat i - 1)) with (S i) by lia.
    apply (Hfile (S i) (T_FILE, concat r)). change (((fun r => (T_FILE, concat r)) <$> rs) !! i = Some (T_FILE, concat r)).
    by rewrite list_lookup_fmap, Hr.
  - intros k a Hk Hfirst. change (dinode_of G sb0 ROOTINO) with (nth_inode G 0). rewrite (fi_contents _ _ _ _ (Hfile 0%nat _ eq_refl)).
    cbn [snd]. apply root_find; try done. by apply (Forall_lookup_1 _ _ _ _ Hch Hk).
  - intros i j Hi Hj Hij. rewrite !Ei by lia. apply Hap; lia.
  - intros b Hd Hu. destruct (Hown b Hd Hu) as (i & Hil & Ho). exists (1 + Z.of_nat i). split; [lia|]. exact Ho.
  - intros i Hi. apply Hfree. lia.
Qed.

Lemma fix_root_ok G s args rs :
  image G s (made args rs) -> (2 + Z.of_nat (length args)) mod 64 <> 0 -> (length args <= 198)%nat ->
  Forall (Forall (fun c => 0 < c < 256)) args -> exists G' s', fix_root false 1 s = MkRet tt s' /\ well_made G' args rs /\ sim G' s'.
Proof.
  intros I H64 Hl Hch. pose proof (im_sim _ _ _ I) as Hs. pose proof (im_file _ _ _ I 0%nat _ eq_refl) as HF. cbn [fst snd] in HF.
  change (nth_inode G 0) with (dinode_of G sb0 1) in HF. pose proof (finode_size _ _ _ _ HF) as Hsz.
  pose proof (root_length args) as Hrl. set (root := root_entries args ≫= de_encode) in *. set (d := dinode_of G sb0 1) in *.
  set (n := round_up (Z.of_nat (length root))).
  assert (Hn : 0 <= n <= 4096) by (unfold n, round_up; rewrite Hrl; csz; dlia).
  destruct (winode_ok G s 1 (set_size n d) Hs) as (s1 & R & S1 & E1 & E2); [lia|apply (fo_len _ _ _ (fi_file _ _ _ _ HF))|].
  exists (iupdated sb0 1 (set_size n d) G), s1. split_and!; [|eapply image_well_made; [| |exact Hl|exact Hch]|exact S1].
  - unfold fix_root, mbind, MK_bind. rewrite (rinode_ok G) by (done || lia). fold d. rewrite Hsz, (xint_le (Z.of_nat _)) by lia.
    change ((Z.of_nat (length root) / BSIZE + 1) * BSIZE) with n. by rewrite u32_small, xint_le by lia.
  - apply (image_resize G s T_DIR root); try done. rewrite Hrl. csz. dlia.
  - rewrite <-Hrl. fold n. replace (length root + (Z.to_nat n - length root))%nat with (Z.to_nat (Z.of_nat (length root) / 1024 + 1) * 1024)%nat.
    + apply Nat.Div0.mod_mul.
    + unfold n, round_up. csz. dlia.
Qed.

Lemma balloc_ok' G s : sim G s -> exists s', mk_balloc (mk_freeblock s) s = MkRet tt s' /\ forall b, blk s' b = G b.
Proof.
  intros [H1 He Hf Hi Hz Hk]. exists (put 45 (used_map (mk_freeblock s)) s). split.
  - unfold mk_balloc, mk_assert, mk_gets, mbind, MK_bind. unfold BSIZE. btrue (mk_freeblock s <? 1024 * 8). rewrite H1.
    change (sb_bmapstart sb0) with 45. unfold wsect, put. change (seek 45) with 45. by rewrite He.
  - intros b. rewrite Hi. unfold blk, disk_read, image_of, put. cbn [mk_img set_img dk_blocks]. rewrite lookup_insert.
    destruct (Z.eqb_spec b 45) as [->|Hb]; [by rewrite decide_True|by rewrite decide_False].
Qed.

Lemma mkfs_ok creat host_open prog img args rs :
  creat img = true -> Forall2 (input_ok host_open) args rs -> (length args <= 198)%nat ->
  (2 + Z.of_nat (length args)) mod 64 <> 0 -> 46 + total (made args rs) <= 1000 ->
  exists s g, mkfs_main false creat host_open (prog :: img :: args) mk_start = MkExit 0 s /\
    (forall b, disk_read (image_of s) b = g b) /\ well_made g args rs.
Proof.
  intros Hc Hin Hl H64 Ht. destruct layout_ok as (G0 & s0 & R0 & I0).
  destruct (add_files_ok host_open args rs G0 s0 [] [] Hin I0 eq_refl Hl Ht) as (G1 & s1 & R1 & I1).
  assert (Hch : Forall (Forall (fun c => 0 < c < 256)) args) by (clear -Hin; induction Hin as [|a r ? ? []]; by constructor).
  destruct (fix_root_ok G1 s1 args rs I1 H64 Hl Hch) as (G2 & s2 & R2 & W & S2). pose proof (sm_fb _ _ S2).
  destruct (balloc_ok' G2 s2 S2) as (s3 & R3 & Eb). exists s3, G2. split_and!; [|exact Eb|exact W].
  unfold mkfs_main. rewrite Hc. cbn [negb]. unfold mbind, MK_bind. rewrite R0, R1, R2. unfold mk_gets. rewrite s32_small by lia. by rewrite R3.
Qed.

(** C11: mkfs on a little-endian host: when the files can be opened, have names
    without slash and fit on the disk, are at most 198, and the root directory
    does not end at a block boundary, mkfs exits with status 0 and the image is
    a file system of the kernel that holds exactly these files. *)
Theorem mkfs_spec creat host_open prog img args rs :
  creat img = true -> Forall2 (input_ok host_open) args rs -> (length args <= 198)%nat ->
  (2 + Z.of_nat (length args)) mod 64 <> 0 -> 46 + total (made args rs) <= 1000 ->
  exists s g, mkfs_main false creat host_open (prog :: img :: args) mk_start = MkExit 0 s /\
    (forall b, disk_read (image_of s) b = g b) /\ well_made g args rs.
Proof. apply mkfs_ok. Qed.

(** A little-endian host with two files. *)
Definition ex_host (a : list Z) : option (list (list Z)) := Some [str "hello "; str "world"].
Definition ex_args : list (list Z) := [str "README"; str "user/_cat"].

Lemma ex_input a :
  forallb (fun c => (0 <? c) && (c <? 256)) a && negb (existsb (Z.eqb 47) (shortname a)) = true ->
  input_ok ex_host a [str "hello "; str "world"].
Proof.
  intros [H1 H2]%andb_prop. split; [reflexivity| | |by repeat constructor| |done].
  - apply Forall_forall. intros c Hc%list_elem_of_In. apply forallb_forall with (x := c) in H1; [lia|done].
  - intros Hi%list_elem_of_In. apply negb_true_iff in H2. rewrite (proj2 (existsb_exists _ _)) in H2; [done|]. exists 47. auto using Z.eqb_refl.
  - apply FsSpec.Example.byte_list. reflexivity.
Qed.

Lemma mkfs_spec_witness :
  exists s g, mkfs_main false (fun _ => true) ex_host (str "mkfs" :: str "fs.img" :: ex_args) mk_start = MkExit 0 s /\
    (forall b, disk_read (image_of s) b = g b) /\ well_made g ex_args [[str "hello "; str "world"]; [str "hello "; str "world"]].
Proof.
  apply (mkfs_spec (fun _ => true) ex_host (str "mkfs") (str "fs.img") ex_args); [reflexivity| |cbn; lia|done|done].
  by constructor; [apply ex_input|constructor; [apply ex_input|constructor]].
Defined.

(** ** What goes wrong *)

(** The host's files are empty. *)
Definition empty_host (a : list Z) : option (list (list Z)) := Some [].
Definition run_mkfs (be : bool) (n : nat) : option (Z -> list Z) :=
  match mkfs_main be (fun _ => true) empty_host (str "mkfs" :: str "fs.img" :: repeat (str "a") n) mk_start with
  | MkExit 0 s => Some (disk_read (image_of s))
  | _ => None
  end.

Lemma run_fact {A} (f : (Z -> list Z) -> A) (r : option (Z -> list Z)) v :
  option_map f r = Some v -> exists g, r = Some g /\ f g = v.
Proof. destruct r as [g|]; [|done]. intros E. injection E as E. by exists g. Qed.

(** With 62 files the entries of the root directory fill a block, and rounding
    up its size adds a block that the directory does not have. *)
Theorem mkfs_root_hole : exists g, run_mkfs false 62 = Some g /\
  di_size (dinode_of g sb0 ROOTINO) = 2048 /\ ~ sized g (dinode_of g sb0 ROOTINO).
Proof.
  destruct (run_fact (fun g => (di_size (dinode_of g sb0 ROOTINO), faddr g (dinode_of g sb0 ROOTINO) 1)) (run_mkfs false 62) (2048, 0))
    as (g & E & H); [vm_compute; reflexivity|]. pose proof (f_equal fst H) as H1. pose proof (f_equal snd H) as H2. cbn [fst snd] in H1, H2.
  exists g. split; [exact E|]. split; [exact H1|]. intros [_ Hz]. apply (Hz 1024); [rewrite H1; lia|exact H2].
Qed.

(** On a big-endian host mkfs succeeds, but the image has no inodes, and its
    magic number is not the kernel's: IBLOCK uses [sb.inodestart], which is in
    the byte order of the disk, and the magic number is not converted. *)
Theorem mkfs_big_endian : exists g, run_mkfs true 0 = Some g /\
  dinode_of g sb0 ROOTINO = dinode0 /\ sb_magic (sb_decode (g 1)) <> FSMAGIC.
Proof.
  destruct (run_fact (fun g => (dinode_of g sb0 ROOTINO, sb_magic (sb_decode (g 1)))) (run_mkfs true 0) (dinode0, 0x40302010))
    as (g & E & H); [vm_compute; reflexivity|]. pose proof (f_equal fst H) as H1. pose proof (f_equal snd H) as H2. cbn [fst snd] in H1, H2.
  exists g. split; [exact E|]. split; [exact H1|]. rewrite H2. discriminate.
Qed.

(** The number of inodes is not checked: the 199th file gets an inode number
    that the kernel does not use. *)
Theorem mkfs_too_many : exists g, run_mkfs false 199 = Some g /\
  di_type (dinode_of g sb0 200) = T_FILE /\ sb_ninodes (sb_decode (g 1)) = 200.
Proof.
  destruct (run_fact (fun g => (di_type (dinode_of g sb0 200), sb_ninodes (sb_decode (g 1)))) (run_mkfs false 199) (T_FILE, 200))
    as (g & E & H); [vm_compute; reflexivity|]. pose proof (f_equal fst H) as H1. pose proof (f_equal snd H) as H2. cbn [fst snd] in H1, H2.
  exists g. split; [exact E|]. split; [exact H1|exact H2].
Qed.
