(* ===== verification/FsBoot.v ===== *)
(** * From the image to the files: mkfs, boot and path names together

    What main and forkret do to the file system at boot ([fs_boot]) from any
    disk with a recoverable log, and the composition with mkfs.c: a file given
    to mkfs is read back, under its name, by the kernel that boots from the
    image. *)

From Stdlib Require Import ZArith Lia.
From stdpp Require Import base gmap list numbers strings.
From S2P Require Import Prelude Riscv Core Spinlock Wp Kstring Kalloc Vm Sleeplock Bio BioAbs Log LogOps Fs FsTx FsBitmap FsFile FsIo FsWrite FsInode FsDir FsSpec FsPath Printf Mkfs MkfsSpec.
Local Open Scope Z_scope.

(** ** Boot *)

(** The globals of bio.c, log.c and fs.c before main runs. *)
Definition log0 : log := mkLog 0 0 0 0 0 0 (repeat 0 30).
Definition itable0 : list inode := repeat inode0 (Z.to_nat NINODE).
Definition fs_state0 (dk : disk) (km : kmem) : fsst :=
  mkFsst (mkSuperblock 0 0 0 0 0 0 0 0) itable0 (mkLogst log0 (bcache0 dk)) km.

(** The calls of main.c and forkret that set up the file system. *)
Definition fs_boot : M fsst unit :=
  _ ← fbio binit;
  _ ← iinit;
  fsinit ROOTDEV.

(** The inode locks are made, other locks stay. *)
Record itable_locks (n : nat) (c c' : core) : Prop := mkItableLocks {
  il_wf : core_wf c -> core_wf c';
  il_proc : c_proc c' = c_proc c;
  il_locks : forall lk, lk <> LkItable -> (forall i, lk <> LkSleep (SlInode i)) -> c_locks c' !! lk = c_locks c !! lk;
  il_slocks : forall i, c_slocks c' !! SlBuf i = c_slocks c !! SlBuf i;
  il_table : lock_free LkItable c';
  il_free : forall i, (i < n)%nat -> slock_free (SlInode i) c'
}.

Lemma initsleeplock_locks n c c' : itable_locks n c c' ->
  itable_locks (S n) c (set_slock (SlInode n) (mkSleeplock 0 "inode" 0) (set_lock (LkSleep (SlInode n)) (mkSpinlock 0 "sleep lock" None) c')).
Proof.
  intros [H1 H2 H3 H4 H5 H6]. split; try done.
  - intros lk Hn1 Hn2. cbn. rewrite lookup_insert_ne; [by apply H3|]. intros E. by apply (Hn2 n).
  - intros i. cbn. by rewrite lookup_insert_ne.
  - destruct H5 as [nm H5]. exists nm. cbn. by rewrite lookup_insert_ne.
  - intros i Hi. unfold slock_free, lock_free. cbn. destruct (decide (i = n)) as [->|Hne]; [rewrite !lookup_insert_eq; eauto|].
    rewrite !lookup_insert_ne by congruence. apply H6. lia.
Qed.

Lemma iinit_ok {s : fsst} c : exists c', iinit c s = Ok tt c' s /\ itable_locks (Z.to_nat NINODE) c c'.
Proof.
  unfold iinit, initlock at 1. change (modifyc ?f ≫= ?k) with (modifyc f ≫= k). unfold mbind at 1, M_bind, modifyc at 1.
  set (c1 := set_lock LkItable _ c). generalize (Z.to_nat NINODE). intros n. induction n as [|n (c' & Hr & Hl)].
  - exists c1. split; [done|]. split; try done; [|by eexists; apply lookup_insert_eq|lia].
    intros lk Hne _. unfold c1, set_lock. cbn. by rewrite lookup_insert_ne.
  - eexists. split; [|by apply initsleeplock_locks]. rewrite seq_S, forM_app. erewrite bind_ok by exact Hr. done.
Qed.

Lemma itable_locks_bio n c c' : itable_locks n c c' -> bio_core c -> bio_core c'.
Proof.
  intros [H1 H2 H3 H4 H5 H6] (B1 & B2 & B3 & B4). split_and!; [auto| | |by rewrite H2].
  - destruct B2 as [nm B2]. exists nm. by rewrite H3.
  - intros i Hi. destruct (B3 i Hi) as [[nm L1] [nm' L2]]. split; [exists nm; by rewrite H3|exists nm'; by rewrite H4].
Qed.

(** The fields of the log that recovery does not touch. *)
Definition log_rest (s : logst) : Z * Z * nat := let l := ls_log s in (lg_outstanding l, lg_committing l, length (lh_block l)).

Lemma keeps_rest {A} (m : M logst A) : keeps ls_log m -> keeps log_rest m.
Proof. intros H c s a c' s' E. unfold log_rest. by rewrite (H _ _ _ _ _ E). Qed.

Lemma keeps_recover : keeps log_rest recover_from_log.
Proof.
  unfold recover_from_log. apply keeps_bind; [|intros _].
  - unfold read_head. apply keeps_bind; [apply keeps_gets|intros l]. apply keeps_bind; [apply keeps_rest, keeps_bio|intros b].
    apply keeps_bind; [apply keeps_gets|intros x]. apply keeps_bind; [by apply keeps_modify|intros _].
    apply keeps_bind; [|intros _; apply keeps_rest, keeps_bio]. apply keeps_forM. intros i. case_match; [|by intros ? ? ? ? ?].
    apply keeps_modify. intros s. unfold log_rest. cbn. by rewrite length_insert.
  - apply keeps_bind; [apply keeps_rest, keeps_install|intros _]. apply keeps_bind; [by apply keeps_modify|intros _].
    apply keeps_rest, keeps_write_head.
Qed.

Section boot.
Context (dk : disk) (km : kmem) (sb : superblock).
Hypothesis (Hblk : forall b, blk_ok (disk_read dk b)).
Hypothesis (Hsb : sb_decode (disk_read dk 1) = sb) (Hmagic : sb_magic sb = FSMAGIC).
Hypothesis (Hhead : head_ok (sb_logstart sb) (sb_nlog sb) dk).

(** The disk after recovery. *)
Definition recovered : disk := writes dk (recover_writes (sb_logstart sb) dk).

Notation unused_cache bc d := (abs ROOTDEV bc (fun _ => 0) (disk_read d) d).
Definition with_log (l : log) (bc : bcache) (s : fsst) : fsst := mkFsst (fs_sb s) (fs_itable s) (mkLogst l bc) (fs_kmem s).

Lemma flog_run {A} (m : M logst A) c (s : fsst) a c' ls :
  m c (fs_log s) = Ok a c' ls -> flog m c s = Ok a c' (mkFsst (fs_sb s) (fs_itable s) ls (fs_kmem s)).
Proof. intros H. unfold flog. by rewrite (lift_ok fs_logl m c s a c' ls H). Qed.

Lemma fbio_run {A} (m : M bcache A) c (s : fsst) a c' bc :
  m c (ls_bio (fs_log s)) = Ok a c' bc -> fbio m c s = Ok a c' (with_log (ls_log (fs_log s)) bc s).
Proof. intros H. apply flog_run. by apply bio_ok. Qed.

Lemma readsb_ok c s : bio_core c -> unused_cache (ls_bio (fs_log s)) dk ->
  exists bc tr, readsb ROOTDEV c s = Ok sb (woke tr c) (with_log (ls_log (fs_log s)) bc s) /\ unused_cache bc dk.
Proof.
  intros Hc Ha. destruct (bread_abs ROOTDEV [] c (ls_bio (fs_log s)) (fun _ => 0) (disk_read dk) dk 1) as (i & t1 & Hb1 & Ho1 & Ha1); auto.
  { apply opened_nil. } { apply not_elem_of_nil. } { lia. }
  { right. exists []. split; [lia|]. unfold HEAD, NBUF, MAXOPBLOCKS. simpl. lia. }
  destruct (handle_data ROOTDEV t1 _ _ _ _ i 1 Ha1 Ho1) as (Hdi & _ & _); [by left|].
  destruct (brelse_abs ROOTDEV c t1 [] _ _ _ i _ Hc Ha1 Ho1) as (t2 & tr & Hr2 & Ho2 & Ha2); [done|].
  exists t2, tr. split.
  - unfold readsb. erewrite bind_ok by (apply fbio_run; exact Hb1). unfold bdata.
    erewrite bind_ok by (apply fbio_run; reflexivity). cbn [ls_bio with_log fs_log ls_log]. erewrite bind_ok by (apply fbio_run; exact Hr2).
    cbn [ls_bio with_log fs_log ls_log]. rewrite Hdi, Hsb. done.
  - eapply abs_eq; [exact Ha2| |done]. intros b. rewrite upd_eq. unfold upd. by destruct (b =? 1).
Qed.

(** The log is empty and no system call is in progress. *)
Definition log_idle (l : log) : Prop := lg_outstanding l = 0 /\ lg_committing l = 0.

Lemma initlog_ok c s : bio_core c -> unused_cache (ls_bio s) dk -> log_rest s = (0, 0, 30%nat) ->
  let c1 := set_lock LkLog (mkSpinlock 0 "log" None) c in
  exists s' tr, initlog ROOTDEV sb c s = Ok tt (woke tr c1) s' /\ log_rest s' = (0, 0, 30%nat) /\ lh_n (ls_log s') = 0 /\
    lg_size (ls_log s') = sb_nlog sb /\ unused_cache (ls_bio s') recovered.
Proof.
  intros Hc Ha Hl c1. unfold initlog. change (4 + 4 * LOGSIZE >=? BSIZE) with false. cbv iota.
  unfold initlock, mbind, M_bind, modifyc, modify. fold c1.
  set (s1 := upd_log _ s). assert (Hc1 : bio_core c1).
  { destruct Hc as (H1 & [nm H2] & H3 & H4). split_and!; [done| | |done].
    - exists nm. unfold c1. cbn. by rewrite lookup_insert_ne.
    - intros i Hi. destruct (H3 i Hi) as [[nm' H5] H6]. split; [|done]. exists nm'. unfold c1. cbn. by rewrite lookup_insert_ne. }
  assert (Hl1 : log_rest s1 = (0, 0, 30%nat)) by (unfold log_rest, s1 in *; cbn; congruence).
  destruct (recover_ok ROOTDEV c1 s1 dk (sb_logstart sb) (sb_nlog sb) Hc1) as (s' & tr & Hr & H1 & H2 & H3 & _ & H5 & _); [|done|].
  { split_and!; try done. unfold log_rest in Hl1. congruence. }
  exists s', tr. pose proof (keeps_recover _ _ _ _ _ Hr). split_and!; [done|congruence|done|done|].
  rewrite H2 in H3. exact H3.
Qed.

Lemma bio_core_log c : bio_core (set_lock LkLog (mkSpinlock 0 "log" None) c) <-> bio_core c.
Proof.
  unfold bio_core, lock_free, slock_free, lock_free, set_lock. cbn.
  setoid_rewrite lookup_insert_ne; [|done..]. done.
Qed.

(** Booting from a disk with a recoverable log: the file system is that of
    the recovered disk, no inode is in memory and the locks are free. *)
Lemma fs_boot_ok c : core_wf c -> is_Some (c_proc c) ->
  exists cb c' s', fs_boot c (fs_state0 dk km) = Ok tt c' s' /\ fs_core cb /\ c_proc cb = c_proc c /\
    (forall ip, (ip < Z.to_nat NINODE)%nat -> slock_free (SlInode ip) cb) /\ log_idle (ls_log (fs_log s')) /\
    ftx ROOTDEV (sb_nlog sb) 0 recovered cb [] [] ∅ (disk_read recovered) sb itable0 km c' s'.
Proof.
  intros Hwf Hp. destruct (binit_ok ROOTDEV c dk Hwf Hp ltac:(done) Hblk) as (c1 & bc1 & R1 & Hb1 & Hp1 & _ & Ha1).
  destruct (@iinit_ok (with_log log0 bc1 (fs_state0 dk km)) c1) as (c2 & R2 & Hi2). pose proof (itable_locks_bio _ _ _ Hi2 Hb1) as Hb2.
  destruct (readsb_ok c2 (with_log log0 bc1 (fs_state0 dk km)) Hb2 Ha1) as (bc3 & tr3 & R3 & Ha3).
  set (s4 := set_sb sb (with_log log0 bc3 (fs_state0 dk km))).
  destruct (initlog_ok (woke tr3 c2) (fs_log s4)) as (s' & tr & R4 & Hr & Hn & Hz & Ha); [by apply bio_core_woke|done|done|].
  set (cb := set_lock LkLog (mkSpinlock 0 "log" None) c2). change (set_lock LkLog _ (woke tr3 c2)) with (woke tr3 cb) in R4.
  unfold log_rest in Hr. injection Hr as E1 E2 E3.
  exists cb, (woke tr (woke tr3 cb)), (mkFsst sb itable0 s' km). split_and!; try done.
  - unfold fs_boot. erewrite bind_ok by (apply (fbio_run binit c (fs_state0 dk km)); exact R1). cbn [fs_state0 fs_log ls_log].
    erewrite bind_ok by exact R2. unfold fsinit. erewrite bind_ok by exact R3.
    rewrite bind_modify, Hmagic. cbn [negb]. change (FSMAGIC =? FSMAGIC) with true. cbn [negb]. apply (flog_run _ _ s4), R4.
  - split; [by apply bio_core_log|by eexists; apply lookup_insert_eq|]. destruct (il_table _ _ _ Hi2) as [nm H]. exists nm.
    unfold cb. cbn. by rewrite lookup_insert_ne.
  - exact (eq_trans (il_proc _ _ _ Hi2) Hp1).
  - intros ip Hip. destruct (il_free _ _ _ Hi2 ip Hip) as [[nm H] H']. split; [|done]. exists nm. unfold cb. cbn. by rewrite lookup_insert_ne.
  - unfold ftx. split_and!; try done. exists (tr3 ++ tr), (fun _ => 0). cbn [fs_log]. assert (Eh : homes (ls_log s') = []) by (unfold homes; by rewrite Hn).
    rewrite Eh, Hn. split_and!; try done; [by rewrite woke_woke|apply opened_nil|constructor|constructor].
Qed.
End boot.

(** The first system call enters a transaction. *)
Lemma begin_op_ok dv SZ dk cb g sb it km c s :
  fs_core cb -> log_idle (ls_log (fs_log s)) -> ftx dv SZ 0 dk cb [] [] ∅ g sb it km c s ->
  wp (flog begin_op) c s (fun _ c' s' => ftx dv SZ 1 dk cb [] [] ∅ g sb it km c' s').
Proof.
  intros Hc [Ho Hcm] (E1 & E2 & E3 & tr & f & -> & Ha & Hop & Hnd & Hf & Hh & HL & Hn & Hlen & Hsz & Hout & Hcl).
  pose proof (homes_size ∅ _ Hh HL Hn) as Hn0. rewrite size_empty in Hn0.
  destruct (fc_bio _ Hc) as (Hwf & _). cbn [holds foldr fmap list_fmap]. apply wp_flog. unfold begin_op.
  eapply wp_bind_ok; [apply acquire_free, lock_free_woke, Hc|]. wgets. rewrite Hcm, Ho. cbn [negb].
  change (0 =? 0) with true. cbn [negb]. rewrite Z.gtb_ltb, (proj2 (Z.ltb_ge _ _)) by (unfold LOGSIZE, MAXOPBLOCKS; lia). wmod.
  eexists _, _, _. split; [apply release_hold; [by apply woke_wf|apply lock_free_woke, Hc]|].
  split_and!; try done. exists tr, f. cbn. split_and!; try done. lia.
Qed.

(** ** The image of mkfs *)

Section image.
Context (g : Z -> list Z) (args : list (list Z)) (rs : list (list (list Z))).
Hypothesis (Hwm : well_made g args rs) (Hlen : length args = length rs) (Hmax : (length args <= 198)%nat).

(** The inodes that mkfs allocates. *)
Definition allocated (i : Z) : Prop := 1 <= i <= 1 + Z.of_nat (length rs).

Lemma padding_free args' pad k : (2 + length args' <= k)%nat ->
  de_inum (dirent_at ((root_entries args' ≫= de_encode) ++ repeat 0 pad) k) = 0.
Proof.
  intros Hk. unfold dirent_at, de_decode. cbn [de_inum]. unfold ld16.
  assert (Forall (fun x => x = 0) (slice 0 2 (slice (16 * k) 16 ((root_entries args' ≫= de_encode) ++ repeat 0 pad)))) as H.
  { unfold slice. rewrite drop_0, drop_app_ge by (rewrite root_length; lia). do 2 apply Forall_take. apply Forall_drop, Forall_forall.
    intros x Hx%list_elem_of_In. by apply repeat_spec in Hx. }
  revert H. generalize (slice 0 2 (slice (16 * k) 16 ((root_entries args' ≫= de_encode) ++ repeat 0 pad))). intros l H.
  induction H as [|x l -> _ IH]; [done|]. cbn. by rewrite IH.
Qed.

Lemma root_entry_allocated k de : root_entries args !! k = Some de -> allocated (de_inum de).
Proof.
  unfold allocated. destruct k as [|[|k]]; [intros [= <-]; cbn; lia..|]. unfold root_entries. cbn [lookup list_lookup].
  change (imap (fun k a => linked (file_name a) (2 + Z.of_nat k)) args !! k = Some de -> 1 <= de_inum de <= 1 + Z.of_nat (length rs)).
  rewrite list_lookup_imap. destruct (args !! k) as [a|] eqn:E; [|done]. intros [= <-]. apply lookup_lt_Some in E. cbn. lia.
Qed.

(** The image is closed under following directory entries. *)
Lemma image_live : live sb0 g allocated.
Proof.
  intros i Hi d. destruct (decide (i = 1)) as [->|Hne].
  - destruct (wm_root _ _ _ Hwm) as (pad & Hf & Hpad). change (dinode_of g sb0 ROOTINO) with d in Hf.
    pose proof (fi_fields _ _ _ _ Hf) as E. assert (E1 : di_type d = T_DIR) by exact (f_equal (fun x => x.1.1.1) E).
    assert (E4 : di_nlink d = 1) by exact (f_equal snd E). split_and!; [rewrite E1; done|rewrite E4; done|]. intros _.
    pose proof (fi_contents _ _ _ _ Hf) as Hct. split_and!; [apply Hf| |].
    + pose proof (contents_length g d) as Hl. rewrite Hct, length_app, root_length, repeat_length in Hl. destruct (fi_sized _ _ _ _ Hf) as [Hs _].
      apply Nat.Div0.mod_divides in Hpad as [q Hq]. exists (64 * q)%nat. lia.
    + intros de [k Hk]%list_elem_of_lookup Hde. rewrite Hct in Hk. pose proof (lookup_lt_Some _ _ _ Hk) as Hlt. rewrite length_entries in Hlt.
      rewrite entries_lookup in Hk by done. apply (inj Some) in Hk. rewrite <-Hk in *. destruct (decide (2 + length args <= k)%nat) as [Hge|Hl].
      { by rewrite padding_free in Hde. }
      destruct (lookup_lt_is_Some_2 (root_entries args) k) as [e He]; [cbn; rewrite length_imap; lia|].
      rewrite (appended_entry _ k e) by (done || by apply root_entries_wf). by eapply root_entry_allocated.
  - unfold allocated in Hi. destruct (lookup_lt_is_Some_2 rs (Z.to_nat (i - 2))) as [r Hr]; [lia|].
    pose proof (wm_file _ _ _ Hwm _ _ Hr) as Hf. replace (2 + Z.of_nat (Z.to_nat (i - 2))) with i in Hf by lia. fold d in Hf.
    pose proof (fi_fields _ _ _ _ Hf) as E. assert (E1 : di_type d = T_FILE) by exact (f_equal (fun x => x.1.1.1) E).
    assert (E4 : di_nlink d = 1) by exact (f_equal snd E). rewrite E1, E4. by split_and!.
Qed.
End image.

Lemma ftx_ext dv SZ out dk cb H D L g g' sb it km c s :
  (forall b, g b = g' b) -> ftx dv SZ out dk cb H D L g sb it km c s -> ftx dv SZ out dk cb H D L g' sb it km c s.
Proof.
  intros Hg (E1 & E2 & E3 & tr & f & Hc & Ha & Ho & Hnd & Hf & Hh & HL & Hn & Hl & Hs & Hu & Hcl). split_and!; try done.
  exists tr, f. split_and!; try done; [by eapply abs_eq|]. intros b Hb HD. rewrite <-Hg. by apply Hcl.
Qed.

(** Recovery of the empty log changes nothing. *)
Lemma recovered_empty dk sb b : (forall x, sb_logstart sb <= x < sb_logstart sb + 1 -> disk_read dk x = zeroes) ->
  disk_read (recovered dk sb) b = disk_read dk b.
Proof.
  intros Hz. specialize (Hz (sb_logstart sb) ltac:(lia)). unfold recovered, recover_writes. rewrite Hz.
  change (hdr_n zeroes) with 0. cbn [seqZ fmap list_fmap app]. change (seqZ 0 0) with (@nil Z). cbn [fmap list_fmap app].
  change (st32 0 0 zeroes) with zeroes. unfold writes. cbn [fold_left fst snd]. unfold disk_write, disk_read. cbn [dk_blocks].
  destruct (decide (sb_logstart sb = b)) as [<-|Hne]; [|by rewrite lookup_insert_ne]. rewrite lookup_insert_eq. unfold disk_read in Hz. by rewrite Hz.
Qed.

(** The elements of the path of a file in the root directory. *)
Lemma elems_root name : name <> [] -> Forall (fun c => 0 < c < 256) name -> SLASH ∉ name -> elems (SLASH :: name) = [name].
Proof.
  intros Hne Hch Hsl. unfold elems. cbn [elems_from]. change (SLASH =? 0) with false. change (SLASH =? SLASH) with true. cbn [app].
  assert (E : path_elem name = (name, [])).
  { clear Hne. induction name as [|x name IH]; [done|]. inversion Hch; subst. apply not_elem_of_cons in Hsl as [Hs1 Hs2].
    cbn [path_elem]. bfalse (x =? SLASH). bfalse (x =? 0). cbn [negb andb]. by rewrite IH. }
  rewrite elems_path_elem; rewrite E; done.
Qed.

(** Up to [n] bytes from [off] on. *)
Definition file_bytes (l : list Z) (off n : Z) : Z * list Z :=
  let r := Z.max 0 (Z.min n (Z.of_nat (length l) - off)) in (r, slice (Z.to_nat off) (Z.to_nat r) l).

Lemma shortname_slash a : 47 ∉ shortname a -> SLASH ∉ file_name a.
Proof. unfold file_name, skip_underscore. intros H. repeat case_match; try done; subst; set_solver. Qed.

Lemma table0_ready sb g cb : (forall ip, (ip < Z.to_nat NINODE)%nat -> slock_free (SlInode ip) cb) -> table_ready sb g cb itable0.
Proof.
  intros Hsl. assert (H0 : forall ip i, itable0 !! ip = Some i -> i = inode0).
  { intros ip i Hi. apply (repeat_spec (Z.to_nat NINODE)). apply list_elem_of_In. by eapply list_elem_of_lookup_2. }
  split; [split| |].
  - intros ip i ->%H0. cbn. lia.
  - intros ip i ->%H0. cbn. lia.
  - intros a b x y ->%H0 _. cbn. lia.
  - intros ip i ->%H0. cbn. lia.
  - intros ip. apply Hsl.
  - apply Nat.leb_le. vm_compute. reflexivity.
Qed.

Lemma read_file_ok cb dk g args rs k a r km c s :
  fs_core cb -> (forall ip, (ip < Z.to_nat NINODE)%nat -> slock_free (SlInode ip) cb) -> log_idle (ls_log (fs_log s)) ->
  ftx ROOTDEV 30 0 dk cb [] [] ∅ g sb0 itable0 km c s -> well_made g args rs -> length args = length rs -> (length args <= 198)%nat ->
  args !! k = Some a -> rs !! k = Some r -> file_name a <> [] -> Forall (fun c => 0 < c < 256) a -> 47 ∉ shortname a ->
  (forall de, de ∈ take (2 + k) (root_entries args) -> namecmp (file_name a) (de_name de) <> 0) ->
  wp (_ ← flog begin_op; namei (SLASH :: file_name a)) c s (fun x c' s' => exists ip, x = Some ip /\
    wp (ilock ip) c' s' (fun _ c' s' => forall off n, 0 <= off -> 0 <= n -> off + n < 2 ^ 32 ->
      wp (readi ip ToLocal off n) c' s' (fun y _ _ => y = file_bytes (concat r) off n))).
Proof.
  intros Hc Hsl Hid Hf Hwm Hlen Hmax Hk Hr Hne Hch Hs47 Hfirst. pose proof (table0_ready sb0 g cb Hsl) as Ht.
  assert (Hroom : room 30 0 2 ∅) by (by apply FsSpec.Example.room0; lia). pose proof (image_live g args rs Hwm Hlen Hmax) as HP.
  wrun begin_op_ok; [exact Hc|exact Hid|exact Hf|]. intros [] c1 s1 H1. unfold namei.
  apply wp_bind. eapply wp_mono; [eapply (namex_ok 30 1 dk cb sb0 (allocated rs) ∅ g itable0 km c1 s1 (SLASH :: file_name a) false ROOTINO);
    [exact Hc|exact H1|exact Hroom|exact Ht|exact HP|unfold allocated, ROOTINO; lia|done]|].
  assert (Er : resolve sb0 g false ROOTINO (elems (SLASH :: file_name a)) = Some (2 + Z.of_nat k)).
  { rewrite elems_root by (done || by apply file_name_chars || by apply shortname_slash). cbn [resolve walk_path].
    destruct (wm_root _ _ _ Hwm) as (pad & Hfr & _).
    assert (di_type (dinode_of g sb0 ROOTINO) = T_DIR) as -> by exact (f_equal (fun x => x.1.1.1) (fi_fields _ _ _ _ Hfr)).
    by rewrite (wm_find _ _ _ Hwm k a Hk Hfirst). }
  intros x c2 s2 (it2 & H2 & Hok & Htk & Hpost). rewrite Er in Htk, Hpost. destruct Hpost as (ip & Ex & Hs & _). apply wp_ret. exists ip. split; [exact Ex|].
  pose proof (lookup_lt_Some _ _ _ Hr) as Hkl. pose proof (wm_file _ _ _ Hwm k r Hr) as Hfi.
  eapply wp_mono; [eapply (enter_ok ROOTDEV 30 1 dk cb sb0 Hc (allocated rs) ∅ g itable0 km HP Hroom);
    [pose proof (tr_slots _ _ _ _ Ht); lia|exact (tr_free _ _ _ _ Ht)|split_and!; [exact H2|exact Hok|exact Htk|exact Hs|unfold allocated; lia]]|].
  intros [] c3 s3 (it3 & H3) off n Ho Hn Hon. pose proof H3 as (Hf3 & Hok3 & Htk3 & _ & Hl & i & Hi & Hin & Hri & Hd).
  destruct (fs_core_shold ip cb Hc) as [Hb Hlg _]. pose proof (fi_sized _ _ _ _ Hfi) as Hz. rewrite <-Hd in Hz. pose proof Hz as [Hsz _].
  assert (Hct : contents g (in_d i) = concat r) by (rewrite Hd; apply Hfi).
  assert (Hlc : Z.of_nat (length (concat r)) = di_size (in_d i)) by (rewrite <-Hct, contents_length; lia).
  eapply wp_mono; [apply (readi_ok ROOTDEV 30 1 dk _ Hb Hlg sb0 2 [] ∅ g it3 km c3 s3 ip i off n Hf3 Hi (to_dev _ _ _ _ Hok3 _ _ Hi Hri) Hz);
    [by intros b Hb'%elem_of_nil|done|simpl; lia|lia|lia]|]. intros y c4 s4 [-> _].
  rewrite read_len_eq by (csz; lia). rewrite (proj2 (Z.leb_gt _ _)) by lia. unfold file_bytes. rewrite Hlc. f_equal.
  destruct (Z.le_gt_cases off (di_size (in_d i))).
  - by rewrite frange_contents, Hct by lia.
  - by rewrite Z.max_l by lia.
Qed.

(** The kernel after it has booted from the image. *)
Lemma boot_image creat host_open prog img args rs c km :
  creat img = true -> Forall2 (input_ok host_open) args rs -> (length args <= 198)%nat ->
  (2 + Z.of_nat (length args)) mod 64 <> 0 -> 46 + total (made args rs) <= 1000 -> core_wf c -> is_Some (c_proc c) ->
  exists s, mkfs_main false creat host_open (prog :: img :: args) mk_start = MkExit 0 s /\
    exists cb c' s' g, fs_boot c (fs_state0 (image_of s) km) = Ok tt c' s' /\ fs_core cb /\
      (forall ip, (ip < Z.to_nat NINODE)%nat -> slock_free (SlInode ip) cb) /\ log_idle (ls_log (fs_log s')) /\
      ftx ROOTDEV 30 0 (recovered (image_of s) sb0) cb [] [] ∅ g sb0 itable0 km c' s' /\ well_made g args rs.
Proof.
  intros Hcr Hin Hl H64 Htot Hwf Hp.
  destruct (mkfs_ok creat host_open prog img args rs Hcr Hin Hl H64 Htot) as (s & g & Hrun & Hg & Hwm). exists s. split; [done|].
  assert (Hrec : forall b, disk_read (recovered (image_of s) sb0) b = g b).
  { intros b. rewrite recovered_empty; [by apply Hg|]. intros x Hx. rewrite Hg. apply (wm_log _ _ _ Hwm). cbn in Hx. lia. }
  destruct (fs_boot_ok (image_of s) km sb0) with (c := c) as (cb & c' & s' & Hb & Hc & _ & Hsl & Hid & Hf); try done.
  { intros b. rewrite Hg. apply Hwm. }
  { rewrite Hg. apply Hwm. }
  { unfold head_ok. rewrite Hg. rewrite (wm_log _ _ _ Hwm) by (cbn; lia). split_and!; [done..|]. intros t Ht. change (hdr_n zeroes) with 0 in Ht. lia. }
  exists cb, c', s', g. split_and!; try done. by eapply ftx_ext.
Qed.

(** C12: From mkfs to the files: mkfs writes the image, the kernel boots from
    it, and then, in a transaction, namei finds the file in the root directory
    with the name of the [k]-th argument (without "user/" and underscore) and
    readi reads any part of it, as the host had it.  This is for at most 198
    input files that fit on the disk, readable, with names without slashes; their number
    plus 2 is not a multiple of 64 (else the last block of the root directory
    is full and mkfs rounds its size to one block too many); no earlier entry
    has the same name. *)
Theorem mkfs_boot_read creat host_open prog img args rs k a r c km :
  creat img = true -> Forall2 (input_ok host_open) args rs -> (length args <= 198)%nat ->
  (2 + Z.of_nat (length args)) mod 64 <> 0 -> 46 + total (made args rs) <= 1000 ->
  args !! k = Some a -> rs !! k = Some r -> file_name a <> [] ->
  (forall de, de ∈ take (2 + k) (root_entries args) -> namecmp (file_name a) (de_name de) <> 0) ->
  core_wf c -> is_Some (c_proc c) ->
  exists s, mkfs_main false creat host_open (prog :: img :: args) mk_start = MkExit 0 s /\
    wp (_ ← fs_boot; _ ← flog begin_op; namei (SLASH :: file_name a)) c (fs_state0 (image_of s) km) (fun x c' s' =>
      exists ip, x = Some ip /\ wp (ilock ip) c' s' (fun _ c' s' =>
        forall off n, 0 <= off -> 0 <= n -> off + n < 2 ^ 32 ->
        wp (readi ip ToLocal off n) c' s' (fun y _ _ => y = file_bytes (concat r) off n))).
Proof.
  intros Hcr Hin Hl H64 Htot Hk Hr Hne Hfirst Hwf Hp.
  destruct (boot_image creat host_open prog img args rs c km Hcr Hin Hl H64 Htot Hwf Hp) as (s & Hrun & cb & c' & s' & g & Hb & Hc & Hsl & Hid & Hf & Hwm).
  exists s. split; [done|]. eapply wp_bind_ok; [exact Hb|].
  pose proof (proj1 (Forall2_lookup _ _ _) Hin k) as Hki. rewrite Hk, Hr in Hki. inversion Hki as [? ? []|]; subst.
  eapply read_file_ok; try done. by eapply Forall2_length.
Qed.

(** ** Examples *)

Definition ex_reads : list (list Z) := [str "hello "; str "world"].

Lemma ex_inputs : Forall2 (input_ok ex_host) ex_args [ex_reads; ex_reads].
Proof. constructor; [by apply ex_input|]. constructor; [by apply ex_input|constructor]. Qed.

Lemma mkfs_boot_read_witness :
  exists s, mkfs_main false (fun _ => true) ex_host (str "mkfs" :: str "fs.img" :: ex_args) mk_start = MkExit 0 s /\
    wp (_ ← fs_boot; _ ← flog begin_op; namei (str "/cat")) ex_lcore (fs_state0 (image_of s) (mkKmem 0 0 ∅)) (fun x c' s' =>
      exists ip, x = Some ip /\ wp (ilock ip) c' s' (fun _ c' s' =>
        wp (readi ip ToLocal 2 8) c' s' (fun y _ _ => y = (8, str "llo worl")))).
Proof.
  destruct (mkfs_boot_read (fun _ => true) ex_host (str "mkfs") (str "fs.img") ex_args [ex_reads; ex_reads] 1 (str "user/_cat") ex_reads
    ex_lcore (mkKmem 0 0 ∅)) as (s & Hrun & H);
    [reflexivity|exact ex_inputs|cbn; lia|done|vm_compute; discriminate|reflexivity|reflexivity|done| |done|by eexists|].
  - intros de Hde. apply (proj1 (Forall_forall (fun de => namecmp (str "cat") (de_name de) <> 0) (take 3 (root_entries ex_args)))); [|done].
    repeat constructor; vm_compute; discriminate.
  - exists s. split; [exact Hrun|]. eapply wp_mono; [exact H|]. intros x c' s' (ip & -> & Hi). exists ip. split; [reflexivity|].
    eapply wp_mono; [exact Hi|]. intros [] c2 s2 Hr. apply (Hr 2 8); lia.
Defined.

Lemma namex_spec_witness : exists c s, wp (namex (str "//README") false) c s (fun r _ s' => exists ip,
  r.1 = Some ip /\ slot_of (fs_itable s') ip 2).
Proof.
  destruct (boot_image (fun _ => true) ex_host (str "mkfs") (str "fs.img") ex_args [ex_reads; ex_reads] ex_lcore (mkKmem 0 0 ∅))
    as (s & _ & cb & c & s' & g & _ & Hc & Hsl & Hid & Hf & Hwm); [reflexivity|exact ex_inputs|cbn; lia|done|vm_compute; discriminate|done|by eexists|].
  exists c, s'. assert (Er : resolve sb0 g false 1 (elems (str "//README")) = Some 2).
  { change (elems (str "//README")) with [str "README"]. cbn [resolve walk_path]. destruct (wm_root _ _ _ Hwm) as (pad & Hfr & _).
    assert (di_type (dinode_of g sb0 1) = T_DIR) as -> by exact (f_equal (fun x => x.1.1.1) (fi_fields _ _ _ _ Hfr)).
    assert (E := wm_find _ _ _ Hwm 0 (str "README") eq_refl). change (dinode_of g sb0 ROOTINO) with (dinode_of g sb0 1) in E.
    change (file_name (str "README")) with (str "README") in E. rewrite E; [done|].
    intros de Hde. apply (proj1 (Forall_forall (fun de => namecmp (str "README") (de_name de) <> 0) (take 2 (root_entries ex_args)))); [|done].
    repeat constructor; vm_compute; discriminate. }
  eapply wp_mono; [apply (namex_spec 30 0 (recovered (image_of s) sb0) cb sb0 (allocated [ex_reads; ex_reads]) ∅ g itable0 (mkKmem 0 0 ∅) c s'
    (str "//README") false 1 Hc Hf)|].
  - by apply FsSpec.Example.room0; lia.
  - by apply table0_ready.
  - apply (image_live g ex_args); [done|done|cbn; lia].
  - unfold allocated. cbn. lia.
  - done.
  - intros r c1 s1 (it' & H1 & _ & _ & H2). rewrite Er in H2. destruct H2 as (ip & E1 & E2 & _). exists ip. split; [done|].
    by rewrite (proj1 (proj2 H1)).
Defined.
