(* ===== verification/Procs.v ===== *)
(** * User programs as trees of system calls

    A program is a tree of the system calls it makes; the kernel's answer
    chooses the branch.  Programs that only read and write files are modelled
    over the environment of User.v; this file is for those that work with
    processes, pipes and directories.

    [sys] is a system of such processes as the kernel runs them: each has its
    descriptors, pipes hold up to PIPESIZE bytes, read and wait block, exit
    closes the descriptors and leaves a zombie.  A step is one system call of
    one process, and any process that is not blocked can take the next step. *)

From Stdlib Require Import ZArith Lia.
From stdpp Require Import base gmap list numbers strings relations.
From S2P Require Import Prelude Riscv Pipe Printf User.
Local Open Scope Z_scope.

(** ** Calls *)

Inductive scall : Type :=
| SFork
| SWait
| SPipe
| SRead (fd n : Z)
| SWrite (fd : Z) (l : list Z)
| SClose (fd : Z)
| SDup (fd : Z)
| SGetpid
| SSleep (n : Z)
| SKill (pid : Z)
| SOpen (path : list Z) (mode : Z)
| SMknod (path : list Z) (major minor : Z)
| SMkdir (path : list Z)
| SLink (old new : list Z)
| SUnlink (path : list Z)
| SFstat (fd : Z)
| SChdir (path : list Z)
| SSbrk (n : Z)
| SExec (path : list Z) (argv : list (list Z)).

(** The result of a call, and what it stored: the bytes of a read, the two
    descriptors of a pipe, the fields of a [struct stat], the status that wait
    got (if its argument is not null). *)
Definition reply : Type := Z * list Z.

Inductive uprog (A : Type) : Type :=
| URet (a : A)
| UExit (status : Z)
| UStuck                                  (* undefined behaviour *)
| UNoFuel
| UCall (c : scall) (k : reply -> uprog A).
Arguments URet {A} a.
Arguments UExit {A} status.
Arguments UStuck {A}.
Arguments UNoFuel {A}.
Arguments UCall {A} c k.

#[export] Instance uprog_ret : MRet uprog := fun A a => URet a.
#[export] Instance uprog_bind : MBind uprog := fun A B f =>
  fix bind (m : uprog A) : uprog B :=
    match m with
    | URet a => f a
    | UExit n => UExit n
    | UStuck => UStuck
    | UNoFuel => UNoFuel
    | UCall c k => UCall c (fun r => bind (k r))
    end.

(** A call for its result; [call2] also for what it stored. *)
Definition call (c : scall) : uprog Z := UCall c (fun r => URet r.1).
Definition call2 (c : scall) : uprog reply := UCall c (fun r => URet r).

(** A variable as bytes; a read stores the bytes it got from its start on. *)
Definition mem_store (d old : list Z) : list Z := d ++ drop (length d) old.

(** fprintf of printf.c: the writes that [vprintf] makes. *)
Definition os0 : os := mkOs ∅ ∅ [] [].
Definition print_calls (fd : Z) (fmt : list Z) (ap : list parg) : option (list (Z * list Z)) :=
  match fprintf fd fmt ap os0 with Ret _ s => Some (os_out s) | _ => None end.
Fixpoint emit (ws : list (Z * list Z)) : uprog unit :=
  match ws with
  | [] => URet tt
  | (fd, l) :: ws => _ ← call (SWrite fd l); emit ws
  end.
Definition p_fprintf (fd : Z) (fmt : list Z) (ap : list parg) : uprog unit :=
  match print_calls fd fmt ap with Some ws => emit ws | None => UStuck end.
Definition p_printf : list Z -> list parg -> uprog unit := p_fprintf 1.

Lemma print_calls_format fd fmt ap l : format fmt false ap = Some l -> print_calls fd fmt ap = Some (char_writes fd l).
Proof.
  intros H. destruct (vprintf_format fd fmt false ap l os0 H) as (s' & Hr & _ & _ & Ho). unfold print_calls, fprintf. by rewrite Hr, Ho.
Qed.

(** stat of ulib.c; the fields of the [struct stat] are dev, ino, type,
    nlink and size. *)
Definition u_stat (n : list Z) : uprog (Z * list Z) :=
  fd ← call (SOpen n O_RDONLY);
  if fd <? 0 then mret (-1, []) else
  r ← call2 (SFstat fd);
  _ ← call (SClose fd);
  mret r.

(** ** One process *)

(** The calls are answered by an environment with state [S]. *)
Inductive ended (A : Type) : Type :=
| ERet (a : A)
| EExit (status : Z)
| EStuck
| ENoFuel.
Arguments ERet {A} a.
Arguments EExit {A} status.
Arguments EStuck {A}.
Arguments ENoFuel {A}.

Fixpoint serve {S A} (answer : S -> scall -> S * reply) (m : uprog A) (s : S) : S * ended A :=
  match m with
  | URet a => (s, ERet a)
  | UExit n => (s, EExit n)
  | UStuck => (s, EStuck)
  | UNoFuel => (s, ENoFuel)
  | UCall c k => let r := answer s c in serve answer (k r.2) r.1
  end.

Lemma serve_bind {S A B} (answer : S -> scall -> S * reply) (m : uprog A) (f : A -> uprog B) s :
  serve answer (m ≫= f) s =
  match serve answer m s with
  | (s', ERet a) => serve answer (f a) s'
  | (s', EExit n) => (s', EExit n)
  | (s', EStuck) => (s', EStuck)
  | (s', ENoFuel) => (s', ENoFuel)
  end.
Proof. revert s. induction m as [| | | |c k IH]; intros s; try done. cbn. apply IH. Qed.

(** ** A system of processes *)

(** What a descriptor refers to; a pipe is named by the process that made it
    and a number. *)
Definition pipe_id : Type := Z * Z.
Inductive ufile : Type :=
| UConsole
| UPipeR (p : pipe_id)
| UPipeW (p : pipe_id).

#[export] Instance ufile_eq_dec : EqDecision ufile.
Proof. solve_decision. Defined.

Inductive ustate : Type :=
| Live (m : uprog unit)
| Zombie (status : Z).

Record upr : Type := mkUpr {
  up_parent : Z;
  up_fds : list (option ufile);        (* NOFILE entries *)
  up_pipes : Z;                        (* the number of pipes it made *)
  up_state : ustate
}.

Record sys : Type := mkSys {
  sy_procs : gmap Z upr;               (* by pid *)
  sy_pipes : gmap pipe_id (list Z);    (* bytes in the pipes *)
  sy_next : Z;                         (* the next pid *)
  sy_out : list Z                      (* written to the console *)
}.

Definition set_proc (pid : Z) (p : upr) (s : sys) : sys := mkSys (<[pid := p]> (sy_procs s)) (sy_pipes s) (sy_next s) (sy_out s).
Definition set_pipe (q : pipe_id) (l : list Z) (s : sys) : sys := mkSys (sy_procs s) (<[q := l]> (sy_pipes s)) (sy_next s) (sy_out s).
Definition set_st (st : ustate) (p : upr) : upr := mkUpr (up_parent p) (up_fds p) (up_pipes p) st.
Definition set_fds (l : list (option ufile)) (p : upr) : upr := mkUpr (up_parent p) l (up_pipes p) (up_state p).

(** Some live process has [f] open. *)
Definition is_open (f : ufile) (s : sys) : bool :=
  existsb (fun x => bool_decide (Some f ∈ up_fds x.2)) (map_to_list (sy_procs s)).

Definition fd_get (fd : Z) (p : upr) : option ufile :=
  if (0 <=? fd) && (fd <? 16) then mjoin (up_fds p !! Z.to_nat fd) else None.

(** fdalloc: the lowest free descriptor. *)
Definition fd_alloc (f : ufile) (p : upr) : option (Z * upr) :=
  match list_find (fun x => x = None) (up_fds p) with
  | Some (k, _) => Some (Z.of_nat k, set_fds (<[k := Some f]> (up_fds p)) p)
  | None => None
  end.

(** The call returns [r]: process [pid] continues with [k r]. *)
Definition resume (pid : Z) (p : upr) (k : reply -> uprog unit) (r : reply) (s : sys) : option sys :=
  Some (set_proc pid (set_st (Live (k r)) p) s).

Definition do_close (pid fd : Z) (p : upr) k s : option sys :=
  match fd_get fd p with
  | None => resume pid p k (-1, []) s
  | Some _ => resume pid (set_fds (<[Z.to_nat fd := None]> (up_fds p)) p) k (0, []) s
  end.

Definition do_dup (pid fd : Z) (p : upr) k s : option sys :=
  match fd_get fd p with
  | None => resume pid p k (-1, []) s
  | Some f => match fd_alloc f p with
              | None => resume pid p k (-1, []) s
              | Some (n, p') => resume pid p' k (n, []) s
              end
  end.

Definition do_pipe (pid : Z) (p : upr) k s : option sys :=
  let q := (pid, up_pipes p) in
  match fd_alloc (UPipeR q) p with
  | None => resume pid p k (-1, []) s
  | Some (a, p1) =>
      match fd_alloc (UPipeW q) p1 with
      | None => resume pid p k (-1, []) s
      | Some (b, p2) =>
          resume pid (mkUpr (up_parent p2) (up_fds p2) (up_pipes p2 + 1) (up_state p2)) k (0, [a; b]) (set_pipe q [] s)
      end
  end.

(** Reading the console gives the end of the input. *)
Definition do_read (pid fd n : Z) (p : upr) k s : option sys :=
  match fd_get fd p with
  | Some (UPipeR q) =>
      match default [] (sy_pipes s !! q) with
      | [] => if is_open (UPipeW q) s then None else resume pid p k (0, []) s
      | l => let d := take (Z.to_nat n) l in
             resume pid p k (Z.of_nat (length d), d) (set_pipe q (drop (Z.to_nat n) l) s)
      end
  | Some UConsole => resume pid p k (0, []) s
  | _ => resume pid p k (-1, []) s
  end.

(** pipewrite fills the pipe and sleeps with the rest left to write. *)
Definition do_write (pid fd : Z) (d : list Z) (p : upr) k s : option sys :=
  match fd_get fd p with
  | Some (UPipeW q) =>
      let l := default [] (sy_pipes s !! q) in
      let room := (Z.to_nat PIPESIZE - length l)%nat in
      if negb (is_open (UPipeR q) s) then resume pid p k (-1, []) s
      else if (length d <=? room)%nat then resume pid p k (Z.of_nat (length d), []) (set_pipe q (l ++ d) s)
      else if (room =? 0)%nat then None
      else
        let k' r := if r.1 <? 0 then k r else k (Z.of_nat room + r.1, []) in
        Some (set_proc pid (set_st (Live (UCall (SWrite fd (drop room d)) k')) p) (set_pipe q (l ++ take room d) s))
  | Some UConsole => resume pid p k (Z.of_nat (length d), []) (mkSys (sy_procs s) (sy_pipes s) (sy_next s) (sy_out s ++ d))
  | _ => resume pid p k (-1, []) s
  end.

(** init and the shell, which are not part of [sys], have slots as well. *)
Definition do_fork (pid : Z) (p : upr) k s : option sys :=
  if Z.of_nat (size (sy_procs s)) + 2 <? NPROC then
    let child := sy_next s in
    let s1 := set_proc pid (set_st (Live (k (child, []))) p) s in
    let s2 := set_proc child (mkUpr pid (up_fds p) 0 (Live (k (0, [])))) s1 in
    Some (mkSys (sy_procs s2) (sy_pipes s2) (child + 1) (sy_out s2))
  else resume pid p k (-1, []) s.

Definition is_child (pid : Z) (x : Z * upr) : bool := up_parent x.2 =? pid.
Definition is_zombie (x : Z * upr) : bool := match up_state x.2 with Zombie _ => true | Live _ => false end.

Definition do_wait (pid : Z) (p : upr) k s : option sys :=
  let children := filter (fun x => is_child pid x = true) (map_to_list (sy_procs s)) in
  match filter (fun x => is_zombie x = true) children with
  | (c, x) :: _ => resume pid p k (c, match up_state x with Zombie n => [n] | Live _ => [] end) (mkSys (delete c (sy_procs s)) (sy_pipes s) (sy_next s) (sy_out s))
  | [] => match children with [] => resume pid p k (-1, []) s | _ => None end
  end.

(** The children go to init, process 1. *)
Definition do_exit (pid status : Z) (p : upr) (s : sys) : option sys :=
  let procs := (fun x => if up_parent x =? pid then mkUpr 1 (up_fds x) (up_pipes x) (up_state x) else x) <$> sy_procs s in
  Some (mkSys (<[pid := mkUpr (up_parent p) (replicate 16 None) (up_pipes p) (Zombie status)]> procs) (sy_pipes s) (sy_next s) (sy_out s)).

(** One system call of process [pid]; [None] when it cannot take a step.  A
    program that returns from main is outside the language of this file: the
    programs end with exit.  The calls on files and programs have no meaning
    here and block. *)
Definition sys_step (pid : Z) (s : sys) : option sys :=
  match sy_procs s !! pid with
  | None => None
  | Some p =>
      match up_state p with
      | Zombie _ => None
      | Live m =>
          match m with
          | UExit n => do_exit pid n p s
          | UCall SFork k => do_fork pid p k s
          | UCall SWait k => do_wait pid p k s
          | UCall SPipe k => do_pipe pid p k s
          | UCall (SRead fd n) k => do_read pid fd n p k s
          | UCall (SWrite fd l) k => do_write pid fd l p k s
          | UCall (SClose fd) k => do_close pid fd p k s
          | UCall (SDup fd) k => do_dup pid fd p k s
          | UCall SGetpid k => resume pid p k (pid, []) s
          | UCall (SSleep _) k => resume pid p k (0, []) s
          | _ => None
          end
      end
  end.

(** The steps of the system: those of any process. *)
Definition sys_steps (s s' : sys) : Prop := exists pid, sys_step pid s = Some s'.

(** A process that was just started by the shell: process 2 is the shell. *)
Definition sys0 (m : uprog unit) : sys :=
  mkSys {[ 3 := mkUpr 2 (replicate 3 (Some UConsole) ++ replicate 13 None) 0 (Live m) ]} ∅ 4 [].

(** ** Systems in which only one process can run *)

Definition enabled (s : sys) : list Z := filter (fun pid => is_Some (sys_step pid s)) (map_to_list (sy_procs s)).*1.

(** The final state, if in all states on the way exactly one process can run. *)
Fixpoint det_run (n : nat) (s : sys) : option sys :=
  match enabled s with
  | [] => Some s
  | [pid] => match n with O => None | S n => match sys_step pid s with Some s' => det_run n s' | None => None end end
  | _ => None
  end.

Lemma elem_of_enabled pid s : pid ∈ enabled s <-> is_Some (sys_step pid s).
Proof.
  unfold enabled. rewrite list_elem_of_filter. split; [by intros []|]. intros H. split; [done|].
  destruct H as [s' H]. unfold sys_step in H. destruct (sy_procs s !! pid) as [p|] eqn:E; [|done].
  apply list_elem_of_fmap. exists (pid, p). split; [done|]. by apply elem_of_map_to_list.
Qed.

(** Then all runs end there, and are no longer than [n]. *)
Lemma det_run_sound n s f : det_run n s = Some f ->
  (forall s', ~ sys_steps f s') /\
  forall m s', nsteps sys_steps m s s' -> (m <= n)%nat /\ rtc sys_steps s' f.
Proof.
  revert s. induction n as [|n IH]; intros s; cbn [det_run]; destruct (enabled s) as [|pid [|pid' l]] eqn:E; try done.
  1,2: (intros [= <-]; assert (Hf : forall s', ~ sys_steps s s') by (intros s' [pid H]; apply (not_elem_of_nil pid); rewrite <-E, elem_of_enabled; eauto);
    split; [done|]; intros m s' H; inversion H as [|? ? y ? Hy]; subst; [split; [lia|constructor]|by apply Hf in Hy]).
  destruct (sys_step pid s) as [s1|] eqn:E1; [|done]. intros H. destruct (IH s1 H) as [H1 H2]. split; [done|].
  assert (Hu : forall s', sys_steps s s' -> s' = s1).
  { intros s' [pid' H']. assert (Hp : pid' ∈ [pid]) by (rewrite <-E, elem_of_enabled; eauto).
    apply list_elem_of_singleton in Hp as ->. congruence. }
  assert (Hs : sys_steps s s1) by (by exists pid).
  intros m s' Hm. inversion Hm as [|m' ? y ? Hy Hrest]; subst.
  - split; [lia|]. eapply rtc_l; [exact Hs|]. apply (H2 0%nat s1). constructor.
  - apply Hu in Hy as ->. destruct (H2 _ _ Hrest) as [H3 H4]. split; [lia|done].
Qed.

(** A run in which some process that can run is taken each time. *)
Fixpoint some_run (n : nat) (s : sys) : sys :=
  match n with
  | O => s
  | S n => match enabled s with
           | [] => s
           | pid :: _ => match sys_step pid s with Some s' => some_run n s' | None => s end
           end
  end.

Lemma some_run_rtc n s : rtc sys_steps s (some_run n s).
Proof.
  revert s. induction n as [|n IH]; intros s; cbn [some_run]; [done|]. destruct (enabled s) as [|pid l]; [done|].
  destruct (sys_step pid s) as [s'|] eqn:E; [|done]. eapply rtc_l; [by exists pid|apply IH].
Qed.

(** ** Programs that do not fork *)

Inductive nofork {A} : uprog A -> Prop :=
| nofork_ret a : nofork (URet a)
| nofork_exit n : nofork (UExit n)
| nofork_stuck : nofork UStuck
| nofork_nofuel : nofork UNoFuel
| nofork_call c k : c <> SFork -> (forall r, nofork (k r)) -> nofork (UCall c k).
#[export] Hint Constructors nofork : procs.

Lemma nofork_bind {A B} (m : uprog A) (f : A -> uprog B) : nofork m -> (forall a, nofork (f a)) -> nofork (m ≫= f).
Proof. intros Hm Hf. induction Hm; [apply Hf| | | |]; constructor; auto. Qed.

Lemma nofork_emit ws : nofork (emit ws).
Proof.
  induction ws as [|[fd l] ws IH]; cbn [emit]; [constructor|]. apply nofork_bind; [|done]. constructor; [done|]. intros r. constructor.
Qed.

Lemma nofork_fprintf fd fmt ap : nofork (p_fprintf fd fmt ap).
Proof. unfold p_fprintf. destruct (print_calls fd fmt ap); [apply nofork_emit|constructor]. Qed.

Lemma nofork_ccall c : c <> SFork -> nofork (call c).
Proof. intros H. constructor; [done|]. intros r. constructor. Qed.
Lemma nofork_ccall2 c : c <> SFork -> nofork (call2 c).
Proof. intros H. constructor; [done|]. intros r. constructor. Qed.
#[export] Hint Resolve nofork_bind nofork_emit nofork_fprintf nofork_ccall nofork_ccall2 : procs.

(** In a system without forks, processes that have open only pipes of their
    own keep it so. *)
Definition owner (pid : Z) (f : ufile) : Prop := match f with UConsole => True | UPipeR q | UPipeW q => q.1 = pid end.
Definition alone (pid : Z) (p : upr) : Prop :=
  (forall f, Some f ∈ up_fds p -> owner pid f) /\ match up_state p with Live m => nofork m | Zombie _ => True end.
Definition all_alone (s : sys) : Prop := map_Forall alone (sy_procs s).

Lemma alone_resume pid p k r s s' :
  all_alone s -> (forall f, Some f ∈ up_fds p -> owner pid f) -> (forall r, nofork (k r)) -> resume pid p k r s = Some s' -> all_alone s'.
Proof.
  intros Hs Hf Hk [= <-]. apply map_Forall_insert_2; [|done]. split; [exact Hf|apply Hk].
Qed.

Lemma fd_get_in fd p f : fd_get fd p = Some f -> Some f ∈ up_fds p.
Proof.
  unfold fd_get. case_match; [|done]. destruct (up_fds p !! Z.to_nat fd) as [[f'|]|] eqn:E; [|done|done].
  intros [= ->]. by eapply list_elem_of_lookup_2.
Qed.

Lemma fd_alloc_in f p n p' g : fd_alloc f p = Some (n, p') -> Some g ∈ up_fds p' -> g = f \/ Some g ∈ up_fds p.
Proof.
  unfold fd_alloc. destruct (list_find _ _) as [[k x]|]; [|done]. intros [= <- <-]. cbn [up_fds set_fds].
  intros (j & Hj)%list_elem_of_lookup. rewrite list_lookup_insert in Hj. case_decide; [naive_solver|].
  right. by eapply list_elem_of_lookup_2.
Qed.

Lemma fds_insert_in (l : list (option ufile)) k g : Some g ∈ <[k := None]> l -> Some g ∈ l.
Proof.
  intros (j & Hj)%list_elem_of_lookup. rewrite list_lookup_insert in Hj. case_decide; [naive_solver|]. by eapply list_elem_of_lookup_2.
Qed.

Lemma alone_step pid s s' : all_alone s -> sys_step pid s = Some s' -> all_alone s'.
Proof.
  intros Hs. unfold sys_step. destruct (sy_procs s !! pid) as [p|] eqn:Ep; [|done]. destruct (Hs _ _ Ep) as [Hf Hn].
  assert (R : forall k r s0, all_alone s0 -> (forall r, nofork (k r)) -> resume pid p k r s0 = Some s' -> all_alone s') by (intros; by eapply alone_resume).
  destruct (up_state p) as [m|]; [|done]. destruct Hn as [| n | | |c k Hc Hk]; try done.
  - unfold do_exit. intros [= <-]. apply map_Forall_insert_2.
    + split; [|done]. intros f Hin. cbn in Hin. set_unfold in Hin. naive_solver.
    + intros i x Hx. rewrite lookup_fmap in Hx. destruct (sy_procs s !! i) as [y|] eqn:Ey; [|done]. cbn in Hx. injection Hx as <-.
      specialize (Hs _ _ Ey). by destruct (up_parent y =? pid).
  - destruct c; try done; try (by apply R).
    + unfold do_wait. destruct (filter _ _) as [|[c x] l]; [destruct (filter _ _); [by apply R|done]|].
      apply R; [|done]. by apply map_Forall_delete.
    + unfold do_pipe. destruct (fd_alloc _ p) as [[a p1]|] eqn:E1; [|by apply R]. destruct (fd_alloc _ p1) as [[b p2]|] eqn:E2; [|by apply R].
      apply alone_resume; [done| |done]. cbn [up_fds]. intros f Hin. destruct (fd_alloc_in _ _ _ _ _ E2 Hin) as [->|Hin1]; [done|].
      destruct (fd_alloc_in _ _ _ _ _ E1 Hin1) as [->|Hin2]; [done|]. by apply Hf.
    + unfold do_read. destruct (fd_get fd p) as [[|q|q]|]; try (by apply R). destruct (default [] _); [case_match; [done|]|]; by apply R.
    + unfold do_write. destruct (fd_get fd p) as [[|q|q]|]; try (by apply R). case_match; [by apply R|]. case_match; [by apply R|].
      case_match; [done|]. intros [= <-]. apply map_Forall_insert_2; [|done]. split; [done|]. cbn [up_state set_st]. constructor; [done|].
      intros r. case_match; apply Hk.
    + unfold do_close. destruct (fd_get fd p); [|by apply R]. apply alone_resume; [done| |done]. intros f Hin. apply Hf. exact (fds_insert_in _ (Z.to_nat fd) _ Hin).
    + unfold do_dup. destruct (fd_get fd p) as [f|] eqn:Ef; [|by apply R]. destruct (fd_alloc f p) as [[n p']|] eqn:Ea; [|by apply R].
      apply alone_resume; [done| |done]. intros g Hin. destruct (fd_alloc_in _ _ _ _ _ Ea Hin) as [->|]; [|by apply Hf].
      by apply Hf, (fd_get_in fd).
Qed.

Lemma alone_steps s s' : all_alone s -> rtc sys_steps s s' -> all_alone s'.
Proof. intros Hs H. induction H as [|x y z [pid Hp] _ IH]; [done|]. apply IH. by eapply alone_step. Qed.

(** A program whose only fork comes first. *)
Lemma alone_first (f : Z -> uprog unit) s :
  (forall r, nofork (f r)) -> sys_steps (sys0 (call SFork ≫= f)) s -> all_alone s.
Proof.
  intros Hf [pid H]. unfold sys_step in H. cbn [sy_procs sys0] in H.
  destruct (decide (pid = 3)) as [->|Hne]; [|by rewrite lookup_singleton_ne in H by done].
  rewrite lookup_singleton_eq in H. cbn [up_state mbind uprog_bind call] in H. unfold do_fork in H. cbn [sy_procs sys0] in H.
  rewrite map_size_singleton in H. change (Z.of_nat 1 <? NPROC) with true in H. cbv iota in H.
  assert (Hc : forall pid' f', Some f' ∈ replicate 3 (Some UConsole) ++ replicate 13 None -> owner pid' f').
  { intros pid' f' Hin. cbn in Hin. set_unfold in Hin. naive_solver. }
  apply (inj Some) in H. subst s. unfold all_alone. cbn [sy_procs set_proc sys0]. apply map_Forall_insert_2; [split; [apply Hc|apply Hf]|].
  rewrite insert_singleton_eq. apply map_Forall_singleton. split; [apply Hc|apply Hf].
Qed.
