(* ===== verification/Primes.v ===== *)
(** * Programs that talk through pipes: user/primes.c and user/pingpong.c

    primes.c is a chain of filters: each level prints the first number it
    reads and forks a child that passes on the numbers not divisible by it.
    The parent waits for the child before it reads, so that one process runs
    at a time and the numbers have to fit into a pipe.  pingpong.c makes its
    pipes after the fork, so that each process has pipes of its own. *)

From Stdlib Require Import ZArith Lia Znumtheory.
From stdpp Require Import base gmap list numbers strings relations sorting.
From S2P Require Import Prelude Riscv Printf User Procs.
Local Open Scope Z_scope.

(** ** primes.c *)

(** The value of an [int] variable. *)
Definition int_val (bs : list Z) : Z := s32 (le_val bs).

Definition mapping (n : Z) (fd : Z * Z) : uprog unit :=
  _ ← call (SClose n);
  _ ← call (SDup (if n =? 0 then fd.1 else fd.2));
  _ ← call (SClose fd.1);
  _ ← call (SClose fd.2);
  mret tt.

(** [fd] after [pipe(fd)]: what it was, when the call fails. *)
Definition pipe_fds (junk : Z * Z) (r : reply) : Z * Z :=
  match r.2 with [a; b] => (a, b) | _ => junk end.

(** The loop of the child; each round reads. *)
Fixpoint primes_filter (previousP : Z) (nextP : list Z) (fuel : nat) : uprog unit :=
  match fuel with
  | O => UNoFuel
  | S fuel =>
      r ← call2 (SRead 0 4);
      if r.1 =? 0 then mret tt
      else
        let nextP := mem_store r.2 nextP in
        if previousP =? 0 then UStuck
        else
          _ ← (if negb (Z.rem (int_val nextP) previousP =? 0) then call (SWrite 1 nextP) else mret 0);
          primes_filter previousP nextP fuel
  end.

(** [junk] is what the variables hold before they are set. *)
Fixpoint primes (junk : list Z) (fuel : nat) : uprog unit :=
  match fuel with
  | O => UNoFuel
  | S fuel' =>
      r ← call2 (SRead 0 4);
      if r.1 =? 0 then mret tt
      else
        let previousP := int_val (mem_store r.2 junk) in
        _ ← p_printf (str "prime %d" ++ [10]) [PInt previousP];
        r ← call2 SPipe;
        let fd := pipe_fds (0, 0) r in
        pid ← call SFork;
        if pid =? 0 then
          _ ← mapping 1 fd;
          primes_filter previousP junk fuel
        else
          _ ← call SWait;
          _ ← mapping 0 fd;
          primes junk fuel'
  end.

(** [for(int i = 2; i <= 35; i++) write(1, &i, sizeof(int))] *)
Fixpoint write_ints (l : list Z) : uprog unit :=
  match l with
  | [] => mret tt
  | i :: l => _ ← call (SWrite 1 (le_bytes 4 i)); write_ints l
  end.

Definition primes_main (junk : list Z) : uprog unit :=
  r ← call2 SPipe;
  let fd := pipe_fds (0, 0) r in
  pid ← call SFork;
  _ ← (if pid =? 0 then
         _ ← mapping 1 fd;
         write_ints (seqZ 2 34)
       else
         _ ← call SWait;
         _ ← mapping 0 fd;
         primes junk 36);
  UExit 0.

(** ** pingpong.c *)

(** The code after the fork. *)
Definition pingpong_rest (ret : Z) : uprog unit :=
  r1 ← call2 SPipe;
  r2 ← call2 SPipe;
  let pipes1 := pipe_fds (0, 0) r1 in
  let pipes2 := pipe_fds (0, 0) r2 in
  if ret =? 0 then
    pid ← call SGetpid;
    _ ← call (SClose pipes1.2);
    r ← call2 (SRead pipes1.1 1);
    let buf := mem_store r.2 [97] in
    _ ← p_printf (str "%d: received ping" ++ [10]) [PInt pid];
    _ ← call (SWrite pipes2.2 buf);
    UExit 0
  else
    pid ← call SGetpid;
    _ ← call (SClose pipes2.2);
    _ ← call (SWrite pipes1.2 [97]);
    _ ← call SWait;
    _ ← call2 (SRead pipes2.1 1);
    _ ← p_printf (str "%d: received pong" ++ [10]) [PInt pid];
    UExit 0.

Definition pingpong_main : uprog unit :=
  ret ← call SFork;
  pingpong_rest ret.

(** ** What primes prints *)

Definition primeb (n : Z) : bool := (2 <=? n) && forallb (fun d => negb (n mod d =? 0)) (seqZ 2 (n - 2)).

Lemma primeb_spec n : primeb n = true <-> prime n.
Proof.
  unfold primeb. rewrite andb_true_iff, forallb_forall, Z.leb_le. split.
  - intros [H1 H2]. apply prime_alt. split; [lia|]. intros d Hd [q Hq].
    assert (Hin : In d (seqZ 2 (n - 2))) by (apply list_elem_of_In, elem_of_seqZ; lia).
    specialize (H2 d Hin). rewrite Hq, Z.mod_mul in H2 by lia. done.
  - intros Hp. apply prime_alt in Hp as [H1 H2]. split; [lia|]. intros d Hd%list_elem_of_In%elem_of_seqZ.
    apply negb_true_iff, Z.eqb_neq. intros E. apply (H2 d); [lia|]. apply Z.mod_divide; [lia|done].
Qed.

Definition prime_line (p : Z) : list Z := str "prime " ++ u_int_chars p 10 true ++ [10].

(** What is seen of a final state: the console and how the processes ended. *)
Definition outcome (s : sys) : list Z * list (Z * ustate) := (sy_out s, prod_map id up_state <$> map_to_list (sy_procs s)).

Lemma det_run_outcome n s v :
  option_map outcome (det_run n s) = Some v -> exists f, det_run n s = Some f /\ outcome f = v.
Proof. destruct (det_run n s) as [f|]; [|done]. intros [= E]. by exists f. Qed.

Lemma primes_run a b c d :
  option_map outcome (det_run 2000 (sys0 (primes_main [a; b; c; d]))) =
  Some (filter (fun n => primeb n = true) (seqZ 2 34) ≫= prime_line, [(3, Zombie 0)]).
Proof. vm_compute. reflexivity. Qed.

(** C31: primes: whatever the schedule, it ends, without processes left behind, and
    prints the primes up to 35 in order; the values of uninitialised variables
    do not matter. *)
Theorem primes_spec a b c d : exists f n ps,
  (forall m s, nsteps sys_steps m (sys0 (primes_main [a; b; c; d])) s -> (m <= n)%nat /\ rtc sys_steps s f) /\
  (forall s, ~ sys_steps f s) /\ outcome f = (ps ≫= prime_line, [(3, Zombie 0)]) /\
  StronglySorted Z.lt ps /\ forall p, p ∈ ps <-> prime p /\ p <= 35.
Proof.
  destruct (det_run_outcome _ _ _ (primes_run a b c d)) as (f & Hr & Ho). destruct (det_run_sound _ _ _ Hr) as [H1 H2].
  exists f, 2000%nat, (filter (fun n => primeb n = true) (seqZ 2 34)). split_and!; [exact H2|exact H1|exact Ho| |].
  - vm_compute. repeat constructor.
  - intros p. rewrite list_elem_of_filter, elem_of_seqZ, primeb_spec. split; [intros [Hp ?]; split; [done|lia]|].
    intros [Hp Hle]. split; [done|]. destruct Hp. lia.
Qed.

(** ** What pingpong does *)

Lemma pingpong_nofork ret : nofork (pingpong_rest ret).
Proof.
  unfold pingpong_rest, p_printf. apply nofork_bind; [auto with procs|]. intros r1. apply nofork_bind; [auto with procs|]. intros r2.
  cbv zeta. case_match; repeat (apply nofork_bind; [auto with procs|intros ?]); auto with procs.
Qed.

(** C40: pingpong: in every run no process ever has open a pipe that another one
    made, so that no byte gets from one to the other; all the same there is a
    run in which both messages are printed. *)
Theorem pingpong_no_exchange :
  (forall s pid p q, rtc sys_steps (sys0 pingpong_main) s -> sy_procs s !! pid = Some p ->
     Some (UPipeR q) ∈ up_fds p \/ Some (UPipeW q) ∈ up_fds p -> q.1 = pid) /\
  exists s, rtc sys_steps (sys0 pingpong_main) s /\
    outcome s = (str "4: received ping" ++ [10] ++ str "3: received pong" ++ [10], [(3, Zombie 0)]).
Proof.
  split.
  - intros s pid p q H Hp Hq. apply rtc_inv in H as [<-|(s1 & Hs & H)].
    + cbn [sy_procs sys0] in Hp. apply lookup_singleton_Some in Hp as [<- <-]. cbn in Hq. set_unfold in Hq. naive_solver.
    + apply alone_first in Hs; [|apply pingpong_nofork]. destruct (alone_steps _ _ Hs H _ _ Hp) as [Hf _].
      by destruct Hq as [Hq|Hq]; apply Hf in Hq.
  - exists (some_run 100 (sys0 pingpong_main)). split; [apply some_run_rtc|]. vm_compute. reflexivity.
Qed.
