(* ===== verification/Commands.v ===== *)
(** * The small commands of src/user

    sleep.c, kill.c, ln.c, mkdir.c, rm.c, zombie.c, init.c, ls.c, find.c and
    xargs.c as trees of system calls.  [argv] is the list of the arguments,
    the name of the command included; strings have no NUL. *)

From Stdlib Require Import ZArith Lia.
From stdpp Require Import base gmap list numbers strings.
From S2P Require Import Prelude Riscv Fs Kst Printf User Procs.
Local Open Scope Z_scope.

Definition nl (s : list Z) : list Z := s ++ [10].

Definition sleep_main (argv : list (list Z)) : uprog unit :=
  match argv with
  | _ :: a :: _ => _ ← call (SSleep (atoi a)); UExit 0
  | _ => _ ← p_fprintf 2 (nl (str "Usage: sleep number")) []; UExit 1
  end.

Fixpoint kill_all (l : list (list Z)) : uprog unit :=
  match l with
  | [] => mret tt
  | a :: l => _ ← call (SKill (atoi a)); kill_all l
  end.
Definition kill_main (argv : list (list Z)) : uprog unit :=
  match argv with
  | _ :: (_ :: _) as args => _ ← kill_all args; UExit 0
  | _ => _ ← p_fprintf 2 (nl (str "usage: kill pid...")) []; UExit 1
  end.

Definition ln_main (argv : list (list Z)) : uprog unit :=
  match argv with
  | [_; old; new] =>
      r ← call (SLink old new);
      _ ← (if r <? 0 then p_fprintf 2 (nl (str "link %s %s: failed")) [PStr (Some old); PStr (Some new)] else mret tt);
      UExit 0
  | _ => _ ← p_fprintf 2 (nl (str "Usage: ln old new")) []; UExit 1
  end.

(** The loops of mkdir and rm: they stop at the first failure. *)
Fixpoint each_path (sc : list Z -> scall) (msg : list Z) (l : list (list Z)) : uprog unit :=
  match l with
  | [] => mret tt
  | a :: l =>
      r ← call (sc a);
      if r <? 0 then p_fprintf 2 msg [PStr (Some a)] else each_path sc msg l
  end.
Definition mkdir_main (argv : list (list Z)) : uprog unit :=
  match argv with
  | _ :: (_ :: _) as args => _ ← each_path SMkdir (nl (str "mkdir: %s failed to create")) args; UExit 0
  | _ => _ ← p_fprintf 2 (nl (str "Usage: mkdir files...")) []; UExit 1
  end.
Definition rm_main (argv : list (list Z)) : uprog unit :=
  match argv with
  | _ :: (_ :: _) as args => _ ← each_path SUnlink (nl (str "rm: %s failed to delete")) args; UExit 0
  | _ => _ ← p_fprintf 2 (nl (str "Usage: rm files...")) []; UExit 1
  end.

Definition zombie_main : uprog unit :=
  pid ← call SFork;
  _ ← (if 0 <? pid then call (SSleep 5) else mret 0);
  UExit 0.

(** ** init.c *)

(** The inner loop: returns when the shell has exited. *)
Fixpoint init_wait (pid : Z) (fuel : nat) : uprog unit :=
  match fuel with
  | O => UNoFuel
  | S fuel =>
      wpid ← call SWait;
      if wpid =? pid then mret tt
      else if wpid <? 0 then _ ← p_printf (nl (str "init: wait returned an error")) []; UExit 1
      else init_wait pid fuel
  end.
Fixpoint init_loop (fuel : nat) : uprog unit :=
  match fuel with
  | O => UNoFuel
  | S fuel' =>
      _ ← p_printf (nl (str "init: starting sh")) [];
      pid ← call SFork;
      if pid <? 0 then _ ← p_printf (nl (str "init: fork failed")) []; UExit 1
      else if pid =? 0 then
        _ ← call (SExec (str "sh") [str "sh"]);
        _ ← p_printf (nl (str "init: exec sh failed")) [];
        UExit 1
      else _ ← init_wait pid fuel; init_loop fuel'
  end.
Definition init_main (fuel : nat) : uprog unit :=
  fd ← call (SOpen (str "console") O_RDWR);
  _ ← (if fd <? 0 then
         _ ← call (SMknod (str "console") CONSOLE 0);
         call (SOpen (str "console") O_RDWR)
       else mret 0);
  _ ← call (SDup 0);
  _ ← call (SDup 0);
  init_loop fuel.

(** ** ls.c *)

(** A [struct dirent] and a [struct stat] in memory. *)
Definition de_inum' (de : list Z) : Z := ld16 0 de.
Definition de_name' (de : list Z) : list Z := slice 2 (Z.to_nat DIRSIZ) de.
Definition st_ino (st : list Z) : Z := nth 1 st 0.
Definition st_type (st : list Z) : Z := nth 2 st 0.
Definition st_size (st : list Z) : Z := nth 4 st 0.

(** The part after the last slash. *)
Fixpoint last_part (path acc : list Z) : list Z :=
  match path with
  | [] => acc
  | c :: path => last_part path (if c =? 47 then path else acc)
  end.
Definition fmtname (path : list Z) : list Z :=
  let p := last_part path path in
  if DIRSIZ <=? Z.of_nat (length p) then p else p ++ repeat 32 (Z.to_nat DIRSIZ - length p).

(** [strcpy(buf, path); p = buf+strlen(buf); *p++ = '/'; memmove(p, de.name,
    DIRSIZ); p[DIRSIZ] = 0]: the string in [buf]. *)
Definition dir_path (dir name : list Z) : list Z := dir ++ [47] ++ cstring name.

Fixpoint ls_loop (fd : Z) (path de : list Z) (fuel : nat) : uprog unit :=
  match fuel with
  | O => UNoFuel
  | S fuel =>
      r ← call2 (SRead fd 16);
      if negb (r.1 =? 16) then mret tt
      else
        let de := mem_store r.2 de in
        if de_inum' de =? 0 then ls_loop fd path de fuel
        else
          let buf := dir_path path (de_name' de) in
          q ← u_stat buf;
          if q.1 <? 0 then
            _ ← p_printf (nl (str "ls: cannot stat %s")) [PStr (Some buf)];
            ls_loop fd path de fuel
          else
            _ ← p_printf (nl (str "%s %d %d %d")) [PStr (Some (fmtname buf)); PInt (st_type q.2); PInt (st_ino q.2); PInt (st_size q.2)];
            ls_loop fd path de fuel
  end.

Definition ls (path junk : list Z) (fuel : nat) : uprog unit :=
  fd ← call (SOpen path 0);
  if fd <? 0 then p_fprintf 2 (nl (str "ls: cannot open %s")) [PStr (Some path)] else
  q ← call2 (SFstat fd);
  if q.1 <? 0 then
    _ ← p_fprintf 2 (nl (str "ls: cannot stat %s")) [PStr (Some path)];
    _ ← call (SClose fd); mret tt
  else
    let st := q.2 in
    _ ← (if st_type st =? T_FILE then
           p_printf (nl (str "%s %d %d %l")) [PStr (Some (fmtname path)); PInt (st_type st); PInt (st_ino st); PInt (st_size st)]
         else if st_type st =? T_DIR then
           if 512 <? u32 (u_strlen path + 1 + DIRSIZ + 1) then p_printf (nl (str "ls: path too long")) []
           else ls_loop fd path junk fuel
         else mret tt);
    _ ← call (SClose fd);
    mret tt.

Fixpoint ls_all (l : list (list Z)) (junk : list Z) (fuel : nat) : uprog unit :=
  match l with
  | [] => mret tt
  | a :: l => _ ← ls a junk fuel; ls_all l junk fuel
  end.
Definition ls_main (argv : list (list Z)) (junk : list Z) (fuel : nat) : uprog unit :=
  _ ← (match argv with _ :: (_ :: _) as args => ls_all args junk fuel | _ => ls (str ".") junk fuel end);
  UExit 0.

(** ** find.c *)

(** strcmp of a name in a directory entry: a name of DIRSIZ characters has no
    NUL, and the comparison goes on in what follows [de] on the stack. *)
Definition name_cmp (name after q : list Z) : Z := u_strcmp (name ++ after) q.

(** The string in [buf] after [strcpy(buf, dir)], the slash, the memmove of the
    name and the NUL after it. *)
Definition find_path (dir name : list Z) : list Z := dir ++ [47] ++ cstring name.

(** The loop over the entries; [rec] is [find] on a subdirectory. *)
Fixpoint find_loop (rec : list Z -> uprog unit) (fd : Z) (dir file after de : list Z) (fuel : nat) : uprog unit :=
  match fuel with
  | O => UNoFuel
  | S fuel =>
      r ← call2 (SRead fd 16);
      if r.1 =? 0 then mret tt
      else
        let de := mem_store r.2 de in
        let name := de_name' de in
        if de_inum' de =? 0 then find_loop rec fd dir file after de fuel
        else if (name_cmp name after (str ".") =? 0) || (name_cmp name after (str "..") =? 0) then find_loop rec fd dir file after de fuel
        else
          let buf := find_path dir name in
          q ← u_stat buf;
          _ ← (if q.1 <? 0 then p_fprintf 2 (str "find:cannot stat %s") [PStr (Some buf)]
               else if st_type q.2 =? T_DIR then rec buf
               else if (st_type q.2 =? T_FILE) && (name_cmp name after file =? 0) then p_printf (nl (str "%s")) [PStr (Some buf)]
               else mret tt);
          find_loop rec fd dir file after de fuel
  end.

(** [junk] is what [de] holds before the first read. *)
Fixpoint find (file after junk dir : list Z) (fuel : nat) : uprog unit :=
  match fuel with
  | O => UNoFuel
  | S fuel =>
      fd ← call (SOpen dir 0);
      if fd <? 0 then p_fprintf 2 (nl (str "find:cannot open %s")) [PStr (Some dir)] else
      q ← call2 (SFstat fd);
      if q.1 <? 0 then
        _ ← p_fprintf 2 (nl (str "find:cannot stat %s")) [PStr (Some dir)];
        _ ← call (SClose fd); mret tt
      else if negb (st_type q.2 =? T_DIR) then
        _ ← p_fprintf 2 (nl (str "%s not a director")) [PStr (Some dir)];
        _ ← call (SClose fd); mret tt
      else if 512 <? u32 (u_strlen dir + 1 + DIRSIZ + 1) then
        _ ← p_fprintf 2 (nl (str "find:director is too long")) [];
        _ ← call (SClose fd); mret tt
      else find_loop (fun d => find file after junk d fuel) fd dir file after junk fuel
  end.

Definition find_main (argv : list (list Z)) (after junk : list Z) (fuel : nat) : uprog unit :=
  match argv with
  | [_; dir; file] => _ ← find file after junk dir fuel; UExit 0
  | _ => _ ← p_fprintf 2 (nl (str "usage: find dirName fileName")) []; UExit 1
  end.

(** ** xargs.c *)

(** The child goes on after an exec that fails, in the loop of its caller. *)
Definition xargs_exec (program : list Z) (paraments : list (list Z)) : uprog unit :=
  pid ← call SFork;
  if 0 <? pid then _ ← call SWait; mret tt
  else
    r ← call (SExec program paraments);
    if r =? -1 then p_fprintf 2 (nl (str "xargs:error exec")) [] else mret tt.

(** [line] are the characters in [buf] before [m].  The read stores at
    [buf + m], which is outside [buf] when [m] is 1024: the test of [m] with
    its message and exit(1) comes after that.  The number of arguments is not
    checked against the size of [arg]. *)
Fixpoint xargs_loop (first_arg : list (list Z)) (program_name line : list Z) (fuel : nat) : uprog unit :=
  match fuel with
  | O => UNoFuel
  | S fuel =>
      r ← call2 (SRead 0 1);
      if negb (r.1 =? 1) then mret tt
      else if (1024 <=? length line)%nat then UStuck
      else
        let c := u_hd r.2 in
        if c =? 10 then
          let arg := match first_arg with [] => [program_name] | _ => first_arg end in
          if MAXARG <? Z.of_nat (length arg) + 2 then UStuck
          else
            _ ← xargs_exec program_name (arg ++ [cstring line]);
            xargs_loop first_arg program_name [] fuel
        else xargs_loop first_arg program_name (line ++ [c]) fuel
  end.

Definition xargs_main (argv : list (list Z)) (fuel : nat) : uprog unit :=
  let name := match argv with _ :: a :: _ => a | _ => str "echo" end in
  _ ← xargs_loop (tail argv) name [] fuel;
  UExit 0.
