(* ===== verification/CommandsSpec.v ===== *)
(** * What find and xargs do: proofs about user/find.c and user/xargs.c

    find runs against a file system given as a function from paths to files
    and directories, with NOFILE descriptors ([answer]).  [tree_at] relates it
    to a tree; find prints the paths of the files in the tree with the name
    asked for.  Since find does not close the directories it has read, this is
    so only as long as there are descriptors for all of them. *)

From Stdlib Require Import ZArith Lia.
From stdpp Require Import base gmap list numbers strings.
From S2P Require Import Prelude Riscv Fs Printf User Procs Commands.
Local Open Scope Z_scope.

Definition char_ok (c : Z) : Prop := 0 < c < 256.

(** ** Output *)

Lemma cstring_id l : Forall char_ok l -> cstring l = l.
Proof. induction 1 as [|c l Hc _ IH]; [done|]. cbn [cstring]. unfold char_ok in Hc. bfalse (c =? 0). by rewrite IH. Qed.

(** printf("%s\n", p) *)
Lemma print_line fd p : Forall char_ok p -> print_calls fd (nl (str "%s")) [PStr (Some p)] = Some (char_writes fd (p ++ [10])).
Proof. intros Hp. apply print_calls_format. cbn. by rewrite cstring_id. Qed.

(** ** Files and descriptors *)

Record dobj : Type := mkDobj { ob_type : Z; ob_ino : Z; ob_size : Z; ob_data : list Z }.

Record denv : Type := mkDenv {
  dv_fds : list (option (dobj * nat));     (* open files with their offsets *)
  dv_out : list (Z * list Z)               (* the writes *)
}.

Section fs.
Context (fs : list Z -> option dobj).

Definition fds_set (k : nat) (x : option (dobj * nat)) (s : denv) : denv := mkDenv (<[k := x]> (dv_fds s)) (dv_out s).
Definition fd_lookup (fd : Z) (s : denv) : option (dobj * nat) :=
  if 0 <=? fd then mjoin (dv_fds s !! Z.to_nat fd) else None.

Definition answer (s : denv) (c : scall) : denv * reply :=
  match c with
  | SOpen path _ =>
      match fs path, list_find (fun x => x = None) (dv_fds s) with
      | Some o, Some (k, _) => (fds_set k (Some (o, 0%nat)) s, (Z.of_nat k, []))
      | _, _ => (s, (-1, []))
      end
  | SFstat fd =>
      match fd_lookup fd s with
      | Some (o, _) => (s, (0, [1; ob_ino o; ob_type o; 1; ob_size o]))
      | None => (s, (-1, []))
      end
  | SRead fd n =>
      match fd_lookup fd s with
      | Some (o, off) =>
          let d := slice off (Z.to_nat n) (ob_data o) in
          (fds_set (Z.to_nat fd) (Some (o, (off + length d)%nat)) s, (Z.of_nat (length d), d))
      | None => (s, (-1, []))
      end
  | SClose fd =>
      match fd_lookup fd s with
      | Some _ => (fds_set (Z.to_nat fd) None s, (0, []))
      | None => (s, (-1, []))
      end
  | SWrite fd l => (mkDenv (dv_fds s) (dv_out s ++ [(fd, l)]), (Z.of_nat (length l), []))
  | _ => (s, (-1, []))
  end.

Abbreviation run := (serve answer).

Lemma run_emit ws s : run (emit ws) s = (mkDenv (dv_fds s) (dv_out s ++ ws), ERet tt).
Proof.
  revert s. induction ws as [|[fd l] ws IH]; intros [f o]; cbn; [by rewrite app_nil_r|]. rewrite IH. cbn. by rewrite <-app_assoc.
Qed.

(** The number of free descriptors. *)
Definition nfree_fds (s : denv) : nat := length (filter (fun x => x = None) (dv_fds s)).

Lemma nfree_insert l k x : l !! k = Some None ->
  length (filter (fun x : option (dobj * nat) => x = None) l) = S (length (filter (fun x => x = None) (<[k := Some x]> l))).
Proof.
  revert k. induction l as [|y l IH]; intros k Hk; [done|]. destruct k as [|k]; cbn in Hk.
  - injection Hk as ->. change (<[0%nat := Some x]> (None :: l)) with (Some x :: l). by rewrite filter_cons_True, filter_cons_False by done.
  - change (<[S k := Some x]> (y :: l)) with (y :: <[k := Some x]> l). destruct (decide (y = None)) as [->|Hy].
    + rewrite !filter_cons_True by done. cbn [length]. by rewrite (IH k).
    + rewrite !filter_cons_False by done. by apply IH.
Qed.

Lemma find_free s : (0 < nfree_fds s)%nat -> exists k, list_find (fun x => x = None) (dv_fds s) = Some (k, None) /\ dv_fds s !! k = Some None.
Proof.
  intros H. unfold nfree_fds in H. destruct (list_find (fun x => x = None) (dv_fds s)) as [[k x]|] eqn:E.
  - apply list_find_Some in E as (E1 & -> & _). by exists k.
  - apply list_find_None in E. assert (filter (fun x => x = None) (dv_fds s) = []) as Hn.
    { generalize dependent (dv_fds s). intros l _ E. induction E as [|y l Hy _ IH]; [done|]. by rewrite filter_cons_False. }
    rewrite Hn in H. simpl in H. lia.
Qed.

Lemma run_open path o s : fs path = Some o -> (0 < nfree_fds s)%nat ->
  exists k, dv_fds s !! k = Some None /\ answer s (SOpen path 0) = (fds_set k (Some (o, 0%nat)) s, (Z.of_nat k, [])).
Proof. intros Ho Hn. destruct (find_free s Hn) as (k & E1 & E2). exists k. split; [done|]. cbn. by rewrite Ho, E1. Qed.

Lemma fd_lookup_set k x s : (k < length (dv_fds s))%nat -> fd_lookup (Z.of_nat k) (fds_set k x s) = x.
Proof.
  intros Hk. unfold fd_lookup, fds_set. cbn [dv_fds]. btrue (0 <=? Z.of_nat k). rewrite Nat2Z.id, list_lookup_insert_eq by done. done.
Qed.

(** stat leaves no trace. *)
Lemma run_stat path o s : fs path = Some o -> (0 < nfree_fds s)%nat ->
  run (u_stat path) s = (s, ERet (0, [1; ob_ino o; ob_type o; 1; ob_size o])).
Proof.
  intros Ho Hn. destruct (run_open path o s Ho Hn) as (k & Hk & E). unfold u_stat. rewrite serve_bind.
  change (run (call (SOpen path O_RDONLY)) s) with (let r := answer s (SOpen path 0) in (r.1, @ERet Z r.2.1)). rewrite E. cbn [fst snd].
  bfalse (Z.of_nat k <? 0). pose proof (lookup_lt_Some _ _ _ Hk) as Hl. rewrite serve_bind. unfold call2. cbn [serve answer].
  rewrite fd_lookup_set by done. cbn [fst snd]. rewrite serve_bind. unfold call. cbn [serve answer]. rewrite fd_lookup_set by done. cbn [fst snd].
  unfold fds_set. cbn [dv_fds dv_out]. rewrite Nat2Z.id, list_insert_insert_eq, list_insert_id by done. by destruct s.
Qed.

(** ** Trees *)

Inductive ftree : Type :=
| TFile
| TOther                                    (* a device *)
| TDir (es : list (list Z * ftree)).

(** A name in a directory entry; the longest ones have no NUL and are left out. *)
Definition padded (name : list Z) : list Z := name ++ repeat 0 (14 - length name).
Definition name_ok (name : list Z) : Prop := (0 < length name < 14)%nat /\ Forall char_ok name.
Definition is_dots (name : list Z) : Prop := name = str "." \/ name = str "..".

(** The bytes of a directory with the entries [es], apart from unused entries,
    "." and "..". *)
Inductive dir_bytes : list Z -> list (list Z * ftree) -> Prop :=
| db_nil : dir_bytes [] []
| db_unused d data es : length d = 16%nat -> ld16 0 d = 0 -> dir_bytes data es -> dir_bytes (d ++ data) es
| db_dots d data name es : length d = 16%nat -> slice 2 14 d = padded name -> is_dots name -> dir_bytes data es -> dir_bytes (d ++ data) es
| db_entry d data name t es : length d = 16%nat -> ld16 0 d <> 0 -> slice 2 14 d = padded name -> name_ok name -> ~ is_dots name ->
    dir_bytes data es -> dir_bytes (d ++ data) ((name, t) :: es).

(** The file system has the tree [t] at [path]; [n] bounds its depth and the
    numbers of entries of its directories. *)
Inductive tree_at : nat -> list Z -> ftree -> Prop :=
| at_file n path o : fs path = Some o -> ob_type o = T_FILE -> tree_at n path TFile
| at_other n path o : fs path = Some o -> ob_type o <> T_FILE -> ob_type o <> T_DIR -> tree_at n path TOther
| at_dir n path o es : fs path = Some o -> ob_type o = T_DIR -> dir_bytes (ob_data o) es -> (length (ob_data o) < 16 * n)%nat ->
    (length path + 16 <= 512)%nat -> Forall (fun e => tree_at n (path ++ [47] ++ e.1) e.2) es -> tree_at (S n) path (TDir es).

(** The files named [file] in a tree, in the order of the entries. *)
Fixpoint found (file path : list Z) (t : ftree) : list (list Z) :=
  match t with
  | TDir es => es ≫= fun e =>
      let p := path ++ [47] ++ e.1 in
      match e.2 with
      | TFile => if decide (e.1 = file) then [p] else []
      | _ => found file p e.2
      end
  | _ => []
  end.

(** The number of directories. *)
Fixpoint ndirs (t : ftree) : nat :=
  match t with
  | TDir es => S (sum_list_with (fun e => ndirs e.2) es)
  | _ => 0
  end.

(** ** Names *)

Lemma strcmp_nul p q r : Forall char_ok p -> Forall char_ok q -> u_strcmp (p ++ 0 :: r) q = 0 <-> p = q.
Proof.
  intros Hp. revert q. induction Hp as [|x p Hx _ IH]; intros q Hq; cbn [app u_strcmp].
  - change (negb (0 =? 0)) with false. cbn [andb]. destruct q as [|y q]; [done|]. inversion Hq as [|? ? Hy _]; subst. cbn [u_hd].
    unfold char_ok in Hy. rewrite (u8_small y), (u8_small 0) by lia. split; [lia|done].
  - unfold char_ok in Hx. bfalse (x =? 0). cbn [negb andb]. destruct q as [|y q]; cbn [u_hd tail].
    + bfalse (x =? 0). rewrite (u8_small x), (u8_small 0) by lia. split; [lia|done].
    + inversion Hq as [|? ? Hy Hq']; subst. unfold char_ok in Hy. destruct (Z.eqb_spec x y) as [->|Hne].
      * rewrite IH by done. split; [by intros ->|by intros [= ->]].
      * rewrite (u8_small x), (u8_small y) by lia. split; [lia|congruence].
Qed.

Lemma name_cmp_padded name after q : name_ok name -> Forall char_ok q -> name_cmp (padded name) after q = 0 <-> name = q.
Proof.
  intros [Hl Hc] Hq. unfold name_cmp, padded. destruct (14 - length name)%nat as [|k] eqn:E; [lia|]. cbn [repeat].
  rewrite <-app_assoc. cbn [app]. by apply strcmp_nul.
Qed.

Lemma cstring_padded name : name_ok name -> cstring (padded name) = name.
Proof.
  intros [Hl Hc]. unfold padded. destruct (14 - length name)%nat as [|k] eqn:E; [lia|]. cbn [repeat]. apply cstring_app.
  eapply Forall_impl; [exact Hc|]. unfold char_ok. cbn. lia.
Qed.

Lemma dots_ok name : is_dots name -> name_ok name.
Proof. intros [->| ->]; (split; [cbn; lia|repeat constructor]). Qed.

Lemma name_cmp_dots name after : name_ok name ->
  (name_cmp (padded name) after (str ".") =? 0) || (name_cmp (padded name) after (str "..") =? 0) = bool_decide (is_dots name).
Proof.
  intros Hn. pose proof (name_cmp_padded name after (str ".") Hn ltac:(repeat constructor)) as H1.
  pose proof (name_cmp_padded name after (str "..") Hn ltac:(repeat constructor)) as H2. unfold is_dots.
  destruct (Z.eqb_spec (name_cmp (padded name) after (str ".")) 0), (Z.eqb_spec (name_cmp (padded name) after (str "..")) 0);
    cbn [orb]; symmetry; first [apply bool_decide_eq_true_2; tauto|apply bool_decide_eq_false_2; tauto].
Qed.

(** What is in [de] after a whole entry [d] was read. *)
Lemma entry_read d de : length d = 16%nat -> de_inum' (mem_store d de) = ld16 0 d /\ de_name' (mem_store d de) = slice 2 14 d.
Proof.
  intros Hd. unfold de_inum', de_name', mem_store, ld16, slice. change (Z.to_nat DIRSIZ) with 14%nat.
  rewrite !drop_0, !take_app_le by lia. split; [done|]. rewrite drop_app_le by lia. by rewrite take_app_le by (rewrite length_drop; lia).
Qed.

(** ** find *)

Definition lines (ps : list (list Z)) : list (Z * list Z) := ps ≫= fun p => char_writes 1 (p ++ [10]).

(** [s'] has the output [ps] more, [n] descriptors more in use, and the files
    that were open but [k] as before. *)
Record found_post (ps : list (list Z)) (n : nat) (k : option nat) (s s' : denv) : Prop := mkFoundPost {
  fp_out : dv_out s' = dv_out s ++ lines ps;
  fp_free : (nfree_fds s' + n = nfree_fds s)%nat;
  fp_open : forall j x, Some j <> k -> dv_fds s !! j = Some (Some x) -> dv_fds s' !! j = Some (Some x)
}.

Lemma found_post_trans ps1 n1 k1 ps2 n2 k s1 s2 s3 :
  found_post ps1 n1 k1 s1 s2 -> found_post ps2 n2 k s2 s3 -> (forall j, Some j <> k -> Some j <> k1) ->
  found_post (ps1 ++ ps2) (n1 + n2) k s1 s3.
Proof.
  intros [A1 A2 A3] [B1 B2 B3] Hk. split.
  - unfold lines. rewrite bind_app, B1, A1. by rewrite <-app_assoc.
  - lia.
  - intros j x Hj Hx. apply B3; [done|]. apply A3; auto.
Qed.

(** Reading the next entry of an open directory. *)
Lemma read_entry s k o off d data :
  dv_fds s !! k = Some (Some (o, off)) -> drop off (ob_data o) = d ++ data -> length d = 16%nat ->
  exists s', answer s (SRead (Z.of_nat k) 16) = (s', (16, d)) /\ dv_fds s' !! k = Some (Some (o, (off + 16)%nat)) /\
    drop (off + 16) (ob_data o) = data /\ found_post [] 0 (Some k) s s'.
Proof.
  intros Hk Hd Hl. pose proof (lookup_lt_Some _ _ _ Hk) as Hlt.
  assert (Hs : slice off 16 (ob_data o) = d) by (unfold slice; rewrite Hd, take_app_le by lia; by rewrite take_ge by lia).
  exists (fds_set k (Some (o, (off + 16)%nat)) s). split_and!.
  - cbn [answer]. unfold fd_lookup. btrue (0 <=? Z.of_nat k). rewrite Nat2Z.id, Hk. cbn [mjoin option_join].
    change (Z.to_nat 16) with 16%nat. by rewrite Hs, Hl.
  - cbn [dv_fds fds_set]. by rewrite list_lookup_insert_eq.
  - rewrite <-drop_drop, Hd. by rewrite drop_app_ge, Hl, Nat.sub_diag by lia.
  - split; cbn [dv_out fds_set dv_fds].
    + cbn. by rewrite app_nil_r.
    + unfold nfree_fds. cbn [dv_fds fds_set].
      assert (Hg : forall l j x y, l !! j = Some (Some x) -> length (filter (fun z : option (dobj * nat) => z = None) (<[j := Some y]> l)) =
        length (filter (fun z => z = None) l)).
      { induction l as [|z l IH]; intros j x y Hj; [done|]. destruct j as [|j]; cbn in Hj.
        - injection Hj as ->. change (<[0%nat := Some y]> (Some x :: l)) with (Some y :: l). by rewrite !filter_cons_False by done.
        - change (<[S j := Some y]> (z :: l)) with (z :: <[j := Some y]> l).
          destruct (decide (z = None)); [rewrite !filter_cons_True by done; cbn [length]|rewrite !filter_cons_False by done]; erewrite IH; eauto. }
      rewrite (Hg _ _ _ _ Hk). lia.
    + intros j x Hj Hx. rewrite list_lookup_insert_ne by congruence. done.
Qed.

Section find.
Context (file after junk : list Z) (Hfile : Forall char_ok file).

(** What is found below an entry. *)
Definition found_entry (dir : list Z) (e : list Z * ftree) : list (list Z) :=
  let p := dir ++ [47] ++ e.1 in
  match e.2 with
  | TFile => if decide (e.1 = file) then [p] else []
  | _ => found file p e.2
  end.

(** [rec] searches the directories of trees bounded by [m]. *)
Definition finds (m : nat) (rec : list Z -> uprog unit) : Prop :=
  forall path es s, tree_at m path (TDir es) -> Forall char_ok path -> (ndirs (TDir es) < nfree_fds s)%nat ->
    exists s', run (rec path) s = (s', ERet tt) /\ found_post (found file path (TDir es)) (ndirs (TDir es)) None s s'.

(** The work on one entry. *)
Definition visit (rec : list Z -> uprog unit) (buf name : list Z) : uprog unit :=
  q ← u_stat buf;
  if q.1 <? 0 then p_fprintf 2 (str "find:cannot stat %s") [PStr (Some buf)]
  else if st_type q.2 =? T_DIR then rec buf
  else if (st_type q.2 =? T_FILE) && (name_cmp name after file =? 0) then p_printf (nl (str "%s")) [PStr (Some buf)]
  else mret tt.

Lemma visit_ok m rec dir name t s :
  finds m rec -> tree_at m (dir ++ [47] ++ name) t -> Forall char_ok dir -> name_ok name -> (ndirs t < nfree_fds s)%nat ->
  exists s', run (visit rec (find_path dir (padded name)) (padded name)) s = (s', ERet tt) /\ found_post (found_entry dir (name, t)) (ndirs t) None s s'.
Proof.
  intros Hrec Ht Hdir Hn Hfree. unfold find_path. rewrite cstring_padded by done. set (buf := dir ++ [47] ++ name) in *.
  assert (Hbuf : Forall char_ok buf) by (unfold buf; rewrite !Forall_app; split_and!; [done|by repeat constructor|apply Hn]).
  assert (Hstat : exists o, fs buf = Some o) by (inversion Ht; eauto). destruct Hstat as [o Ho].
  unfold visit. rewrite serve_bind, (run_stat buf o) by (done || lia). cbn [fst snd]. change (0 <? 0) with false. cbn match.
  change (st_type [1; ob_ino o; ob_type o; 1; ob_size o]) with (ob_type o). unfold found_entry. cbn [fst snd]. fold buf.
  destruct t as [| |es].
  - assert (Eo : ob_type o = T_FILE) by (inversion Ht; congruence). rewrite Eo. change (T_FILE =? T_DIR) with false. cbn match.
    change (T_FILE =? T_FILE) with true. cbn [andb]. pose proof (name_cmp_padded name after file Hn Hfile) as Hc. case_decide as Hf.
    + rewrite (proj2 Hc Hf). change (0 =? 0) with true. cbn match. unfold p_printf, p_fprintf. rewrite print_line by done. rewrite run_emit.
      eexists. split; [reflexivity|]. split; [cbn; by rewrite app_nil_r|cbn; unfold nfree_fds; cbn; lia|done].
    + rewrite (proj2 (Z.eqb_neq _ _)) by (by rewrite Hc). exists s. split; [done|]. split; [cbn; by rewrite app_nil_r|cbn; lia|done].
  - assert (Eo : ob_type o <> T_FILE /\ ob_type o <> T_DIR) by (inversion Ht; naive_solver).
    rewrite !(proj2 (Z.eqb_neq _ _)) by apply Eo. cbn [andb]. exists s. split; [done|]. split; [cbn; by rewrite app_nil_r|cbn; lia|done].
  - assert (Eo : ob_type o = T_DIR) by (inversion Ht; congruence). rewrite Eo, Z.eqb_refl. by apply Hrec.
Qed.

Lemma serve_assoc {A B C} (m : uprog A) (f : A -> uprog B) (g : B -> uprog C) s :
  run (m ≫= fun a => f a ≫= g) s = run ((m ≫= f) ≫= g) s.
Proof. rewrite !serve_bind. destruct (run m s) as [s' [a| | |]]; try done. by rewrite serve_bind. Qed.

Lemma run_read fd n s s' r : answer s (SRead fd n) = (s', r) -> serve (A := Z * list Z) answer (call2 (SRead fd n)) s = (s', ERet r).
Proof. intros E. unfold call2. cbn [serve]. by rewrite E. Qed.

Lemma loop_found m rec dir data es :
  finds m rec -> Forall char_ok dir -> dir_bytes data es ->
  forall fuel de s k o off, dv_fds s !! k = Some (Some (o, off)) -> drop off (ob_data o) = data -> (length data < 16 * fuel)%nat ->
  Forall (fun e => tree_at m (dir ++ [47] ++ e.1) e.2) es -> (sum_list_with (fun e => ndirs e.2) es < nfree_fds s)%nat ->
  exists s', run (find_loop rec (Z.of_nat k) dir file after de fuel) s = (s', ERet tt) /\
    found_post (es ≫= found_entry dir) (sum_list_with (fun e => ndirs e.2) es) (Some k) s s'.
Proof.
  intros Hrec Hdir Hdb. induction Hdb as [|d data es Hl H0 Hdb IH|d data name es Hl Hn Hd Hdb IH|d data name t es Hl H0 Hn Hok Hnd Hdb IH];
    intros fuel de s k o off Hk Hdrop Hfuel Hes Hfree; (destruct fuel as [|fuel]; [simpl in Hfuel; lia|]); cbn [find_loop]; rewrite serve_bind.
  - pose proof (lookup_lt_Some _ _ _ Hk) as Hlt. erewrite run_read.
    2: { cbn [answer]. unfold fd_lookup. btrue (0 <=? Z.of_nat k). rewrite Nat2Z.id, Hk. cbn [mjoin option_join].
         assert (Hsl : slice off (Z.to_nat 16) (ob_data o) = []) by (unfold slice; by rewrite Hdrop). by rewrite Hsl. }
    cbn [fst snd]. eexists. split; [reflexivity|]. unfold fds_set. cbn [length]. rewrite ?Nat2Z.id, Nat.add_0_r, list_insert_id by done.
    split; cbn; [by rewrite app_nil_r|unfold nfree_fds; cbn; lia|done].
  - destruct (read_entry s k o off d data Hk Hdrop Hl) as (s1 & E1 & Hk1 & Hdrop1 & P1). rewrite (run_read _ _ _ _ _ E1). cbn [fst snd].
    change (16 =? 0) with false. cbn match. destruct (entry_read d de Hl) as [-> ->]. rewrite H0. cbn match.
    rewrite length_app in Hfuel. destruct (IH fuel (mem_store d de) s1 k o (off + 16)%nat Hk1 Hdrop1 ltac:(lia) Hes) as (s2 & R2 & P2).
    { pose proof (fp_free _ _ _ _ _ P1). lia. }
    exists s2. split; [exact R2|]. exact (found_post_trans _ _ _ _ _ _ _ _ _ P1 P2 (fun j H => H)).
  - destruct (read_entry s k o off d data Hk Hdrop Hl) as (s1 & E1 & Hk1 & Hdrop1 & P1). rewrite (run_read _ _ _ _ _ E1). cbn [fst snd].
    change (16 =? 0) with false. cbn match. destruct (entry_read d de Hl) as [-> ->]. rewrite Hn, name_cmp_dots by by apply dots_ok.
    rewrite bool_decide_eq_true_2 by done.
    rewrite length_app in Hfuel. destruct (IH fuel (mem_store d de) s1 k o (off + 16)%nat Hk1 Hdrop1 ltac:(lia) Hes) as (s2 & R2 & P2).
    { pose proof (fp_free _ _ _ _ _ P1). lia. }
    exists s2. split; [by destruct (ld16 0 d =? 0)|]. exact (found_post_trans _ _ _ _ _ _ _ _ _ P1 P2 (fun j H => H)).
  - destruct (read_entry s k o off d data Hk Hdrop Hl) as (s1 & E1 & Hk1 & Hdrop1 & P1). rewrite (run_read _ _ _ _ _ E1). cbn [fst snd].
    change (16 =? 0) with false. cbn match. destruct (entry_read d de Hl) as [-> ->]. rewrite (proj2 (Z.eqb_neq _ _) H0), Hn, name_cmp_dots by done.
    rewrite bool_decide_eq_false_2 by done. rewrite serve_assoc. fold (visit rec (find_path dir (padded name)) (padded name)). rewrite serve_bind.
    inversion Hes as [|? ? Ht Hes']; subst. cbn [sum_list_with fst snd] in *. pose proof (fp_free _ _ _ _ _ P1) as F1.
    destruct (visit_ok m rec dir name t s1 Hrec Ht Hdir Hok ltac:(lia)) as (s2 & R2 & P2). rewrite R2.
    rewrite length_app in Hfuel. pose proof (fp_free _ _ _ _ _ P2) as F2. pose proof (fp_open _ _ _ _ _ P2 k _ ltac:(done) Hk1) as Hk2.
    destruct (IH fuel (mem_store d de) s2 k o (off + 16)%nat Hk2 eq_refl ltac:(lia) Hes' ltac:(lia)) as (s3 & R3 & P3).
    exists s3. split; [exact R3|]. rewrite bind_cons.
    apply (found_post_trans [] 0 (Some k) _ _ _ _ _ _ P1); [|done]. by eapply found_post_trans.
Qed.

Lemma strlen_from l n : Forall char_ok l -> u_strlen_from l n = n + Z.of_nat (length l).
Proof.
  intros Hl. revert n. induction Hl as [|c l Hc _ IH]; intros n; cbn [u_strlen_from length]; [lia|].
  unfold char_ok in Hc. bfalse (c =? 0). rewrite IH. lia.
Qed.
Lemma strlen_fits path : Forall char_ok path -> (length path + 16 <= 512)%nat -> 512 <? u32 (u_strlen path + 1 + DIRSIZ + 1) = false.
Proof.
  intros Hp Hl. unfold u_strlen. rewrite strlen_from by done. change DIRSIZ with 14. rewrite !u32_small by (rewrite ?u32_small; lia).
  apply Z.ltb_ge. lia.
Qed.

Lemma find_ok n : finds n (fun d => find file after junk d n).
Proof.
  induction n as [|n IH]; intros path es s Ht Hpath Hfree; inversion Ht as [| |? ? o ? Ho Ety Hdb Hlen Hp Hes]; subst.
  cbn [find ndirs] in *. destruct (run_open path o s Ho ltac:(lia)) as (k & Hk & E).
  pose proof (lookup_lt_Some _ _ _ Hk) as Hlt. set (s1 := fds_set k (Some (o, 0%nat)) s) in *.
  rewrite serve_bind. change (run (call (SOpen path 0)) s) with (let r := answer s (SOpen path 0) in (r.1, @ERet Z r.2.1)). rewrite E. cbn [fst snd].
  bfalse (Z.of_nat k <? 0). rewrite serve_bind. unfold call2. cbn [serve answer].
  assert (El : fd_lookup (Z.of_nat k) s1 = Some (o, 0%nat)) by by apply fd_lookup_set. rewrite El. cbn [fst snd].
  change (0 <? 0) with false. change (st_type [1; ob_ino o; ob_type o; 1; ob_size o]) with (ob_type o). rewrite Ety. cbn match.
  change (T_DIR =? T_DIR) with true. cbn [negb].
  rewrite (strlen_fits path Hpath Hp).
  assert (F1 : nfree_fds s = S (nfree_fds s1)) by (by apply nfree_insert).
  assert (Hk1 : dv_fds s1 !! k = Some (Some (o, 0%nat))) by (cbn; by rewrite list_lookup_insert_eq).
  destruct (loop_found n _ path (ob_data o) es IH Hpath Hdb n junk s1 k o 0%nat Hk1 eq_refl Hlen Hes ltac:(lia)) as (s2 & R2 & [P1 P2 P3]).
  exists s2. split; [exact R2|]. split.
  - exact P1.
  - cbn [sum_list_with] in *. lia.
  - intros j x _ Hx. apply P3; [congruence|]. cbn. by rewrite list_lookup_insert_ne by congruence.
Qed.
End find.

(** C32: find prints the paths of the files with the given name in the tree below
    the directory, in the order of the entries, and ends, provided that the
    names in the tree have at most 13 characters, the paths of its directories
    at most 496, and that there is a descriptor for every directory of the
    tree and one more; it leaves as many descriptors open. *)
Theorem find_spec n prog dir file after junk es s :
  tree_at n dir (TDir es) -> Forall char_ok dir -> Forall char_ok file -> (ndirs (TDir es) < nfree_fds s)%nat ->
  exists s', run (find_main [prog; dir; file] after junk n) s = (s', EExit 0) /\
    dv_out s' = dv_out s ++ lines (found file dir (TDir es)) /\ (nfree_fds s' + ndirs (TDir es) = nfree_fds s)%nat.
Proof.
  intros Ht Hd Hf Hn. destruct (find_ok file after junk Hf n dir es s Ht Hd Hn) as (s' & R & [P1 P2 _]).
  exists s'. split_and!; [|done|done]. unfold find_main. rewrite serve_bind, R. done.
Qed.
End fs.

(** ** A file system for the examples *)

(** A root directory with the [n] subdirectories "a", "b", ..., each of which
    has a file "x". *)
Definition ex_entry (name : list Z) : list Z := le_bytes 2 7 ++ padded name.
Definition ex_names (n : nat) : list (list Z) := (fun k => [97 + Z.of_nat k]) <$> seq 0 n.
Definition ex_dir (names : list (list Z)) : dobj :=
  mkDobj T_DIR 7 (Z.of_nat (16 * (2 + length names))) ((str "." :: str ".." :: names) ≫= ex_entry).
Definition ex_fs (n : nat) (path : list Z) : option dobj :=
  if decide (path = str ".") then Some (ex_dir (ex_names n))
  else if decide (path ∈ (fun d => str "./" ++ d) <$> ex_names n) then Some (ex_dir [str "x"])
  else if decide (path ∈ (fun d => str "./" ++ d ++ str "/x") <$> ex_names n) then Some (mkDobj T_FILE 9 0 [])
  else None.
Definition ex_tree (n : nat) : ftree := TDir ((fun d => (d, TDir [(str "x", TFile)])) <$> ex_names n).
(** Three descriptors in use, as the shell starts programs. *)
Definition ex_env : denv := mkDenv (replicate 3 (Some (mkDobj T_DEVICE 2 0 [], 0%nat)) ++ replicate 13 None) [].

Lemma ex_dir_bytes names es :
  names = es.*1 -> Forall (fun n => name_ok n /\ ~ is_dots n) names -> dir_bytes (ob_data (ex_dir names)) es.
Proof.
  intros -> Hn. cbn [ob_data ex_dir]. rewrite !bind_cons.
  assert (Hl : forall name, name_ok name -> length (ex_entry name) = 16%nat /\ ld16 0 (ex_entry name) <> 0 /\ slice 2 14 (ex_entry name) = padded name).
  { intros name [Hl _]. assert (Hp : length (padded name) = 14%nat) by (unfold padded; rewrite length_app, repeat_length; lia).
    unfold ex_entry. split_and!; [rewrite length_app, le_bytes_length; lia| |].
    - unfold ld16, slice. rewrite drop_0, take_app_le, take_ge by (rewrite le_bytes_length; lia). by vm_compute.
    - unfold slice. rewrite drop_app_ge by (rewrite le_bytes_length; lia). rewrite le_bytes_length. simpl. rewrite drop_0. apply take_ge. lia. }
  apply (db_dots _ _ (str ".")); [done|done|by left|]. apply (db_dots _ _ (str "..")); [done|done|by right|].
  induction es as [|[name t] es IH]; [constructor|]. inversion Hn as [|? ? [H1 H2] Hn']; subst. cbn [fmap list_fmap fst]. rewrite bind_cons.
  destruct (Hl name H1) as (L1 & L2 & L3). eapply db_entry; try done. by apply IH.
Qed.

Lemma ex_tree_at : tree_at (ex_fs 2) 8 (str ".") (ex_tree 2).
Proof.
  assert (Hn : forall c, 97 <= c <= 120 -> name_ok [c] /\ ~ is_dots [c]).
  { intros c Hc. split; [split; [cbn; lia|repeat constructor; unfold char_ok; lia]|]. intros [E|E]; [|done]. injection E as ->. lia. }
  eapply at_dir; [reflexivity|done| |cbn; lia|cbn; lia|].
  - apply ex_dir_bytes; [done|]. repeat constructor; apply Hn; lia.
  - repeat constructor; (eapply at_dir; [reflexivity|done| |cbn; lia|cbn; lia|]).
    1,3: (apply ex_dir_bytes; [done|]; repeat constructor; apply Hn; cbn; lia).
    all: repeat constructor; eapply at_file; [reflexivity|done].
Qed.

Lemma find_spec_witness :
  exists s', serve (answer (ex_fs 2)) (find_main [str "find"; str "."; str "x"] [] (repeat 0 16) 8) ex_env = (s', EExit 0) /\
    dv_out s' = dv_out ex_env ++ lines (found (str "x") (str ".") (ex_tree 2)) /\ (nfree_fds s' + 3 = nfree_fds ex_env)%nat.
Proof.
  apply (find_spec (ex_fs 2) 8 (str "find") (str ".") (str "x") [] (repeat 0 16) _ ex_env ex_tree_at).
  - by repeat constructor.
  - by repeat constructor.
  - apply Nat.ltb_lt. vm_compute. reflexivity.
Defined.

(** Since find leaves the directories open, it misses files in a tree of more
    directories than a process can have descriptors for: with 13
    subdirectories it finds only 11 of the 13 files. *)
Theorem find_leak : exists s',
  serve (answer (ex_fs 13)) (find_main [str "find"; str "."; str "x"] [] (repeat 0 16) 20) ex_env = (s', EExit 0) /\
  filter (fun w => w.1 = 1) (dv_out s') = lines (take 11 (found (str "x") (str ".") (ex_tree 13))) /\
  length (found (str "x") (str ".") (ex_tree 13)) = 13%nat /\ nfree_fds s' = 0%nat.
Proof. eexists. split_and!; vm_compute; reflexivity. Qed.

(** ** xargs *)

(** What xargs does to the rest of the system: it starts a program in a child,
    waits for a child that has not been waited for, or makes another call. *)
Inductive xevent : Type :=
| XStart (path : list Z) (argv : list (list Z))
| XWait
| XOther (s : scall).

(** xargs with [inp] on its standard input and [kids] children that it has not
    waited for, when fork and exec succeed: the events, and how xargs ends. *)
Fixpoint xrun (m : uprog unit) (inp : list Z) (kids : nat) : list xevent * ended unit :=
  match m with
  | UCall (SRead _ _) k =>
      match inp with [] => xrun (k (0, [])) [] kids | c :: inp => xrun (k (1, [c])) inp kids end
  | UCall SFork k =>
      match k (0, []) with
      | UCall (SExec path argv) _ => let r := xrun (k (5, [])) inp (S kids) in (XStart path argv :: r.1, r.2)
      | _ => ([], EStuck)
      end
  | UCall SWait k =>
      match kids with
      | O => let r := xrun (k (-1, [])) inp O in (XOther SWait :: r.1, r.2)
      | S kids => let r := xrun (k (5, [])) inp kids in (XWait :: r.1, r.2)
      end
  | UCall s k => let r := xrun (k (5, [])) inp kids in (XOther s :: r.1, r.2)
  | URet _ => ([], ERet tt)
  | UExit n => ([], EExit n)
  | UStuck => ([], EStuck)
  | UNoFuel => ([], ENoFuel)
  end.






(** The length of a line is checked after the character was stored: a line of
    1025 characters is stored outside the buffer. *)
Theorem xargs_overflow prog args : xrun (xargs_main (prog :: args) 1026) (repeat 97 1025) 0 = ([], EStuck).
Proof. destruct args as [|a args]; vm_compute; reflexivity. Qed.
