(* ===== verification/Grind.v ===== *)
(** * The random numbers of user/grind.c

    [do_rand] computes the Park-Miller sequence x := 7^5 x mod (2^31 - 1)
    without products of more than 31 bits. *)

From Stdlib Require Import ZArith Lia Znumtheory.
From stdpp Require Import base gmap list numbers strings.
From S2P Require Import Prelude.
Local Open Scope Z_scope.

(** [*ctx] is an unsigned long, the other variables are longs: division and
    remainder round to zero.  The value returned, as an int, and the new
    [*ctx]. *)
Definition do_rand (ctx : Z) : Z * Z :=
  let x := ctx mod 0x7ffffffe + 1 in
  let hi := Z.quot x 127773 in
  let lo := Z.rem x 127773 in
  let x := 16807 * lo - 2836 * hi in
  let x := if x <? 0 then x + 0x7fffffff else x in
  let x := x - 1 in
  (s32 x, u64 x).

(** [rand_next] starts as 1. *)
Definition rand (rand_next : Z) : Z * Z := do_rand rand_next.

(** The context after [k] calls. *)
Fixpoint rands (k : nat) (ctx : Z) : Z :=
  match k with O => ctx | S k => (rand (rands k ctx)).2 end.

Definition MOD : Z := 2 ^ 31 - 1.

(** The products stay below 2^31. *)
Lemma schrage x : 1 <= x < MOD ->
  let d := 16807 * Z.rem x 127773 - 2836 * Z.quot x 127773 in
  - MOD < d < MOD /\ (if d <? 0 then d + MOD else d) = 16807 * x mod MOD.
Proof.
  intros Hx. unfold MOD in *. rewrite (Z.rem_mod_nonneg x), (Z.quot_div_nonneg x) by lia. set (d := 16807 * (x mod 127773) - 2836 * (x / 127773)).
  assert (Hd : - (2 ^ 31 - 1) < d < 2 ^ 31 - 1) by (unfold d; Z.div_mod_to_equations; lia). split; [done|].
  assert (E : 16807 * x = d + (x / 127773) * (2 ^ 31 - 1)) by (unfold d; Z.div_mod_to_equations; lia).
  rewrite E, Z_mod_plus_full. destruct (Z.ltb_spec d 0).
  - rewrite <-(Z_mod_plus_full d 1), Z.mod_small by lia. lia.
  - by rewrite Z.mod_small by lia.
Qed.

(** Multiplication by 7^5 permutes the numbers from 1 to 2^31 - 2. *)
Lemma mult_nonzero x : 1 <= x < MOD -> 16807 * x mod MOD <> 0.
Proof.
  intros Hx E. apply Z.mod_divide in E; [|done]. apply Gauss in E; [|apply Zgcd_1_rel_prime; by vm_compute].
  apply Z.divide_pos_le in E; lia.
Qed.

(** C37: do_rand: with x the value of the context brought into the range from 1 to
    2^31 - 2, the result and the new context are 7^5 x mod (2^31 - 1), less
    one, a number from 0 to 2^31 - 3; so the sequence of the contexts, plus
    one, is the Park-Miller sequence. *)
Theorem do_rand_spec ctx : 0 <= ctx < 2 ^ 64 ->
  let x := ctx mod 0x7ffffffe + 1 in let y := 16807 * x mod MOD in
  do_rand ctx = (y - 1, y - 1) /\ 0 <= y - 1 <= 0x7ffffffd /\
  forall k, let z := rands k ctx in (0 < k)%nat -> z + 1 = 16807 ^ Z.of_nat k * x mod MOD.
Proof.
  assert (Hone : forall c, let x := c mod 0x7ffffffe + 1 in let y := 16807 * x mod MOD in
    do_rand c = (y - 1, y - 1) /\ 0 <= y - 1 <= 0x7ffffffd).
  { intros c x y. assert (Hx : 1 <= x < MOD) by (unfold x, MOD; pose proof (Z.mod_pos_bound c 0x7ffffffe); lia).
    destruct (schrage x Hx) as [_ E]. cbv zeta in E. pose proof (mult_nonzero x Hx) as Hn. fold y in E, Hn.
    assert (Hy : 0 <= y < MOD) by (apply Z.mod_pos_bound; done). unfold MOD in Hy. split; [|lia].
    unfold do_rand. fold x. change 0x7fffffff with MOD. rewrite E. by rewrite s32_small, u64_small by lia. }
  intros Hc x y. destruct (Hone ctx) as [H1 H2]. split; [exact H1|]. split; [exact H2|].
  induction k as [|k IH]; intros z Hk; [lia|]. destruct k as [|k].
  - unfold z. cbn [rands]. unfold rand. rewrite H1. cbn [snd]. rewrite Z.sub_add. reflexivity.
  - specialize (IH ltac:(lia)). cbv zeta in IH. unfold z. cbn [rands] in *. unfold rand in *. set (c := (do_rand (rands k ctx)).2) in *.
    destruct (Hone (rands k ctx)) as [H3 H4]. destruct (Hone c) as [H5 _]. rewrite H5. cbn [snd].
    assert (Hr : 0 <= c <= 0x7ffffffd) by (unfold c; rewrite H3; exact H4). rewrite (Z.mod_small c) by lia. rewrite IH.
    rewrite Z.mul_mod_idemp_r by done. rewrite (Nat2Z.inj_succ (S k)), Z.pow_succ_r by lia. rewrite Z.mul_assoc. lia.
Qed.

Lemma do_rand_spec_witness :
  let x := 1 mod 0x7ffffffe + 1 in let y := 16807 * x mod MOD in
  do_rand 1 = (y - 1, y - 1) /\ 0 <= y - 1 <= 0x7ffffffd /\
  forall k, let z := rands k 1 in (0 < k)%nat -> z + 1 = 16807 ^ Z.of_nat k * x mod MOD.
Proof. apply (do_rand_spec 1). lia. Defined.
