(* ===== verification/Stress.v ===== *)
(** * Stress tests: forktest.c, stressfs.c and grind.c

    The programs as trees of system calls (Procs.v).  [forktest_spec]: the
    processes of forktest, under every schedule of them, use up the process
    table, are all waited for, and the test reports success. *)

From Stdlib Require Import ZArith Lia.
From stdpp Require Import base gmap list numbers strings relations.
From S2P Require Import Prelude Riscv Fs Printf User Procs Primes Commands Grind.
Local Open Scope Z_scope.

(** ** forktest.c *)

Definition FORKTEST_N : Z := 1000.

Definition print (s : list Z) : uprog unit := _ ← call (SWrite 1 s); mret tt.

(** The first loop, with [N - n] rounds left; returns [n]. *)
Fixpoint forktest_fork (n : Z) (more : nat) : uprog Z :=
  match more with
  | O => mret n
  | S more =>
      pid ← call SFork;
      if pid <? 0 then mret n
      else if pid =? 0 then UExit 0
      else forktest_fork (n + 1) more
  end.

Fixpoint forktest_wait (n : nat) : uprog unit :=
  match n with
  | O => mret tt
  | S n =>
      w ← call SWait;
      if w <? 0 then _ ← print (nl (str "wait stopped early")); UExit 1
      else forktest_wait n
  end.

Definition forktest : uprog unit :=
  _ ← print (nl (str "fork test"));
  n ← forktest_fork 0 (Z.to_nat FORKTEST_N);
  if n =? FORKTEST_N then _ ← print (nl (str "fork claimed to work N times!")); UExit 1
  else
    _ ← forktest_wait (Z.to_nat n);
    w ← call SWait;
    if negb (w =? -1) then _ ← print (nl (str "wait got too many")); UExit 1
    else print (nl (str "fork test OK")).

Definition forktest_main : uprog unit := _ ← forktest; UExit 0.

(** ** stressfs.c *)

(** The loop of forks; returns [i]. *)
Fixpoint stressfs_fork (i : Z) (more : nat) : uprog Z :=
  match more with
  | O => mret i
  | S more => pid ← call SFork; if 0 <? pid then mret i else stressfs_fork (i + 1) more
  end.

Fixpoint times (n : nat) (c : scall) : uprog unit :=
  match n with O => mret tt | S n => _ ← call c; times n c end.

Definition stressfs_main : uprog unit :=
  _ ← p_printf (nl (str "stressfs starting")) [];
  let data := repeat 97 512 in
  i ← stressfs_fork 0 4;
  _ ← p_printf (nl (str "write %d")) [PInt i];
  let path := str "stressfs" ++ [48 + i] in
  fd ← call (SOpen path (Z.lor O_CREATE O_RDWR));
  _ ← times 20 (SWrite fd data);
  _ ← call (SClose fd);
  _ ← p_printf (nl (str "read")) [];
  fd ← call (SOpen path O_RDONLY);
  _ ← times 20 (SRead fd 512);
  _ ← call (SClose fd);
  _ ← call SWait;
  UExit 0.

(** ** grind.c *)

Definition CRW : Z := Z.lor O_CREATE O_RDWR.
Definition close_open (path : list Z) : uprog Z := fd ← call (SOpen path CRW); call (SClose fd).
Definition die_with {A} (status : Z) (msg : list Z) : uprog A := _ ← p_printf (nl msg) []; UExit status.
Definition die_err {A} (status : Z) (msg : list Z) : uprog A := _ ← p_fprintf 2 (nl msg) []; UExit status.

(** [fork] with the program of the child; the parent gets the pid, which is
    positive. *)
Definition grind_fork (child : uprog Z) : uprog Z :=
  pid ← call SFork;
  if pid =? 0 then child
  else if pid <? 0 then die_with 1 (str "grind: fork failed")
  else mret pid.

(** The state of the loop of [go]: [fd], [buf] and [rand_next]. *)
Record grind : Type := mkGrind { gr_fd : Z; gr_buf : list Z; gr_next : Z }.
Definition set_gfd (fd : Z) (s : grind) : grind := mkGrind fd (gr_buf s) (gr_next s).
Definition set_gbuf (b : list Z) (s : grind) : grind := mkGrind (gr_fd s) b (gr_next s).

(** Case 19: children that use a pipe. *)
Definition grind_pipe : uprog unit :=
  r ← call2 SPipe;
  if r.1 <? 0 then die_with 1 (str "grind: pipe failed") else
  let fd0 := nth 0 r.2 0 in
  let fd1 := nth 1 r.2 0 in
  _ ← grind_fork
        (_ ← call SFork;
         _ ← call SFork;
         w ← call (SWrite fd1 (str "x"));
         _ ← (if negb (w =? 1) then p_printf (nl (str "grind: pipe write failed")) [] else mret tt);
         n ← call (SRead fd0 1);
         _ ← (if negb (n =? 1) then p_printf (nl (str "grind: pipe read failed")) [] else mret tt);
         UExit 0);
  _ ← call (SClose fd0);
  _ ← call (SClose fd1);
  _ ← call SWait;
  mret tt.

(** Case 21: a file can be created, written and deleted. *)
Definition grind_create : uprog unit :=
  _ ← call (SUnlink (str "c"));
  fd1 ← call (SOpen (str "c") CRW);
  if fd1 <? 0 then die_with 1 (str "grind: create c failed") else
  w ← call (SWrite fd1 (str "x"));
  if negb (w =? 1) then die_with 1 (str "grind: write c failed") else
  st ← call2 (SFstat fd1);
  if negb (st.1 =? 0) then die_with 1 (str "grind: fstat failed") else
  if negb (Commands.st_size st.2 =? 1) then
    _ ← p_printf (nl (str "grind: fstat reports wrong size %d")) [PInt (s32 (Commands.st_size st.2))]; UExit 1
  else if 200 <? Commands.st_ino st.2 then
    _ ← p_printf (nl (str "grind: fstat reports crazy i-number %d")) [PInt (Commands.st_ino st.2)]; UExit 1
  else
    _ ← call (SClose fd1);
    _ ← call (SUnlink (str "c"));
    mret tt.

(** Case 22: echo hi | cat.  The children. *)
Definition grind_echo (aa0 aa1 bb0 bb1 : Z) : uprog Z :=
  _ ← call (SClose bb0);
  _ ← call (SClose bb1);
  _ ← call (SClose aa0);
  _ ← call (SClose 1);
  d ← call (SDup aa1);
  if negb (d =? 1) then die_err 1 (str "grind: dup failed") else
  _ ← call (SClose aa1);
  _ ← call (SExec (str "grindir/../echo") [str "echo"; str "hi"]);
  die_err 2 (str "grind: echo: not found").

Definition grind_cat (aa0 aa1 bb0 bb1 : Z) : uprog Z :=
  _ ← call (SClose aa1);
  _ ← call (SClose bb0);
  _ ← call (SClose 0);
  d ← call (SDup aa0);
  if negb (d =? 0) then die_err 4 (str "grind: dup failed") else
  _ ← call (SClose aa0);
  _ ← call (SClose 1);
  d ← call (SDup bb1);
  if negb (d =? 1) then die_err 5 (str "grind: dup failed") else
  _ ← call (SClose bb1);
  _ ← call (SExec (str "/cat") [str "cat"]);
  die_err 6 (str "grind: cat: not found").

(** [read(fd, buf+k, 1)] *)
Definition read_at (fd : Z) (k : nat) (buf : list Z) : uprog (list Z) :=
  r ← call2 (SRead fd 1);
  mret (match r.2 with c :: _ => <[k := c]> buf | [] => buf end).

(** [wait(&st)]; [junk] is what [st] holds before. *)
Definition wait_status (junk : Z) : uprog Z :=
  r ← call2 SWait;
  mret (match r.2 with n :: _ => n | [] => junk end).

Definition grind_pipeline (junk1 junk2 : Z) : uprog unit :=
  a ← call2 SPipe;
  if a.1 <? 0 then die_err 1 (str "grind: pipe failed") else
  b ← call2 SPipe;
  if b.1 <? 0 then die_err 1 (str "grind: pipe failed") else
  let aa0 := nth 0 a.2 0 in let aa1 := nth 1 a.2 0 in
  let bb0 := nth 0 b.2 0 in let bb1 := nth 1 b.2 0 in
  pid1 ← call SFork;
  _ ← (if pid1 =? 0 then grind_echo aa0 aa1 bb0 bb1 else if pid1 <? 0 then die_err 3 (str "grind: fork failed") else mret 0);
  pid2 ← call SFork;
  _ ← (if pid2 =? 0 then grind_cat aa0 aa1 bb0 bb1 else if pid2 <? 0 then die_err 7 (str "grind: fork failed") else mret 0);
  _ ← call (SClose aa0);
  _ ← call (SClose aa1);
  _ ← call (SClose bb1);
  buf ← read_at bb0 0 [0; 0; 0; 0];
  buf ← read_at bb0 1 buf;
  buf ← read_at bb0 2 buf;
  _ ← call (SClose bb0);
  st1 ← wait_status junk1;
  st2 ← wait_status junk2;
  if negb (st1 =? 0) || negb (st2 =? 0) || negb (u_strcmp buf (str "hi" ++ [10]) =? 0) then
    _ ← p_printf (str "grind: exec pipeline failed %d %d " ++ [34] ++ str "%s" ++ [34; 10]) [PInt st1; PInt st2; PStr (Some (cstring buf))];
    UExit 1
  else mret tt.

(** chdir to "grindir", which must exist. *)
Definition chdir_grindir (path msg : list Z) : uprog unit :=
  r ← call (SChdir path);
  if negb (r =? 0) then die_with 1 msg else mret tt.

Definition skip {A} (m : uprog A) : uprog unit := _ ← m; mret tt.

(** The cases that use neither [fd] nor [buf]. *)
Definition go_other (what break0 junk1 junk2 : Z) : uprog unit :=
  match what with
  | 1 => skip (close_open (str "grindir/../a"))
  | 2 => skip (close_open (str "grindir/../grindir/../b"))
  | 3 => skip (call (SUnlink (str "grindir/../a")))
  | 4 =>
      _ ← chdir_grindir (str "grindir") (str "grind: chdir grindir failed");
      _ ← call (SUnlink (str "../b"));
      skip (call (SChdir (str "/")))
  | 9 =>
      _ ← call (SMkdir (str "grindir/../a"));
      _ ← close_open (str "a/../a/./a");
      skip (call (SUnlink (str "a/a")))
  | 10 =>
      _ ← call (SMkdir (str "/../b"));
      _ ← close_open (str "grindir/../b/b");
      skip (call (SUnlink (str "b/b")))
  | 11 => _ ← call (SUnlink (str "b")); skip (call (SLink (str "../grindir/./../a") (str "../b")))
  | 12 => _ ← call (SUnlink (str "../grindir/../a")); skip (call (SLink (str ".././b") (str "/grindir/../a")))
  | 13 => _ ← grind_fork (UExit 0); skip (call SWait)
  | 14 => _ ← grind_fork (_ ← call SFork; _ ← call SFork; UExit 0); skip (call SWait)
  | 15 => skip (call (SSbrk 6011))
  | 16 =>
      b ← call (SSbrk 0);
      if break0 <? b then b' ← call (SSbrk 0); skip (call (SSbrk (s32 (- (b' - break0))))) else mret tt
  | 17 =>
      pid ← grind_fork (_ ← close_open (str "a"); UExit 0);
      _ ← chdir_grindir (str "../grindir/..") (str "grind: chdir failed");
      _ ← call (SKill pid);
      skip (call SWait)
  | 18 => _ ← grind_fork (pid ← call SGetpid; _ ← call (SKill pid); UExit 0); skip (call SWait)
  | 19 => grind_pipe
  | 20 =>
      _ ← grind_fork
            (_ ← call (SUnlink (str "a"));
             _ ← call (SMkdir (str "a"));
             _ ← call (SChdir (str "a"));
             _ ← call (SUnlink (str "../a"));
             _ ← call (SOpen (str "x") CRW);
             _ ← call (SUnlink (str "x"));
             UExit 0);
      skip (call SWait)
  | 21 => grind_create
  | 22 => grind_pipeline junk1 junk2
  | _ => mret tt
  end.

(** One of the 23 cases. *)
Definition go_case (what break0 junk1 junk2 : Z) (s : grind) : uprog grind :=
  match what with
  | 5 => _ ← call (SClose (gr_fd s)); fd ← call (SOpen (str "/grindir/../a") CRW); mret (set_gfd fd s)
  | 6 => _ ← call (SClose (gr_fd s)); fd ← call (SOpen (str "/./grindir/./../b") CRW); mret (set_gfd fd s)
  | 7 => _ ← call (SWrite (gr_fd s) (gr_buf s)); mret s
  | 8 => r ← call2 (SRead (gr_fd s) 999); mret (set_gbuf (mem_store r.2 (gr_buf s)) s)
  | _ => _ ← go_other what break0 junk1 junk2; mret s
  end.

(** The loop of [go], which does not end. *)
Fixpoint go_loop (which_child : bool) (break0 iters : Z) (junk1 junk2 : Z) (s : grind) (fuel : nat) : uprog unit :=
  match fuel with
  | O => UNoFuel
  | S fuel =>
      let iters := u64 (iters + 1) in
      _ ← (if iters mod 500 =? 0 then skip (call (SWrite 1 (if which_child then str "B" else str "A"))) else mret tt);
      let r := rand (gr_next s) in
      s ← go_case (Z.rem r.1 23) break0 junk1 junk2 (mkGrind (gr_fd s) (gr_buf s) r.2);
      go_loop which_child break0 iters junk1 junk2 s fuel
  end.

Definition go (which_child : bool) (rand_next junk1 junk2 : Z) (fuel : nat) : uprog unit :=
  break0 ← call (SSbrk 0);
  _ ← call (SMkdir (str "grindir"));
  _ ← chdir_grindir (str "grindir") (str "grind: chdir grindir failed");
  _ ← call (SChdir (str "/"));
  go_loop which_child break0 0 junk1 junk2 (mkGrind (-1) (repeat 0 999) rand_next) fuel.

Definition iter (junk1 junk2 : Z) (fuel : nat) : uprog unit :=
  _ ← call (SUnlink (str "a"));
  _ ← call (SUnlink (str "b"));
  pid1 ← call SFork;
  if pid1 <? 0 then die_with 1 (str "grind: fork failed") else
  if pid1 =? 0 then _ ← go false 31 junk1 junk2 fuel; UExit 0 else
  pid2 ← call SFork;
  if pid2 <? 0 then die_with 1 (str "grind: fork failed") else
  if pid2 =? 0 then _ ← go true 7177 junk1 junk2 fuel; UExit 0 else
  st1 ← wait_status (-1);
  _ ← (if negb (st1 =? 0) then _ ← call (SKill pid1); skip (call (SKill pid2)) else mret tt);
  _ ← wait_status (-1);
  UExit 0.

Fixpoint grind_main (junk1 junk2 : Z) (fuel : nat) : uprog unit :=
  match fuel with
  | O => UNoFuel
  | S fuel =>
      pid ← call SFork;
      if pid =? 0 then _ ← iter junk1 junk2 fuel; UExit 0
      else
        _ ← (if 0 <? pid then skip (call SWait) else mret tt);
        _ ← call (SSleep 20);
        grind_main junk1 junk2 fuel
  end.

(** ** What forktest does *)

(** The program of the parent in the loop of forks, in the loop of waits, and
    before the last message. *)
Definition after_forks (n : Z) : uprog unit :=
  if n =? FORKTEST_N then _ ← print (nl (str "fork claimed to work N times!")); UExit 1
  else
    _ ← forktest_wait (Z.to_nat n);
    w ← call SWait;
    if negb (w =? -1) then _ ← print (nl (str "wait got too many")); UExit 1
    else print (nl (str "fork test OK")).
Definition forking (n : nat) : uprog unit :=
  _ ← (n ← forktest_fork (Z.of_nat n) (1000 - n); after_forks n); UExit 0.
Definition waiting (m : nat) : uprog unit :=
  _ ← (_ ← forktest_wait m;
       w ← call SWait;
       if negb (w =? -1) then _ ← print (nl (str "wait got too many")); UExit 1
       else print (nl (str "fork test OK"))); UExit 0.
Definition printing : uprog unit := _ ← print (nl (str "fork test OK")); UExit 0.

Definition fds0 : list (option ufile) := replicate 3 (Some UConsole) ++ replicate 13 None.
(** A child, which has exited or not. *)
Definition kid (z : bool) : upr :=
  if z then mkUpr 3 (replicate 16 None) 0 (Zombie 0) else mkUpr 3 fds0 0 (Live (UExit 0)).
Definition family (m : uprog unit) (kids : gmap Z bool) (next : Z) (out : list Z) : sys :=
  mkSys (<[3 := mkUpr 2 fds0 0 (Live m)]> (kid <$> kids)) ∅ next out.

Definition begun : list Z := nl (str "fork test").
Definition finished : list Z := begun ++ nl (str "fork test OK").

(** The children that have not exited. *)
Definition live_kids (kids : gmap Z bool) : nat := size (filter (fun x => x.2 = false) kids).
Definition pids_ok (kids : gmap Z bool) (next : Z) : Prop := 3 < next /\ forall c, is_Some (kids !! c) -> 3 < c < next.

(** The reachable states, and a bound on the steps that are left. *)
Inductive ftstate : nat -> sys -> Prop :=
| ft_start : ftstate 200 (family forktest_main ∅ 4 [])
| ft_fork n kids next : size kids = n -> (n <= 61)%nat -> pids_ok kids next ->
    ftstate (2 * (62 - n) + 70 + live_kids kids) (family (forking n) kids next begun)
| ft_wait kids next : pids_ok kids next -> ftstate (size kids + 3 + live_kids kids) (family (waiting (size kids)) kids next begun)
| ft_print next : ftstate 2 (family printing ∅ next begun)
| ft_exit next : ftstate 1 (family (UExit 0) ∅ next finished)
| ft_done next : ftstate 0 (mkSys {[3 := mkUpr 2 (replicate 16 None) 0 (Zombie 0)]} ∅ next finished).

Lemma family_parent m kids next out : sy_procs (family m kids next out) !! 3 = Some (mkUpr 2 fds0 0 (Live m)).
Proof. apply lookup_insert_eq. Qed.

Lemma family_kid m kids next out c : c <> 3 -> sy_procs (family m kids next out) !! c = kid <$> kids !! c.
Proof. intros H. cbn. by rewrite lookup_insert_ne, lookup_fmap by done. Qed.

Lemma write_step d k kids next out s' :
  sys_step 3 (family (UCall (SWrite 1 d) k) kids next out) = Some s' ->
  s' = family (k (Z.of_nat (length d), [])) kids next (out ++ d).
Proof.
  unfold sys_step. rewrite family_parent. cbn [up_state]. unfold do_write. change (fd_get 1 _) with (Some UConsole). cbn iota.
  intros H. apply (inj Some) in H as <-. unfold family, set_proc, set_st.
  cbn [sy_procs sy_pipes sy_next sy_out up_parent up_fds up_pipes]. by rewrite insert_insert_eq.
Qed.

(** Without children only the parent can take a step. *)
Lemma forktest_alone_step m next out pid s' : sys_step pid (family m ∅ next out) = Some s' -> pid = 3.
Proof.
  unfold sys_step. destruct (decide (pid = 3)) as [->|Hne]; [done|]. by rewrite family_kid, lookup_empty.
Qed.

(** A step of a child is its exit. *)
Lemma kid_step m kids next out c s' : pids_ok kids next -> c <> 3 ->
  sys_step c (family m kids next out) = Some s' ->
  kids !! c = Some false /\ s' = family m (<[c := true]> kids) next out.
Proof.
  intros Hp Hc. unfold sys_step. rewrite family_kid by done. destruct (kids !! c) as [[]|] eqn:E; cbn; try done.
  intros [= <-]. split; [done|]. apply proj2 in Hp. specialize (Hp c ltac:(eauto)). unfold family. f_equal.
  apply map_eq. intros i. destruct (decide (i = c)) as [->|Hi].
  { rewrite lookup_insert_eq, lookup_insert_ne, lookup_fmap, lookup_insert_eq by done. done. }
  rewrite lookup_insert_ne, lookup_fmap by done. destruct (decide (i = 3)) as [->|H3].
  - rewrite !lookup_insert_eq. cbn [fmap option_fmap option_map]. by rewrite (proj2 (Z.eqb_neq _ _)) by (cbn; lia).
  - rewrite !lookup_insert_ne, !lookup_fmap, lookup_insert_ne by done. destruct (kids !! i) as [z|]; [|done].
    cbn [fmap option_fmap option_map]. by rewrite (proj2 (Z.eqb_neq _ _)) by (destruct z; cbn; lia).
Qed.

Lemma live_exit kids c : kids !! c = Some false -> (S (live_kids (<[c := true]> kids)) = live_kids kids)%nat.
Proof.
  intros H. unfold live_kids. rewrite map_filter_insert_False, map_filter_delete by done.
  assert (Hf : filter (fun x => x.2 = false) kids !! c = Some false) by (by apply map_lookup_filter_Some).
  rewrite map_size_delete_Some by (by eexists). assert (size (filter (fun x : Z * bool => x.2 = false) kids) <> 0)%nat; [|lia].
  intros E%map_size_empty_inv. rewrite E in Hf. done.
Qed.

Lemma live_new kids c : kids !! c = None -> live_kids (<[c := false]> kids) = S (live_kids kids).
Proof.
  intros H. unfold live_kids. rewrite map_filter_insert_True by done. apply map_size_insert_None. apply map_lookup_filter_None. by left.
Qed.

Lemma live_reap kids c : kids !! c = Some true -> live_kids (delete c kids) = live_kids kids.
Proof.
  intros H. unfold live_kids. rewrite map_filter_delete_not; [done|]. intros x Hx. rewrite H in Hx. by injection Hx as <-.
Qed.

Lemma pids_delete kids next c : pids_ok kids next -> pids_ok (delete c kids) next.
Proof. intros [H1 H2]. split; [done|]. intros c' [z [_ Hz]%lookup_delete_Some]. eauto. Qed.

Lemma pids_insert kids next c z : pids_ok kids next -> kids !! c = Some z -> forall z', pids_ok (<[c := z']> kids) next.
Proof. intros [H1 H2] Hc z'. split; [done|]. intros c' [x [[<- _]|[_ Hx]]%lookup_insert_Some]; eauto. Qed.

Lemma pids_new kids next : pids_ok kids next -> kids !! next = None /\ pids_ok (<[next := false]> kids) (next + 1).
Proof.
  intros [H1 H2]. split.
  - apply eq_None_not_Some. intros H. apply H2 in H. lia.
  - split; [lia|]. intros c' [x [[<- _]|[_ Hx]]%lookup_insert_Some]; [lia|]. specialize (H2 c' ltac:(eauto)). lia.
Qed.

(** wait takes an exited child, or fails when there are no children. *)
Lemma family_children m kids next out c x : pids_ok kids next ->
  (c, x) ∈ filter (fun x => is_child 3 x = true) (map_to_list (sy_procs (family m kids next out))) <-> exists z, kids !! c = Some z /\ x = kid z.
Proof.
  intros [_ Hp]. rewrite list_elem_of_filter, elem_of_map_to_list. split.
  - intros [Hc Hx]. cbn in Hx. apply lookup_insert_Some in Hx as [[<- <-]|[Hne Hx]]; [done|].
    rewrite lookup_fmap in Hx. destruct (kids !! c) as [z|]; [|done]. injection Hx as <-. by exists z.
  - intros (z & Hz & ->). split; [by destruct z|]. specialize (Hp c ltac:(eauto)). cbn. rewrite lookup_insert_ne, lookup_fmap, Hz by lia. done.
Qed.

Lemma family_wait m k kids next out s' : pids_ok kids next ->
  do_wait 3 (mkUpr 2 fds0 0 (Live m)) k (family m kids next out) = Some s' ->
  (exists c, kids !! c = Some true /\ s' = family (k (c, [0])) (delete c kids) next out) \/
  (kids = ∅ /\ s' = family (k (-1, [])) ∅ next out).
Proof.
  intros Hp. unfold do_wait. pose proof (fun c x => family_children m kids next out c x Hp) as Hch.
  destruct (filter (fun x => is_child 3 x = true) (map_to_list (sy_procs (family m kids next out)))) as [|y l] eqn:El.
  - cbn [filter list_filter]. intros H. apply (inj Some) in H as <-. right. assert (kids = ∅) as ->.
    { apply map_empty. intros c. apply eq_None_not_Some. intros [z Hz]. apply (not_elem_of_nil (c, kid z)). apply Hch. eauto. }
    split; [done|]. unfold family, set_proc, set_st. cbn [sy_procs sy_pipes sy_next sy_out up_parent up_fds up_pipes].
    by rewrite fmap_empty, insert_insert_eq.
  - destruct (filter (fun x => is_zombie x = true) (y :: l)) as [|[c x] l'] eqn:Ez; [done|]. intros H. apply (inj Some) in H as <-. left.
    assert (Hin : (c, x) ∈ filter (fun x => is_zombie x = true) (y :: l)) by (rewrite Ez; by left).
    apply list_elem_of_filter in Hin as [Hz Hin]. apply Hch in Hin as (z & Hk & ->). destruct z; [|done]. exists c. split; [done|].
    destruct Hp as [_ Hp]. specialize (Hp c ltac:(eauto)). unfold family, set_proc, set_st. cbn [sy_procs sy_pipes sy_next sy_out up_parent up_fds up_pipes kid up_state].
    by rewrite delete_insert_ne, fmap_delete, insert_insert_eq by lia.
Qed.

Lemma family_wait_some m k kids next out : pids_ok kids next ->
  (kids = ∅ \/ exists c, kids !! c = Some true) -> is_Some (do_wait 3 (mkUpr 2 fds0 0 (Live m)) k (family m kids next out)).
Proof.
  intros Hp Hk. unfold do_wait. pose proof (fun c x => family_children m kids next out c x Hp) as Hch.
  destruct (filter (fun x => is_child 3 x = true) (map_to_list (sy_procs (family m kids next out)))) as [|y l] eqn:El; [by eexists|].
  destruct Hk as [->|[c Hc]].
  { destruct y as [c x]. destruct (proj1 (Hch c x)) as (z & Hz & _); [by left|done]. }
  assert (Hin : (c, kid true) ∈ filter (fun x => is_zombie x = true) (y :: l)).
  { apply list_elem_of_filter. split; [done|]. apply Hch. eauto. }
  destruct (filter (fun x => is_zombie x = true) (y :: l)) as [|[c' x'] l']; [by apply not_elem_of_nil in Hin|by eexists].
Qed.

Lemma family_size m kids next out : pids_ok kids next -> size (sy_procs (family m kids next out)) = S (size kids).
Proof.
  intros [_ Hp]. cbn [family sy_procs]. rewrite map_size_insert_None, map_size_fmap; [done|]. rewrite lookup_fmap.
  destruct (kids !! 3) eqn:E; [|done]. specialize (Hp 3 ltac:(eauto)). lia.
Qed.

Lemma fork_step kids next s' : let n := size kids in (n <= 61)%nat -> pids_ok kids next ->
  sys_step 3 (family (forking n) kids next begun) = Some s' ->
  s' = if (n =? 61)%nat then family (waiting n) kids next begun else family (forking (S n)) (<[next := false]> kids) (next + 1) begun.
Proof.
  intros n Hn Hp. unfold sys_step. rewrite family_parent. cbn [up_state]. unfold forking at 1. replace (1000 - n)%nat with (S (999 - n)) by lia.
  cbn [forktest_fork call mbind uprog_bind]. unfold do_fork. rewrite (family_size _ _ _ _ Hp). fold n.
  destruct (Nat.eqb_spec n 61) as [E|E].
  - rewrite (proj2 (Z.ltb_ge _ _)) by (unfold NPROC; lia). intros H. apply (inj Some) in H as <-. unfold family, set_proc, set_st.
    cbn [sy_procs sy_pipes sy_next sy_out up_parent up_fds up_pipes]. rewrite insert_insert_eq. do 4 f_equal. rewrite E. reflexivity.
  - rewrite (proj2 (Z.ltb_lt _ _)) by (unfold NPROC; lia). intros H. apply (inj Some) in H as <-. destruct Hp as [Hp _]. unfold family, set_proc, set_st.
    cbn [sy_procs sy_pipes sy_next sy_out up_parent up_fds up_pipes fst]. rewrite insert_insert_eq. f_equal.
    rewrite fmap_insert, insert_insert_ne by lia. f_equal. do 2 f_equal. rewrite (proj2 (Z.ltb_ge next 0)), (proj2 (Z.eqb_neq next 0)) by lia.
    unfold forking. replace (1000 - S n)%nat with (999 - n)%nat by lia. by replace (Z.of_nat (S n)) with (Z.of_nat n + 1) by lia.
Qed.

Lemma wait_step kids next s' : pids_ok kids next ->
  sys_step 3 (family (waiting (size kids)) kids next begun) = Some s' ->
  (exists c, kids !! c = Some true /\ s' = family (waiting (size (delete c kids))) (delete c kids) next begun) \/
  (kids = ∅ /\ s' = family printing ∅ next begun).
Proof.
  intros Hp. unfold sys_step. rewrite family_parent. cbn [up_state]. destruct (size kids) as [|m] eqn:Em.
  - apply map_size_empty_inv in Em. cbn [waiting forktest_wait call mbind uprog_bind]. intros H.
    apply family_wait in H as [(c & Hc & _)|[_ ->]]; [by rewrite Em in Hc| |done]. right. by split.
  - cbn [waiting forktest_wait call mbind uprog_bind]. intros H. apply family_wait in H as [(c & Hc & ->)|[-> _]]; [|done|done].
    left. exists c. split; [done|]. destruct Hp as [_ Hp]. specialize (Hp c ltac:(eauto)). cbn [fst].
    rewrite (proj2 (Z.ltb_ge c 0)) by lia. rewrite map_size_delete_Some, Em by eauto. reflexivity.
Qed.

(** Every step leads to another of these states, with fewer steps left. *)
Lemma ft_step n s s' : ftstate n s -> sys_steps s s' -> exists n', (n' < n)%nat /\ ftstate n' s'.
Proof.
  intros H [pid Hs]. assert (Hkid : forall m kids next out, pids_ok kids next -> s = family m kids next out -> pid <> 3 ->
    exists c, kids !! c = Some false /\ s' = family m (<[c := true]> kids) next out).
  { intros m kids next out Hp -> Hne. exists pid. by apply kid_step. }
  destruct H as [|n kids next Hn H61 Hp|kids next Hp|next|next|next].
  - pose proof (forktest_alone_step _ _ _ _ _ Hs) as ->. apply write_step in Hs as ->. exists (2 * 62 + 70)%nat. split; [lia|].
    exact (ft_fork 0 ∅ 4 eq_refl ltac:(lia) ltac:(split; [lia|by intros ? []])).
  - destruct (decide (pid = 3)) as [->|Hne].
    + subst n. apply fork_step in Hs as ->; [|done|done]. destruct (Nat.eqb_spec (size kids) 61) as [E|E].
      * eexists. split; [|by apply ft_wait]. lia.
      * destruct (pids_new _ _ Hp) as [Hno Hp']. eexists. split; [|apply ft_fork; [by apply map_size_insert_None|lia|done]].
        rewrite live_new by done. lia.
    + destruct (Hkid _ _ _ _ Hp eq_refl Hne) as (c & Hc & ->). eexists. split; [|apply ft_fork; [|done|by eapply pids_insert]].
      * rewrite <-(live_exit _ _ Hc). lia.
      * rewrite map_size_insert_Some; [done|by eexists].
  - destruct (decide (pid = 3)) as [->|Hne].
    + apply wait_step in Hs as [(c & Hc & ->)|[-> ->]]; [| |done].
      * eexists. split; [|apply ft_wait; by apply pids_delete]. rewrite (live_reap _ _ Hc), map_size_delete_Some by eauto.
        assert (size kids <> 0)%nat; [|lia]. intros E%map_size_empty_inv. by rewrite E in Hc.
      * eexists. split; [|apply ft_print]. cbn. lia.
    + destruct (Hkid _ _ _ _ Hp eq_refl Hne) as (c & Hc & ->). eexists.
      replace (size kids) with (size (<[c := true]> kids)) by (rewrite map_size_insert_Some; [done|by eexists]).
      split; [|apply ft_wait; by eapply pids_insert]. rewrite <-(live_exit _ _ Hc). lia.
  - pose proof (forktest_alone_step _ _ _ _ _ Hs) as ->. apply write_step in Hs as ->. exists 1%nat. split; [lia|]. exact (ft_exit next).
  - pose proof (forktest_alone_step _ _ _ _ _ Hs) as ->. unfold sys_step in Hs. rewrite family_parent in Hs. cbn [up_state] in Hs.
    apply (inj Some) in Hs as <-. exists 0%nat. split; [lia|]. cbn. exact (ft_done next).
  - unfold sys_step in Hs. destruct (decide (pid = 3)) as [->|Hne]; cbn [sy_procs] in Hs.
    + by rewrite lookup_singleton_eq in Hs.
    + by rewrite lookup_singleton_ne in Hs.
Qed.


(** In all of them but the last some process can take a step. *)
Lemma ft_progress n s : ftstate n s -> (n = 0)%nat \/ exists s', sys_steps s s'.
Proof.
  assert (Hp3 : forall m kids next out s', sys_step 3 (family m kids next out) = Some s' -> exists s', sys_steps (family m kids next out) s')
    by (intros m kids next out s' H; exists s', 3; exact H).
  intros [|n' kids next Hn H61 Hp|kids next Hp|next|next|next]; [right|right|right|right|right|by left].
  - by eapply Hp3.
  - destruct (sys_step 3 (family (forking n') kids next begun)) as [s'|] eqn:E; [by exists s', 3|]. exfalso.
    unfold sys_step in E. rewrite family_parent in E. cbn [up_state] in E. unfold forking in E.
    replace (1000 - n')%nat with (S (999 - n')) in E by lia. cbn [forktest_fork call mbind uprog_bind] in E. unfold do_fork in E. by case_match.
  - destruct (decide (map_Forall (fun _ z => z = true) kids)) as [Hall|Hn].
    + assert (Hw : kids = ∅ \/ exists c, kids !! c = Some true).
      { destruct (map_choose_or_empty kids) as [(c & z & Hc)| ->]; [right|by left]. exists c. rewrite Hc. f_equal. by apply (Hall c z). }
      assert (is_Some (sys_step 3 (family (waiting (size kids)) kids next begun))) as [s' Hs']; [|by exists s', 3].
      unfold sys_step. rewrite family_parent. cbn [up_state]. destruct (size kids); by apply family_wait_some.
    + apply map_not_Forall in Hn as (c & z & Hc & Hz); [|apply _]. destruct z; [done|]. destruct Hp as [_ Hp]. specialize (Hp c ltac:(eauto)).
      eexists _, c. unfold sys_step. rewrite family_kid, Hc by lia. reflexivity.
  - by eapply Hp3.
  - by eapply Hp3.
Qed.

(** C34: forktest: whatever the schedule, it ends after at most 200 steps, having
    used up the process table and waited for all its children, with the
    message that the test is passed and status 0. *)
Theorem forktest_spec :
  (forall m s, nsteps sys_steps m (sys0 forktest_main) s -> (m <= 200)%nat) /\
  (forall s, rtc sys_steps (sys0 forktest_main) s -> (forall s', ~ sys_steps s s') ->
     outcome s = (nl (str "fork test") ++ nl (str "fork test OK"), [(3, Zombie 0)])).
Proof.
  assert (Hrun : forall m s0 s n0, nsteps sys_steps m s0 s -> ftstate n0 s0 -> exists n, (n + m <= n0)%nat /\ ftstate n s).
  { intros m s0 s n0 H. revert n0. induction H as [s0|m s0 s1 s H1 H IH]; intros n0 Hn; [exists n0; split; [lia|done]|].
    destruct (ft_step _ _ _ Hn H1) as (n1 & Hlt & Hn1). destruct (IH n1 Hn1) as (n & Hle & Hf). exists n. split; [lia|done]. }
  split.
  - intros m s H. destruct (Hrun _ _ _ _ H ft_start) as (n & Hle & _). lia.
  - intros s [m H]%rtc_nsteps Hstop. destruct (Hrun _ _ _ _ H ft_start) as (n & _ & Hf).
    destruct (ft_progress _ _ Hf) as [->|[s' Hs']]; [|by destruct (Hstop s')].
    remember 0%nat as z eqn:Ez in Hf. destruct Hf; try lia. unfold outcome. cbn [sy_out sy_procs]. by rewrite map_to_list_singleton.
Qed.
