(* ===== verification/Usertests.v ===== *)
(** * The tests of the system calls: user/usertests.c

    The tests that use files, directories, processes and pipes, as trees of
    system calls (Procs.v).  A test gets its name [s], which its messages
    start with, and returns or exits; [junk] is what uninitialised variables
    hold.  The tests that probe addresses (copyin, sbrkbasic and the like) are
    not among them: a program here has no memory. *)

From Stdlib Require Import ZArith Lia.
From stdpp Require Import base gmap list numbers strings.
From S2P Require Import Prelude Riscv Bio Fs Printf User Procs Commands Grind Stress.
Local Open Scope Z_scope.

(** ** Messages and loops *)

Definition O_WC : Z := Z.lor O_CREATE O_WRONLY.
Definition O_WCT : Z := Z.lor O_WC O_TRUNC.
Definition O_WT : Z := Z.lor O_WRONLY O_TRUNC.

(** [if(b){ printf(msg...); exit(1); }] *)
Definition fail_if (b : bool) (msg : list Z) (ap : list parg) : uprog unit :=
  if b then _ ← p_printf msg ap; UExit 1 else mret tt.

(** [for(i = i0; i < i0 + n; i++) body] *)
Fixpoint for_from (i : Z) (n : nat) (body : Z -> uprog unit) : uprog unit :=
  match n with O => mret tt | S n => _ ← body i; for_from (i + 1) n body end.
Definition for_n (n : Z) (body : Z -> uprog unit) : uprog unit := for_from 0 (Z.to_nat n) body.

(** The buffer of the tests, all zero at first. *)
Definition BUFSZ : Z := (MAXOPBLOCKS + 2) * BSIZE.
Definition buf0 : list Z := repeat 0 (Z.to_nat BUFSZ).

Section tests.
Context (s : list Z) (junk : Z).
(** A message that starts with the name of the test. *)
Definition sm (msg : string) : list Z := nl (str "%s" ++ str msg).
Notation NM := (PStr (Some s)).

(** fork, with a message when it fails. *)
Definition fork_or_fail' (rest : Z -> uprog unit) : uprog unit :=
  pid ← call SFork;
  _ ← fail_if (pid <? 0) (sm ": fork failed") [NM];
  rest pid.
Definition fork_or_fail (child : uprog unit) (parent : Z -> uprog unit) : uprog unit :=
  fork_or_fail' (fun pid => if pid =? 0 then child else parent pid).

(** ** Truncation *)

Definition truncate1 : uprog unit :=
  _ ← call (SUnlink (str "truncfile"));
  fd1 ← call (SOpen (str "truncfile") O_WCT);
  _ ← call (SWrite fd1 (str "abcd"));
  _ ← call (SClose fd1);
  fd2 ← call (SOpen (str "truncfile") O_RDONLY);
  n ← call (SRead fd2 32);
  _ ← fail_if (negb (n =? 4)) (sm ": read %d bytes, wanted 4") [NM; PInt n];
  fd1 ← call (SOpen (str "truncfile") O_WT);
  fd3 ← call (SOpen (str "truncfile") O_RDONLY);
  n ← call (SRead fd3 32);
  _ ← (if negb (n =? 0) then
         _ ← p_printf (nl (str "aaa fd3=%d")) [PInt fd3];
         fail_if true (sm ": read %d bytes, wanted 0") [NM; PInt n]
       else mret tt);
  n ← call (SRead fd2 32);
  _ ← (if negb (n =? 0) then
         _ ← p_printf (nl (str "bbb fd2=%d")) [PInt fd2];
         fail_if true (sm ": read %d bytes, wanted 0") [NM; PInt n]
       else mret tt);
  _ ← call (SWrite fd1 (str "abcdef"));
  n ← call (SRead fd3 32);
  _ ← fail_if (negb (n =? 6)) (sm ": read %d bytes, wanted 6") [NM; PInt n];
  n ← call (SRead fd2 32);
  _ ← fail_if (negb (n =? 2)) (sm ": read %d bytes, wanted 2") [NM; PInt n];
  _ ← call (SUnlink (str "truncfile"));
  _ ← call (SClose fd1);
  _ ← call (SClose fd2);
  _ ← call (SClose fd3);
  mret tt.

Definition truncate2 : uprog unit :=
  _ ← call (SUnlink (str "truncfile"));
  fd1 ← call (SOpen (str "truncfile") O_WCT);
  _ ← call (SWrite fd1 (str "abcd"));
  fd2 ← call (SOpen (str "truncfile") O_WT);
  n ← call (SWrite fd1 (str "x"));
  _ ← fail_if (negb (n =? -1)) (sm ": write returned %d, expected -1") [NM; PInt n];
  _ ← call (SUnlink (str "truncfile"));
  _ ← call (SClose fd1);
  _ ← call (SClose fd2);
  mret tt.

Definition truncate3_child : uprog unit :=
  _ ← for_n 100 (fun _ =>
        fd ← call (SOpen (str "truncfile") O_WRONLY);
        _ ← fail_if (fd <? 0) (sm ": open failed") [NM];
        n ← call (SWrite fd (str "1234567890"));
        _ ← fail_if (negb (n =? 10)) (sm ": write got %d, expected 10") [NM; PInt n];
        _ ← call (SClose fd);
        fd ← call (SOpen (str "truncfile") O_RDONLY);
        _ ← call (SRead fd 32);
        _ ← call (SClose fd);
        mret tt);
  UExit 0.

Definition truncate3 : uprog unit :=
  fd ← call (SOpen (str "truncfile") O_WCT);
  _ ← call (SClose fd);
  fork_or_fail truncate3_child (fun _ =>
    _ ← for_n 150 (fun _ =>
          fd ← call (SOpen (str "truncfile") O_WCT);
          _ ← fail_if (fd <? 0) (sm ": open failed") [NM];
          n ← call (SWrite fd (str "xxx"));
          _ ← fail_if (negb (n =? 3)) (sm ": write got %d, expected 3") [NM; PInt n];
          _ ← call (SClose fd);
          mret tt);
    xstatus ← wait_status junk;
    _ ← call (SUnlink (str "truncfile"));
    UExit xstatus).

(** ** Directories and iput *)

Definition iputtest : uprog unit :=
  r ← call (SMkdir (str "iputdir"));
  _ ← fail_if (r <? 0) (sm ": mkdir failed") [NM];
  r ← call (SChdir (str "iputdir"));
  _ ← fail_if (r <? 0) (sm ": chdir iputdir failed") [NM];
  r ← call (SUnlink (str "../iputdir"));
  _ ← fail_if (r <? 0) (sm ": unlink ../iputdir failed") [NM];
  r ← call (SChdir (str "/"));
  fail_if (r <? 0) (sm ": chdir / failed") [NM].

Definition exitiputtest : uprog unit :=
  fork_or_fail
    (r ← call (SMkdir (str "iputdir"));
     _ ← fail_if (r <? 0) (sm ": mkdir failed") [NM];
     r ← call (SChdir (str "iputdir"));
     _ ← fail_if (r <? 0) (sm ": child chdir failed") [NM];
     r ← call (SUnlink (str "../iputdir"));
     _ ← fail_if (r <? 0) (sm ": unlink ../iputdir failed") [NM];
     UExit 0)
    (fun _ => xstatus ← wait_status junk; UExit xstatus).

Definition openiputtest : uprog unit :=
  r ← call (SMkdir (str "oidir"));
  _ ← fail_if (r <? 0) (sm ": mkdir oidir failed") [NM];
  fork_or_fail
    (fd ← call (SOpen (str "oidir") O_RDWR);
     _ ← fail_if (0 <=? fd) (sm ": open directory for write succeeded") [NM];
     UExit 0)
    (fun _ =>
     _ ← call (SSleep 1);
     r ← call (SUnlink (str "oidir"));
     _ ← fail_if (negb (r =? 0)) (sm ": unlink failed") [NM];
     xstatus ← wait_status junk;
     UExit xstatus).

(** ** Simple file system tests *)

Definition opentest : uprog unit :=
  fd ← call (SOpen (str "echo") 0);
  _ ← fail_if (fd <? 0) (sm ": open echo failed!") [NM];
  _ ← call (SClose fd);
  fd ← call (SOpen (str "doesnotexist") 0);
  fail_if (0 <=? fd) (sm ": open doesnotexist succeeded!") [NM].

Definition writetest : uprog unit :=
  fd ← call (SOpen (str "small") CRW);
  _ ← fail_if (fd <? 0) (sm ": error: creat small failed!") [NM];
  _ ← for_n 100 (fun i =>
        r ← call (SWrite fd (repeat 97 10));
        _ ← fail_if (negb (r =? 10)) (sm ": error: write aa %d new file failed") [NM; PInt i];
        r ← call (SWrite fd (repeat 98 10));
        fail_if (negb (r =? 10)) (sm ": error: write bb %d new file failed") [NM; PInt i]);
  _ ← call (SClose fd);
  fd ← call (SOpen (str "small") O_RDONLY);
  _ ← fail_if (fd <? 0) (sm ": error: open small failed!") [NM];
  i ← call (SRead fd 2000);
  _ ← fail_if (negb (i =? 2000)) (sm ": read failed") [NM];
  _ ← call (SClose fd);
  r ← call (SUnlink (str "small"));
  fail_if (r <? 0) (sm ": unlink small failed") [NM].

(** [((int* )buf)[0] = i] *)
Definition set_int (i : Z) (buf : list Z) : list Z := mem_store (le_bytes 4 (u32 i)) buf.
Definition get_int (buf : list Z) : Z := s32 (le_val (take 4 buf)).

(** The loop that reads the file back; [n] blocks have been read. *)
Fixpoint writebig_read (fd n : Z) (buf : list Z) (fuel : nat) : uprog unit :=
  match fuel with
  | O => UNoFuel
  | S fuel =>
      r ← call2 (SRead fd BSIZE);
      let i := r.1 in
      let buf := mem_store r.2 buf in
      if i =? 0 then
        if n =? MAXFILE - 1 then _ ← p_printf (str "%s: read only %d blocks from big") [NM; PInt n]; UExit 1 else mret tt
      else
        _ ← fail_if (negb (i =? BSIZE)) (sm ": read failed %d") [NM; PInt i];
        _ ← fail_if (negb (get_int buf =? n)) (sm ": read content of block %d is %d") [NM; PInt n; PInt (get_int buf)];
        writebig_read fd (n + 1) buf fuel
  end.

Definition writebig (fuel : nat) : uprog unit :=
  fd ← call (SOpen (str "big") CRW);
  _ ← fail_if (fd <? 0) (sm ": error: creat big failed!") [NM];
  _ ← for_n MAXFILE (fun i =>
        r ← call (SWrite fd (take (Z.to_nat BSIZE) (set_int i buf0)));
        fail_if (negb (r =? BSIZE)) (sm ": error: write big file failed") [NM; PInt i]);
  _ ← call (SClose fd);
  fd ← call (SOpen (str "big") O_RDONLY);
  _ ← fail_if (fd <? 0) (sm ": error: open big failed!") [NM];
  _ ← writebig_read fd 0 (set_int (MAXFILE - 1) buf0) fuel;
  _ ← call (SClose fd);
  r ← call (SUnlink (str "big"));
  fail_if (r <? 0) (sm ": unlink big failed") [NM].

Definition createtest : uprog unit :=
  let name i := [97; 48 + i] in
  _ ← for_n 52 (fun i => fd ← call (SOpen (name i) CRW); skip (call (SClose fd)));
  for_n 52 (fun i => skip (call (SUnlink (name i)))).

Definition dirtest : uprog unit :=
  r ← call (SMkdir (str "dir0"));
  _ ← fail_if (r <? 0) (sm ": mkdir failed") [NM];
  r ← call (SChdir (str "dir0"));
  _ ← fail_if (r <? 0) (sm ": chdir dir0 failed") [NM];
  r ← call (SChdir (str ".."));
  _ ← fail_if (r <? 0) (sm ": chdir .. failed") [NM];
  r ← call (SUnlink (str "dir0"));
  fail_if (r <? 0) (sm ": unlink dir0 failed") [NM].

(** What follows the fork, in the child when exec returns a positive number
    as well. *)
Definition exectest_rest (pid : Z) : uprog unit :=
  r ← call2 SWait;
  let xstatus := match r.2 with n :: _ => n | [] => junk end in
  _ ← (if negb (r.1 =? pid) then p_printf (sm ": wait failed!") [NM] else mret tt);
  if negb (xstatus =? 0) then UExit xstatus else
  fd ← call (SOpen (str "echo-ok") O_RDONLY);
  _ ← fail_if (fd <? 0) (sm ": open failed") [NM];
  r ← call2 (SRead fd 2);
  _ ← fail_if (negb (r.1 =? 2)) (sm ": read failed") [NM];
  _ ← call (SUnlink (str "echo-ok"));
  if bool_decide (take 2 r.2 = str "OK") then UExit 0
  else fail_if true (sm ": wrong output") [NM].

Definition exectest : uprog unit :=
  _ ← call (SUnlink (str "echo-ok"));
  fork_or_fail
    (_ ← call (SClose 1);
     fd ← call (SOpen (str "echo-ok") O_WC);
     _ ← fail_if (fd <? 0) (sm ": create failed") [NM];
     _ ← fail_if (negb (fd =? 1)) (sm ": wrong fd") [NM];
     r ← call (SExec (str "echo") [str "echo"; str "OK"]);
     _ ← fail_if (r <? 0) (sm ": exec echo failed") [NM];
     exectest_rest 0)
    exectest_rest.

(** ** Pipes and processes *)

(** [seq] counts the bytes; a char holds it modulo 256. *)
Definition seq_bytes (seq : Z) (n : nat) : list Z := u8 <$> seqZ seq (Z.of_nat n).

(** The reader: [cc] bytes are asked for next. *)
Fixpoint pipe1_read (fd cc seq total : Z) (fuel : nat) : uprog (option Z) :=
  match fuel with
  | O => UNoFuel
  | S fuel =>
      r ← call2 (SRead fd cc);
      let n := r.1 in
      if n <=? 0 then mret (Some total)
      else if negb (bool_decide (take (Z.to_nat n) r.2 = seq_bytes seq (Z.to_nat n))) then
        _ ← p_printf (sm ": pipe1 oops 2") [NM]; mret None
      else
        let cc := cc * 2 in
        pipe1_read fd (if BUFSZ <? cc then BUFSZ else cc) (seq + n) (total + n) fuel
  end.

Definition pipe1 (fuel : nat) : uprog unit :=
  r ← call2 SPipe;
  _ ← fail_if (negb (r.1 =? 0)) (sm ": pipe() failed") [NM];
  let fd0 := nth 0 r.2 junk in
  let fd1 := nth 1 r.2 junk in
  pid ← call SFork;
  if pid =? 0 then
    _ ← call (SClose fd0);
    _ ← for_n 5 (fun n =>
          w ← call (SWrite fd1 (seq_bytes (1033 * n) 1033));
          fail_if (negb (w =? 1033)) (sm ": pipe1 oops 1") [NM]);
    UExit 0
  else if 0 <? pid then
    _ ← call (SClose fd1);
    t ← pipe1_read fd0 1 0 0 fuel;
    match t with
    | None => mret tt
    | Some total =>
        (* the %s of this message has no string *)
        _ ← fail_if (negb (total =? 5 * 1033)) (sm ": pipe1 oops 3 total %d") [PInt total];
        _ ← call (SClose fd0);
        xstatus ← wait_status junk;
        UExit xstatus
    end
  else fail_if true (sm ": fork() failed") [NM].

(** [while(1) getpid();] *)
Fixpoint getpids (fuel : nat) : uprog unit :=
  match fuel with O => UNoFuel | S fuel => _ ← call SGetpid; getpids fuel end.

Definition killstatus (fuel : nat) : uprog unit :=
  _ ← for_n 100 (fun _ =>
        fork_or_fail (getpids fuel) (fun pid1 =>
          _ ← call (SSleep 1);
          _ ← call (SKill pid1);
          xst ← wait_status junk;
          fail_if (negb (xst =? -1)) (sm ": status should be -1") [NM]));
  UExit 0.

Definition exitwait : uprog unit :=
  for_n 100 (fun i =>
    fork_or_fail (UExit i) (fun pid =>
      r ← call2 SWait;
      let xstate := match r.2 with n :: _ => n | [] => junk end in
      _ ← fail_if (negb (r.1 =? pid)) (sm ": wait wrong pid") [NM];
      fail_if (negb (i =? xstate)) (sm ": wait wrong exit status") [NM])).

Definition reparent : uprog unit :=
  master_pid ← call SGetpid;
  _ ← for_n 200 (fun _ =>
        fork_or_fail
          (pid2 ← call SFork;
           if pid2 <? 0 then _ ← call (SKill master_pid); UExit 1 else UExit 0)
          (fun pid =>
           r ← call SWait;
           fail_if (negb (r =? pid)) (sm ": wait wrong pid") [NM]));
  UExit 0.

Definition twochildren : uprog unit :=
  for_n 1000 (fun _ =>
    fork_or_fail (UExit 0) (fun _ =>
      fork_or_fail (UExit 0) (fun _ =>
        _ ← call SWait;
        skip (call SWait)))).

(** [n] times: wait(&xstatus), and if the status is not 0 then [bad]. *)
Fixpoint waits (n : nat) (xstatus : Z) (bad : Z -> uprog unit) : uprog unit :=
  match n with
  | O => mret tt
  | S n =>
      xstatus ← wait_status xstatus;
      _ ← (if negb (xstatus =? 0) then bad xstatus else mret tt);
      waits n xstatus bad
  end.

Definition forkfork : uprog unit :=
  _ ← for_n 2 (fun _ =>
        pid ← call SFork;
        _ ← fail_if (pid <? 0) (str "%s: fork failed") [NM];
        if pid =? 0 then
          _ ← for_n 200 (fun _ =>
                pid1 ← call SFork;
                if pid1 <? 0 then UExit 1
                else if pid1 =? 0 then UExit 0
                else skip (call SWait));
          UExit 0
        else mret tt);
  waits 2 junk (fun _ => fail_if true (str "%s: fork in child failed") [NM]).

(** The child forks until the file "stopforking" exists; so do its children. *)
Fixpoint forkforkfork_child (fuel : nat) : uprog unit :=
  match fuel with
  | O => UNoFuel
  | S fuel =>
      fd ← call (SOpen (str "stopforking") 0);
      if 0 <=? fd then UExit 0
      else
        r ← call SFork;
        _ ← (if r <? 0 then skip (close_open (str "stopforking")) else mret tt);
        forkforkfork_child fuel
  end.

Definition forkforkfork (fuel : nat) : uprog unit :=
  _ ← call (SUnlink (str "stopforking"));
  pid ← call SFork;
  _ ← fail_if (pid <? 0) (str "%s: fork failed") [NM];
  if pid =? 0 then forkforkfork_child fuel
  else
    _ ← call (SSleep 20);
    _ ← close_open (str "stopforking");
    _ ← call SWait;
    skip (call (SSleep 10)).

Definition reparent2 : uprog unit :=
  _ ← for_n 800 (fun _ =>
        pid1 ← call SFork;
        _ ← fail_if (pid1 <? 0) (nl (str "fork failed")) [];
        if pid1 =? 0 then _ ← call SFork; _ ← call SFork; UExit 0
        else skip (call SWait));
  UExit 0.

(** ** Files shared by processes *)

Definition count_char (c : Z) (l : list Z) : Z := Z.of_nat (length (filter (fun x => x = c) l)).

(** Each round looks at all of [buf], whatever the read returned. *)
Fixpoint sharedfd_count (fd : Z) (buf : list Z) (nc np : Z) (fuel : nat) : uprog (Z * Z) :=
  match fuel with
  | O => UNoFuel
  | S fuel =>
      r ← call2 (SRead fd 10);
      if r.1 <=? 0 then mret (nc, np)
      else
        let buf := mem_store r.2 buf in
        sharedfd_count fd buf (nc + count_char 99 buf) (np + count_char 112 buf) fuel
  end.

Definition sharedfd (fuel : nat) : uprog unit :=
  _ ← call (SUnlink (str "sharedfd"));
  fd ← call (SOpen (str "sharedfd") CRW);
  _ ← fail_if (fd <? 0) (str "%s: cannot open sharedfd for writing") [NM];
  pid ← call SFork;
  let buf := repeat (if pid =? 0 then 99 else 112) 10 in
  _ ← for_n 1000 (fun _ =>
        w ← call (SWrite fd buf);
        fail_if (negb (w =? 10)) (sm ": write sharedfd failed") [NM]);
  if pid =? 0 then UExit 0
  else
    xstatus ← wait_status junk;
    if negb (xstatus =? 0) then UExit xstatus else
    _ ← call (SClose fd);
    fd ← call (SOpen (str "sharedfd") 0);
    _ ← fail_if (fd <? 0) (sm ": cannot open sharedfd for reading") [NM];
    n ← sharedfd_count fd buf 0 0 fuel;
    _ ← call (SClose fd);
    _ ← call (SUnlink (str "sharedfd"));
    if (n.1 =? 10000) && (n.2 =? 10000) then UExit 0
    else fail_if true (sm ": nc/np test fails") [NM].

(** The loop that reads a file of [c]s; the number of bytes. *)
Fixpoint fourfiles_read (fd c total : Z) (fuel : nat) : uprog Z :=
  match fuel with
  | O => UNoFuel
  | S fuel =>
      r ← call2 (SRead fd BUFSZ);
      if r.1 <=? 0 then mret total
      else
        _ ← fail_if (negb (forallb (Z.eqb c) (take (Z.to_nat r.1) r.2))) (nl (str "wrong char")) [NM];
        fourfiles_read fd c (total + r.1) fuel
  end.

Definition fourfiles (fuel : nat) : uprog unit :=
  let fname pi := [102; 48 + pi] in
  _ ← for_n 4 (fun pi =>
        _ ← call (SUnlink (fname pi));
        pid ← call SFork;
        _ ← fail_if (pid <? 0) (nl (str "fork failed")) [NM];
        if pid =? 0 then
          fd ← call (SOpen (fname pi) CRW);
          _ ← fail_if (fd <? 0) (nl (str "create failed")) [NM];
          _ ← for_n 12 (fun _ =>
                n ← call (SWrite fd (repeat (48 + pi) 500));
                fail_if (negb (n =? 500)) (nl (str "write failed %d")) [PInt n]);
          UExit 0
        else mret tt);
  _ ← waits 4 junk (fun xstatus => UExit xstatus);
  for_n 4 (fun i =>
    fd ← call (SOpen (fname i) 0);
    total ← fourfiles_read fd (48 + i) 0 fuel;
    _ ← call (SClose fd);
    _ ← fail_if (negb (total =? 6000)) (nl (str "wrong length %d")) [PInt total];
    skip (call (SUnlink (fname i)))).

Definition createdelete_child (pi : Z) : uprog unit :=
  let name i := [112 + pi; 48 + i] in
  _ ← for_n 20 (fun i =>
        fd ← call (SOpen (name i) CRW);
        _ ← fail_if (fd <? 0) (sm ": create failed") [NM];
        _ ← call (SClose fd);
        if (0 <? i) && (Z.rem i 2 =? 0) then
          r ← call (SUnlink (name (Z.quot i 2)));
          fail_if (r <? 0) (sm ": unlink failed") [NM]
        else mret tt);
  UExit 0.

Definition createdelete : uprog unit :=
  _ ← for_n 4 (fun pi =>
        pid ← call SFork;
        _ ← fail_if (pid <? 0) (nl (str "fork failed")) [NM];
        if pid =? 0 then createdelete_child pi else mret tt);
  _ ← waits 4 junk (fun _ => UExit 1);
  _ ← for_n 20 (fun i => for_n 4 (fun pi =>
        let name := [112 + pi; 48 + i] in
        fd ← call (SOpen name 0);
        _ ← (if ((i =? 0) || (10 <=? i)) && (fd <? 0) then
               fail_if true (sm ": oops createdelete %s didn't exist") [NM; PStr (Some name)]
             else fail_if ((1 <=? i) && (i <? 10) && (0 <=? fd)) (sm ": oops createdelete %s did exist") [NM; PStr (Some name)]);
        if 0 <=? fd then skip (call (SClose fd)) else mret tt));
  for_n 20 (fun i => for_n 4 (fun _ => skip (call (SUnlink [112 + i; 48 + i])))).

(** ** Links *)

Definition unlinkread : uprog unit :=
  fd ← call (SOpen (str "unlinkread") CRW);
  _ ← fail_if (fd <? 0) (sm ": create unlinkread failed") [NM];
  _ ← call (SWrite fd (str "hello"));
  _ ← call (SClose fd);
  fd ← call (SOpen (str "unlinkread") O_RDWR);
  _ ← fail_if (fd <? 0) (sm ": open unlinkread failed") [NM];
  r ← call (SUnlink (str "unlinkread"));
  _ ← fail_if (negb (r =? 0)) (sm ": unlink unlinkread failed") [NM];
  fd1 ← call (SOpen (str "unlinkread") CRW);
  _ ← call (SWrite fd1 (str "yyy"));
  _ ← call (SClose fd1);
  r ← call2 (SRead fd BUFSZ);
  let buf := mem_store r.2 buf0 in
  _ ← fail_if (negb (r.1 =? 5)) (str "%s: unlinkread read failed") [NM];
  _ ← fail_if (negb (u_hd buf =? 104)) (sm ": unlinkread wrong data") [NM];
  w ← call (SWrite fd (take 10 buf));
  _ ← fail_if (negb (w =? 10)) (sm ": unlinkread write failed") [NM];
  _ ← call (SClose fd);
  skip (call (SUnlink (str "unlinkread"))).

Definition linktest : uprog unit :=
  _ ← call (SUnlink (str "lf1"));
  _ ← call (SUnlink (str "lf2"));
  fd ← call (SOpen (str "lf1") CRW);
  _ ← fail_if (fd <? 0) (sm ": create lf1 failed") [NM];
  w ← call (SWrite fd (str "hello"));
  _ ← fail_if (negb (w =? 5)) (sm ": write lf1 failed") [NM];
  _ ← call (SClose fd);
  r ← call (SLink (str "lf1") (str "lf2"));
  _ ← fail_if (r <? 0) (sm ": link lf1 lf2 failed") [NM];
  _ ← call (SUnlink (str "lf1"));
  r ← call (SOpen (str "lf1") 0);
  _ ← fail_if (0 <=? r) (sm ": unlinked lf1 but it is still there!") [NM];
  fd ← call (SOpen (str "lf2") 0);
  _ ← fail_if (fd <? 0) (sm ": open lf2 failed") [NM];
  r ← call (SRead fd BUFSZ);
  _ ← fail_if (negb (r =? 5)) (sm ": read lf2 failed") [NM];
  _ ← call (SClose fd);
  r ← call (SLink (str "lf2") (str "lf2"));
  _ ← fail_if (0 <=? r) (sm ": link lf2 lf2 succeeded! oops") [NM];
  _ ← call (SUnlink (str "lf2"));
  r ← call (SLink (str "lf2") (str "lf1"));
  _ ← fail_if (0 <=? r) (sm ": link non-existent succeeded! oops") [NM];
  r ← call (SLink (str ".") (str "lf1"));
  fail_if (0 <=? r) (sm ": link . lf1 succeeded! oops") [NM].

(** The files "C0", "C1", ... *)
Definition cfile (i : Z) : list Z := [67; 48 + i].

Definition concreate_make (i : Z) : uprog unit :=
  _ ← call (SUnlink (cfile i));
  pid ← call SFork;
  _ ← (if negb (pid =? 0) && (Z.rem i 3 =? 1) then skip (call (SLink (str "C0") (cfile i)))
       else if (pid =? 0) && (Z.rem i 5 =? 1) then skip (call (SLink (str "C0") (cfile i)))
       else
         fd ← call (SOpen (cfile i) CRW);
         _ ← fail_if (fd <? 0) (nl (str "concreate create %s failed")) [PStr (Some (cfile i))];
         skip (call (SClose fd)));
  if pid =? 0 then UExit 0
  else
    xstatus ← wait_status junk;
    if negb (xstatus =? 0) then UExit 1 else mret tt.

(** The directory is read entry by entry into [de]; [fa] are the files seen.
    [char] is unsigned. *)
Fixpoint concreate_read (fd : Z) (de fa : list Z) (n : Z) (fuel : nat) : uprog Z :=
  match fuel with
  | O => UNoFuel
  | S fuel =>
      r ← call2 (SRead fd 16);
      if r.1 <=? 0 then mret n
      else
        let de := mem_store r.2 de in
        let name := de_name' de in
        if de_inum' de =? 0 then concreate_read fd de fa n fuel
        else if (nth 0 name 0 =? 67) && (nth 2 name 0 =? 0) then
          let i := nth 1 name 0 - 48 in
          _ ← fail_if ((i <? 0) || (40 <=? i)) (sm ": concreate weird file %s") [NM; PStr (Some name)];
          _ ← fail_if (negb (nth (Z.to_nat i) fa 0 =? 0)) (sm ": concreate duplicate file %s") [NM; PStr (Some name)];
          concreate_read fd de (<[Z.to_nat i := 1]> fa) (n + 1) fuel
        else concreate_read fd de fa n fuel
  end.

Definition concreate_use (i : Z) : uprog unit :=
  fork_or_fail' (fun pid =>
    _ ← (if ((Z.rem i 3 =? 0) && (pid =? 0)) || ((Z.rem i 3 =? 1) && negb (pid =? 0)) then
           for_n 6 (fun _ => fd ← call (SOpen (cfile i) 0); skip (call (SClose fd)))
         else for_n 6 (fun _ => skip (call (SUnlink (cfile i)))));
    if pid =? 0 then UExit 0 else skip (call SWait)).

Definition concreate (de : list Z) (fuel : nat) : uprog unit :=
  _ ← for_n 40 concreate_make;
  fd ← call (SOpen (str ".") 0);
  n ← concreate_read fd de (repeat 0 40) 0 fuel;
  _ ← call (SClose fd);
  _ ← fail_if (negb (n =? 40)) (sm ": concreate not enough files in directory listing") [NM];
  for_n 40 concreate_use.

Fixpoint linkunlink_loop (x : Z) (n : nat) : uprog unit :=
  match n with
  | O => mret tt
  | S n =>
      let x := u32 (x * 1103515245 + 12345) in
      _ ← (if x mod 3 =? 0 then skip (close_open (str "x"))
           else if x mod 3 =? 1 then skip (call (SLink (str "cat") (str "x")))
           else skip (call (SUnlink (str "x"))));
      linkunlink_loop x n
  end.

Definition linkunlink : uprog unit :=
  _ ← call (SUnlink (str "x"));
  fork_or_fail' (fun pid =>
    _ ← linkunlink_loop (if pid =? 0 then 97 else 1) 100;
    if pid =? 0 then UExit 0 else skip (call SWait)).

Definition bigdir : uprog unit :=
  let name i := [120; 48 + Z.quot i 64; 48 + Z.rem i 64] in
  _ ← call (SUnlink (str "bd"));
  fd ← call (SOpen (str "bd") O_CREATE);
  _ ← fail_if (fd <? 0) (sm ": bigdir create failed") [NM];
  _ ← call (SClose fd);
  _ ← for_n 500 (fun i =>
        r ← call (SLink (str "bd") (name i));
        fail_if (negb (r =? 0)) (sm ": bigdir link(bd, %s) failed") [NM; PStr (Some (name i))]);
  _ ← call (SUnlink (str "bd"));
  for_n 500 (fun i =>
    r ← call (SUnlink (name i));
    fail_if (negb (r =? 0)) (str "%s: bigdir unlink failed") [NM]).

(** ** Directories

    A call with the message when its result is not the expected one:
    [if(call != 0)], [if(call == 0)], [if(call < 0)] and [if(call >= 0)]. *)
Definition must (sc : scall) (msg : string) : uprog unit := r ← call sc; fail_if (negb (r =? 0)) (sm msg) [NM].
Definition must_not (sc : scall) (msg : string) : uprog unit := r ← call sc; fail_if (r =? 0) (sm msg) [NM].
Definition no_error (sc : scall) (msg : string) : uprog Z := r ← call sc; _ ← fail_if (r <? 0) (sm msg) [NM]; mret r.
Definition error (sc : scall) (msg : string) : uprog unit := r ← call sc; fail_if (0 <=? r) (sm msg) [NM].

(** Three of the messages do not have a place for the name. *)
Definition subdir_start : uprog unit :=
  _ ← call (SUnlink (str "ff"));
  _ ← must (SMkdir (str "dd")) ": mkdir dd failed";
  fd ← no_error (SOpen (str "dd/ff") CRW) ": create dd/ff failed";
  _ ← call (SWrite fd (str "ff"));
  _ ← call (SClose fd);
  _ ← error (SUnlink (str "dd")) ": unlink dd (non-empty dir) succeeded!";
  r ← call (SMkdir (str "/dd/dd"));
  _ ← fail_if (negb (r =? 0)) (nl (str "subdir mkdir dd/dd failed")) [NM];
  fd ← no_error (SOpen (str "dd/dd/ff") CRW) ": create dd/dd/ff failed";
  _ ← call (SWrite fd (str "FF"));
  _ ← call (SClose fd);
  fd ← no_error (SOpen (str "dd/dd/../ff") 0) ": open dd/dd/../ff failed";
  r ← call2 (SRead fd BUFSZ);
  let buf := mem_store r.2 buf0 in
  _ ← fail_if (negb (r.1 =? 2) || negb (u_hd buf =? 102)) (sm ": dd/dd/../ff wrong content") [NM];
  _ ← call (SClose fd);
  r ← call (SLink (str "dd/dd/ff") (str "dd/dd/ffff"));
  _ ← fail_if (negb (r =? 0)) (nl (str "link dd/dd/ff dd/dd/ffff failed")) [NM];
  _ ← must (SUnlink (str "dd/dd/ff")) ": unlink dd/dd/ff failed";
  error (SOpen (str "dd/dd/ff") O_RDONLY) ": open (unlinked) dd/dd/ff succeeded".

Definition subdir_chdir : uprog unit :=
  _ ← must (SChdir (str "dd")) ": chdir dd failed";
  _ ← must (SChdir (str "dd/../../dd")) ": chdir dd/../../dd failed";
  r ← call (SChdir (str "dd/../../../dd"));
  _ ← fail_if (negb (r =? 0)) (nl (str "chdir dd/../../dd failed")) [NM];
  _ ← must (SChdir (str "./..")) ": chdir ./.. failed";
  fd ← no_error (SOpen (str "dd/dd/ffff") 0) ": open dd/dd/ffff failed";
  r ← call (SRead fd BUFSZ);
  _ ← fail_if (negb (r =? 2)) (sm ": read dd/dd/ffff wrong len") [NM];
  _ ← call (SClose fd);
  error (SOpen (str "dd/dd/ff") O_RDONLY) ": open (unlinked) dd/dd/ff succeeded!".

Definition subdir_errors : uprog unit :=
  _ ← error (SOpen (str "dd/ff/ff") CRW) ": create dd/ff/ff succeeded!";
  _ ← error (SOpen (str "dd/xx/ff") CRW) ": create dd/xx/ff succeeded!";
  _ ← error (SOpen (str "dd") O_CREATE) ": create dd succeeded!";
  _ ← error (SOpen (str "dd") O_RDWR) ": open dd rdwr succeeded!";
  _ ← error (SOpen (str "dd") O_WRONLY) ": open dd wronly succeeded!";
  _ ← must_not (SLink (str "dd/ff/ff") (str "dd/dd/xx")) ": link dd/ff/ff dd/dd/xx succeeded!";
  _ ← must_not (SLink (str "dd/xx/ff") (str "dd/dd/xx")) ": link dd/xx/ff dd/dd/xx succeeded!";
  _ ← must_not (SLink (str "dd/ff") (str "dd/dd/ffff")) ": link dd/ff dd/dd/ffff succeeded!";
  _ ← must_not (SMkdir (str "dd/ff/ff")) ": mkdir dd/ff/ff succeeded!";
  _ ← must_not (SMkdir (str "dd/xx/ff")) ": mkdir dd/xx/ff succeeded!";
  _ ← must_not (SMkdir (str "dd/dd/ffff")) ": mkdir dd/dd/ffff succeeded!";
  _ ← must_not (SUnlink (str "dd/xx/ff")) ": unlink dd/xx/ff succeeded!";
  _ ← must_not (SUnlink (str "dd/ff/ff")) ": unlink dd/ff/ff succeeded!";
  _ ← must_not (SChdir (str "dd/ff")) ": chdir dd/ff succeeded!";
  must_not (SChdir (str "dd/xx")) ": chdir dd/xx succeeded!".

Definition subdir_clean : uprog unit :=
  _ ← must (SUnlink (str "dd/dd/ffff")) ": unlink dd/dd/ff failed";
  _ ← must (SUnlink (str "dd/ff")) ": unlink dd/ff failed";
  _ ← must_not (SUnlink (str "dd")) ": unlink non-empty dd succeeded!";
  _ ← no_error (SUnlink (str "dd/dd")) ": unlink dd/dd failed";
  skip (no_error (SUnlink (str "dd")) ": unlink dd failed").

Definition subdir : uprog unit :=
  _ ← subdir_start; _ ← subdir_chdir; _ ← subdir_errors; subdir_clean.

Definition fourteen : uprog unit :=
  _ ← must (SMkdir (str "12345678901234")) ": mkdir 12345678901234 failed";
  _ ← must (SMkdir (str "12345678901234/123456789012345")) ": mkdir 12345678901234/123456789012345 failed";
  fd ← no_error (SOpen (str "123456789012345/123456789012345/123456789012345") O_CREATE)
         ": create 123456789012345/123456789012345/123456789012345 failed";
  _ ← call (SClose fd);
  fd ← no_error (SOpen (str "12345678901234/12345678901234/12345678901234") 0)
         ": open 12345678901234/12345678901234/12345678901234 failed";
  _ ← call (SClose fd);
  _ ← must_not (SMkdir (str "12345678901234/12345678901234")) ": mkdir 12345678901234/12345678901234 succeeded!";
  _ ← must_not (SMkdir (str "123456789012345/12345678901234")) ": mkdir 12345678901234/123456789012345 succeeded!";
  _ ← call (SUnlink (str "123456789012345/12345678901234"));
  _ ← call (SUnlink (str "12345678901234/12345678901234"));
  _ ← call (SUnlink (str "12345678901234/12345678901234/12345678901234"));
  _ ← call (SUnlink (str "123456789012345/123456789012345/123456789012345"));
  _ ← call (SUnlink (str "12345678901234/123456789012345"));
  skip (call (SUnlink (str "12345678901234"))).

Definition rmdot : uprog unit :=
  _ ← must (SMkdir (str "dots")) ": mkdir dots failed";
  _ ← must (SChdir (str "dots")) ": chdir dots failed";
  _ ← must_not (SUnlink (str ".")) ": rm . worked!";
  _ ← must_not (SUnlink (str "..")) ": rm .. worked!";
  _ ← must (SChdir (str "/")) ": chdir / failed";
  _ ← must_not (SUnlink (str "dots/.")) ": unlink dots/. worked!";
  _ ← must_not (SUnlink (str "dots/..")) ": unlink dots/.. worked!";
  must (SUnlink (str "dots")) ": unlink dots failed!".

Definition dirfile : uprog unit :=
  fd ← no_error (SOpen (str "dirfile") O_CREATE) ": create dirfile failed";
  _ ← call (SClose fd);
  _ ← must_not (SChdir (str "dirfile")) ": chdir dirfile succeeded!";
  _ ← error (SOpen (str "dirfile/xx") 0) ": create dirfile/xx succeeded!";
  _ ← error (SOpen (str "dirfile/xx") O_CREATE) ": create dirfile/xx succeeded!";
  _ ← must_not (SMkdir (str "dirfile/xx")) ": mkdir dirfile/xx succeeded!";
  _ ← must_not (SUnlink (str "dirfile/xx")) ": unlink dirfile/xx succeeded!";
  _ ← must_not (SLink (str "README") (str "dirfile/xx")) ": link to dirfile/xx succeeded!";
  _ ← must (SUnlink (str "dirfile")) ": unlink dirfile failed!";
  _ ← error (SOpen (str ".") O_RDWR) ": open . for writing succeeded!";
  fd ← call (SOpen (str ".") 0);
  r ← call (SWrite fd (str "x"));
  _ ← fail_if (0 <? r) (sm ": write . succeeded!") [NM];
  skip (call (SClose fd)).

Definition iref : uprog unit :=
  let close_ok fd := if 0 <=? fd then skip (call (SClose fd)) else mret tt in
  _ ← for_n (NINODE + 1) (fun _ =>
        _ ← must (SMkdir (str "irefd")) ": mkdir irefd failed";
        _ ← must (SChdir (str "irefd")) ": chdir irefd failed";
        _ ← call (SMkdir []);
        _ ← call (SLink (str "README") []);
        fd ← call (SOpen [] O_CREATE);
        _ ← close_ok fd;
        fd ← call (SOpen (str "xx") O_CREATE);
        _ ← close_ok fd;
        skip (call (SUnlink (str "xx"))));
  _ ← for_n (NINODE + 1) (fun _ => _ ← call (SChdir (str "..")); skip (call (SUnlink (str "irefd"))));
  skip (call (SChdir (str "/"))).

(** ** Large writes *)

(** [for(sz = 499; sz < (MAXOPBLOCKS+2)*BSIZE; sz += 471)] *)
Definition bigwrite_sizes : list Z := map (fun k => 499 + 471 * k) (seqZ 0 ((BUFSZ - 499 + 470) / 471)).
Fixpoint each {A} (l : list A) (body : A -> uprog unit) : uprog unit :=
  match l with [] => mret tt | x :: l => _ ← body x; each l body end.

Definition bigwrite : uprog unit :=
  _ ← call (SUnlink (str "bigwrite"));
  each bigwrite_sizes (fun sz =>
    fd ← no_error (SOpen (str "bigwrite") CRW) ": cannot create bigwrite";
    _ ← for_n 2 (fun _ =>
          cc ← call (SWrite fd (take (Z.to_nat sz) buf0));
          fail_if (negb (cc =? sz)) (sm ": write(%d) ret %d") [NM; PInt sz; PInt cc]);
    _ ← call (SClose fd);
    skip (call (SUnlink (str "bigwrite")))).

Definition manywrites_child (ci : Z) : uprog unit :=
  let name := [98; 97 + ci] in
  _ ← call (SUnlink name);
  _ ← for_n 30 (fun _ =>
        _ ← for_n (ci + 1) (fun _ =>
              fd ← call (SOpen name CRW);
              _ ← fail_if (fd <? 0) (sm ": cannot create %s") [NM; PStr (Some name)];
              cc ← call (SWrite fd buf0);
              _ ← fail_if (negb (cc =? BUFSZ)) (sm ": write(%d) ret %d") [NM; PInt BUFSZ; PInt cc];
              skip (call (SClose fd)));
        skip (call (SUnlink name)));
  _ ← call (SUnlink name);
  UExit 0.

Definition manywrites : uprog unit :=
  _ ← for_n 4 (fun ci =>
        pid ← call SFork;
        _ ← fail_if (pid <? 0) (nl (str "fork failed")) [];
        if pid =? 0 then manywrites_child ci else mret tt);
  _ ← for_n 4 (fun _ => st ← wait_status 0; if negb (st =? 0) then UExit st else mret tt);
  UExit 0.

(** The second loop of bigfile; a read stores at the start of [buf]. *)
Fixpoint bigfile_read (fd i total : Z) (buf : list Z) (fuel : nat) : uprog Z :=
  match fuel with
  | O => UNoFuel
  | S fuel =>
      r ← call2 (SRead fd 300);
      let buf := mem_store r.2 buf in
      _ ← fail_if (r.1 <? 0) (sm ": read bigfile failed") [NM];
      if r.1 =? 0 then mret total
      else
        _ ← fail_if (negb (r.1 =? 300)) (sm ": short read bigfile") [NM];
        _ ← fail_if (negb (nth 0 buf 0 =? Z.quot i 2) || negb (nth 299 buf 0 =? Z.quot i 2)) (sm ": read bigfile wrong data") [NM];
        bigfile_read fd (i + 1) (total + r.1) buf fuel
  end.

Definition bigfile (fuel : nat) : uprog unit :=
  _ ← call (SUnlink (str "bigfile.dat"));
  fd ← call (SOpen (str "bigfile.dat") CRW);
  _ ← fail_if (fd <? 0) (str "%s: cannot create bigfile") [NM];
  _ ← for_n 20 (fun i =>
        w ← call (SWrite fd (repeat i 600));
        fail_if (negb (w =? 600)) (sm ": write bigfile failed") [NM]);
  _ ← call (SClose fd);
  fd ← no_error (SOpen (str "bigfile.dat") 0) ": cannot open bigfile";
  total ← bigfile_read fd 0 0 (mem_store (repeat 19 600) buf0) fuel;
  _ ← call (SClose fd);
  _ ← fail_if (negb (total =? 20 * 600)) (sm ": read bigfile wrong total") [NM];
  skip (call (SUnlink (str "bigfile.dat"))).

(** ** Limits *)

(** The loops are those of forktest.c but for the message. *)
Fixpoint wait_all (n : nat) : uprog unit :=
  match n with
  | O => mret tt
  | S n => w ← call SWait; _ ← fail_if (w <? 0) (sm ": wait stopped early") [NM]; wait_all n
  end.

Definition forktest : uprog unit :=
  n ← forktest_fork 0 1000;
  _ ← fail_if (n =? 0) (sm ": no fork at all!") [NM];
  _ ← fail_if (n =? 1000) (sm ": fork claimed to work 1000 times!") [NM];
  _ ← wait_all (Z.to_nat n);
  w ← call SWait;
  fail_if (negb (w =? -1)) (sm ": wait got too many") [NM].

Definition bigarg : list Z := nl (str "bigargs test: failed") ++ repeat 32 199.
Definition bigargtest : uprog unit :=
  _ ← call (SUnlink (str "bigarg-ok"));
  pid ← call SFork;
  if pid =? 0 then
    _ ← call (SExec (str "echo") (repeat bigarg (Z.to_nat (MAXARG - 1))));
    fd ← call (SOpen (str "bigarg-ok") O_CREATE);
    _ ← call (SClose fd);
    UExit 0
  else
    _ ← fail_if (pid <? 0) (sm ": bigargtest: fork failed") [NM];
    xstatus ← wait_status junk;
    if negb (xstatus =? 0) then UExit xstatus
    else
      fd ← no_error (SOpen (str "bigarg-ok") 0) ": bigarg test failed!";
      skip (call (SClose fd)).

Definition fsfull_name (n : Z) : list Z :=
  [102; u8 (48 + Z.quot n 1000); u8 (48 + Z.quot (Z.rem n 1000) 100); u8 (48 + Z.quot (Z.rem n 100) 10); u8 (48 + Z.rem n 10)].

(** [while(1)] of the blocks of a file; returns [total].  The counter
    [fsblocks] is never read. *)
Fixpoint fsfull_blocks (fd total : Z) (fuel : nat) : uprog Z :=
  match fuel with
  | O => UNoFuel
  | S fuel =>
      cc ← call (SWrite fd (take (Z.to_nat BSIZE) buf0));
      if cc <? BSIZE then mret total else fsfull_blocks fd (total + cc) fuel
  end.

(** The loop of the files; returns [nfiles]. *)
Fixpoint fsfull_files (nfiles : Z) (fuel : nat) : uprog Z :=
  match fuel with
  | O => UNoFuel
  | S fuel' =>
      let name := fsfull_name nfiles in
      _ ← p_printf (nl (str "writing %s")) [PStr (Some name)];
      fd ← call (SOpen name CRW);
      if fd <? 0 then _ ← p_printf (nl (str "open %s failed")) [PStr (Some name)]; mret nfiles
      else
        total ← fsfull_blocks fd 0 fuel;
        _ ← p_printf (nl (str "wrote %d bytes")) [PInt total];
        _ ← call (SClose fd);
        if total =? 0 then mret nfiles else fsfull_files (nfiles + 1) fuel'
  end.

Fixpoint fsfull_unlink (n : nat) : uprog unit :=
  _ ← call (SUnlink (fsfull_name (Z.of_nat n)));
  match n with O => mret tt | S n => fsfull_unlink n end.

Definition fsfull (fuel : nat) : uprog unit :=
  _ ← p_printf (nl (str "fsfull test")) [];
  nfiles ← fsfull_files 0 fuel;
  _ ← fsfull_unlink (Z.to_nat nfiles);
  p_printf (nl (str "fsfull test finished")) [].
End tests.

(** ** Running the tests *)

(** The child allocates pages until sbrk fails.  It also stores a byte in each
    page, which nothing reads. *)
Fixpoint count_child (fd : Z) (fuel : nat) : uprog unit :=
  match fuel with
  | O => UNoFuel
  | S fuel =>
      a ← call (SSbrk 4096);
      if a =? -1 then UExit 0
      else
        w ← call (SWrite fd (str "x"));
        _ ← fail_if (negb (w =? 1)) (nl (str "write() failed in countfree()")) [];
        count_child fd fuel
  end.

Fixpoint count_read (fd n : Z) (fuel : nat) : uprog Z :=
  match fuel with
  | O => UNoFuel
  | S fuel =>
      cc ← call (SRead fd 1);
      _ ← fail_if (cc <? 0) (nl (str "read() failed in countfree()")) [];
      if cc =? 0 then mret n else count_read fd (n + 1) fuel
  end.

Definition countfree (junk : Z) (fuel : nat) : uprog Z :=
  r ← call2 SPipe;
  _ ← fail_if (r.1 <? 0) (nl (str "pipe() failed in countfree()")) [];
  let fd0 := nth 0 r.2 junk in
  let fd1 := nth 1 r.2 junk in
  pid ← call SFork;
  _ ← fail_if (pid <? 0) (nl (str "fork failed in countfree()")) [];
  _ ← (if pid =? 0 then _ ← call (SClose fd0); count_child fd1 fuel else mret tt);
  _ ← call (SClose fd1);
  n ← count_read fd0 0 fuel;
  _ ← call (SClose fd0);
  _ ← call SWait;
  mret n.

(** run: [f] in a process of its own. *)
Definition run (junk : Z) (f : list Z -> uprog unit) (s : list Z) : uprog bool :=
  _ ← p_printf (str "test %s: ") [PStr (Some s)];
  pid ← call SFork;
  _ ← fail_if (pid <? 0) (nl (str "runtest: fork error")) [];
  if pid =? 0 then _ ← f s; UExit 0
  else
    xstatus ← wait_status junk;
    _ ← p_printf (nl (if negb (xstatus =? 0) then str "FAILED" else str "OK")) [];
    mret (xstatus =? 0).

(** The command line: [continuous] and [justone]. *)
Definition usertests_args (argv : list (list Z)) : uprog (Z * option (list Z)) :=
  match argv with
  | [_; a] =>
      if u_strcmp a (str "-c") =? 0 then mret (1, None)
      else if u_strcmp a (str "-C") =? 0 then mret (2, None)
      else if negb (u_hd a =? 45) then mret (0, Some a)
      else _ ← fail_if true (nl (str "Usage: usertests [-c] [testname]")) []; mret (0, None)
  | _ =>
      _ ← fail_if (Nat.ltb 1 (length argv)) (nl (str "Usage: usertests [-c] [testname]")) [];
      mret (0, None)
  end.

Section main.
(** The table of the tests. *)
Context (junk : Z) (tests : list ((list Z -> uprog unit) * list Z)).

(** The tests up to the first that fails. *)
Fixpoint run_until_fail (ts : list ((list Z -> uprog unit) * list Z)) : uprog bool :=
  match ts with
  | [] => mret false
  | (f, s) :: ts => ok ← run junk f s; if ok : bool then run_until_fail ts else mret true
  end.

Fixpoint run_continuous (continuous : Z) (fuel : nat) : uprog unit :=
  match fuel with
  | O => UNoFuel
  | S fuel' =>
      free0 ← countfree junk fuel;
      failed ← run_until_fail tests;
      _ ← (if failed : bool then
             _ ← p_printf (nl (str "SOME TESTS FAILED")) [];
             if negb (continuous =? 2) then UExit 1 else mret tt
           else mret tt);
      free1 ← countfree junk fuel;
      _ ← (if free1 <? free0 then
             _ ← p_printf (nl (str "FAILED -- lost %d free pages")) [PInt (free0 - free1)];
             if negb (continuous =? 2) then UExit 1 else mret tt
           else mret tt);
      run_continuous continuous fuel'
  end.

(** All the tests, or those named [justone]; whether one failed. *)
Fixpoint run_tests (justone : option (list Z)) (failed : bool) (ts : list ((list Z -> uprog unit) * list Z)) : uprog bool :=
  match ts with
  | [] => mret failed
  | (f, s) :: ts =>
      if match justone with None => true | Some one => u_strcmp s one =? 0 end then
        ok ← run junk f s;
        run_tests justone (if ok : bool then failed else true) ts
      else run_tests justone failed ts
  end.

Definition run_once (justone : option (list Z)) (fuel : nat) : uprog unit :=
  _ ← p_printf (nl (str "usertests starting")) [];
  free0 ← countfree junk fuel;
  failed ← run_tests justone false tests;
  if failed : bool then fail_if true (nl (str "SOME TESTS FAILED")) []
  else
    free1 ← countfree junk fuel;
    if free1 <? free0 then
      fail_if true (nl (str "FAILED -- lost some free pages %d (out of %d)")) [PInt free1; PInt free0]
    else _ ← p_printf (nl (str "ALL TESTS PASSED")) []; UExit 0.

Definition usertests_main (argv : list (list Z)) (fuel : nat) : uprog unit :=
  c ← usertests_args argv;
  if negb (c.1 =? 0) then
    _ ← p_printf (nl (str "continuous usertests starting")) [];
    run_continuous c.1 fuel
  else run_once c.2 fuel.
End main.
