(* ===== verification/KernelRun.v ===== *)
(** * User programs on the modelled kernel

    The programs of Procs.v are trees of system calls.  Here the calls are
    answered by the kernel itself: a call puts its arguments into user memory
    and into the trapframe, traps into [usertrap], and takes its result from
    the trapframe and from user memory.  The kernel is booted from the image
    that mkfs makes. *)

From Stdlib Require Import ZArith Lia.
From stdpp Require Import base gmap list numbers strings.
From S2P Require Import Prelude Riscv Core Spinlock Kstring Kalloc Vm Sleeplock Bio BioAbs Log Fs Uart Virtio Kst KstExample Sched Printf Console File Proc Syscall Sysproc Sysfile Trap Boot Mkfs FsBoot User Procs Commands Usertests.
Local Open Scope Z_scope.

(** ** System calls *)

(** What the program does to its memory. *)
Definition user_store (va : Z) (l : list Z) : M kst unit :=
  p ← myproc_idx;
  x ← gets (get_proc p);
  r ← lift kl_kmem (copyout (p_pagetable x) va l (Z.of_nat (length l)));
  if r =? 0 then mret tt else fault "store".
Definition user_load (va n : Z) : M kst (list Z) :=
  p ← myproc_idx;
  x ← gets (get_proc p);
  r ← lift kl_kmem (copyin (p_pagetable x) va n);
  if r.1 =? 0 then mret r.2 else fault "load".

(** An ecall instruction: uservec saves the registers to the trapframe, the
    hart traps with interrupts off, and the value is a0 afterwards. *)
Definition ecall (num : Z) (args : list Z) : M kst Z :=
  p ← myproc_idx;
  _ ← tf_set p TF_a7 num;
  _ ← forM (zip (seq 0 6) args) (fun a => tf_set p (TF_a0 + 8 * Z.of_nat a.1) (u64 a.2));
  _ ← w_csr Scause 8;
  _ ← usertrap (fun _ => false);
  tf_get p TF_a0.

(** Where the arguments are in the one page of the program. *)
Definition PATH1 : Z := 1024.
Definition PATH2 : Z := 1280.
Definition DATA : Z := 2048.

Definition int_call (num : Z) (args : list Z) : M kst reply :=
  r ← ecall num args;
  mret (s32 r, []).
Definition path_call (num : Z) (path : list Z) (args : list Z) : M kst reply :=
  _ ← user_store PATH1 (path ++ [0]);
  int_call num (PATH1 :: args).

(** The calls that concern files, for a program that runs alone. *)
Definition ucall (c : scall) : M kst reply :=
  match c with
  | SOpen path mode => path_call SYS_open path [mode]
  | SMknod path major minor => path_call SYS_mknod path [major; minor]
  | SMkdir path => path_call SYS_mkdir path []
  | SUnlink path => path_call SYS_unlink path []
  | SChdir path => path_call SYS_chdir path []
  | SLink old new => _ ← user_store PATH2 (new ++ [0]); path_call SYS_link old [PATH2]
  | SClose fd => int_call SYS_close [fd]
  | SDup fd => int_call SYS_dup [fd]
  | SGetpid => int_call SYS_getpid []
  | SWrite fd l => _ ← user_store DATA l; int_call SYS_write [fd; DATA; Z.of_nat (length l)]
  | SRead fd n =>
      r ← int_call SYS_read [fd; DATA; n];
      l ← (if 0 <? r.1 then user_load DATA r.1 else mret []);
      mret (r.1, l)
  | _ => fault "not a call on files"
  end.

(** The program; [inr] is the status it exits with. *)
Fixpoint urun {A} (m : uprog A) : M kst (A + Z) :=
  match m with
  | URet a => mret (inl a)
  | UExit n => mret (inr n)
  | UStuck => fault "program"
  | UNoFuel => nofuel
  | UCall c k => r ← ucall c; urun (k r)
  end.

(** ** Boot *)

(** main of main.c without its messages, the kernel page table and the disk
    driver (the disk is the map of blocks of Bio.v), then the scheduler's
    choice of the first process, and forkret. *)
Definition boot : M kst unit :=
  _ ← consoleinit;
  _ ← printfinit;
  _ ← procinit;
  _ ← trapinit;
  _ ← trapinithart;
  _ ← plicinit;
  _ ← plicinithart;
  _ ← lift kl_log (bio binit);
  _ ← lift kl_fs iinit;
  _ ← fileinit;
  _ ← userinit;
  b ← scheduler_try 0;
  if (b : bool) then _ ← forkret; mret tt else fault "no process".

(** The image of a README and two programs. *)
Definition image : disk :=
  match mkfs_main false (fun _ => true) (fun _ => Some [str "hello "; str "world"])
          [str "mkfs"; str "fs.img"; str "README"; str "user/_cat"; str "user/_echo"] mk_start with
  | MkExit _ s => image_of s
  | _ => mkDisk ∅ []
  end.

(** The hart and the globals when main starts: kinit has run and eight pages
    are free. *)
Definition core0 : core := mkCore 0 0 0 0 None (list_to_map [(LkKmem, mkSpinlock 0 "kmem" None)]) [] ∅.
Definition kst0 : kst :=
  mkKst (fs_state0 image exk_kmem) ∅ (repeat (mkFile FD_NONE 0 0 0 0 0 0 0) 100) (repeat (mkDevsw false false) 10) (mkCons (repeat 0 128) 0 0 0)
    (mkUart (repeat 0 32) 0 0 0 [] [] []) 0 (repeat proc0 64) None 1 1 0 0
    (mkSymbols 0 0x80007000 0 0 0x80001000 0 0 0 0 0 0) (fun _ => 0) [] [] 1
    (mkVdisk [] 0 [] 0 [] [] 0 [] [] [] ∅ (fun _ => 0) []).


(** ** Tests *)

(** Three of the tests of usertests.c one after the other. *)
Definition suite (s : list Z) : list (uprog unit) := [linktest s; unlinkread s; rmdot s].
Fixpoint urun_all (ms : list (uprog unit)) : M kst (list (unit + Z)) :=
  match ms with
  | [] => mret []
  | m :: ms => r ← urun m; rs ← urun_all ms; mret (r :: rs)
  end.

Definition disk_of (s : kst) : disk := bc_disk (ls_bio (fs_log (k_fs s))).
Definition out_of (s : kst) : list (Z * Z) := ud_out (k_uart s).

(** No lock is held, no file is open, the only inode in use is the current
    directory. *)
Definition at_rest (c : core) (s : kst) : Prop :=
  map_Forall (fun _ l => lk_locked l = 0) (c_locks c) /\
  map_Forall (fun _ l => sl_locked l = 0) (c_slocks c) /\
  c_noff c = 0 /\
  Forall (fun f => f_ref f = 0) (k_ftable s) /\
  Forall (fun ip => in_ref ip = if decide (in_inum ip = ROOTINO) then 1 else 0) (fs_itable (k_fs s)).

(** The boot block, the super block, the inodes, the free-block map, the root
    directory and the three files are, bit by bit, those of the image.  The
    log, blocks 2 to 31, keeps the blocks of the last transactions. *)
Definition restored (s : kst) : Prop :=
  Forall (fun b => disk_read (disk_of s) b = disk_read image b) (0 :: 1 :: seqZ 32 18).

Definition passed (s0 : kst) (l : list (unit + Z)) (c : core) (s : kst) : Prop :=
  l = [inl tt; inl tt; inl tt] /\ out_of s = out_of s0 /\ at_rest c s /\ restored s.
#[local] Instance passed_dec s0 l c s : Decision (passed s0 l c s) := _.

Definition verdict (r0 : res kst unit) (f : core -> kst -> res kst (list (unit + Z))) : bool :=
  match r0 with
  | Ok _ c0 s0 => match f c0 s0 with Ok l c s => bool_decide (passed s0 l c s) | _ => false end
  | _ => false
  end.

Lemma verdict_passed r0 f : verdict r0 f = true ->
  exists c0 s0 l c s, r0 = Ok tt c0 s0 /\ f c0 s0 = Ok l c s /\ passed s0 l c s.
Proof.
  unfold verdict. intros H. destruct r0 as [[] c0 s0|?|?|?|? ? ?|]; try discriminate.
  destruct (f c0 s0) as [l c s|?|?|?|? ? ?|] eqn:E; try discriminate.
  apply bool_decide_eq_true_1 in H. by exists c0, s0, l, c, s.
Qed.

Lemma suite_verdict name : verdict (boot core0 kst0) (urun_all (suite name)) = true.
Proof. vm_compute. reflexivity. Qed.

(** Booted from the image that mkfs makes, the kernel passes the tests
    linktest, unlinkread and rmdot: the system calls answer as the tests
    demand, nothing is printed, and in the end no lock is held, no file is
    open and every block that was in use and is not of the log is as it was.
    This is one run, by evaluation. *)
Example usertests_pass name :
  exists c0 s0 l c s, boot core0 kst0 = Ok tt c0 s0 /\ urun_all (suite name) c0 s0 = Ok l c s /\ passed s0 l c s.
Proof. exact (verdict_passed _ _ (suite_verdict name)). Qed.
